(* ===== verification/_CoqProject ===== *)
-Q . S2P
Prelude.v
Types.v
Tx.v
Uuid.v
Backoff.v
Float64.v
PgListen.v
Notify.v
Utf8.v
MetadataCache.v
World.v
Config.v
Fake.v
Migrations.v
IndexRepair.v
Queries.v
Channel.v
Publish.v
PubSub.v
Gc.v
GcChannel.v
GcTopic.v
Replay.v
ReplayDlq.v
ReplayTopic.v
Stats.v
Batch.v
BatchTopic.v
Contract.v
Lifecycle.v
TopicLifecycle.v
FakeLifecycle.v
Admin.v
GcPool.v
PgParam.v
Consume.v
Iterate.v
HandlerLoop.v
Shutdown.v
Observability.v
PromMetrics.v
OtelMetrics.v
WakeUp.v
Startup.v
