(* ===== verification/Prelude.v ===== *)
(** * pgqueue: a verification development

    pgqueue is a Go library that keeps message queues in PostgreSQL.  A [Queue]
    handle publishes to channels (each message goes to one consumer) and to topics
    (each message goes to every active subscriber), hands messages out under a
    visibility timeout, retries them with backoff, moves exhausted ones to a
    dead-letter table from which they can be replayed, and runs a garbage collector
    over all of it.  Consumers poll, or are woken by LISTEN/NOTIFY through a listener
    of their choice; pglisten is the one the repository ships.  The program is a set
    of SQL transactions issued from Go, and of goroutines that issue them; its
    correctness is that of those transactions, of the order in which they run, of
    the protocols between the goroutines, and of the pure code around them (options,
    names, UUIDs, backoff, error texts).

    ** The model

    - [Types]: the data of types.go, errors.go, config.go and options.go, and the
      tables pgqueue.go creates: per database the metadata, subscriber, replay-log
      and notification tables ([DB]); per channel a message and a dead-letter table
      ([channelTables]); per topic a message, a subscription and a dead-letter table
      ([topicTables]).  A table is a finite map from the primary key to a record of
      its columns; a nullable column is an option.
    - [Tx]: a transaction body ([tx S A]), a program over the tables [S] that fails
      with an error or returns a value, as the Go closures given to withTx do; the
      environment [env] holds what the server decides (NOW(), the rows other
      transactions lock, the values of uuidv7(), which statement, BEGIN or COMMIT
      fails) and what the process draws (random numbers, clock readings).  A failed
      statement aborts the transaction.  [wp] is its weakest precondition and
      [wp_step] the tactic that runs one step.
    - [World]: the state of the process ([world]: database, closed flag, metadata
      cache, UUID generator, number of server steps so far) and its programs
      ([io A]).  Step [m] of the server runs in the environment [o m] of an oracle
      [o]; [withTx] (pgqueue.go) commits the result of a body or leaves the database as
      it was, and a COMMIT that returns an error may have gone through, when only its
      answer was lost.  [iwp] and [iwp_step] are the counterparts of [wp] and [wp_step].
      The class [Server] is PostgreSQL's make_interval, [ServerLaws] what is assumed
      of its rounding; [truncating_server] is an instance.
    - [Uuid] (uuid.go), [Backoff] (backoff.go, over IEEE doubles), [Utf8]
      (truncateErrorMsg of channel.go), [MetadataCache] (metadatacache.go) and
      [Config] (config.go, options.go, the validation half of pgqueue.go): the code
      that needs no database.
    - [Queries] (queries.go): metadata and subscriber lookups, the replay log, the
      classification of driver errors and of missed claims, keyset pagination.
    - [Channel] (channel.go): consumeFromChannel with the reclaim loop, ack, nack,
      visibility extension, dead-lettering.
    - [Publish] (publish.go, batch.go, the notification of notify.go) and [PubSub]
      (pubsub.go): the same for topics, with subscriptions and the fan-out.
    - [Batch] (batch.go): acks and nacks of many receipts in one transaction;
      [BatchTopic] proves what they do to a topic, [PgParam] (pgparam.go) that the server
      reads the array literals as the lists used here.  [Consume] (consume.go, handler_retry.go): Receive, Ack, Nack and
      batches over several queues, and the worker loop around a handler.
      [Iterate] has the range-over-func iterators.
    - [Replay] (replay.go, dlq.go): replaying by time, by message and from the
      dead-letter table, page by page, with the audit log, and listing dead letters;
      [ReplayDlq] and [ReplayTopic] prove what a replay of dead letters does to a
      channel and to a topic.  [Stats] (stats.go): the statistics, over the decoding
      of SQL numbers into doubles ([Decoder], [DecoderLaws]; [Float64] has the facts
      on rounding).
    - [Gc] (gc.go): retention policies, the paged purges, the promotion of exhausted
      deliveries, the reset of timed-out ones, doCollectQueue; [GcChannel] and
      [GcTopic] prove what a pass does to a queue of each type.
    - [Contract]: what a queue promises of its deliveries, as an abstract machine on
      rows ([contract_step]) that keeps a history of publishes, deliveries and
      acknowledgements, and the class of its implementations ([Implements]).
      [Lifecycle] and [TopicLifecycle] implement it with the transaction bodies of all
      of the above on one channel, or one topic, replays included, as a step relation
      for what must hold under every interleaving; [FakeLifecycle] implements it with
      the methods of the test double.
    - [Admin] (pgqueue.go): creating, deleting, listing, pausing queues.
    - [Fake] (fake/fake.go): the in-memory test double, a program over its own maps.
    - [Observability] (observability.go, and the instrumentation of publish.go, batch.go,
      consume.go, stats.go, queries.go, gc.go and replay.go): the same operations with
      their spans, metrics and log lines, as programs ([act]) in which every call of a
      tracer or a recorder may panic; tracer and recorder are records of arbitrary
      methods.  Only here do calls have a context: the rest of an operation runs under
      the one [StartSpan] returned, and [under] says how calls under a context are
      answered.  [PromMetrics] (prompgqueue) and [OtelMetrics] (otelpgqueue) are the two
      recorders, and the tracer, that the repository ships, over the client libraries
      as classes with their documented laws.

    What runs concurrently is a transition system instead, with a step for each
    critical section, atomic load, channel operation or statement of the code and
    an event type that lists who can move; a run is a list of events, and what the
    environment decides (an answer of the server, a timer, which ready case a select
    takes) is part of the event.

    - [PgListen] (pglisten/listener.go): the LISTEN connection: callers of Listen,
      Unlisten and Close, the run goroutine with its drains, waits, probes and
      reconnections, and a session that can die anywhere.
    - [Notify] (notify.go): the registry of wakers over any Listener: wakeChan,
      the confirmation goroutines, forget, the pump, close.
    - [HandlerLoop] (consume.go): the worker pool of one handler-driven loop;
      [Shutdown] (pgqueue.go, gc.go, consume.go): these loops, the collectors with
      Start, Stop and run, and any number of calls of Close.
    - [GcPool] (gc.go): the pass of a collector over all queues with its workers.
    - [Migrations] (migrations.go): any number of processes migrating the schema;
      [IndexRepair] (index_repair.go): the repair of invalid indexes, sequential.
    - [Startup] (InitSchema and New of pgqueue.go) and [WakeUp] (ConsumeChannel,
      ConsumeTopic, armWake and waitForWork of consume.go) compose: the former the
      options, the probe of the server and the migrations, the latter the workers of
      [HandlerLoop], the notifier of [Notify] and the programs of [Publish] and
      [Consume] on the database.

    Definitions carry the names of the Go functions and follow them branch by
    branch; a SQL statement is a function on the tables with the statement's WHERE,
    ORDER BY and LIMIT as a predicate, a key and a number ([sql_select_limit] and the
    like, below).  64-bit integers are integers with [wrap64] written where Go wraps.

    ** What the theorems show

    - Channels: however transactions interleave, no message is delivered more than
      maxRetries + 1 times since it was published or last replayed, and an
      acknowledgement that commits belongs to the latest delivery and is final until a
      replay ([channel_deliveries_bounded], [channel_acks_fenced]); each operation refines an abstract rule on the tables
      ([consumeFromChannel_refines], [ackChannel_exact], [nackChannel_exact],
      [extendChannelVisibility_exact]), with the order of delivery and when a call
      may come back empty ([channel_consume_fifo], [channel_consume_exhaustive]).
    - Publishing: all or nothing under every failure, where an error that is not the loss
      of the COMMIT's answer means nothing; what a successful publish checks and stores,
      and the exact fan-out ([publish_all_or_nothing],
      [publishToChannel_exact], [publishToPubSub_fans_out]).
    - Topics: the per-subscriber versions, with the other subscribers untouched
      ([consumeFromTopic_refines], [ackTopic_exact], [nackTopic_exact]), and the same
      guarantees per subscriber under every interleaving ([topic_interleavings_safe]).
    - Batches are the single operations ([ackChannelBatch_is_acks],
      [nackChannelBatch_is_nacks], [ackTopicBatch_is_acks], [nackTopicBatch_is_nacks]),
      their parameters reach the server intact ([array_literals_roundtrip]), and they account for every receipt ([batch_accounts]);
      receive and ack are a round trip; a handler's message is settled
      ([dispatch_settles]) and fetching ends as documented ([fetchNext_outcome]).
    - Garbage collection loses nothing it should keep, leaves deliveries in progress
      alone, keeps dead letters replayable and leaves nothing overdue behind
      ([gc_channel_safe], [gc_topic_safe], [gc_channel_thorough],
      [gc_topic_thorough]).
      A pass over all queues keeps to its worker limit, accounts for every queue and
      error, returns, and reaches every queue of the database ([gc_pass_accounts],
      [gc_pass_terminates], [Collect_reaches_every_queue]).
    - Replay: dead letters go back exactly once, in order, and the rest stays
      ([ReplayDLQ_channel_refines], [ReplayDLQ_channel_safe],
      [ReplayDLQ_topic_exact]), a dry run previews the real one, replays by time and by
      message are exact ([ReplayFrom_channel_exact], [ReplayFrom_topic_exact],
      [ReplayMessage_exact]), each page with its audit row.  Replay resets the retry
      count of a message, so the delivery bound above counts from the last replay.
    - Statistics are consistent with the tables and with each other, the depth is
      the number of messages that calls of consumeFromChannel hand out until the channel
      is empty (and is reported of a paused channel too), and no float makes a duration
      overflow ([Stats_consistent], [QueueDepth_drains],
      [UnhealthySubscribers_exact], [seconds_conversion_total]).
    - The LISTEN driver never sleeps on queued work, loses no caller, restores its
      subscriptions after a reconnection and stops when closed
      ([run_never_sleeps_on_work], [listen_callers_accounted], [reconnect_restores],
      [listen_means_subscribed], [close_ends_the_loop]); the registry keeps its books
      and a notification wakes every consumer that waits for it
      ([notifier_books_sound], [notification_wakes]).  Put together: a message published
      while a worker looks for one or sleeps wakes it without the poll timer
      ([published_message_wakes]).
    - Observation changes nothing: whatever tracer and recorder are plugged in, an
      operation does not panic and records exactly the events it should, and if the
      contexts the tracer returns behave like those it was given, the operation returns
      what it returns without them and leaves the same database
      ([operations_observed_exactly], [dispatch_observed_exactly]), except that a panicking span escapes from the replay
      methods ([replay_span_panic_escapes]), which the OpenTelemetry tracer rules out
      ([otel_replay_transparent]).  Registering twice reuses the collectors
      ([NewMetrics_registers_once]), the counters say what succeeded
      ([counters_tell_the_truth]), the two backends observe the same numbers under
      corresponding names ([backends_agree]) and attributes keep their integers
      ([integer_attrs_lossless]).
    - Goroutines: a handler pool runs the configured number of workers within its limits,
      returns the first error and bounds its retries
      ([handler_pool_sound]); after Close has returned nothing the queue owns runs
      again ([closed_queue_is_quiet]), and Close does return ([close_returns]); an
      iterator drops no message it received ([messagesIter_yields_received]).
    - Migrations are committed once and in order whatever fails and however many
      processes run ([migrations_run_once]), and New opens a queue exactly when the
      schema it needs, by whatever case of its name, has been committed ([startup_order]); a repair pass accounts for every
      invalid index ([repair_accounts]).
    - The test double keeps the delivery contract of the real queue
      ([fake_keeps_contract]), keeps its state well formed, delivers
      the oldest message first and dead-letters at the limit ([fake_state_wf],
      [fake_receives_oldest], [fake_dead_letters_at_limit]).
    - Administration: creation, deletion, listing and pausing, each exactly.
    - Pure code: UUIDs strictly increase and round-trip their timestamp, delays stay
      in their bounds for every random draw, table names keep to a safe charset
      and length, configuration checks are exact, the cache refines an unbounded map.
    - Behaviours that differ from what the code means or says: a NUL byte in an error
      text ([nack_nul_fails]); two options InitSchema does not reject
      ([InitSchema_accepts_inapplicable_options]); a LISTEN connection that fails is
      not reconnected but spun on ([connection_error_spins]); a Listen right after an
      Unlisten ends unsubscribed ([relisten_before_drain_is_lost]), and so can a
      queue that is deleted and recreated ([forget_races_with_recreate]); a second
      Close does not wait ([late_close_returns_early]) and an orderly Close can
      surface as a failed loop ([close_reported_as_failure]); a repair whose CREATE
      fails loses the index ([failed_repair_loses_index]), and a schema name with a
      capital letter hides its indexes from the repair ([capital_schema_unrepaired]); the
      caveat on dry runs of ReplayDLQ does not hold of topics
      ([ReplayDLQ_topic_exact]).

    ** Assumptions, bounds and fuel

    Theorems that a call returns assume a working server, [reliable o] (no statement
    fails); atomicity and accounting do not.  uuidv7() is assumed not to repeat a key
    of the dead-letter table ([gen_fresh], [gen_distinct]).  Rows other transactions
    lock are skipped, as SKIP LOCKED does, and every statement says so.  Interleavings are
    sequences of whole transactions: the program runs under READ COMMITTED, and what a
    concurrent transaction can show a statement beyond the rows it locks is not in the
    model.  Clock readings in milliseconds fit in 48 bits where UUIDs are minted.
    Metadata strings are valid UTF-8, which json.Marshal would otherwise make them; the
    jsonb columns refuse those with a NUL.  Subscribers are listed in byte order, which is
    that of the C collation.  Unqualified names resolve to the schema public.  A consume
    call looks at no more than 64 timed-out messages, the program's own bound.
    Loops that Go leaves unbounded run with fuel that is proved to be enough: a page
    loop makes at most one page more than the queue has rows, since every full page
    removes or settles one; the listing loop at most one page more than there are
    queues; a replay loop at most one page more than there are candidates.  In the
    transition systems termination is a measure that every step of the goroutines
    concerned decreases, with the absence of deadlock.  [fetchNext] waits for messages and does not end by itself: its fuel is
    the number of rounds it is run for, and [fetchNext_outcome] says what it can have
    come to after any number of them.

    ** Not modelled

    Of the CREATE INDEX statements only that they are issued and may fail.  The pump of the
    notifier after a panic it has recovered from, which ends it; and that closing the
    notifier waits for the listener, which is one step here ([Shutdown], [Notify]).  The
    fake mints an ID before it takes its mutex, here with it.  A collector of client_golang
    is identified by its label names in any order, here in the order given.  Contexts that
    are nil.

    The log lines of the collector and of the LISTEN driver, and the labels of
    third-party exporters, are left out.  The context text that wraps an error
    (receiptError and the fmt.Errorf prefixes) is not kept, only what errors.Is sees.  The
    SQL text itself is represented by the effect of each statement, and the drivers
    (database/sql, pgx) by the answers they can give.  The transition systems do not
    carry the tables: [Shutdown], [HandlerLoop] and [GcPool] treat what a receive or a
    collection returns as an input, which the sequential models describe; [WakeUp]
    carries the tables, but takes the database work of one call as one step.  The
    extended visibility of a delivery is not part of the contract, which speaks of claims
    and not of time.  What the sources hold beyond that has no behaviour of its own:
    interfaces, log helpers, structs that carry a scanned row to the next line, storage
    parameters of CREATE TABLE; the example programs only call the library.

    ** This file

    Scopes and abbreviations, 64-bit integers, the SQL selections and updates on
    finite maps with their lemmas, and small facts on lists shared by the
    components. *)

From stdpp Require Export base gmap strings list sorting fin_maps.
From Stdlib Require Export Strings.Byte.
From Stdlib Require Import ZArith Lia.

#[export] Set Default Goal Selector "!".
Local Open Scope Z_scope.

(** ** Scopes and abbreviations *)

Declare Scope pgq_scope.
Delimit Scope pgq_scope with pgq.

(** A UUID is its 128-bit big-endian value: PostgreSQL and [bytes.Compare] order
    UUIDs by their bytes, which is the numeric order of that value. *)
Abbreviation uuid := Z (only parsing).
(** A Go [[]byte] (and a Go string that may hold arbitrary bytes). *)
Abbreviation bytes := (list Byte.byte) (only parsing).
(** A Go [time.Duration], in nanoseconds. *)
Abbreviation Duration := Z (only parsing).
(** A PostgreSQL [timestamptz], in microseconds. *)
Abbreviation timestamp := Z (only parsing).

(** ** Machine integers *)

Definition int64_min : Z := - 2 ^ 63.
Definition int64_max : Z := 2 ^ 63 - 1.

(** Two's-complement wrap-around of Go's 64-bit [int]. *)
Definition wrap64 (z : Z) : Z := (z + 2 ^ 63) mod 2 ^ 64 - 2 ^ 63.

(** ** Relations: the SQL statements the code issues, over a table keyed by its
    primary key.  [P id row] is the WHERE clause, [k row] the leading ORDER BY
    key; the primary key breaks ties, as in every ORDER BY of the code. *)
Section sql.
Context {R : Type}.
Implicit Types (m : gmap Z R) (P : Z -> R -> bool) (k : R -> Z).

Definition row_le (k : R -> Z) : relation (Z * R) :=
  fun x y => k x.2 < k y.2 \/ (k x.2 = k y.2 /\ x.1 <= y.1).

#[export] Instance row_le_dec k : RelDecision (row_le k).
Proof. intros x y; unfold row_le; apply _. Defined.

(** SELECT ... WHERE P ORDER BY k, id *)
Definition sql_select P k m : list (Z * R) :=
  merge_sort (row_le k) (filter (fun x => P x.1 x.2 = true) (map_to_list m)).

(** SELECT ... WHERE P ORDER BY k, id LIMIT n *)
Definition sql_select_limit (n : nat) P k m : list (Z * R) :=
  take n (sql_select P k m).

(** SELECT COUNT( * ) ... WHERE P *)
Definition sql_count P m : nat := length (sql_select P (fun _ => 0) m).

(** UPDATE ... SET f WHERE id = i AND c, with the number of rows affected *)
Definition sql_update_id (i : Z) (c : R -> bool) (f : R -> R) m : gmap Z R * nat :=
  match m !! i with
  | Some r => if c r then (<[i := f r]> m, 1%nat) else (m, 0%nat)
  | None => (m, 0%nat)
  end.

(** UPDATE ... SET f WHERE id IN ids *)
Definition sql_update_ids (ids : list Z) (f : R -> R) m : gmap Z R :=
  map_imap (fun i r => Some (if decide (i ∈ ids) then f r else r)) m.

(** DELETE ... WHERE id IN ids *)
Definition sql_delete_ids (ids : list Z) m : gmap Z R :=
  filter (fun x => x.1 ∉ ids) m.

(** INSERT ... ON CONFLICT (id) DO NOTHING of one row: the rows affected *)
Definition sql_insert (i : Z) (r : R) m : gmap Z R * nat :=
  match m !! i with
  | Some _ => (m, 0%nat)
  | None => (<[i := r]> m, 1%nat)
  end.

(** The multi-row INSERT ... ON CONFLICT (id) DO NOTHING RETURNING id: rows are
    proposed in order and a row whose key is already taken, also by an earlier
    row of the same statement, is skipped.  The ids inserted are returned. *)
Fixpoint sql_insert_many (rs : list (Z * R)) m : gmap Z R * list Z :=
  match rs with
  | [] => (m, [])
  | (i, r) :: rs =>
      match m !! i with
      | Some _ => sql_insert_many rs m
      | None => let '(m', ids) := sql_insert_many rs (<[i := r]> m) in (m', i :: ids)
      end
  end.

End sql.

(** ** Lemmas *)

Lemma wrap64_small z : int64_min <= z <= int64_max -> wrap64 z = z.
Proof. unfold wrap64, int64_min, int64_max. intros. rewrite Z.mod_small; lia. Qed.

Lemma wrap64_succ z : 0 <= z < int64_max -> wrap64 (z + 1) = z + 1.
Proof. intros. apply wrap64_small. unfold int64_min, int64_max in *. lia. Qed.

(** Filtering lists *)
Section filter_lemmas.
Context {A : Type} (P : A -> Prop) {Pdec : forall x, Decision (P x)}.

Lemma filter_keep (l : list A) : (forall x, x ∈ l -> P x) -> filter P l = l.
Proof.
  induction l as [|x l IH]; [done|]. intros H. rewrite filter_cons_True by (apply H; left).
  f_equal. apply IH. intros y Hy. apply H. by right.
Qed.

Lemma filter_drop (l : list A) : (forall x, x ∈ l -> ~ P x) -> filter P l = [].
Proof.
  induction l as [|x l IH]; [done|]. intros H. rewrite filter_cons_False by (apply H; left).
  apply IH. intros y Hy. apply H. by right.
Qed.

Lemma StronglySorted_filter (R : relation A) (l : list A) :
  StronglySorted R l -> StronglySorted R (filter P l).
Proof.
  induction 1 as [|x l Hs IH Hx]; [constructor|]. rewrite filter_cons. case_decide; [|done].
  constructor; [done|]. rewrite Forall_forall in *. intros y [_ Hy]%list_elem_of_filter. auto.
Qed.

End filter_lemmas.

Lemma filter_iff_in {A} (P P' : A -> Prop) `{!forall x, Decision (P x), !forall x, Decision (P' x)}
    (l : list A) : (forall x, x ∈ l -> P x <-> P' x) -> filter P l = filter P' l.
Proof.
  induction l as [|x l IH]; [done|]. intros Hiff. rewrite !filter_cons.
  rewrite IH by (intros y Hy; apply Hiff; by right).
  pose proof (Hiff x ltac:(left)). repeat case_decide; tauto.
Qed.

Lemma filter_list_fmap {A B} (f : A -> B) (P : B -> Prop) `{!forall x, Decision (P x)} (l : list A) :
  filter P (f <$> l) = f <$> filter (fun x => P (f x)) l.
Proof.
  induction l as [|x l IH]; [done|]. rewrite fmap_cons, !filter_cons, IH. by case_decide.
Qed.

Section sql_lemmas.
Context {R : Type}.
Implicit Types (m : gmap Z R) (P : Z -> R -> bool) (k : R -> Z).

#[export] Instance row_le_trans k : Transitive (row_le (R:=R) k).
Proof. intros x y z. unfold row_le. lia. Qed.

#[export] Instance row_le_total k : Total (row_le (R:=R) k).
Proof. intros x y. unfold row_le. lia. Qed.

Lemma elem_of_sql_select P k m i r :
  (i, r) ∈ sql_select P k m <-> m !! i = Some r /\ P i r = true.
Proof.
  unfold sql_select. rewrite merge_sort_Permutation, list_elem_of_filter,
    elem_of_map_to_list. naive_solver.
Qed.

Lemma NoDup_sql_select P k m : NoDup (sql_select P k m).*1.
Proof.
  unfold sql_select.
  eapply (NoDup_Permutation_proper _ (filter (fun x => P x.1 x.2 = true) (map_to_list m)).*1).
  { by rewrite merge_sort_Permutation. }
  pose proof (NoDup_fst_map_to_list m) as Hnd. revert Hnd.
  generalize (map_to_list m). intros l. induction l as [|[i r] l IH]; [done|].
  rewrite fmap_cons, NoDup_cons. intros [Hi Hl].
  rewrite filter_cons. case_decide; [|by apply IH].
  rewrite fmap_cons, NoDup_cons. split; [|by apply IH].
  cbn in *. intros (x & -> & Hx%list_elem_of_filter)%list_elem_of_fmap.
  apply Hi, list_elem_of_fmap. naive_solver.
Qed.

Lemma sql_select_sorted P k m : StronglySorted (row_le k) (sql_select P k m).
Proof. unfold sql_select. apply StronglySorted_merge_sort; apply _. Qed.

Lemma sql_select_nil P k m :
  sql_select P k m = [] <-> (forall i r, m !! i = Some r -> P i r = false).
Proof.
  split.
  - intros H i r Hi. destruct (P i r) eqn:E; [|done].
    assert ((i, r) ∈ sql_select P k m) as Hin by by apply elem_of_sql_select.
    rewrite H in Hin. by apply elem_of_nil in Hin.
  - intros H. destruct (sql_select P k m) as [|[i r] l] eqn:E; [done|].
    assert ((i, r) ∈ sql_select P k m) as [Hi HP]%elem_of_sql_select
      by (rewrite E; left). specialize (H i r Hi). congruence.
Qed.

(** The first row a probe returns is a matching row that no matching row precedes. *)
Lemma sql_select_head P k m x l :
  sql_select P k m = x :: l ->
  m !! x.1 = Some x.2 /\ P x.1 x.2 = true /\
  (forall i r, m !! i = Some r -> P i r = true -> row_le k x (i, r)).
Proof.
  intros E. destruct x as [i r].
  assert ((i, r) ∈ sql_select P k m) as [Hi HP]%elem_of_sql_select by (rewrite E; left).
  split_and!; [done..|]. intros j q Hj HQ.
  assert ((j, q) ∈ sql_select P k m) as Hin by by apply elem_of_sql_select.
  pose proof (sql_select_sorted P k m) as Hs. rewrite E in Hs, Hin.
  apply elem_of_cons in Hin as [[= -> ->]|Hin]; [right; split; [done|apply Z.le_refl]|].
  apply StronglySorted_inv in Hs as [_ Hall]. rewrite Forall_forall in Hall. by apply Hall.
Qed.

Lemma row_le_antisymm_in k m x y :
  m !! x.1 = Some x.2 -> m !! y.1 = Some y.2 -> row_le k x y -> row_le k y x -> x = y.
Proof.
  destruct x as [i r], y as [j q]. unfold row_le. cbn. intros Hi Hj H1 H2.
  assert (i = j) as -> by lia. rewrite Hi in Hj. by injection Hj as ->.
Qed.

(** The result of a select is the only sorted list, without repetition, of the
    matching rows. *)
Lemma sql_select_unique P k m (l : list (Z * R)) :
  StronglySorted (row_le k) l -> NoDup l.*1 ->
  (forall i r, (i, r) ∈ l <-> m !! i = Some r /\ P i r = true) -> sql_select P k m = l.
Proof.
  intros Hs Hnd Hl. apply (StronglySorted_unique_strong (row_le k)).
  - intros [i r] [j q] [Hx _]%elem_of_sql_select [Hy _]%Hl. by apply (row_le_antisymm_in k m).
  - apply sql_select_sorted.
  - done.
  - apply NoDup_Permutation; [eapply NoDup_fmap_1, NoDup_sql_select|by eapply NoDup_fmap_1|].
    intros [i r]. by rewrite elem_of_sql_select, Hl.
Qed.

Lemma length_sql_select P k m : (length (sql_select P k m) <= size m)%nat.
Proof.
  unfold sql_select. rewrite merge_sort_Permutation. etrans; [apply length_filter|].
  by rewrite length_map_to_list.
Qed.

(** Once its first row no longer qualifies, a selection is its tail. *)
Lemma sql_select_tail P k m i r r' l :
  sql_select P k m = (i, r) :: l -> P i r' = false -> sql_select P k (<[i := r']> m) = l.
Proof.
  intros Hsel HP. pose proof (sql_select_sorted P k m) as Hs. pose proof (NoDup_sql_select P k m) as Hnd.
  pose proof (elem_of_sql_select P k m) as Hin. rewrite Hsel in Hs, Hnd, Hin. cbn in Hnd.
  apply StronglySorted_inv in Hs as [Hs _]. apply NoDup_cons in Hnd as [Hi Hnd].
  apply sql_select_unique; [done..|]. intros j q. rewrite lookup_insert_Some. split.
  - intros Hl. assert (i <> j) by (intros ->; apply (list_elem_of_fmap_2 fst) in Hl; by apply Hi).
    split; [right; split; [done|]|]; apply Hin; by right.
  - intros [[[<- <-]|[Hne Hj]] Hq]; [congruence|].
    pose proof (proj2 (Hin j q) (conj Hj Hq)) as [[= -> ->]|?]%elem_of_cons; [done|done].
Qed.

(** COUNT does not depend on the order. *)
Lemma sql_count_filter P m :
  sql_count P m = length (filter (fun x => P x.1 x.2 = true) (map_to_list m)).
Proof. unfold sql_count, sql_select. by rewrite merge_sort_Permutation. Qed.

Lemma sql_count_mono P P' m :
  (forall i r, m !! i = Some r -> P i r = true -> P' i r = true) -> (sql_count P m <= sql_count P' m)%nat.
Proof.
  intros Himp. unfold sql_count. rewrite <-(length_fmap fst), <-(length_fmap fst (sql_select P' _ _)).
  apply submseteq_length, NoDup_submseteq; [apply NoDup_sql_select|].
  intros i ([j r] & -> & [Hr HP]%elem_of_sql_select)%list_elem_of_fmap.
  apply list_elem_of_fmap. exists (j, r). split; [done|]. apply elem_of_sql_select. auto.
Qed.

Lemma sql_count_zero P m : sql_count P m = 0%nat <-> (forall i r, m !! i = Some r -> P i r = false).
Proof. unfold sql_count. rewrite length_zero_iff_nil. apply sql_select_nil. Qed.

(** A select with a stronger WHERE clause is a filter of the select. *)
Lemma sql_select_filter P P' k m :
  sql_select (fun i r => P i r && P' i r) k m =
  filter (fun x => P' x.1 x.2 = true) (sql_select P k m).
Proof.
  apply sql_select_unique.
  - apply StronglySorted_filter, sql_select_sorted.
  - eapply sublist_NoDup; [apply (NoDup_sql_select P k m)|apply fmap_sublist, sublist_filter].
  - intros i r. rewrite list_elem_of_filter, elem_of_sql_select, andb_true_iff. cbn. tauto.
Qed.

Lemma sql_select_ext P P' k m :
  (forall i r, m !! i = Some r -> P i r = P' i r) -> sql_select P k m = sql_select P' k m.
Proof.
  intros H. apply sql_select_unique; [apply sql_select_sorted|apply NoDup_sql_select|].
  intros i r. rewrite elem_of_sql_select.
  split; intros [Hi HP]; specialize (H i r Hi); (split; [done|congruence]).
Qed.

(** In a list sorted by key, the elements past the last one of a prefix are those
    with a larger key: the resumption rule of keyset pagination. *)
Lemma keyset_resume (pre rest : list (Z * R)) x :
  StronglySorted (row_le (fun _ => 0)) (pre ++ rest) -> NoDup (pre ++ rest).*1 ->
  last pre = Some x ->
  filter (fun y => (x.1 <? y.1) = true) (pre ++ rest) = rest.
Proof.
  intros Hs Hnd Hl. apply last_Some in Hl as [pre' ->].
  rewrite <-(assoc_L (++)) in *. rewrite fmap_app in Hnd. cbn in *.
  apply NoDup_app in Hnd as (_ & Hd & Hnd). apply NoDup_cons in Hnd as [Hx _].
  apply StronglySorted_app in Hs as (Hs1 & _ & Hs2).
  rewrite filter_app, filter_cons_False by (rewrite Z.ltb_irrefl; done).
  replace (filter _ pre') with (@nil (Z * R)).
  - cbn. apply filter_keep. intros y Hy. cbn.
    apply StronglySorted_inv in Hs2 as [_ Hall]. rewrite Forall_forall in Hall.
    specialize (Hall y Hy). unfold row_le in Hall. apply Z.ltb_lt.
    assert (x.1 <> y.1); [|lia]. intros Heq. apply Hx. rewrite Heq. by apply list_elem_of_fmap_2.
  - symmetry. apply filter_drop. intros y Hy. cbn.
    specialize (Hs1 y x Hy ltac:(left)). unfold row_le in Hs1. rewrite Z.ltb_lt. lia.
Qed.

Lemma lookup_sql_update_ids ids f m i :
  sql_update_ids ids f m !! i = (fun r => if decide (i ∈ ids) then f r else r) <$> m !! i.
Proof. unfold sql_update_ids. rewrite map_lookup_imap. by destruct (m !! i). Qed.

Lemma sql_update_ids_nil (f : R -> R) m : sql_update_ids [] f m = m.
Proof.
  apply map_eq. intros i. rewrite lookup_sql_update_ids. destruct (m !! i); [|done]. cbn.
  by rewrite decide_False by apply not_elem_of_nil.
Qed.

Lemma lookup_sql_delete_ids ids m i :
  sql_delete_ids ids m !! i = if decide (i ∈ ids) then None else m !! i.
Proof.
  unfold sql_delete_ids. case_decide as Hin.
  - apply map_lookup_filter_None. right. cbn. intros. intros Hn. by apply Hn.
  - destruct (m !! i) as [r|] eqn:E.
    + by apply map_lookup_filter_Some.
    + apply map_lookup_filter_None. by left.
Qed.

Lemma sql_delete_ids_nil m : sql_delete_ids [] m = m.
Proof. apply map_eq. intros i. by rewrite lookup_sql_delete_ids, decide_False by apply not_elem_of_nil. Qed.

Lemma sql_delete_ids_app ids ids' m :
  sql_delete_ids ids' (sql_delete_ids ids m) = sql_delete_ids (ids ++ ids') m.
Proof.
  apply map_eq. intros i. rewrite !lookup_sql_delete_ids.
  destruct (decide (i ∈ ids ++ ids')) as [H|H]; rewrite elem_of_app in H; repeat case_decide; tauto.
Qed.

Lemma sql_select_delete P k ids m :
  sql_select P k (sql_delete_ids ids m) = filter (fun x => x.1 ∉ ids) (sql_select P k m).
Proof.
  apply sql_select_unique.
  - apply StronglySorted_filter, sql_select_sorted.
  - eapply sublist_NoDup; [apply (NoDup_sql_select P k m)|apply fmap_sublist, sublist_filter].
  - intros i r. rewrite list_elem_of_filter, elem_of_sql_select, lookup_sql_delete_ids. cbn.
    case_decide; naive_solver.
Qed.

Lemma sql_update_id_hit i c (f : R -> R) m r :
  m !! i = Some r -> c r = true -> sql_update_id i c f m = (<[i := f r]> m, 1%nat).
Proof. unfold sql_update_id. by intros -> ->. Qed.

Lemma sql_update_id_miss i c (f : R -> R) m :
  (forall r, m !! i = Some r -> c r = false) -> sql_update_id i c f m = (m, 0%nat).
Proof.
  unfold sql_update_id. intros H. destruct (m !! i) as [r|] eqn:E; [|done]. by rewrite (H r).
Qed.

Lemma sql_update_id_inv i c (f : R -> R) m m' n :
  sql_update_id i c f m = (m', n) ->
  (exists r, m !! i = Some r /\ c r = true /\ m' = <[i := f r]> m /\ n = 1%nat) \/
  ((forall r, m !! i = Some r -> c r = false) /\ m' = m /\ n = 0%nat).
Proof.
  unfold sql_update_id. destruct (m !! i) as [r|] eqn:E; [destruct (c r) eqn:Ec|];
    intros [= <- <-]; [left; by exists r|right; split_and!; [|done..]..]; congruence.
Qed.

(** The inserted table is the old one overlaid under by the proposed rows, the
    first row proposed for a key winning. *)
Lemma sql_insert_many_union rs m :
  (sql_insert_many rs m).1 = m ∪ list_to_map rs.
Proof.
  revert m. induction rs as [|[i r] rs IH]; intros m; cbn.
  { by rewrite (right_id_L ∅ (∪)). }
  destruct (m !! i) as [r'|] eqn:E.
  - rewrite IH. apply map_eq. intros j. rewrite !lookup_union.
    destruct (decide (i = j)) as [<-|Hj].
    + rewrite E, lookup_insert_eq. by destruct (list_to_map rs !! i).
    + by rewrite lookup_insert_ne.
  - destruct (sql_insert_many rs (<[i:=r]> m)) as [m' ids] eqn:Em. cbn.
    specialize (IH (<[i:=r]> m)). rewrite Em in IH. cbn in IH. subst m'.
    rewrite <-insert_union_l. by rewrite <-insert_union_r.
Qed.

Lemma elem_of_sql_insert_many rs m i :
  i ∈ (sql_insert_many rs m).2 <-> i ∈ rs.*1 /\ m !! i = None.
Proof.
  revert m. induction rs as [|[j r] rs IH]; intros m; cbn.
  { split; [intros H; by apply elem_of_nil in H|intros [H _]; by apply elem_of_nil in H]. }
  rewrite elem_of_cons. destruct (m !! j) as [r'|] eqn:E.
  - rewrite IH. naive_solver.
  - specialize (IH (<[j:=r]> m)). destruct (sql_insert_many rs _) as [m' ids].
    cbn in *. rewrite elem_of_cons, IH.
    destruct (decide (i = j)) as [->|Hj]; [naive_solver|].
    rewrite lookup_insert_ne by done. naive_solver.
Qed.

Lemma NoDup_sql_insert_many rs m : NoDup (sql_insert_many rs m).2.
Proof.
  revert m. induction rs as [|[j r] rs IH]; intros m; cbn; [constructor|].
  destruct (m !! j) as [r'|]; [by apply IH|].
  pose proof (elem_of_sql_insert_many rs (<[j:=r]> m) j) as Hj.
  specialize (IH (<[j:=r]> m)). destruct (sql_insert_many rs _) as [m' ids]. cbn in *.
  apply NoDup_cons. split; [|done].
  rewrite Hj, lookup_insert_eq. intros [_ ?]. done.
Qed.

Lemma length_sql_insert_many rs m : (length (sql_insert_many rs m).2 <= length rs)%nat.
Proof.
  revert m. induction rs as [|[j r] rs IH]; intros m; cbn; [lia|].
  destruct (m !! j) as [r'|]; [specialize (IH m); lia|].
  specialize (IH (<[j:=r]> m)). destruct (sql_insert_many rs _) as [m' ids]. cbn in *. lia.
Qed.

(** A multi-row insert affects as many rows as it proposes exactly when the
    proposed keys are distinct and none of them is taken. *)
Lemma sql_insert_many_full rs m :
  length (sql_insert_many rs m).2 = length rs <->
  NoDup rs.*1 /\ (forall i, i ∈ rs.*1 -> m !! i = None).
Proof.
  revert m. induction rs as [|[j r] rs IH]; intros m; cbn.
  { split; [|done]. intros _. split; [constructor|intros i H; by apply elem_of_nil in H]. }
  rewrite NoDup_cons. setoid_rewrite elem_of_cons. destruct (m !! j) as [r'|] eqn:E.
  - pose proof (length_sql_insert_many rs m). split; [lia|].
    intros [_ H']. specialize (H' j (or_introl eq_refl)). congruence.
  - specialize (IH (<[j:=r]> m)). destruct (sql_insert_many rs _) as [m' ids]. cbn in *.
    split.
    + intros [= H]. apply IH in H as [Hnd Hf]. split_and!; [|done|].
      * intros Hj. specialize (Hf j Hj). by rewrite lookup_insert_eq in Hf.
      * intros i [->|Hi]; [done|]. specialize (Hf i Hi).
        apply lookup_insert_None in Hf. tauto.
    + intros [[Hj Hnd] Hf]. f_equal. apply IH. split; [done|]. intros i Hi.
      rewrite lookup_insert_ne by (intros ->; done). auto.
Qed.

End sql_lemmas.

(** ** Sums over lists, for termination measures *)

Lemma sum_insert {A} (f : A -> nat) (l : list A) i x y :
  l !! i = Some y -> (sum_list_with f (<[i := x]> l) + f y = sum_list_with f l + f x)%nat.
Proof.
  revert i. induction l as [|z l IH]; intros [|i] H; try done; cbn in *; [simplify_eq; lia|].
  rewrite <-!Nat.add_assoc. f_equal. by apply IH.
Qed.

Lemma sum_zero {A} (f : A -> nat) (l : list A) :
  sum_list_with f l = 0%nat <-> Forall (fun x => f x = 0%nat) l.
Proof.
  induction l as [|x l IH]; cbn; [by split|]. rewrite Forall_cons, <-IH. lia.
Qed.
