(* ===== verification/Types.v ===== *)
(** * Data model

    The constants, records and sentinel errors of [types.go], [errors.go],
    [config.go] and [options.go], and the PostgreSQL tables that
    [pgqueue.go] creates: the global tables and, per queue, the message,
    subscription and dead-letter tables. *)

From S2P Require Import Prelude.
From Corelib Require Export SpecFloat.
From Stdlib Require Import ZArith Lia.
Local Open Scope Z_scope.

(** ** Durations *)

Definition nanosecond : Duration := 1.
Definition microsecond : Duration := 1000.
Definition millisecond : Duration := 1000 * 1000.
Definition second : Duration := 1000 * millisecond.
Definition minute : Duration := 60 * second.
Definition hour : Duration := 60 * minute.

(** ** Queue types and message statuses *)

(** [QueueType] is a Go string with two valid constants; [QueueTypeOther] is any
    other string (a receipt that was never bound carries the empty one). *)
Inductive QueueType :=
| QueueTypePubSub
| QueueTypeChannel
| QueueTypeOther (s : string).

(** The conversion [string(queueType)]. *)
Definition queue_type_string (qt : QueueType) : string :=
  match qt with
  | QueueTypePubSub => "pubsub"
  | QueueTypeChannel => "channel"
  | QueueTypeOther s => s
  end.

Inductive MessageStatus :=
| MessageStatusPending
| MessageStatusProcessing
| MessageStatusCompleted
| MessageStatusAcked.

#[export] Instance QueueType_eq_dec : EqDecision QueueType.
Proof. solve_decision. Defined.
#[export] Instance MessageStatus_eq_dec : EqDecision MessageStatus.
Proof. solve_decision. Defined.

(** ** Errors *)

(** What a PostgreSQL driver reports: the SQLSTATE when the driver exposes one,
    and the error text. *)
Record driver_err := DriverErr {
  de_sqlstate : option string;
  de_text : string
}.

(** The sentinel errors of [errors.go]; [ErrDriver] is any error of the database
    driver.  The text that [fmt.Errorf("...: %w", err)] adds around an error is not
    modelled, the error it wraps is. *)
Inductive err :=
| ErrDBRequired
| ErrInvalidConfig
| ErrInvalidQueueName
| ErrQueueAlreadyExists
| ErrQueueNotFound
| ErrTopicNotFound
| ErrChannelNotFound
| ErrDuplicateMessageID
| ErrMessageSizeExceeded
| ErrMetadataSizeExceeded
| ErrMessageNotFound
| ErrMessageAlreadyAcked
| ErrClaimExpired
| ErrReplayMessageNotFound
| ErrMessageInProcessing
| ErrReplayNotSupported
| ErrNilPayload
| ErrBatchTooLarge
| ErrQueuePaused
| ErrSubscriberNotFound
| ErrTooManySubscribers
| ErrInvalidSubscriberID
| ErrUnsupportedPGVersion
| ErrMaxQueuesReached
| ErrInvalidVisibilityTimeout
| ErrSchemaNotInitialized
| ErrSchemaOutdated
| ErrSchemaTooNew
| ErrQueueEmpty
| ErrQueueClosed
| ErrReceiptMissingQueueType
| ErrInvalidPerformedBy
| ErrUnexpectedMessageStatus
| ErrMarshal
| ErrRandom
| errDryRunRollback
| errGCPanic
| sql_ErrNoRows
| ErrDriver (d : driver_err).

#[export] Instance driver_err_eq_dec : EqDecision driver_err.
Proof. solve_decision. Defined.
#[export] Instance err_eq_dec : EqDecision err.
Proof. solve_decision. Defined.

(** The sentinel a sentinel is built on with [%w], if any. *)
Definition err_unwrap (e : err) : option err :=
  match e with
  | ErrTopicNotFound | ErrChannelNotFound => Some ErrQueueNotFound
  | ErrReplayMessageNotFound => Some ErrMessageNotFound
  | _ => None
  end.

(** [errors.Is(e, target)]. *)
Definition errors_Is (e target : err) : bool :=
  bool_decide (e = target) || bool_decide (err_unwrap e = Some target).

(** ** JSON metadata *)

(** A value of Go's [map[string]any] metadata.  [JUnsupported] is a Go value with
    no JSON form, on which [json.Marshal] fails. *)
Inductive jval :=
| JNull
| JBool (b : bool)
| JNumber (text : string)
| JString (s : string)
| JArray (vs : list jval)
| JObject (kvs : list (string * jval))
| JUnsupported.

Abbreviation jmap := (list (string * jval)) (only parsing).

Fixpoint jsupported (v : jval) : bool :=
  match v with
  | JUnsupported => false
  | JArray vs => forallb jsupported vs
  | JObject kvs => forallb (fun kv => jsupported kv.2) kvs
  | _ => true
  end.

(** A NUL character in a string or a key, which [json.Marshal] writes as its escape. *)
Definition has_nul (s : string) : bool :=
  existsb (Ascii.eqb Ascii.zero) (String.list_ascii_of_string s).
Fixpoint json_nul (v : jval) : bool :=
  match v with
  | JString s => has_nul s
  | JArray vs => existsb json_nul vs
  | JObject kvs => existsb (fun kv => has_nul kv.1 || json_nul kv.2) kvs
  | _ => false
  end.

(** ** Configuration *)

Record BackoffPolicy := mkBackoffPolicy {
  BaseDelay : Duration;
  MaxDelay : Duration;
  Multiplier : spec_float
}.

(** [queueConfig]; of the logger, tracer, metrics recorder and listener only the
    presence is kept. *)
Record queueConfig := mkQueueConfig {
  maxMessageSize : Z;
  maxMetadataSize : Z;
  defaultMaxRetries : Z;
  maxRetriesSet : bool;
  defaultTTL : Duration;
  maxQueues : Z;
  schemaName : string;
  logger : bool;
  tracer : bool;
  metrics : bool;
  backoffPolicy : BackoffPolicy;
  backoffConfigured : bool;
  safetyNetPoll : Duration;
  listener : bool;
  maxSubscribersPerTopic : Z;
  maxBatchBytes : Z
}.

(** [channelOptions] and [topicOptions], two structs with the same fields, and the
    JSON object they marshal to. *)
Record channelOptions := mkChannelOptions {
  o_MaxMessageSize : Z;
  o_MaxMetadataSize : Z;
  o_TTL : Duration;
  o_TTLSet : bool;
  o_MaxRetries : Z;
  o_MaxRetriesSet : bool
}.

(** The [config] column as read back: no bytes, bytes that do not unmarshal, or the
    JSON object of the stored options (absent members unmarshal to zero). *)
Inductive configJSON :=
| ConfigEmpty
| ConfigCorrupt
| ConfigObject (o : channelOptions).

(** [json.Unmarshal(config, &opts)]: [None] is a non-nil error. *)
Definition config_unmarshal (c : configJSON) : option channelOptions :=
  match c with
  | ConfigObject o => Some o
  | _ => None
  end.

(** ** Receipts and messages *)

Record Receipt := mkReceipt {
  r_MessageID : uuid;
  r_ClaimID : uuid;
  r_QueueName : string;
  r_QueueType : QueueType;
  r_SubscriberID : string
}.

#[export] Instance Receipt_eq_dec : EqDecision Receipt.
Proof. solve_decision. Defined.

Record Message := mkMessage {
  m_ID : uuid;
  m_ClaimID : uuid;
  m_Payload : bytes;
  m_CreatedAt : timestamp;
  m_Status : MessageStatus;
  m_RetryCount : Z;
  m_MaxRetries : Z;
  m_VisibilityTimeout : option timestamp;
  m_ProcessedAt : option timestamp;
  m_ErrorMessage : option bytes;
  m_Metadata : option jmap;
  m_receipt : option Receipt   (* [receipt] when [receiptSet] *)
}.

(** [(m *Message) Receipt()]. *)
Definition Message_Receipt (m : Message) : Receipt :=
  match m_receipt m with
  | Some r => r
  | None => mkReceipt (m_ID m) (m_ClaimID m) "" (QueueTypeOther "") ""
  end.

(** [(m *Message) SetReceipt(r)]. *)
Definition SetReceipt (m : Message) (r : Receipt) : Message :=
  mkMessage (m_ID m) (m_ClaimID m) (m_Payload m) (m_CreatedAt m) (m_Status m)
    (m_RetryCount m) (m_MaxRetries m) (m_VisibilityTimeout m) (m_ProcessedAt m)
    (m_ErrorMessage m) (m_Metadata m) (Some r).

Record FailedReceipt := mkFailedReceipt {
  f_Receipt : Receipt;
  f_Reason : err
}.

Record BatchResult := mkBatchResult {
  Succeeded : list Receipt;
  Failed : list FailedReceipt
}.

(** ** Tables *)

(** A row of [pgqueue_msg_<t>] of a channel ([createChannelTables]). *)
Record channelRow := mkChannelRow {
  c_payload : bytes;
  c_created_at : timestamp;
  c_status : MessageStatus;
  c_retry_count : Z;
  c_max_retries : option Z;
  c_visibility_timeout : option timestamp;
  c_available_at : timestamp;
  c_claim_id : option uuid;
  c_processed_at : option timestamp;
  c_error_message : option bytes;
  c_metadata : option jval
}.

(** A row of [pgqueue_msg_<t>] of a topic ([createPubSubMessageTable]). *)
Record topicRow := mkTopicRow {
  t_payload : bytes;
  t_created_at : timestamp;
  t_metadata : option jval
}.

(** A row of [pgqueue_sub_<t>] ([createPubSubTables]). *)
Record subRow := mkSubRow {
  s_message_id : uuid;
  s_subscriber_id : string;
  s_status : MessageStatus;
  s_created_at : timestamp;
  s_acked_at : option timestamp;
  s_visibility_timeout : option timestamp;
  s_available_at : timestamp;
  s_claim_id : option uuid;
  s_retry_count : Z;
  s_error_message : option bytes
}.

(** A row of [pgqueue_dlq_<t>] ([createDLQTable]). *)
Record dlqEntry := mkDlqEntry {
  d_original_message_id : uuid;
  d_subscriber_id : option string;
  d_payload : bytes;
  d_failure_reason : bytes;
  d_retry_count : Z;
  d_moved_at : timestamp;
  d_metadata : option jval
}.

(** A row of [pgqueue_metadata]. *)
Record queueMetadata := mkQueueMetadata {
  q_ID : uuid;
  q_QueueType : QueueType;
  q_QueueName : string;
  q_TableName : string;
  q_Config : configJSON;
  q_Paused : bool;
  q_CreatedAt : timestamp;
  q_UpdatedAt : timestamp
}.

(** A row of [pgqueue_subscribers]. *)
Record subscriber := mkSubscriber {
  sb_TopicName : string;
  sb_SubscriberID : string;
  sb_CreatedAt : timestamp;
  sb_Active : bool
}.

Record replayLogRow := mkReplayLogRow {
  rl_QueueType : string;
  rl_QueueName : string;
  rl_ReplayType : string;
  rl_MessageCount : Z;
  rl_CreatedAt : timestamp;
  rl_CreatedBy : option string
}.

(** The physical tables of one channel and of one topic. *)
Record channelTables := mkChannelTables {
  ct_msgs : gmap Z channelRow;
  ct_dlq : gmap Z dlqEntry
}.

Record topicTables := mkTopicTables {
  tt_msgs : gmap Z topicRow;
  tt_subs : gmap Z subRow;
  tt_dlq : gmap Z dlqEntry
}.

(** The database: the global tables, the per-queue tables by their physical table
    name, and the notifications committed so far, oldest first. *)
Record DB := mkDB {
  db_metadata : gmap Z queueMetadata;
  db_subscribers : gmap Z subscriber;
  db_replay_log : gmap Z replayLogRow;
  db_channels : gmap string channelTables;
  db_topics : gmap string topicTables;
  db_notifications : list string
}.

Definition set_metadata (x : gmap Z queueMetadata) (d : DB) : DB :=
  mkDB x (db_subscribers d) (db_replay_log d) (db_channels d) (db_topics d) (db_notifications d).
Definition set_subscribers (x : gmap Z subscriber) (d : DB) : DB :=
  mkDB (db_metadata d) x (db_replay_log d) (db_channels d) (db_topics d) (db_notifications d).
Definition set_replay_log (x : gmap Z replayLogRow) (d : DB) : DB :=
  mkDB (db_metadata d) (db_subscribers d) x (db_channels d) (db_topics d) (db_notifications d).
Definition set_channels (x : gmap string channelTables) (d : DB) : DB :=
  mkDB (db_metadata d) (db_subscribers d) (db_replay_log d) x (db_topics d) (db_notifications d).
Definition set_topics (x : gmap string topicTables) (d : DB) : DB :=
  mkDB (db_metadata d) (db_subscribers d) (db_replay_log d) (db_channels d) x (db_notifications d).
Definition set_notifications (x : list string) (d : DB) : DB :=
  mkDB (db_metadata d) (db_subscribers d) (db_replay_log d) (db_channels d) (db_topics d) x.

Definition set_ct_msgs (x : gmap Z channelRow) (t : channelTables) : channelTables :=
  mkChannelTables x (ct_dlq t).
Definition set_ct_dlq (x : gmap Z dlqEntry) (t : channelTables) : channelTables :=
  mkChannelTables (ct_msgs t) x.
Definition set_tt_msgs (x : gmap Z topicRow) (t : topicTables) : topicTables :=
  mkTopicTables x (tt_subs t) (tt_dlq t).
Definition set_tt_subs (x : gmap Z subRow) (t : topicTables) : topicTables :=
  mkTopicTables (tt_msgs t) x (tt_dlq t).
Definition set_tt_dlq (x : gmap Z dlqEntry) (t : topicTables) : topicTables :=
  mkTopicTables (tt_msgs t) (tt_subs t) x.
