(* ===== verification/Tx.v ===== *)
(** * Database transactions

    A transaction body of the program is a function [func(tx *sql.Tx) error] that
    issues statements and returns early on the first error.  [tx S A] is that
    shape: a program over the tables [S] which reads the transaction's
    environment (its NOW(), the rows other transactions hold locked, the values
    uuidv7() mints, the statements the server fails) and returns a value or an
    error.  PostgreSQL aborts a transaction at its first failed statement: the
    state of an aborted transaction is [None], every later statement of it fails
    and so does its COMMIT. *)

From S2P Require Import Prelude Types.
From Stdlib Require Import ZArith Lia.
Local Open Scope Z_scope.

(** ** Results *)

Inductive result (A : Type) :=
| Ok (a : A)
| Err (e : err).
Arguments Ok {A} a.
Arguments Err {A} e.

#[export] Instance result_bind : MBind result := fun A B f m =>
  match m with Ok a => f a | Err x => Err x end.
#[export] Instance result_ret : MRet result := fun A a => Ok a.

(** ** The environment of one transaction *)

Record env := mkEnv {
  e_now : timestamp;                     (* NOW(): the transaction's start time *)
  e_locked : gset Z;                     (* rows locked by other transactions *)
  e_gen : nat -> nat -> uuid;            (* uuidv7() for row [i] of statement [n] *)
  e_fault : nat -> option driver_err;    (* the failure of statement [n], if any *)
  e_begin : option driver_err;           (* the failure of BEGIN, if any *)
  e_commit : option (driver_err * bool); (* the failure of COMMIT, if any, and whether the
                                            server had committed when the answer was lost *)
  e_rand : nat -> spec_float;            (* rand.Float64() drawn at step [n] *)
  e_conv : spec_float -> Z;              (* int64(f) for an [f] out of its range *)
  e_time : Z;                            (* time.Now() in nanoseconds *)
  e_ms : nat -> Z;                       (* the clock reads of [newUUIDv7At] *)
  e_entropy : option (list Z)            (* the ten bytes of crypto/rand, or a failure *)
}.

(** Some statement, the BEGIN or the COMMIT of this transaction fails. *)
Definition faulty (e : env) : Prop :=
  (exists d, e_begin e = Some d) \/ (exists d, e_commit e = Some d) \/
  (exists n d, e_fault e n = Some d).

(** The driver errors the server raises on its own account. *)
Definition undefined_table : driver_err := DriverErr (Some "42P01") "relation does not exist".
Definition failed_tx : driver_err :=
  DriverErr (Some "25P02") "current transaction is aborted".
Definition unique_violation : driver_err :=
  DriverErr (Some "23505") "duplicate key value violates unique constraint".
Definition foreign_key_violation : driver_err :=
  DriverErr (Some "23503") "violates foreign key constraint".
Definition check_violation : driver_err :=
  DriverErr (Some "23514") "violates check constraint".
Definition out_of_range : driver_err := DriverErr (Some "22003") "bigint out of range".
Definition unsupported_escape : driver_err :=
  DriverErr (Some "22P05") "unsupported Unicode escape sequence".
Definition untranslatable : driver_err :=
  DriverErr (Some "22021") "invalid byte sequence for encoding".

(** ** The transaction monad *)

(** [TOk a n s]: the body returned [a] after [n] steps with the tables at [s]
    ([None] once aborted).  An error always rolls back, so it carries no tables. *)
Inductive txres (S A : Type) :=
| TOk (a : A) (n : nat) (s : option S)
| TErr (e : err).
Arguments TOk {S A} a n s.
Arguments TErr {S A} e.

Definition tx (S A : Type) : Type := env -> nat -> option S -> txres S A.

#[export] Instance tx_ret {S} : MRet (tx S) := fun A a _ n s => TOk a n s.
#[export] Instance tx_bind {S} : MBind (tx S) := fun A B f m e n s =>
  match m e n s with
  | TOk a n' s' => f a e n' s'
  | TErr x => TErr x
  end.

Section operations.
Context {S : Type}.

Definition throw {A} (x : err) : tx S A := fun _ _ _ => TErr x.

(** One SQL statement: [f] is its effect on the tables. *)
Definition stmt {A} (f : env -> nat -> S -> result A * S) : tx S A := fun e n s =>
  match s with
  | None => TErr (ErrDriver failed_tx)
  | Some x =>
      match e_fault e n with
      | Some d => TErr (ErrDriver d)
      | None =>
          match f e n x with
          | (Ok a, x') => TOk a (Datatypes.S n) (Some x')
          | (Err er, _) => TErr er
          end
      end
  end.

(** One statement whose error the caller logs and ignores: the transaction stays
    aborted. *)
Definition stmt_logged (f : env -> nat -> S -> result unit * S) : tx S unit := fun e n s =>
  match stmt f e n s with
  | TErr _ => TOk tt (Datatypes.S n) None
  | r => r
  end.

(** A read-only statement. *)
Definition query {A} (f : env -> S -> result A) : tx S A :=
  stmt (fun e _ x => (f e x, x)).

(** [rand.Float64()] and the out-of-range float conversion, of the Go side. *)
Definition draw : tx S spec_float := fun e n s => TOk (e_rand e n) (Datatypes.S n) s.
Definition ask_conv : tx S (spec_float -> Z) := fun e n s => TOk (e_conv e) n s.

End operations.

(** [if err := check; err != nil { return err }] on a pure check. *)
Definition lift {S A} (r : result A) : tx S A :=
  match r with Ok a => mret a | Err x => throw x end.

(** [if err != nil { return f(err) }] *)
Definition tx_map_err {S A} (f : err -> err) (m : tx S A) : tx S A := fun e n s =>
  match m e n s with
  | TErr x => TErr (f x)
  | r => r
  end.

(** Statements on one component of the database; a missing table is an error. *)
Definition zoom {S T A} (get : S -> option T) (put : T -> S -> S) (m : tx T A) : tx S A :=
  fun e n s =>
  match s with
  | None =>
      match m e n None with TOk a n' _ => TOk a n' None | TErr x => TErr x end
  | Some x =>
      match get x with
      | None =>
          match e_fault e n with
          | Some d => TErr (ErrDriver d)
          | None => TErr (ErrDriver undefined_table)
          end
      | Some t =>
          match m e n (Some t) with
          | TOk a n' (Some t') => TOk a n' (Some (put t' x))
          | TOk a n' None => TOk a n' None
          | TErr er => TErr er
          end
      end
  end.

(** [for _, x := range l { if err := f(x); err != nil { return err } }] *)
Fixpoint for_each {S A} (f : A -> tx S unit) (l : list A) : tx S unit :=
  match l with
  | [] => mret tt
  | x :: l => f x ;; for_each f l
  end.

(** Statements against the per-queue tables named [t]. *)
Definition on_channel {A} (t : string) (m : tx channelTables A) : tx DB A :=
  zoom (fun d => db_channels d !! t) (fun x d => set_channels (<[t := x]> (db_channels d)) d) m.
Definition on_topic {A} (t : string) (m : tx topicTables A) : tx DB A :=
  zoom (fun d => db_topics d !! t) (fun x d => set_topics (<[t := x]> (db_topics d)) d) m.

(** ** Weakest preconditions

    [wp e n s m Q E]: run at step [n] from the tables [s] in environment [e], [m]
    returns a value, at a step and with tables that satisfy [Q], or an error that
    satisfies [E]. *)
Definition wp {S A} (e : env) (n : nat) (s : option S) (m : tx S A)
    (Q : A -> nat -> option S -> Prop) (E : err -> Prop) : Prop :=
  match m e n s with
  | TOk a n' s' => Q a n' s'
  | TErr x => E x
  end.
#[global] Arguments wp : simpl never.

Section wp_rules.
Context {S : Type} (e : env).
Implicit Types (n : nat) (s : option S) (E : err -> Prop).

Lemma wp_ret {A} n s (a : A) (Q : A -> nat -> option S -> Prop) E :
  Q a n s -> wp e n s (mret a) Q E.
Proof. done. Qed.

Lemma wp_throw {A} n s x (Q : A -> nat -> option S -> Prop) E : E x -> wp e n s (throw x) Q E.
Proof. done. Qed.

Lemma wp_bind {A B} n s (m : tx S A) (f : A -> tx S B) Q E :
  wp e n s m (fun a n' s' => wp e n' s' (f a) Q E) E -> wp e n s (m ≫= f) Q E.
Proof. unfold wp, mbind, tx_bind. by destruct (m e n s). Qed.

Lemma wp_mono {A} n s (m : tx S A) (Q Q' : A -> nat -> option S -> Prop) E E' :
  wp e n s m Q E -> (forall a n' s', Q a n' s' -> Q' a n' s') -> (forall x, E x -> E' x) ->
  wp e n s m Q' E'.
Proof. unfold wp. destruct (m e n s); auto. Qed.

Lemma wp_stmt {A} n x (f : env -> nat -> S -> result A * S) (Q : A -> nat -> option S -> Prop) E :
  (forall d, faulty e -> E (ErrDriver d)) ->
  match f e n x with
  | (Ok a, x') => Q a (Datatypes.S n) (Some x')
  | (Err er, _) => E er
  end ->
  wp e n (Some x) (stmt f) Q E.
Proof.
  intros HF H. unfold wp, stmt. destruct (e_fault e n) as [d|] eqn:Ef.
  { apply HF. right; right. by exists n, d. }
  by destruct (f e n x) as [[a|er] x'].
Qed.

Lemma wp_stmt_aborted {A} n (f : env -> nat -> S -> result A * S) Q E :
  E (ErrDriver failed_tx) -> wp e n None (stmt f) Q E.
Proof. done. Qed.

Lemma wp_query {A} n x (f : env -> S -> result A) (Q : A -> nat -> option S -> Prop) E :
  (forall d, faulty e -> E (ErrDriver d)) ->
  match f e x with Ok a => Q a (Datatypes.S n) (Some x) | Err er => E er end ->
  wp e n (Some x) (query f) Q E.
Proof. intros HF H. apply wp_stmt; [done|]. by destruct (f e x). Qed.

Lemma wp_stmt_logged n x (f : env -> nat -> S -> result unit * S)
    (Q : unit -> nat -> option S -> Prop) E :
  (faulty e -> Q tt (Datatypes.S n) None) ->
  match f e n x with
  | (Ok a, x') => Q a (Datatypes.S n) (Some x')
  | (Err _, _) => Q tt (Datatypes.S n) None
  end ->
  wp e n (Some x) (stmt_logged f) Q E.
Proof.
  intros HN H. unfold wp, stmt_logged, stmt. destruct (e_fault e n) as [d|] eqn:Ef.
  { apply HN. right; right. by exists n, d. }
  by destruct (f e n x) as [[a|er] x'].
Qed.

Lemma wp_draw n s (Q : spec_float -> nat -> option S -> Prop) E :
  Q (e_rand e n) (Datatypes.S n) s -> wp e n s draw Q E.
Proof. done. Qed.

Lemma wp_ask_conv n s (Q : (spec_float -> Z) -> nat -> option S -> Prop) E :
  Q (e_conv e) n s -> wp e n s ask_conv Q E.
Proof. done. Qed.

Lemma wp_lift {A} n s (r : result A) (Q : A -> nat -> option S -> Prop) E :
  match r with Ok a => Q a n s | Err x => E x end -> wp e n s (lift r) Q E.
Proof. by destruct r. Qed.

Lemma wp_map_err {A} n s f (m : tx S A) (Q : A -> nat -> option S -> Prop) E :
  wp e n s m Q (fun x => E (f x)) -> wp e n s (tx_map_err f m) Q E.
Proof. unfold wp, tx_map_err. by destruct (m e n s). Qed.

Lemma wp_zoom {T A} n (get : S -> option T) put x t (m : tx T A)
    (Q : A -> nat -> option S -> Prop) E :
  get x = Some t ->
  wp e n (Some t) m (fun a n' o => Q a n' ((fun t' => put t' x) <$> o)) E ->
  wp e n (Some x) (zoom get put m) Q E.
Proof.
  intros Hg H. unfold wp, zoom in *. rewrite Hg.
  by destruct (m e n (Some t)) as [a n' [t'|]|].
Qed.

(** A missing table. *)
Lemma wp_zoom_missing {T A} n (get : S -> option T) put x (m : tx T A)
    (Q : A -> nat -> option S -> Prop) E :
  get x = None -> (forall d, faulty e -> E (ErrDriver d)) -> E (ErrDriver undefined_table) ->
  wp e n (Some x) (zoom get put m) Q E.
Proof.
  intros Hg HF H. unfold wp, zoom. rewrite Hg. destruct (e_fault e n) as [d|] eqn:Ef; [|done].
  apply HF. right; right. by exists n, d.
Qed.

(** An invariant kept by the body of a loop is kept by the loop. *)
Lemma wp_for_each {A} (f : A -> tx S unit) (l : list A) (I : nat -> option S -> Prop) n s E :
  I n s ->
  (forall a n' s', a ∈ l -> I n' s' -> wp e n' s' (f a) (fun _ n'' s'' => I n'' s'') E) ->
  wp e n s (for_each f l) (fun _ n' s' => I n' s') E.
Proof.
  revert n s. induction l as [|a l IH]; intros n s Hs H; [by apply wp_ret|].
  apply wp_bind. eapply wp_mono; [apply H; [left|done]| |done].
  intros [] n' s' Hs'. apply IH; [done|]. intros b n'' s'' Hb. apply H. by right.
Qed.

End wp_rules.

Lemma on_channel_wp {A} e n d t ct (m : tx channelTables A)
    (Q : A -> nat -> option DB -> Prop) E :
  db_channels d !! t = Some ct ->
  wp e n (Some ct) m (fun a n' s' =>
    Q a n' ((fun x => set_channels (<[t := x]> (db_channels d)) d) <$> s')) E ->
  wp e n (Some d) (on_channel t m) Q E.
Proof. intros H Hm. by eapply wp_zoom. Qed.

Lemma on_topic_wp {A} e n d t tt (m : tx topicTables A)
    (Q : A -> nat -> option DB -> Prop) E :
  db_topics d !! t = Some tt ->
  wp e n (Some tt) m (fun a n' s' =>
    Q a n' ((fun x => set_topics (<[t := x]> (db_topics d)) d) <$> s')) E ->
  wp e n (Some d) (on_topic t m) Q E.
Proof. intros H Hm. by eapply wp_zoom. Qed.

(** What a run satisfies, from its weakest precondition. *)
Lemma wp_run {S A} e n s (m : tx S A) Q E r :
  wp e n s m Q E -> m e n s = r ->
  match r with TOk a n' s' => Q a n' s' | TErr x => E x end.
Proof. by intros H <-. Qed.

(** ** Automation *)

(** [wp_step] advances over one statement of a transaction body. *)
Ltac wp_step :=
  match goal with
  | |- wp _ _ _ (mret _) _ _ => apply wp_ret
  | |- wp _ _ _ (throw _) _ _ => apply wp_throw
  | |- wp _ _ _ (mbind _ _) _ _ => apply wp_bind
  | |- wp _ _ (Some _) (stmt _) _ _ => apply wp_stmt; [try done|]
  | |- wp _ _ (Some _) (query _) _ _ => apply wp_query; [try done|]
  | |- wp _ _ (Some _) (stmt_logged _) _ _ => apply wp_stmt_logged
  | |- wp _ _ None (stmt _) _ _ => apply wp_stmt_aborted
  | |- wp _ _ _ draw _ _ => apply wp_draw
  | |- wp _ _ _ ask_conv _ _ => apply wp_ask_conv
  | |- wp _ _ _ (lift _) _ _ => apply wp_lift
  | |- wp _ _ _ (tx_map_err _ _) _ _ => apply wp_map_err
  end.
