(* ===== verification/Uuid.v ===== *)
(** * UUIDv7 generation ([uuid.go])

    The process-wide monotonic generator: the state [uuidV7State], the generator
    [newUUIDv7At] over a clock and ten random bytes, and [ExtractTimestamp].
    A UUID is the big-endian value of its sixteen bytes. *)

From S2P Require Import Prelude Types Tx.
From Stdlib Require Import ZArith Lia.
Local Open Scope Z_scope.

(** ** Bytes *)

(** The [n] low bytes of [z], most significant first ([binary.BigEndian.Put...]). *)
Fixpoint be_bytes (n : nat) (z : Z) : list Z :=
  match n with
  | O => []
  | S n => Z.land (Z.shiftr z (8 * Z.of_nat n)) 255 :: be_bytes n z
  end.

(** The value of a byte string, most significant byte first. *)
Definition be_val (bs : list Z) : Z := foldl (fun acc b => acc * 256 + b) 0 bs.

(** ** The generator *)

Definition uuidV7Version : Z := 0x70.
Definition uuidV7VersionMask : Z := 0x0f.
Definition uuidVariant : Z := 0x80.
Definition uuidVariantMask : Z := 0x3f.
Definition uuidTimestampShift : Z := 32.
Definition uuidV7CounterMask : Z := 0x0fff.
Definition uuidV7CounterSeedMask : Z := 0x07ff.
Definition uuidV7CounterShift : Z := 8.

Record uuidV7State := mkUuidV7State {
  lastMS : Z;     (* uint64 *)
  counter : Z     (* uint16 *)
}.

(** The zero value of the package variable. *)
Definition uuidV7State_init : uuidV7State := mkUuidV7State 0 0.

(** The critical section: the clock is [clock 0] at entry and [clock 1] when the
    counter is exhausted; [r6] and [r7] are random bytes 6 and 7. *)
Definition uuidV7_advance (clock : nat -> Z) (r6 r7 : Z) (st : uuidV7State) : uuidV7State :=
  let nowMS := clock 0%nat in
  if lastMS st <? nowMS then
    mkUuidV7State nowMS (Z.land (Z.lor (Z.shiftl r6 8) r7) uuidV7CounterSeedMask)
  else
    let c := (counter st + 1) mod 2 ^ 16 in
    if uuidV7CounterMask <? c then
      let nowMS := clock 1%nat in
      mkUuidV7State
        (if lastMS st <? nowMS then nowMS else (lastMS st + 1) mod 2 ^ 64) 0
    else mkUuidV7State (lastMS st) c.

(** The sixteen bytes built from the timestamp, the counter and random bytes 8-15. *)
Definition uuidV7_bytes (ms c : Z) (r8 : Z) (rest : list Z) : list Z :=
  be_bytes 2 (Z.shiftr ms uuidTimestampShift) ++ be_bytes 4 ms ++
  [ Z.lor (Z.land (Z.land (Z.shiftr c uuidV7CounterShift) 255) uuidV7VersionMask) uuidV7Version;
    Z.land c 255;
    Z.lor (Z.land r8 uuidVariantMask) uuidVariant ] ++ rest.

Definition newUUIDv7At (entropy : option (list Z)) (clock : nat -> Z) (st : uuidV7State) :
    result uuid * uuidV7State :=
  match entropy with
  | Some (r6 :: r7 :: r8 :: rest) =>
      let st' := uuidV7_advance clock r6 r7 st in
      (Ok (be_val (uuidV7_bytes (lastMS st') (counter st') r8 rest)), st')
  | _ => (Err ErrRandom, st)
  end.

(** The Unix-millisecond timestamp of a UUIDv7. *)
Definition ExtractTimestamp (u : uuid) : Z :=
  let bs := be_bytes 16 u in
  Z.lor (Z.shiftl (be_val (take 2 bs)) uuidTimestampShift) (be_val (take 4 (drop 2 bs))).

(** A process minting one UUID after the other. *)
Fixpoint mint (draws : list (option (list Z) * (nat -> Z))) (st : uuidV7State) :
    list uuid * uuidV7State :=
  match draws with
  | [] => ([], st)
  | (en, clock) :: draws =>
      match newUUIDv7At en clock st with
      | (Ok u, st') => let '(us, st'') := mint draws st' in (u :: us, st'')
      | (Err _, st') => mint draws st'
      end
  end.

(** ** Well-formedness *)

(** [crypto/rand] fills ten bytes or fails. *)
Definition entropy_ok (en : option (list Z)) : Prop :=
  match en with
  | Some bs => length bs = 10%nat /\ Forall (fun b => 0 <= b < 256) bs
  | None => True
  end.

(** The clock reads are millisecond counts below [B]; 2^48 is the year 10889. *)
Definition clock_ok (B : Z) (clock : nat -> Z) : Prop := forall i, 0 <= clock i < B.

Definition uuidV7State_wf (B : Z) (st : uuidV7State) : Prop :=
  0 <= lastMS st < B /\ 0 <= counter st <= uuidV7CounterMask.

(** The state as one number; every call increases it. *)
Definition uuidV7_rank (st : uuidV7State) : Z := lastMS st * 2 ^ 12 + counter st.

(** ** Bytes: lemmas *)

Lemma land_disjoint a b n : 0 <= n -> 0 <= a < 2 ^ n -> Z.land a (b * 2 ^ n) = 0.
Proof.
  intros Hn Ha. rewrite <-(Z.mod_small a (2 ^ n)) by done. rewrite <-Z.land_ones by done.
  apply Z.bits_inj'. intros i Hi. rewrite !Z.land_spec, Z.bits_0.
  destruct (Z.lt_ge_cases i n).
  - rewrite (Z.mul_pow2_bits_low b n i) by lia. apply andb_false_r.
  - rewrite Z.ones_spec_high by lia. by rewrite andb_false_r.
Qed.

Lemma lor_add_disjoint a b n : 0 <= n -> 0 <= a < 2 ^ n -> Z.lor a (b * 2 ^ n) = a + b * 2 ^ n.
Proof.
  intros Hn Ha. pose proof (land_disjoint a b n Hn Ha) as H.
  rewrite Z.add_nocarry_lxor by done. symmetry. by apply Z.lxor_lor.
Qed.

Lemma land_mask a n : 0 <= n -> Z.land a (2 ^ n - 1) = a mod 2 ^ n.
Proof. intros. rewrite <-Z.land_ones by done. by rewrite Z.ones_equiv. Qed.

Lemma land_byte a : Z.land a 255 = a mod 2 ^ 8.
Proof. exact (land_mask a 8 ltac:(lia)). Qed.
Lemma land_version a : Z.lor (Z.land a 15) 112 = 112 + a mod 2 ^ 4.
Proof.
  change 15 with (2 ^ 4 - 1). change 112 with (7 * 2 ^ 4). rewrite land_mask by lia.
  pose proof (Z.mod_pos_bound a (2 ^ 4)). rewrite lor_add_disjoint by lia. lia.
Qed.
Lemma land_variant a : Z.lor (Z.land a 63) 128 = 128 + a mod 64.
Proof.
  change 63 with (2 ^ 6 - 1). change 128 with (1 * 2 ^ 7) at 1. rewrite land_mask by lia.
  change (2 ^ 6) with 64.
  pose proof (Z.mod_pos_bound a 64). rewrite lor_add_disjoint by lia. lia.
Qed.

Lemma be_bytes_S n z : be_bytes (S n) z = (z / 2 ^ (8 * Z.of_nat n)) mod 256 :: be_bytes n z.
Proof.
  cbn [be_bytes]. rewrite (land_mask _ 8) by lia. rewrite Z.shiftr_div_pow2 by lia. done.
Qed.

Lemma be_val_acc bs a :
  foldl (fun acc b => acc * 256 + b) a bs = a * 256 ^ Z.of_nat (length bs) + be_val bs.
Proof.
  unfold be_val. revert a. induction bs as [|b bs IH]; intros a; [cbn; lia|].
  cbn [foldl length]. rewrite IH, (IH (0 * 256 + b)). rewrite Nat2Z.inj_succ, Z.pow_succ_r by lia.
  lia.
Qed.

Lemma be_val_cons b bs : be_val (b :: bs) = b * 256 ^ Z.of_nat (length bs) + be_val bs.
Proof. unfold be_val at 1. cbn [foldl]. by rewrite be_val_acc. Qed.

Lemma be_val_app xs ys : be_val (xs ++ ys) = be_val xs * 256 ^ Z.of_nat (length ys) + be_val ys.
Proof. unfold be_val at 1. rewrite foldl_app. apply be_val_acc. Qed.

Lemma length_be_bytes n z : length (be_bytes n z) = n.
Proof. induction n; cbn; congruence. Qed.

Lemma be_val_bytes n z : be_val (be_bytes n z) = z mod 256 ^ Z.of_nat n.
Proof.
  induction n as [|n IH]; [cbn; by rewrite Z.mod_1_r|].
  rewrite be_bytes_S, be_val_cons, length_be_bytes, IH.
  rewrite Nat2Z.inj_succ, Z.pow_succ_r by lia.
  replace (2 ^ (8 * Z.of_nat n)) with (256 ^ Z.of_nat n).
  - rewrite (Z.mul_comm 256). rewrite Z.rem_mul_r by lia. lia.
  - by rewrite Z.pow_mul_r by lia.
Qed.

Lemma be_val_bound bs :
  Forall (fun b => 0 <= b < 256) bs -> 0 <= be_val bs < 256 ^ Z.of_nat (length bs).
Proof.
  induction 1 as [|b bs Hb _ IH]; [cbn; lia|]. rewrite be_val_cons.
  cbn [length]. rewrite Nat2Z.inj_succ, Z.pow_succ_r by lia. nia.
Qed.

(** ** The value of a UUID *)

(** The random tail of a UUID: the variant byte and the seven bytes after it. *)
Definition uuidV7_tail (r8 : Z) (rest : list Z) : Z :=
  (128 + r8 mod 64) * 2 ^ 56 + be_val rest.

Lemma uuidV7_tail_bound r8 rest :
  length rest = 7%nat -> Forall (fun b => 0 <= b < 256) rest ->
  2 ^ 63 <= uuidV7_tail r8 rest < 2 ^ 63 + 2 ^ 62.
Proof.
  intros Hl Hr. unfold uuidV7_tail. pose proof (be_val_bound rest Hr) as Hb. rewrite Hl in Hb.
  pose proof (Z.mod_pos_bound r8 64). lia.
Qed.

Lemma uuidV7_bytes_value ms c r8 rest :
  0 <= ms < 2 ^ 48 -> 0 <= c < 2 ^ 12 -> length rest = 7%nat ->
  be_val (uuidV7_bytes ms c r8 rest) =
  ms * 2 ^ 80 + 7 * 2 ^ 76 + c * 2 ^ 64 + uuidV7_tail r8 rest.
Proof.
  intros Hms Hc Hl. unfold uuidV7_bytes, uuidV7_tail, uuidTimestampShift, uuidV7CounterShift,
    uuidV7VersionMask, uuidV7Version, uuidVariantMask, uuidVariant.
  rewrite !be_val_app, !length_app, !length_be_bytes, Hl. cbn [length].
  rewrite !be_val_bytes, !be_val_cons. cbn [length]. change (be_val []) with 0.
  rewrite !Z.shiftr_div_pow2 by lia.
  rewrite land_version, land_variant, !land_byte.
  pose proof (Z.div_mod ms (2 ^ 32)). pose proof (Z.mod_pos_bound ms (2 ^ 32)).
  pose proof (Z.div_mod c (2 ^ 8)). pose proof (Z.mod_pos_bound c (2 ^ 8)).
  rewrite (Z.mod_small (ms / 2 ^ 32)) by
    (split; [apply Z.div_pos; lia|apply Z.div_lt_upper_bound; lia]).
  rewrite (Z.mod_small (c / 2 ^ 8) (2 ^ 8)) by
    (split; [apply Z.div_pos; lia|apply Z.div_lt_upper_bound; lia]).
  rewrite (Z.mod_small (c / 2 ^ 8) (2 ^ 4)) by
    (split; [apply Z.div_pos; lia|apply Z.div_lt_upper_bound; lia]).
  change (256 ^ Z.of_nat 4) with (2 ^ 32).
  lia.
Qed.

(** ** The generator: lemmas *)

(** One call keeps the state well formed, lets the timestamp run at most one
    millisecond past the clock bound, and moves the state strictly up. *)
Lemma uuidV7_advance_spec B clock r6 r7 st :
  B < 2 ^ 64 -> clock_ok B clock -> uuidV7State_wf B st ->
  uuidV7State_wf (B + 1) (uuidV7_advance clock r6 r7 st) /\
  uuidV7_rank st < uuidV7_rank (uuidV7_advance clock r6 r7 st).
Proof.
  intros HB Hc [Hms Hct]. pose proof (Hc 0%nat). pose proof (Hc 1%nat).
  unfold uuidV7_advance, uuidV7State_wf, uuidV7_rank, uuidV7CounterMask,
    uuidV7CounterSeedMask in *.
  destruct (Z.ltb_spec (lastMS st) (clock 0%nat)); cbn [lastMS counter].
  - change 2047 with (2 ^ 11 - 1). rewrite land_mask by lia.
    pose proof (Z.mod_pos_bound (Z.lor (Z.shiftl r6 8) r7) (2 ^ 11)). lia.
  - rewrite (Z.mod_small (counter st + 1)) by lia.
    destruct (Z.ltb_spec 4095 (counter st + 1)); cbn [lastMS counter]; [|lia].
    destruct (Z.ltb_spec (lastMS st) (clock 1%nat)); [lia|].
    rewrite Z.mod_small by lia. lia.
Qed.

Lemma uuidV7State_wf_mono B B' st : B <= B' -> uuidV7State_wf B st -> uuidV7State_wf B' st.
Proof. unfold uuidV7State_wf. lia. Qed.

Lemma clock_ok_mono B B' c : B <= B' -> clock_ok B c -> clock_ok B' c.
Proof. unfold clock_ok. intros ? H i. specialize (H i). lia. Qed.

(** What one successful call returns: the timestamp and counter of the new state,
    the version and variant bits, and 62 random bits. *)
Lemma newUUIDv7At_value B en clock st u st' :
  B < 2 ^ 48 -> entropy_ok en -> clock_ok B clock -> uuidV7State_wf B st ->
  newUUIDv7At en clock st = (Ok u, st') ->
  uuidV7State_wf (B + 1) st' /\ uuidV7_rank st < uuidV7_rank st' /\
  exists tail, u = lastMS st' * 2 ^ 80 + 7 * 2 ^ 76 + counter st' * 2 ^ 64 + tail /\
    2 ^ 63 <= tail < 2 ^ 63 + 2 ^ 62.
Proof.
  intros HB Hen Hc Hst. unfold newUUIDv7At.
  destruct en as [[|r6 [|r7 [|r8 rest]]]|]; try done. intros [= Hu Hst'].
  destruct Hen as [Hl Hb]. cbn in Hl. do 3 apply Forall_cons_1 in Hb as [_ Hb].
  assert (length rest = 7%nat) as Hl' by lia.
  destruct (uuidV7_advance_spec B clock r6 r7 st) as [Hwf Hr]; [lia|done..|].
  rewrite Hst' in *. split_and!; [done..|]. exists (uuidV7_tail r8 rest).
  split; [|by apply uuidV7_tail_bound]. destruct Hwf as [??].
  unfold uuidV7CounterMask in *. rewrite <-Hu, uuidV7_bytes_value by (done || lia). done.
Qed.

Lemma newUUIDv7At_err en clock st x st' :
  newUUIDv7At en clock st = (Err x, st') -> x = ErrRandom /\ st' = st.
Proof. unfold newUUIDv7At. destruct en as [[|? [|? [|? ?]]]|]; by intros [= <- <-]. Qed.

(** The UUIDs minted from a state of rank [k] on lie above every UUID of rank [k]. *)
Definition above (st : uuidV7State) (u : uuid) : Prop :=
  lastMS st * 2 ^ 80 + 7 * 2 ^ 76 + counter st * 2 ^ 64 + 2 ^ 64 <= u.

Lemma above_rank st st' u :
  0 <= counter st <= 4095 -> 0 <= counter st' <= 4095 ->
  uuidV7_rank st <= uuidV7_rank st' -> above st' u -> above st u.
Proof. unfold uuidV7_rank, above. lia. Qed.

Lemma mint_above draws B st :
  B + Z.of_nat (length draws) <= 2 ^ 48 ->
  Forall (fun d => entropy_ok d.1 /\ clock_ok B d.2) draws ->
  uuidV7State_wf B st ->
  Forall (above st) (mint draws st).1 /\ StronglySorted Z.lt (mint draws st).1.
Proof.
  revert B st. induction draws as [|[en clock] draws IH]; intros B st HB Hd Hst; cbn.
  { split; constructor. }
  apply Forall_cons_1 in Hd as [[Hen Hc] Hd]. cbn [length fst snd] in *.
  assert (Forall (fun d => entropy_ok d.1 /\ clock_ok (B + 1) d.2) draws) as Hd'.
  { eapply Forall_impl; [exact Hd|]. intros d [? ?]. split; [done|].
    eapply clock_ok_mono; [|done]. lia. }
  destruct (newUUIDv7At en clock st) as [[u|x] st'] eqn:E.
  - apply (newUUIDv7At_value B) in E as (Hwf & Hr & tail & -> & Ht); [|lia|done..].
    specialize (IH (B + 1) st' ltac:(lia) Hd' Hwf).
    destruct (mint draws st') as [us st'']. cbn in *. destruct IH as [Ha Hs].
    destruct Hst as [? ?], Hwf as [? ?]. unfold uuidV7CounterMask in *. split.
    + constructor.
      * unfold above, uuidV7_rank in *. lia.
      * eapply Forall_impl; [exact Ha|]. intros v. apply above_rank; lia.
    + constructor; [done|]. eapply Forall_impl; [exact Ha|]. intros v. unfold above. lia.
  - apply newUUIDv7At_err in E as [_ ->]. apply (IH B); [|done|done];
      lia.
Qed.

Lemma ExtractTimestamp_div u : 0 <= u < 2 ^ 128 -> ExtractTimestamp u = u / 2 ^ 80.
Proof.
  intros Hu. unfold ExtractTimestamp, uuidTimestampShift. cbn [be_bytes take drop].
  rewrite !be_val_cons. cbn [length]. change (be_val []) with 0.
  rewrite !land_byte, !Z.shiftr_div_pow2 by lia. cbn [Z.of_nat].
  rewrite Z.shiftl_mul_pow2 by lia. rewrite Z.lor_comm, lor_add_disjoint.
  - zify; Z.to_euclidean_division_equations; lia.
  - lia.
  - zify; Z.to_euclidean_division_equations; lia.
Qed.

(** ** Properties *)

(** C35: the UUIDs one process mints are strictly increasing, whatever the wall
    clock does between the calls (it may stand still or run backwards) and also
    when the per-millisecond counter overflows and borrows a future millisecond;
    failed draws of randomness in between change nothing.  The clock readings lie
    between 0 and 2^48 milliseconds, less the number of calls. *)
Theorem uuid_mint_strictly_increasing (draws : list (option (list Z) * (nat -> Z)))
    (B : Z) (st : uuidV7State) :
  uuidV7State_wf B st ->
  Forall (fun d => entropy_ok d.1 /\ clock_ok B d.2) draws ->
  B + Z.of_nat (length draws) <= 2 ^ 48 ->
  StronglySorted Z.lt (mint draws st).1.
Proof. intros ? ? ?. by apply (mint_above draws B st). Qed.

(** A clock that steps back by 5 ms between two calls, then overflows the counter. *)
Definition witness_draws : list (option (list Z) * (nat -> Z)) :=
  [ (Some [7; 255; 3; 0; 0; 0; 0; 0; 0; 1], fun _ => 1000);
    (Some [0; 0; 0; 0; 0; 0; 0; 0; 0; 0], fun _ => 995);
    (None, fun _ => 995);
    (Some [9; 9; 200; 9; 9; 9; 9; 9; 9; 9], fun _ => 996) ].

Lemma uuid_mint_strictly_increasing_witness :
  StronglySorted Z.lt (mint witness_draws (mkUuidV7State 1000 4094)).1 /\
  length (mint witness_draws (mkUuidV7State 1000 4094)).1 = 3%nat.
Proof.
  split; [|reflexivity].
  apply (uuid_mint_strictly_increasing witness_draws 1001).
  - unfold uuidV7State_wf, uuidV7CounterMask. cbn. lia.
  - unfold witness_draws, clock_ok, entropy_ok.
    repeat (apply Forall_cons; split; [cbn; split; [|intros; lia]|]); try done;
      (split; [done|]; repeat constructor; lia).
  - cbn. lia.
Defined.

(** A minted UUID carries version 7 and the RFC variant, fits 128 bits, and
    [ExtractTimestamp] reads back the millisecond the generator stamped it with. *)
Theorem uuid_layout_roundtrip (B : Z) (en : option (list Z)) (clock : nat -> Z)
    (st : uuidV7State) (u : uuid) (st' : uuidV7State) :
  B < 2 ^ 48 -> entropy_ok en -> clock_ok B clock -> uuidV7State_wf B st ->
  newUUIDv7At en clock st = (Ok u, st') ->
  ExtractTimestamp u = lastMS st' /\ Z.land (Z.shiftr u 76) 15 = 7 /\
  Z.land (Z.shiftr u 62) 3 = 2 /\ 0 <= u < 2 ^ 128.
Proof.
  intros HB Hen Hc Hst E.
  apply (newUUIDv7At_value B) in E as ([Hms Hct] & _ & tail & Hu & Ht); [|done..].
  unfold uuidV7CounterMask in Hct.
  assert (0 <= u < 2 ^ 128) as Hr by lia.
  rewrite ExtractTimestamp_div by done. rewrite !Z.shiftr_div_pow2 by lia.
  change 15 with (2 ^ 4 - 1). change 3 with (2 ^ 2 - 1). rewrite !land_mask by lia.
  split_and!; try apply Hr; zify; Z.to_euclidean_division_equations; lia.
Qed.

Lemma uuid_layout_roundtrip_witness :
  ExtractTimestamp
    (match newUUIDv7At (Some [1; 2; 3; 4; 5; 6; 7; 8; 9; 10]) (fun _ => 1700000000000)
             uuidV7State_init with
     | (Ok u, _) => u | _ => 0 end) = 1700000000000.
Proof.
  refine (proj1 (uuid_layout_roundtrip 1700000000001 (Some [1; 2; 3; 4; 5; 6; 7; 8; 9; 10])
    (fun _ => 1700000000000) uuidV7State_init _
    (mkUuidV7State 1700000000000 258) _ _ _ _ _)).
  - lia.
  - cbn. split; [done|]. repeat constructor; lia.
  - intros i. lia.
  - unfold uuidV7State_wf, uuidV7CounterMask. cbn. lia.
  - vm_compute. reflexivity.
Defined.
