(* ===== verification/Backoff.v ===== *)
(** * Retry backoff ([backoff.go])

    [BackoffPolicy], its normalisation, the decorrelated-jitter [Delay] in IEEE
    double arithmetic, and [computeRetryDelay]. *)

From S2P Require Import Prelude Types Tx.
From Stdlib Require Import ZArith Lia.
Local Open Scope Z_scope.

(** ** Go's float64 *)

(** [float64(z)]: round to nearest, ties to even. *)
Definition float64_of_int (z : Z) : spec_float := binary_normalize 53 1024 z 0 false.
Definition f64_mul : spec_float -> spec_float -> spec_float := SFmul 53 1024.
Definition f64_add : spec_float -> spec_float -> spec_float := SFadd 53 1024.
Definition f64_sub : spec_float -> spec_float -> spec_float := SFsub 53 1024.

(** [int64(f)] truncates towards zero; outside the range of int64 the result is
    implementation-specific ([conv]). *)
Definition int_of_float64 (conv : spec_float -> Z) (f : spec_float) : Z :=
  match f with
  | S754_zero _ => 0
  | S754_finite s m e =>
      let a := if 0 <=? e then Z.pos m * 2 ^ e else Z.pos m / 2 ^ (- e) in
      let z := if s then - a else a in
      if (int64_min <=? z) && (z <=? int64_max) then z else wrap64 (conv f)
  | _ => wrap64 (conv f)
  end.

(** ** The policy *)

Definition defaultBackoffBase : Duration := 1 * second.
Definition defaultBackoffMax : Duration := 5 * minute.
Definition defaultBackoffMultiplier : spec_float := float64_of_int 3.

Definition DefaultBackoffPolicy : BackoffPolicy :=
  mkBackoffPolicy defaultBackoffBase defaultBackoffMax defaultBackoffMultiplier.

Definition normalized (p : BackoffPolicy) : BackoffPolicy :=
  let d := DefaultBackoffPolicy in
  let base := if BaseDelay p <=? 0 then BaseDelay d else BaseDelay p in
  let max1 := if MaxDelay p <? base then MaxDelay d else MaxDelay p in
  let max2 := if max1 <? base then base else max1 in
  let mult := if SFltb (Multiplier p) (float64_of_int 1) then Multiplier d else Multiplier p in
  mkBackoffPolicy base max2 mult.

(** [p.Delay(prev)] with [r] the value [rand.Float64()] returns. *)
Definition Delay (conv : spec_float -> Z) (r : spec_float) (p : BackoffPolicy) (prev : Duration) :
    Duration :=
  let pn := normalized p in
  let prev := if prev <? BaseDelay pn then BaseDelay pn else prev in
  let low := float64_of_int (BaseDelay pn) in
  let high := f64_mul (float64_of_int prev) (Multiplier pn) in
  let high := if SFltb high low then low else high in
  let d := int_of_float64 conv (f64_add low (f64_mul r (f64_sub high low))) in
  if MaxDelay pn <? d then MaxDelay pn
  else if d <? BaseDelay pn then BaseDelay pn
  else d.

Definition maxBackoffSteps : Z := 64.
Definition maxRetryDelay : Duration := 24 * hour.

(** [for range steps { d = policy.Delay(d) }] *)
Fixpoint advance_backoff {S} (steps : nat) (p : BackoffPolicy) (d : Duration) : tx S Duration :=
  match steps with
  | O => mret d
  | Datatypes.S steps =>
      conv ← ask_conv; r ← draw;
      advance_backoff steps p (Delay conv r p d)
  end.

Definition computeRetryDelay {S} (cfg : queueConfig) (attempt : Z) (override : Duration) :
    tx S Duration :=
  if 0 <? override then
    if maxRetryDelay <? override then mret maxRetryDelay else mret override
  else
    let steps := Z.min attempt maxBackoffSteps in
    advance_backoff (Z.to_nat steps) (backoffPolicy cfg) 0.

(** ** Lemmas *)

Definition policy_wf (p : BackoffPolicy) : Prop :=
  0 < BaseDelay p <= MaxDelay p /\ SFltb (Multiplier p) (float64_of_int 1) = false.

Lemma normalized_wf p : policy_wf (normalized p).
Proof.
  unfold policy_wf, normalized. cbn [BaseDelay MaxDelay Multiplier].
  set (base := if _ <=? 0 then _ else _). assert (0 < base) as Hb.
  { subst base. destruct (Z.leb_spec (BaseDelay p) 0); [reflexivity|done]. }
  split.
  - set (m1 := if MaxDelay p <? base then _ else _). destruct (Z.ltb_spec m1 base); lia.
  - destruct (SFltb (Multiplier p) _) eqn:E; [reflexivity|done].
Qed.

Lemma normalized_id p : policy_wf p -> normalized p = p.
Proof.
  destruct p as [b m f]. unfold policy_wf, normalized. cbn. intros [Hb ->].
  destruct (Z.leb_spec b 0); [lia|]. destruct (Z.ltb_spec m b); [lia|].
  destruct (Z.ltb_spec m b); [lia|done].
Qed.

Lemma Delay_bounds conv r p prev :
  BaseDelay (normalized p) <= Delay conv r p prev <= MaxDelay (normalized p).
Proof.
  destruct (normalized_wf p) as [Hw _]. unfold Delay. set (d := int_of_float64 _ _).
  destruct (Z.ltb_spec (MaxDelay (normalized p)) d); [lia|].
  destruct (Z.ltb_spec d (BaseDelay (normalized p))); lia.
Qed.

Lemma wp_advance_backoff {S} e n (s : option S) steps p d
    (Q : Duration -> nat -> option S -> Prop) E :
  (forall d' n', (n <= n' <= n + steps)%nat -> (steps = O /\ d' = d) \/
     (steps <> O /\ BaseDelay (normalized p) <= d' <= MaxDelay (normalized p)) -> Q d' n' s) ->
  wp e n s (advance_backoff steps p d) Q E.
Proof.
  revert n d. induction steps as [|steps IH]; intros n d H; cbn.
  { apply wp_ret, H; [lia|by left]. }
  do 2 (wp_step; wp_step). apply IH. intros d' n' Hn Hd'. apply H; [lia|]. right. split; [done|].
  destruct Hd' as [[-> ->]|[_ ?]]; [|done]. apply Delay_bounds.
Qed.

(** The delay a retry waits: within the override's cap, or within the policy. *)
Definition retry_delay_ok (p : BackoffPolicy) (attempt : Z) (override d : Duration) : Prop :=
  (0 < override /\ d = Z.min override maxRetryDelay) \/
  (override <= 0 /\ attempt <= 0 /\ d = 0) \/
  (override <= 0 /\ 0 < attempt /\ BaseDelay (normalized p) <= d <= MaxDelay (normalized p)).

Lemma wp_computeRetryDelay {S} e n (s : option S) cfg attempt override
    (Q : Duration -> nat -> option S -> Prop) E :
  (forall d n', (n <= n' <= n + 64)%nat ->
     retry_delay_ok (backoffPolicy cfg) attempt override d -> Q d n' s) ->
  wp e n s (computeRetryDelay cfg attempt override) Q E.
Proof.
  intros H. unfold computeRetryDelay, retry_delay_ok, maxBackoffSteps in *.
  destruct (Z.ltb_spec 0 override).
  - destruct (Z.ltb_spec maxRetryDelay override); apply wp_ret, H; try lia; left; lia.
  - apply wp_advance_backoff. intros d n' Hn Hd. apply H; [lia|]. right. lia.
Qed.

Lemma retry_delay_nonneg p attempt override d :
  retry_delay_ok p attempt override d -> 0 <= d.
Proof.
  destruct (normalized_wf p) as [Hw _]. unfold retry_delay_ok, maxRetryDelay, hour, minute,
    second, millisecond. lia.
Qed.

(** ** Properties *)

(** [Delay] stays within [BaseDelay, MaxDelay] of the normalised policy for
    every policy (zero, negative, NaN multiplier), every previous delay and
    every random draw, also when the product overflows the range of int64 and
    the conversion is implementation-specific. *)
Theorem backoff_delay_bounds (conv : spec_float -> Z) (r : spec_float) (p : BackoffPolicy)
    (prev : Duration) :
  0 < BaseDelay (normalized p) <= Delay conv r p prev /\
  Delay conv r p prev <= MaxDelay (normalized p) /\
  normalized (normalized p) = normalized p.
Proof.
  pose proof (Delay_bounds conv r p prev). pose proof (normalized_wf p) as Hw.
  pose proof (normalized_id _ Hw). destruct Hw. split_and!; (done || lia).
Qed.

(** [computeRetryDelay] always returns, without an error, after at most 64
    draws: a positive override clamped to 24 hours, 0 for a non-positive attempt,
    and otherwise a delay within the normalised policy's bounds, however large the
    stored retry count is. *)
Theorem computeRetryDelay_bounds {S} (e : env) (n : nat) (s : option S) (cfg : queueConfig)
    (attempt : Z) (override : Duration) :
  exists d n', computeRetryDelay cfg attempt override e n s = TOk d n' s /\
    retry_delay_ok (backoffPolicy cfg) attempt override d /\
    (n' <= n + 64)%nat.
Proof.
  assert (wp e n s (computeRetryDelay cfg attempt override)
    (fun d n' s' => s' = s /\ retry_delay_ok (backoffPolicy cfg) attempt override d /\
       (n' <= n + 64)%nat) (fun _ => False)) as H.
  { apply wp_computeRetryDelay. intros d n' Hn Hd. split_and!; [done..|lia]. }
  unfold wp in H. destruct (computeRetryDelay cfg attempt override e n s) as [d n' s'|]; [|done].
  destruct H as (-> & ? & ?). by exists d, n'.
Qed.
