(* ===== verification/Float64.v ===== *)
(** * Rounding of IEEE doubles

    What the statistics need of [float64] arithmetic beyond its definition in
    [Backoff]: a product of two non-negative doubles that is at most an integer
    representable in 53 bits is still at most that integer after rounding, so its
    conversion to int64 is defined and within the same bound. *)

From S2P Require Import Prelude Types Tx Backoff.
From Stdlib Require Import ZArith Lia.
Local Open Scope Z_scope.

Lemma digits2_pos_bounds p : 2 ^ (Z.pos (digits2_pos p) - 1) <= Z.pos p < 2 ^ Z.pos (digits2_pos p).
Proof.
  induction p as [p IH|p IH|]; cbn [digits2_pos]; [| |cbn; lia];
    rewrite Pos2Z.inj_succ, Z.pow_succ_r by lia;
    replace (Z.succ (Z.pos (digits2_pos p)) - 1) with (Z.succ (Z.pos (digits2_pos p) - 1)) by lia;
    rewrite Z.pow_succ_r by lia; lia.
Qed.

Lemma Zdigits2_le m e d : 0 <= m -> 0 <= d + e -> m < 2 ^ (d + e) -> Zdigits2 m <= Z.max 0 (d + e).
Proof.
  intros H0 Hd Hm. destruct m as [|p|p]; cbn [Zdigits2]; [lia| |lia].
  destruct (digits2_pos_bounds p) as [Hl _].
  assert (2 ^ (Z.pos (digits2_pos p) - 1) < 2 ^ (d + e)) as Hlt%Z.pow_lt_mono_r_iff by lia; lia.
Qed.

(** ** Shifts *)

Lemma iter_pos_nat {A} (f : A -> A) p x : SpecFloat.iter_pos f p x = Nat.iter (Pos.to_nat p) f x.
Proof.
  revert x. induction p as [p IH|p IH|]; intros x; cbn [SpecFloat.iter_pos].
  - rewrite !IH, Pos2Nat.inj_xI. cbn [Nat.mul]. rewrite Nat.add_0_r.
    change (S (Pos.to_nat p + Pos.to_nat p)) with (1 + (Pos.to_nat p + Pos.to_nat p))%nat.
    rewrite (Nat.add_comm 1), !Nat.iter_add. done.
  - rewrite !IH, Pos2Nat.inj_xO. cbn [Nat.mul]. by rewrite Nat.add_0_r, Nat.iter_add.
  - done.
Qed.

Lemma shr_1_spec mrs :
  0 <= shr_m mrs ->
  shr_m (shr_1 mrs) = shr_m mrs / 2 /\
  (shr_m mrs mod 2 = 0 -> shr_r mrs = false -> shr_s mrs = false ->
   shr_r (shr_1 mrs) = false /\ shr_s (shr_1 mrs) = false).
Proof.
  destruct mrs as [m r s]. cbn [shr_m shr_r shr_s]. intros Hm.
  destruct m as [|[p|p|]|p]; [cbn; split; [done|by intros _ -> ->]| | |cbn; split; done|lia];
    cbn [shr_1 shr_m shr_r shr_s].
  - split; [rewrite (Pos2Z.inj_xI p); Z.div_mod_to_equations; lia|].
    intros Hmod. rewrite (Pos2Z.inj_xI p) in Hmod. Z.div_mod_to_equations; lia.
  - split; [rewrite (Pos2Z.inj_xO p); Z.div_mod_to_equations; lia|]. by intros _ -> ->.
Qed.

Lemma shr_1_iter k m :
  0 <= m ->
  let mrs := Nat.iter k shr_1 (Build_shr_record m false false) in
  shr_m mrs = m / 2 ^ Z.of_nat k /\
  (m mod 2 ^ Z.of_nat k = 0 -> shr_r mrs = false /\ shr_s mrs = false).
Proof.
  intros Hm. induction k as [|k [IH1 IH2]]; [cbn; by rewrite Z.div_1_r|]. cbn zeta in *.
  change (Nat.iter (S k) shr_1 ?x) with (shr_1 (Nat.iter k shr_1 x)).
  set (mrs := Nat.iter k _ _) in *.
  assert (0 < 2 ^ Z.of_nat k) as Hp by (apply Z.pow_pos_nonneg; lia).
  destruct (shr_1_spec mrs) as [H1 H2]; [rewrite IH1; by apply Z.div_pos|].
  replace (Z.of_nat (S k)) with (Z.of_nat k + 1) by lia.
  rewrite Z.pow_add_r, Z.pow_1_r by lia. split.
  - rewrite H1, IH1, Z.div_div by lia. done.
  - rewrite Z.rem_mul_r by lia. intros Hz.
    pose proof (Z.mod_pos_bound m (2 ^ Z.of_nat k) Hp).
    pose proof (Z.mod_pos_bound (m / 2 ^ Z.of_nat k) 2 ltac:(lia)).
    destruct (IH2 ltac:(nia)) as [Hr Hs]. apply H2; [rewrite IH1; nia|done..].
Qed.

(** A shift by [n], to the left of which nothing happens. *)
Lemma shr_spec m e n :
  0 <= m ->
  let '(mrs, e') := shr (Build_shr_record m false false) e n in
  e' = e + Z.max 0 n /\ shr_m mrs = m / 2 ^ Z.max 0 n /\
  (m mod 2 ^ Z.max 0 n = 0 -> shr_r mrs = false /\ shr_s mrs = false).
Proof.
  intros Hm. destruct n as [|p|p]; cbn [shr Z.max Z.compare].
  1,3: cbn; rewrite Z.div_1_r; split; [lia|done].
  rewrite iter_pos_nat. destruct (shr_1_iter (Pos.to_nat p) m Hm) as [H1 H2].
  rewrite positive_nat_Z in H1, H2. done.
Qed.

Lemma round_nearest_even_le mrs :
  round_nearest_even (shr_m mrs) (loc_of_shr_record mrs) =
    shr_m mrs + (if shr_r mrs && (shr_s mrs || Z.odd (shr_m mrs)) then 1 else 0).
Proof.
  destruct mrs as [m [] []]; cbn; rewrite <-?Z.negb_even, ?Z.add_0_r; try done.
  by destruct (Z.even m); cbn; rewrite ?Z.add_0_r.
Qed.

(** ** Rounding to 53 bits

    Values are compared as integers scaled by [2 ^ B]; [c] is the bound, a multiple
    of [2 ^ 9] below [2 ^ 62]. *)
Section round.
Context (B c : Z).
Hypothesis Hc : 0 <= c < 2 ^ 62.
Hypothesis Hmul : c mod 2 ^ 9 = 0.

Definition at_most (m e : Z) : Prop := 0 <= e + B /\ m * 2 ^ (e + B) <= c * 2 ^ B.

Lemma at_most_digits m e : 0 <= B -> 0 < m -> at_most m e -> Zdigits2 m + e <= 62 /\ e <= 62.
Proof.
  intros HB Hm [He Hv].
  assert (forall x, 0 <= x -> 2 ^ (x + e + B) <= m * 2 ^ (e + B) -> x + e < 62) as Hlt.
  { intros x Hx Hle. assert (2 ^ (x + e + B) < 2 ^ (62 + B)) as Hp.
    { rewrite (Z.pow_add_r 2 62) by lia. assert (0 < 2 ^ B) by (apply Z.pow_pos_nonneg; lia).
      apply Z.le_lt_trans with (c * 2 ^ B); [lia|]. apply Z.mul_lt_mono_pos_r; lia. }
    apply Z.pow_lt_mono_r_iff in Hp; lia. }
  destruct m as [|p|p]; [lia| |lia]. cbn [Zdigits2]. destruct (digits2_pos_bounds p) as [Hl _].
  assert (0 < 2 ^ (e + B)) by (apply Z.pow_pos_nonneg; lia). split.
  - specialize (Hlt (Z.pos (digits2_pos p) - 1) ltac:(lia)).
    rewrite <-Z.add_assoc, Z.pow_add_r in Hlt by lia. specialize (Hlt ltac:(nia)). lia.
  - specialize (Hlt 0 ltac:(lia)). rewrite Z.add_0_l in Hlt. specialize (Hlt ltac:(nia)). lia.
Qed.

Lemma c_multiple e : 0 <= e + B -> e <= 9 -> 0 <= B -> exists k, 0 <= k /\ c * 2 ^ B = k * 2 ^ (e + B).
Proof.
  intros He H9 HB. exists (c / 2 ^ 9 * 2 ^ (9 - e)).
  assert (0 < 2 ^ (9 - e)) by (apply Z.pow_pos_nonneg; lia).
  pose proof (Z.div_pos c (2 ^ 9) ltac:(lia) ltac:(lia)). split; [nia|].
  rewrite <-Z.mul_assoc, <-Z.pow_add_r by lia. replace (9 - e + (e + B)) with (9 + B) by lia.
  rewrite Z.pow_add_r by lia. pose proof (Z.div_mod c (2 ^ 9) ltac:(lia)). rewrite Hmul in *. lia.
Qed.

(** Shifting a value to 53 bits and rounding it keeps it below the bound. *)
Lemma shr_fexp_at_most m e :
  0 <= B -> 0 < m -> at_most m e ->
  let '(mrs, e') := shr_fexp 53 1024 m e loc_Exact in
  let m' := round_nearest_even (shr_m mrs) (loc_of_shr_record mrs) in
  0 <= m' /\ e' <= 62 /\ at_most m' e'.
Proof.
  intros HB Hm Hle. destruct (at_most_digits m e HB Hm Hle) as [Hd He]. destruct Hle as [HeB Hle].
  unfold shr_fexp. cbn [shr_record_of_loc]. set (n := fexp 53 1024 (Zdigits2 m + e) - e).
  assert (e + Z.max 0 n <= Z.max e 9) as H9 by (subst n; unfold fexp, emin; lia).
  pose proof (shr_spec m e n ltac:(lia)) as Hs. destruct (shr _ e n) as [mrs e'].
  destruct Hs as (-> & Hq & Hex). cbn zeta. rewrite round_nearest_even_le, Hq.
  set (k := Z.max 0 n) in *. assert (0 < 2 ^ k) as Hk by (apply Z.pow_pos_nonneg; lia).
  pose proof (Z.div_mod m (2 ^ k) ltac:(lia)) as Hdm. pose proof (Z.mod_pos_bound m (2 ^ k) Hk) as Hmod.
  pose proof (Z.div_pos m (2 ^ k) ltac:(lia) Hk).
  set (up := if (_ : bool) then 1 else 0). assert (0 <= up <= 1) by (subst up; by case_match).
  split; [lia|]. split; [lia|]. split; [lia|].
  assert (0 < 2 ^ (e + B)) by (apply Z.pow_pos_nonneg; lia).
  replace (e + k + B) with (k + (e + B)) by lia. rewrite (Z.pow_add_r 2 k) by lia.
  destruct (Z.eq_dec (m mod 2 ^ k) 0) as [Hz|Hz].
  { destruct (Hex Hz) as [Hr _]. assert (up = 0) as -> by (subst up; by rewrite Hr). nia. }
  assert (0 < k) by (destruct (Z.eq_dec k 0) as [E|]; [rewrite E, Z.pow_0_r, Z.mod_1_r in Hz; done|lia]).
  destruct (c_multiple (e + k)) as (j & Hj & Hcj); [lia..|].
  rewrite Hcj in *. replace (e + k + B) with (k + (e + B)) in * by lia.
  rewrite (Z.pow_add_r 2 k) in * by lia.
  set (a := 2 ^ k) in *. set (b := 2 ^ (e + B)) in *.
  assert (m <= j * a) by (apply (Z.mul_le_mono_pos_r _ _ b); [done|]; rewrite <-Z.mul_assoc; exact Hle).
  assert (m <> j * a) by (intros E; apply Hz; rewrite E; by apply Z.mod_mul; lia).
  assert (m / a < j) by (apply Z.div_lt_upper_bound; lia).
  rewrite Z.mul_assoc, (Z.mul_assoc j). apply Z.mul_le_mono_nonneg_r; [lia|].
  apply Z.mul_le_mono_nonneg_r; lia.
Qed.

(** The conversion to int64 is defined, whatever the implementation does outside its
    range, and within the bound. *)
Lemma round_at_most m e :
  0 <= B -> 0 < m -> at_most m e ->
  exists z, 0 <= z <= c /\
    forall conv, int_of_float64 conv (binary_round_aux 53 1024 false m e loc_Exact) = z.
Proof.
  intros HB Hm Hle. unfold binary_round_aux.
  pose proof (shr_fexp_at_most m e HB Hm Hle) as H1. destruct (shr_fexp 53 1024 m e loc_Exact) as [mrs e1].
  cbn zeta in H1. set (m1 := round_nearest_even _ _) in *. destruct H1 as (H0 & He1 & H1).
  destruct (Z.eq_dec m1 0) as [Hz|Hz].
  { rewrite Hz. unfold shr_fexp. cbn [shr_record_of_loc]. set (n := _ - e1).
    pose proof (shr_spec 0 e1 n ltac:(lia)) as Hs. destruct (shr _ e1 n) as [mrs' e2].
    destruct Hs as (_ & Hq & _). exists 0.
    rewrite Hq, Z.div_0_l; [split; [lia|done]|apply Z.pow_nonzero; lia]. }
  pose proof (at_most_digits m1 e1 HB ltac:(lia) H1) as [Hd _]. destruct H1 as [HeB H1].
  unfold shr_fexp. cbn [shr_record_of_loc]. set (n := _ - e1).
  assert (e1 + Z.max 0 n <= Z.max e1 9) by (subst n; unfold fexp, emin; lia).
  pose proof (shr_spec m1 e1 n ltac:(lia)) as Hs. destruct (shr _ e1 n) as [mrs' e2].
  destruct Hs as (-> & Hq & _). rewrite Hq. set (k := Z.max 0 n) in *.
  assert (0 < 2 ^ k) as Hk by (apply Z.pow_pos_nonneg; lia).
  pose proof (Z.div_pos m1 (2 ^ k) ltac:(lia) Hk) as Hp.
  pose proof (Z.mul_div_le m1 (2 ^ k) Hk) as Hmd.
  destruct (m1 / 2 ^ k) as [|p|p] eqn:Ep; [exists 0; split; [lia|done]| |lia].
  rewrite (proj2 (Z.leb_le _ _)) by lia. cbn [int_of_float64].
  assert (0 < 2 ^ (e1 + B)) by (apply Z.pow_pos_nonneg; lia). assert (0 < 2 ^ B) by (apply Z.pow_pos_nonneg; lia).
  assert (Z.pos p * 2 ^ (e1 + k + B) <= c * 2 ^ B) as Hv.
  { replace (e1 + k + B) with (k + (e1 + B)) by lia. rewrite (Z.pow_add_r 2 k) by lia. nia. }
  set (a := if 0 <=? e1 + k then _ else _). assert (0 <= a <= c) as Ha.
  { subst a. destruct (Z.leb_spec 0 (e1 + k)).
    - rewrite (Z.pow_add_r 2 (e1 + k)) in Hv by lia. split; [|nia].
      assert (0 < 2 ^ (e1 + k)) by (apply Z.pow_pos_nonneg; lia). nia.
    - assert (0 < 2 ^ (- (e1 + k))) as Hq2 by (apply Z.pow_pos_nonneg; lia). split; [by apply Z.div_pos|].
      apply Z.div_le_upper_bound; [done|]. assert (0 < 2 ^ (e1 + k + B)) by (apply Z.pow_pos_nonneg; lia).
      assert (2 ^ B = 2 ^ (- (e1 + k)) * 2 ^ (e1 + k + B)) as Heq
        by (rewrite <-Z.pow_add_r by lia; f_equal; lia). rewrite Heq in Hv. nia. }
  exists a. split; [done|]. intros conv.
  assert ((int64_min <=? a) && (a <=? int64_max) = true) as ->; [|done].
  unfold int64_min, int64_max. apply andb_true_iff. rewrite !Z.leb_le. lia.
Qed.
End round.

(** ** Integers up to 2^53 are represented exactly *)

Lemma digits2_pos_unique p d : 0 <= d -> 2 ^ d <= Z.pos p < 2 ^ (d + 1) -> Z.pos (digits2_pos p) = d + 1.
Proof.
  intros Hd [Hl Hu]. destruct (digits2_pos_bounds p) as [Hl' Hu'].
  assert (2 ^ d < 2 ^ Z.pos (digits2_pos p)) as H1%Z.pow_lt_mono_r_iff by lia; [|lia|lia].
  assert (2 ^ (Z.pos (digits2_pos p) - 1) < 2 ^ (d + 1)) as H2%Z.pow_lt_mono_r_iff by lia; lia.
Qed.

(** A 53-bit significand in range is left alone. *)
Lemma round_aux_exact p e :
  Z.pos (digits2_pos p) = 53 -> -52 <= e <= 0 ->
  binary_round_aux 53 1024 false (Z.pos p) e loc_Exact = S754_finite false p e.
Proof.
  intros Hd He. unfold binary_round_aux.
  assert (shr_fexp 53 1024 (Z.pos p) e loc_Exact = (Build_shr_record (Z.pos p) false false, e)) as Hs.
  { unfold shr_fexp. cbn [Zdigits2 shr_record_of_loc]. rewrite Hd.
    replace (fexp 53 1024 (53 + e) - e) with 0; [done|]. unfold fexp, emin. lia. }
  rewrite Hs. cbn [shr_m loc_of_shr_record round_nearest_even]. rewrite Hs. cbn [shr_m].
  by rewrite (proj2 (Z.leb_le _ _)) by lia.
Qed.

Lemma iter_xO_spec d p : Z.pos (Pos.iter xO p d) = Z.pos p * 2 ^ Z.pos d.
Proof.
  change (Pos.iter xO p d) with (Zpower.shift_pos d p).
  rewrite Zpower.shift_pos_correct, Z.mul_comm. reflexivity.
Qed.

Lemma shl_align_digits m (d := Z.pos (digits2_pos m)) :
  1 <= d <= 53 -> exists p, shl_align m 0 (fexp 53 1024 (d + 0)) = (p, d - 53) /\
    Z.pos p = Z.pos m * 2 ^ (53 - d) /\ Z.pos (digits2_pos p) = 53.
Proof.
  intros Hd. destruct (digits2_pos_bounds m) as [Hl Hu]. fold d in Hl, Hu.
  assert (forall p, Z.pos p = Z.pos m * 2 ^ (53 - d) -> Z.pos (digits2_pos p) = 53) as Hdig.
  { intros p Hp. change 53 with (52 + 1). apply digits2_pos_unique; [lia|]. rewrite Hp.
    assert (0 < 2 ^ (53 - d)) by (apply Z.pow_pos_nonneg; lia).
    replace 52 with ((d - 1) + (53 - d)) at 1 by lia. replace (52 + 1) with (d + (53 - d)) by lia.
    rewrite !Z.pow_add_r by lia. nia. }
  unfold shl_align. rewrite Z.add_0_r, Z.sub_0_r.
  replace (fexp 53 1024 d) with (d - 53) by (unfold fexp, emin; lia).
  destruct (d - 53) as [|x|x] eqn:Ex; [|lia|].
  - replace d with 53 in * by lia. exists m. rewrite Z.mul_1_r in *. split; [done|]. split; [done|].
    by apply Hdig.
  - exists (Pos.iter xO m x). assert (Z.pos (Pos.iter xO m x) = Z.pos m * 2 ^ (53 - d)) as Hp
      by (rewrite iter_xO_spec; do 2 f_equal; lia). split; [done|]. split; [done|]. by apply Hdig.
Qed.

(** [int64(float64(k))] is [k]. *)
Lemma float64_of_int_exact conv k : 0 <= k <= 2 ^ 53 -> int_of_float64 conv (float64_of_int k) = k.
Proof.
  intros Hk. destruct (Z.eq_dec k (2 ^ 53)) as [->|Hne]; [vm_compute; reflexivity|].
  destruct k as [|m|m]; [done| |lia]. unfold float64_of_int, binary_normalize, binary_round.
  destruct (digits2_pos_bounds m) as [Hl _].
  assert (1 <= Z.pos (digits2_pos m) <= 53) as Hd.
  { split; [lia|]. assert (2 ^ (Z.pos (digits2_pos m) - 1) < 2 ^ 53) as H1%Z.pow_lt_mono_r_iff by lia; lia. }
  destruct (shl_align_digits m Hd) as (p & -> & Hp & H53). set (d := Z.pos (digits2_pos m)) in *.
  rewrite round_aux_exact by (done || lia). cbn [int_of_float64].
  assert (0 < 2 ^ (53 - d)) by (apply Z.pow_pos_nonneg; lia).
  assert ((if 0 <=? d - 53 then Z.pos p * 2 ^ (d - 53) else Z.pos p / 2 ^ (- (d - 53))) = Z.pos m) as ->.
  { rewrite Hp. destruct (Z.leb_spec 0 (d - 53)).
    - replace d with 53 by lia. cbn. lia.
    - replace (- (d - 53)) with (53 - d) by lia. rewrite Z.div_mul; lia. }
  rewrite (proj2 (andb_true_iff _ _)); [done|]. unfold int64_min, int64_max. rewrite !Z.leb_le. lia.
Qed.
