(* ===== verification/PgListen.v ===== *)
(** * The LISTEN driver ([pglisten/listener.go])

    A [Listener] owns one PostgreSQL connection.  Callers register channels
    ([Listen], [Unlisten]) under a lock; one goroutine ([run]) issues the
    statements, waits for notifications and reconnects.  The model is a
    transition system: every critical section and every call to the driver is one
    atomic step, [run] carries its position in the loop, and the answers of the
    connection are inputs.  The server's side of the connection (is it alive,
    which channels does its session listen on) is part of the state. *)

From S2P Require Import Prelude Types Tx Backoff.
From Stdlib Require Import ZArith Lia Ascii.
From stdpp Require Import strings.
Local Open Scope Z_scope.

(** ** Configuration *)

Definition defaultReconnectBaseDelay : Duration := 1 * second.
Definition defaultReconnectMaxDelay : Duration := 30 * second.
Definition defaultReconnectMultiplier : spec_float := float64_of_int 2.
Definition maxReconnectBackoffSteps : Z := 32.
Definition defaultKeepaliveInterval : Duration := 30 * second.
Definition notifyBuffer : nat := 64.

Record ReconnectPolicy := mkReconnectPolicy {
  rp_BaseDelay : Duration;
  rp_MaxDelay : Duration;
  rp_Multiplier : spec_float
}.

Definition normalizeKeepaliveInterval (d : Duration) : Duration :=
  if d <=? 0 then defaultKeepaliveInterval else d.

Definition policy_normalized (p : ReconnectPolicy) : ReconnectPolicy :=
  let base := if rp_BaseDelay p <=? 0 then defaultReconnectBaseDelay else rp_BaseDelay p in
  let mult := if SFltb (rp_Multiplier p) (float64_of_int 1) then defaultReconnectMultiplier
              else rp_Multiplier p in
  let max1 := if rp_MaxDelay p <? base then defaultReconnectMaxDelay else rp_MaxDelay p in
  let max2 := if max1 <? base then base else max1 in
  mkReconnectPolicy base max2 mult.

(** The options of [New] that configure the reconnect and keepalive behaviour. *)
Record listenerConfig := mkListenerConfig {
  reconnectPolicy : ReconnectPolicy;
  keepaliveInterval : Duration
}.
Definition ListenerOption : Type := listenerConfig -> listenerConfig.
Definition WithReconnectPolicy (p : ReconnectPolicy) : ListenerOption := fun c =>
  mkListenerConfig (policy_normalized p) (keepaliveInterval c).
Definition WithKeepaliveInterval (d : Duration) : ListenerOption := fun c =>
  mkListenerConfig (reconnectPolicy c) (normalizeKeepaliveInterval d).

Definition New_listenerConfig (opts : list ListenerOption) : listenerConfig :=
  foldl (fun c f => f c)
    (mkListenerConfig (policy_normalized (mkReconnectPolicy 0 0 (S754_zero false)))
       defaultKeepaliveInterval) opts.

(** The growth of the backoff window: [steps] multiplications, stopping at the cap. *)
Fixpoint backoff_window (steps : nat) (p : ReconnectPolicy) (window : spec_float) : spec_float :=
  match steps with
  | O => window
  | S steps =>
      let window := f64_mul window (rp_Multiplier p) in
      if SFleb (float64_of_int (rp_MaxDelay p)) window then float64_of_int (rp_MaxDelay p)
      else backoff_window steps p window
  end.

(** [r] is what [rand.Float64()] draws. *)
Definition reconnectBackoff (conv : spec_float -> Z) (r : spec_float) (p : ReconnectPolicy)
    (attempt : Z) : Duration :=
  let steps := Z.to_nat (Z.min attempt maxReconnectBackoffSteps) in
  int_of_float64 conv (f64_mul r (backoff_window steps p (float64_of_int (rp_BaseDelay p)))).

(** ** Quoting *)

Definition dquote : ascii := "034"%char.

(** [strings.ReplaceAll], doubling every double quote *)
Fixpoint double_quotes (s : string) : string :=
  match s with
  | EmptyString => EmptyString
  | String c s => if Ascii.eqb c dquote then String c (String c (double_quotes s))
                  else String c (double_quotes s)
  end.

Definition quoteListenIdent (ch : string) : string :=
  String dquote (double_quotes ch +:+ String dquote EmptyString).

(** [strings.IndexByte(channel, 0) >= 0] *)
Fixpoint contains_nul (s : string) : bool :=
  match s with
  | EmptyString => false
  | String c s => Ascii.eqb c Ascii.zero || contains_nul s
  end.

(** ** The state *)

(** [lr_done] is the caller's channel, [None] for a re-LISTEN nobody waits for. *)
Record listenReq := mkListenReq {
  lr_channel : string;
  lr_done : option nat
}.

(** What [WaitForNotification] came back with: a notification, or an error, with the
    wait's context canceled by [requestInterrupt], past its deadline, or still live. *)
Inductive woken :=
| WNotification (ch : string)
| WCanceled
| WDeadline
| WConnErr.

(** [waitCtx.Err()] where [receiveOne] looks at it.  By then it has called [cancel],
    so that a context which was live when the wait returned reports Canceled too. *)
Inductive ctxErr :=
| Canceled
| DeadlineExceeded.
Definition waitCtx_Err (r : woken) : option ctxErr :=
  match r with
  | WDeadline => Some DeadlineExceeded
  | _ => Some Canceled
  end.

(** The position of the [run] goroutine. *)
Inductive position :=
| RTop                                                       (* the head of the loop in [run] *)
| RDrain (reqs : list listenReq) (uns : list string)         (* [drainPending]: next statement *)
| RMark (req : listenReq) (reqs : list listenReq) (uns : list string)    (* [markConfirmed] *)
| RSignal (req : listenReq) (reqs : list listenReq) (uns : list string)  (* [req.signal(nil)] *)
| RFail (req : listenReq) (reqs : list listenReq)            (* a LISTEN failed *)
| RReceive                                                   (* [receiveOne] *)
| RWait (canceled : bool)                                    (* in [WaitForNotification] *)
| RWoken (r : woken) (interrupted : bool)
| RProbe                                                     (* [keepaliveProbe] *)
| RDeliver (ch : string)                                     (* [deliverNotification] *)
| RBlocked (ch : string)                                     (* ... on a full buffer *)
| RReconnect                                                 (* [reconnect] *)
| RConnect (attempt : nat)                                   (* its loop head *)
| RConnecting (attempt : nat)                                (* in [pgx.Connect] *)
| RBackoff (attempt : nat)                                   (* waiting for the timer *)
| RExit.

Record Listener := mkListener {
  alive : bool;                  (* server: the connection works *)
  session : gset string;         (* server: the channels it listens on *)
  channels : gset string;
  confirmed : gset string;
  pending : list listenReq;
  unpending : list string;
  closed : bool;
  l_done : bool;                 (* the [done] channel is closed *)
  interruptPending : bool;
  notifs : list string;
  notifBlocked : bool;
  outcomes : gmap nat bool;      (* what each waiting caller was sent: nil or an error *)
  issued : nat;                  (* callers that queued a request so far *)
  nudges : nat;                  (* callers between their critical section and [requestInterrupt] *)
  at_ : position
}.

Definition set_server (a : bool) (s : gset string) (l : Listener) : Listener :=
  mkListener a s (channels l) (confirmed l) (pending l) (unpending l) (closed l) (l_done
    l) (interruptPending l) (notifs l) (notifBlocked l) (outcomes l) (issued l) (nudges
    l) (at_ l).
Definition set_channels (cs cf : gset string) (l : Listener) : Listener :=
  mkListener (alive l) (session l) cs cf (pending l) (unpending l) (closed l) (l_done l)
    (interruptPending l) (notifs l) (notifBlocked l) (outcomes l) (issued l) (nudges l)
    (at_ l).
Definition set_queues (ps : list listenReq) (us : list string) (l : Listener) : Listener :=
  mkListener (alive l) (session l) (channels l) (confirmed l) ps us (closed l) (l_done
    l) (interruptPending l) (notifs l) (notifBlocked l) (outcomes l) (issued l) (nudges
    l) (at_ l).
Definition set_closed (c d : bool) (l : Listener) : Listener :=
  mkListener (alive l) (session l) (channels l) (confirmed l) (pending l) (unpending l)
    c d (interruptPending l) (notifs l) (notifBlocked l) (outcomes l) (issued l) (nudges
    l) (at_ l).
Definition set_interrupt (b : bool) (l : Listener) : Listener :=
  mkListener (alive l) (session l) (channels l) (confirmed l) (pending l) (unpending l)
    (closed l) (l_done l) b (notifs l) (notifBlocked l) (outcomes l) (issued l) (nudges
    l) (at_ l).
Definition set_notifs (ns : list string) (b : bool) (l : Listener) : Listener :=
  mkListener (alive l) (session l) (channels l) (confirmed l) (pending l) (unpending l)
    (closed l) (l_done l) (interruptPending l) ns b (outcomes l) (issued l) (nudges l)
    (at_ l).
Definition set_callers (os : gmap nat bool) (i n : nat) (l : Listener) : Listener :=
  mkListener (alive l) (session l) (channels l) (confirmed l) (pending l) (unpending l)
    (closed l) (l_done l) (interruptPending l) (notifs l) (notifBlocked l) os i n (at_
    l).
Definition goto (p : position) (l : Listener) : Listener :=
  mkListener (alive l) (session l) (channels l) (confirmed l) (pending l) (unpending l)
    (closed l) (l_done l) (interruptPending l) (notifs l) (notifBlocked l) (outcomes l)
    (issued l) (nudges l) p.

Definition initial : Listener :=
  mkListener true ∅ ∅ ∅ [] [] false false false [] false ∅ 0 0 RTop.

(** ** The callers *)

Definition errListenerClosed : string := "pglisten: listener is closed".
Definition errChannelContainsNUL : string := "pglisten: channel name contains a NUL byte".

(** How far a call got: it returned, or it waits for the outcome [id]. *)
Inductive call :=
| Returned (err : option string)
| Waiting (id : nat).

(** [Listen] up to its [select], without the nudge. *)
Definition Listen (channel : string) (l : Listener) : call * Listener :=
  if contains_nul channel then (Returned (Some errChannelContainsNUL), l)
  else if closed l then (Returned (Some errListenerClosed), l)
  else if bool_decide (channel ∈ confirmed l) then (Returned None, l)
  else
    let id := issued l in
    (Waiting id,
     set_callers (outcomes l) (S id) (S (nudges l))
       (set_queues (pending l ++ [mkListenReq channel (Some id)]) (unpending l)
         (set_channels ({[channel]} ∪ channels l) (confirmed l) l))).

(** The [select] of [Listen]: the cases that are ready when it looks. *)
Definition Listen_ready (ctx_done : bool) (id : nat) (l : Listener) (r : bool) : Prop :=
  outcomes l !! id = Some r \/ (ctx_done = true /\ r = false) \/ (l_done l = true /\ r = false).

(** [Unlisten] without the nudge. *)
Definition Unlisten (channel : string) (l : Listener) : call * Listener :=
  if contains_nul channel then (Returned (Some errChannelContainsNUL), l)
  else if closed l then (Returned (Some errListenerClosed), l)
  else if negb (bool_decide (channel ∈ channels l)) then (Returned None, l)
  else
    (Returned None,
     set_callers (outcomes l) (issued l) (S (nudges l))
       (set_queues (pending l) (unpending l ++ [channel])
         (set_channels (channels l ∖ {[channel]}) (confirmed l ∖ {[channel]}) l))).

Definition requestInterrupt (l : Listener) : Listener :=
  let l := set_interrupt true l in
  match at_ l with
  | RWait _ => goto (RWait true) l
  | _ => l
  end.

(** The two steps of [Close], which runs once, before its nudge. *)
Definition Close_mark (l : Listener) : Listener := set_closed true (l_done l) l.
Definition Close_done (l : Listener) : Listener :=
  set_callers (outcomes l) (issued l) (S (nudges l)) (set_closed (closed l) true l).

(** ** The run goroutine *)

(** [req.signal(err)] *)
Definition signal (req : listenReq) (ok : bool) (l : Listener) : Listener :=
  match lr_done req with
  | None => l
  | Some id => set_callers (<[id := ok]> (outcomes l)) (issued l) (nudges l) l
  end.

Definition markConfirmed (channel : string) (l : Listener) : Listener :=
  set_channels (channels l) ({[channel]} ∪ confirmed l) l.
Definition requeue (reqs : list listenReq) (l : Listener) : Listener :=
  set_queues (reqs ++ pending l) (unpending l) l.

(** [l.conn = nil] and closing the connection ends the session. *)
Definition closeConn (l : Listener) : Listener := set_server false ∅ l.

(** The deferred calls of [run]. *)
Definition exit_run (l : Listener) : Listener := goto RExit (closeConn l).

(** The callers waiting for [ch], in the order of the queue. *)
Definition waiters_for (ch : string) (reqs : list listenReq) : list nat :=
  omap (fun r => if bool_decide (lr_channel r = ch) then lr_done r else None) reqs.

(** The requests for one channel of the active set. *)
Definition relisten (reqs : list listenReq) (ch : string) : list listenReq :=
  match waiters_for ch reqs with
  | [] => [mkListenReq ch None]
  | ids => (fun id => mkListenReq ch (Some id)) <$> ids
  end.

(** The waiters of channels no longer in the active set. *)
Definition leftovers (active : gset string) (reqs : list listenReq) : list nat :=
  omap (fun r => if bool_decide (lr_channel r ∈ active) then None else lr_done r) reqs.

(** The order of the map iteration is the server's business: one order is chosen. *)
Definition rebuildPendingForReconnect (l : Listener) : Listener :=
  let reqs := pending l in
  let l := set_queues (concat (relisten reqs <$> elements (channels l))) (unpending l) l in
  set_callers (foldr (fun id m => <[id := true]> m) (outcomes l) (leftovers (channels l) reqs))
    (issued l) (nudges l) l.

(** The critical section of [reconnect] after a successful connect. *)
Definition reconnected (l : Listener) : Listener :=
  rebuildPendingForReconnect
    (set_queues (pending l) [] (set_channels (channels l) ∅ (set_server true ∅ l))).

(** What the environment answers to a step of [run]: the statement, ping or connect
    succeeded (or the timer fired, or a slot of the buffer was taken), it failed (or
    the [done] case of a select was taken), or the wait returned. *)
Inductive answer :=
| AOk
| AFail
| AWoken (r : woken).

(** The loop head of [run].  [None], here and below: the environment cannot give that
    answer there. *)
Definition run_head (a : answer) (l : Listener) : option Listener :=
  match at_ l, a with
  | RTop, AOk =>
      if l_done l then Some (exit_run l)
      else Some (goto (RDrain (pending l) (unpending l)) (set_queues [] [] l))
  | _, _ => None
  end.

(** The two loops of [drainPending] over what it took off the queues. *)
Definition drainPending (a : answer) (l : Listener) : option Listener :=
  match at_ l, a with
  | RDrain (req :: reqs) uns, AOk =>
      if alive l then
        Some (goto (RMark req reqs uns) (set_server true ({[lr_channel req]} ∪ session l) l))
      else None
  | RDrain (req :: reqs) uns, AFail => Some (goto (RFail req reqs) l)
  | RMark req reqs uns, AOk => Some (goto (RSignal req reqs uns) (markConfirmed (lr_channel req) l))
  | RSignal req reqs uns, AOk => Some (goto (RDrain reqs uns) (signal req true l))
  | RFail req reqs, AOk => Some (goto RReconnect (requeue reqs (signal req false l)))
  | RDrain [] (u :: uns), AOk =>
      if alive l then Some (goto (RDrain [] uns) (set_server true (session l ∖ {[u]}) l)) else None
  | RDrain [] (u :: uns), AFail => Some (goto (RDrain [] uns) l)
  | RDrain [] [], AOk => Some (goto RReceive l)
  | _, _ => None
  end.

Definition receiveOne (a : answer) (l : Listener) : option Listener :=
  match at_ l, a with
  | RReceive, AOk =>
      if interruptPending l then Some (goto RTop (set_interrupt false l))
      else Some (goto (RWait false) l)
  | RWait c, AWoken r =>
      let ok := match r with
                | WNotification ch => alive l && bool_decide (ch ∈ session l)
                | WCanceled => c
                | WDeadline | WConnErr => true
                end in
      if ok then Some (goto (RWoken r (interruptPending l)) l) else None
  | RWoken r interrupted, AOk =>
      if l_done l then Some (exit_run l)
      else match r with
           | WNotification ch => Some (goto (RDeliver ch) l)
           | _ =>
               if interrupted then Some (goto RTop l)
               else match waitCtx_Err r with
                    | Some Canceled => Some (goto RTop l)
                    | Some DeadlineExceeded => Some (goto RProbe l)
                    | None => Some (goto RReconnect l)
                    end
           end
  | _, _ => None
  end.

Definition keepaliveProbe (a : answer) (l : Listener) : option Listener :=
  match at_ l, a with
  | RProbe, AOk => if alive l then Some (goto RTop l) else None
  | RProbe, AFail => Some (goto RReconnect l)
  | _, _ => None
  end.

Definition deliverNotification (a : answer) (l : Listener) : option Listener :=
  match at_ l, a with
  | RDeliver ch, AOk =>
      if (length (notifs l) <? notifyBuffer)%nat
      then Some (goto RTop (set_notifs (notifs l ++ [ch]) false l))
      else Some (goto (RBlocked ch) (set_notifs (notifs l) true l))
  | RBlocked ch, AOk =>
      if (length (notifs l) <? notifyBuffer)%nat
      then Some (goto RTop (set_notifs (notifs l ++ [ch]) (notifBlocked l) l)) else None
  | RBlocked ch, AFail => if l_done l then Some (exit_run l) else None
  | _, _ => None
  end.

Definition reconnect (a : answer) (l : Listener) : option Listener :=
  match at_ l, a with
  | RReconnect, AOk => Some (goto (RConnect 0) (closeConn l))
  | RConnect n, AOk =>
      if l_done l then Some (exit_run l) else Some (goto (RConnecting n) l)
  | RConnecting n, AOk => Some (goto RTop (reconnected l))
  | RConnecting n, AFail => Some (goto (RBackoff n) l)
  | RBackoff n, AOk => Some (goto (RConnect (S n)) l)
  | RBackoff n, AFail => if l_done l then Some (exit_run l) else None
  | _, _ => None
  end.

(** [run], one step. *)
Definition run_step (a : answer) (l : Listener) : option Listener :=
  match at_ l with
  | RTop => run_head a l
  | RDrain _ _ | RMark _ _ _ | RSignal _ _ _ | RFail _ _ => drainPending a l
  | RReceive | RWait _ | RWoken _ _ => receiveOne a l
  | RProbe => keepaliveProbe a l
  | RDeliver _ | RBlocked _ => deliverNotification a l
  | RReconnect | RConnect _ | RConnecting _ | RBackoff _ => reconnect a l
  | RExit => None
  end.

(** ** The system *)

Inductive event :=
| EListen (ch : string)
| EUnlisten (ch : string)
| ENudge                  (* a caller runs [requestInterrupt] *)
| ECloseMark
| ECloseDone
| EConnLost               (* the connection dies; nobody has noticed yet *)
| ERead                   (* the consumer takes a notification *)
| ERun (a : answer).

Definition step (e : event) (l : Listener) : option Listener :=
  match e with
  | EListen ch => Some (Listen ch l).2
  | EUnlisten ch => Some (Unlisten ch l).2
  | ENudge =>
      match nudges l with
      | O => None
      | S n => Some (requestInterrupt (set_callers (outcomes l) (issued l) n l))
      end
  | ECloseMark => if closed l then None else Some (Close_mark l)
  | ECloseDone => if closed l && negb (l_done l) then Some (Close_done l) else None
  | EConnLost => Some (set_server false ∅ l)
  | ERead => match notifs l with
             | [] => None
             | _ :: ns => Some (set_notifs ns (notifBlocked l) l)
             end
  | ERun a => run_step a l
  end.

Fixpoint steps (es : list event) (l : Listener) : option Listener :=
  match es with
  | [] => Some l
  | e :: es => step e l ≫= steps es
  end.

Definition reachable (l : Listener) : Prop := exists es, steps es initial = Some l.

(** ** Invariants *)

Ltac unfold_run :=
  unfold run_step, run_head, drainPending, receiveOne, keepaliveProbe, deliverNotification, reconnect in *.

Ltac run_cases :=
  repeat match goal with
  | H : context [match ?x with _ => _ end] |- _ =>
      lazymatch x with
      | context [match _ with _ => _ end] => fail
      | _ => destruct x eqn:?; try discriminate
      end
  end.

(** An invariant holds initially and across every step. *)
Lemma always (I : Listener -> Prop) :
  I initial -> (forall e l l', I l -> step e l = Some l' -> I l') -> forall l, reachable l -> I l.
Proof.
  intros H0 Hs l [es Hes]. revert H0 Hes. generalize initial. induction es as [|e es IH]; intros l0 H0 Hes.
  { by injection Hes as <-. }
  cbn in Hes. destruct (step e l0) as [l1|] eqn:E; [|done]. by eapply (IH l1); [eapply Hs|].
Qed.

(** Nothing is queued and the listener is open. *)
Definition quiet (l : Listener) : Prop :=
  pending l = [] /\ unpending l = [] /\ l_done l = false.

(** Where the loop will not look at the queues again before it waits, new work has
    left a nudge behind. *)
Definition nudged (l : Listener) : Prop :=
  match at_ l with
  | RDrain _ _ | RMark _ _ _ | RSignal _ _ _ | RReceive =>
      quiet l \/ interruptPending l = true \/ (0 < nudges l)%nat
  | RWait false => quiet l \/ (0 < nudges l)%nat
  | RExit => l_done l = true
  | _ => True
  end.

Lemma nudged_run a l l' : nudged l -> run_step a l = Some l' -> nudged l'.
Proof.
  unfold nudged, quiet. intros Hn Hs. unfold_run.
  destruct (at_ l) as [|[|req reqs] [|u uns]|req reqs uns|req reqs uns|req reqs| |c|r i| |ch|ch| |n|n|n|] eqn:Ep;
    destruct a as [| |r']; try discriminate; run_cases; injection Hs as <-; cbn; try done;
    try (unfold signal; destruct (lr_done req); cbn); try tauto.
  all: try (destruct (interruptPending l); naive_solver).
Qed.

(** What a caller or the environment does to the state [run] works on. *)
Lemma nudged_step e l l' : nudged l -> step e l = Some l' -> nudged l'.
Proof.
  destruct e as [ch|ch| | | | | |a]; intros Hn Hs; [..|by eapply nudged_run];
    cbn [step] in Hs; unfold Listen, Unlisten in Hs; run_cases; injection Hs as <-;
    unfold nudged, quiet, requestInterrupt in *; cbn in *; try done;
    destruct (at_ l) as [| | | | | |[]| | | | | | | | |] eqn:Ep; cbn in *; rewrite ?Ep; auto with lia.
Qed.

Lemma reachable_nudged l : reachable l -> nudged l.
Proof. apply always; [done|]. intros e l1 l2. apply nudged_step. Qed.

(** *** Waiting callers *)

Definition ids (reqs : list listenReq) : list nat := omap lr_done reqs.

(** The requests [run] has taken off the queue and not settled. *)
Definition local_reqs (l : Listener) : list listenReq :=
  match at_ l with
  | RDrain reqs _ => reqs
  | RMark req reqs _ | RSignal req reqs _ | RFail req reqs => req :: reqs
  | _ => []
  end.

Definition queued (l : Listener) : list nat := ids (local_reqs l) ++ ids (pending l).
Definition told (m : gmap nat bool) : list nat := (map_to_list m).*1.

(** Every caller that queued a request is in exactly one place. *)
Definition accounted (l : Listener) : Prop :=
  queued l ++ told (outcomes l) ≡ₚ seq 0 (issued l).

Lemma ids_app r1 r2 : ids (r1 ++ r2) = ids r1 ++ ids r2.
Proof. apply omap_app. Qed.

Lemma told_insert m id b : m !! id = None -> told (<[id := b]> m) ≡ₚ id :: told m.
Proof. intros Hn. unfold told. by rewrite map_to_list_insert. Qed.

Lemma told_elem m id : id ∈ told m <-> is_Some (m !! id).
Proof.
  unfold told. rewrite list_elem_of_fmap. split.
  - intros ([i b] & -> & Hi%elem_of_map_to_list). by exists b.
  - intros [b Hb]. exists (id, b). by rewrite elem_of_map_to_list.
Qed.

Lemma accounted_NoDup l : accounted l -> NoDup (queued l ++ told (outcomes l)).
Proof. unfold accounted. intros ->. apply NoDup_seq. Qed.

(** Settling the first queued request. *)
Lemma signal_accounts req ok rest m os :
  NoDup (ids (req :: rest) ++ told m) ->
  os = match lr_done req with None => m | Some id => <[id := ok]> m end ->
  ids rest ++ told os ≡ₚ ids (req :: rest) ++ told m.
Proof.
  intros Hnd ->. unfold ids in *. cbn in *. destruct (lr_done req) as [id|]; [|done]. cbn in Hnd.
  rewrite told_insert; [by rewrite <-Permutation_middle|]. apply NoDup_cons in Hnd as [Hid _].
  apply eq_None_not_Some. intros Hs. apply Hid, elem_of_app. right. by apply told_elem.
Qed.

(** Rebuilding the queue keeps every waiter or answers it. *)
Lemma ids_relisten reqs ch : ids (relisten reqs ch) = waiters_for ch reqs.
Proof.
  unfold relisten. destruct (waiters_for ch reqs) as [|i js] eqn:E; [done|]. unfold ids.
  rewrite <-E. clear E. induction (waiters_for ch reqs) as [|x xs IH]; [done|]. cbn. by rewrite IH.
Qed.

Lemma waiters_for_cons_in r reqs (chs : list string) d :
  NoDup chs -> lr_channel r ∈ chs -> lr_done r = Some d ->
  concat ((fun ch => waiters_for ch (r :: reqs)) <$> chs) ≡ₚ
    d :: concat ((fun ch => waiters_for ch reqs) <$> chs).
Proof.
  intros Hnd Hin Hd. induction chs as [|c chs IH]; [by apply elem_of_nil in Hin|].
  apply NoDup_cons in Hnd as [Hc Hnd]. cbn [fmap list_fmap concat]. unfold waiters_for at 1. cbn [omap list_omap].
  destruct (bool_decide (lr_channel r = c)) eqn:E.
  - apply bool_decide_eq_true in E as <-. rewrite Hd. cbn. constructor. apply reflexive_eq. f_equal. f_equal.
    apply list_fmap_ext. intros i c' Hi. unfold waiters_for. cbn.
    rewrite bool_decide_false; [done|]. intros <-. apply Hc. by eapply list_elem_of_lookup_2.
  - apply bool_decide_eq_false in E. rewrite IH; [by rewrite <-Permutation_middle|done|].
    by apply elem_of_cons in Hin as [|].
Qed.

Lemma waiters_for_cons_out r reqs (chs : list string) :
  lr_channel r ∉ chs \/ lr_done r = None ->
  concat ((fun ch => waiters_for ch (r :: reqs)) <$> chs) = concat ((fun ch => waiters_for ch reqs) <$> chs).
Proof.
  intros Hr. f_equal. apply list_fmap_ext. intros i c Hi. unfold waiters_for. cbn.
  destruct Hr as [Hr| ->]; [|by case_bool_decide]. rewrite bool_decide_false; [done|]. intros <-. apply Hr.
  by eapply list_elem_of_lookup_2.
Qed.

Lemma rebuild_waiters (active : gset string) reqs :
  concat ((fun ch => waiters_for ch reqs) <$> elements active) ++ leftovers active reqs ≡ₚ ids reqs.
Proof.
  induction reqs as [|r reqs IH].
  { cbn. rewrite app_nil_r. induction (elements active); done. }
  unfold ids, leftovers in *. cbn [omap list_omap]. destruct (lr_done r) as [d|] eqn:Hd.
  2: { rewrite waiters_for_cons_out by by right. rewrite <-IH. by case_bool_decide. }
  destruct (bool_decide (lr_channel r ∈ active)) eqn:E.
  - apply bool_decide_eq_true in E.
    rewrite (waiters_for_cons_in r reqs (elements active) d); [|apply NoDup_elements|by apply elem_of_elements|done].
    cbn. by rewrite IH.
  - apply bool_decide_eq_false in E. rewrite waiters_for_cons_out by (left; by rewrite elem_of_elements).
    by rewrite <-Permutation_middle, IH.
Qed.

Lemma told_leftovers (ls : list nat) m :
  NoDup (ls ++ told m) -> told (foldr (fun id m => <[id := true]> m) m ls) ≡ₚ ls ++ told m.
Proof.
  induction ls as [|i ls IH]; [done|]. cbn. intros [Hi Hnd]%NoDup_cons. specialize (IH Hnd).
  rewrite told_insert; [by rewrite IH|]. apply eq_None_not_Some. rewrite <-told_elem. by rewrite IH.
Qed.

Lemma signal_outcomes req ok l :
  outcomes (signal req ok l) =
    match lr_done req with None => outcomes l | Some id => <[id := ok]> (outcomes l) end.
Proof. unfold signal. by destruct (lr_done req). Qed.

Lemma signal_frame req ok l :
  pending (signal req ok l) = pending l /\ issued (signal req ok l) = issued l.
Proof. unfold signal. by destruct (lr_done req). Qed.

(** [run] settles its first request and keeps the others in line. *)
Lemma accounted_settle req reqs ok l l' :
  accounted l -> local_reqs l = req :: reqs -> outcomes l' = outcomes (signal req ok l) ->
  issued l' = issued l -> queued l' = ids (reqs ++ pending l) -> accounted l'.
Proof.
  intros Ha Hl Ho Hi Hq. pose proof (accounted_NoDup l Ha) as Hnd. unfold accounted, queued in *.
  rewrite Hl, <-ids_app in Hnd. rewrite Hl, <-ids_app in Ha. cbn [app] in *.
  rewrite Hi, <-Ha, Ho, signal_outcomes. unfold queued in Hq. rewrite Hq.
  by apply (signal_accounts req ok).
Qed.

Lemma accounted_reconnected l l' :
  accounted l -> local_reqs l = [] -> l' = goto RTop (reconnected l) -> accounted l'.
Proof.
  intros Ha Hl ->. pose proof (accounted_NoDup l Ha) as Hnd. unfold accounted, queued in *.
  rewrite Hl in *. change (ids [] ++ ids (pending l)) with (ids (pending l)) in *.
  change (ids (concat (relisten (pending l) <$> elements (channels l))) ++
    told (foldr (fun id m => <[id := true]> m) (outcomes l) (leftovers (channels l) (pending l))) ≡ₚ
    seq 0 (issued l)).
  rewrite <-Ha. pose proof (rebuild_waiters (channels l) (pending l)) as Hr.
  assert (ids (concat (relisten (pending l) <$> elements (channels l))) =
    concat ((fun ch => waiters_for ch (pending l)) <$> elements (channels l))) as ->.
  { clear Hr. induction (elements (channels l)) as [|c cs IH]; [done|]. rewrite !fmap_cons. cbn [concat].
    by rewrite ids_app, ids_relisten, IH. }
  rewrite told_leftovers; [by rewrite (assoc_L (++)), Hr|].
  assert (NoDup (concat ((fun ch => waiters_for ch (pending l)) <$> elements (channels l)) ++
    leftovers (channels l) (pending l) ++ told (outcomes l))) as (_ & _ & ?)%NoDup_app; [|done].
  by rewrite (assoc_L (++)), Hr.
Qed.

(** Nothing about the callers changes. *)
Lemma accounted_same l l' :
  accounted l -> queued l' ≡ₚ queued l -> outcomes l' = outcomes l -> issued l' = issued l -> accounted l'.
Proof. unfold accounted. intros Ha Hq -> ->. by rewrite Hq. Qed.

Lemma accounted_run a l l' : accounted l -> run_step a l = Some l' -> accounted l'.
Proof.
  intros Ha Hs. unfold_run.
  destruct (at_ l) as [|[|req reqs] [|u uns]|req reqs uns|req reqs uns|req reqs| |c|r i| |ch|ch| |n|n|n|] eqn:Ep;
    destruct a as [| |r']; try discriminate; run_cases; injection Hs as <-;
    try (eapply accounted_same; [exact Ha|unfold queued, local_reqs; cbn; by rewrite Ep|done..]).
  - eapply accounted_same; [exact Ha| |done..]. unfold queued, local_reqs. cbn. rewrite Ep. cbn.
    by rewrite app_nil_r.
  - eapply (accounted_settle req reqs true l); [done|unfold local_reqs; by rewrite Ep|done|apply signal_frame|].
    unfold queued, local_reqs. cbn. destruct (signal_frame req true l) as [-> _]. by rewrite ids_app.
  - eapply (accounted_settle req reqs false l); [done|unfold local_reqs; by rewrite Ep|done|apply signal_frame|].
    unfold queued, local_reqs. cbn. destruct (signal_frame req false l) as [-> _]. done.
  - eapply accounted_reconnected; [done|unfold local_reqs; by rewrite Ep|done].
Qed.

Lemma accounted_step e l l' : accounted l -> step e l = Some l' -> accounted l'.
Proof.
  destruct e as [ch|ch| | | | | |a]; intros Ha Hs; [..|by eapply accounted_run];
    cbn [step] in Hs; unfold Listen, Unlisten, requestInterrupt in Hs; run_cases; injection Hs as <-;
    try done; try (eapply accounted_same; [exact Ha| |done..]; unfold queued, local_reqs; done).
  - unfold accounted, queued, local_reqs in *. cbn [set_callers set_queues set_channels at_ pending outcomes issued].
    rewrite ids_app, seq_S, <-Ha. cbn [ids omap list_omap lr_done]. solve_Permutation.
  - eapply accounted_same; [exact Ha| |done..]. unfold queued, local_reqs. cbn.
    by match goal with H : at_ _ = RWait _ |- _ => cbn in H; rewrite H end.
Qed.

Lemma reachable_accounted l : reachable l -> accounted l.
Proof.
  apply always; [|intros e l1 l2; apply accounted_step].
  unfold accounted, told. cbn. by rewrite map_to_list_empty.
Qed.

(** *** Confirmed subscriptions *)

(** Until a channel is unlistened, what is confirmed on a living connection is
    subscribed there. *)
Definition subscribed (l : Listener) : Prop :=
  unpending l = [] /\ (alive l = true -> confirmed l ⊆ session l) /\
  match at_ l with
  | RDrain _ uns => uns = []
  | RMark req _ uns => uns = [] /\ (alive l = true -> lr_channel req ∈ session l)
  | RSignal req _ uns => uns = [] /\ lr_channel req ∈ confirmed l
  | _ => True
  end.

Lemma subscribed_run a l l' : subscribed l -> run_step a l = Some l' -> subscribed l'.
Proof.
  unfold subscribed. intros (Hu & Hc & Hp) Hs. unfold_run.
  destruct (at_ l) as [|[|req reqs] [|u uns]|req reqs uns|req reqs uns|req reqs| |c|r i| |ch|ch| |n|n|n|] eqn:Ep;
    destruct a as [| |r']; try discriminate; run_cases; injection Hs as <-; cbn; rewrite ?Hu;
    try (unfold signal; destruct (lr_done req); cbn); (split; [done|]; split; [|first [done|tauto|idtac]]).
  all: try set_solver.
Qed.

Definition is_unlisten (e : event) : bool := match e with EUnlisten _ => true | _ => false end.

Lemma subscribed_step e l l' :
  subscribed l -> is_unlisten e = false -> step e l = Some l' -> subscribed l'.
Proof.
  destruct e as [ch|ch| | | | | |a]; intros Hl He Hs; try done; [..|by eapply subscribed_run];
    cbn [step] in Hs; unfold Listen, requestInterrupt in Hs; run_cases; injection Hs as <-;
    unfold subscribed in *; cbn in *; try done; destruct Hl as (? & ? & ?);
    (split; [done|]; split; [set_solver|]); destruct (at_ l); naive_solver.
Qed.

Lemma subscribed_steps es l :
  Forall (fun e => is_unlisten e = false) es -> steps es initial = Some l -> subscribed l.
Proof.
  assert (subscribed initial) as H0 by by split_and!. revert H0. generalize initial.
  induction es as [|e es IH]; intros l0 H0 Hall Hes; [by injection Hes as <-|].
  apply Forall_cons in Hall as [He Hall]. cbn in Hes. destruct (step e l0) as [l1|] eqn:E; [|done].
  by eapply (IH l1); [eapply subscribed_step|..].
Qed.

(** *** Shutdown *)

(** How many steps [run] can still take once [done] is closed. *)
Definition rank (p : position) : nat :=
  match p with
  | RExit => 0
  | RTop | RConnect _ | RWoken _ _ => 1
  | RWait _ | RBlocked _ | RBackoff _ | RReconnect => 2
  | RReceive | RDeliver _ | RConnecting _ | RProbe | RFail _ _ => 3
  | RDrain reqs uns => 4 + 3 * length reqs + length uns
  | RMark _ reqs uns => 6 + 3 * length reqs + length uns
  | RSignal _ reqs uns => 5 + 3 * length reqs + length uns
  end.

Definition is_run (e : event) : bool := match e with ERun _ => true | _ => false end.

Lemma rank_run a l l' :
  l_done l = true -> run_step a l = Some l' -> l_done l' = true /\ (rank (at_ l') < rank (at_ l))%nat.
Proof.
  intros Hd Hs. unfold_run. rewrite Hd in Hs.
  destruct (at_ l) as [|[|req reqs] [|u uns]|req reqs uns|req reqs uns|req reqs| |c|r i| |ch|ch| |n|n|n|] eqn:Ep;
    destruct a as [| |r']; try discriminate; run_cases; injection Hs as <-; cbn;
    try (unfold signal; destruct (lr_done req); cbn); (split; [done|lia]).
Qed.

Lemma rank_step e l l' :
  l_done l = true -> step e l = Some l' ->
  l_done l' = true /\ (rank (at_ l') + (if is_run e then 1 else 0) <= rank (at_ l))%nat.
Proof.
  destruct e as [ch|ch| | | | | |a]; intros Hd Hs.
  8: { cbn. destruct (rank_run a l l' Hd Hs). split; [done|lia]. }
  all: cbn [step] in Hs; unfold Listen, Unlisten, requestInterrupt in Hs; run_cases; injection Hs as <-; cbn in *;
    (split; [done|]); try (match goal with H : at_ _ = RWait _ |- _ => cbn in H; rewrite H; cbn end); lia.
Qed.

Lemma rank_steps es : forall l l',
  l_done l = true -> steps es l = Some l' ->
  l_done l' = true /\ (rank (at_ l') + length (filter (fun e => is_run e = true) es) <= rank (at_ l))%nat.
Proof.
  induction es as [|e es IH]; intros l l' Hd Hs; cbn in Hs.
  { injection Hs as <-. cbn. split; [done|lia]. }
  destruct (step e l) as [l1|] eqn:E; [|done]. destruct (rank_step e l l1 Hd E) as [Hd1 Hr].
  destruct (IH l1 l' Hd1 Hs) as [Hd' Hr']. split; [done|]. rewrite filter_cons.
  destruct (is_run e); case_decide; cbn in *; try done; lia.
Qed.

(** Short of its end, [run] has a step that does not depend on a caller. *)
Lemma run_progress l :
  l_done l = true -> at_ l <> RExit -> exists a l', run_step a l = Some l'.
Proof.
  intros Hd Hne. unfold_run. rewrite Hd.
  destruct (at_ l) as [|[|req reqs] [|u uns]|req reqs uns|req reqs uns|req reqs| |c|r i| |ch|ch| |n|n|n|]; try done;
    try (by exists AFail; eexists); try (by exists AOk; eexists); try (by exists (AWoken WDeadline); eexists).
  - exists AOk. destruct (interruptPending l); by eexists.
  - exists AOk. case_match; by eexists.
Qed.

(** *** Draining after a reconnect *)

Lemma steps_app es es' l : steps (es ++ es') l = steps es l ≫= steps es'.
Proof. revert l. induction es as [|e es IH]; intros l; [done|]. cbn. destruct (step e l); cbn; auto. Qed.

(** The statements of a queue that is not disturbed. *)
Lemma drain_all reqs : forall l, at_ l = RDrain reqs [] -> alive l = true ->
  exists l', steps (replicate (3 * length reqs) (ERun AOk)) l = Some l' /\ at_ l' = RDrain [] [] /\
    alive l' = true /\ channels l' = channels l /\
    (forall ch, ch ∈ session l' <-> ch ∈ session l \/ ch ∈ lr_channel <$> reqs) /\
    (forall ch, ch ∈ confirmed l' <-> ch ∈ confirmed l \/ ch ∈ lr_channel <$> reqs) /\
    (forall id, outcomes l' !! id = if bool_decide (id ∈ ids reqs) then Some true else outcomes l !! id).
Proof.
  induction reqs as [|req reqs IH]; intros l Hat Hal.
  { exists l. cbn. split_and!; try done; set_solver. }
  replace (3 * length (req :: reqs))%nat with (3 + 3 * length reqs)%nat by (cbn; lia).
  rewrite replicate_add, steps_app.
  set (l1 := goto (RDrain reqs []) (signal req true (goto (RSignal req reqs [])
    (markConfirmed (lr_channel req) (goto (RMark req reqs [])
      (set_server true ({[lr_channel req]} ∪ session l) l)))))).
  assert (steps (replicate 3 (ERun AOk)) l = Some l1) as ->.
  { cbn [steps replicate]. change (step (ERun AOk) l) with (run_step AOk l).
    assert (run_step AOk l = Some (goto (RMark req reqs [])
      (set_server true ({[lr_channel req]} ∪ session l) l))) as -> by (unfold_run; by rewrite Hat, Hal).
    reflexivity. }
  assert (alive l1 = true /\ channels l1 = channels l /\ session l1 = {[lr_channel req]} ∪ session l /\
    confirmed l1 = {[lr_channel req]} ∪ confirmed l /\
    outcomes l1 = match lr_done req with None => outcomes l | Some id => <[id := true]> (outcomes l) end)
    as (Hal1 & Hch1 & Hse1 & Hco1 & Hou1).
  { subst l1. cbn. unfold signal. by destruct (lr_done req). }
  destruct (IH l1 eq_refl Hal1) as (l' & Hs & Hat' & Hal' & Hch & Hse & Hco & Hou).
  exists l'. split; [exact Hs|]. split; [done|]. split; [done|]. split; [congruence|].
  rewrite fmap_cons. split; [|split].
  - intros ch. rewrite Hse, Hse1. set_solver.
  - intros ch. rewrite Hco, Hco1. set_solver.
  - intros id. rewrite Hou, Hou1. unfold ids. cbn. destruct (lr_done req) as [d|]; [|done].
    destruct (decide (id = d)) as [->|].
    + rewrite lookup_insert_eq. rewrite (bool_decide_true (d ∈ d :: _)) by left. by case_bool_decide.
    + rewrite lookup_insert_ne by done. do 2 case_bool_decide; set_solver.
Qed.

(** *** Reading a quoted identifier *)

(** The server's lexer inside a quoted identifier: a doubled quote stands for one. *)
Fixpoint read_quoted (s : string) : option (string * string) :=
  match s with
  | EmptyString => None
  | String c s =>
      if Ascii.eqb c dquote then
        match s with
        | String c' s' =>
            if Ascii.eqb c' dquote then (fun p => (String c p.1, p.2)) <$> read_quoted s'
            else Some (EmptyString, s)
        | EmptyString => Some (EmptyString, EmptyString)
        end
      else (fun p => (String c p.1, p.2)) <$> read_quoted s
  end.
Definition read_ident (s : string) : option (string * string) :=
  match s with
  | String c s => if Ascii.eqb c dquote then read_quoted s else None
  | EmptyString => None
  end.

Lemma read_double_quotes ch rest :
  match rest with String c _ => c <> dquote | EmptyString => True end ->
  read_quoted (double_quotes ch +:+ String dquote rest) = Some (ch, rest).
Proof.
  intros Hr. induction ch as [|c ch IH]; cbn [double_quotes].
  - change (read_quoted (String dquote rest) = Some (EmptyString, rest)). cbn [read_quoted].
    change (Ascii.eqb dquote dquote) with true. cbn iota.
    destruct rest as [|c rest]; [done|]. cbn iota. by rewrite (proj2 (Ascii.eqb_neq _ _) Hr).
  - destruct (Ascii.eqb_spec c dquote) as [->|Hc].
    + change (read_quoted (String dquote (String dquote (double_quotes ch +:+ String dquote rest))) =
        Some (String dquote ch, rest)). cbn [read_quoted].
      change (Ascii.eqb dquote dquote) with true. cbn iota. by rewrite IH.
    + change (read_quoted (String c (double_quotes ch +:+ String dquote rest)) = Some (String c ch, rest)).
      cbn [read_quoted]. rewrite (proj2 (Ascii.eqb_neq _ _) Hc). by rewrite IH.
Qed.

Lemma string_app_assoc (s1 s2 s3 : string) : (s1 +:+ s2) +:+ s3 = s1 +:+ (s2 +:+ s3).
Proof.
  induction s1 as [|c s IH]; [done|].
  change (String c ((s +:+ s2) +:+ s3) = String c (s +:+ (s2 +:+ s3))). by rewrite IH.
Qed.

(** *** Requests of a reconnect *)

Lemma relisten_channels reqs ch c : c ∈ lr_channel <$> relisten reqs ch <-> c = ch.
Proof.
  unfold relisten. destruct (waiters_for ch reqs) as [|i js].
  - cbn. by rewrite list_elem_of_singleton.
  - rewrite <-list_fmap_compose, list_elem_of_fmap. split; [by intros (x & -> & _)|].
    intros ->. exists i. split; [done|left].
Qed.

Lemma rebuilt_channels reqs (chs : list string) c :
  c ∈ lr_channel <$> concat (relisten reqs <$> chs) <-> c ∈ chs.
Proof.
  induction chs as [|ch chs IH]; [done|]. rewrite fmap_cons. cbn [concat].
  rewrite fmap_app, elem_of_app, IH, relisten_channels, elem_of_cons. done.
Qed.

Lemma lookup_leftovers (ls : list nat) (m : gmap nat bool) id :
  foldr (fun i m => <[i := true]> m) m ls !! id = if bool_decide (id ∈ ls) then Some true else m !! id.
Proof.
  induction ls as [|i ls IH]; [by rewrite bool_decide_false by apply not_elem_of_nil|]. cbn.
  destruct (decide (id = i)) as [->|].
  - by rewrite lookup_insert_eq, bool_decide_true by left.
  - rewrite lookup_insert_ne, IH by done. do 2 case_bool_decide; set_solver.
Qed.

(** ** Properties *)

(** C29: the receive loop never sleeps on work: whenever it is in an uncanceled wait
    and no caller is about to nudge it, no LISTEN or UNLISTEN is queued and the
    listener has not been closed, in every interleaving of callers, shutdown,
    connection losses and the loop. *)
Theorem run_never_sleeps_on_work (l : Listener) :
  reachable l -> at_ l = RWait false -> nudges l = 0%nat ->
  pending l = [] /\ unpending l = [] /\ l_done l = false.
Proof.
  intros Hr Hat Hn. pose proof (reachable_nudged l Hr) as Hq. unfold nudged in Hq. rewrite Hat in Hq.
  destruct Hq as [Hq|Hq]; [exact Hq|lia].
Qed.

(** The events of a Listen that is served: queued, nudged, issued, confirmed. *)
Definition serve_listen (ch : string) : list event :=
  [EListen ch; ENudge; ERun (AWoken WCanceled)] ++ replicate 10 (ERun AOk).
Definition boot : list event := replicate 3 (ERun AOk).

Lemma run_never_sleeps_on_work_witness :
  exists l, steps (boot ++ serve_listen "jobs") initial = Some l /\ at_ l = RWait false /\ pending l = [].
Proof.
  destruct (steps (boot ++ serve_listen "jobs") initial) as [l|] eqn:E.
  - exists l. split; [reflexivity|].
    assert (at_ <$> steps (boot ++ serve_listen "jobs") initial = Some (RWait false)) as Hat
      by (vm_compute; reflexivity).
    assert (nudges <$> steps (boot ++ serve_listen "jobs") initial = Some 0%nat) as Hn by (vm_compute; reflexivity).
    rewrite E in Hat, Hn. injection Hat as Hat. injection Hn as Hn. split; [exact Hat|].
    apply (run_never_sleeps_on_work l); [by exists (boot ++ serve_listen "jobs")|exact Hat|exact Hn].
  - vm_compute in E. discriminate E.
Defined.

(** no caller of [Listen] is lost or answered twice: at every moment each caller
    that queued a request has been sent exactly one outcome, or its request is in the
    queue or in the loop's hands exactly once; a loop that has ended has closed [done],
    which releases the callers that are left. *)
Theorem listen_callers_accounted (l : Listener) (id : nat) :
  reachable l ->
  NoDup (queued l) /\
  ((id < issued l)%nat <-> id ∈ queued l \/ is_Some (outcomes l !! id)) /\
  ~ (id ∈ queued l /\ is_Some (outcomes l !! id)) /\
  (at_ l = RExit -> l_done l = true).
Proof.
  intros Hr. pose proof (reachable_accounted l Hr) as Ha. pose proof (accounted_NoDup l Ha) as Hnd.
  apply NoDup_app in Hnd as (Hq & Hd & _). split; [done|]. split; [|split].
  - rewrite <-told_elem, <-elem_of_app. unfold accounted in Ha. rewrite Ha, elem_of_seq. lia.
  - intros [H1 H2]. apply (Hd id H1). by apply told_elem.
  - intros Hat. pose proof (reachable_nudged l Hr) as Hn. unfold nudged in Hn. by rewrite Hat in Hn.
Qed.

Lemma listen_callers_accounted_witness :
  exists l, steps [EListen "jobs"; EListen "jobs"] initial = Some l /\ 1%nat ∈ queued l /\ NoDup (queued l).
Proof.
  eexists. split; [reflexivity|]. split; [vm_compute; right; left|].
  refine (proj1 (listen_callers_accounted _ 0 _)). by exists [EListen "jobs"; EListen "jobs"].
Defined.

(** C31: subscriptions survive a reconnect: once a connect succeeds and the server
    accepts the statements, the loop re-issues every LISTEN before it waits again; the
    new session then listens on exactly the active channels, all confirmed, and every
    caller that was waiting has been told that its LISTEN succeeded. *)
Theorem reconnect_restores (l : Listener) (n : nat) :
  at_ l = RConnecting n -> l_done l = false ->
  exists k l', steps (replicate k (ERun AOk)) l = Some l' /\ at_ l' = RReceive /\ alive l' = true /\
    session l' = channels l /\ confirmed l' = channels l /\ channels l' = channels l /\
    forall id, id ∈ ids (pending l) -> outcomes l' !! id = Some true.
Proof.
  intros Hat Hd. set (reqs := concat (relisten (pending l) <$> elements (channels l))).
  set (l1 := goto (RDrain reqs []) (set_queues [] [] (goto RTop (reconnected l)))).
  assert (steps (replicate 2 (ERun AOk)) l = Some l1) as H2.
  { cbn [steps replicate]. change (step (ERun AOk) l) with (run_step AOk l).
    assert (run_step AOk l = Some (goto RTop (reconnected l))) as -> by (unfold_run; by rewrite Hat).
    change (step (ERun AOk) (goto RTop (reconnected l))) with (run_step AOk (goto RTop (reconnected l))).
    unfold_run. cbn. by rewrite Hd. }
  destruct (drain_all reqs l1 eq_refl eq_refl) as (l2 & Hs & Hat2 & Hal & Hch & Hse & Hco & Hou).
  exists (2 + (3 * length reqs + 1))%nat, (goto RReceive l2).
  split.
  { rewrite replicate_add, steps_app, H2. cbn [mbind option_bind]. rewrite replicate_add, steps_app, Hs.
    cbn [mbind option_bind replicate steps step]. unfold_run. by rewrite Hat2. }
  assert (forall ch, ch ∈ lr_channel <$> reqs <-> ch ∈ channels l) as Hreqs.
  { intros ch. unfold reqs. by rewrite rebuilt_channels, elem_of_elements. }
  split; [done|]. split; [done|]. split; [|split; [|split; [done|]]].
  - apply set_eq. intros ch. cbn [session goto]. rewrite Hse, Hreqs. cbn. set_solver.
  - apply set_eq. intros ch. cbn [confirmed goto]. rewrite Hco, Hreqs. cbn. set_solver.
  - intros id Hid. cbn [outcomes goto]. rewrite Hou. case_bool_decide as Hq; [done|].
    change (outcomes l1) with (foldr (fun id m => <[id := true]> m) (outcomes l) (leftovers (channels l) (pending l))).
    rewrite lookup_leftovers, bool_decide_true; [done|].
    rewrite <-(rebuild_waiters (channels l)) in Hid. apply elem_of_app in Hid as [Hid|]; [|done].
    exfalso. apply Hq. revert Hid. unfold reqs. clear. induction (elements (channels l)) as [|c cs IH]; [done|].
    rewrite !fmap_cons. cbn [concat]. rewrite ids_app, ids_relisten, !elem_of_app. tauto.
Qed.

Lemma reconnect_restores_witness :
  exists k l l', steps [EListen "jobs"; ERun AOk; ERun AFail; ERun AOk; ERun AOk; ERun AOk] initial = Some l /\
    steps (replicate k (ERun AOk)) l = Some l' /\ session l' = {["jobs"%string]}.
Proof.
  destruct (steps [EListen "jobs"; ERun AOk; ERun AFail; ERun AOk; ERun AOk; ERun AOk] initial) as [l|] eqn:E.
  2: { vm_compute in E. discriminate E. }
  assert (l = default initial (steps [EListen "jobs"; ERun AOk; ERun AFail; ERun AOk; ERun AOk; ERun AOk] initial))
    as Hl by by rewrite E.
  destruct (reconnect_restores l 0) as (k & l' & Hs & _ & _ & Hse & _).
  - by rewrite Hl.
  - by rewrite Hl.
  - exists k, l, l'. split; [reflexivity|]. split; [exact Hs|]. rewrite Hse, Hl. reflexivity.
Defined.

(** As long as no channel is unlistened, a nil from [Listen] means subscribed: on
    a living connection every confirmed channel is in the server's session, also in the
    instant the loop tells a caller so, whatever fails, reconnects or races. *)
Theorem listen_means_subscribed (es : list event) (l : Listener) :
  Forall (fun e => is_unlisten e = false) es -> steps es initial = Some l -> alive l = true ->
  (forall ch, (Listen ch l).1 = Returned None -> ch ∈ session l) /\
  (forall req reqs uns, at_ l = RSignal req reqs uns -> lr_channel req ∈ session l).
Proof.
  intros Hall Hes Hal. destruct (subscribed_steps es l Hall Hes) as (_ & Hc & Hp). specialize (Hc Hal). split.
  - intros ch. unfold Listen. destruct (contains_nul ch); [done|]. destruct (closed l); [done|].
    case_bool_decide; [|done]. intros _. by apply Hc.
  - intros req reqs uns Hat. rewrite Hat in Hp. apply Hc, Hp.
Qed.

Lemma listen_means_subscribed_witness :
  exists l, steps (boot ++ serve_listen "jobs") initial = Some l /\ ("jobs"%string) ∈ session l.
Proof.
  destruct (steps (boot ++ serve_listen "jobs") initial) as [l|] eqn:E.
  2: { vm_compute in E. discriminate E. }
  assert (l = default initial (steps (boot ++ serve_listen "jobs") initial)) as Hl by by rewrite E.
  exists l. split; [reflexivity|].
  apply (proj1 (listen_means_subscribed (boot ++ serve_listen "jobs") l ltac:(repeat constructor) E
    ltac:(by rewrite Hl))). by rewrite Hl.
Defined.

(** After [Close] the loop ends: however callers, connection losses and the loop
    interleave, it takes at most [rank] further steps, and until its end it always has
    one that needs no caller. *)
Theorem close_ends_the_loop (es : list event) (l l' : Listener) :
  l_done l = true -> steps es l = Some l' ->
  (length (filter (fun e => is_run e = true) es) <= rank (at_ l))%nat /\
  (at_ l' = RExit \/ exists a l'', run_step a l' = Some l'').
Proof.
  intros Hd Hs. destruct (rank_steps es l l' Hd Hs) as [Hd' Hr]. split; [lia|].
  destruct (at_ l') eqn:Hat; try (right; apply run_progress; [done|congruence]). by left.
Qed.

Lemma close_ends_the_loop_witness :
  exists l l', steps (boot ++ [EListen "jobs"; ECloseMark; ECloseDone; ENudge]) initial = Some l /\
    steps [ERun (AWoken WCanceled); ERun AOk] l = Some l' /\ at_ l' = RExit /\ (2 <= rank (at_ l))%nat.
Proof.
  destruct (steps (boot ++ [EListen "jobs"; ECloseMark; ECloseDone; ENudge]) initial) as [l|] eqn:E.
  2: { vm_compute in E. discriminate E. }
  assert (l = default initial (steps (boot ++ [EListen "jobs"; ECloseMark; ECloseDone; ENudge]) initial))
    as Hl by by rewrite E.
  destruct (steps [ERun (AWoken WCanceled); ERun AOk] l) as [l'|] eqn:E'.
  2: { rewrite Hl in E'. vm_compute in E'. discriminate E'. }
  exists l, l'. split; [reflexivity|]. split; [exact E'|]. split.
  - assert (at_ <$> steps [ERun (AWoken WCanceled); ERun AOk] l = Some RExit) as H
      by (rewrite Hl; vm_compute; reflexivity).
    rewrite E' in H. by injection H.
  - apply (close_ends_the_loop [ERun (AWoken WCanceled); ERun AOk] l l'); [by rewrite Hl|exact E'].
Defined.

(** A listener that waits with nothing queued. *)
Definition idle (al : bool) (s cs cf : gset string) (ns : list string) (nb : bool) (os : gmap nat bool)
    (i : nat) : Listener :=
  mkListener al s cs cf [] [] false false false ns nb os i 0 (RWait false).

Definition serve_unlisten (ch : string) : list event :=
  [EUnlisten ch; ENudge; ERun (AWoken WCanceled)] ++ replicate 8 (ERun AOk).

(** The critical sections of a call that has work to do. *)
Lemma Listen_queues ch l :
  contains_nul ch = false -> closed l = false -> ch ∉ confirmed l ->
  step (EListen ch) l = Some (set_callers (outcomes l) (S (issued l)) (S (nudges l))
    (set_queues (pending l ++ [mkListenReq ch (Some (issued l))]) (unpending l)
      (set_channels ({[ch]} ∪ channels l) (confirmed l) l))).
Proof. intros Hn Hc Hf. cbn [step]. unfold Listen. by rewrite Hn, Hc, bool_decide_false. Qed.

Lemma Unlisten_queues ch l :
  contains_nul ch = false -> closed l = false -> ch ∈ channels l ->
  step (EUnlisten ch) l = Some (set_callers (outcomes l) (issued l) (S (nudges l))
    (set_queues (pending l) (unpending l ++ [ch])
      (set_channels (channels l ∖ {[ch]}) (confirmed l ∖ {[ch]}) l))).
Proof. intros Hn Hc Hf. cbn [step]. unfold Unlisten. by rewrite Hn, Hc, bool_decide_true. Qed.

Lemma serve_listen_idle ch s cs cf ns nb os i :
  contains_nul ch = false -> ch ∉ cf ->
  steps (serve_listen ch) (idle true s cs cf ns nb os i) =
    Some (idle true ({[ch]} ∪ s) ({[ch]} ∪ cs) ({[ch]} ∪ cf) ns nb (<[i := true]> os) (S i)).
Proof. intros Hn Hc. unfold serve_listen. cbn [app steps]. by rewrite Listen_queues. Qed.

Lemma serve_unlisten_idle ch s cs cf ns nb os i :
  contains_nul ch = false -> ch ∈ cs ->
  steps (serve_unlisten ch) (idle true s cs cf ns nb os i) =
    Some (idle true (s ∖ {[ch]}) (cs ∖ {[ch]}) (cf ∖ {[ch]}) ns nb os i).
Proof. intros Hn Hc. unfold serve_unlisten. cbn [app steps]. by rewrite Unlisten_queues. Qed.

(** On a working connection [Listen] and then [Unlisten] of a new channel, each
    served by the loop, is a round trip: in between the server listens on the channel
    and the caller has been told so, afterwards the session and the listener's books are
    what they were. *)
Theorem listen_unlisten_roundtrip (ch : string) (s cs cf : gset string) (ns : list string) (nb : bool)
    (os : gmap nat bool) (i : nat) :
  contains_nul ch = false -> ch ∉ s -> ch ∉ cs -> ch ∉ cf ->
  exists l, steps (serve_listen ch) (idle true s cs cf ns nb os i) = Some l /\
    ch ∈ session l /\ (Listen ch l).1 = Returned None /\ outcomes l !! i = Some true /\
    steps (serve_unlisten ch) l = Some (idle true s cs cf ns nb (<[i := true]> os) (S i)).
Proof.
  intros Hn Hs Hcs Hcf. eexists. split; [by apply serve_listen_idle|]. split; [cbn; set_solver|]. split; [|split].
  - unfold Listen. rewrite Hn. cbn [closed idle confirmed]. by rewrite bool_decide_true by set_solver.
  - cbn. by rewrite lookup_insert_eq.
  - rewrite serve_unlisten_idle by set_solver. f_equal.
    assert (forall x : gset string, ch ∉ x -> ({[ch]} ∪ x) ∖ {[ch]} = x) as Hx by set_solver. by rewrite !Hx.
Qed.

Lemma listen_unlisten_roundtrip_witness :
  exists l, steps (serve_listen "jobs") (idle true ∅ ∅ ∅ [] false ∅ 0) = Some l /\
    ("jobs"%string) ∈ session l.
Proof.
  destruct (listen_unlisten_roundtrip "jobs" ∅ ∅ ∅ [] false ∅ 0) as (l & Hs & Hse & _);
    [reflexivity|set_solver..|]. by exists l.
Defined.

(** a channel that is unlistened and listened again before the loop drains its
    queues ends up confirmed but not subscribed: [drainPending] issues all LISTENs
    before all UNLISTENs, so the caller is told nil, later calls of [Listen] return nil
    at once, and the server delivers nothing for the channel. *)
Theorem relisten_before_drain_is_lost (ch : string) (s cs cf : gset string) (ns : list string) (nb : bool)
    (os : gmap nat bool) (i : nat) :
  contains_nul ch = false -> ch ∈ s -> ch ∈ cs -> ch ∈ cf ->
  exists l, steps ([EUnlisten ch; ENudge; EListen ch; ENudge; ERun (AWoken WCanceled)] ++ replicate 11 (ERun AOk))
      (idle true s cs cf ns nb os i) = Some l /\
    at_ l = RWait false /\ nudges l = 0%nat /\ pending l = [] /\ unpending l = [] /\
    outcomes l !! i = Some true /\ (Listen ch l).1 = Returned None /\ ch ∈ channels l /\ ch ∉ session l.
Proof.
  intros Hn Hs Hcs Hcf.
  exists (idle true (({[ch]} ∪ s) ∖ {[ch]}) ({[ch]} ∪ cs ∖ {[ch]}) ({[ch]} ∪ cf ∖ {[ch]}) ns nb
    (<[i := true]> os) (S i)).
  split; [|split; [done|split; [done|split; [done|split; [done|split; [|split; [|split]]]]]]].
  - set (l1 := mkListener true s (cs ∖ {[ch]}) (cf ∖ {[ch]}) [] [ch] false false true ns nb os i 0 (RWait true)).
    assert (steps [EUnlisten ch; ENudge] (idle true s cs cf ns nb os i) = Some l1) as H1
      by (cbn [steps]; by rewrite Unlisten_queues).
    change ([EUnlisten ch; ENudge; EListen ch; ENudge; ERun (AWoken WCanceled)] ++ replicate 11 (ERun AOk)) with
      ([EUnlisten ch; ENudge] ++ [EListen ch; ENudge; ERun (AWoken WCanceled)] ++ replicate 11 (ERun AOk)).
    rewrite steps_app, H1. cbn [mbind option_bind app steps]. rewrite Listen_queues; [reflexivity|done|done|].
    cbn. set_solver.
  - cbn. by rewrite lookup_insert_eq.
  - unfold Listen. rewrite Hn. cbn [closed idle confirmed]. by rewrite bool_decide_true by set_solver.
  - cbn. set_solver.
  - cbn. set_solver.
Qed.

Lemma relisten_before_drain_is_lost_witness :
  exists l, steps ([EUnlisten "jobs"; ENudge; EListen "jobs"; ENudge; ERun (AWoken WCanceled)] ++
      replicate 11 (ERun AOk)) (idle true {["jobs"%string]} {["jobs"%string]} {["jobs"%string]} [] false ∅ 1) = Some l /\
    (Listen "jobs" l).1 = Returned None /\ ("jobs"%string) ∉ session l.
Proof.
  destruct (relisten_before_drain_is_lost "jobs" {["jobs"%string]} {["jobs"%string]} {["jobs"%string]} [] false ∅ 1)
    as (l & Hs & _ & _ & _ & _ & _ & Hl & _ & Hse); [reflexivity|set_solver..|]. by exists l.
Defined.

(** One turn of the loop when the wait fails on a dead connection. *)
Definition failed_turn : list event := ERun (AWoken WConnErr) :: replicate 4 (ERun AOk).

(** an error of the wait itself never makes the loop reconnect: [receiveOne]
    cancels the wait's context before it looks at its error, which is then Canceled, so
    the loop goes around and waits on the dead connection again; with nothing queued
    any number of such turns leaves the listener where it was, without a backoff. *)
Theorem connection_error_spins (n : nat) (s cs cf : gset string) (ns : list string) (nb : bool)
    (os : gmap nat bool) (i : nat) :
  let l := idle false s cs cf ns nb os i in
  steps (concat (replicate n failed_turn)) l = Some l /\
  (forall k l', steps (take k failed_turn) l = Some l' -> at_ l' <> RReconnect /\ alive l' = false).
Proof.
  intros l. split.
  - induction n as [|n IH]; [done|]. cbn [replicate concat]. rewrite steps_app.
    assert (steps failed_turn l = Some l) as -> by reflexivity. exact IH.
  - intros k l' Hk. unfold failed_turn in Hk. cbn [replicate] in Hk.
    do 5 (destruct k as [|k]; [cbn in Hk; by simplify_eq/=|]). cbn [take] in Hk. rewrite take_nil in Hk.
    cbn in Hk. by simplify_eq/=.
Qed.

(** The identifier spliced into LISTEN and UNLISTEN is read back by the server as
    the channel name, whatever it contains, and ends where it should: no name can break
    out of its quotes. *)
Theorem quoteListenIdent_roundtrip (ch rest : string) :
  match rest with String c _ => c <> dquote | EmptyString => True end ->
  read_ident (quoteListenIdent ch +:+ rest) = Some (ch, rest).
Proof.
  intros Hr. unfold quoteListenIdent.
  change (read_quoted ((double_quotes ch +:+ String dquote EmptyString) +:+ rest) = Some (ch, rest)).
  rewrite string_app_assoc. by apply read_double_quotes.
Qed.

Lemma quoteListenIdent_roundtrip_witness :
  read_ident (quoteListenIdent (String dquote "; DROP TABLE t") +:+ ";") =
    Some (String dquote "; DROP TABLE t", ";"%string).
Proof. apply quoteListenIdent_roundtrip. discriminate. Defined.
