(* ===== verification/Notify.v ===== *)
(** * Push delivery inside the process ([notify.go])

    The notifier turns the one stream of a [Listener] into a wake-up channel per
    queue.  Consumers ask for a channel ([wakeChan]) before they look for a message
    and sleep on it; the pump goroutine closes it when a notification arrives; a
    [confirmListen] goroutine per queue runs the LISTEN; deleting a queue forgets
    its books.  The model is a transition system whose steps are the critical
    sections of [notifier.mu] and [waker.mu] and the calls into the [Listener], in
    any interleaving.  Wakers are addresses in a heap, Go channels are numbers with
    the set of those that have been closed; closing a closed channel is recorded as
    a panic. *)

From S2P Require Import Prelude Types Tx.
From Stdlib Require Import ZArith Lia.
From stdpp Require Import strings.
Local Open Scope nat_scope.

(** ** State *)

Definition listenEscalateThreshold : nat := 10.

(** A [confirmListen] goroutine: its channel, the waker it captured, and the result of
    [Listen] once that has returned. *)
Record confirm := mkConfirm {
  cf_channel : string;
  cf_waker : nat;
  cf_result : option bool
}.

Record notifier := mkNotifier {
  (* the books under [mu] *)
  wakers : gmap string nat;
  listening : gset string;
  listenInFlight : gset string;
  listenFailures : gmap string nat;
  n_closed : bool;
  pumpStarted : bool;
  (* the heap: the current channel of each waker, the channels closed so far *)
  generation : gmap nat nat;
  closed_chans : gset nat;
  fresh : nat;
  panicked : bool;
  (* goroutines: confirmations, wakers about to be signalled, Unlisten calls to make *)
  confirms : gmap nat confirm;
  signals : list nat;
  unlistens : list string;
  (* the listener's side: the channels it is subscribed to *)
  subscriptions : gset string
}.

Definition set_wakers (w : gmap string nat) (n : notifier) : notifier :=
  mkNotifier w (listening n) (listenInFlight n) (listenFailures n) (n_closed n) (pumpStarted n)
    (generation n) (closed_chans n) (fresh n) (panicked n) (confirms n) (signals n) (unlistens n)
    (subscriptions n).
Definition set_listen (l i : gset string) (f : gmap string nat) (n : notifier) : notifier :=
  mkNotifier (wakers n) l i f (n_closed n) (pumpStarted n) (generation n) (closed_chans n) (fresh n)
    (panicked n) (confirms n) (signals n) (unlistens n) (subscriptions n).
Definition set_flags (c p : bool) (n : notifier) : notifier :=
  mkNotifier (wakers n) (listening n) (listenInFlight n) (listenFailures n) c p (generation n)
    (closed_chans n) (fresh n) (panicked n) (confirms n) (signals n) (unlistens n) (subscriptions n).
Definition set_heap (g : gmap nat nat) (c : gset nat) (f : nat) (p : bool) (n : notifier) : notifier :=
  mkNotifier (wakers n) (listening n) (listenInFlight n) (listenFailures n) (n_closed n) (pumpStarted n)
    g c f p (confirms n) (signals n) (unlistens n) (subscriptions n).
Definition set_threads (c : gmap nat confirm) (s : list nat) (u : list string) (n : notifier) : notifier :=
  mkNotifier (wakers n) (listening n) (listenInFlight n) (listenFailures n) (n_closed n) (pumpStarted n)
    (generation n) (closed_chans n) (fresh n) (panicked n) c s u (subscriptions n).
Definition set_subscriptions (s : gset string) (n : notifier) : notifier :=
  mkNotifier (wakers n) (listening n) (listenInFlight n) (listenFailures n) (n_closed n) (pumpStarted n)
    (generation n) (closed_chans n) (fresh n) (panicked n) (confirms n) (signals n) (unlistens n) s.

(** ** Wakers *)

(** [newWaker()]: a waker and its first channel. *)
Definition newWaker (n : notifier) : nat * notifier :=
  (fresh n, set_heap (<[fresh n := S (fresh n)]> (generation n)) (closed_chans n) (fresh n + 2)
              (panicked n) n).

(** [w.wait()] *)
Definition wait (w : nat) (n : notifier) : option nat := generation n !! w.

(** [w.signal()]: close the current channel, arm a new one. *)
Definition signal (w : nat) (n : notifier) : notifier :=
  match generation n !! w with
  | None => n
  | Some c => set_heap (<[w := fresh n]> (generation n)) ({[c]} ∪ closed_chans n) (S (fresh n))
                (panicked n || bool_decide (c ∈ closed_chans n)) n
  end.

(** ** The notifier *)

Definition newNotifier (listener : bool) : option notifier :=
  if listener
  then Some (mkNotifier ∅ ∅ ∅ ∅ false false ∅ ∅ 0 false ∅ [] [] ∅)
  else None.

(** The waker of a channel, made when there is none. *)
Definition get_waker (notifyChannel : string) (n : notifier) : nat * notifier :=
  match wakers n !! notifyChannel with
  | Some w => (w, n)
  | None => let '(w, n) := newWaker n in (w, set_wakers (<[notifyChannel := w]> (wakers n)) n)
  end.

(** [n.wg.Go(func() { n.confirmListen(notifyChannel, w) })] *)
Definition spawn_confirm (notifyChannel : string) (w : nat) (n : notifier) : notifier :=
  let n' := set_heap (generation n) (closed_chans n) (S (fresh n)) (panicked n) n in
  set_threads (<[fresh n := mkConfirm notifyChannel w None]> (confirms n)) (signals n) (unlistens n) n'.

Definition wakeChan (notifyChannel : string) (n : notifier) : option nat * notifier :=
  if n_closed n then (None, n)
  else
    let '(w, n) := get_waker notifyChannel n in
    let n := set_flags (n_closed n) true n in
    let n :=
      if negb (bool_decide (notifyChannel ∈ listening n)) &&
         negb (bool_decide (notifyChannel ∈ listenInFlight n))
      then spawn_confirm notifyChannel w
             (set_listen (listening n) ({[notifyChannel]} ∪ listenInFlight n) (listenFailures n) n)
      else n in
    (wait w n, n).

(** What a call into the caller's Listener does: return nil or an error, or panic. *)
Inductive listener_result := LNil | LError | LPanic.

(** A panic becomes an error. *)
Definition safeListenerCall (r : listener_result) : bool :=
  match r with LNil => true | LError | LPanic => false end.

(** The lines written for the [attempt]-th consecutive failure: WARN, and ERROR at every
    multiple of the threshold. *)
Inductive log_line := Warn (channel : string) (attempt : nat) | Error (channel : string) (attempt : nat).
Definition logListenFailure (logger : bool) (channel : string) (attempt : nat) : list log_line :=
  if logger then
    Warn channel attempt ::
    (if attempt mod listenEscalateThreshold =? 0 then [Error channel attempt] else [])
  else [].

(** The critical section of [confirmListen]; the boolean is whether the
    missed-notification hook fires. *)
Definition confirmListen (t : nat) (c : confirm) (ok : bool) (n : notifier) : notifier * bool :=
  let n := set_threads (delete t (confirms n)) (signals n) (unlistens n) n in
  let ch := cf_channel c in
  if negb (bool_decide (wakers n !! ch = Some (cf_waker c))) then (n, false)
  else
    let n := set_listen (listening n) (listenInFlight n ∖ {[ch]}) (listenFailures n) n in
    if ok then
      (set_listen ({[ch]} ∪ listening n) (listenInFlight n) (delete ch (listenFailures n)) n, false)
    else
      (set_listen (listening n) (listenInFlight n)
         (<[ch := S (default 0 (listenFailures n !! ch))]> (listenFailures n)) n, true).

(** The critical section of [forget]; unless the notifier is closed a call of
    [Unlisten] follows. *)
Definition forget (ch : string) (n : notifier) : notifier :=
  let n := set_listen (listening n ∖ {[ch]}) (listenInFlight n ∖ {[ch]}) (delete ch (listenFailures n))
             (set_wakers (delete ch (wakers n)) n) in
  if n_closed n then n else set_threads (confirms n) (signals n) (unlistens n ++ [ch]) n.

(** The pump looks up the waker of a notification; it signals it after unlocking. *)
Definition pump (ch : string) (n : notifier) : notifier :=
  match wakers n !! ch with
  | None => n
  | Some w => set_threads (confirms n) (signals n ++ [w]) (unlistens n) n
  end.

(** The snapshot [wakeAll] takes. *)
Definition wakeAll (n : notifier) : notifier :=
  set_threads (confirms n) (signals n ++ (map_to_list (wakers n)).*2) (unlistens n) n.

(** The critical section of [close]. *)
Definition close (n : notifier) : notifier := set_flags true (pumpStarted n) n.

(** ** The system *)

Inductive event :=
| EWake (ch : string)                                (* a consumer calls [wakeChan] *)
| EListened (t : nat) (r : listener_result)          (* [Listen] of goroutine [t] returns *)
| EConfirm (t : nat)                                 (* and it takes the lock *)
| EForget (ch : string)
| EUnlisten (i : nat)                                (* a pending Unlisten call runs *)
| ENotify (ch : string)                              (* the pump receives a notification *)
| ESignal (i : nat)                                  (* a pending signal is delivered *)
| EClose
| EWakeAll.                                          (* after close, or after a pump panic *)

Definition step (e : event) (n : notifier) : option notifier :=
  match e with
  | EWake ch => Some (wakeChan ch n).2
  | EListened t r =>
      match confirms n !! t with
      | Some (mkConfirm ch w None) =>
          let ok := safeListenerCall r in
          let n := set_threads (<[t := mkConfirm ch w (Some ok)]> (confirms n)) (signals n) (unlistens n) n in
          Some (if ok then set_subscriptions ({[ch]} ∪ subscriptions n) n else n)
      | _ => None
      end
  | EConfirm t =>
      match confirms n !! t with
      | Some (mkConfirm ch w (Some ok)) => Some (confirmListen t (mkConfirm ch w (Some ok)) ok n).1
      | _ => None
      end
  | EForget ch => Some (forget ch n)
  | EUnlisten i =>
      match unlistens n !! i with
      | Some ch => Some (set_subscriptions (subscriptions n ∖ {[ch]})
                           (set_threads (confirms n) (signals n) (delete i (unlistens n)) n))
      | None => None
      end
  | ENotify ch => if pumpStarted n then Some (pump ch n) else None
  | ESignal i =>
      match signals n !! i with
      | Some w => Some (signal w (set_threads (confirms n) (delete i (signals n)) (unlistens n) n))
      | None => None
      end
  | EClose => if n_closed n then None else Some (close n)
  | EWakeAll => Some (wakeAll n)
  end.

Fixpoint steps (es : list event) (n : notifier) : option notifier :=
  match es with
  | [] => Some n
  | e :: es => step e n ≫= steps es
  end.

Definition reachable (n : notifier) : Prop :=
  exists n0 es, newNotifier true = Some n0 /\ steps es n0 = Some n.

(** ** Invariants *)

(** Goroutine [t] runs the confirmation the books of [ch] wait for: the waker it
    captured is still the channel's. *)
Definition live (n : notifier) (t : nat) (ch : string) : Prop :=
  exists c, confirms n !! t = Some c /\ cf_channel c = ch /\ wakers n !! ch = Some (cf_waker c).

Record heap_ok (n : notifier) : Prop := mkHeapOk {
  hp_gen w c : generation n !! w = Some c -> c < fresh n /\ (c ∉ closed_chans n) /\ w < fresh n;
  hp_inj w w' c : generation n !! w = Some c -> generation n !! w' = Some c -> w = w';
  hp_closed c : c ∈ closed_chans n -> c < fresh n;
  hp_wakers ch w : wakers n !! ch = Some w -> is_Some (generation n !! w);
  hp_signals w : w ∈ signals n -> is_Some (generation n !! w);
  hp_calm : panicked n = false
}.

Record books_ok (n : notifier) : Prop := mkBooksOk {
  bk_addr t c : confirms n !! t = Some c -> t < fresh n /\ cf_waker c < fresh n;
  bk_flight ch : ch ∈ listenInFlight n <-> exists t, live n t ch;
  bk_unique ch t t' : live n t ch -> live n t' ch -> t = t';
  bk_listening ch : ch ∈ listening n -> (ch ∉ listenInFlight n) /\ is_Some (wakers n !! ch)
}.

Definition ok (n : notifier) : Prop := heap_ok n /\ books_ok n.

(** The books do not depend on the channels of the heap. *)
Lemma books_frame n n' :
  books_ok n -> wakers n' = wakers n -> listening n' = listening n -> listenInFlight n' = listenInFlight n ->
  confirms n' = confirms n -> fresh n <= fresh n' -> books_ok n'.
Proof.
  intros [H1 H2 H3 H4] Hw Hl Hi Hc Hf.
  assert (forall t ch, live n' t ch <-> live n t ch) as Hlive by (intros; unfold live; by rewrite Hc, Hw).
  split.
  - intros t c Ht. rewrite Hc in Ht. specialize (H1 t c Ht). lia.
  - intros ch. rewrite Hi, H2. by setoid_rewrite Hlive.
  - intros ch t t'. rewrite !Hlive. apply H3.
  - intros ch. rewrite Hl, Hi, Hw. apply H4.
Qed.

Lemma heap_frame n n' :
  heap_ok n -> generation n' = generation n -> closed_chans n' = closed_chans n -> panicked n' = panicked n ->
  fresh n <= fresh n' -> wakers n' ⊆ wakers n -> (forall w, w ∈ signals n' -> is_Some (generation n !! w)) ->
  heap_ok n'.
Proof.
  intros [H1 H2 H3 H4 H5 H6] Hg Hc Hp Hf Hw Hs. split; rewrite ?Hg, ?Hc, ?Hp; try done.
  - intros w c Hgw. destruct (H1 w c Hgw) as (? & ? & ?). split_and!; [lia|done|lia].
  - intros c Hcc. specialize (H3 c Hcc). lia.
  - intros ch w Hw'. eapply H4, lookup_weaken; done.
Qed.

Lemma heap_signal w n : heap_ok n -> heap_ok (signal w n).
Proof.
  intros [H1 H2 H3 H4 H5 H6]. unfold signal. destruct (generation n !! w) as [c|] eqn:E; [|by split].
  destruct (H1 w c E) as (Hc & Hnc & Hw). split; cbn.
  - intros w' c'. rewrite lookup_insert_Some. intros [[<- <-]|[Hne Hg]].
    + split_and!; [lia| |lia]. intros [Heq%elem_of_singleton|Hin%H3]%elem_of_union; lia.
    + destruct (H1 w' c' Hg) as (? & ? & ?). split_and!; [lia| |lia].
      intros [->%elem_of_singleton|Hin]%elem_of_union; [|done]. by apply Hne, (H2 _ _ c).
  - intros w1 w2 c'. rewrite !lookup_insert_Some.
    intros [[<- <-]|[Hn1 Hg1]] [[<- He]|[Hn2 Hg2]]; [done|..|by eapply H2].
    + apply H1 in Hg2. lia.
    + apply H1 in Hg1. lia.
  - intros c' [->%elem_of_singleton|Hin%H3]%elem_of_union; lia.
  - intros ch w' Hw'. apply lookup_insert_is_Some. destruct (decide (w = w')); [by left|right]. eauto.
  - intros w' Hw'. apply lookup_insert_is_Some. destruct (decide (w = w')); [by left|right]. eauto.
  - rewrite H6. by rewrite bool_decide_false.
Qed.

Lemma ok_signal w n : ok n -> ok (signal w n).
Proof.
  intros [Hh Hb]. split; [by apply heap_signal|]. eapply books_frame; [exact Hb|..]; unfold signal;
    destruct (generation n !! w); cbn; (done || lia).
Qed.

Lemma ok_get_waker ch n :
  ok n -> ok (get_waker ch n).2 /\ wakers (get_waker ch n).2 !! ch = Some (get_waker ch n).1.
Proof.
  intros [Hh Hb]. unfold get_waker. destruct (wakers n !! ch) as [w|] eqn:E; [done|]. cbn.
  rewrite lookup_insert_eq. split; [|done].
  destruct Hh as [H1 H2 H3 H4 H5 H6]. destruct Hb as [B1 B2 B3 B4].
  assert (forall t, ~ live n t ch) as Hno by (intros t (c & _ & _ & Hw); congruence).
  set (n' := set_wakers _ _).
  assert (forall t ch', live n' t ch' <-> live n t ch') as Hlive.
  { intros t ch'. unfold live. split; intros (c & Hc & Hch & Hw); exists c; cbn in *.
    - split_and!; try done. apply lookup_insert_Some in Hw as [[<- Hw]|[_ Hw]]; [|done].
      destruct (B1 t c Hc). lia.
    - split_and!; try done. rewrite lookup_insert_ne; [done|]. intros <-. congruence. }
  split; split.
  - intros w c. cbn. rewrite lookup_insert_Some. intros [[<- <-]|[_ Hg]].
    + split_and!; [lia| |lia]. intros Hin%H3. lia.
    + destruct (H1 w c Hg) as (? & ? & ?). split_and!; [lia|done|lia].
  - intros w w' c. cbn. rewrite !lookup_insert_Some.
    intros [[<- <-]|[_ Hg]] [[<- He]|[_ Hg']]; [done|..|by eapply H2].
    + apply H1 in Hg'. lia.
    + apply H1 in Hg. lia.
  - intros c Hc%H3. cbn. lia.
  - intros ch' w. cbn. rewrite lookup_insert_Some. intros [[<- <-]|[_ Hw]]; [by rewrite lookup_insert_eq|].
    apply lookup_insert_is_Some'. right. eauto.
  - intros w Hw. cbn. apply lookup_insert_is_Some'. right. eauto.
  - done.
  - intros t c Hc. cbn. destruct (B1 t c Hc). lia.
  - intros ch'. setoid_rewrite Hlive. apply B2.
  - intros ch' t t'. rewrite !Hlive. apply B3.
  - intros ch' Hl. destruct (B4 ch' Hl) as [? [w Hw]]. split; [done|]. cbn.
    apply lookup_insert_is_Some'. by right; exists w.
Qed.

(** The confirmation a new waker, or one whose LISTEN failed, starts. *)
Lemma ok_spawn ch w n :
  ok n -> wakers n !! ch = Some w -> ch ∉ listening n -> ch ∉ listenInFlight n ->
  ok (spawn_confirm ch w (set_listen (listening n) ({[ch]} ∪ listenInFlight n) (listenFailures n) n)).
Proof.
  intros [Hh [B1 B2 B3 B4]] Hw Hl Hi.
  assert (w < fresh n) as Hlt.
  { destruct (hp_wakers n Hh ch w Hw) as [c Hc]. by destruct (hp_gen n Hh w c Hc) as (_ & _ & ?). }
  split.
  { eapply heap_frame; [exact Hh|..]; cbn; try done; [lia|]. apply (hp_signals n Hh). }
  set (n' := spawn_confirm _ _ _).
  assert (forall t ch', live n' t ch' <-> live n t ch' \/ (t = fresh n /\ ch' = ch)) as Hlive.
  { intros t ch'. unfold live. cbn. split.
    - intros (c & Hc & Hch & Hwc). apply lookup_insert_Some in Hc as [[<- <-]|[_ Hc]]; cbn in *; [by right|].
      left. by exists c.
    - intros [(c & Hc & Hch & Hwc)|[-> ->]].
      + exists c. rewrite lookup_insert_ne; [done|]. intros <-. destruct (B1 _ c Hc). lia.
      + exists (mkConfirm ch w None). by rewrite lookup_insert_eq. }
  split.
  - intros t c. cbn. rewrite lookup_insert_Some. intros [[<- <-]|[_ Hc]]; cbn; [lia|].
    destruct (B1 t c Hc). lia.
  - intros ch'. cbn. rewrite elem_of_union, elem_of_singleton, B2. setoid_rewrite Hlive. naive_solver.
  - intros ch' t t'. rewrite !Hlive. intros [H1|[-> ->]] [H2|[-> He]]; [by eapply B3|..|done];
      exfalso; apply Hi, B2; [by rewrite <-He; exists t|by exists t'].
  - intros ch'. cbn. intros Hin. destruct (B4 ch' Hin). split; [|done].
    intros [->%elem_of_singleton|?]%elem_of_union; done.
Qed.

Lemma ok_flags c p n : ok n -> ok (set_flags c p n).
Proof.
  intros [Hh Hb]. split; [|by eapply books_frame; [exact Hb|..]].
  eapply heap_frame; [exact Hh|..]; try done. apply (hp_signals n Hh).
Qed.

Lemma ok_wakeChan ch n : ok n -> ok (wakeChan ch n).2.
Proof.
  intros Hok. unfold wakeChan. destruct (n_closed n); [done|].
  pose proof (ok_get_waker ch n Hok) as [Hok1 Hw]. destruct (get_waker ch n) as [w n1]. cbn [fst snd] in *.
  pose proof (ok_flags (n_closed n1) true n1 Hok1) as Hok2. set (n2 := set_flags _ _ n1) in *.
  destruct (negb _ && negb _) eqn:E; [|done]. cbn [snd].
  apply andb_true_iff in E as [E1%negb_true_iff%bool_decide_eq_false E2%negb_true_iff%bool_decide_eq_false].
  by apply ok_spawn.
Qed.

(** Dropping a goroutine whose captured waker is stale leaves the books alone. *)
Lemma ok_drop_stale t c n :
  ok n -> confirms n !! t = Some c -> wakers n !! cf_channel c <> Some (cf_waker c) ->
  ok (set_threads (delete t (confirms n)) (signals n) (unlistens n) n).
Proof.
  intros [Hh [B1 B2 B3 B4]] Hc Hst. split.
  { eapply heap_frame; [exact Hh|..]; try done. apply (hp_signals n Hh). }
  set (n' := set_threads _ _ _ _).
  assert (forall t' ch, live n' t' ch <-> live n t' ch) as Hlive.
  { intros t' ch. unfold live. cbn. split; intros (c' & Hc' & Hch & Hw); exists c'.
    - apply lookup_delete_Some in Hc' as [_ Hc']. done.
    - rewrite lookup_delete_ne; [done|]. intros <-. rewrite Hc in Hc'. injection Hc' as <-.
      apply Hst. by rewrite Hch. }
  split.
  - intros t' c' Hc'. cbn in Hc'. apply lookup_delete_Some in Hc' as [_ Hc']. by apply (B1 t').
  - intros ch. setoid_rewrite Hlive. apply B2.
  - intros ch t1 t2. rewrite !Hlive. apply B3.
  - apply B4.
Qed.

(** Settling the confirmation the books wait for. *)
Lemma ok_settle t c n l f :
  ok n -> confirms n !! t = Some c -> wakers n !! cf_channel c = Some (cf_waker c) ->
  (forall ch, ch ∈ l -> ch ∈ listening n \/ ch = cf_channel c) ->
  ok (set_listen l (listenInFlight n ∖ {[cf_channel c]}) f
        (set_threads (delete t (confirms n)) (signals n) (unlistens n) n)).
Proof.
  intros [Hh [B1 B2 B3 B4]] Hc Hst Hl. split.
  { eapply heap_frame; [exact Hh|..]; try done. apply (hp_signals n Hh). }
  set (n' := set_listen _ _ _ _).
  assert (forall t' ch, live n' t' ch <-> live n t' ch /\ ch <> cf_channel c) as Hlive.
  { assert (live n t (cf_channel c)) as Ht by (by exists c).
    intros t' ch. unfold live. cbn. split.
    - intros (c' & Hc' & Hch & Hw). apply lookup_delete_Some in Hc' as [Hne Hc']. split; [by exists c'|].
      intros ->. apply Hne. eapply B3; [exact Ht|]. by exists c'.
    - intros ((c' & Hc' & Hch & Hw) & Hne). exists c'. rewrite lookup_delete_ne; [done|]. intros <-. congruence. }
  split.
  - intros t' c' Hc'. cbn in Hc'. apply lookup_delete_Some in Hc' as [_ Hc']. by apply (B1 t').
  - intros ch. cbn. rewrite elem_of_difference, elem_of_singleton, B2. setoid_rewrite Hlive. naive_solver.
  - intros ch t1 t2. rewrite !Hlive. intros [H1 _] [H2 _]. by eapply B3.
  - intros ch. cbn. intros [Hin| ->]%Hl; [|split; [set_solver|by exists (cf_waker c)]].
    destruct (B4 ch Hin). split; [set_solver|done].
Qed.

Lemma ok_confirmListen t c r n :
  ok n -> confirms n !! t = Some c -> ok (confirmListen t c r n).1.
Proof.
  intros Hok Hc. unfold confirmListen. cbn [wakers set_threads]. case_bool_decide as Hw; cbn [negb].
  - destruct r; cbn [fst]; apply (ok_settle t c n); try done; cbn; set_solver.
  - by eapply ok_drop_stale.
Qed.

Lemma ok_forget ch n : ok n -> ok (forget ch n).
Proof.
  intros [Hh [B1 B2 B3 B4]]. unfold forget. set (n1 := set_listen _ _ _ _).
  assert (ok n1) as Hok1.
  { split.
    - eapply heap_frame; [exact Hh|..]; try done; [apply delete_subseteq|apply (hp_signals n Hh)].
    - assert (forall t ch', live n1 t ch' <-> live n t ch' /\ ch' <> ch) as Hlive.
      { intros t ch'. unfold live. cbn. setoid_rewrite lookup_delete_Some. naive_solver. }
      split.
      + apply B1.
      + intros ch'. cbn. rewrite elem_of_difference, elem_of_singleton, B2. setoid_rewrite Hlive. naive_solver.
      + intros ch' t t'. rewrite !Hlive. intros [H1 _] [H2 _]. by eapply B3.
      + intros ch'. cbn. rewrite elem_of_difference, elem_of_singleton. intros [Hin Hne].
        destruct (B4 ch' Hin). split; [set_solver|]. by rewrite lookup_delete_ne by done. }
  destruct (n_closed n1); [done|]. destruct Hok1 as [Hh1 Hb1]. split.
  - eapply heap_frame; [exact Hh1|..]; try done. apply (hp_signals _ Hh1).
  - by eapply books_frame.
Qed.

(** A goroutine's result of [Listen] changes neither its channel nor its waker. *)
Lemma ok_listened t ch w r n :
  ok n -> confirms n !! t = Some (mkConfirm ch w None) ->
  ok (set_threads (<[t := mkConfirm ch w (Some r)]> (confirms n)) (signals n) (unlistens n) n).
Proof.
  intros [Hh [B1 B2 B3 B4]] Hc. split.
  { eapply heap_frame; [exact Hh|..]; try done. apply (hp_signals n Hh). }
  set (n' := set_threads _ _ _ _).
  assert (forall t' ch', live n' t' ch' <-> live n t' ch') as Hlive.
  { intros t' ch'. unfold live. cbn. split.
    - intros (c & [[<- <-]|[_ Hc']]%lookup_insert_Some & Hch & Hw); [by exists (mkConfirm ch w None)|by exists c].
    - intros (c & Hc' & Hch & Hw). destruct (decide (t = t')) as [<-|Hne].
      + exists (mkConfirm ch w (Some r)). rewrite lookup_insert_eq. rewrite Hc in Hc'. by injection Hc' as <-.
      + exists c. by rewrite lookup_insert_ne. }
  split.
  - intros t' c. cbn. rewrite lookup_insert_Some. intros [[<- <-]|[_ Hc']]; [by apply (B1 t) in Hc|by apply (B1 t')].
  - intros ch'. setoid_rewrite Hlive. apply B2.
  - intros ch' t1 t2. rewrite !Hlive. apply B3.
  - apply B4.
Qed.

Lemma ok_signals s u n :
  ok n -> (forall w, w ∈ s -> is_Some (generation n !! w)) -> ok (set_threads (confirms n) s u n).
Proof.
  intros [Hh Hb] Hs. split; [|by eapply books_frame].
  by eapply heap_frame; [exact Hh|..].
Qed.

Lemma ok_subscriptions s n : ok n -> ok (set_subscriptions s n).
Proof.
  intros [Hh Hb]. split; [|by eapply books_frame].
  eapply heap_frame; [exact Hh|..]; try done. apply (hp_signals n Hh).
Qed.

Lemma ok_step e n n' : ok n -> step e n = Some n' -> ok n'.
Proof.
  intros Hok Hs. pose proof Hok as [Hh _]. destruct e as [ch|t r|t|ch|i|ch|i| |]; cbn [step] in Hs.
  - injection Hs as <-. by apply ok_wakeChan.
  - destruct (confirms n !! t) as [[ch w [r'|]]|] eqn:E; try done. injection Hs as <-.
    pose proof (ok_listened t ch w (safeListenerCall r) n Hok E) as Hn.
    destruct (safeListenerCall r); [by apply ok_subscriptions|done].
  - destruct (confirms n !! t) as [[ch w [r'|]]|] eqn:E; try done. injection Hs as <-.
    by apply ok_confirmListen.
  - injection Hs as <-. by apply ok_forget.
  - destruct (unlistens n !! i) as [ch|]; [|done]. injection Hs as <-. apply ok_subscriptions, ok_signals; [done|].
    apply (hp_signals n Hh).
  - destruct (pumpStarted n); [|done]. injection Hs as <-. unfold pump.
    destruct (wakers n !! ch) as [w|] eqn:E; [|done]. apply ok_signals; [done|].
    intros w' [Hw| ->%list_elem_of_singleton]%elem_of_app; [by apply (hp_signals n Hh)|by eapply (hp_wakers n Hh)].
  - destruct (signals n !! i) as [w|] eqn:E; [|done]. injection Hs as <-. apply ok_signal, ok_signals; [done|].
    intros w' Hw. apply (hp_signals n Hh). by eapply list_elem_of_delete_inv.
  - destruct (n_closed n); [done|]. injection Hs as <-. by apply ok_flags.
  - injection Hs as <-. apply ok_signals; [done|].
    intros w [Hw|Hw]%elem_of_app; [by apply (hp_signals n Hh)|].
    apply list_elem_of_fmap in Hw as ([ch w'] & -> & Hw%elem_of_map_to_list). by eapply (hp_wakers n Hh).
Qed.

Lemma ok_steps es : forall n n', ok n -> steps es n = Some n' -> ok n'.
Proof.
  induction es as [|e es IH]; intros n n' Hok Hs; cbn in Hs; [by injection Hs as <-|].
  destruct (step e n) as [n1|] eqn:E; [|done]. eapply IH; [|exact Hs]. by eapply ok_step.
Qed.

Lemma reachable_ok n : reachable n -> ok n.
Proof.
  intros (n0 & es & [= <-] & Hs). eapply ok_steps; [|exact Hs].
  split; split; cbn; try done; try (intros; set_solver).
  - intros ch. split; [set_solver|]. by intros (t & c & ? & _).
  - by intros ch t t' (c & ? & _).
Qed.

(** ** Waking *)

(** The channel [c] a consumer got from waker [w]: closed, or the one the next signal
    closes. *)
Definition armed (c w : nat) (n : notifier) : Prop :=
  c ∈ closed_chans n \/ generation n !! w = Some c.

Lemma armed_signal c w w' n : armed c w n -> armed c w (signal w' n).
Proof.
  unfold armed, signal. destruct (generation n !! w') as [c'|] eqn:E; [|done]. cbn.
  intros [Hc|Hg]; [left; set_solver|]. destruct (decide (w' = w)) as [->|Hne].
  - left. rewrite E in Hg. injection Hg as <-. set_solver.
  - right. by rewrite lookup_insert_ne.
Qed.

Lemma signal_closes c w n : armed c w n -> c ∈ closed_chans (signal w n).
Proof.
  unfold armed, signal. intros [Hc|Hg].
  - destruct (generation n !! w); cbn; set_solver.
  - rewrite Hg. cbn. set_solver.
Qed.

(** Whatever else happens, an armed channel stays armed. *)
Lemma armed_step e c w n n' : ok n -> armed c w n -> step e n = Some n' -> armed c w n'.
Proof.
  intros Hok Ha Hs. destruct e as [ch|t r|t|ch|i|ch|i| |]; cbn [step] in Hs.
  - injection Hs as <-. unfold wakeChan. destruct (n_closed n); [done|].
    assert (armed c w (get_waker ch n).2) as Ha1.
    { unfold get_waker. destruct (wakers n !! ch); [done|]. destruct Ha as [Hc|Hg]; [by left|right]. cbn.
      rewrite lookup_insert_ne; [done|]. intros <-. destruct Hok as [Hh _].
      destruct (hp_gen n Hh _ _ Hg) as (_ & _ & ?). lia. }
    destruct (get_waker ch n) as [w1 n1]. cbn [fst snd] in *. by destruct (negb _ && negb _).
  - destruct (confirms n !! t) as [[ch w1 [r'|]]|] eqn:E; try done. injection Hs as <-.
    by destruct (safeListenerCall r).
  - destruct (confirms n !! t) as [[ch w1 [r'|]]|] eqn:E; try done. injection Hs as <-. unfold confirmListen.
    destruct (negb _); [done|]. by destruct r'.
  - injection Hs as <-. unfold forget. by case_match.
  - destruct (unlistens n !! i); [|done]. by injection Hs as <-.
  - destruct (pumpStarted n); [|done]. injection Hs as <-. unfold pump. by destruct (wakers n !! ch).
  - destruct (signals n !! i) as [w'|] eqn:E; [|done]. injection Hs as <-. by apply armed_signal.
  - destruct (n_closed n); [done|]. by injection Hs as <-.
  - by injection Hs as <-.
Qed.

(** Closed channels stay closed, and a pending signal stays pending until delivered. *)
Lemma closed_step e n n' :
  step e n = Some n' ->
  closed_chans n ⊆ closed_chans n' /\
  forall w, w ∈ signals n -> w ∈ signals n' \/
    (exists m, (forall c, armed c w n <-> armed c w m) /\ n' = signal w m).
Proof.
  intros Hs. destruct e as [ch|t r|t|ch|i|ch|i| |]; cbn [step] in Hs.
  - injection Hs as <-. unfold wakeChan. destruct (n_closed n); [split; [done|by left]|].
    assert (closed_chans (get_waker ch n).2 = closed_chans n /\ signals (get_waker ch n).2 = signals n) as [H1 H2]
      by (unfold get_waker; by destruct (wakers n !! ch)).
    destruct (get_waker ch n) as [w1 n1]. cbn [fst snd] in *. destruct (negb _ && negb _); cbn;
      rewrite H1, H2; (split; [done|by left]).
  - destruct (confirms n !! t) as [[ch w1 [r'|]]|] eqn:E; try done. injection Hs as <-.
    destruct (safeListenerCall r); (split; [done|by left]).
  - destruct (confirms n !! t) as [[ch w1 [r'|]]|] eqn:E; try done. injection Hs as <-. unfold confirmListen.
    destruct (negb _); [split; [done|by left]|]. destruct r'; (split; [done|by left]).
  - injection Hs as <-. unfold forget. case_match; (split; [done|by left]).
  - destruct (unlistens n !! i); [|done]. injection Hs as <-. split; [done|by left].
  - destruct (pumpStarted n); [|done]. injection Hs as <-. unfold pump.
    destruct (wakers n !! ch); (split; [done|]); [|by left]. intros w Hw. left. cbn. set_solver.
  - destruct (signals n !! i) as [w'|] eqn:E; [|done]. injection Hs as <-. split.
    { unfold signal. cbn. destruct (generation n !! w'); cbn; set_solver. }
    intros w Hw. destruct (decide (w = w')) as [->|Hne].
    + right. eexists. split; [|reflexivity]. done.
    + left. unfold signal. cbn. destruct (generation n !! w'); cbn;
        rewrite delete_take_drop; rewrite <-(take_drop_middle _ _ _ E) in Hw; set_solver.
  - destruct (n_closed n); [done|]. injection Hs as <-. split; [done|by left].
  - injection Hs as <-. split; [done|]. intros w Hw. left. cbn. set_solver.
Qed.

(** Once a signal is owed, the channel is closed or the signal is still to come. *)
Lemma owed_steps es : forall c w n n',
  ok n -> armed c w n -> c ∈ closed_chans n \/ w ∈ signals n -> steps es n = Some n' ->
  c ∈ closed_chans n' \/ w ∈ signals n'.
Proof.
  induction es as [|e es IH]; intros c w n n' Hok Ha Ho Hs; cbn in Hs; [by injection Hs as <-|].
  destruct (step e n) as [n1|] eqn:E; [|done].
  apply (IH c w n1); [by eapply ok_step|by eapply armed_step| |done].
  destruct (closed_step e n n1 E) as [Hcl Hsig]. destruct Ho as [Hc|Hw]; [left; by apply Hcl|].
  destruct (Hsig w Hw) as [|(m & Hm & ->)]; [by right|]. left. by apply signal_closes, Hm.
Qed.

Lemma armed_steps es : forall c w n n', ok n -> armed c w n -> steps es n = Some n' -> armed c w n'.
Proof.
  induction es as [|e es IH]; intros c w n n' Hok Ha Hs; cbn in Hs; [by injection Hs as <-|].
  destruct (step e n) as [n1|] eqn:E; [|done].
  apply (IH c w n1); [by eapply ok_step|by eapply armed_step|done].
Qed.

Definition forgets (ch : string) (e : event) : bool :=
  match e with EForget ch' => bool_decide (ch' = ch) | _ => false end.

(** A channel keeps its waker until it is forgotten. *)
Lemma waker_step e ch w n n' :
  wakers n !! ch = Some w -> forgets ch e = false -> step e n = Some n' -> wakers n' !! ch = Some w.
Proof.
  intros Hw Hf Hs. destruct e as [ch'|t r|t|ch'|i|ch'|i| |]; cbn [step] in Hs.
  - injection Hs as <-. unfold wakeChan. destruct (n_closed n); [done|].
    assert (wakers (get_waker ch' n).2 !! ch = Some w) as H1.
    { unfold get_waker. destruct (wakers n !! ch') eqn:E; [done|]. cbn. rewrite lookup_insert_ne; [done|].
      intros ->. congruence. }
    destruct (get_waker ch' n) as [w1 n1]. cbn [fst snd] in *. by destruct (negb _ && negb _).
  - destruct (confirms n !! t) as [[ch1 w1 [r'|]]|]; try done. injection Hs as <-. by destruct (safeListenerCall r).
  - destruct (confirms n !! t) as [[ch1 w1 [r'|]]|]; try done. injection Hs as <-. unfold confirmListen.
    destruct (negb _); [done|]. by destruct r'.
  - injection Hs as <-. cbn in Hf. apply bool_decide_eq_false in Hf. unfold forget.
    case_match; cbn; by rewrite lookup_delete_ne.
  - destruct (unlistens n !! i); [|done]. by injection Hs as <-.
  - destruct (pumpStarted n); [|done]. injection Hs as <-. unfold pump. by destruct (wakers n !! ch').
  - destruct (signals n !! i) as [w'|]; [|done]. injection Hs as <-. unfold signal. cbn.
    by destruct (generation n !! w').
  - destruct (n_closed n); [done|]. by injection Hs as <-.
  - by injection Hs as <-.
Qed.

Lemma waker_steps es : forall ch w n n',
  wakers n !! ch = Some w -> Forall (fun e => forgets ch e = false) es -> steps es n = Some n' ->
  wakers n' !! ch = Some w.
Proof.
  induction es as [|e es IH]; intros ch w n n' Hw Hf Hs; cbn in Hs; [by injection Hs as <-|].
  apply Forall_cons in Hf as [He Hf]. destruct (step e n) as [n1|] eqn:E; [|done].
  apply (IH ch w n1); [by eapply waker_step|done|done].
Qed.

Lemma notifier_steps_app es es' n : steps (es ++ es') n = steps es n ≫= steps es'.
Proof. revert n. induction es as [|e es IH]; intros n; [done|]. cbn. destruct (step e n); cbn; auto. Qed.

(** The channel [wakeChan] hands out is that of the queue's waker. *)
Lemma wakeChan_armed ch c n n1 :
  ok n -> wakeChan ch n = (Some c, n1) -> exists w, wakers n1 !! ch = Some w /\ generation n1 !! w = Some c.
Proof.
  intros Hok. unfold wakeChan. destruct (n_closed n); [done|].
  pose proof (ok_get_waker ch n Hok) as [_ Hw]. destruct (get_waker ch n) as [w n0]. cbn [fst snd] in Hw.
  intros Heq. exists w. destruct (negb _ && negb _); injection Heq as Hc <-; split; done.
Qed.

(** ** Properties *)

(** C30: in every interleaving no wake-up channel is closed twice (which would panic),
    and a queue is marked in flight exactly while one goroutine, never two, runs the
    confirmation for its current waker; a queue marked as listening has a waker and no
    confirmation in flight, so that a deleted and recreated queue starts over. *)
Theorem notifier_books_sound (n : notifier) :
  reachable n ->
  panicked n = false /\
  (forall ch, ch ∈ listenInFlight n <-> exists t, live n t ch /\ forall t', live n t' ch -> t' = t) /\
  (forall ch, ch ∈ listening n -> (ch ∉ listenInFlight n) /\ is_Some (wakers n !! ch)).
Proof.
  intros [Hh Hb]%reachable_ok. split; [apply Hh|]. split; [|apply Hb].
  intros ch. rewrite (bk_flight n Hb). split.
  - intros [t Ht]. exists t. split; [done|]. intros t' Ht'. by eapply (bk_unique n Hb).
  - intros (t & Ht & _). by exists t.
Qed.

Definition fresh_notifier : notifier := mkNotifier ∅ ∅ ∅ ∅ false false ∅ ∅ 0 false ∅ [] [] ∅.
Definition jobs : string := "pgqueue_jobs".

Lemma notifier_books_sound_witness :
  exists n, steps [EWake jobs; EWake jobs; ENotify jobs; ESignal 0] fresh_notifier = Some n /\
    panicked n = false.
Proof.
  destruct (steps [EWake jobs; EWake jobs; ENotify jobs; ESignal 0] fresh_notifier) as [n|] eqn:E.
  - exists n. split; [reflexivity|]. apply (notifier_books_sound n).
    exists fresh_notifier, [EWake jobs; EWake jobs; ENotify jobs; ESignal 0]. split; [reflexivity|exact E].
  - vm_compute in E. discriminate E.
Defined.

(** no wake-up is lost: the channel a consumer armed before it looked for a message
    is closed, or about to be, once a notification for its queue or a shutdown has
    been seen by the notifier, whatever runs in between, as long as the queue was not
    deleted meanwhile. *)
Theorem notification_wakes (n n1 n2 : notifier) (ch : string) (c : nat) (e : event) (es es' : list event) :
  reachable n -> wakeChan ch n = (Some c, n1) ->
  Forall (fun e => forgets ch e = false) es -> e = ENotify ch \/ e = EWakeAll ->
  steps (es ++ e :: es') n1 = Some n2 ->
  c ∈ closed_chans n2 \/ exists i n3, step (ESignal i) n2 = Some n3 /\ c ∈ closed_chans n3.
Proof.
  intros Hr Hw Hf He Hs. pose proof (reachable_ok n Hr) as Hok.
  destruct (wakeChan_armed ch c n n1 Hok Hw) as (w & Hww & Hg).
  assert (ok n1) as Hok1 by (pose proof (ok_wakeChan ch n Hok) as Ho; by rewrite Hw in Ho).
  rewrite notifier_steps_app in Hs. destruct (steps es n1) as [na|] eqn:Ea; [|done].
  assert (ok na) as Hoka by by eapply ok_steps. assert (armed c w na) as Haa by (eapply armed_steps; [exact Hok1|by right|done]).
  pose proof (waker_steps es ch w n1 na Hww Hf Ea) as Hwa.
  cbn [mbind option_bind steps] in Hs. destruct (step e na) as [nb|] eqn:Eb; [|done].
  assert (w ∈ signals nb) as Hsig.
  { destruct He as [->| ->]; cbn [step] in Eb.
    - destruct (pumpStarted na); [|done]. injection Eb as <-. unfold pump. rewrite Hwa. cbn. set_solver.
    - injection Eb as <-. cbn. apply elem_of_app. right. apply list_elem_of_fmap. exists (ch, w).
      by rewrite elem_of_map_to_list. }
  assert (ok nb) as Hokb by exact (ok_step e na nb Hoka Eb). assert (armed c w nb) as Hab by exact (armed_step e c w na nb Hoka Haa Eb).
  assert (armed c w n2) as Ha2 by exact (armed_steps es' c w nb n2 Hokb Hab Hs).
  destruct (owed_steps es' c w nb n2 Hokb Hab (or_intror Hsig) Hs) as [|Hw2]; [by left|right].
  apply list_elem_of_lookup in Hw2 as [i Hi]. exists i, (signal w
    (set_threads (confirms n2) (delete i (signals n2)) (unlistens n2) n2)).
  split; [cbn; by rewrite Hi|]. by apply signal_closes.
Qed.

Lemma notification_wakes_witness :
  exists c n1 n2, wakeChan jobs fresh_notifier = (Some c, n1) /\
    steps [ENotify jobs; ESignal 0] n1 = Some n2 /\
    (c ∈ closed_chans n2 \/ exists i n3, step (ESignal i) n2 = Some n3 /\ c ∈ closed_chans n3).
Proof.
  destruct (wakeChan jobs fresh_notifier) as [[c|] n1] eqn:E.
  2: { assert ((wakeChan jobs fresh_notifier).1 = None) as Hn by by rewrite E. vm_compute in Hn. discriminate Hn. }
  destruct (steps [ENotify jobs; ESignal 0] n1) as [n2|] eqn:E2.
  - exists c, n1, n2. split; [reflexivity|]. split; [exact E2|].
    apply (notification_wakes fresh_notifier n1 n2 jobs c (ENotify jobs) [] [ESignal 0]).
    + exists fresh_notifier, []. split; reflexivity.
    + exact E.
    + constructor.
    + left. reflexivity.
    + exact E2.
  - assert (is_Some (steps [ENotify jobs; ESignal 0] (wakeChan jobs fresh_notifier).2)) as [x Hx].
    { vm_compute. eexists. reflexivity. }
    rewrite E in Hx. cbn [snd] in Hx. congruence.
Defined.

(** Deleting a queue and recreating it under the same name can lose push delivery:
    [forget] calls [Unlisten] after it has released the lock, so the new queue's LISTEN
    can be confirmed first and then be undone; the notifier ends with the queue marked
    as listening, no goroutine left and nothing subscribed, and a later call of
    [wakeChan] starts no new confirmation. *)
Theorem forget_races_with_recreate :
  exists ch es n, steps es fresh_notifier = Some n /\ reachable n /\
    ch ∈ listening n /\ confirms n = ∅ /\ unlistens n = [] /\ n_closed n = false /\ (ch ∉ subscriptions n) /\
    confirms (wakeChan ch n).2 = ∅.
Proof.
  set (es := [EWake jobs; EListened 2 LNil; EConfirm 2; EForget jobs; EWake jobs; EListened 5 LNil; EConfirm 5;
              EUnlisten 0]).
  exists jobs, es. destruct (steps es fresh_notifier) as [n|] eqn:E; [|vm_compute in E; discriminate E].
  exists n. split; [done|]. split; [exists fresh_notifier, es; by split|].
  assert (n = default fresh_notifier (steps es fresh_notifier)) as -> by by rewrite E.
  do 5 (split; [vm_compute; first [reflexivity|discriminate]|]).
  vm_compute. reflexivity.
Qed.
