(* ===== verification/Utf8.v ===== *)
(** * Error texts ([truncateErrorMsg] in [channel.go])

    Go's UTF-8 validity check and [strings.ToValidUTF8], and the sanitising
    truncation applied to every error text before it is stored in a TEXT column. *)

From S2P Require Import Prelude Types.
From Stdlib Require Import ZArith Lia.
Local Open Scope Z_scope.

(** ** UTF-8 as Go decodes it *)

Definition byte_val (b : Byte.byte) : Z := Z.of_N (Byte.to_N b).
Definition in_range (lo hi : Z) (b : Byte.byte) : bool := (lo <=? byte_val b) && (byte_val b <=? hi).
Definition is_cont : Byte.byte -> bool := in_range 0x80 0xBF.

(** The width of the well-formed encoding at the head of [s], 0 when there is none
    ([utf8.DecodeRuneInString] then reports [RuneError] with width 1). *)
Definition rune_width (s : bytes) : nat :=
  match s with
  | [] => 0%nat
  | b0 :: s1 =>
      if byte_val b0 <? 0x80 then 1%nat else
      match s1 with
      | [] => 0%nat
      | b1 :: s2 =>
          if in_range 0xC2 0xDF b0 && is_cont b1 then 2%nat else
          match s2 with
          | [] => 0%nat
          | b2 :: s3 =>
              if ((in_range 0xE0 0xE0 b0 && in_range 0xA0 0xBF b1) ||
                  (in_range 0xE1 0xEC b0 && is_cont b1) ||
                  (in_range 0xED 0xED b0 && in_range 0x80 0x9F b1) ||
                  (in_range 0xEE 0xEF b0 && is_cont b1)) && is_cont b2
              then 3%nat else
              match s3 with
              | [] => 0%nat
              | b3 :: _ =>
                  if ((in_range 0xF0 0xF0 b0 && in_range 0x90 0xBF b1) ||
                      (in_range 0xF1 0xF3 b0 && is_cont b1) ||
                      (in_range 0xF4 0xF4 b0 && in_range 0x80 0x8F b1)) &&
                     is_cont b2 && is_cont b3
                  then 4%nat else 0%nat
              end
          end
      end
  end.

(** [fuel] is an upper bound on the number of runes. *)
Fixpoint valid_fuel (fuel : nat) (s : bytes) : bool :=
  match s, fuel with
  | [], _ => true
  | _, O => false
  | _, S fuel =>
      match rune_width s with
      | O => false
      | w => valid_fuel fuel (drop w s)
      end
  end.

(** [utf8.ValidString] *)
Definition ValidString (s : bytes) : bool := valid_fuel (length s) s.

(** The loop of [strings.ToValidUTF8]: a run of invalid bytes becomes one [rep];
    [invalid] says that the previous byte was invalid. *)
Fixpoint to_valid_fuel (fuel : nat) (rep : bytes) (invalid : bool) (s : bytes) : bytes :=
  match s, fuel with
  | [], _ => []
  | _, O => []
  | _ :: s1, S fuel =>
      match rune_width s with
      | O => (if invalid then [] else rep) ++ to_valid_fuel fuel rep true s1
      | w => take w s ++ to_valid_fuel fuel rep false (drop w s)
      end
  end.

Definition ToValidUTF8 (s rep : bytes) : bytes := to_valid_fuel (length s) rep false s.

(** The replacement character U+FFFD. *)
Definition replacement : bytes := [Byte.xef; Byte.xbf; Byte.xbd].

(** ** The truncation *)

Definition maxErrorMessageLength : nat := 1024.

(** [for len(t) > 0 && !utf8.ValidString(t) { t = t[:len(t)-1] }] with [t = s[:n]]. *)
Fixpoint trim_invalid (n : nat) (s : bytes) : bytes :=
  match n with
  | O => []
  | S n' => if ValidString (take n s) then take n s else trim_invalid n' s
  end.

Definition truncateErrorMsg (msg : bytes) : bytes :=
  if ValidString msg && (length msg <=? maxErrorMessageLength)%nat then msg
  else
    let msg := if ValidString msg then msg else ToValidUTF8 msg replacement in
    if (length msg <=? maxErrorMessageLength)%nat then msg
    else trim_invalid maxErrorMessageLength msg.

(** What a PostgreSQL TEXT column stores in a UTF-8 database: well-formed UTF-8
    without the zero byte. *)
Definition text_ok (s : bytes) : bool :=
  ValidString s && forallb (fun b => negb (byte_val b =? 0)) s.

Lemma text_ok_nul s : Byte.x00 ∈ s -> text_ok s = false.
Proof.
  intros Hs. unfold text_ok. apply andb_false_iff. right. apply not_true_iff_false.
  rewrite forallb_forall. intros Hf. by specialize (Hf _ (proj1 (list_elem_of_In _ _) Hs)).
Qed.

(** ** Well-formed strings, as sequences of runes *)

Inductive utf8 : bytes -> Prop :=
| utf8_nil : utf8 []
| utf8_rune r s : (0 < length r)%nat -> rune_width r = length r -> utf8 s -> utf8 (r ++ s).

Lemma rune_width_bound s : (rune_width s <= 4)%nat /\ (rune_width s <= length s)%nat.
Proof.
  unfold rune_width. destruct s as [|b0 [|b1 [|b2 [|b3 s]]]];
    repeat case_match; cbn; lia.
Qed.

Lemma rune_width_app r s : rune_width r <> 0%nat -> rune_width (r ++ s) = rune_width r.
Proof.
  unfold rune_width. intros H.
  destruct r as [|b0 [|b1 [|b2 [|b3 r]]]]; cbn [app] in *; [done|..];
    repeat (match goal with
            | |- context [if ?c then _ else _] => destruct c
            end; try done).
Qed.

Lemma rune_width_take s : rune_width (take (rune_width s) s) = rune_width s.
Proof.
  unfold rune_width. destruct s as [|b0 [|b1 [|b2 [|b3 s]]]]; [done|..];
    repeat match goal with
           | |- context [if ?c then _ else _] => destruct c eqn:?
           end; cbn [take]; try done;
    repeat match goal with H : _ = _ |- _ => rewrite H end; done.
Qed.

Lemma valid_fuel_utf8 n s : (length s <= n)%nat -> valid_fuel n s = true <-> utf8 s.
Proof.
  revert s. induction n as [|n IH]; intros s Hl.
  { destruct s; [|cbn in Hl; lia]. split; [constructor|done]. }
  destruct s as [|b s]; [split; [constructor|done]|].
  cbn [valid_fuel]. pose proof (rune_width_bound (b :: s)) as [_ Hb].
  destruct (rune_width (b :: s)) as [|w] eqn:Hw.
  - split; [done|]. intros Hu. inversion Hu as [|r t Hr Hrw Ht Heq].
    rewrite <-Heq, rune_width_app in Hw by lia. lia.
  - rewrite IH by (rewrite length_drop; lia). split.
    + intros Hu. rewrite <-(take_drop (S w) (b :: s)). apply utf8_rune; [..|done].
      * rewrite length_take. lia.
      * rewrite <-Hw at 1. rewrite rune_width_take, length_take. lia.
    + intros Hu. inversion Hu as [|r t Hr Hrw Ht Heq].
      rewrite <-Heq, rune_width_app in Hw by lia. rewrite <-Hw, Hrw, drop_app_length. done.
Qed.

Lemma ValidString_utf8 s : ValidString s = true <-> utf8 s.
Proof. by apply valid_fuel_utf8. Qed.

Lemma utf8_app s t : utf8 s -> utf8 t -> utf8 (s ++ t).
Proof. induction 1; [done|]. intros. rewrite <-(assoc_L (++)). apply utf8_rune; auto. Qed.

Lemma utf8_replacement : utf8 replacement.
Proof. apply ValidString_utf8. reflexivity. Qed.

Lemma to_valid_fuel_utf8 n rep b s : utf8 rep -> utf8 (to_valid_fuel n rep b s).
Proof.
  intros Hrep. revert b s. induction n as [|n IH]; intros b s; [destruct s; constructor|].
  destruct s as [|c s]; [constructor|]. cbn [to_valid_fuel].
  pose proof (rune_width_bound (c :: s)) as [_ Hb].
  destruct (rune_width (c :: s)) as [|w] eqn:Hw.
  - apply utf8_app; [destruct b; [constructor|done]|apply IH].
  - apply utf8_rune; [rewrite length_take; cbn in *; lia| |apply IH].
    rewrite <-Hw at 1. rewrite rune_width_take, length_take. lia.
Qed.

(** A prefix of a well-formed string becomes well formed again by dropping at most
    three bytes. *)
Lemma utf8_prefix s k :
  utf8 s -> (k <= length s)%nat -> exists j, (j <= 3)%nat /\ (j <= k)%nat /\ utf8 (take (k - j) s).
Proof.
  intros Hs. revert k. induction Hs as [|r s Hr Hw Hs IH]; intros k Hk.
  { exists 0%nat. rewrite take_nil. split_and!; [lia..|constructor]. }
  pose proof (rune_width_bound r) as [Hb _]. rewrite length_app in Hk.
  destruct (decide (k < length r)%nat).
  - exists k. rewrite Nat.sub_diag. split_and!; [lia..|constructor].
  - destruct (IH (k - length r)%nat) as (j & ? & ? & Hu); [lia|].
    exists j. split_and!; [lia..|]. rewrite take_app_ge by lia.
    replace (k - j - length r)%nat with (k - length r - j)%nat by lia. by apply utf8_rune.
Qed.

(** The loop keeps at least every well-formed prefix. *)
Lemma trim_invalid_max n m s :
  (m <= n)%nat -> utf8 (take m s) ->
  exists k, (m <= k <= n)%nat /\ trim_invalid n s = take k s /\ utf8 (take k s).
Proof.
  intros Hm Hu. induction n as [|n IH].
  { exists 0%nat. split_and!; [lia..|done|constructor]. }
  cbn [trim_invalid]. destruct (ValidString (take (S n) s)) eqn:Hv.
  - exists (S n). split_and!; [lia..|done|by apply ValidString_utf8].
  - destruct (decide (m = S n)) as [->|].
    { apply ValidString_utf8 in Hu. congruence. }
    destruct IH as (k & ? & ? & ?); [lia|]. exists k. split_and!; [lia..|done|done].
Qed.

Lemma no_zero_app (s t : bytes) :
  forallb (fun b => negb (byte_val b =? 0)) (s ++ t) =
  forallb (fun b => negb (byte_val b =? 0)) s && forallb (fun b => negb (byte_val b =? 0)) t.
Proof. apply forallb_app. Qed.

Lemma no_zero_take n (s : bytes) :
  forallb (fun b => negb (byte_val b =? 0)) s = true ->
  forallb (fun b => negb (byte_val b =? 0)) (take n s) = true.
Proof.
  rewrite <-(take_drop n s) at 1. rewrite no_zero_app. by intros [? _]%andb_true_iff.
Qed.

Lemma to_valid_fuel_no_zero n rep b s :
  forallb (fun b => negb (byte_val b =? 0)) rep = true ->
  forallb (fun b => negb (byte_val b =? 0)) s = true ->
  forallb (fun b => negb (byte_val b =? 0)) (to_valid_fuel n rep b s) = true.
Proof.
  intros Hrep. revert b s. induction n as [|n IH]; intros b s Hs; [by destruct s|].
  destruct s as [|c s]; [done|]. cbn [to_valid_fuel].
  destruct (rune_width (c :: s)) as [|w] eqn:Hw.
  - rewrite no_zero_app. cbn in Hs. apply andb_true_iff in Hs as [_ Hs].
    rewrite IH by done. destruct b; [done|by rewrite Hrep].
  - rewrite <-(take_drop (S w) (c :: s)), no_zero_app in Hs.
    apply andb_true_iff in Hs as [H1 H2]. rewrite no_zero_app, H1. by apply IH.
Qed.

(** What [truncateErrorMsg] returns: the message itself, or a well-formed prefix,
    at most three bytes short of the cap, of the sanitised message. *)
Lemma truncateErrorMsg_spec msg :
  let clean := if ValidString msg then msg else ToValidUTF8 msg replacement in
  utf8 clean /\
  exists k, truncateErrorMsg msg = take k clean /\ utf8 (take k clean) /\
    ((k = length clean /\ (length clean <= maxErrorMessageLength)%nat) \/
     (maxErrorMessageLength - 3 <= k <= maxErrorMessageLength)%nat /\ (k <= length clean)%nat).
Proof.
  intros clean. assert (utf8 clean) as Hc.
  { subst clean. destruct (ValidString msg) eqn:Hv; [by apply ValidString_utf8|].
    apply to_valid_fuel_utf8, utf8_replacement. }
  split; [done|].
  assert (truncateErrorMsg msg = if (length clean <=? maxErrorMessageLength)%nat then clean
    else trim_invalid maxErrorMessageLength clean) as ->.
  { unfold truncateErrorMsg. subst clean. destruct (ValidString msg); cbn [andb]; [|reflexivity].
    destruct (length msg <=? _)%nat; reflexivity. }
  destruct (Nat.leb_spec (length clean) maxErrorMessageLength) as [Hl|Hl].
  - exists (length clean). rewrite take_ge by lia. split_and!; [done..|]. by left.
  - destruct (utf8_prefix clean maxErrorMessageLength Hc) as (j & ? & ? & Hu); [lia|].
    destruct (trim_invalid_max maxErrorMessageLength (maxErrorMessageLength - j) clean)
      as (k & ? & -> & ?); [lia|done|].
    exists k. split_and!; [done..|]. right. lia.
Qed.

Lemma truncateErrorMsg_no_zero msg :
  forallb (fun b => negb (byte_val b =? 0)) msg = true ->
  forallb (fun b => negb (byte_val b =? 0)) (truncateErrorMsg msg) = true.
Proof.
  intros H. destruct (truncateErrorMsg_spec msg) as (_ & k & -> & _). apply no_zero_take.
  destruct (ValidString msg); [done|]. by apply to_valid_fuel_no_zero.
Qed.

Lemma truncateErrorMsg_valid msg : ValidString (truncateErrorMsg msg) = true.
Proof.
  destruct (truncateErrorMsg_spec msg) as (_ & k & -> & Hu & _). by apply ValidString_utf8.
Qed.

Lemma truncateErrorMsg_text_ok msg :
  forallb (fun b => negb (byte_val b =? 0)) msg = true -> text_ok (truncateErrorMsg msg) = true.
Proof.
  intros. unfold text_ok. by rewrite truncateErrorMsg_valid, truncateErrorMsg_no_zero.
Qed.

Lemma truncateErrorMsg_id msg :
  ValidString msg = true -> (length msg <= maxErrorMessageLength)%nat -> truncateErrorMsg msg = msg.
Proof. intros Hv Hl. unfold truncateErrorMsg. by rewrite Hv, (proj2 (Nat.leb_le _ _) Hl). Qed.

Lemma truncateErrorMsg_length msg :
  (length (truncateErrorMsg msg) <= maxErrorMessageLength)%nat.
Proof.
  destruct (truncateErrorMsg_spec msg) as (_ & k & -> & _ & Hk). rewrite length_take. lia.
Qed.

(** ** Properties *)

(** For any bytes, the stored error text is well-formed UTF-8 of at most 1024
    bytes; a message that already is comes back unchanged, so truncating twice is
    truncating once; and a longer well-formed message keeps its first 1021 bytes
    at least (only a split trailing rune is dropped). *)
Theorem truncateErrorMsg_correct (msg : bytes) :
  ValidString (truncateErrorMsg msg) = true /\
  (length (truncateErrorMsg msg) <= maxErrorMessageLength)%nat /\
  truncateErrorMsg (truncateErrorMsg msg) = truncateErrorMsg msg /\
  (ValidString msg && (length msg <=? maxErrorMessageLength)%nat = true ->
     truncateErrorMsg msg = msg) /\
  (ValidString msg && (maxErrorMessageLength <? length msg)%nat = true ->
     exists k, truncateErrorMsg msg = take k msg /\ (1021 <= k <= 1024)%nat).
Proof.
  pose proof (truncateErrorMsg_valid msg) as Hv. pose proof (truncateErrorMsg_length msg) as Hl.
  split_and!; [done..|by apply truncateErrorMsg_id| |].
  - intros [? ?%Nat.leb_le]%andb_true_iff. by apply truncateErrorMsg_id.
  - intros [Hm Hlen%Nat.ltb_lt]%andb_true_iff.
    destruct (truncateErrorMsg_spec msg) as (_ & k & Heq & _ & Hk). rewrite Hm in *.
    exists k. split; [done|]. unfold maxErrorMessageLength in *. lia.
Qed.

Lemma truncateErrorMsg_correct_witness :
  let msg := List.repeat Byte.x61 1023 ++ replacement in
  length (truncateErrorMsg msg) = 1023%nat /\
  truncateErrorMsg (truncateErrorMsg msg) = truncateErrorMsg msg /\
  exists k, truncateErrorMsg msg = take k msg /\ (1021 <= k <= 1024)%nat.
Proof.
  intros msg. destruct (truncateErrorMsg_correct msg) as (_ & _ & H & _ & H').
  split; [vm_compute; reflexivity|]. split; [exact H|]. apply H'. vm_compute. reflexivity.
Defined.
