(* ===== verification/MetadataCache.v ===== *)
(** * The metadata cache ([metadatacache.go])

    A bounded map from a queue's type and name to its physical table name, with a
    time to live.  The Go clock is an argument of each operation.  A Go map is
    iterated in an unspecified order; the order only decides which of several
    equally old entries an eviction drops. *)

From S2P Require Import Prelude Types.
From Stdlib Require Import ZArith Lia.
Local Open Scope Z_scope.

Definition metadataCacheTTL : Duration := 1 * minute.
Definition metadataCacheMaxEntries : nat := Z.to_nat 4096.

Record cachedQueueMeta := mkCachedQueueMeta {
  tableName : string;
  storedAt : Z
}.

Abbreviation metadataCache := (gmap string cachedQueueMeta) (only parsing).

Definition newMetadataCache : metadataCache := ∅.

Definition cache_key (queueType queueName : string) : string :=
  (queueType +:+ "/" +:+ queueName)%string.

(** [now.Sub(item.storedAt) > metadataCacheTTL] *)
Definition cache_expired (now : Z) (item : cachedQueueMeta) : bool :=
  metadataCacheTTL <? now - storedAt item.

Definition cache_get (now : Z) (queueType queueName : string) (mc : metadataCache) :
    option string * metadataCache :=
  let key := cache_key queueType queueName in
  match mc !! key with
  | None => (None, mc)
  | Some item =>
      if cache_expired now item then (None, delete key mc)
      else (Some (tableName item), mc)
  end.

Definition cache_sweep (now : Z) (mc : metadataCache) : metadataCache :=
  filter (fun kv => cache_expired now kv.2 = false) mc.

(** The scan for the oldest-stored entry: the first one not preceded by an older. *)
Definition oldest (l : list (string * cachedQueueMeta)) : option (string * Z) :=
  foldl (fun acc kv =>
    match acc with
    | None => Some (kv.1, storedAt kv.2)
    | Some (k, at_) => if storedAt kv.2 <? at_ then Some (kv.1, storedAt kv.2) else acc
    end) None l.

Definition evictLocked (now : Z) (mc : metadataCache) : metadataCache :=
  let mc' := cache_sweep now mc in
  if (size mc' <? size mc)%nat then mc'
  else
    match oldest (map_to_list mc') with
    | Some (k, _) => delete k mc'
    | None => mc'
    end.

Definition cache_set (now : Z) (queueType queueName table : string) (mc : metadataCache) :
    metadataCache :=
  let key := cache_key queueType queueName in
  let mc' :=
    match mc !! key with
    | None => if (metadataCacheMaxEntries <=? size mc)%nat then evictLocked now mc else mc
    | Some _ => mc
    end in
  <[key := mkCachedQueueMeta table now]> mc'.

Definition cache_invalidate (queueType queueName : string) (mc : metadataCache) : metadataCache :=
  delete (cache_key queueType queueName) mc.

(** ** Histories *)

Inductive cacheOp :=
| OpGet (queueType queueName : string)
| OpSet (queueType queueName table : string)
| OpInvalidate (queueType queueName : string)
| OpSweep.

Definition cache_op (now : Z) (op : cacheOp) (mc : metadataCache) : metadataCache :=
  match op with
  | OpGet t n => (cache_get now t n mc).2
  | OpSet t n tab => cache_set now t n tab mc
  | OpInvalidate t n => cache_invalidate t n mc
  | OpSweep => cache_sweep now mc
  end.

Definition cache_run (h : list (Z * cacheOp)) (mc : metadataCache) : metadataCache :=
  foldl (fun mc x => cache_op x.1 x.2 mc) mc h.

(** The specification: an unbounded map that remembers, for every key, the last
    [set] that no [invalidate] undid. *)
Definition spec_op (now : Z) (op : cacheOp) (m : metadataCache) : metadataCache :=
  match op with
  | OpGet _ _ | OpSweep => m
  | OpSet t n tab => <[cache_key t n := mkCachedQueueMeta tab now]> m
  | OpInvalidate t n => delete (cache_key t n) m
  end.

Definition spec_run (h : list (Z * cacheOp)) (m : metadataCache) : metadataCache :=
  foldl (fun m x => spec_op x.1 x.2 m) m h.

(** ** Lemmas *)

Lemma cache_sweep_subseteq now mc : cache_sweep now mc ⊆ mc.
Proof. apply map_filter_subseteq. Qed.

Lemma lookup_cache_sweep now mc k item :
  cache_sweep now mc !! k = Some item <-> mc !! k = Some item /\ cache_expired now item = false.
Proof. apply map_lookup_filter_Some. Qed.

Lemma cache_sweep_id now mc :
  (size mc <= size (cache_sweep now mc))%nat -> cache_sweep now mc = mc.
Proof.
  intros H. apply map_eq. intros k. pose proof (cache_sweep_subseteq now mc) as Hs.
  destruct (mc !! k) as [item|] eqn:Hk; [|eapply lookup_weaken_None; done].
  destruct (cache_expired now item) eqn:He; [|by apply lookup_cache_sweep].
  exfalso. assert (cache_sweep now mc ⊂ mc) as Hlt%map_subset_size.
  { split; [done|]. intros Hsup. eapply lookup_weaken in Hk; [|exact Hsup].
    apply lookup_cache_sweep in Hk as [_ ?]. congruence. }
  lia.
Qed.

(** The oldest entry is an entry of the list, and no entry is older. *)
Lemma oldest_spec l :
  match oldest l with
  | None => l = []
  | Some (k, at_) => (exists item, (k, item) ∈ l /\ storedAt item = at_) /\
      forall k' item', (k', item') ∈ l -> at_ <= storedAt item'
  end.
Proof.
  induction l as [|[k item] l IH] using rev_ind; [done|].
  unfold oldest in *. rewrite foldl_app. cbn.
  destruct (foldl _ None l) as [[k0 at0]|].
  - destruct IH as [(i0 & Hin & Hat) Hmin]. destruct (Z.ltb_spec (storedAt item) at0); split.
    + exists item. split; [apply elem_of_app; right; by left|done].
    + intros k' i'. rewrite elem_of_app, list_elem_of_singleton.
      intros [?%Hmin|[= -> ->]]; lia.
    + exists i0. split; [apply elem_of_app; by left|done].
    + intros k' i'. rewrite elem_of_app, list_elem_of_singleton.
      intros [?%Hmin|[= -> ->]]; lia.
  - subst l. cbn [app]. split.
    + exists item. split; [by left|done].
    + intros k' i'. rewrite list_elem_of_singleton. intros [= -> ->]. lia.
Qed.

Lemma evictLocked_subseteq now mc : evictLocked now mc ⊆ mc.
Proof.
  unfold evictLocked. pose proof (cache_sweep_subseteq now mc).
  destruct (_ <? _)%nat; [done|]. destruct (oldest _) as [[k at_]|]; [|done].
  etrans; [apply delete_subseteq|done].
Qed.

(** Eviction frees room, and drops a live entry only if no entry has expired, and
    then an oldest one. *)
Lemma evictLocked_spec now mc :
  (0 < size mc)%nat ->
  (size (evictLocked now mc) < size mc)%nat /\
  (evictLocked now mc = cache_sweep now mc \/
   exists k item, mc !! k = Some item /\ evictLocked now mc = delete k mc /\
     cache_sweep now mc = mc /\
     forall k' item', mc !! k' = Some item' -> storedAt item <= storedAt item').
Proof.
  intros H0. unfold evictLocked.
  destruct (Nat.ltb_spec (size (cache_sweep now mc)) (size mc)) as [|Hge]; [by split; [|left]|].
  rewrite (cache_sweep_id now mc) by done.
  pose proof (oldest_spec (map_to_list mc)) as Ho.
  destruct (oldest (map_to_list mc)) as [[k at_]|].
  - destruct Ho as [(item & Hin%elem_of_map_to_list & <-) Hmin]. split.
    + rewrite map_size_delete_Some by eauto. lia.
    + right. exists k, item. split_and!; [done..|].
      intros k' i' Hk'. eapply Hmin. by apply elem_of_map_to_list.
  - apply (f_equal length) in Ho. rewrite length_map_to_list in Ho. cbn in Ho. lia.
Qed.

Lemma cache_set_size now t n tab mc :
  (size mc <= metadataCacheMaxEntries)%nat ->
  (size (cache_set now t n tab mc) <= metadataCacheMaxEntries)%nat.
Proof.
  intros Hs. unfold cache_set. set (key := cache_key t n).
  destruct (mc !! key) as [it|] eqn:Hk.
  { rewrite map_size_insert_Some by eauto. done. }
  assert (0 < metadataCacheMaxEntries)%nat by (unfold metadataCacheMaxEntries; lia).
  destruct (Nat.leb_spec metadataCacheMaxEntries (size mc)).
  - destruct (evictLocked_spec now mc) as [Hlt _]; [lia|].
    rewrite map_size_insert. case_match; unfold id; lia.
  - rewrite map_size_insert_None by done. lia.
Qed.

Lemma cache_op_size now op mc :
  (size mc <= metadataCacheMaxEntries)%nat ->
  (size (cache_op now op mc) <= metadataCacheMaxEntries)%nat.
Proof.
  intros Hs. destruct op as [t n|t n tab|t n|]; cbn.
  - unfold cache_get. repeat case_match; cbn; [|done..].
    etrans; [apply map_subseteq_size, delete_subseteq|done].
  - by apply cache_set_size.
  - etrans; [apply map_subseteq_size, delete_subseteq|done].
  - etrans; [apply map_subseteq_size, cache_sweep_subseteq|done].
Qed.

Lemma cache_set_subseteq now t n tab mc m :
  mc ⊆ m ->
  cache_set now t n tab mc ⊆ <[cache_key t n := mkCachedQueueMeta tab now]> m.
Proof.
  intros Hs. unfold cache_set. apply insert_mono.
  destruct (mc !! cache_key t n); [done|]. destruct (_ <=? _)%nat; [|done].
  etrans; [apply evictLocked_subseteq|done].
Qed.

(** Every operation keeps the cache a part of the specification's map. *)
Lemma cache_op_refines now op mc m : mc ⊆ m -> cache_op now op mc ⊆ spec_op now op m.
Proof.
  intros Hs. destruct op as [t n|t n tab|t n|]; cbn.
  - unfold cache_get. repeat case_match; cbn; [|done..].
    etrans; [apply delete_subseteq|done].
  - by apply cache_set_subseteq.
  - by apply delete_mono.
  - etrans; [apply cache_sweep_subseteq|done].
Qed.

Lemma cache_run_refines h mc m :
  mc ⊆ m -> (size mc <= metadataCacheMaxEntries)%nat ->
  cache_run h mc ⊆ spec_run h m /\ (size (cache_run h mc) <= metadataCacheMaxEntries)%nat.
Proof.
  revert mc m. induction h as [|[now op] h IH]; intros mc m Hs Hn; [done|].
  cbn. apply IH; [by apply cache_op_refines|by apply cache_op_size].
Qed.

Lemma cache_get_hit now t n mc x :
  (cache_get now t n mc).1 = Some x <->
  exists item, mc !! cache_key t n = Some item /\ tableName item = x /\
    now - storedAt item <= metadataCacheTTL.
Proof.
  unfold cache_get, cache_expired. destruct (mc !! cache_key t n) as [item|]; cbn; [|naive_solver].
  destruct (Z.ltb_spec metadataCacheTTL (now - storedAt item)); cbn; split.
  - done.
  - intros (it & [= <-] & _ & ?). lia.
  - intros [= <-]. exists item. split_and!; [done..|lia].
  - intros (it & [= <-] & <- & _). done.
Qed.

Lemma cache_set_get now now' t n tab mc :
  now' - now <= metadataCacheTTL -> (cache_get now' t n (cache_set now t n tab mc)).1 = Some tab.
Proof.
  intros H. apply cache_get_hit. exists (mkCachedQueueMeta tab now).
  unfold cache_set. by rewrite lookup_insert_eq.
Qed.

(** ** Properties *)

(** Over any history of gets, sets, invalidations and sweeps from the empty
    cache, the cache refines an unbounded map of the last [set] per queue: it
    never holds more than 4096 entries, and a hit returns the table name of the
    last [set] of that queue, not invalidated since and at most one minute old. *)
Theorem metadata_cache_refines (h : list (Z * cacheOp)) :
  (size (cache_run h newMetadataCache) <= metadataCacheMaxEntries)%nat /\
  forall now t n x,
    (cache_get now t n (cache_run h newMetadataCache)).1 = Some x ->
    exists item, spec_run h ∅ !! cache_key t n = Some item /\ tableName item = x /\
      now - storedAt item <= metadataCacheTTL.
Proof.
  destruct (cache_run_refines h ∅ ∅) as [Hsub Hsz]; [done|vm_compute; lia|].
  split; [done|]. intros now t n x (item & Hi & ? & ?)%cache_get_hit.
  exists item. split; [by eapply lookup_weaken|done].
Qed.

Lemma metadata_cache_refines_witness :
  let h := [(0, OpSet "channel" "a" "t1"); (5, OpSet "channel" "a" "t2")] in
  (cache_get 7 "channel" "a" (cache_run h newMetadataCache)).1 = Some "t2"%string /\
  exists item, spec_run h ∅ !! cache_key "channel" "a" = Some item /\ tableName item = "t2" /\
      7 - storedAt item <= metadataCacheTTL.
Proof.
  intros h. split; [vm_compute; reflexivity|].
  apply (proj2 (metadata_cache_refines h)). vm_compute. reflexivity.
Defined.
