(* ===== verification/World.v ===== *)
(** * The process and its database

    The state a [Queue] handle works on (the database, the closed flag, the
    metadata cache, the UUID generator) and the operations of [database/sql] it
    uses: [withTx] of [pgqueue.go] and single autocommitted statements.  A method
    of [Queue] is a program of type [io A]. *)

From S2P Require Import Prelude Types Tx Uuid MetadataCache.
From Stdlib Require Import ZArith Lia Cantor.
Local Open Scope Z_scope.

(** ** What the server computes *)

(** [make_interval d] is the interval, in microseconds, of
    [make_interval(secs => $1)] at [d.Seconds()]. *)
Class Server := { make_interval : Duration -> Z }.

(** What the code relies on: intervals are ordered like the durations, and one of
    a microsecond or more is not rounded to nothing. *)
Class ServerLaws `{Server} : Prop := {
  make_interval_mono d d' : d <= d' -> make_interval d <= make_interval d';
  make_interval_zero : make_interval 0 = 0;
  make_interval_pos d : microsecond <= d -> 0 < make_interval d
}.

(** A server that truncates to the microsecond. *)
Definition truncating_server : Server := {| make_interval d := d / microsecond |}.

(** ** The process *)

Record world := mkWorld {
  w_db : DB;
  w_closed : bool;
  w_cache : gmap string cachedQueueMeta;
  w_uuid : uuidV7State;
  w_tick : nat
}.

Definition set_w_db (d : DB) (w : world) : world :=
  mkWorld d (w_closed w) (w_cache w) (w_uuid w) (w_tick w).
Definition set_w_cache (c : gmap string cachedQueueMeta) (w : world) : world :=
  mkWorld (w_db w) (w_closed w) c (w_uuid w) (w_tick w).
Definition set_w_uuid (u : uuidV7State) (w : world) : world :=
  mkWorld (w_db w) (w_closed w) (w_cache w) u (w_tick w).
Definition set_w_closed (b : bool) (w : world) : world :=
  mkWorld (w_db w) b (w_cache w) (w_uuid w) (w_tick w).
Definition w_next (w : world) : world :=
  mkWorld (w_db w) (w_closed w) (w_cache w) (w_uuid w) (Datatypes.S (w_tick w)).

(** The environment of every transaction, clock read and random draw to come. *)
Definition oracle : Type := nat -> env.

Definition io (A : Type) : Type := oracle -> world -> result A * world.

#[export] Instance io_ret : MRet io := fun A a _ w => (Ok a, w).
#[export] Instance io_bind : MBind io := fun A B f m o w =>
  match m o w with
  | (Ok a, w') => f a o w'
  | (Err x, w') => (Err x, w')
  end.

Definition fail {A} (x : err) : io A := fun _ w => (Err x, w).

(** [if err != nil { return f(err) }] *)
Definition map_err {A} (f : err -> err) (m : io A) : io A := fun o w =>
  match m o w with
  | (Err x, w') => (Err (f x), w')
  | r => r
  end.

(** The call's outcome as a value, for code that goes on after an error. *)
Definition try_io {A} (m : io A) : io (result A) := fun o w =>
  let '(r, w') := m o w in (Ok r, w').

Definition from_result {A} (r : result A) : io A := fun _ w => (r, w).

(** The environment of the next step. *)
Definition tick : io env := fun o w => (Ok (o (w_tick w)), w_next w).

(** [time.Now()] *)
Definition time_now : io Z := e ← tick; mret (e_time e).

Definition get_world : io world := fun _ w => (Ok w, w).
Definition put_cache (c : gmap string cachedQueueMeta) : io unit := fun _ w =>
  (Ok tt, set_w_cache c w).

(** [pq.withTx(ctx, fn)]: BEGIN, the body, COMMIT; any error of the body rolls back.  A
    COMMIT that returns an error may have gone through all the same. *)
Definition withTx {A} (fn : tx DB A) : io A := fun o w =>
  let e := o (w_tick w) in
  let w' := w_next w in
  match e_begin e with
  | Some d => (Err (ErrDriver d), w')
  | None =>
      match fn e 0%nat (Some (w_db w)) with
      | TErr x => (Err x, w')
      | TOk a _ None => (Err (ErrDriver failed_tx), w')
      | TOk a _ (Some d) =>
          match e_commit e with
          | Some (de, applied) =>
              (Err (ErrDriver de), if (applied : bool) then set_w_db d w' else w')
          | None => (Ok a, set_w_db d w')
          end
      end
  end.

(** [pq.db.QueryRowContext] and [pq.db.ExecContext]: one autocommitted statement, which
    can also fail after the server has applied it. *)
Definition autocommit {A} (m : tx DB A) : io A := withTx m.

(** [pq.checkClosed()] *)
Definition checkClosed : io unit := fun o w =>
  if w_closed w then (Err ErrQueueClosed, w) else (Ok tt, w).

(** [NewUUIDv7()] *)
Definition NewUUIDv7 : io uuid := fun o w =>
  let e := o (w_tick w) in
  let '(r, st) := newUUIDv7At (e_entropy e) (e_ms e) (w_uuid w) in
  (r, set_w_uuid st (w_next w)).

(** ** A server that does not fail *)

(** A transaction at [now] in which nothing fails, nothing is locked, uuidv7()
    mints distinct values from [base] on and the process clocks agree with the server's. *)
Definition calm_env (now : timestamp) (base : uuid) : env :=
  mkEnv now ∅ (fun n i => base + Z.of_nat (Cantor.to_nat (n, i))) (fun _ => None) None None
    (fun _ => S754_zero false) (fun _ => 0) (now * 1000) (fun _ => now / 1000)
    (Some [1; 2; 3; 4; 5; 6; 7; 8; 9; 10]).

(** One second passes between two steps of the process. *)
Definition calm_oracle : oracle := fun n =>
  calm_env (1000000 * Z.of_nat (Datatypes.S n)) (2 ^ 120 + 2 ^ 40 * Z.of_nat n).

Definition empty_DB : DB := mkDB ∅ ∅ ∅ ∅ ∅ [].
Definition new_world (d : DB) : world := mkWorld d false ∅ uuidV7State_init 0.

(** ** Weakest preconditions of programs *)

Definition iwp {A} (o : oracle) (w : world) (m : io A)
    (Q : A -> world -> Prop) (E : err -> world -> Prop) : Prop :=
  match m o w with
  | (Ok a, w') => Q a w'
  | (Err x, w') => E x w'
  end.
#[global] Arguments iwp : simpl never.

(** ** Lemmas *)

#[export] Instance truncating_server_laws : ServerLaws (H := truncating_server).
Proof.
  split; cbn; unfold microsecond.
  - intros d d' Hd. apply Z.div_le_mono; lia.
  - done.
  - intros d Hd. apply Z.div_str_pos. lia.
Qed.

Lemma calm_env_not_faulty now base : ~ faulty (calm_env now base).
Proof. intros [[d H]|[[d H]|(n & d & H)]]; discriminate H. Qed.

Lemma calm_gen_inj now base n n' i i' :
  e_gen (calm_env now base) n i = e_gen (calm_env now base) n' i' -> n = n' /\ i = i'.
Proof.
  cbn [calm_env e_gen]. intros Heq.
  assert (Cantor.to_nat (n, i) = Cantor.to_nat (n', i')) as Hp%Cantor.to_nat_inj by lia.
  by injection Hp.
Qed.

Section iwp_rules.
Context (o : oracle).
Implicit Types (w : world) (E : err -> world -> Prop).

Lemma iwp_ret {A} w (a : A) Q E : Q a w -> iwp o w (mret a) Q E.
Proof. done. Qed.

Lemma iwp_fail {A} w x (Q : A -> world -> Prop) E : E x w -> iwp o w (fail x) Q E.
Proof. done. Qed.

Lemma iwp_bind {A B} w (m : io A) (f : A -> io B) Q E :
  iwp o w m (fun a w' => iwp o w' (f a) Q E) E -> iwp o w (m ≫= f) Q E.
Proof. unfold iwp, mbind, io_bind. by destruct (m o w) as [[a|x] w']. Qed.

Lemma iwp_mono {A} w (m : io A) (Q Q' : A -> world -> Prop) E E' :
  iwp o w m Q E -> (forall a w', Q a w' -> Q' a w') -> (forall x w', E x w' -> E' x w') ->
  iwp o w m Q' E'.
Proof. unfold iwp. destruct (m o w) as [[a|x] w']; auto. Qed.

Lemma iwp_map_err {A} w f (m : io A) Q E :
  iwp o w m Q (fun x w' => E (f x) w') -> iwp o w (map_err f m) Q E.
Proof. unfold iwp, map_err. by destruct (m o w) as [[a|x] w']. Qed.

Lemma iwp_try {A} w (m : io A) (Q : result A -> world -> Prop) E :
  iwp o w m (fun a w' => Q (Ok a) w') (fun x w' => Q (Err x) w') -> iwp o w (try_io m) Q E.
Proof. unfold iwp, try_io. by destruct (m o w) as [[a|x] w']. Qed.

Lemma iwp_from_result {A} w (r : result A) Q E :
  match r with Ok a => Q a w | Err x => E x w end -> iwp o w (from_result r) Q E.
Proof. done. Qed.

Lemma iwp_tick w Q E : Q (o (w_tick w)) (w_next w) -> iwp o w tick Q E.
Proof. done. Qed.

Lemma iwp_time_now w Q E : Q (e_time (o (w_tick w))) (w_next w) -> iwp o w time_now Q E.
Proof. done. Qed.

Lemma iwp_get_world w Q E : Q w w -> iwp o w get_world Q E.
Proof. done. Qed.

Lemma iwp_put_cache w c Q E : Q tt (set_w_cache c w) -> iwp o w (put_cache c) Q E.
Proof. done. Qed.

(** A transaction commits the tables its body leaves, or fails; only a failing COMMIT
    can leave other tables than it found. *)
Lemma iwp_withTx {A} w (fn : tx DB A) (Q : A -> world -> Prop) E :
  let e := o (w_tick w) in
  (forall d, faulty e -> forall w', E (ErrDriver d) w') ->
  wp e 0 (Some (w_db w)) fn
    (fun a _ s => match s with
                | Some d => Q a (set_w_db d (w_next w))
                | None => E (ErrDriver failed_tx) (w_next w)
                end)
    (fun x => E x (w_next w)) ->
  iwp o w (withTx fn) Q E.
Proof.
  intros e HF H. unfold iwp, withTx. fold e. unfold faulty in HF.
  destruct (e_begin e) as [d|]; [apply HF; eauto|].
  unfold wp in H. destruct (fn e 0%nat _) as [a n [d|]|x]; [|done..].
  destruct (e_commit e) as [[d' b]|]; [apply HF; eauto|done].
Qed.

(** The same when failures are not ruled out: the postcondition of the body also says
    what holds when its COMMIT went through but was reported to have failed. *)
Lemma iwp_withTx_lossy {A} w (fn : tx DB A) (Q : A -> world -> Prop) E :
  let e := o (w_tick w) in
  (forall d, faulty e -> E (ErrDriver d) (w_next w)) ->
  wp e 0 (Some (w_db w)) fn
    (fun a _ s => match s with
                | Some d => Q a (set_w_db d (w_next w)) /\
                    forall de, e_commit e = Some (de, true) -> E (ErrDriver de) (set_w_db d (w_next w))
                | None => E (ErrDriver failed_tx) (w_next w)
                end)
    (fun x => E x (w_next w)) ->
  iwp o w (withTx fn) Q E.
Proof.
  intros e HF H. unfold iwp, withTx. fold e. unfold faulty in HF.
  destruct (e_begin e) as [d|]; [apply HF; eauto|].
  unfold wp in H. destruct (fn e 0%nat _) as [a n [d|]|x]; [|done..]. destruct H as [HQ HE].
  destruct (e_commit e) as [[d' []]|]; [by apply HE|apply HF; eauto|done].
Qed.

Lemma iwp_checkClosed w Q E :
  (w_closed w = true -> E ErrQueueClosed w) -> (w_closed w = false -> Q tt w) ->
  iwp o w checkClosed Q E.
Proof. unfold iwp, checkClosed. destruct (w_closed w); auto. Qed.

Lemma iwp_NewUUIDv7 w (Q : uuid -> world -> Prop) E :
  (forall u st, Q u (set_w_uuid st (w_next w))) -> E ErrRandom (w_next w) ->
  iwp o w NewUUIDv7 Q E.
Proof.
  intros HQ HE. unfold iwp, NewUUIDv7.
  destruct (newUUIDv7At _ _ _) as [[u|x] st] eqn:E1; [done|].
  apply newUUIDv7At_err in E1 as [-> ->]. by destruct w.
Qed.

End iwp_rules.

(** ** What a failed program leaves behind *)

(** The environment in which no answer to a COMMIT is lost. *)
Definition acknowledge (e : env) : env :=
  mkEnv (e_now e) (e_locked e) (e_gen e) (e_fault e) (e_begin e)
    (match e_commit e with Some (_, true) => None | c => c end)
    (e_rand e) (e_conv e) (e_time e) (e_ms e) (e_entropy e).
Definition acknowledged (o : oracle) : oracle := fun n => acknowledge (o n).
Definition answer_lost (o : oracle) : Prop := exists n de, e_commit (o n) = Some (de, true).

(** A run of [m] that fails leaves the database as it was; or the answer to a COMMIT was
    lost, and it leaves the world in which the run with that answer succeeds. *)
Definition all_or_nothing {A} (m : io A) : Prop :=
  forall o w x w', m o w = (Err x, w') ->
    w_db w' = w_db w \/ (answer_lost o /\ exists a, m (acknowledged o) w = (Ok a, w')).
(** No run of [m] changes the database. *)
Definition db_pure {A} (m : io A) : Prop :=
  forall o w r w', m o w = (r, w') -> w_db w' = w_db w.
(** [m] does the same when the answers that got lost do arrive, if it succeeds. *)
Definition steady {A} (m : io A) : Prop :=
  forall o w a w', m o w = (Ok a, w') -> m (acknowledged o) w = (Ok a, w').
(** A transaction body does not know how its COMMIT will be answered. *)
Definition blind {S A} (m : tx S A) : Prop := forall e n s, m (acknowledge e) n s = m e n s.

Lemma withTx_all_or_nothing {A} (fn : tx DB A) : blind fn -> all_or_nothing (withTx fn).
Proof.
  intros Hb o w x w'. unfold withTx at 1. destruct (e_begin _) eqn:Eb; [intros [= <- <-]; by left|].
  destruct (fn _ _ _) as [a n [d|]|y] eqn:Ef; [|intros [= <- <-]; by left..].
  destruct (e_commit _) as [[de []]|] eqn:Ec; [|intros [= <- <-]; by left|done].
  intros [= <- <-]. right. split; [by exists (w_tick w), de|]. exists a.
  unfold withTx, acknowledged. rewrite Hb, Ef. cbn. by rewrite Eb, Ec.
Qed.

Lemma withTx_steady {A} (fn : tx DB A) : blind fn -> steady (withTx fn).
Proof.
  intros Hb o w a w'. unfold withTx, acknowledged. rewrite Hb. cbn. destruct (e_begin _); [done|].
  destruct (fn _ _ _) as [a' n [d|]|y]; [|done..]. by destruct (e_commit _) as [[de []]|].
Qed.

Lemma db_pure_all_or_nothing {A} (m : io A) : db_pure m -> all_or_nothing m.
Proof. intros H o w x w' Hm. left. by eapply H. Qed.

Lemma bind_all_or_nothing {A B} (m : io A) (f : A -> io B) :
  db_pure m -> steady m -> (forall a, all_or_nothing (f a)) -> all_or_nothing (m ≫= f).
Proof.
  intros Hm Hs Hf o w x w'. unfold mbind, io_bind. destruct (m o w) as [[a|y] w1] eqn:E.
  - intros [Hx|[Hl [b Hb]]]%Hf; [left|right].
    + rewrite Hx. by eapply Hm.
    + split; [done|]. exists b. by rewrite (Hs _ _ _ _ E).
  - intros [= <- <-]. left. by eapply Hm.
Qed.

Lemma bind_ret_all_or_nothing {A B} (m : io A) (g : A -> B) :
  all_or_nothing m -> all_or_nothing (a ← m; mret (g a)).
Proof.
  intros Hm o w x w'. unfold mbind, io_bind. destruct (m o w) as [[a|y] w1] eqn:E; [done|].
  intros [= <- <-]. destruct (Hm _ _ _ _ E) as [?|[Hl [a Ha]]]; [by left|right].
  split; [done|]. exists (g a). by rewrite Ha.
Qed.

Lemma bind_steady {A B} (m : io A) (f : A -> io B) :
  steady m -> (forall a, steady (f a)) -> steady (m ≫= f).
Proof.
  intros Hm Hf o w b w'. unfold mbind, io_bind. destruct (m o w) as [[a|y] w1] eqn:E; [|done].
  intros Hb. rewrite (Hm _ _ _ _ E). by apply Hf.
Qed.

Lemma bind_db_pure {A B} (m : io A) (f : A -> io B) :
  db_pure m -> (forall a, db_pure (f a)) -> db_pure (m ≫= f).
Proof.
  intros Hm Hf o w r w'. unfold mbind, io_bind. destruct (m o w) as [[a|y] w1] eqn:E.
  - intros H. rewrite (Hf a o w1 r w' H). by eapply Hm.
  - intros [= <- <-]. by eapply Hm.
Qed.

Lemma ret_db_pure {A} (a : A) : db_pure (mret a).
Proof. intros o w r w' [= <- <-]. done. Qed.
Lemma fail_db_pure {A} x : db_pure (@fail A x).
Proof. intros o w r w' [= <- <-]. done. Qed.
Lemma from_result_db_pure {A} (r : result A) : db_pure (from_result r).
Proof. intros o w r' w' [= <- <-]. done. Qed.
Lemma tick_db_pure : db_pure tick.
Proof. intros o w r w' [= <- <-]. done. Qed.
Lemma time_now_db_pure : db_pure time_now.
Proof. intros o w r w' [= <- <-]. done. Qed.
Lemma get_world_db_pure : db_pure get_world.
Proof. intros o w r w' [= <- <-]. done. Qed.
Lemma put_cache_db_pure c : db_pure (put_cache c).
Proof. intros o w r w' [= <- <-]. done. Qed.
Lemma checkClosed_db_pure : db_pure checkClosed.
Proof. intros o w r w'. unfold checkClosed. case_match; intros [= <- <-]; done. Qed.
Lemma NewUUIDv7_db_pure : db_pure NewUUIDv7.
Proof. intros o w r w'. unfold NewUUIDv7. case_match; intros [= <- <-]; done. Qed.
Lemma map_err_db_pure {A} f (m : io A) : db_pure m -> db_pure (map_err f m).
Proof.
  intros Hm o w r w'. unfold map_err. destruct (m o w) as [[a|y] w1] eqn:E;
    intros [= <- <-]; by eapply Hm.
Qed.
Lemma ret_steady {A} (a : A) : steady (mret a).
Proof. by intros o w a' w'. Qed.
Lemma fail_steady {A} x : steady (@fail A x).
Proof. by intros o w a' w'. Qed.
Lemma from_result_steady {A} (r : result A) : steady (from_result r).
Proof. by intros o w a' w'. Qed.
Lemma checkClosed_steady : steady checkClosed.
Proof. by intros o w a' w'. Qed.
Lemma NewUUIDv7_steady : steady NewUUIDv7.
Proof. by intros o w a' w'. Qed.
Lemma query_steady {A} (f : DB -> result A) : steady (autocommit (query (fun _ => f))).
Proof. by apply withTx_steady. Qed.

(** *** Blind bodies *)

Lemma blind_ret {S A} (a : A) : blind (S := S) (mret a).
Proof. done. Qed.
Lemma blind_throw {S A} x : blind (S := S) (A := A) (throw x).
Proof. done. Qed.
Lemma blind_bind {S A B} (m : tx S A) (f : A -> tx S B) :
  blind m -> (forall a, blind (f a)) -> blind (m ≫= f).
Proof.
  intros Hm Hf e n s. unfold mbind, tx_bind. rewrite Hm. destruct (m e n s); [apply Hf|done].
Qed.
Lemma blind_stmt {S A} (f : env -> nat -> S -> result A * S) :
  (forall e n x, f (acknowledge e) n x = f e n x) -> blind (stmt f).
Proof. intros Hf e n s. unfold stmt. destruct s as [x|]; [|done]. by rewrite Hf. Qed.
Lemma blind_stmt_logged {S} (f : env -> nat -> S -> result unit * S) :
  (forall e n x, f (acknowledge e) n x = f e n x) -> blind (stmt_logged f).
Proof. intros Hf e n s. unfold stmt_logged. by rewrite (blind_stmt f Hf). Qed.
Lemma blind_zoom {S T A} (get : S -> option T) put (m : tx T A) : blind m -> blind (zoom get put m).
Proof.
  intros Hm e n s. unfold zoom. destruct s as [x|]; [|by rewrite Hm].
  destruct (get x) as [t|]; [|done]. by rewrite Hm.
Qed.
Lemma blind_for_each {S A} (f : A -> tx S unit) l : (forall x, blind (f x)) -> blind (for_each f l).
Proof.
  intros Hf. induction l as [|x l IH]; [apply blind_ret|]. apply blind_bind; [apply Hf|done].
Qed.

(** A statement that only reads. *)
Lemma query_db_pure {A} (f : env -> DB -> result A) : db_pure (autocommit (query f)).
Proof.
  intros o w r w'. unfold autocommit, withTx, query, stmt.
  destruct (e_begin _); [by intros [= <- <-]|]. destruct (e_fault _ _); [by intros [= <- <-]|].
  destruct (f _ _); [|by intros [= <- <-]]. destruct (e_commit _) as [[? []]|]; intros [= <- <-]; done.
Qed.

Create HintDb rollback.
#[export] Hint Resolve withTx_all_or_nothing ret_db_pure fail_db_pure from_result_db_pure
  tick_db_pure time_now_db_pure get_world_db_pure put_cache_db_pure checkClosed_db_pure
  NewUUIDv7_db_pure query_db_pure map_err_db_pure ret_steady fail_steady from_result_steady
  checkClosed_steady NewUUIDv7_steady query_steady blind_ret blind_throw : rollback.

(** [rollback] proves [all_or_nothing], [db_pure], [steady] and [blind] by following the
    program. *)
Ltac rollback :=
  repeat first
    [ progress intros
    | apply bind_db_pure | apply bind_all_or_nothing | apply bind_steady | apply blind_bind
    | solve [eauto with rollback]
    | solve [apply db_pure_all_or_nothing; eauto with rollback]
    | apply blind_stmt; done | apply blind_stmt_logged; done
    | apply blind_zoom | apply blind_for_each
    | match goal with
      | |- all_or_nothing (match ?x with _ => _ end) => destruct x
      | |- db_pure (match ?x with _ => _ end) => destruct x
      | |- steady (match ?x with _ => _ end) => destruct x
      | |- blind (match ?x with _ => _ end) => destruct x
      end ].

Ltac iwp_step :=
  match goal with
  | |- iwp _ _ (mret _) _ _ => apply iwp_ret
  | |- iwp _ _ (fail _) _ _ => apply iwp_fail
  | |- iwp _ _ (mbind _ _) _ _ => apply iwp_bind
  | |- iwp _ _ (map_err _ _) _ _ => apply iwp_map_err
  | |- iwp _ _ (try_io _) _ _ => apply iwp_try
  | |- iwp _ _ (from_result _) _ _ => apply iwp_from_result
  | |- iwp _ _ time_now _ _ => apply iwp_time_now
  | |- iwp _ _ get_world _ _ => apply iwp_get_world
  | |- iwp _ _ (put_cache _) _ _ => apply iwp_put_cache
  | |- iwp _ _ checkClosed _ _ => apply iwp_checkClosed
  end.
