(* ===== verification/Config.v ===== *)
(** * Configuration, options and names ([config.go], [options.go], [pgqueue.go])

    The functional options, how they resolve to a [queueConfig], what [New] and
    [InitSchema] reject, per-queue options, and the validation and sanitising of
    queue, subscriber and schema names. *)

From S2P Require Import Prelude Types Tx Backoff.
From Stdlib Require Import Ascii ZArith Lia.
Local Open Scope Z_scope.

(** ** Configuration ([config.go]) *)

Definition defaultSchemaName : string := "public".
Definition defaultMaxMessageSize : Z := 256 * 1024.
Definition MaxAllowedMessageSize : Z := 2 ^ 30.
Definition defaultMaxMetadataSize : Z := 16 * 1024.
Definition MaxAllowedMetadataSize : Z := 2 ^ 30.

Definition Option : Type := queueConfig -> queueConfig.

Definition WithMaxMessageSize (n : Z) : Option := fun c =>
  mkQueueConfig n (maxMetadataSize c) (defaultMaxRetries c) (maxRetriesSet c) (defaultTTL c)
    (maxQueues c) (schemaName c) (logger c) (tracer c) (metrics c) (backoffPolicy c)
    (backoffConfigured c) (safetyNetPoll c) (listener c) (maxSubscribersPerTopic c)
    (maxBatchBytes c).
Definition WithMaxMetadataSize (n : Z) : Option := fun c =>
  mkQueueConfig (maxMessageSize c) n (defaultMaxRetries c) (maxRetriesSet c) (defaultTTL c)
    (maxQueues c) (schemaName c) (logger c) (tracer c) (metrics c) (backoffPolicy c)
    (backoffConfigured c) (safetyNetPoll c) (listener c) (maxSubscribersPerTopic c)
    (maxBatchBytes c).
Definition WithDefaultMaxRetries (n : Z) : Option := fun c =>
  mkQueueConfig (maxMessageSize c) (maxMetadataSize c) n true (defaultTTL c) (maxQueues c)
    (schemaName c) (logger c) (tracer c) (metrics c) (backoffPolicy c) (backoffConfigured c)
    (safetyNetPoll c) (listener c) (maxSubscribersPerTopic c) (maxBatchBytes c).
Definition WithDefaultTTL (d : Duration) : Option := fun c =>
  mkQueueConfig (maxMessageSize c) (maxMetadataSize c) (defaultMaxRetries c) (maxRetriesSet c) d
    (maxQueues c) (schemaName c) (logger c) (tracer c) (metrics c) (backoffPolicy c)
    (backoffConfigured c) (safetyNetPoll c) (listener c) (maxSubscribersPerTopic c)
    (maxBatchBytes c).
Definition WithMaxQueues (n : Z) : Option := fun c =>
  mkQueueConfig (maxMessageSize c) (maxMetadataSize c) (defaultMaxRetries c) (maxRetriesSet c)
    (defaultTTL c) n (schemaName c) (logger c) (tracer c) (metrics c) (backoffPolicy c)
    (backoffConfigured c) (safetyNetPoll c) (listener c) (maxSubscribersPerTopic c)
    (maxBatchBytes c).
Definition WithMaxSubscribersPerTopic (n : Z) : Option := fun c =>
  mkQueueConfig (maxMessageSize c) (maxMetadataSize c) (defaultMaxRetries c) (maxRetriesSet c)
    (defaultTTL c) (maxQueues c) (schemaName c) (logger c) (tracer c) (metrics c)
    (backoffPolicy c) (backoffConfigured c) (safetyNetPoll c) (listener c) n (maxBatchBytes c).
Definition WithMaxBatchBytes (n : Z) : Option := fun c =>
  mkQueueConfig (maxMessageSize c) (maxMetadataSize c) (defaultMaxRetries c) (maxRetriesSet c)
    (defaultTTL c) (maxQueues c) (schemaName c) (logger c) (tracer c) (metrics c)
    (backoffPolicy c) (backoffConfigured c) (safetyNetPoll c) (listener c)
    (maxSubscribersPerTopic c) n.
Definition WithSchema (name : string) : Option := fun c =>
  mkQueueConfig (maxMessageSize c) (maxMetadataSize c) (defaultMaxRetries c) (maxRetriesSet c)
    (defaultTTL c) (maxQueues c) name (logger c) (tracer c) (metrics c) (backoffPolicy c)
    (backoffConfigured c) (safetyNetPoll c) (listener c) (maxSubscribersPerTopic c)
    (maxBatchBytes c).
Definition WithLogger (present : bool) : Option := fun c =>
  mkQueueConfig (maxMessageSize c) (maxMetadataSize c) (defaultMaxRetries c) (maxRetriesSet c)
    (defaultTTL c) (maxQueues c) (schemaName c) present (tracer c) (metrics c) (backoffPolicy c)
    (backoffConfigured c) (safetyNetPoll c) (listener c) (maxSubscribersPerTopic c)
    (maxBatchBytes c).
Definition WithTracer (present : bool) : Option := fun c =>
  mkQueueConfig (maxMessageSize c) (maxMetadataSize c) (defaultMaxRetries c) (maxRetriesSet c)
    (defaultTTL c) (maxQueues c) (schemaName c) (logger c) present (metrics c) (backoffPolicy c)
    (backoffConfigured c) (safetyNetPoll c) (listener c) (maxSubscribersPerTopic c)
    (maxBatchBytes c).
Definition WithMetrics (present : bool) : Option := fun c =>
  mkQueueConfig (maxMessageSize c) (maxMetadataSize c) (defaultMaxRetries c) (maxRetriesSet c)
    (defaultTTL c) (maxQueues c) (schemaName c) (logger c) (tracer c) present (backoffPolicy c)
    (backoffConfigured c) (safetyNetPoll c) (listener c) (maxSubscribersPerTopic c)
    (maxBatchBytes c).
Definition WithBackoffPolicy (p : BackoffPolicy) : Option := fun c =>
  mkQueueConfig (maxMessageSize c) (maxMetadataSize c) (defaultMaxRetries c) (maxRetriesSet c)
    (defaultTTL c) (maxQueues c) (schemaName c) (logger c) (tracer c) (metrics c) p true
    (safetyNetPoll c) (listener c) (maxSubscribersPerTopic c) (maxBatchBytes c).
Definition WithSafetyNetPoll (d : Duration) : Option := fun c =>
  mkQueueConfig (maxMessageSize c) (maxMetadataSize c) (defaultMaxRetries c) (maxRetriesSet c)
    (defaultTTL c) (maxQueues c) (schemaName c) (logger c) (tracer c) (metrics c)
    (backoffPolicy c) (backoffConfigured c) d (listener c) (maxSubscribersPerTopic c)
    (maxBatchBytes c).
Definition WithListener (present : bool) : Option := fun c =>
  mkQueueConfig (maxMessageSize c) (maxMetadataSize c) (defaultMaxRetries c) (maxRetriesSet c)
    (defaultTTL c) (maxQueues c) (schemaName c) (logger c) (tracer c) (metrics c)
    (backoffPolicy c) (backoffConfigured c) (safetyNetPoll c) present (maxSubscribersPerTopic c)
    (maxBatchBytes c).

Definition zero_backoff : BackoffPolicy := mkBackoffPolicy 0 0 (S754_zero false).
Definition zero_config : queueConfig :=
  mkQueueConfig 0 0 0 false 0 0 "" false false false zero_backoff false 0 false 0 0.

(** [for _, o := range opts { o(&c) }] *)
Definition apply_options (opts : list Option) (c : queueConfig) : queueConfig :=
  foldl (fun c o => o c) c opts.

Definition applyConfigOptions (opts : list Option) : queueConfig :=
  let c := apply_options opts zero_config in
  mkQueueConfig
    (if maxMessageSize c =? 0 then defaultMaxMessageSize else maxMessageSize c)
    (if maxMetadataSize c =? 0 then defaultMaxMetadataSize else maxMetadataSize c)
    (if negb (maxRetriesSet c) then 3 else defaultMaxRetries c)
    (maxRetriesSet c) (defaultTTL c) (maxQueues c)
    (if bool_decide (schemaName c = ""%string) then defaultSchemaName else schemaName c)
    (logger c) (tracer c) (metrics c) (normalized (backoffPolicy c)) (backoffConfigured c)
    (safetyNetPoll c) (listener c) (maxSubscribersPerTopic c) (maxBatchBytes c).

(** ** Per-call options ([options.go]) *)

Definition QueueOption : Type := channelOptions -> channelOptions.
Definition WithQueueMaxRetries (n : Z) : QueueOption := fun o =>
  mkChannelOptions (o_MaxMessageSize o) (o_MaxMetadataSize o) (o_TTL o) (o_TTLSet o) n true.
Definition WithQueueTTL (d : Duration) : QueueOption := fun o =>
  mkChannelOptions (o_MaxMessageSize o) (o_MaxMetadataSize o) d true (o_MaxRetries o)
    (o_MaxRetriesSet o).
Definition WithQueueMaxMessageSize (n : Z) : QueueOption := fun o =>
  mkChannelOptions n (o_MaxMetadataSize o) (o_TTL o) (o_TTLSet o) (o_MaxRetries o)
    (o_MaxRetriesSet o).
Definition WithQueueMaxMetadataSize (n : Z) : QueueOption := fun o =>
  mkChannelOptions (o_MaxMessageSize o) n (o_TTL o) (o_TTLSet o) (o_MaxRetries o)
    (o_MaxRetriesSet o).
Definition applyQueueOptions (opts : list QueueOption) : channelOptions :=
  foldl (fun o f => f o) (mkChannelOptions 0 0 0 false 0 false) opts.

(** [messageID] is [uuid.Nil] (0) and [metadata] is nil unless set. *)
Record publishOpts := mkPublishOpts {
  po_messageID : uuid;
  po_metadata : option jmap
}.
Definition PublishOption : Type := publishOpts -> publishOpts.
Definition WithMessageID (id : uuid) : PublishOption := fun o => mkPublishOpts id (po_metadata o).
Definition WithMessageMetadata (m : option jmap) : PublishOption := fun o =>
  mkPublishOpts (po_messageID o) m.
Definition applyPublishOptions (opts : list PublishOption) : publishOpts :=
  foldl (fun o f => f o) (mkPublishOpts 0 None) opts.

Record consumeOpts := mkConsumeOpts {
  co_visibilityTimeout : Duration;
  co_concurrency : Z;
  co_pollInterval : Duration
}.
Definition ConsumeOption : Type := consumeOpts -> consumeOpts.
Definition WithVisibilityTimeout (d : Duration) : ConsumeOption := fun o =>
  mkConsumeOpts d (co_concurrency o) (co_pollInterval o).
Definition WithConcurrency (n : Z) : ConsumeOption := fun o =>
  mkConsumeOpts (co_visibilityTimeout o) n (co_pollInterval o).
Definition WithPollInterval (d : Duration) : ConsumeOption := fun o =>
  mkConsumeOpts (co_visibilityTimeout o) (co_concurrency o) d.
Definition defaultVisibilityTimeout : Duration := 30 * second.
Definition applyConsumeOptions (opts : list ConsumeOption) : consumeOpts :=
  foldl (fun o f => f o) (mkConsumeOpts defaultVisibilityTimeout 0 0) opts.

Definition NackOption : Type := Duration -> Duration.
Definition WithRetryDelay (d : Duration) : NackOption := fun _ => d.
(** [o := nackOpts{}; for _, fn := range opts { fn(&o) }; o.retryDelay] *)
Definition resolveNackRetryDelay (opts : list NackOption) : Duration :=
  foldl (fun o f => f o) 0 opts.

(** ** Names ([pgqueue.go]) *)

Definition char_in (lo hi : Ascii.ascii) (c : Ascii.ascii) : bool :=
  (Ascii.N_of_ascii lo <=? Ascii.N_of_ascii c)%N && (Ascii.N_of_ascii c <=? Ascii.N_of_ascii hi)%N.
Definition is_upper : Ascii.ascii -> bool := char_in "A"%char "Z"%char.
Definition is_lower : Ascii.ascii -> bool := char_in "a"%char "z"%char.
Definition is_digit : Ascii.ascii -> bool := char_in "0"%char "9"%char.
Definition is_char (x c : Ascii.ascii) : bool := Ascii.eqb x c.

Definition is_name_char (c : Ascii.ascii) : bool :=
  is_lower c || is_upper c || is_digit c || is_char "_"%char c || is_char "-"%char c.

(** [^[a-zA-Z0-9_-]+$] *)
Definition queueNameRegex (s : string) : bool :=
  negb (String.length s =? 0)%nat &&
  forallb is_name_char (String.list_ascii_of_string s).

(** [^[a-zA-Z_][a-zA-Z0-9_]*$] *)
Definition schemaNameRegex (s : string) : bool :=
  match String.list_ascii_of_string s with
  | [] => false
  | c :: cs =>
      (is_lower c || is_upper c || is_char "_"%char c) &&
      forallb (fun c => is_lower c || is_upper c || is_digit c || is_char "_"%char c) cs
  end.

Definition maxQueueNameLength : nat := 28.
Definition maxSubscriberIDLength : nat := 128.
Definition maxSchemaNameLength : nat := 63.

Definition validateQueueName (name : string) : result unit :=
  if (String.length name =? 0)%nat || (maxQueueNameLength <? String.length name)%nat
  then Err ErrInvalidQueueName
  else if negb (queueNameRegex name) then Err ErrInvalidQueueName
  else Ok tt.

Definition validateSubscriberID (id : string) : result unit :=
  if (String.length id =? 0)%nat || (maxSubscriberIDLength <? String.length id)%nat ||
     negb (queueNameRegex id)
  then Err ErrInvalidSubscriberID else Ok tt.

Definition validateSchemaName (name : string) : result unit :=
  if (String.length name =? 0)%nat || (maxSchemaNameLength <? String.length name)%nat ||
     negb (schemaNameRegex name)
  then Err ErrInvalidConfig else Ok tt.

(** [strings.ToLower(strings.ReplaceAll(name, "-", "_"))] on ASCII letters; names
    reach it validated, so they hold no other letters. *)
Definition sanitize_char (c : Ascii.ascii) : Ascii.ascii :=
  if is_char "-"%char c then "_"%char
  else if is_upper c then Ascii.ascii_of_N (Ascii.N_of_ascii c + 32) else c.
Definition sanitizeTableName (name : string) : string :=
  String.string_of_list_ascii (map sanitize_char (String.list_ascii_of_string name)).

(** PostgreSQL folds the ASCII letters of an unquoted identifier to lower case. *)
Definition fold_identifier (s : string) : string :=
  String.string_of_list_ascii
    (map (fun c => if is_upper c then Ascii.ascii_of_N (Ascii.N_of_ascii c + 32) else c)
       (String.list_ascii_of_string s)).

Definition schemaTablePrefix (schema : string) : string :=
  if bool_decide (schema = ""%string) || bool_decide (schema = defaultSchemaName) then ""
  else schema +:+ ".".
Definition tablePrefix (cfg : queueConfig) : string := schemaTablePrefix (schemaName cfg).
Definition msgTable (cfg : queueConfig) (t : string) : string :=
  tablePrefix cfg +:+ "pgqueue_msg_" +:+ t.
Definition dlqTable (cfg : queueConfig) (t : string) : string :=
  tablePrefix cfg +:+ "pgqueue_dlq_" +:+ t.
Definition subTable (cfg : queueConfig) (t : string) : string :=
  tablePrefix cfg +:+ "pgqueue_sub_" +:+ t.
Definition globalTable (cfg : queueConfig) (name : string) : string := tablePrefix cfg +:+ name.

(** ** Validation ([pgqueue.go]) *)

Definition validateMaxMessageSize (n : Z) : result unit :=
  if (n <? 0) || (MaxAllowedMessageSize <? n) then Err ErrInvalidConfig else Ok tt.
Definition validateMaxMetadataSize (n : Z) : result unit :=
  if (n <? 0) || (MaxAllowedMetadataSize <? n) then Err ErrInvalidConfig else Ok tt.
Definition validateMaxRetries (n : Z) : result unit :=
  if n <? 0 then Err ErrInvalidConfig else Ok tt.

Definition validateResolvedConfig (cfg : queueConfig) : result unit :=
  validateMaxMessageSize (maxMessageSize cfg) ;;
  validateMaxMetadataSize (maxMetadataSize cfg) ;;
  if (defaultMaxRetries cfg <? 0) || (defaultTTL cfg <? 0) || (maxQueues cfg <? 0)
  then Err ErrInvalidConfig
  else validateSchemaName (schemaName cfg).

Definition validateBackoffPolicy (p : BackoffPolicy) : result unit :=
  if (BaseDelay p <? 0) || (MaxDelay p <? 0) then Err ErrInvalidConfig
  else if negb (SFeqb (Multiplier p) (S754_zero false)) &&
          SFltb (Multiplier p) (float64_of_int 1) then Err ErrInvalidConfig
  else if (0 <? BaseDelay p) && (0 <? MaxDelay p) && (MaxDelay p <? BaseDelay p)
  then Err ErrInvalidConfig
  else Ok tt.

Definition validateRawOptions (opts : list Option) : result unit :=
  let raw := apply_options opts zero_config in
  if safetyNetPoll raw <? 0 then Err ErrInvalidConfig
  else validateBackoffPolicy (backoffPolicy raw).

Definition onlySchemaOrLoggerOption (opts : list Option) : bool :=
  let probe := apply_options opts zero_config in
  negb (negb (maxMessageSize probe =? 0) || negb (maxMetadataSize probe =? 0) ||
        negb (defaultMaxRetries probe =? 0) || maxRetriesSet probe ||
        negb (defaultTTL probe =? 0) || negb (maxQueues probe =? 0) ||
        negb (safetyNetPoll probe =? 0) || backoffConfigured probe ||
        tracer probe || metrics probe || listener probe).

(** The configuration [New] builds its [Queue] with, before it contacts the
    database. *)
Definition New_config (opts : list Option) : result queueConfig :=
  validateRawOptions opts ;;
  let cfg := applyConfigOptions opts in
  validateResolvedConfig cfg ;;
  Ok cfg.

(** The option checks of [InitSchema]; the schema it then migrates. *)
Definition InitSchema_config (opts : list Option) : result string :=
  if negb (onlySchemaOrLoggerOption opts) then Err ErrInvalidConfig
  else
    let cfg := applyConfigOptions opts in
    validateSchemaName (schemaName cfg) ;;
    Ok (schemaName cfg).

Definition SchemaVersion : Z := 1.

(** [checkSchemaReady] at the version read from the database. *)
Definition checkSchemaReady (schemaVer : Z) : result unit :=
  if schemaVer =? 0 then Err ErrSchemaNotInitialized
  else if schemaVer <? SchemaVersion then Err ErrSchemaOutdated
  else if SchemaVersion <? schemaVer then Err ErrSchemaTooNew
  else Ok tt.

Definition minPGVersionNum : Z := 180000.

(** The version comparison of [checkDBReady]. *)
Definition checkPGVersion (versionNum : Z) : result unit :=
  if versionNum <? minPGVersionNum then Err ErrUnsupportedPGVersion else Ok tt.

(** ** Lemmas *)

Definition is_table_char (c : Ascii.ascii) : bool :=
  is_lower c || is_digit c || is_char "_"%char c.

(** A check over the 256 characters. *)
Lemma all_ascii (P : Ascii.ascii -> bool) :
  forallb (fun n => P (Ascii.ascii_of_nat n)) (seq 0 256) = true -> forall c, P c = true.
Proof.
  intros H c. rewrite forallb_forall in H.
  rewrite <-(Ascii.ascii_nat_embedding c). apply H, in_seq.
  pose proof (Ascii.nat_ascii_bounded c). lia.
Qed.

Lemma sanitize_char_table c : is_name_char c = true -> is_table_char (sanitize_char c) = true.
Proof.
  intros H. pose proof (all_ascii (fun c => implb (is_name_char c)
    (is_table_char (sanitize_char c))) ltac:(vm_compute; reflexivity) c) as Hc.
  cbn in Hc. by rewrite H in Hc.
Qed.

Lemma sanitize_char_id c : is_table_char c = true -> sanitize_char c = c.
Proof.
  intros H. pose proof (all_ascii (fun c => implb (is_table_char c)
    (Ascii.eqb (sanitize_char c) c)) ltac:(vm_compute; reflexivity) c) as Hc.
  cbn in Hc. rewrite H in Hc. by apply Ascii.eqb_eq.
Qed.

Lemma list_ascii_sanitize name :
  String.list_ascii_of_string (sanitizeTableName name) =
  map sanitize_char (String.list_ascii_of_string name).
Proof. apply String.list_ascii_of_string_of_list_ascii. Qed.

Lemma string_length_list s : String.length s = length (String.list_ascii_of_string s).
Proof. induction s as [|c s IH]; [done|]. cbn. by rewrite IH. Qed.

Lemma string_app_length s t : String.length (s +:+ t) = (String.length s + String.length t)%nat.
Proof. induction s as [|c s IH]; [done|]. exact (f_equal S IH). Qed.

Lemma string_app_inj_l p s t : p +:+ s = p +:+ t -> s = t.
Proof. induction p as [|c p IH]; [done|]. intros [= H]. by apply IH. Qed.

Lemma validateQueueName_ok name :
  validateQueueName name = Ok tt <->
  (1 <= String.length name <= 28)%nat /\
  Forall (fun c => is_name_char c = true) (String.list_ascii_of_string name).
Proof.
  unfold validateQueueName, queueNameRegex, maxQueueNameLength. rewrite List.Forall_forall.
  destruct (Nat.eqb_spec (String.length name) 0); cbn [orb negb andb]; [split; [done|lia]|].
  destruct (Nat.ltb_spec 28 (String.length name)); cbn [orb negb andb]; [split; [done|lia]|].
  rewrite <-forallb_forall.
  destruct (forallb is_name_char _); cbn [negb]; split; try done; [split; [lia|done]|].
  by intros [_ ?].
Qed.

Lemma sanitize_length name : String.length (sanitizeTableName name) = String.length name.
Proof. rewrite !string_length_list, list_ascii_sanitize. apply length_map. Qed.

Lemma sanitize_charset name :
  validateQueueName name = Ok tt ->
  Forall (fun c => is_table_char c = true)
    (String.list_ascii_of_string (sanitizeTableName name)).
Proof.
  intros [_ H]%validateQueueName_ok. rewrite list_ascii_sanitize.
  apply List.Forall_map. eapply List.Forall_impl; [|exact H]. intros c. apply sanitize_char_table.
Qed.

Lemma sanitize_idem name :
  validateQueueName name = Ok tt ->
  sanitizeTableName (sanitizeTableName name) = sanitizeTableName name.
Proof.
  intros H%sanitize_charset. unfold sanitizeTableName at 1.
  rewrite (List.map_ext_Forall _ id).
  - rewrite List.map_id. apply String.string_of_list_ascii_of_string.
  - eapply List.Forall_impl; [|exact H]. intros c. apply sanitize_char_id.
Qed.

(** A resolved configuration [New] accepts. *)
Record config_wf (cfg : queueConfig) : Prop := {
  cw_message : 0 < maxMessageSize cfg <= MaxAllowedMessageSize;
  cw_metadata : 0 < maxMetadataSize cfg <= MaxAllowedMetadataSize;
  cw_retries : 0 <= defaultMaxRetries cfg;
  cw_ttl : 0 <= defaultTTL cfg;
  cw_queues : 0 <= maxQueues cfg;
  cw_poll : 0 <= safetyNetPoll cfg;
  cw_backoff : policy_wf (backoffPolicy cfg);
  cw_schema : validateSchemaName (schemaName cfg) = Ok tt
}.

Lemma New_config_wf opts cfg : New_config opts = Ok cfg -> config_wf cfg.
Proof.
  unfold New_config, validateRawOptions, validateResolvedConfig, validateMaxMessageSize,
    validateMaxMetadataSize, mbind, result_bind.
  set (raw := apply_options opts zero_config).
  set (c := applyConfigOptions opts).
  destruct (Z.ltb_spec (safetyNetPoll raw) 0); [done|].
  destruct (validateBackoffPolicy _); [|done].
  assert (maxMessageSize c <> 0 /\ maxMetadataSize c <> 0) as [Hm Hd].
  { unfold c, applyConfigOptions. cbn [maxMessageSize maxMetadataSize]. fold raw.
    unfold defaultMaxMessageSize, defaultMaxMetadataSize.
    destruct (Z.eqb_spec (maxMessageSize raw) 0), (Z.eqb_spec (maxMetadataSize raw) 0); lia. }
  destruct (Z.ltb_spec (maxMessageSize c) 0), (Z.ltb_spec MaxAllowedMessageSize (maxMessageSize c));
    cbn [orb]; try done.
  destruct (Z.ltb_spec (maxMetadataSize c) 0),
    (Z.ltb_spec MaxAllowedMetadataSize (maxMetadataSize c)); cbn [orb]; try done.
  destruct (Z.ltb_spec (defaultMaxRetries c) 0), (Z.ltb_spec (defaultTTL c) 0),
    (Z.ltb_spec (maxQueues c) 0); cbn [orb]; try done.
  destruct (validateSchemaName (schemaName c)) as [[]|] eqn:Hs; [|done]. intros [= <-].
  assert (safetyNetPoll c = safetyNetPoll raw) by reflexivity.
  split; try lia; [|done]. apply normalized_wf.
Qed.

(** ** Properties *)

(** Whatever options [New] is given, a configuration it accepts is well
    formed: size caps positive and within PostgreSQL's limits, non-negative
    retries, TTL, queue cap and poll, a usable backoff policy and a schema name
    safe to interpolate; and an explicit [WithDefaultMaxRetries(0)] given last is
    kept as 0 instead of becoming the default 3. *)
Theorem New_config_sound (opts : list Option) (cfg : queueConfig) :
  New_config opts = Ok cfg ->
  config_wf cfg /\
  (forall opts' n, opts = opts' ++ [WithDefaultMaxRetries n] -> defaultMaxRetries cfg = n).
Proof.
  intros H. split; [by eapply New_config_wf|]. intros opts' n ->.
  unfold New_config, mbind, result_bind in H. destruct (validateRawOptions _); [|done].
  destruct (validateResolvedConfig _); [|done]. injection H as <-.
  unfold applyConfigOptions, apply_options. by rewrite foldl_app.
Qed.

Lemma New_config_sound_witness :
  exists cfg, New_config [WithSchema "jobs"; WithDefaultMaxRetries 0] = Ok cfg /\ config_wf cfg /\
    defaultMaxRetries cfg = 0.
Proof.
  eexists. split; [vm_compute; reflexivity|]. split.
  - apply (New_config_sound [WithSchema "jobs"; WithDefaultMaxRetries 0]). vm_compute. reflexivity.
  - apply (proj2 (New_config_sound [WithSchema "jobs"; WithDefaultMaxRetries 0] _ eq_refl)
      [WithSchema "jobs"] 0). reflexivity.
Defined.

(** The longest name PostgreSQL keeps without truncation. *)
Definition pg_identifier_max : nat := 63.

(** For a valid queue name the physical table name keeps to [a-z0-9_] (the
    charset the metadata table checks), has the same length and is a fixed point
    of sanitising; the longest per-queue index name fits PostgreSQL's 63 bytes, so
    no two queues' indexes are truncated to one name; and two queues share a
    message table exactly when their sanitised names are equal. *)
Theorem queue_table_names_safe (cfg : queueConfig) (name name' : string) :
  validateQueueName name = Ok tt -> validateQueueName name' = Ok tt ->
  Forall (fun c => is_table_char c = true)
    (String.list_ascii_of_string (sanitizeTableName name)) /\
  sanitizeTableName (sanitizeTableName name) = sanitizeTableName name /\
  (String.length ("idx_pgqueue_sub_" +:+ sanitizeTableName name +:+ "_consumable_timeout")
     <= pg_identifier_max)%nat /\
  (msgTable cfg (sanitizeTableName name) = msgTable cfg (sanitizeTableName name') <->
   sanitizeTableName name = sanitizeTableName name').
Proof.
  intros Hn Hn'. split_and!; [by apply sanitize_charset|by apply sanitize_idem| |].
  - apply validateQueueName_ok in Hn as [Hl _]. rewrite !string_app_length, sanitize_length.
    unfold pg_identifier_max. cbn [String.length]. lia.
  - unfold msgTable. split; [|congruence]. intros H. by do 2 apply string_app_inj_l in H.
Qed.

Lemma queue_table_names_safe_witness :
  sanitizeTableName "My-Jobs" = "my_jobs"%string /\
  (msgTable zero_config (sanitizeTableName "My-Jobs") =
     msgTable zero_config (sanitizeTableName "my_jobs") <->
   sanitizeTableName "My-Jobs" = sanitizeTableName "my_jobs").
Proof.
  split; [reflexivity|].
  apply (queue_table_names_safe zero_config "My-Jobs" "my_jobs"); reflexivity.
Defined.

(** [InitSchema] rejects every option list that changes one of the fields it
    probes, but it accepts [WithMaxSubscribersPerTopic] and [WithMaxBatchBytes]
    although it documents that every option other than [WithSchema] and
    [WithLogger] is rejected. *)
Theorem InitSchema_accepts_inapplicable_options (n : Z) :
  InitSchema_config [WithMaxSubscribersPerTopic n] = Ok "public"%string /\
  InitSchema_config [WithMaxBatchBytes n] = Ok "public"%string /\
  InitSchema_config [WithMaxQueues 1] = Err ErrInvalidConfig /\
  InitSchema_config [WithDefaultMaxRetries n] = Err ErrInvalidConfig.
Proof.
  split_and!; [reflexivity..|]. unfold InitSchema_config, onlySchemaOrLoggerOption. cbn.
  by rewrite !orb_true_r.
Qed.
