(* ===== verification/Fake.v ===== *)
(** * The in-memory test double ([fake/fake.go])

    [fake.Queue] implements the published interfaces on maps and slices instead of
    PostgreSQL tables.  Its operations hold a mutex, so each is one step on the state.
    Message and claim ids come from the generator of [uuid.go].  Entries are handled
    through pointers in Go, but each lives in one place at a time and consumers get
    copies, so the model holds them by value. *)

From S2P Require Import Prelude Types Tx Uuid Config.
From Stdlib Require Import ZArith Lia.
Local Open Scope Z_scope.

(** ** Data *)

Definition defaultMaxRetries : Z := 3.

Record entry := mkEntry {
  id : uuid;
  claimID : uuid;
  payload : bytes;
  metadata : option jmap;
  status : MessageStatus;
  retryCount : Z
}.

Record channel := mkChannel {
  paused : bool;
  pending : list entry;
  claimed : gmap Z entry;
  dlq : list entry
}.

Record topic := mkTopic {
  t_paused : bool;
  subs : gmap string channel
}.

Record Queue := mkQueue {
  maxRetries : Z;
  channels : gmap string channel;
  topics : gmap string topic
}.

Definition newChannel : channel := mkChannel false [] ∅ [].
Definition newTopic : topic := mkTopic false ∅.

Definition set_pending (p : list entry) (c : channel) : channel :=
  mkChannel (paused c) p (claimed c) (dlq c).
Definition set_claimed (m : gmap Z entry) (c : channel) : channel :=
  mkChannel (paused c) (pending c) m (dlq c).
Definition set_channels (m : gmap string channel) (q : Queue) : Queue :=
  mkQueue (maxRetries q) m (topics q).
Definition set_topics (m : gmap string topic) (q : Queue) : Queue :=
  mkQueue (maxRetries q) (channels q) m.

Definition hasMessage (c : channel) (i : uuid) : bool :=
  existsb (fun e => id e =? i) (pending c) ||
  match claimed c !! i with Some _ => true | None => false end ||
  existsb (fun e => id e =? i) (dlq c).

(** ** The process *)

(** What one call draws: ten random bytes, the clock, and whether the context is
    done when a loop looks. *)
Record draw := mkDraw {
  dr_entropy : option (list Z);
  dr_clock : nat -> Z;
  dr_done : bool
}.

Record fstate := mkFstate {
  f_queue : Queue;
  f_gen : uuidV7State;
  f_tick : nat
}.

(** A method of the double: the draws to come, the state before, the outcome. *)
Definition fake (A : Type) : Type := (nat -> draw) -> fstate -> result A * fstate.

#[export] Instance fake_ret : MRet fake := fun A a _ s => (Ok a, s).
#[export] Instance fake_bind : MBind fake := fun A B f m o s =>
  match m o s with
  | (Ok a, s') => f a o s'
  | (Err x, s') => (Err x, s')
  end.
Definition ffail {A} (x : err) : fake A := fun _ s => (Err x, s).
Definition get : fake Queue := fun _ s => (Ok (f_queue s), s).
Definition put (q : Queue) : fake unit := fun _ s => (Ok tt, mkFstate q (f_gen s) (f_tick s)).

(** [pgqueue.NewUUIDv7()] *)
Definition newID : fake uuid := fun o s =>
  let d := o (f_tick s) in
  let '(r, g) := newUUIDv7At (dr_entropy d) (dr_clock d) (f_gen s) in
  (r, mkFstate (f_queue s) g (S (f_tick s))).

(** [<-ctx.Done()] in a select with a default. *)
Definition ctx_done : fake bool := fun o s =>
  (Ok (dr_done (o (f_tick s))), mkFstate (f_queue s) (f_gen s) (S (f_tick s))).

(** ** Construction *)

Definition Option_ : Type := Queue -> Queue.

Definition WithMaxRetries (n : Z) : Option_ := fun q =>
  if 0 <=? n then mkQueue n (channels q) (topics q) else q.

Definition New (opts : list Option_) : Queue :=
  foldl (fun q o => o q) (mkQueue defaultMaxRetries ∅ ∅) opts.

Definition CreateChannel (name : string) : fake unit :=
  q ← get;
  match channels q !! name with
  | Some _ => mret tt
  | None => put (set_channels (<[name := newChannel]> (channels q)) q)
  end.

Definition CreateTopic (name : string) : fake unit :=
  q ← get;
  match topics q !! name with
  | Some _ => mret tt
  | None => put (set_topics (<[name := newTopic]> (topics q)) q)
  end.

Definition Subscribe (topicName subscriberID : string) : fake unit :=
  q ← get;
  let t := default newTopic (topics q !! topicName) in
  let t' := match subs t !! subscriberID with
            | Some _ => t
            | None => mkTopic (t_paused t) (<[subscriberID := newChannel]> (subs t))
            end in
  put (set_topics (<[topicName := t']> (topics q)) q).

(** ** Publishing *)

Definition new_entry (i : uuid) (p : bytes) (md : option jmap) : entry :=
  mkEntry i 0 p md MessageStatusPending 0.
Definition enqueue (e : entry) (c : channel) : channel := set_pending (pending c ++ [e]) c.

(** The topic of that name comes first, then the channel. *)
Definition publish_entry (name : string) (e : entry) : fake uuid :=
  q ← get;
  match topics q !! name with
  | Some t =>
      if existsb (fun x => hasMessage x.2 (id e)) (map_to_list (subs t)) then ffail ErrDuplicateMessageID
      else
        put (set_topics (<[name := mkTopic (t_paused t) (enqueue e <$> subs t)]> (topics q)) q) ;;
        mret (id e)
  | None =>
      match channels q !! name with
      | None => ffail ErrQueueNotFound
      | Some ch =>
          if hasMessage ch (id e) then ffail ErrDuplicateMessageID
          else put (set_channels (<[name := enqueue e ch]> (channels q)) q) ;; mret (id e)
      end
  end.

(** [payload] is [None] for a nil slice; a nil message id mints one. *)
Definition Publish (name : string) (payload : option bytes) (opts : list PublishOption) : fake uuid :=
  match payload with
  | None => ffail ErrNilPayload
  | Some p =>
      let o := applyPublishOptions opts in
      i ← (if po_messageID o =? 0 then newID else mret (po_messageID o));
      publish_entry name (new_entry i p (po_metadata o))
  end.

(** ** Receiving *)

Definition delivered (max : Z) (base : Receipt) (e : entry) : Message :=
  mkMessage (id e) (claimID e) (payload e) 0 MessageStatusProcessing (retryCount e) max None None None
    (metadata e) (Some (mkReceipt (id e) (claimID e) (r_QueueName base) (r_QueueType base)
      (r_SubscriberID base))).

Definition claim_entry (c : uuid) (e : entry) : entry :=
  mkEntry (id e) c (payload e) (metadata e) MessageStatusProcessing (retryCount e).

(** Claims the head of [ch] and stores the changed channel with [store]. *)
Definition claim (ch : channel) (base : Receipt) (store : channel -> Queue -> Queue) : fake Message :=
  match pending ch with
  | [] => ffail ErrQueueEmpty
  | e :: rest =>
      c ← newID;
      let e' := claim_entry c e in
      q ← get;
      put (store (mkChannel (paused ch) rest (<[id e := e']> (claimed ch)) (dlq ch)) q) ;;
      mret (delivered (maxRetries q) base e')
  end.

Definition store_channel (name : string) (c : channel) (q : Queue) : Queue :=
  set_channels (<[name := c]> (channels q)) q.
Definition store_sub (name subscriberID : string) (c : channel) (q : Queue) : Queue :=
  match topics q !! name with
  | Some t => set_topics (<[name := mkTopic (t_paused t) (<[subscriberID := c]> (subs t))]> (topics q)) q
  | None => q
  end.

Definition ReceiveChannel (name : string) : fake Message :=
  q ← get;
  match channels q !! name with
  | None => ffail ErrQueueNotFound
  | Some ch =>
      if paused ch then ffail ErrQueuePaused
      else claim ch (mkReceipt 0 0 name QueueTypeChannel "") (store_channel name)
  end.

Definition ReceiveTopic (name subscriberID : string) : fake Message :=
  q ← get;
  match topics q !! name with
  | None => ffail ErrQueueNotFound
  | Some t =>
      if t_paused t then ffail ErrQueuePaused
      else
        match subs t !! subscriberID with
        | None => ffail ErrSubscriberNotFound
        | Some sub =>
            claim sub (mkReceipt 0 0 name QueueTypePubSub subscriberID) (store_sub name subscriberID)
        end
  end.

(** ** Acknowledging *)

(** The channel or subscriber queue a receipt refers to, and how to store it back. *)
Definition resolve (r : Receipt) : fake (channel * (channel -> Queue -> Queue)) :=
  q ← get;
  match r_QueueType r with
  | QueueTypeChannel =>
      match channels q !! r_QueueName r with
      | None => ffail ErrQueueNotFound
      | Some ch => mret (ch, store_channel (r_QueueName r))
      end
  | QueueTypePubSub =>
      match topics q !! r_QueueName r with
      | None => ffail ErrQueueNotFound
      | Some t =>
          match subs t !! r_SubscriberID r with
          | None => ffail ErrSubscriberNotFound
          | Some sub => mret (sub, store_sub (r_QueueName r) (r_SubscriberID r))
          end
      end
  | QueueTypeOther _ => ffail ErrReceiptMissingQueueType
  end.

(** The claimed entry a receipt still holds. *)
Definition held (ch : channel) (r : Receipt) : option entry :=
  match claimed ch !! r_MessageID r with
  | Some e => if claimID e =? r_ClaimID r then Some e else None
  | None => None
  end.

Definition ack_channel (i : uuid) (ch : channel) : channel := set_claimed (delete i (claimed ch)) ch.

Definition Ack (r : Receipt) : fake unit :=
  '(ch, store) ← resolve r;
  match held ch r with
  | None => ffail ErrClaimExpired
  | Some _ => q ← get; put (store (ack_channel (r_MessageID r) ch) q)
  end.

Definition ExtendVisibility (r : Receipt) (d : Duration) : fake unit :=
  if (d <? millisecond) || (24 * hour <? d) then ffail ErrInvalidVisibilityTimeout
  else
    '(ch, _) ← resolve r;
    match held ch r with
    | None => ffail ErrClaimExpired
    | Some _ => mret tt
    end.

Definition bytesLess (a b : uuid) : bool := a <? b.

Fixpoint insertSortedByID (e : entry) (l : list entry) : list entry :=
  match l with
  | [] => [e]
  | x :: l' => if bytesLess (id x) (id e) then x :: insertSortedByID e l' else e :: l
  end.

Definition nack_channel (max : Z) (e : entry) (ch : channel) : channel :=
  let ch := ack_channel (id e) ch in
  if max <? wrap64 (retryCount e + 1) then
    mkChannel (paused ch) (pending ch) (claimed ch)
      (dlq ch ++ [mkEntry (id e) (claimID e) (payload e) (metadata e) MessageStatusCompleted
                    (retryCount e)])
  else
    set_pending (insertSortedByID
      (mkEntry (id e) 0 (payload e) (metadata e) MessageStatusPending (wrap64 (retryCount e + 1)))
      (pending ch)) ch.

Definition Nack (r : Receipt) : fake unit :=
  '(ch, store) ← resolve r;
  match held ch r with
  | None => ffail ErrClaimExpired
  | Some e => q ← get; put (store (nack_channel (maxRetries q) e ch) q)
  end.

(** ** Pausing and inspection *)

Definition setChannelPaused (name : string) (b : bool) : fake unit :=
  q ← get;
  match channels q !! name with
  | None => ffail ErrQueueNotFound
  | Some ch => put (store_channel name (mkChannel b (pending ch) (claimed ch) (dlq ch)) q)
  end.
Definition setTopicPaused (name : string) (b : bool) : fake unit :=
  q ← get;
  match topics q !! name with
  | None => ffail ErrQueueNotFound
  | Some t => put (set_topics (<[name := mkTopic b (subs t)]> (topics q)) q)
  end.
Definition PauseChannel (name : string) : fake unit := setChannelPaused name true.
Definition ResumeChannel (name : string) : fake unit := setChannelPaused name false.
Definition PauseTopic (name : string) : fake unit := setTopicPaused name true.
Definition ResumeTopic (name : string) : fake unit := setTopicPaused name false.

Definition ChannelDLQ (name : string) (q : Queue) : list bytes :=
  match channels q !! name with Some ch => payload <$> dlq ch | None => [] end.

(** ** The handler loop *)

(** A handler works on the queue too; [true] is a non-nil error. *)
Definition Handler : Type := Message -> (nat -> draw) -> fstate -> bool * fstate.
Definition call (h : Handler) (msg : Message) : fake bool := fun o s =>
  let '(failed, s') := h msg o s in (Ok failed, s').

(** A call's outcome as a value. *)
Definition try_fake {A} (m : fake A) : fake (result A) := fun o s => let '(r, s') := m o s in (Ok r, s').

(** [fuel] rounds of the loop; [None] when it is still running after them. *)
Fixpoint consumeLoop (fuel : nat) (h : Handler) (receive : fake Message) : fake (option (result unit)) :=
  match fuel with
  | O => mret None
  | Datatypes.S fuel =>
      done ← ctx_done;
      if (done : bool) then mret (Some (Ok tt))
      else
        r ← try_fake receive;
        match r with
        | Ok msg =>
            failed ← call h msg;
            _ ← try_fake (if (failed : bool) then Nack (Message_Receipt msg) else Ack (Message_Receipt msg));
            consumeLoop fuel h receive
        | Err x =>
            if errors_Is x ErrQueueEmpty || errors_Is x ErrQueuePaused then
              done ← ctx_done;
              if (done : bool) then mret (Some (Ok tt)) else consumeLoop fuel h receive
            else mret (Some (Err x))
        end
  end.

Definition ConsumeChannel (fuel : nat) (name : string) (h : Handler) : fake (option (result unit)) :=
  consumeLoop fuel h (ReceiveChannel name).
Definition ConsumeTopic (fuel : nat) (name subscriberID : string) (h : Handler) :
    fake (option (result unit)) :=
  consumeLoop fuel h (ReceiveTopic name subscriberID).

(** ** Well-formed states *)

(** The ids a channel holds: pending, claimed or dead. *)
Definition ids (c : channel) : list uuid :=
  (id <$> pending c) ++ (map_to_list (claimed c)).*1 ++ (id <$> dlq c).

(** Each id once, every entry in the state its place says, and no more attempts than
    the limit allows. *)
Record channel_wf (max : Z) (c : channel) : Prop := mkChannelWf {
  wf_ids : NoDup (ids c);
  wf_pending e : e ∈ pending c ->
    status e = MessageStatusPending /\ claimID e = 0 /\ 0 <= retryCount e <= max;
  wf_claimed i e : claimed c !! i = Some e ->
    id e = i /\ status e = MessageStatusProcessing /\ 0 <= retryCount e <= max;
  wf_dlq e : e ∈ dlq c -> status e = MessageStatusCompleted /\ retryCount e = max
}.

Definition queue_wf (q : Queue) : Prop :=
  0 <= maxRetries q < int64_max /\
  (forall name c, channels q !! name = Some c -> channel_wf (maxRetries q) c) /\
  (forall name t sid c, topics q !! name = Some t -> subs t !! sid = Some c ->
     channel_wf (maxRetries q) c).

(** ** Histories *)

Inductive op :=
| OCreateChannel (name : string)
| OCreateTopic (name : string)
| OSubscribe (name sid : string)
| OPublish (name : string) (payload : option bytes) (opts : list PublishOption)
| OReceiveChannel (name : string)
| OReceiveTopic (name sid : string)
| OAck (r : Receipt)
| ONack (r : Receipt)
| OExtend (r : Receipt) (d : Duration)
| OPauseChannel (name : string) (b : bool)
| OPauseTopic (name : string) (b : bool).

Definition ignore {A} (m : fake A) : fake unit := _ ← m; mret tt.

Definition run (x : op) : fake unit :=
  match x with
  | OCreateChannel n => CreateChannel n
  | OCreateTopic n => CreateTopic n
  | OSubscribe n s => Subscribe n s
  | OPublish n p opts => ignore (Publish n p opts)
  | OReceiveChannel n => ignore (ReceiveChannel n)
  | OReceiveTopic n s => ignore (ReceiveTopic n s)
  | OAck r => Ack r
  | ONack r => Nack r
  | OExtend r d => ExtendVisibility r d
  | OPauseChannel n b => setChannelPaused n b
  | OPauseTopic n b => setTopicPaused n b
  end.

(** The state after a history; an operation that fails is ignored by its caller. *)
Fixpoint run_all (o : nat -> draw) (l : list op) (s : fstate) : fstate :=
  match l with
  | [] => s
  | x :: l => run_all o l (run x o s).2
  end.

Definition start (opts : list Option_) : fstate := mkFstate (New opts) uuidV7State_init 0.

(** ** Lemmas *)

Definition fwp {A} (m : fake A) (o : nat -> draw) (s : fstate) (Q : result A -> fstate -> Prop) : Prop :=
  let '(r, s') := m o s in Q r s'.
#[global] Arguments fwp : simpl never.

Lemma fwp_ret {A} (a : A) o s Q : Q (Ok a) s -> fwp (mret a) o s Q.
Proof. done. Qed.
Lemma fwp_fail {A} x o s (Q : result A -> fstate -> Prop) : Q (Err x) s -> fwp (ffail x) o s Q.
Proof. done. Qed.
Lemma fwp_get o s Q : Q (Ok (f_queue s)) s -> fwp get o s Q.
Proof. done. Qed.
Lemma fwp_put q o s Q : Q (Ok tt) (mkFstate q (f_gen s) (f_tick s)) -> fwp (put q) o s Q.
Proof. done. Qed.
Lemma fwp_bind {A B} (m : fake A) (f : A -> fake B) o s Q :
  fwp m o s (fun r s' => match r with Ok a => fwp (f a) o s' Q | Err x => Q (Err x) s' end) ->
  fwp (m ≫= f) o s Q.
Proof. unfold fwp, mbind, fake_bind. by destruct (m o s) as [[a|x] s']. Qed.
Lemma fwp_newID o s Q :
  (forall r g, newUUIDv7At (dr_entropy (o (f_tick s))) (dr_clock (o (f_tick s))) (f_gen s) = (r, g) ->
     Q r (mkFstate (f_queue s) g (S (f_tick s)))) -> fwp newID o s Q.
Proof. intros H. unfold fwp, newID. destruct (newUUIDv7At _ _ _) as [r g] eqn:E. by apply H. Qed.
Lemma fwp_mono {A} (m : fake A) o s (Q Q' : result A -> fstate -> Prop) :
  fwp m o s Q -> (forall r s', Q r s' -> Q' r s') -> fwp m o s Q'.
Proof. unfold fwp. destruct (m o s); auto. Qed.

(** [fstep] advances over one step of a method. *)
Ltac fstep :=
  match goal with
  | |- fwp (mret _) _ _ _ => apply fwp_ret
  | |- fwp (ffail _) _ _ _ => apply fwp_fail
  | |- fwp get _ _ _ => apply fwp_get
  | |- fwp (put _) _ _ _ => apply fwp_put
  | |- fwp (mbind _ _) _ _ _ => apply fwp_bind
  | |- fwp newID _ _ _ => apply fwp_newID; let r := fresh "r" in let g := fresh "g" in
      let Hr := fresh "Hr" in intros r g Hr
  end.

Lemma existsb_id l i : existsb (fun e => id e =? i) l = true <-> i ∈ id <$> l.
Proof.
  rewrite existsb_exists, list_elem_of_fmap. split.
  - intros (e & He%list_elem_of_In & <-%Z.eqb_eq). by exists e.
  - intros (e & -> & He%list_elem_of_In). exists e. split; [done|]. apply Z.eqb_refl.
Qed.

Lemma hasMessage_ids c i : hasMessage c i = true <-> i ∈ ids c.
Proof.
  unfold hasMessage, ids. rewrite !orb_true_iff, !existsb_id, !elem_of_app.
  assert (match claimed c !! i with Some _ => true | None => false end = true <->
          i ∈ (map_to_list (claimed c)).*1) as ->; [|tauto].
  rewrite list_elem_of_fmap. destruct (claimed c !! i) as [e|] eqn:He.
  - split; [|done]. intros _. exists (i, e). split; [done|]. by apply elem_of_map_to_list.
  - split; [done|]. intros ([j e] & -> & Hj%elem_of_map_to_list). cbn in *. congruence.
Qed.

Lemma hasMessage_fresh c i : hasMessage c i = false -> i ∉ ids c.
Proof. intros Hh Hi. apply hasMessage_ids in Hi. congruence. Qed.

Lemma claimed_in c i e : claimed c !! i = Some e -> i ∈ (map_to_list (claimed c)).*1.
Proof. intros He. apply list_elem_of_fmap. exists (i, e). split; [done|]. by apply elem_of_map_to_list. Qed.

Lemma newChannel_wf max : channel_wf max newChannel.
Proof.
  split; cbn.
  - unfold ids. cbn. rewrite map_to_list_empty. constructor.
  - intros e He. by apply elem_of_nil in He.
  - intros i e He. by rewrite lookup_empty in He.
  - intros e He. by apply elem_of_nil in He.
Qed.

Lemma enqueue_wf max c i p md :
  0 <= max -> channel_wf max c -> hasMessage c i = false ->
  channel_wf max (enqueue (new_entry i p md) c).
Proof.
  intros Hmax [Hi Hp Hc Hd] Hf%hasMessage_fresh. split; [| |done|done].
  - unfold ids in *. cbn. rewrite fmap_app. cbn. rewrite <-(assoc_L (++)).
    rewrite Permutation_app_swap_app. cbn. by apply NoDup_cons.
  - cbn. intros e [He|He%list_elem_of_singleton]%elem_of_app; [by apply Hp|]. subst e. cbn.
    split_and!; [done|done|lia|lia].
Qed.

(** Taking the head of a channel. *)
Lemma claim_wf max c e rest k :
  channel_wf max c -> pending c = e :: rest ->
  channel_wf max (mkChannel (paused c) rest (<[id e := claim_entry k e]> (claimed c)) (dlq c)).
Proof.
  intros [Hi Hp Hc Hd] He. unfold ids in Hi. rewrite He in Hi. cbn in Hi.
  assert (claimed c !! id e = None) as Hn.
  { destruct (claimed c !! id e) as [x|] eqn:Hx; [|done]. apply NoDup_cons in Hi as [Hi _].
    exfalso. apply Hi. rewrite !elem_of_app. right. left. by eapply claimed_in. }
  split; cbn.
  - unfold ids. cbn. rewrite map_to_list_insert by done. cbn.
    by rewrite <-Permutation_middle.
  - intros x Hx. apply Hp. rewrite He. by right.
  - intros i x Hx. apply lookup_insert_Some in Hx as [[<- <-]|[_ Hx]]; [|by apply Hc].
    destruct (Hp e) as (_ & _ & ?); [rewrite He; left|]. done.
  - done.
Qed.

(** The ids without a claimed one. *)
Lemma ids_claimed c i e :
  claimed c !! i = Some e ->
  ids c ≡ₚ i :: ((id <$> pending c) ++ (map_to_list (delete i (claimed c))).*1 ++ (id <$> dlq c)).
Proof.
  intros He. unfold ids. rewrite <-(map_to_list_delete _ _ _ He). cbn.
  symmetry. apply Permutation_middle.
Qed.

Lemma ack_wf max c i e : channel_wf max c -> claimed c !! i = Some e -> channel_wf max (ack_channel i c).
Proof.
  intros [Hi Hp Hc Hd] He. rewrite (ids_claimed _ _ _ He) in Hi. apply NoDup_cons in Hi as [_ Hi].
  split; [exact Hi|exact Hp| |exact Hd]. cbn. intros j x [_ Hx]%lookup_delete_Some. by apply Hc.
Qed.

Lemma insertSorted_perm e l : insertSortedByID e l ≡ₚ e :: l.
Proof.
  induction l as [|x l IH]; cbn; [done|]. destruct (bytesLess _ _); [|done].
  rewrite IH. apply Permutation_swap.
Qed.

Lemma nack_wf max c i e :
  0 <= max < int64_max -> channel_wf max c -> claimed c !! i = Some e ->
  channel_wf max (nack_channel max e c).
Proof.
  intros Hmax Hwf He. pose proof Hwf as [Hi Hp Hc Hd]. destruct (Hc i e He) as (Hid & Hst & Hr).
  rewrite <-Hid in He. pose proof (ack_wf max c (id e) e Hwf He) as [Hi' Hp' Hc' Hd'].
  rewrite (ids_claimed _ _ _ He) in Hi. unfold nack_channel. rewrite wrap64_succ by lia.
  destruct (Z.ltb_spec max (retryCount e + 1)).
  - split; cbn; [|exact Hp'|exact Hc'|].
    + unfold ids. cbn. rewrite fmap_app. cbn. rewrite !(assoc_L (++)), Permutation_app_comm. cbn.
      by rewrite <-(assoc_L (++)).
    + intros x [Hx|Hx%list_elem_of_singleton]%elem_of_app; [by apply Hd|]. subst x. cbn. split; [done|lia].
  - split; cbn; [| |exact Hc'|exact Hd'].
    + unfold ids. cbn. by rewrite insertSorted_perm.
    + intros x Hx. rewrite insertSorted_perm in Hx. apply elem_of_cons in Hx as [->|Hx];
        [cbn; split_and!; [done|done|lia|lia]|].
      by apply Hp'.
Qed.

(** ** Invariants of the channels *)

(** Every channel and every subscriber's queue satisfies [I]. *)
Definition all_channels (I : channel -> Prop) (q : Queue) : Prop :=
  (forall name c, channels q !! name = Some c -> I c) /\
  (forall name t sid c, topics q !! name = Some t -> subs t !! sid = Some c -> I c).

(** The queue a receipt refers to. *)
Definition located (q : Queue) (r : Receipt) (ch : channel) (store : channel -> Queue -> Queue) : Prop :=
  (channels q !! r_QueueName r = Some ch /\ store = store_channel (r_QueueName r)) \/
  (exists t, topics q !! r_QueueName r = Some t /\ subs t !! r_SubscriberID r = Some ch /\
     store = store_sub (r_QueueName r) (r_SubscriberID r)).

Lemma fwp_resolve r o s (Q : result (channel * (channel -> Queue -> Queue)) -> fstate -> Prop) :
  (forall ch store, located (f_queue s) r ch store -> Q (Ok (ch, store)) s) ->
  (forall x, Q (Err x) s) -> fwp (resolve r) o s Q.
Proof.
  intros HQ HE. unfold resolve. do 2 fstep. destruct (r_QueueType r).
  - destruct (topics _ !! _) as [t|] eqn:Ht; [|by fstep].
    destruct (subs t !! _) as [c|] eqn:Hc; fstep; [|done]. apply HQ. right. by exists t.
  - destruct (channels _ !! _) as [c|] eqn:Hc; fstep; [|done]. apply HQ. by left.
  - by fstep.
Qed.

Lemma all_channels_store I q r ch ch' store :
  located q r ch store -> all_channels I q -> I ch' ->
  all_channels I (store ch' q) /\ maxRetries (store ch' q) = maxRetries q.
Proof.
  intros [[Hc ->]|(t & Ht & Hs & ->)] [Hch Htp] Hi.
  - split; [|done]. split; [|exact Htp]. cbn. intros n c [[<- <-]|[_ ?]]%lookup_insert_Some; [done|].
    by eapply Hch.
  - unfold store_sub. rewrite Ht. split; [|done]. split; [exact Hch|]. cbn.
    intros n t' sid c [[<- <-]|[_ Hn]]%lookup_insert_Some; [|by eapply Htp]. cbn.
    intros [[<- <-]|[_ Hc]]%lookup_insert_Some; [done|]. by eapply Htp.
Qed.

Lemma all_channels_located I q r ch store : located q r ch store -> all_channels I q -> I ch.
Proof. intros [[Hc _]|(t & Ht & Hs & _)] [Hch Htp]; [by eapply Hch|by eapply Htp]. Qed.

Lemma held_claimed ch r e : held ch r = Some e -> claimed ch !! r_MessageID r = Some e.
Proof. unfold held. destruct (claimed ch !! _) as [x|]; [|done]. by destruct (_ =? _); intros [= <-]. Qed.

Section invariant.
Context (G : nat -> uuidV7State -> Prop) (I : nat * uuidV7State -> channel -> Prop) (max : Z)
  (good : draw -> Prop) (own_ids : bool).
Hypothesis Hnew : forall g, I g newChannel.
Hypothesis Hpause : forall g c b, I g c -> I g (mkChannel b (pending c) (claimed c) (dlq c)).
Hypothesis Hmint : forall d n g r g', good d -> G n g ->
  newUUIDv7At (dr_entropy d) (dr_clock d) g = (r, g') ->
  G (S n) g' /\ forall c, I (n, g) c -> I (S n, g') c.
Hypothesis Hpublish : forall d n g i g' c p md, good d -> G n g ->
  newUUIDv7At (dr_entropy d) (dr_clock d) g = (Ok i, g') -> I (n, g) c -> hasMessage c i = false ->
  I (S n, g') (enqueue (new_entry i p md) c).
Hypothesis Hpublish_own : forall g i c p md, own_ids = true -> I g c -> hasMessage c i = false ->
  I g (enqueue (new_entry i p md) c).
Hypothesis Hclaim : forall g c e rest k, I g c -> pending c = e :: rest ->
  I g (mkChannel (paused c) rest (<[id e := claim_entry k e]> (claimed c)) (dlq c)).
Hypothesis Hack : forall g c i e, I g c -> claimed c !! i = Some e -> I g (ack_channel i c).
Hypothesis Hnack : forall g c i e, I g c -> claimed c !! i = Some e -> I g (nack_channel max e c).

(** How many draws were made, and the generator. *)
Definition gen (s : fstate) : nat * uuidV7State := (f_tick s, f_gen s).

(** The caller may choose message ids only when [own_ids] says so. *)
Definition op_ok (x : op) : Prop :=
  match x with
  | OPublish _ _ opts => own_ids = true \/ po_messageID (applyPublishOptions opts) = 0
  | _ => True
  end.

Definition state_ok (s : fstate) : Prop :=
  maxRetries (f_queue s) = max /\ G (f_tick s) (f_gen s) /\ all_channels (I (gen s)) (f_queue s).

Lemma state_minted o s r g :
  (forall n, good (o n)) -> state_ok s ->
  newUUIDv7At (dr_entropy (o (f_tick s))) (dr_clock (o (f_tick s))) (f_gen s) = (r, g) ->
  state_ok (mkFstate (f_queue s) g (S (f_tick s))).
Proof.
  intros Ho (Hm & Hg & Hc & Ht) Hr. destruct (Hmint _ _ _ _ _ (Ho (f_tick s)) Hg Hr) as [Hg' Hi].
  split; [exact Hm|]. split; [exact Hg'|]. split; cbn.
  - intros name c Hn. by eapply Hi, Hc.
  - intros name t sid c Hn Hs. by eapply Hi, Ht.
Qed.

Lemma fwp_claim o s r ch base store :
  (forall n, good (o n)) -> state_ok s -> located (f_queue s) r ch store ->
  fwp (claim ch base store) o s (fun _ s' => state_ok s').
Proof.
  intros Ho Hs Hl. unfold claim. destruct (pending ch) as [|e rest] eqn:Hp; [by fstep|].
  do 2 fstep. pose proof (state_minted o s _ _ Ho Hs Hr) as (Hm & Hg & Ha).
  destruct r0 as [k|x]; [|done].
  do 5 fstep. cbn in *.
  destruct (all_channels_store (I (S (f_tick s), g)) _ _ _ (mkChannel (paused ch) rest
    (<[id e := claim_entry k e]> (claimed ch)) (dlq ch)) _ Hl Ha) as [H1 H2].
  - eapply Hclaim; [|exact Hp]. by eapply all_channels_located.
  - split; cbn; [congruence|]. split; [exact Hg|exact H1].
Qed.

Lemma enqueue_all g g' (m : gmap string channel) i p md :
  (forall sid c, m !! sid = Some c -> I g c -> hasMessage c i = false -> I g' (enqueue (new_entry i p md) c)) ->
  (forall sid c, m !! sid = Some c -> I g c) ->
  existsb (fun x => hasMessage x.2 i) (map_to_list m) = false ->
  forall sid c, (enqueue (new_entry i p md) <$> m) !! sid = Some c -> I g' c.
Proof.
  intros Henq Hi Hn sid c. rewrite lookup_fmap. intros (c0 & Hc0 & ->)%fmap_Some.
  eapply Henq; [done|by eapply Hi|]. apply not_true_iff_false. intros Hh.
  apply not_true_iff_false in Hn. apply Hn, existsb_exists. exists (sid, c0).
  split; [|done]. by apply list_elem_of_In, elem_of_map_to_list.
Qed.

(** Storing a published message whose id was minted just before, or chosen. *)
Lemma fwp_publish_rest o s g0 name i p md :
  state_ok s -> all_channels (I g0) (f_queue s) ->
  (forall c, I g0 c -> hasMessage c i = false -> I (gen s) (enqueue (new_entry i p md) c)) ->
  fwp (publish_entry name (new_entry i p md)) o s (fun _ s' => state_ok s').
Proof.
  intros (Hm & Hg & Ha) [H0c H0t] Henq. unfold publish_entry. do 2 fstep. cbn [id new_entry]. destruct (topics (f_queue s) !! name) as [t|] eqn:Ht.
  - destruct (existsb _ _) eqn:Hd; [by fstep|]. do 3 fstep. split; [exact Hm|]. split; [exact Hg|].
    destruct Ha as [Hc Htp]. split; [exact Hc|]. cbn.
    intros n t' sid c [[<- <-]|[_ Hn]]%lookup_insert_Some; [|by eapply Htp]. cbn.
    apply (enqueue_all g0 (gen s)); [intros; by apply Henq|intros; by eapply H0t|done].
  - destruct (channels (f_queue s) !! name) as [ch|] eqn:Hch; [|by fstep].
    destruct (hasMessage ch i) eqn:Hh; [by fstep|]. do 3 fstep. split; [exact Hm|]. split; [exact Hg|].
    destruct Ha as [Hc Htp]. split; [|exact Htp]. cbn.
    intros n c [[<- <-]|[_ Hn]]%lookup_insert_Some; [|by eapply Hc]. apply Henq; [|done]. by eapply H0c.
Qed.

Lemma fwp_ignore {A} (m : fake A) o s (P : fstate -> Prop) :
  fwp m o s (fun _ => P) -> fwp (ignore m) o s (fun _ => P).
Proof. intros H. unfold ignore. fstep. eapply fwp_mono; [exact H|]. by intros [a|x] s' Hs. Qed.

Lemma fwp_Publish o s name p opts :
  (forall n, good (o n)) -> state_ok s -> op_ok (OPublish name p opts) ->
  fwp (Publish name p opts) o s (fun _ s' => state_ok s').
Proof.
  intros Ho Hs Hok. unfold Publish. destruct p as [p|]; [|by fstep]. fstep.
  destruct (Z.eqb_spec (po_messageID (applyPublishOptions opts)) 0) as [Hz|Hz].
  - fstep. pose proof (state_minted o s _ _ Ho Hs Hr) as Hs'. destruct r as [i|x]; [|done].
    destruct Hs as (Hm & Hg & Ha). apply (fwp_publish_rest _ _ (gen s)); [exact Hs'|exact Ha|].
    intros c Hc Hh. by eapply Hpublish.
  - fstep. destruct Hok as [Hown|]; [|done].
    apply (fwp_publish_rest _ _ (gen s)); [done|apply Hs|]. intros c Hc Hh. by apply Hpublish_own.
Qed.

Lemma fwp_held o s r (f : channel -> entry -> Queue -> channel) :
  state_ok s ->
  (forall ch e, I (gen s) ch -> held ch r = Some e -> I (gen s) (f ch e (f_queue s))) ->
  fwp ('(ch, store) ← resolve r;
       match held ch r with
       | None => ffail ErrClaimExpired
       | Some e => q ← get; put (store (f ch e q) q)
       end) o s (fun _ s' => state_ok s').
Proof.
  intros Hs Hf. fstep. apply fwp_resolve; [|done]. intros ch store Hl.
  destruct (held ch r) as [e|] eqn:He; [|by fstep]. do 3 fstep. destruct Hs as (Hm & Hg & Ha).
  destruct (all_channels_store (I (gen s)) _ _ _ (f ch e (f_queue s)) _ Hl Ha) as [H1 H2].
  - apply Hf; [|done]. by eapply all_channels_located.
  - split; cbn; [congruence|]. split; [exact Hg|exact H1].
Qed.

Lemma run_keeps x o s :
  (forall n, good (o n)) -> op_ok x -> state_ok s -> fwp (run x) o s (fun _ s' => state_ok s').
Proof.
  intros Ho Hok Hs. pose proof Hs as (Hm & Hg & Hc & Ht).
  destruct x as [n|n|n sid|n p opts|n|n sid|r|r|r d|n b|n b]; cbn [run].
  - unfold CreateChannel. do 2 fstep. destruct (channels _ !! n) eqn:E; fstep; [done|].
    split; [exact Hm|]. split; [exact Hg|]. split; [|exact Ht]. cbn. intros n' c [[<- <-]|[_ ?]]%lookup_insert_Some;
      [apply Hnew|by eapply Hc].
  - unfold CreateTopic. do 2 fstep. destruct (topics _ !! n) eqn:E; fstep; [done|].
    split; [exact Hm|]. split; [exact Hg|]. split; [exact Hc|]. cbn.
    intros n' t sid c [[<- <-]|[_ ?]]%lookup_insert_Some; [|by eapply Ht]. cbn. by rewrite lookup_empty.
  - unfold Subscribe. do 3 fstep. split; [exact Hm|]. split; [exact Hg|]. split; [exact Hc|]. cbn.
    assert (forall sid c, subs (default newTopic (topics (f_queue s) !! n)) !! sid = Some c ->
      I (gen s) c) as Hd.
    { intros sid' c. destruct (topics (f_queue s) !! n) as [t|] eqn:E; [by eapply Ht|].
      cbn. by rewrite lookup_empty. }
    intros n' t sid' c [[<- <-]|[_ ?]]%lookup_insert_Some; [|by eapply Ht].
    destruct (subs _ !! sid) eqn:E; [apply Hd|]. cbn.
    intros [[<- <-]|[_ ?]]%lookup_insert_Some; [apply Hnew|by eapply Hd].
  - apply fwp_ignore. by apply fwp_Publish.
  - apply fwp_ignore. unfold ReceiveChannel. do 2 fstep. destruct (channels _ !! n) as [ch|] eqn:E; [|by fstep].
    destruct (paused ch); [by fstep|].
    eapply (fwp_claim _ _ (mkReceipt 0 0 n QueueTypeChannel "")); [done|done|by left].
  - apply fwp_ignore. unfold ReceiveTopic. do 2 fstep. destruct (topics _ !! n) as [t|] eqn:E; [|by fstep].
    destruct (t_paused t); [by fstep|]. destruct (subs t !! sid) as [c|] eqn:Es; [|by fstep].
    eapply (fwp_claim _ _ (mkReceipt 0 0 n QueueTypePubSub sid)); [done|done|]. right. by exists t.
  - apply (fwp_held o s r (fun ch _ _ => ack_channel (r_MessageID r) ch)); [done|].
    intros ch e Hi He%held_claimed. by eapply Hack.
  - apply (fwp_held o s r (fun ch e q => nack_channel (maxRetries q) e ch)); [done|].
    intros ch e Hi He%held_claimed. rewrite Hm. by eapply Hnack.
  - unfold ExtendVisibility. destruct (_ || _); [by fstep|]. fstep. apply fwp_resolve; [|done].
    intros ch store _. by destruct (held ch r); fstep.
  - unfold setChannelPaused. do 2 fstep. destruct (channels _ !! n) as [ch|] eqn:E; fstep; [|done].
    split; [exact Hm|]. split; [exact Hg|]. split; [|exact Ht]. cbn. intros n' c [[<- <-]|[_ ?]]%lookup_insert_Some;
      [apply Hpause|]; by eapply Hc.
  - unfold setTopicPaused. do 2 fstep. destruct (topics _ !! n) as [t|] eqn:E; fstep; [|done].
    split; [exact Hm|]. split; [exact Hg|]. split; [exact Hc|]. cbn.
    intros n' t' sid c [[<- <-]|[_ Hn]]%lookup_insert_Some Hsid; [|by eapply Ht]. cbn in Hsid. by eapply Ht.
Qed.

Lemma run_all_keeps o l s :
  (forall n, good (o n)) -> Forall op_ok l -> state_ok s -> state_ok (run_all o l s).
Proof.
  intros Ho Hl. revert s. induction Hl as [|x l Hx Hl IH]; intros s Hs; [done|]. cbn. apply IH.
  pose proof (run_keeps x o s Ho Hx Hs) as H. unfold fwp in H. by destruct (run x o s).
Qed.

End invariant.

(** ** Order *)

(** Every id minted so far lies below the frontier of the generator. *)
Definition frontier (g : uuidV7State) : Z :=
  lastMS g * 2 ^ 80 + 7 * 2 ^ 76 + counter g * 2 ^ 64 + 2 ^ 64.

(** The pending entries in id order, all ids below the frontier. *)
Definition ordered (g : uuidV7State) (c : channel) : Prop :=
  StronglySorted Z.lt (id <$> pending c) /\ forall i, i ∈ ids c -> i < frontier g.

(** Randomness as [crypto/rand] delivers it, and a clock below [B] milliseconds. *)
Definition good_draw (B : Z) (d : draw) : Prop := entropy_ok (dr_entropy d) /\ clock_ok B (dr_clock d).

Lemma frontier_mint B d g r g' :
  B < 2 ^ 48 -> good_draw B d -> uuidV7State_wf B g ->
  newUUIDv7At (dr_entropy d) (dr_clock d) g = (r, g') ->
  frontier g <= frontier g' /\ forall i, r = Ok i -> frontier g <= i < frontier g'.
Proof.
  intros HB [He Hc] Hg Hr. destruct r as [i|x].
  - destruct (newUUIDv7At_value B _ _ _ _ _ HB He Hc Hg Hr) as (Hg' & Hrank & tail & -> & Ht).
    destruct Hg as [? ?], Hg' as [? ?]. unfold uuidV7_rank, frontier, uuidV7CounterMask in *.
    split; [lia|]. intros i [= <-]. lia.
  - apply newUUIDv7At_err in Hr as [_ ->]. split; [lia|done].
Qed.

Lemma insertSorted_sorted e l :
  StronglySorted Z.lt (id <$> l) -> id e ∉ id <$> l -> StronglySorted Z.lt (id <$> insertSortedByID e l).
Proof.
  induction l as [|x l IH]; cbn; [repeat constructor|]. intros Hs Hn.
  apply StronglySorted_inv in Hs as [Hs Hx]. apply not_elem_of_cons in Hn as [Hne Hn].
  unfold bytesLess. destruct (Z.ltb_spec (id x) (id e)) as [Hlt|Hge]; cbn.
  - constructor; [by apply IH|]. rewrite Forall_forall in *. intros i Hi.
    rewrite insertSorted_perm in Hi. apply elem_of_cons in Hi as [->|Hi]; [done|]. by apply Hx.
  - constructor; [by constructor|]. constructor; [lia|]. eapply Forall_impl; [exact Hx|]. cbn. lia.
Qed.

Section order.
Context (B max : Z).
Hypothesis Hmax : 0 <= max < int64_max.

(** The invariant of a history of fewer than [2^48 - B] draws. *)
Definition gen_bounded (n : nat) (g : uuidV7State) : Prop :=
  B + Z.of_nat n < 2 ^ 48 -> uuidV7State_wf (B + Z.of_nat n) g.
Definition channel_ordered (s : nat * uuidV7State) (c : channel) : Prop :=
  channel_wf max c /\ (B + Z.of_nat s.1 < 2 ^ 48 -> ordered s.2 c).

Lemma ordered_mint d n g r g' :
  good_draw B d -> gen_bounded n g -> newUUIDv7At (dr_entropy d) (dr_clock d) g = (r, g') ->
  gen_bounded (S n) g' /\ forall c, channel_ordered (n, g) c -> channel_ordered (S n, g') c.
Proof.
  intros [He Hc] Hg Hr. assert (B + Z.of_nat (S n) < 2 ^ 48 -> good_draw (B + Z.of_nat n) d) as Hd.
  { intros _. split; [done|]. eapply clock_ok_mono; [|done]. lia. }
  split.
  - intros Hb. specialize (Hg ltac:(lia)). specialize (Hd Hb). destruct r as [i|x].
    + destruct (newUUIDv7At_value (B + Z.of_nat n) _ _ _ _ _ ltac:(lia) He (proj2 Hd) Hg Hr) as (Hg' & _).
      by replace (B + Z.of_nat (S n)) with (B + Z.of_nat n + 1) by lia.
    + apply newUUIDv7At_err in Hr as [_ ->]. eapply uuidV7State_wf_mono; [|exact Hg]. lia.
  - intros c [Hwf Ho]. split; [done|]. cbn [fst snd] in *. intros Hb. destruct (Ho ltac:(lia)) as [Hs Hi].
    split; [done|]. intros i Hin. destruct (frontier_mint (B + Z.of_nat n) d g r g' ltac:(lia) (Hd Hb)
      (Hg ltac:(lia)) Hr) as [Hle _]. specialize (Hi i Hin). lia.
Qed.

Lemma ordered_publish d n g i g' c p md :
  good_draw B d -> gen_bounded n g -> newUUIDv7At (dr_entropy d) (dr_clock d) g = (Ok i, g') ->
  channel_ordered (n, g) c -> hasMessage c i = false ->
  channel_ordered (S n, g') (enqueue (new_entry i p md) c).
Proof.
  intros [He Hc] Hg Hr [Hwf Ho] Hh. split; [apply enqueue_wf; [lia|done..]|]. cbn [fst snd] in *.
  intros Hb. destruct (Ho ltac:(lia)) as [Hs Hi].
  assert (good_draw (B + Z.of_nat n) d) as Hd by (split; [done|]; eapply clock_ok_mono; [|done]; lia).
  destruct (frontier_mint (B + Z.of_nat n) d g _ g' ltac:(lia) Hd (Hg ltac:(lia)) Hr) as [Hle Hi'].
  specialize (Hi' i eq_refl). split.
  - cbn. rewrite fmap_app. apply StronglySorted_app. split_and!; [|done|repeat constructor].
    intros x y Hx Hy%list_elem_of_singleton. subst y. cbn. assert (x < frontier g); [|lia].
    apply Hi. unfold ids. apply elem_of_app. by left.
  - intros j. unfold ids. cbn. rewrite fmap_app, !elem_of_app. cbn. rewrite list_elem_of_singleton.
    intros [[Hj|Hj]|Hj]; [|lia|]; (assert (j < frontier g); [|lia]; apply Hi; unfold ids;
      rewrite !elem_of_app; tauto).
Qed.

Lemma ordered_claim s c e rest k :
  channel_ordered s c -> pending c = e :: rest ->
  channel_ordered s (mkChannel (paused c) rest (<[id e := claim_entry k e]> (claimed c)) (dlq c)).
Proof.
  intros [Hwf Ho] Hp. split; [by apply claim_wf|]. intros Hb. destruct (Ho Hb) as [Hs Hi]. split; cbn.
  - rewrite Hp in Hs. by apply StronglySorted_inv in Hs as [? _].
  - intros i. unfold ids in *. cbn. rewrite !elem_of_app. intros [Hin|[Hin|Hin]].
    + apply Hi. rewrite Hp, elem_of_app. left. by right.
    + apply list_elem_of_fmap in Hin as ([j x] & -> & Hj%elem_of_map_to_list). cbn.
      apply lookup_insert_Some in Hj as [[<- _]|[_ Hj]]; apply Hi.
      * rewrite Hp. left.
      * rewrite !elem_of_app. right. left. by eapply claimed_in.
    + apply Hi. rewrite !elem_of_app. tauto.
Qed.

Lemma ordered_ack s c i e :
  channel_ordered s c -> claimed c !! i = Some e -> channel_ordered s (ack_channel i c).
Proof.
  intros [Hwf Ho] He. split; [by eapply ack_wf|]. intros Hb. destruct (Ho Hb) as [Hs Hi].
  split; [done|]. intros j Hj. apply Hi. rewrite (ids_claimed _ _ _ He). by right.
Qed.

Lemma ordered_nack s c i e :
  channel_ordered s c -> claimed c !! i = Some e -> channel_ordered s (nack_channel max e c).
Proof.
  intros [Hwf Ho] He. split; [by eapply nack_wf|]. intros Hb. destruct (Ho Hb) as [Hs Hi].
  pose proof Hwf as [Hn _ Hc _]. destruct (Hc i e He) as (<- & _ & _).
  rewrite (ids_claimed _ _ _ He) in Hn. apply NoDup_cons in Hn as [Hn _].
  assert (forall j, j = id e \/ j ∈ (id <$> pending c) ++ (map_to_list (delete (id e) (claimed c))).*1
    ++ (id <$> dlq c) -> j < frontier s.2) as Hi'.
  { intros j Hj. apply Hi. rewrite (ids_claimed _ _ _ He). by apply elem_of_cons. }
  unfold nack_channel. destruct (_ <? _); (split; [cbn|]).
  - done.
  - intros j. unfold ids. cbn. rewrite fmap_app, !elem_of_app. cbn. rewrite list_elem_of_singleton.
    intros Hj. apply Hi'. rewrite !elem_of_app. tauto.
  - apply insertSorted_sorted; [done|]. cbn. intros Hin. apply Hn. apply elem_of_app. by left.
  - intros j. unfold ids. cbn. rewrite insertSorted_perm. cbn. rewrite elem_of_cons. apply Hi'.
Qed.

Lemma ordered_run o l s :
  (forall n, good_draw B (o n)) -> Forall (op_ok false) l ->
  state_ok gen_bounded channel_ordered max s -> state_ok gen_bounded channel_ordered max (run_all o l s).
Proof.
  apply (run_all_keeps gen_bounded channel_ordered max (good_draw B) false); try done.
  - intros g. split; [apply newChannel_wf|]. intros _. split; [constructor|]. intros i.
    unfold ids. cbn. rewrite map_to_list_empty. by intros ?%elem_of_nil.
  - intros g c b [[Hi Hp Hc Hd] Ho]. split; [split; assumption|]. exact Ho.
  - apply ordered_mint.
  - apply ordered_publish.
  - apply ordered_claim.
  - apply ordered_ack.
  - apply ordered_nack.
Qed.

End order.

(** ** Failing deliveries *)

(** [n] times: receive a message and nack it. *)
Fixpoint fail_rounds (n : nat) (name : string) : fake unit :=
  match n with
  | O => mret tt
  | Datatypes.S n => msg ← ReceiveChannel name; Nack (Message_Receipt msg) ;; fail_rounds n name
  end.

Definition retried (n : Z) (e : entry) : entry :=
  mkEntry (id e) 0 (payload e) (metadata e) MessageStatusPending n.

(** One receive and nack on a channel whose only pending message is [retried n e]. *)
Lemma fail_round o s name e n cl dl q :
  f_queue s = q -> 0 <= n <= maxRetries q -> maxRetries q < int64_max ->
  entropy_ok (dr_entropy (o (f_tick s))) -> dr_entropy (o (f_tick s)) <> None ->
  channels q !! name = Some (mkChannel false [retried n e] cl dl) -> cl !! id e = None ->
  exists s' c, (msg ← ReceiveChannel name; Nack (Message_Receipt msg)) o s = (Ok tt, s') /\
    f_tick s' = S (f_tick s) /\
    f_queue s' = store_channel name
      (if n <? maxRetries q then mkChannel false [retried (n + 1) e] cl dl
       else mkChannel false [] cl (dl ++ [mkEntry (id e) c (payload e) (metadata e)
              MessageStatusCompleted n])) q.
Proof.
  intros Hq Hn Hmax Hen Hen' Hch Hcl.
  assert (exists c g, newUUIDv7At (dr_entropy (o (f_tick s))) (dr_clock (o (f_tick s))) (f_gen s) =
    (Ok c, g)) as (c & g & Hc).
  { unfold entropy_ok in Hen. destruct (dr_entropy (o (f_tick s))) as [[|a [|b [|d bs]]]|];
      [destruct Hen; done..|by eexists _, _|done]. }
  exists (mkFstate (store_channel name
      (if n <? maxRetries q then mkChannel false [retried (n + 1) e] cl dl
       else mkChannel false [] cl (dl ++ [mkEntry (id e) c (payload e) (metadata e)
              MessageStatusCompleted n])) q) g (S (f_tick s))), c.
  split_and!; [|done|done].
  destruct s as [q' g0 tk]. cbn in Hq, Hc |- *. subst q'.
  unfold ReceiveChannel, claim, newID, Nack, resolve, mbind, fake_bind, get, put, mret, fake_ret, held,
    store_channel. cbn. rewrite Hch. cbn. rewrite Hc. cbn. rewrite !lookup_insert_eq. cbn.
  rewrite lookup_insert_eq. cbn. rewrite Z.eqb_refl. unfold set_channels. cbn. rewrite insert_insert_eq. do 4 f_equal.
  unfold nack_channel, ack_channel, set_claimed. cbn. rewrite wrap64_succ by lia.
  rewrite delete_insert_id by done.
  destruct (Z.ltb_spec n (maxRetries q)); [rewrite (proj2 (Z.ltb_ge _ _)) by lia
    |rewrite (proj2 (Z.ltb_lt _ _)) by lia]; done.
Qed.

(** Failing [k] deliveries of a message that failed [n] times before. *)
Lemma fail_rounds_spec o name e cl dl k : forall s n q,
  (forall m, entropy_ok (dr_entropy (o m)) /\ dr_entropy (o m) <> None) ->
  f_queue s = q -> 0 <= n <= maxRetries q -> maxRetries q < int64_max ->
  channels q !! name = Some (mkChannel false [retried n e] cl dl) -> cl !! id e = None ->
  (Z.of_nat k <= maxRetries q - n + 1) ->
  exists s' c, fail_rounds k name o s = (Ok tt, s') /\
    f_queue s' = store_channel name
      (if n + Z.of_nat k <=? maxRetries q then mkChannel false [retried (n + Z.of_nat k) e] cl dl
       else mkChannel false [] cl (dl ++ [mkEntry (id e) c (payload e) (metadata e)
              MessageStatusCompleted (maxRetries q)])) q.
Proof.
  induction k as [|k IH]; intros s n q Ho Hq Hn Hmax Hch Hcl Hk.
  { exists s, 0. split; [done|]. rewrite (proj2 (Z.leb_le _ _)) by lia. rewrite Z.add_0_r, Hq.
    unfold store_channel, set_channels. rewrite insert_id by done. by destruct q. }
  destruct (fail_round o s name e n cl dl q Hq Hn Hmax (proj1 (Ho _)) (proj2 (Ho _)) Hch Hcl)
    as (s1 & c & Hrun & Ht & Hq1).
  assert (fail_rounds (S k) name o s = fail_rounds k name o s1) as Heq.
  { cbn [fail_rounds]. revert Hrun. unfold mbind, fake_bind. destruct (ReceiveChannel name o s) as [[m|x] s2];
      [|done]. by intros ->. }
  rewrite Heq. destruct (Z.ltb_spec n (maxRetries q)) as [Hlt|Hge].
  - destruct (IH s1 (n + 1) (f_queue s1)) as (s' & c' & Hr & Hs'); rewrite ?Hq1; cbn; try done; try lia.
    { by rewrite lookup_insert_eq. }
    exists s', c'. split; [done|]. rewrite Hs', Hq1. cbn.
    replace (n + 1 + Z.of_nat k) with (n + Z.of_nat (S k)) by lia.
    unfold store_channel, set_channels. cbn. by rewrite insert_insert_eq.
  - assert (k = 0%nat) as -> by lia. exists s1, c. split; [done|].
    rewrite (proj2 (Z.leb_gt _ _)) by lia. rewrite Hq1. by replace n with (maxRetries q) by lia.
Qed.

Lemma New_ok ns (q := New (WithMaxRetries <$> ns)) :
  Forall (fun n => n < int64_max) ns ->
  0 <= maxRetries q < int64_max /\ channels q = ∅ /\ topics q = ∅.
Proof.
  intros Hns. unfold q, New. assert (0 <= maxRetries (mkQueue defaultMaxRetries ∅ ∅) < int64_max /\
    channels (mkQueue defaultMaxRetries ∅ ∅) = ∅ /\ topics (mkQueue defaultMaxRetries ∅ ∅) = ∅) as Hq
    by done. revert Hq. generalize (mkQueue defaultMaxRetries ∅ ∅). clear q.
  induction Hns as [|n ns Hn Hns IH]; intros q Hq; [done|]. cbn. apply IH. unfold WithMaxRetries.
  destruct (Z.leb_spec 0 n); [|done]. cbn. split; [lia|apply Hq].
Qed.

Lemma start_ok I ns :
  Forall (fun n => n < int64_max) ns -> all_channels I (f_queue (start (WithMaxRetries <$> ns))).
Proof.
  intros (_ & Hc & Ht)%New_ok. split; cbn.
  - intros name c. by rewrite Hc, lookup_empty.
  - intros name t sid c. by rewrite Ht, lookup_empty.
Qed.

Lemma claim_head ch base store o s msg s' :
  claim ch base store o s = (Ok msg, s') -> exists e rest, pending ch = e :: rest /\ m_ID msg = id e.
Proof.
  unfold claim. destruct (pending ch) as [|e rest]; [done|]. unfold mbind, fake_bind.
  destruct (newID o s) as [[c|x] s1]; [|done]. cbn. intros [= <- _]. by exists e, rest.
Qed.

(** ** Properties *)

(** C32: whatever operations are run on the double, in whatever order and with
    whatever receipts, its state stays well formed: an id is held once per channel or
    subscriber (pending, claimed or dead), each entry has the status of its place,
    pending entries carry no claim, and no entry has more failed attempts than the
    limit; dead ones have exactly as many. *)
Theorem fake_state_wf (ns : list Z) (o : nat -> draw) (l : list op) :
  Forall (fun n => n < int64_max) ns ->
  queue_wf (f_queue (run_all o l (start (WithMaxRetries <$> ns)))).
Proof.
  intros Hns. set (q := New (WithMaxRetries <$> ns)). destruct (New_ok ns Hns) as (Hmax & _). fold q in Hmax.
  destruct (run_all_keeps (fun _ _ => True) (fun _ => channel_wf (maxRetries q)) (maxRetries q)
    (fun _ => True) true) with (o := o) (l := l) (s := start (WithMaxRetries <$> ns)) as (Hm & _ & Ha);
    try done.
  - intros _. apply newChannel_wf.
  - intros _ c b [? ? ? ?]. by split.
  - intros. apply enqueue_wf; [lia|done..].
  - intros. apply enqueue_wf; [lia|done..].
  - intros. by apply claim_wf.
  - intros. by eapply ack_wf.
  - intros. by eapply nack_wf.
  - apply Forall_forall. intros x _. destruct x; cbn; auto.
  - split; [done|]. split; [done|]. by apply start_ok.
  - split; [by rewrite Hm|]. destruct Ha as [H1 H2]. rewrite Hm. split; [apply H1|apply H2].
Qed.

(** A draw that works. *)
Definition sample_draw : nat -> draw := fun _ =>
  mkDraw (Some [1; 2; 3; 4; 5; 6; 7; 8; 9; 10]) (fun _ => 1700000000000) false.

Lemma fake_state_wf_witness :
  queue_wf (f_queue (run_all sample_draw
    [OCreateChannel "jobs"; OPublish "jobs" (Some [Byte.x61]) [WithMessageID 7]; OReceiveChannel "jobs";
     ONack (mkReceipt 7 1 "jobs" QueueTypeChannel "")] (start (WithMaxRetries <$> [1; -5])))).
Proof. apply fake_state_wf. repeat constructor. Defined.

(** When the double mints the message ids, every receive hands out the oldest
    message that is pending, a nacked message included, in channels and for each
    subscriber of a topic; this holds after every history of operations, as long as
    the clock and the number of draws stay below 2^48 milliseconds. *)
Theorem fake_receives_oldest (B : Z) (ns : list Z) (o : nat -> draw) (l : list op) (name : string)
    (sid : option string) (msg : Message) (s' : fstate) :
  0 < B -> Forall (fun n => n < int64_max) ns -> (forall n, good_draw B (o n)) ->
  Forall (op_ok false) l ->
  let s := run_all o l (start (WithMaxRetries <$> ns)) in
  B + Z.of_nat (f_tick s) < 2 ^ 48 ->
  (match sid with None => ReceiveChannel name | Some i => ReceiveTopic name i end) o s = (Ok msg, s') ->
  exists ch, (match sid with
              | None => channels (f_queue s) !! name
              | Some i => topics (f_queue s) !! name ≫= fun t => subs t !! i
              end) = Some ch /\ m_ID msg ∈ id <$> pending ch /\
    forall e, e ∈ pending ch -> m_ID msg <= id e.
Proof.
  intros HB Hns Ho Hl s Htick Hrun. destruct (New_ok ns Hns) as (Hmax & _).
  destruct (ordered_run B _ Hmax o l (start (WithMaxRetries <$> ns)) Ho Hl) as (_ & _ & Hc & Ht).
  { split; [done|]. split; [|by apply start_ok]. intros _. cbn.
    unfold uuidV7State_wf, uuidV7CounterMask. cbn. lia. }
  fold s in Hc, Ht.
  assert (forall ch, channel_ordered B (maxRetries (New (WithMaxRetries <$> ns))) (gen s) ch ->
    (exists e rest, pending ch = e :: rest /\ m_ID msg = id e) ->
    m_ID msg ∈ id <$> pending ch /\ forall e, e ∈ pending ch -> m_ID msg <= id e) as Hhead.
  { intros ch [_ Hord] (e & rest & Hp & ->). destruct (Hord Htick) as [Hs _]. rewrite Hp in *.
    cbn in Hs. apply StronglySorted_inv in Hs as [_ Hall]. split; [left|].
    intros x [->|Hx]%elem_of_cons; [lia|]. rewrite Forall_forall in Hall.
    specialize (Hall (id x) ltac:(by apply list_elem_of_fmap_2)). lia. }
  destruct sid as [i|]; revert Hrun.
  - unfold ReceiveTopic, mbind at 1, fake_bind, get. destruct (topics (f_queue s) !! name) as [t|] eqn:Et;
      [|done]. destruct (t_paused t); [done|]. destruct (subs t !! i) as [ch|] eqn:Es; [|done].
    intros Hch%claim_head. exists ch. split; [done|]. apply Hhead; [|done]. by eapply Ht.
  - unfold ReceiveChannel, mbind, fake_bind, get. destruct (channels (f_queue s) !! name) as [ch|] eqn:Ec;
      [|done]. destruct (paused ch); [done|]. intros Hch%claim_head. exists ch. split; [done|].
    apply Hhead; [|done]. by eapply Hc.
Qed.

Lemma fake_receives_oldest_witness :
  let s := run_all sample_draw [OCreateChannel "jobs"; OPublish "jobs" (Some [Byte.x61]) [];
    OPublish "jobs" (Some [Byte.x62]) []] (start (WithMaxRetries <$> [])) in
  exists msg s', ReceiveChannel "jobs" sample_draw s = (Ok msg, s') /\ m_Payload msg = [Byte.x61] /\
    exists ch, channels (f_queue s) !! "jobs"%string = Some ch /\ m_ID msg ∈ id <$> pending ch.
Proof.
  intros s. destruct (ReceiveChannel "jobs" sample_draw s) as [[msg|x] s'] eqn:Hrun.
  - exists msg, s'. split; [reflexivity|]. split.
    + assert ((ReceiveChannel "jobs" sample_draw s).1 = Ok msg) as Hm by by rewrite Hrun.
      vm_compute in Hm. injection Hm as <-. reflexivity.
    + destruct (fake_receives_oldest (2 ^ 47) [] sample_draw
        [OCreateChannel "jobs"; OPublish "jobs" (Some [Byte.x61]) []; OPublish "jobs" (Some [Byte.x62]) []]
        "jobs" None msg s') as (ch & Hch & Hin & _).
      * lia.
      * constructor.
      * intros n. split; [split; [reflexivity|repeat constructor; lia]|]. intros i.
        cbn [sample_draw dr_clock]. lia.
      * repeat (apply Forall_cons; split; [cbn; auto|]). apply Forall_nil; done.
      * vm_compute. reflexivity.
      * exact Hrun.
      * by exists ch.
  - assert ((ReceiveChannel "jobs" sample_draw s).1 = Err x) as Hm by by rewrite Hrun.
    vm_compute in Hm. discriminate Hm.
Defined.

(** A message whose every delivery fails is delivered exactly maxRetries + 1
    times: after fewer failures it is pending again with the failures counted, after
    one more it is in the dead-letter list and the channel is empty. *)
Theorem fake_dead_letters_at_limit (o : nat -> draw) (s : fstate) (name : string) (e : entry)
    (cl : gmap Z entry) (dl : list entry) (k : nat) :
  let max := maxRetries (f_queue s) in
  (forall m, entropy_ok (dr_entropy (o m)) /\ dr_entropy (o m) <> None) ->
  0 <= max < int64_max ->
  channels (f_queue s) !! name = Some (mkChannel false [retried 0 e] cl dl) -> cl !! id e = None ->
  (Z.of_nat k <= max ->
   exists s', fail_rounds k name o s = (Ok tt, s') /\
     f_queue s' = store_channel name (mkChannel false [retried (Z.of_nat k) e] cl dl) (f_queue s)) /\
  (exists s' c, fail_rounds (Z.to_nat (max + 1)) name o s = (Ok tt, s') /\
     f_queue s' = store_channel name (mkChannel false [] cl (dl ++ [mkEntry (id e) c (payload e)
       (metadata e) MessageStatusCompleted max])) (f_queue s) /\
     (ReceiveChannel name o s').1 = Err ErrQueueEmpty).
Proof.
  intros max Ho Hmax Hch Hcl. split.
  - intros Hk. destruct (fail_rounds_spec o name e cl dl k s 0 (f_queue s) Ho eq_refl ltac:(lia)
      ltac:(lia) Hch Hcl ltac:(fold max; lia)) as (s' & c & Hr & Hq). exists s'. split; [done|].
    fold max in Hq. by rewrite (proj2 (Z.leb_le _ _)) in Hq by lia.
  - destruct (fail_rounds_spec o name e cl dl (Z.to_nat (max + 1)) s 0 (f_queue s) Ho eq_refl
      ltac:(lia) ltac:(lia) Hch Hcl ltac:(fold max; lia)) as (s' & c & Hr & Hq). exists s', c.
    fold max in Hq. rewrite (proj2 (Z.leb_gt _ _)) in Hq by lia. split_and!; [done..|].
    unfold ReceiveChannel, mbind, fake_bind, get. rewrite Hq. cbn. by rewrite lookup_insert_eq.
Qed.

Lemma fake_dead_letters_at_limit_witness :
  let e := mkEntry 7 0 [Byte.x61] None MessageStatusPending 0 in
  let s := mkFstate (mkQueue 2 {["jobs"%string := mkChannel false [e] ∅ []]} ∅)
             (mkUuidV7State 0 0) 0 in
  exists s' c, fail_rounds 3 "jobs" sample_draw s = (Ok tt, s') /\
    dlq <$> channels (f_queue s') !! "jobs"%string =
      Some [mkEntry 7 c [Byte.x61] None MessageStatusCompleted 2].
Proof.
  intros e s. destruct (fake_dead_letters_at_limit sample_draw s "jobs" e ∅ [] 0)
    as (_ & s' & c & Hrun & Hq & _).
  - intros m. split; [split; [reflexivity|repeat constructor; lia]|discriminate].
  - split; vm_compute; congruence.
  - reflexivity.
  - reflexivity.
  - exists s', c. split; [exact Hrun|]. by rewrite Hq.
Defined.
