(* ===== verification/Migrations.v ===== *)
(** * Schema migrations ([migrations.go])

    Any number of processes call [InitSchema] at the same time, each with a dedicated
    connection; a session-level advisory lock serialises them, every migration
    commits together with its version row, and any statement can fail and any
    session can die in between.  The model is a transition system whose steps are
    the statements of [runMigrations]; what a migration does to the tables is
    abstract, the log of what has been run and committed is kept. *)

From S2P Require Import Prelude Types Tx Config.
From Stdlib Require Import ZArith Lia.
Local Open Scope nat_scope.

(** ** Migrations *)

(** A migration with its two optional phases; what they do is their own business. *)
Record migration := mkMigration {
  m_version : nat;
  m_name : string;
  m_apply : bool;          (* [apply] is set *)
  m_applyNonTx : bool      (* [applyNonTx] is set *)
}.

Definition migrations : list migration := [mkMigration 1 "initial schema" true false].

(** The loop of [validateMigrations] from index [i]. *)
Fixpoint check_versions (i : nat) (ms : list migration) : bool :=
  match ms with
  | [] => true
  | m :: ms => (m_version m =? S i) && (m_apply m || m_applyNonTx m) && check_versions (S i) ms
  end.

(** [None] is the panic of the index expression on an empty slice. *)
Definition validateMigrations (latest : nat) (ms : list migration) : option bool :=
  if check_versions 0 ms then
    m ← last ms; Some (m_version m =? latest)
  else Some false.

Example init_does_not_panic : validateMigrations (Z.to_nat SchemaVersion) migrations = Some true.
Proof. reflexivity. Qed.

(** ** The database *)

Inductive log_entry :=
| RanNonTx (version : nat)    (* [applyNonTx] ran to its end *)
| Committed (version : nat).  (* [apply] and the version row committed *)

(** Where a run is.  [c] is the version it has read, [ms] the migrations left. *)
Inductive mpos :=
| MConn
| MLock
| MCreateSchema
| MSetPath
| MVersionTable
| MReadVersion
| MNext (c : nat) (ms : list migration)
| MNonTx (c : nat) (m : migration) (ms : list migration)
| MBegin (c : nat) (m : migration) (ms : list migration)
| MApply (c : nat) (m : migration) (ms : list migration)
| MRecord (c : nat) (m : migration) (ms : list migration)
| MCommit (c : nat) (m : migration) (ms : list migration)
| MRepair
| MResetPath (r : option err)   (* the deferred calls, with the result *)
| MUnlock (r : option err)
| MReturned (r : option err).

Record run := mkRun {
  r_pos : mpos;
  r_dead : bool                 (* its session has died *)
}.

Record database := mkDatabase {
  lock : option nat;            (* the run whose session holds the advisory lock *)
  version_table : bool;         (* pgqueue_schema_version exists *)
  versions : list nat;          (* its rows *)
  log : list log_entry;
  runs : list run
}.

Definition set_lock (l : option nat) (d : database) : database :=
  mkDatabase l (version_table d) (versions d) (log d) (runs d).
Definition set_pos (i : nat) (p : mpos) (d : database) : database :=
  mkDatabase (lock d) (version_table d) (versions d) (log d)
    (alter (fun r => mkRun p (r_dead r)) i (runs d)).

(** [SELECT COALESCE(MAX(version), 0)] *)
Definition schemaVersion (d : database) : nat := max_list (versions d).

(** What the server answers to a statement. *)
Inductive answer :=
| AOk
| AFail (x : driver_err).

Section run_migrations.
(** [custom]: a schema other than the default is configured. *)
Context (latest : nat) (ms : list migration) (custom : bool).

(** The deferred calls run in this order: [RESET search_path], the unlock. *)
Definition unwind (i : nat) (r : option err) (d : database) : database :=
  set_pos i (if custom then MResetPath r else MUnlock r) d.

(** The migration lock: [acquireMigrationLock] waits until it is free. *)
Definition acquireMigrationLock (i : nat) (a : answer) (d : database) : option database :=
  match a, lock d with
  | AOk, None => Some (set_pos i (if custom then MCreateSchema else MVersionTable) (set_lock (Some i) d))
  | AOk, Some _ => None
  | AFail x, _ => Some (set_pos i (MReturned (Some (ErrDriver x))) d)
  end.

(** Its release function: a failure leaves the lock with the session. *)
Definition releaseLock (i : nat) (r : option err) (a : answer) (d : database) : database :=
  set_pos i (MReturned r)
    match a with
    | AOk => if bool_decide (lock d = Some i) then set_lock None d else d
    | AFail _ => d
    end.

Definition configureMigrationSchema (i : nat) (p : mpos) (a : answer) (d : database) : database :=
  match p, a with
  | MCreateSchema, AOk => set_pos i MSetPath d
  | _, AOk => set_pos i MVersionTable d
  | _, AFail x => set_pos i (MUnlock (Some (ErrDriver x))) d
  end.

Definition create_version_table (d : database) : database :=
  mkDatabase (lock d) true (versions d) (log d) (runs d).

Definition loadSchemaVersion (i : nat) (p : mpos) (a : answer) (d : database) : database :=
  match p, a with
  | MVersionTable, AOk => set_pos i MReadVersion (create_version_table d)
  | _, AOk =>
      let current := schemaVersion d in
      if latest <? current then unwind i (Some ErrSchemaTooNew) d
      else set_pos i (MNext current ms) d
  | _, AFail x => unwind i (Some (ErrDriver x)) d
  end.

Definition append_log (e : log_entry) (d : database) : database :=
  mkDatabase (lock d) (version_table d) (versions d) (log d ++ [e]) (runs d).
Definition commit_version (v : nat) (d : database) : database :=
  mkDatabase (lock d) (version_table d) (versions d ++ [v]) (log d ++ [Committed v]) (runs d).

(** [applyMigration].  The transaction's effects reach the tables at its commit; the
    version row violates the primary key if the version is already there. *)
Definition applyMigration (i : nat) (p : mpos) (a : answer) (d : database) : option database :=
  match p, a with
  | MNonTx c m rest, AOk => Some (set_pos i (MBegin c m rest) (append_log (RanNonTx (m_version m)) d))
  | MBegin c m rest, AOk =>
      Some (set_pos i (if m_apply m then MApply c m rest else MRecord c m rest) d)
  | MApply c m rest, AOk => Some (set_pos i (MRecord c m rest) d)
  | MRecord c m rest, AOk =>
      if bool_decide (m_version m ∈ versions d) then None else Some (set_pos i (MCommit c m rest) d)
  | MCommit c m rest, AOk =>
      if bool_decide (m_version m ∈ versions d) then None
      else Some (set_pos i (MNext c rest) (commit_version (m_version m) d))
  | (MNonTx _ _ _ | MBegin _ _ _ | MApply _ _ _ | MRecord _ _ _ | MCommit _ _ _), AFail x =>
      Some (unwind i (Some (ErrDriver x)) d)
  | _, _ => None
  end.

(** The loop of [runMigrations]: skip what is recorded, apply the rest. *)
Definition next_migration (i : nat) (c : nat) (rest : list migration) (d : database) : database :=
  match rest with
  | [] => set_pos i MRepair d
  | m :: rest =>
      if m_version m <=? c then set_pos i (MNext c rest) d
      else set_pos i (if m_applyNonTx m then MNonTx c m rest else MBegin c m rest) d
  end.

(** One statement (or one step between two) of the run [i]. *)
Definition run_step (i : nat) (a : answer) (d : database) : option database :=
  r ← runs d !! i;
  let refused := r_dead r && match a with AOk => true | AFail _ => false end in
  match r_pos r with
  | MConn =>
      if refused then None
      else match a with
           | AOk => Some (set_pos i MLock d)
           | AFail x => Some (set_pos i (MReturned (Some (ErrDriver x))) d)
           end
  | MLock => if refused then None else acquireMigrationLock i a d
  | MCreateSchema | MSetPath =>
      if refused then None else Some (configureMigrationSchema i (r_pos r) a d)
  | MVersionTable | MReadVersion => if refused then None else Some (loadSchemaVersion i (r_pos r) a d)
  | MNext c rest => Some (next_migration i c rest d)
  | MNonTx _ _ _ | MBegin _ _ _ | MApply _ _ _ | MRecord _ _ _ | MCommit _ _ _ =>
      if refused then None else applyMigration i (r_pos r) a d
  | MRepair =>
      if refused then None
      else Some (unwind i (match a with AOk => None | AFail x => Some (ErrDriver x) end) d)
  | MResetPath res => if refused then None else Some (set_pos i (MUnlock res) d)
  | MUnlock res => if refused then None else Some (releaseLock i res a d)
  | MReturned _ => None
  end.

(** The session of run [i] dies: the server releases its lock and rolls back. A COMMIT
    whose answer is lost is the commit followed by this. *)
Definition lose_session (i : nat) (d : database) : option database :=
  r ← runs d !! i;
  Some (mkDatabase (if bool_decide (lock d = Some i) then None else lock d) (version_table d)
          (versions d) (log d) (<[i := mkRun (r_pos r) true]> (runs d))).

Inductive event :=
| EInitSchema                      (* a process enters [runMigrations] *)
| ERun (i : nat) (a : answer)
| ELost (i : nat).

Definition step (e : event) (d : database) : option database :=
  match e with
  | EInitSchema =>
      Some (mkDatabase (lock d) (version_table d) (versions d) (log d) (runs d ++ [mkRun MConn false]))
  | ERun i a => run_step i a d
  | ELost i => lose_session i d
  end.

Fixpoint steps (es : list event) (d : database) : option database :=
  match es with
  | [] => Some d
  | e :: es => step e d ≫= steps es
  end.

End run_migrations.

(** A database on which the first [k] migrations have been run, by whatever build. *)
Definition at_version (k : nat) : database :=
  mkDatabase None (0 <? k) (seq 1 k) (Committed <$> seq 1 k) [].

(** ** Invariants *)

Definition committed (l : list log_entry) : list nat :=
  omap (fun e => match e with Committed v => Some v | _ => None end) l.

(** Every entry is about the version after those committed before it. *)
Inductive in_order : list log_entry -> Prop :=
| in_order_nil : in_order []
| in_order_nontx l : in_order l -> in_order (l ++ [RanNonTx (S (length (committed l)))])
| in_order_commit l : in_order l -> in_order (l ++ [Committed (S (length (committed l)))]).

(** Between the lock and its release. *)
Definition inside (p : mpos) : bool :=
  match p with MConn | MLock | MReturned _ => false | _ => true end.

Lemma drop_cons_inv {A} (x : A) rest j l :
  x :: rest = drop j l -> l !! j = Some x /\ rest = drop (S j) l.
Proof.
  intros H. assert (l !! j = Some x) as Hx.
  { rewrite <-(Nat.add_0_r j), <-lookup_drop, <-H. done. }
  split; [done|]. rewrite (drop_S _ _ _ Hx) in H. by simplify_eq.
Qed.

Section invariant.
Context (latest : nat) (ms : list migration) (custom : bool).
Hypothesis (Hms : validateMigrations latest ms = Some true).

Lemma versions_of_ms : length ms = latest /\ forall j m, ms !! j = Some m -> m_version m = S j.
Proof using Hms.
  unfold validateMigrations in Hms. destruct (check_versions 0 ms) eqn:E; [|done].
  assert (Hv : forall j m, ms !! j = Some m -> m_version m = S j).
  { clear Hms. change (forall j m, ms !! j = Some m -> m_version m = S (0 + j)).
    revert E. generalize 0. induction ms as [|m0 l IH]; intros i E j m Hj; [done|].
    cbn in E. apply andb_true_iff in E as [[Ev%Nat.eqb_eq _]%andb_true_iff Er].
    destruct j as [|j]; cbn in Hj; [simplify_eq; lia|]. specialize (IH (S i) Er j m Hj). lia. }
  split; [|done]. destruct (last ms) as [m|] eqn:El; [|done]. cbn in Hms.
  assert (m_version m = latest) by (apply Nat.eqb_eq; congruence).
  rewrite last_lookup in El. pose proof (Hv _ _ El). apply lookup_lt_Some in El. lia.
Qed.

(** What the position of a run says about the versions recorded, [k] of them. *)
Definition pos_ok (k : nat) (dead : bool) (p : mpos) : Prop :=
  match p with
  | MNext c rest =>
      exists j, rest = drop j ms /\ j <= length ms /\ c <= latest /\ max c j <= k /\
        (dead = false -> k = max c j)
  | MNonTx c m rest | MBegin c m rest | MApply c m rest | MRecord c m rest | MCommit c m rest =>
      exists j, m :: rest = drop j ms /\ j < length ms /\ c <= j /\ j <= k /\
        (dead = false -> k = j)
  | MRepair | MResetPath None | MUnlock None | MReturned None => latest <= k
  | MResetPath (Some x) | MUnlock (Some x) | MReturned (Some x) => x = ErrSchemaTooNew -> latest < k
  | _ => True
  end.

Record ok (k0 : nat) (d : database) : Prop := {
  ok_versions : versions d = seq 1 (length (versions d));
  ok_log : committed (log d) = versions d;
  ok_order : in_order (log d);
  ok_min : k0 <= length (versions d) <= max k0 latest;
  ok_lock i r : runs d !! i = Some r -> inside (r_pos r) = true -> r_dead r = false -> lock d = Some i;
  ok_runs i r : runs d !! i = Some r -> pos_ok (length (versions d)) (r_dead r) (r_pos r)
}.

Lemma committed_snoc_nontx l v : committed (l ++ [RanNonTx v]) = committed l.
Proof. unfold committed. rewrite omap_app. cbn. by rewrite app_nil_r. Qed.
Lemma committed_snoc l v : committed (l ++ [Committed v]) = committed l ++ [v].
Proof. unfold committed. by rewrite omap_app. Qed.

Lemma mig_ok_start k0 : ok k0 (at_version k0).
Proof.
  assert (Hc : forall l, committed (Committed <$> l) = l).
  { induction l as [|v l IH]; [done|]. cbn. by f_equal. }
  split; cbn; rewrite ?length_seq; try done; [|lia].
  induction k0 as [|k IH]; [constructor|]. rewrite seq_S, fmap_app. cbn.
  pose proof (in_order_commit _ IH) as Ho. by rewrite Hc, length_seq in Ho.
Qed.

Lemma max_list_seq a k : max_list (seq a (S k)) = a + k.
Proof.
  revert a. induction k as [|k IH]; intros a; [cbn; lia|].
  change (max a (max_list (seq (S a) (S k))) = a + S k). rewrite IH. lia.
Qed.

Lemma schemaVersion_ok k0 d : ok k0 d -> schemaVersion d = length (versions d).
Proof.
  intros [Hv _ _ _ _ _]. unfold schemaVersion. rewrite Hv, length_seq.
  destruct (length (versions d)); [done|]. rewrite max_list_seq. lia.
Qed.

Lemma lookup_set_pos i p d j r :
  runs (set_pos i p d) !! j = Some r ->
  (j = i /\ exists r0, runs d !! i = Some r0 /\ r = mkRun p (r_dead r0)) \/
  (j <> i /\ runs d !! j = Some r).
Proof.
  cbn. destruct (decide (j = i)) as [->|Hn].
  - rewrite list_lookup_alter_eq. intros (r0 & Hr & ->)%fmap_Some. eauto.
  - rewrite list_lookup_alter_ne by done. auto.
Qed.

(** A run moves on and may take the lock or give it back. *)
Lemma ok_move k0 i r p l d :
  ok k0 d -> runs d !! i = Some r ->
  (inside p = true -> r_dead r = false -> l = Some i) ->
  (forall j, j <> i -> lock d = Some j -> l = Some j) ->
  pos_ok (length (versions d)) (r_dead r) p ->
  ok k0 (set_pos i p (set_lock l d)).
Proof.
  intros [H1 H2 H3 H4 H5 H6] Hr Hin Hl Hp. split; try done.
  - intros j r' Hj. apply lookup_set_pos in Hj as [(-> & r0 & Hr0 & ->)|[Hn Hj]]; cbn in *.
    + simplify_eq. auto.
    + intros Hi Hd. apply Hl; [done|]. by eapply H5.
  - intros j r' Hj. apply lookup_set_pos in Hj as [(-> & r0 & Hr0 & ->)|[Hn Hj]]; cbn in *.
    + by simplify_eq.
    + by apply (H6 j).
Qed.

Lemma ok_set_pos k0 i r p d :
  ok k0 d -> runs d !! i = Some r -> (inside p = true -> r_dead r = false -> lock d = Some i) ->
  pos_ok (length (versions d)) (r_dead r) p -> ok k0 (set_pos i p d).
Proof.
  intros Hd Hr Hin Hp. pose proof (ok_move k0 i r p (lock d) d Hd Hr Hin ltac:(auto) Hp) as H.
  by destruct d.
Qed.

(** ... from inside to inside. *)
Lemma ok_set_pos_inside k0 i r p d :
  ok k0 d -> runs d !! i = Some r -> inside (r_pos r) = true ->
  pos_ok (length (versions d)) (r_dead r) p -> ok k0 (set_pos i p d).
Proof. intros Hd Hr Hi. apply (ok_set_pos k0 i r); [done..|]. intros _ Hdead. by eapply (ok_lock _ _ Hd). Qed.

Lemma ok_unwind k0 i r x d :
  ok k0 d -> runs d !! i = Some r -> inside (r_pos r) = true ->
  (match x with None => latest <= length (versions d) | Some x => x = ErrSchemaTooNew -> latest < length (versions d) end) ->
  ok k0 (unwind custom i x d).
Proof. intros Hd Hr Hi Hx. unfold unwind. apply (ok_set_pos_inside k0 i r); [done..|]. by destruct custom, x. Qed.

(** What a run that does not hold the lock knows stays true when versions are added. *)
Lemma pos_ok_mono k dead p :
  dead = true \/ inside p = false -> pos_ok k dead p -> pos_ok (S k) dead p.
Proof.
  intros Hx. destruct p as [| | | | | |c rest|c m rest|c m rest|c m rest|c m rest|c m rest| |[x|]|[x|]|[x|]];
    cbn; try done; try lia; try (intros H Hy; specialize (H Hy); lia).
  all: intros (j & ? & ? & ? & ? & ?); exists j; destruct Hx; [subst|done];
    (split; [done|]); (split; [done|]); (split; [done|]); (split; [lia|done]).
Qed.

(** The holder of the lock records the next version. *)
Lemma ok_commit k0 i r c m rest d :
  ok k0 d -> runs d !! i = Some r -> r_pos r = MCommit c m rest -> r_dead r = false ->
  ok k0 (set_pos i (MNext c rest) (commit_version (m_version m) d)).
Proof using Hms.
  intros Hd Hr Hp Hdead. pose proof Hd as [H1 H2 H3 H4 H5 H6].
  destruct versions_of_ms as [Hlen Hver].
  pose proof (H6 i r Hr) as Hpos. rewrite Hp, Hdead in Hpos.
  destruct Hpos as (j & Hj & Hjl & Hcj & _ & Hk). specialize (Hk eq_refl).
  destruct (drop_cons_inv _ _ _ _ Hj) as [Hm Hrest]. pose proof (Hver _ _ Hm) as Hv.
  assert (lock d = Some i) as Hl by (eapply H5; [done| |done]; by rewrite Hp).
  assert (length (versions d ++ [m_version m]) = S j) as Hk' by (rewrite length_app; cbn; lia).
  split; cbn [commit_version set_pos versions log lock runs].
  - rewrite Hk', seq_S. rewrite Hk in H1. rewrite H1, Hv. done.
  - by rewrite committed_snoc, H2.
  - rewrite Hv. replace j with (length (committed (log d))) by (rewrite H2; lia). by constructor.
  - lia.
  - intros j' r' Hj'. apply (lookup_set_pos i (MNext c rest) d) in Hj' as [(-> & _)|[Hn Hj']]; [done|].
    intros Hi Hd'. by eapply H5.
  - intros j' r' Hj'. rewrite Hk'.
    apply (lookup_set_pos i (MNext c rest) d) in Hj' as [(-> & r0 & Hr0 & ->)|[Hn Hj']].
    + cbn. exists (S j). split; [done|]. lia.
    + pose proof (H6 j' r' Hj') as Hp'. assert (r_dead r' = true \/ inside (r_pos r') = false) as Hx.
      { destruct (r_dead r') eqn:Ed; [by left|right]. apply not_true_is_false. intros Hi.
        pose proof (H5 j' r' Hj' Hi Ed). congruence. }
      rewrite Hk in Hp'. by apply pos_ok_mono.
Qed.

Lemma ok_append_nontx k0 i r c m rest d :
  ok k0 d -> runs d !! i = Some r -> r_pos r = MNonTx c m rest -> r_dead r = false ->
  ok k0 (set_pos i (MBegin c m rest) (append_log (RanNonTx (m_version m)) d)).
Proof using Hms.
  intros Hd Hr Hp Hdead. pose proof Hd as [H1 H2 H3 H4 H5 H6].
  pose proof (H6 i r Hr) as Hpos. rewrite Hp, Hdead in Hpos.
  assert (ok k0 (set_pos i (MBegin c m rest) d)) as [G1 G2 G3 G4 G5 G6].
  { apply (ok_set_pos_inside k0 i r); [done|done|by rewrite Hp|]. by rewrite Hdead. }
  destruct Hpos as (j & Hj & _ & _ & _ & Hk). specialize (Hk eq_refl).
  destruct (drop_cons_inv _ _ _ _ Hj) as [Hm _]. destruct versions_of_ms as [_ Hver].
  split; try done; cbn.
  - by rewrite committed_snoc_nontx.
  - rewrite (Hver _ _ Hm). replace j with (length (committed (log d))) by (rewrite H2; lia).
    by constructor.
Qed.

Lemma ok_next k0 i r c rest d :
  ok k0 d -> runs d !! i = Some r -> r_pos r = MNext c rest -> ok k0 (next_migration i c rest d).
Proof using Hms.
  intros Hd Hr Hp. pose proof (ok_runs _ _ Hd i r Hr) as Hpos. rewrite Hp in Hpos.
  destruct Hpos as (j & Hj & Hjl & Hc & Hk & Hk'). destruct versions_of_ms as [Hlen Hver].
  assert (Hset : forall p, pos_ok (length (versions d)) (r_dead r) p -> ok k0 (set_pos i p d)).
  { intros p Hok. apply (ok_set_pos_inside k0 i r); [done|done|by rewrite Hp|done]. }
  unfold next_migration. destruct rest as [|m rest].
  - apply Hset. cbn. apply (f_equal length) in Hj. rewrite length_drop in Hj. cbn in Hj. lia.
  - destruct (drop_cons_inv _ _ _ _ Hj) as [Hm Hrest]. pose proof (Hver _ _ Hm) as Hv.
    pose proof (lookup_lt_Some _ _ _ Hm) as Hlt.
    destruct (Nat.leb_spec (m_version m) c) as [Hle|Hgt]; apply Hset.
    + exists (S j). split; [done|]. split; [lia|]. split; [done|]. split; [lia|].
      intros Hd'. specialize (Hk' Hd'). lia.
    + assert (pos_ok (length (versions d)) (r_dead r) (MBegin c m rest)) as Hb.
      { exists j. split; [done|]. split; [done|]. split; [lia|]. split; [lia|].
        intros Hd'. specialize (Hk' Hd'). lia. }
      by destruct (m_applyNonTx m).
Qed.

Lemma ok_applyMigration k0 i r a d d' :
  ok k0 d -> runs d !! i = Some r -> r_dead r && (match a with AOk => true | _ => false end) = false ->
  inside (r_pos r) = true ->
  applyMigration custom i (r_pos r) a d = Some d' -> ok k0 d'.
Proof using Hms.
  intros Hd Hr Ha Hin H. pose proof (ok_runs _ _ Hd i r Hr) as Hpos.
  assert (Hset : forall p, pos_ok (length (versions d)) (r_dead r) p -> ok k0 (set_pos i p d)).
  { intros p Hok. by apply (ok_set_pos_inside k0 i r). }
  unfold applyMigration in H. destruct a as [|x].
  - rewrite andb_true_r in Ha. destruct (r_pos r) as [| | | | | |c rest|c m rest|c m rest|c m rest|c m rest|c m rest| |y|y|y] eqn:Ep;
      try done.
    + simplify_eq. by eapply ok_append_nontx.
    + simplify_eq. apply Hset. by destruct (m_apply m).
    + simplify_eq. by apply Hset.
    + destruct (bool_decide _); [done|]. simplify_eq. by apply Hset.
    + destruct (bool_decide _); [done|]. simplify_eq. by eapply ok_commit.
  - destruct (r_pos r) eqn:Ep; try done; simplify_eq; (eapply ok_unwind; [done..|by rewrite Ep|done]).
Qed.

Lemma ok_run_step k0 i a d d' : ok k0 d -> run_step latest ms custom i a d = Some d' -> ok k0 d'.
Proof using Hms.
  intros Hd H. unfold run_step in H. destruct (runs d !! i) as [r|] eqn:Hr; [|done]. cbn [mbind option_bind] in H.
  pose proof (ok_runs _ _ Hd i r Hr) as Hpos.
  assert (Hset : forall p, inside (r_pos r) = true \/ inside p = false ->
     pos_ok (length (versions d)) (r_dead r) p -> ok k0 (set_pos i p d)).
  { intros p [Hi|Hi] Hok; [by apply (ok_set_pos_inside k0 i r)|]. apply (ok_set_pos k0 i r); [done..| |done].
    congruence. }
  destruct (r_dead r && _) eqn:Href.
  { destruct (r_pos r) eqn:Ep; try done. simplify_eq. by eapply ok_next. }
  destruct (r_pos r) as [| | | | | |c rest|c m rest|c m rest|c m rest|c m rest|c m rest| |y|y|y] eqn:Ep;
    try done; try (eapply ok_applyMigration; [done..| |]; [by rewrite Ep|by rewrite Ep]).
  - destruct a; simplify_eq; (apply Hset; [auto|done]).
  - unfold acquireMigrationLock in H. destruct a as [|x]; [|simplify_eq; apply Hset; [auto|done]].
    destruct (lock d) eqn:El; [done|]. simplify_eq.
    apply (ok_move k0 i r); [done..|intros; congruence|]. by destruct custom.
  - destruct a; simplify_eq; (apply Hset; [auto|done]).
  - destruct a; simplify_eq; (apply Hset; [auto|done]).
  - destruct a; simplify_eq; [|by eapply ok_unwind; [done..|rewrite Ep|]].
    assert (ok k0 (set_pos i MReadVersion d)) as [] by (apply Hset; [auto|done]). by split.
  - destruct a; simplify_eq; [|by eapply ok_unwind; [done..|rewrite Ep|]]. unfold loadSchemaVersion.
    rewrite (schemaVersion_ok k0 d Hd). destruct (Nat.ltb_spec latest (length (versions d))).
    + by eapply ok_unwind; [done..|rewrite Ep|].
    + apply Hset; [auto|]. exists 0. rewrite drop_0. split; [done|]. lia.
  - simplify_eq. by eapply ok_next.
  - simplify_eq. eapply ok_unwind; [done..|by rewrite Ep|]. by destruct a.
  - simplify_eq. apply Hset; [auto|]. by destruct y.
  - simplify_eq. unfold releaseLock. destruct a as [|x]; [|apply Hset; [auto|by destruct y]].
    case_bool_decide as Hl; [|apply Hset; [auto|by destruct y]].
    apply (ok_move k0 i r); [done..|intros; congruence|]. by destruct y.
Qed.

Lemma ok_lose_session k0 i d d' : ok k0 d -> lose_session i d = Some d' -> ok k0 d'.
Proof.
  intros [H1 H2 H3 H4 H5 H6] H. unfold lose_session in H.
  destruct (runs d !! i) as [r|] eqn:Hr; [|done]. cbn in H. simplify_eq.
  assert (Hlk : forall j r', <[i := mkRun (r_pos r) true]> (runs d) !! j = Some r' ->
    (j = i /\ r' = mkRun (r_pos r) true) \/ (j <> i /\ runs d !! j = Some r')).
  { intros j r'. destruct (decide (j = i)) as [->|Hn].
    - rewrite list_lookup_insert_eq by (by eapply lookup_lt_Some). naive_solver.
    - rewrite list_lookup_insert_ne by done. auto. }
  split; try done; cbn [versions log lock runs].
  - intros j r' Hj. destruct (Hlk j r' Hj) as [[-> ->]|[Hn Hj']]; [done|]. intros Hi Hd.
    rewrite (H5 j r' Hj' Hi Hd). rewrite bool_decide_eq_false_2; [done|congruence].
  - intros j r' Hj. destruct (Hlk j r' Hj) as [[-> ->]|[Hn Hj']]; [|by apply (H6 j)].
    specialize (H6 i r Hr). cbn. destruct (r_pos r); try done;
      destruct H6 as (j0 & ? & ? & ? & ? & ?); by exists j0.
Qed.

Lemma mig_ok_step k0 e d d' : ok k0 d -> step latest ms custom e d = Some d' -> ok k0 d'.
Proof using Hms.
  intros Hd H. destruct e as [|i a|i]; cbn in H.
  - simplify_eq. destruct Hd as [H1 H2 H3 H4 H5 H6]. split; try done; cbn [versions log lock runs].
    + intros j r Hj. apply lookup_app_Some in Hj as [Hj|[_ Hj]]; [by eapply H5|].
      by apply list_lookup_singleton_Some in Hj as [_ <-].
    + intros j r Hj. apply lookup_app_Some in Hj as [Hj|[_ Hj]]; [by apply (H6 j)|].
      by apply list_lookup_singleton_Some in Hj as [_ <-].
  - by eapply ok_run_step.
  - by eapply ok_lose_session.
Qed.

Lemma mig_ok_steps k0 es d d' : ok k0 d -> steps latest ms custom es d = Some d' -> ok k0 d'.
Proof using Hms.
  revert d. induction es as [|e es IH]; intros d Hd H; cbn in H; [by simplify_eq|].
  destruct (step latest ms custom e d) as [d1|] eqn:E; [|done]. cbn in H.
  eapply IH; [|done]. by eapply mig_ok_step.
Qed.

End invariant.

(** ** Properties *)

(** C18: schema migrations, for every list of migrations that passes the check at
    start-up, any number of processes migrating at the same time, statements that
    fail and sessions that die anywhere.  The versions recorded are 1 to [k] without
    a gap; every migration has been committed exactly once and in order, together with its
    row; its non-transactional phase has run only after its predecessor committed
    and before it committed itself; no two processes with a live session are
    between the lock and its release; a run that returns success leaves the schema
    at the latest version or above, one that reports ErrSchemaTooNew found it above; and
    a database that is ahead of the build is left as it is. *)
Theorem migrations_run_once latest ms custom k0 es d :
  validateMigrations latest ms = Some true ->
  steps latest ms custom es (at_version k0) = Some d ->
  exists k, k0 <= k <= max k0 latest /\
    versions d = seq 1 k /\ committed (log d) = seq 1 k /\ in_order (log d) /\
    (forall i r, runs d !! i = Some r -> r_pos r = MReturned None -> latest <= k) /\
    (forall i r, runs d !! i = Some r -> r_pos r = MReturned (Some ErrSchemaTooNew) -> latest < k) /\
    (forall i r j r', runs d !! i = Some r -> inside (r_pos r) = true -> r_dead r = false ->
       runs d !! j = Some r' -> inside (r_pos r') = true -> r_dead r' = false -> i = j).
Proof.
  intros Hms H. apply (mig_ok_steps latest ms custom Hms k0) in H; [|apply mig_ok_start].
  destruct H as [H1 H2 H3 H4 H5 H6]. exists (length (versions d)).
  split; [done|]. split; [done|]. split; [by rewrite H2|]. split; [done|]. split; [|split].
  - intros i r Hr Hp. specialize (H6 i r Hr). by rewrite Hp in H6.
  - intros i r Hr Hp. specialize (H6 i r Hr). rewrite Hp in H6. by apply H6.
  - intros i r j r' Hi Hin Hd Hj Hin' Hd'. pose proof (H5 i r Hi Hin Hd).
    pose proof (H5 j r' Hj Hin' Hd'). congruence.
Qed.

(** Two migrations, the second with a non-transactional phase.  The first process
    loses its session right before the commit of that one; the second process, which was
    waiting for the lock, runs the phase again and completes. *)
Definition two_migrations : list migration :=
  [mkMigration 1 "initial schema" true false; mkMigration 2 "index" false true].
Definition interrupted : list event :=
  [EInitSchema; EInitSchema] ++ (ERun 1 <$> replicate 1 AOk) ++ (ERun 0 <$> replicate 15 AOk) ++
  [ELost 0; ERun 0 (AFail failed_tx); ERun 0 (AFail failed_tx); ERun 0 (AFail failed_tx)] ++
  (ERun 1 <$> replicate 15 AOk).

Lemma migrations_run_once_witness :
  exists d, steps 2 two_migrations true interrupted (at_version 0) = Some d /\
    log d = [Committed 1; RanNonTx 2; RanNonTx 2; Committed 2] /\
    r_pos <$> runs d = [MReturned (Some (ErrDriver failed_tx)); MReturned None] /\
    committed (log d) = [1; 2].
Proof.
  destruct (steps 2 two_migrations true interrupted (at_version 0)) as [d|] eqn:E;
    [|by vm_compute in E].
  destruct (migrations_run_once 2 two_migrations true 0 interrupted d eq_refl E)
    as (k & Hk & _ & Hc & _ & Hret & _).
  exists d. split; [done|]. vm_compute in E. simplify_eq. split; [done|]. split; [done|].
  pose proof (Hret 1 _ eq_refl eq_refl). assert (k = 2) as -> by lia. exact Hc.
Defined.
