(* ===== verification/IndexRepair.v ===== *)
(** * Repairing invalid indexes ([index_repair.go])

    PostgreSQL keeps an index whose build was interrupted in its catalog, marked
    invalid; every index of the program is created with IF NOT EXISTS, which skips
    it.  A repair pass drops and recreates the invalid ones, statement by statement
    on a dedicated connection, outside any transaction. *)

From S2P Require Import Prelude Types Tx Config.
From Stdlib Require Import ZArith Lia.
Local Open Scope nat_scope.

(** ** The catalog *)

(** An index: the statement [pg_get_indexdef] prints for it, and [indisvalid]. *)
Record index := mkIndex {
  ix_def : string;
  ix_valid : bool
}.

(** By schema and name. *)
Notation catalog := (gmap (string * string) index).

Record RepairResult := mkRepairResult {
  Repaired : list string;
  Failed : list string
}.

Record invalidIndex := mkInvalidIndex {
  ii_schema : string;
  ii_name : string;
  ii_def : string
}.
Definition ii_key (i : invalidIndex) : string * string := (ii_schema i, ii_name i).

(** [relname LIKE 'idx$_pgqueue$_%' ESCAPE '$'] *)
Definition pgqueue_index (name : string) : bool := String.prefix "idx_pgqueue_" name.

(** The rows of [findInvalidIndexesSQL]. *)
Definition broken (schema : string) (x : (string * string) * index) : bool :=
  negb (ix_valid x.2) && bool_decide (x.1.1 = schema) && pgqueue_index x.1.2.

Section repair.
(** [target]: the schema and the name of the index a CREATE INDEX statement creates. *)
Context (target : string -> string * string).
(** [fault n]: the failure of the [n]-th statement of the pass, if any. *)
Context (fault : nat -> option driver_err).

Definition findInvalidIndexes (schema : string) (n : nat) (cat : catalog) :
    result (list invalidIndex) :=
  match fault n with
  | Some x => Err (ErrDriver x)
  | None =>
      Ok ((fun x => mkInvalidIndex x.1.1 x.1.2 (ix_def x.2)) <$>
            filter (fun x => broken schema x = true) (map_to_list cat))
  end.

(** DROP INDEX IF EXISTS. *)
Definition drop_index (i : invalidIndex) (n : nat) (cat : catalog) : result catalog :=
  match fault n with
  | Some x => Err (ErrDriver x)
  | None => Ok (delete (ii_key i) cat)
  end.

Definition duplicate_table : driver_err := DriverErr (Some "42P07") "relation already exists".

(** CREATE INDEX, from the definition that was read. *)
Definition create_index (def : string) (n : nat) (cat : catalog) : result catalog :=
  match fault n with
  | Some x => Err (ErrDriver x)
  | None =>
      match cat !! target def with
      | Some _ => Err (ErrDriver duplicate_table)
      | None => Ok (<[target def := mkIndex def true]> cat)
      end
  end.

(** Returns whether it succeeded, and the number of statements issued so far. *)
Definition recreateIndex (i : invalidIndex) (n : nat) (cat : catalog) : result unit * nat * catalog :=
  match drop_index i n cat with
  | Err x => (Err x, S n, cat)
  | Ok cat' =>
      match create_index (ii_def i) (S n) cat' with
      | Err x => (Err x, S (S n), cat')
      | Ok cat'' => (Ok tt, S (S n), cat'')
      end
  end.

(** The loop of [repairInvalidIndexes]. *)
Fixpoint repair_loop (invalid : list invalidIndex) (n : nat) (cat : catalog) (res : RepairResult) :
    RepairResult * nat * catalog :=
  match invalid with
  | [] => (res, n, cat)
  | i :: invalid =>
      let '(r, n, cat) := recreateIndex i n cat in
      match r with
      | Err _ => repair_loop invalid n cat (mkRepairResult (Repaired res) (Failed res ++ [ii_name i]))
      | Ok _ => repair_loop invalid n cat (mkRepairResult (Repaired res ++ [ii_name i]) (Failed res))
      end
  end.

Definition repairInvalidIndexes (schema : string) (n : nat) (cat : catalog) :
    result RepairResult * nat * catalog :=
  let schema := if bool_decide (schema = ""%string) then defaultSchemaName else schema in
  match findInvalidIndexes schema n cat with
  | Err x => (Err x, S n, cat)
  | Ok invalid =>
      let '(res, n, cat) := repair_loop invalid (S n) cat (mkRepairResult [] []) in (Ok res, n, cat)
  end.

(** The pass [runMigrations] makes: only its detection query can fail it. *)
Definition repairIndexesAfterMigrations (schema : string) (n : nat) (cat : catalog) :
    result unit * nat * catalog :=
  let '(r, n, cat) := repairInvalidIndexes schema n cat in
  (match r with Ok _ => Ok tt | Err x => Err x end, n, cat).

(** The explicit call: [conn] and [lock] are the failures of getting a connection and
    of taking the migration lock. *)
Definition RepairIndexes (closed : bool) (conn lock : option driver_err) (schema : string)
    (cat : catalog) : result RepairResult * catalog :=
  if closed then (Err ErrQueueClosed, cat)
  else match conn, lock with
       | Some x, _ | None, Some x => (Err (ErrDriver x), cat)
       | None, None => let '(r, _, cat) := repairInvalidIndexes schema 0 cat in (r, cat)
       end.

(** ** Lemmas *)

(** Documented for [pg_get_indexdef]: it prints the statement that creates the index. *)
Definition printed_right (cat : catalog) : Prop :=
  forall k ix, cat !! k = Some ix -> target (ix_def ix) = k.

(** What became of one index of the list. *)
Definition fixed (cat' : catalog) (i : invalidIndex) : Prop :=
  cat' !! ii_key i = Some (mkIndex (ii_def i) true).
Definition left_broken (cat cat' : catalog) (i : invalidIndex) : Prop :=
  cat' !! ii_key i = cat !! ii_key i \/ cat' !! ii_key i = None.

Lemma recreateIndex_spec i n cat r n' cat' :
  target (ii_def i) = ii_key i -> recreateIndex i n cat = (r, n', cat') ->
  (forall k, k <> ii_key i -> cat' !! k = cat !! k) /\
  match r with Ok _ => fixed cat' i | Err _ => left_broken cat cat' i end /\
  ((forall m, fault m = None) -> r = Ok tt).
Proof.
  intros Ht H. unfold recreateIndex, drop_index, create_index in H.
  destruct (fault n) eqn:E1; [|destruct (fault (S n)) eqn:E2];
    rewrite ?Ht, ?lookup_delete_eq in H; simplify_eq; (split; [|split]).
  - done.
  - by left.
  - intros Hf. by rewrite Hf in E1.
  - intros k Hk. by rewrite lookup_delete_ne.
  - right. by rewrite lookup_delete_eq.
  - intros Hf. by rewrite Hf in E2.
  - intros k Hk. by rewrite lookup_insert_ne, lookup_delete_ne.
  - unfold fixed. by rewrite lookup_insert_eq.
  - done.
Qed.

(** The names reported and what the catalog holds afterwards. *)
Definition outcome (invalid : list invalidIndex) (cat cat' : catalog) (rep fail : list string) : Prop :=
  exists done_ lost, invalid ≡ₚ done_ ++ lost /\ rep = ii_name <$> done_ /\ fail = ii_name <$> lost /\
    Forall (fixed cat') done_ /\ Forall (left_broken cat cat') lost /\
    (forall k, k ∉ ii_key <$> invalid -> cat' !! k = cat !! k) /\
    ((forall m, fault m = None) -> lost = []).

Lemma repair_loop_spec invalid n cat res res' n' cat' :
  NoDup (ii_key <$> invalid) -> Forall (fun i => target (ii_def i) = ii_key i) invalid ->
  repair_loop invalid n cat res = (res', n', cat') ->
  exists rep fail, Repaired res' = Repaired res ++ rep /\ Failed res' = Failed res ++ fail /\
    outcome invalid cat cat' rep fail.
Proof.
  revert n cat res. induction invalid as [|i l IH]; intros n cat res Hnd Ht H; cbn in H.
  { simplify_eq. exists [], []. rewrite !app_nil_r. split; [done|]. split; [done|].
    exists [], []. repeat split; try done; constructor. }
  inversion Ht as [|? ? Hti Htl]; subst. apply NoDup_cons in Hnd as [Hni Hnd].
  destruct (recreateIndex i n cat) as [[r n1] cat1] eqn:E.
  destruct (recreateIndex_spec _ _ _ _ _ _ Hti E) as (Hother & Hi & Hr).
  assert (Hkeep : forall j, j ∈ l -> cat1 !! ii_key j = cat !! ii_key j).
  { intros j Hj. apply Hother. intros Heq. apply Hni. rewrite <-Heq. by apply list_elem_of_fmap_2. }
  destruct r as [u|x].
  - destruct (IH n1 cat1 _ Hnd Htl H) as (rep & fail & Hrep & Hfail & ds & ls & Hp & -> & -> & Hd & Hl & Hk & Hn).
    cbn in Hrep, Hfail. rewrite <-app_assoc in Hrep.
    exists (ii_name i :: (ii_name <$> ds)), (ii_name <$> ls). split; [done|]. split; [done|].
    exists (i :: ds), ls. split; [by rewrite Hp|]. split; [done|]. split; [done|]. split; [|split; [|split]].
    + constructor; [|done]. unfold fixed. by rewrite (Hk _ Hni).
    + rewrite Forall_forall in Hl |- *. intros j Hj. unfold left_broken. rewrite <-Hkeep; [by apply Hl|].
      rewrite Hp. set_solver.
    + intros k Hk'. rewrite fmap_cons, not_elem_of_cons in Hk'. rewrite Hk by tauto. apply Hother. tauto.
    + done.
  - destruct (IH n1 cat1 _ Hnd Htl H) as (rep & fail & Hrep & Hfail & ds & ls & Hp & -> & -> & Hd & Hl & Hk & Hn).
    cbn in Hrep, Hfail. rewrite <-app_assoc in Hfail.
    exists (ii_name <$> ds), (ii_name i :: (ii_name <$> ls)). split; [done|]. split; [done|].
    exists ds, (i :: ls). split; [by rewrite Hp, Permutation_middle|]. split; [done|]. split; [done|].
    split; [done|]. split; [|split].
    + constructor; [unfold left_broken; by rewrite (Hk _ Hni)|].
      rewrite Forall_forall in Hl |- *. intros j Hj. unfold left_broken. rewrite <-Hkeep; [by apply Hl|].
      rewrite Hp. set_solver.
    + intros k Hk'. rewrite fmap_cons, not_elem_of_cons in Hk'. rewrite Hk by tauto. apply Hother. tauto.
    + intros Hf. by specialize (Hr Hf).
Qed.

End repair.

(** ** Properties *)

(** The invalid indexes of the program in a schema, as the pass reads them. *)
Definition broken_indexes (schema : string) (cat : catalog) : list invalidIndex :=
  (fun x => mkInvalidIndex x.1.1 x.1.2 (ix_def x.2)) <$>
    filter (fun x => broken schema x = true) (map_to_list cat).

Lemma broken_keys schema cat : NoDup (ii_key <$> broken_indexes schema cat).
Proof.
  unfold broken_indexes. rewrite <-list_fmap_compose.
  assert ((ii_key ∘ (fun x => mkInvalidIndex x.1.1 x.1.2 (ix_def x.2))) <$>
     filter (fun x => broken schema x = true) (map_to_list cat) =
     fst <$> filter (fun x => broken schema x = true) (map_to_list cat)) as ->.
  { apply list_fmap_ext. by intros _ [[s n] ix] _. }
  apply NoDup_fmap_fst; [|apply NoDup_filter, NoDup_map_to_list].
  intros k x y [_ Hx]%list_elem_of_filter [_ Hy]%list_elem_of_filter.
  apply elem_of_map_to_list in Hx, Hy. congruence.
Qed.

Lemma broken_targets target schema cat :
  printed_right target cat ->
  Forall (fun i => target (ii_def i) = ii_key i) (broken_indexes schema cat).
Proof.
  intros Hp. apply Forall_fmap, Forall_forall. intros [[s n] ix] Hx. cbn.
  apply list_elem_of_filter in Hx as [_ Hx]. apply elem_of_map_to_list in Hx. by apply Hp.
Qed.

(** The pass over the default or a named schema accounts for every invalid index of
    the program there.  Unless the detection query itself fails, it succeeds and
    reports each of them once, as repaired (the catalog then holds it valid, with
    its old definition) or as failed (it is still invalid, or gone); every other index is left
    alone; and when no statement fails, all of them are repaired. *)
Theorem repair_accounts target fault schema cat :
  printed_right target cat -> schema <> ""%string -> fault 0 = None ->
  exists res n cat', repairInvalidIndexes target fault schema 0 cat = (Ok res, n, cat') /\
    outcome fault (broken_indexes schema cat) cat cat' (Repaired res) (Failed res).
Proof.
  intros Hp Hs Hf. unfold repairInvalidIndexes, findInvalidIndexes. rewrite Hf.
  rewrite bool_decide_eq_false_2 by done. fold (broken_indexes schema cat).
  destruct (repair_loop target fault (broken_indexes schema cat) 1 cat (mkRepairResult [] []))
    as [[res n] cat'] eqn:E.
  destruct (repair_loop_spec target fault _ _ _ _ _ _ _ (broken_keys _ _) (broken_targets _ _ _ Hp) E)
    as (rep & fail & Hr & Hfl & Ho).
  exists res, n, cat'. split; [done|]. cbn in Hr, Hfl. by rewrite Hr, Hfl.
Qed.

(** Statement [m] of the pass fails, the others do not. *)
Definition fails_at (m n : nat) : option driver_err :=
  if n =? m then Some (DriverErr (Some "53100") "disk full") else None.

Definition crashed_catalog : catalog :=
  <[("public", "idx_pgqueue_a") := mkIndex "CREATE INDEX idx_pgqueue_a" false]>
    {[("public", "pgqueue_msg_a_pkey") := mkIndex "CREATE UNIQUE INDEX pgqueue_msg_a_pkey" true]}%string.
Definition read_target (def : string) : string * string :=
  if String.eqb def "CREATE INDEX idx_pgqueue_a" then ("public", "idx_pgqueue_a")%string
  else ("public", "pgqueue_msg_a_pkey")%string.

Lemma crashed_catalog_printed : printed_right read_target crashed_catalog.
Proof.
  intros k ix. unfold crashed_catalog. destruct (decide (k = ("public", "idx_pgqueue_a")%string)) as [->|Hn].
  - rewrite lookup_insert_eq. by intros [= <-].
  - rewrite lookup_insert_ne by done. intros H. apply lookup_singleton_Some in H as [<- <-]. done.
Qed.

Lemma repair_accounts_witness :
  exists res n cat', repairInvalidIndexes read_target (fun _ => None) "public" 0 crashed_catalog
      = (Ok res, n, cat') /\
    Repaired res = ["idx_pgqueue_a"%string] /\
    cat' !! ("public", "idx_pgqueue_a")%string = Some (mkIndex "CREATE INDEX idx_pgqueue_a" true).
Proof.
  destruct (repair_accounts read_target (fun _ => None) "public" crashed_catalog crashed_catalog_printed
    ltac:(done) eq_refl) as (res & n & cat' & E & _).
  exists res, n, cat'. split; [exact E|].
  assert (repairInvalidIndexes read_target (fun _ => None) "public" 0 crashed_catalog =
    (Ok (mkRepairResult ["idx_pgqueue_a"%string] []), 3,
     <[("public", "idx_pgqueue_a")%string := mkIndex "CREATE INDEX idx_pgqueue_a" true]>
       (delete ("public", "idx_pgqueue_a")%string crashed_catalog))) as E' by reflexivity.
  rewrite E' in E. injection E as <- _ <-. split; [reflexivity|]. apply lookup_insert_eq.
Defined.

(** The detection query compares the catalog's schema names with the configured name as
    it was written, while every other statement interpolates that name unquoted: under a
    name with a capital letter the pass never finds an index to repair. *)
Theorem capital_schema_unrepaired target fault schema cat :
  schema <> ""%string -> fold_identifier schema <> schema -> fault 0 = None ->
  (forall s name ix, cat !! (s, name) = Some ix -> fold_identifier s = s) ->
  repairInvalidIndexes target fault schema 0 cat = (Ok (mkRepairResult [] []), 1, cat).
Proof.
  intros Hne Hcap Hf Hfold. unfold repairInvalidIndexes, findInvalidIndexes.
  rewrite bool_decide_eq_false_2, Hf by done.
  assert (filter (fun x => broken schema x = true) (map_to_list cat) = []) as ->; [|done].
  apply filter_drop. intros [[s name] ix] Hx%elem_of_map_to_list Hb. unfold broken in Hb.
  apply andb_true_iff in Hb as [[_ Hs%bool_decide_eq_true]%andb_true_iff _]. cbn in Hs. subst s.
  by apply Hcap, (Hfold _ name ix).
Qed.

(** C40: a failed repair loses the index.  When the DROP succeeds and the CREATE fails, the
    index is reported as failed and is no longer in the catalog; the detection query
    of a later pass reads the catalog, so no later pass finds it, even if every
    statement succeeds then: the index is gone for good. *)
Theorem failed_repair_loses_index target fault schema cat i n x :
  fault n = None -> fault (S n) = Some x ->
  exists cat', recreateIndex target fault i n cat = (Err (ErrDriver x), S (S n), cat') /\
    cat' !! ii_key i = None /\
    forall i', i' ∈ broken_indexes schema cat' -> ii_key i' <> ii_key i.
Proof.
  intros H1 H2. unfold recreateIndex, drop_index, create_index. rewrite H1, H2.
  exists (delete (ii_key i) cat). split; [done|]. rewrite lookup_delete_eq. split; [done|].
  intros i' Hi' Hk. apply list_elem_of_fmap in Hi' as ([[s m] ix] & -> & Hx).
  apply list_elem_of_filter in Hx as [_ Hx]. apply elem_of_map_to_list in Hx.
  change ((s, m) = ii_key i) in Hk. rewrite Hk in Hx. by rewrite lookup_delete_eq in Hx.
Qed.

Lemma failed_repair_loses_index_witness :
  exists cat', recreateIndex read_target (fails_at 2) (mkInvalidIndex "public" "idx_pgqueue_a"
      "CREATE INDEX idx_pgqueue_a") 1 crashed_catalog =
      (Err (ErrDriver (DriverErr (Some "53100") "disk full")), 3, cat')%string /\
    (repairInvalidIndexes read_target (fun _ => None) "public" 0 cat').1.1 =
      Ok (mkRepairResult [] []).
Proof.
  destruct (failed_repair_loses_index read_target (fails_at 2) "public" crashed_catalog
    (mkInvalidIndex "public" "idx_pgqueue_a" "CREATE INDEX idx_pgqueue_a") 1
    (DriverErr (Some "53100") "disk full") eq_refl eq_refl) as (cat' & E & _).
  exists cat'. split; [exact E|]. apply (f_equal snd) in E. cbn [snd] in E. rewrite <-E.
  vm_compute. reflexivity.
Defined.
