(* ===== verification/Queries.v ===== *)
(** * Shared queries ([queries.go])

    The claim-miss classifier, the queue metadata and subscriber queries, the
    replay log, and the classification of driver errors. *)

From S2P Require Import Prelude Types Tx Utf8 MetadataCache World Config.
From Stdlib Require Import Ascii ZArith Lia.
Local Open Scope Z_scope.

(** ** Queue settings and message metadata *)

Definition getQueueTTL (cfg : queueConfig) (config : configJSON) : Duration :=
  match config_unmarshal config with
  | Some o => if o_TTLSet o then o_TTL o else defaultTTL cfg
  | None => defaultTTL cfg
  end.

(** [json.Unmarshal] into a map accepts an object, and leaves the map nil on
    [null]; anything else is dropped. *)
Definition parseMetadataJSON (s : option jval) : option jmap :=
  match s with
  | Some (JObject m) => Some m
  | _ => None
  end.

(** ** Claim misses *)

(** The nil UUID: a receipt that never held a claim. *)
Definition nil_uuid : uuid := 0.

Definition classifyClaimState (found : bool) (status : MessageStatus) (claimID : option uuid)
    (expectedClaim : uuid) : err :=
  if negb found then ErrMessageNotFound
  else if expectedClaim =? nil_uuid then ErrMessageAlreadyAcked
  else
    match claimID with
    | Some c =>
        if (c =? expectedClaim) && negb (bool_decide (status = MessageStatusProcessing))
        then ErrMessageAlreadyAcked else ErrClaimExpired
    | None => ErrClaimExpired
    end.

(** The row state of [SELECT status, claim_id], classified. *)
Definition classifyClaimMiss (row : option (MessageStatus * option uuid)) (expectedClaim : uuid) :
    err :=
  match row with
  | None => classifyClaimState false MessageStatusPending None expectedClaim
  | Some (status, claimID) => classifyClaimState true status claimID expectedClaim
  end.

Definition classifyChannelAckMiss {A} (r : Receipt) : tx channelTables A :=
  row ← query (fun _ t =>
    Ok ((fun x => (c_status x, c_claim_id x)) <$> ct_msgs t !! r_MessageID r));
  throw (classifyClaimMiss row (r_ClaimID r)).

(** The subscription of a message for a subscriber, UNIQUE(message_id, subscriber_id). *)
Definition find_sub (t : topicTables) (messageID : uuid) (subscriberID : string) :
    option (Z * subRow) :=
  head (sql_select (fun _ s => (s_message_id s =? messageID) &&
                               bool_decide (s_subscriber_id s = subscriberID))
          (fun _ => 0) (tt_subs t)).

Definition classifyTopicAckMiss {A} (subscriberID : string) (r : Receipt) : tx topicTables A :=
  row ← query (fun _ t =>
    Ok ((fun x => (s_status x.2, s_claim_id x.2)) <$> find_sub t (r_MessageID r) subscriberID));
  throw (classifyClaimMiss row (r_ClaimID r)).

(** The per-receipt classification of a batch over one status query; [states] is
    the map built from its rows. *)
Definition classifyBatchMisses (states : uuid -> option (MessageStatus * option uuid))
    (misses : list Receipt) : list FailedReceipt :=
  map (fun r => mkFailedReceipt r (classifyClaimMiss (states (r_MessageID r)) (r_ClaimID r)))
    misses.

Definition classifyChannelBatchMisses (misses : list Receipt) :
    tx channelTables (list FailedReceipt) :=
  match misses with
  | [] => mret []
  | _ =>
      query (fun _ t => Ok (classifyBatchMisses
        (fun id => (fun x => (c_status x, c_claim_id x)) <$> ct_msgs t !! id) misses))
  end.

Definition classifyTopicBatchMisses (subscriberID : string) (misses : list Receipt) :
    tx topicTables (list FailedReceipt) :=
  match misses with
  | [] => mret []
  | _ =>
      query (fun _ t => Ok (classifyBatchMisses
        (fun id => (fun x => (s_status x.2, s_claim_id x.2)) <$> find_sub t id subscriberID)
        misses))
  end.

(** ** Driver errors *)

Definition str_contains (needle hay : string) : bool :=
  match String.index 0 needle hay with Some _ => true | None => false end.

Definition pgUniqueViolation : string := "23505".
Definition pgSerializationFailure : string := "40001".
Definition pgDeadlockDetected : string := "40P01".

Definition isUniqueViolation (x : err) : bool :=
  match x with
  | ErrDriver d =>
      match de_sqlstate d with
      | Some s => bool_decide (s = pgUniqueViolation)
      | None => str_contains "duplicate key value" (de_text d) ||
                str_contains "unique constraint" (de_text d)
      end
  | _ => false
  end.

Definition isTransientError (x : err) : bool :=
  match x with
  | ErrDriver d =>
      match de_sqlstate d with
      | Some s => bool_decide (s = pgSerializationFailure) || bool_decide (s = pgDeadlockDetected)
      | None => false
      end ||
      (str_contains "could not serialize access" (de_text d) ||
       str_contains "deadlock detected" (de_text d) ||
       str_contains "connection refused" (de_text d) ||
       str_contains "connection reset" (de_text d) ||
       str_contains "bad connection" (de_text d) ||
       str_contains "broken pipe" (de_text d))
  | _ => false
  end.

(** ** Queue metadata *)

(** [WHERE queue_type = $1 AND queue_name = $2] *)
Definition is_queue (qt : QueueType) (name : string) (m : queueMetadata) : bool :=
  bool_decide (q_QueueType m = qt) && bool_decide (q_QueueName m = name).

Definition lookup_queue (qt : QueueType) (name : string) (d : DB) : option queueMetadata :=
  snd <$> head (sql_select (fun _ => is_queue qt name) (fun _ => 0) (db_metadata d)).

Definition getQueueMetadata (qt : QueueType) (name : string) : io queueMetadata :=
  row ← autocommit (query (fun _ d => Ok (lookup_queue qt name d)));
  match row with
  | None => fail ErrQueueNotFound
  | Some meta =>
      now ← time_now; w ← get_world;
      put_cache (cache_set now (queue_type_string qt) name (q_TableName meta) (w_cache w)) ;;
      mret meta
  end.

Definition cachedTableName (qt : QueueType) (name : string) : io string :=
  now ← time_now; w ← get_world;
  let '(hit, cache) := cache_get now (queue_type_string qt) name (w_cache w) in
  put_cache cache ;;
  match hit with
  | Some t => mret t
  | None => meta ← getQueueMetadata qt name; mret (q_TableName meta)
  end.

(** [if errors.Is(err, ErrQueueNotFound) { return ...: %w, target }] *)
Definition not_found_as (target : err) (x : err) : err :=
  if errors_Is x ErrQueueNotFound then target else x.

(** The INSERT into pgqueue_metadata, with the table's constraints. *)
Definition createQueueMetadata (qt : QueueType) (name tableName : string) (config : configJSON) :
    tx DB queueMetadata :=
  tx_map_err (fun x => if isUniqueViolation x then ErrQueueAlreadyExists else x)
    (stmt (fun e n d =>
      let id := e_gen e n 0%nat in
      let meta := mkQueueMetadata id qt name tableName config false (e_now e) (e_now e) in
      if negb (forallb is_table_char (String.list_ascii_of_string tableName)) ||
         (String.length tableName =? 0)%nat
      then (Err (ErrDriver check_violation), d)
      else
        match db_metadata d !! id,
              sql_select (fun _ m => is_queue qt name m || bool_decide (q_TableName m = tableName))
                (fun _ => 0) (db_metadata d) with
        | None, [] => (Ok meta, set_metadata (<[id := meta]> (db_metadata d)) d)
        | _, _ => (Err (ErrDriver unique_violation), d)
        end)).

Definition countQueues : tx DB Z := query (fun _ d => Ok (Z.of_nat (size (db_metadata d)))).

Definition checkTableNameNotExists (tableName : string) : io unit :=
  row ← autocommit (query (fun _ d =>
    Ok (head (sql_select (fun _ m => bool_decide (q_TableName m = tableName)) (fun _ => 0)
                (db_metadata d)))));
  match row with
  | Some _ => fail ErrQueueAlreadyExists
  | None => mret tt
  end.

Definition listQueuesPageSize : nat := 1000.

(** [WHERE queue_type = $1 AND ($2 IS NULL OR id > $2)] *)
Definition after_key (qt : QueueType) (after : option uuid) (i : Z) (m : queueMetadata) : bool :=
  bool_decide (q_QueueType m = qt) &&
  match after with None => true | Some a => a <? i end.

Definition fetchQueueMetadataPage (page : nat) (qt : QueueType) (after : option uuid) :
    io (list (Z * queueMetadata)) :=
  autocommit (query (fun _ d =>
    Ok (sql_select_limit page (after_key qt after) (fun _ => 0) (db_metadata d)))).

(** The keyset-paginated loop, [fuel] rounds at most. *)
Fixpoint listQueuesLoop (fuel page : nat) (qt : QueueType) (after : option uuid)
    (items : list (Z * queueMetadata)) : io (list (Z * queueMetadata)) :=
  match fuel with
  | O => mret items
  | Datatypes.S fuel =>
      rows ← fetchQueueMetadataPage page qt after;
      let items' := items ++ rows in
      if (length rows <? page)%nat then mret items'
      else listQueuesLoop fuel page qt (fst <$> last items') items'
  end.

Definition listQueuesRaw (qt : QueueType) : io (list (Z * queueMetadata)) :=
  w ← get_world;
  listQueuesLoop (Datatypes.S (size (db_metadata (w_db w)))) listQueuesPageSize qt None [].

(** ** Subscribers *)

Definition is_subscriber (topic id : string) (s : subscriber) : bool :=
  bool_decide (sb_TopicName s = topic) && bool_decide (sb_SubscriberID s = id).

(** INSERT ... ON CONFLICT (topic_name, subscriber_id) DO UPDATE SET active = TRUE *)
Definition registerSubscriber (topic id : string) : io subscriber :=
  autocommit (stmt (fun e n d =>
    match head (sql_select (fun _ => is_subscriber topic id) (fun _ => 0) (db_subscribers d)) with
    | Some (k, s) =>
        let s' := mkSubscriber topic id (sb_CreatedAt s) true in
        (Ok s', set_subscribers (<[k := s']> (db_subscribers d)) d)
    | None =>
        let k := e_gen e n 0%nat in
        let s' := mkSubscriber topic id (e_now e) true in
        match db_subscribers d !! k with
        | None => (Ok s', set_subscribers (<[k := s']> (db_subscribers d)) d)
        | Some _ => (Err (ErrDriver unique_violation), d)
        end
    end)).

Definition unregisterSubscriber (topic id : string) : io unit :=
  rows ← autocommit (stmt (fun _ _ d =>
    let hit := sql_select (fun _ s => is_subscriber topic id s && sb_Active s) (fun _ => 0)
                 (db_subscribers d) in
    (Ok (length hit),
     set_subscribers
       (sql_update_ids hit.*1
          (fun s => mkSubscriber (sb_TopicName s) (sb_SubscriberID s) (sb_CreatedAt s) false)
          (db_subscribers d)) d)));
  if (rows =? 0)%nat then fail ErrSubscriberNotFound else mret tt.

(** The active subscribers of a topic, oldest first. *)
Definition active_subscribers (topic : string) (d : DB) : list (Z * subscriber) :=
  sql_select (fun _ s => bool_decide (sb_TopicName s = topic) && sb_Active s) sb_CreatedAt
    (db_subscribers d).

Definition getActiveSubscribers (cfg : queueConfig) (topic : string) : tx DB (list subscriber) :=
  let maxSubs := maxSubscribersPerTopic cfg in
  items ← query (fun _ d =>
    let rows := active_subscribers topic d in
    Ok (snd <$> (if 0 <? maxSubs then take (Z.to_nat (maxSubs + 1)) rows else rows)));
  if (0 <? maxSubs) && (maxSubs <? Z.of_nat (length items)) then throw ErrTooManySubscribers
  else mret items.

(** ** Deletion and the replay log *)

Definition is_log_of (qt : QueueType) (name : string) (l : replayLogRow) : bool :=
  bool_decide (rl_QueueType l = queue_type_string qt) && bool_decide (rl_QueueName l = name).

Definition deleteQueueMetadata (qt : QueueType) (name : string) : tx DB unit :=
  stmt (fun _ _ d => (Ok tt, set_replay_log
    (filter (fun x => is_log_of qt name x.2 = false) (db_replay_log d)) d)) ;;
  (if bool_decide (qt = QueueTypePubSub) then
     stmt (fun _ _ d => (Ok tt, set_subscribers
       (filter (fun x => sb_TopicName x.2 <> name) (db_subscribers d)) d))
   else mret tt) ;;
  stmt (fun _ _ d => (Ok tt, set_metadata
    (filter (fun x => is_queue qt name x.2 = false) (db_metadata d)) d)).

(** created_by is a TEXT column; the JSON of replay_params is not kept. *)
Definition createReplayLog (qt : QueueType) (name replayType : string) (messageCount : Z)
    (createdBy : option string) : tx DB unit :=
  stmt (fun e n d =>
    let k := e_gen e n 0%nat in
    if negb (text_ok (String.list_byte_of_string (default "" createdBy)))
    then (Err (ErrDriver untranslatable), d)
    else
      match db_replay_log d !! k with
      | Some _ => (Err (ErrDriver unique_violation), d)
      | None =>
          (Ok tt, set_replay_log
            (<[k := mkReplayLogRow (queue_type_string qt) name replayType messageCount (e_now e)
                      createdBy]> (db_replay_log d)) d)
      end).

(** ORDER BY created_at DESC LIMIT $3 *)
Definition getReplayHistory (qt : QueueType) (name : string) (limit : Z) :
    io (list (Z * replayLogRow)) :=
  autocommit (query (fun _ d => Ok (sql_select_limit (Z.to_nat limit)
    (fun _ => is_log_of qt name) (fun l => - rl_CreatedAt l) (db_replay_log d)))).

(** ** Lemmas *)

(** What a program that only looks up metadata leaves alone. *)
Definition frame (w w' : world) : Prop :=
  w_db w' = w_db w /\ w_closed w' = w_closed w /\ w_uuid w' = w_uuid w /\
  (w_tick w <= w_tick w')%nat.

(** Step [m] of the server is one of those between two states. *)
Definition ran (w w' : world) (m : nat) : Prop := (w_tick w <= m < w_tick w')%nat.

(** The error of a server that fails at some step of the program. *)
Definition io_fault (o : oracle) (x : err) : Prop :=
  exists n d, faulty (o n) /\ x = ErrDriver d.

(** A server that never fails. *)
Definition reliable (o : oracle) : Prop := forall n, ~ faulty (o n).

(** Every cached table name is the one of the queue's metadata row; true as long
    as this process is the only one to delete queues. *)
Definition cache_coherent (w : world) : Prop :=
  forall qt name item,
    qt = QueueTypeChannel \/ qt = QueueTypePubSub ->
    w_cache w !! cache_key (queue_type_string qt) name = Some item ->
    exists meta, lookup_queue qt name (w_db w) = Some meta /\ q_TableName meta = tableName item.

Ltac solve_frame := unfold frame; cbn; split_and!; first [done | lia].
#[export] Hint Extern 0 (frame _ _) => solve [solve_frame] : core.

Lemma frame_refl w : frame w w.
Proof. done. Qed.

Lemma frame_trans w1 w2 w3 : frame w1 w2 -> frame w2 w3 -> frame w1 w3.
Proof. intros (?&?&?&?) (?&?&?&?). unfold frame. split_and!; [congruence..|lia]. Qed.

Lemma lookup_queue_Some qt name d meta :
  lookup_queue qt name d = Some meta ->
  exists i, db_metadata d !! i = Some meta /\ q_QueueType meta = qt /\ q_QueueName meta = name.
Proof.
  unfold lookup_queue. intros ([i m] & Hh & ->)%fmap_Some.
  apply head_Some_elem_of, elem_of_sql_select in Hh as [Hi Hm].
  unfold is_queue in Hm. apply andb_true_iff in Hm as [H1%bool_decide_eq_true_1
    H2%bool_decide_eq_true_1]. by exists i.
Qed.

Lemma iwp_getQueueMetadata o w qt name (Q : queueMetadata -> world -> Prop) E :
  (forall meta w', lookup_queue qt name (w_db w) = Some meta -> frame w w' -> Q meta w') ->
  (forall w', lookup_queue qt name (w_db w) = None -> frame w w' -> E ErrQueueNotFound w') ->
  (forall x w', io_fault o x -> frame w w' -> E x w') ->
  iwp o w (getQueueMetadata qt name) Q E.
Proof.
  intros HQ HN HF. unfold getQueueMetadata. iwp_step. apply iwp_withTx_lossy.
  { intros d Hf. apply HF; [|done]. by exists (w_tick w), d. }
  apply wp_query.
  { intros d Hf. apply HF; [|done]. by exists (w_tick w), d. }
  cbn. split.
  2: { intros de He. apply HF; [|done]. exists (w_tick w), de. split; [right; left; eauto|done]. }
  destruct (lookup_queue qt name (w_db w)) as [meta|] eqn:El.
  - repeat iwp_step. by apply HQ.
  - iwp_step. by apply HN.
Qed.

Lemma cache_key_inj qt qt' name name' :
  qt = QueueTypeChannel \/ qt = QueueTypePubSub ->
  qt' = QueueTypeChannel \/ qt' = QueueTypePubSub ->
  cache_key (queue_type_string qt) name = cache_key (queue_type_string qt') name' ->
  qt = qt' /\ name = name'.
Proof.
  intros [->| ->] [->| ->]; unfold cache_key; cbn; intros H; try discriminate H;
    (split; [done|]); by injection H.
Qed.

(** Under a coherent cache, the table name is the one of the queue's metadata. *)
Lemma iwp_cachedTableName o w qt name (Q : string -> world -> Prop) E :
  qt = QueueTypeChannel \/ qt = QueueTypePubSub -> cache_coherent w ->
  (forall meta w', lookup_queue qt name (w_db w) = Some meta -> frame w w' ->
     Q (q_TableName meta) w') ->
  (forall w', lookup_queue qt name (w_db w) = None -> frame w w' -> E ErrQueueNotFound w') ->
  (forall x w', io_fault o x -> frame w w' -> E x w') ->
  iwp o w (cachedTableName qt name) Q E.
Proof.
  intros Hqt Hc HQ HN HF. unfold cachedTableName. do 4 iwp_step. cbn [w_next w_cache].
  destruct (cache_get _ _ _ (w_cache w)) as [hit cache] eqn:Hg.
  do 2 iwp_step. destruct hit as [t|].
  - pose proof (cache_get_hit (e_time (o (w_tick w))) (queue_type_string qt) name (w_cache w) t)
      as [Hhit _]. rewrite Hg in Hhit. destruct (Hhit eq_refl) as (item & Hi & <- & _).
    destruct (Hc qt name item Hqt Hi) as (meta & Hl & <-). iwp_step. by apply HQ.
  - iwp_step. apply iwp_getQueueMetadata.
    + intros meta w' Hl Hf. iwp_step. apply HQ; [done|]. by eapply frame_trans; [|exact Hf].
    + intros w' Hl Hf. apply HN; [done|]. by eapply frame_trans; [|exact Hf].
    + intros x w' Hx Hf. apply HF; [done|]. by eapply frame_trans; [|exact Hf].
Qed.

Lemma getQueueMetadata_db_pure qt name : db_pure (getQueueMetadata qt name).
Proof.
  unfold getQueueMetadata. apply bind_db_pure; [apply query_db_pure|].
  intros [meta|]; rollback.
Qed.

Lemma cachedTableName_db_pure qt name : db_pure (cachedTableName qt name).
Proof.
  unfold cachedTableName. do 2 (apply bind_db_pure; [rollback|intros ?]).
  destruct (cache_get _ _ _ _) as [[t|] c]; (apply bind_db_pure; [rollback|intros ?]); [rollback|].
  apply bind_db_pure; [apply getQueueMetadata_db_pure|rollback].
Qed.

#[export] Hint Resolve getQueueMetadata_db_pure cachedTableName_db_pure : rollback.

Lemma reliable_no_fault o x : reliable o -> ~ io_fault o x.
Proof. intros Hr (n & d & Hf & _). by apply (Hr n). Qed.

(** [no_fault] closes the case of a server that fails though it is reliable. *)
Ltac no_fault :=
  intros; exfalso;
  match goal with
  | Hr : reliable ?o, Hf : faulty (?o ?m) |- _ => exact (Hr m Hf)
  | Hr : reliable ?o, Hf : io_fault ?o ?x |- _ => exact (reliable_no_fault o x Hr Hf)
  | Hr : ~ faulty ?e, Hf : faulty ?e |- _ => exact (Hr Hf)
  end.

(** A fault-free query returns what it computes. *)
Lemma autocommit_query {A} o w (f : env -> DB -> result A) :
  ~ faulty (o (w_tick w)) ->
  autocommit (query f) o w = (f (o (w_tick w)) (w_db w), w_next w).
Proof.
  intros Hf. unfold autocommit, withTx, query, stmt, faulty in *.
  destruct (e_begin (o (w_tick w))) eqn:E1; [exfalso; eauto|].
  destruct (e_fault (o (w_tick w)) 0%nat) eqn:E2; [exfalso; eauto 6|].
  destruct (e_commit (o (w_tick w))) eqn:E3; [exfalso; eauto|].
  destruct (f _ _); [|done]. by destruct w.
Qed.

Lemma iwp_query {A} o w (f : env -> DB -> result A) (Q : A -> world -> Prop) E :
  reliable o ->
  match f (o (w_tick w)) (w_db w) with Ok a => Q a (w_next w) | Err x => E x (w_next w) end ->
  iwp o w (autocommit (query f)) Q E.
Proof. intros Hrel HQ. unfold iwp. by rewrite autocommit_query by apply Hrel. Qed.

(** Looking up a queue keeps a coherent cache coherent. *)
Lemma iwp_getQueueMetadata_coherent o w qt name (Q : queueMetadata -> world -> Prop) E :
  qt = QueueTypeChannel \/ qt = QueueTypePubSub -> reliable o -> cache_coherent w ->
  (forall meta w', lookup_queue qt name (w_db w) = Some meta -> frame w w' -> cache_coherent w' ->
     Q meta w') ->
  (forall w', lookup_queue qt name (w_db w) = None -> frame w w' -> cache_coherent w' ->
     E ErrQueueNotFound w') ->
  iwp o w (getQueueMetadata qt name) Q E.
Proof.
  intros Hqt Hrel Hc HQ HN. unfold getQueueMetadata. iwp_step. apply iwp_query; [done|].
  destruct (lookup_queue qt name (w_db w)) as [meta|] eqn:El.
  2: { iwp_step. by apply HN. }
  repeat iwp_step. apply HQ; [done|done|]. intros qt' name' item Hqt' Hi. cbn in Hi |- *.
  match type of Hi with cache_set ?now _ _ ?tab ?mc !! _ = _ =>
    pose proof (lookup_weaken _ _ _ _ Hi (cache_set_subseteq now (queue_type_string qt) name tab mc mc
      (reflexivity _))) as Hj end.
  apply lookup_insert_Some in Hj as [[Hk <-]|[_ Hj]]; [|by apply (Hc qt' name')].
  apply (cache_key_inj qt qt' name name' Hqt Hqt') in Hk as [<- <-]. by exists meta.
Qed.

Lemma cache_get_subseteq now t n mc : (cache_get now t n mc).2 ⊆ mc.
Proof. unfold cache_get. repeat case_match; [apply delete_subseteq|done..]. Qed.

Lemma iwp_cachedTableName_coherent o w qt name (Q : string -> world -> Prop) E :
  qt = QueueTypeChannel \/ qt = QueueTypePubSub -> reliable o -> cache_coherent w ->
  (forall meta w', lookup_queue qt name (w_db w) = Some meta -> frame w w' -> cache_coherent w' ->
     Q (q_TableName meta) w') ->
  (forall w', lookup_queue qt name (w_db w) = None -> frame w w' -> cache_coherent w' ->
     E ErrQueueNotFound w') ->
  iwp o w (cachedTableName qt name) Q E.
Proof.
  intros Hqt Hrel Hc HQ HN. unfold cachedTableName. do 4 iwp_step. cbn [w_next w_cache].
  pose proof (cache_get_subseteq (e_time (o (w_tick w))) (queue_type_string qt) name (w_cache w)) as Hs.
  pose proof (cache_get_hit (e_time (o (w_tick w))) (queue_type_string qt) name (w_cache w)) as Hh.
  destruct (cache_get _ _ _ (w_cache w)) as [hit cache]. cbn [fst snd] in Hs, Hh.
  set (w1 := set_w_cache cache (w_next w)).
  assert (cache_coherent w1) as Hc1.
  { intros qt' name' item Hqt' Hi. apply (Hc qt' name'); [done|]. by eapply lookup_weaken. }
  do 2 iwp_step. fold w1. destruct hit as [t|].
  - destruct (proj1 (Hh t) eq_refl) as (item & Hi & <- & _).
    destruct (Hc qt name item Hqt Hi) as (meta & Hl & <-). iwp_step. by apply HQ.
  - iwp_step. apply iwp_getQueueMetadata_coherent; [done..| |].
    + intros meta w' Hl Hf Hc'. iwp_step. apply HQ; [done| |done]. by eapply frame_trans; [|exact Hf].
    + intros w' Hl Hf Hc'. apply HN; [done| |done]. by eapply frame_trans; [|exact Hf].
Qed.

Lemma calm_oracle_reliable : reliable calm_oracle.
Proof. intros n. apply calm_env_not_faulty. Qed.

(** ** Keyset pagination *)

Definition queues_of (qt : QueueType) (d : DB) : list (Z * queueMetadata) :=
  sql_select (fun _ m => bool_decide (q_QueueType m = qt)) (fun _ => 0) (db_metadata d).

(** The next page of the listing, after the items read so far. *)
Lemma next_page page qt d items rest :
  queues_of qt d = items ++ rest ->
  sql_select_limit page (after_key qt (fst <$> last items)) (fun _ => 0) (db_metadata d) =
  take page rest.
Proof.
  intros H. unfold sql_select_limit. f_equal. unfold after_key.
  rewrite (sql_select_filter (fun _ m => bool_decide (q_QueueType m = qt))
    (fun i _ => match fst <$> last items with None => true | Some a => a <? i end)).
  fold (queues_of qt d). rewrite H. destruct (last items) as [x|] eqn:Hl; cbn.
  - apply keyset_resume; [..|done]; rewrite <-H; [apply sql_select_sorted|apply NoDup_sql_select].
  - apply last_None in Hl as ->. by apply filter_keep.
Qed.

Lemma listQueuesLoop_spec o page qt fuel w items rest :
  reliable o -> (0 < page)%nat -> (length rest < fuel)%nat ->
  queues_of qt (w_db w) = items ++ rest ->
  exists w', listQueuesLoop fuel page qt (fst <$> last items) items o w =
    (Ok (items ++ rest), w') /\ frame w w'.
Proof.
  intros Hr Hp. revert w items rest. induction fuel as [|fuel IH]; intros w items rest Hf Hq;
    [lia|]. cbn [listQueuesLoop]. unfold mbind, io_bind, fetchQueueMetadataPage.
  rewrite autocommit_query by apply Hr. rewrite (next_page page qt _ _ _ Hq).
  destruct (Nat.ltb_spec (length (take page rest)) page) as [Hlt|Hge];
    rewrite length_take in *.
  - exists (w_next w). rewrite take_ge by lia. done.
  - destruct (IH (w_next w) (items ++ take page rest) (drop page rest)) as (w' & Heq & Hfr).
    + rewrite length_drop. lia.
    + cbn. by rewrite <-(assoc_L (++)), take_drop.
    + exists w'. rewrite Heq, <-(assoc_L (++)), take_drop. split; [done|]. by eapply frame_trans; [|exact Hfr].
Qed.

(** ** Active subscribers *)

Lemma wp_getActiveSubscribers e n d cfg topic
    (Q : list subscriber -> nat -> option DB -> Prop) E :
  (forall x, faulty e -> E (ErrDriver x)) ->
  (if (0 <? maxSubscribersPerTopic cfg) &&
      (maxSubscribersPerTopic cfg <? Z.of_nat (length (active_subscribers topic d)))
   then E ErrTooManySubscribers
   else Q (snd <$> active_subscribers topic d) (S n) (Some d)) ->
  wp e n (Some d) (getActiveSubscribers cfg topic) Q E.
Proof.
  intros HF H. unfold getActiveSubscribers. do 2 wp_step.
  destruct (Z.ltb_spec 0 (maxSubscribersPerTopic cfg)) as [Hm|Hm]; cbn [andb] in *; [|by wp_step].
  rewrite length_fmap, length_take.
  destruct (Z.ltb_spec (maxSubscribersPerTopic cfg)
    (Z.of_nat (length (active_subscribers topic d)))) as [Hl|Hl].
  - rewrite (proj2 (Z.ltb_lt _ _)) by lia. by wp_step.
  - rewrite (proj2 (Z.ltb_ge _ _)) by lia. rewrite take_ge by lia. by wp_step.
Qed.

(** ** Properties *)

(** A missed ack, nack or lease extension is explained by the row alone: no
    row is [ErrMessageNotFound]; a receipt without a claim, or whose claim still
    owns a row that left 'processing', is [ErrMessageAlreadyAcked]; every other
    receipt is fenced off with [ErrClaimExpired], in particular one whose claim
    was cleared or replaced. *)
Theorem classifyClaimMiss_cases (row : option (MessageStatus * option uuid)) (c : uuid) :
  (classifyClaimMiss row c = ErrMessageNotFound <-> row = None) /\
  (classifyClaimMiss row c = ErrMessageAlreadyAcked <->
     exists st k, row = Some (st, k) /\
       (c = nil_uuid \/ (k = Some c /\ st <> MessageStatusProcessing))) /\
  (classifyClaimMiss row c = ErrClaimExpired <->
     c <> nil_uuid /\ exists st k, row = Some (st, k) /\
       (k <> Some c \/ st = MessageStatusProcessing)).
Proof.
  destruct row as [[st k]|]; cbn; [|naive_solver].
  unfold classifyClaimState. cbn [negb]. destruct (Z.eqb_spec c nil_uuid) as [->|Hc].
  { split_and!; naive_solver. }
  destruct k as [k|]; [|split_and!; naive_solver].
  destruct (Z.eqb_spec k c) as [->|Hk]; cbn [andb]; [|split_and!; naive_solver].
  destruct (decide (st = MessageStatusProcessing)) as [->|Hst].
  - rewrite bool_decide_eq_true_2 by done. cbn [negb]. split_and!; naive_solver.
  - rewrite bool_decide_eq_false_2 by done. cbn [negb]. split_and!; naive_solver.
Qed.

(** The keyset-paginated listing terminates and returns exactly the queues of
    the requested type, each once, in creation (id) order, however many pages of
    1000 that takes. *)
Theorem listQueuesRaw_complete (o : oracle) (w : world) (qt : QueueType) :
  reliable o ->
  exists rows w', listQueuesRaw qt o w = (Ok rows, w') /\ frame w w' /\
    StronglySorted (row_le (fun _ => 0)) rows /\ NoDup rows.*1 /\
    forall i m, (i, m) ∈ rows <-> db_metadata (w_db w) !! i = Some m /\ q_QueueType m = qt.
Proof.
  intros Hr. unfold listQueuesRaw, mbind, io_bind. cbn [get_world].
  destruct (listQueuesLoop_spec o listQueuesPageSize qt
    (Datatypes.S (size (db_metadata (w_db w)))) w [] (queues_of qt (w_db w)))
    as (w' & Heq & Hf); [done|unfold listQueuesPageSize; lia| |done|].
  { unfold queues_of, sql_select. rewrite merge_sort_Permutation.
    pose proof (length_filter (fun x : Z * queueMetadata =>
      bool_decide (q_QueueType x.2 = qt) = true) (map_to_list (db_metadata (w_db w)))) as Hl.
    rewrite length_map_to_list in Hl. lia. }
  exists (queues_of qt (w_db w)), w'. split; [exact Heq|]. split_and!;
    [done|apply sql_select_sorted|apply NoDup_sql_select|].
  intros i m. unfold queues_of. by rewrite elem_of_sql_select, bool_decide_eq_true.
Qed.

(** Two channels and a topic. *)
Definition witness_queues : DB :=
  set_metadata (<[3 := mkQueueMetadata 3 QueueTypeChannel "b" "b" ConfigEmpty false 0 0]>
    (<[2 := mkQueueMetadata 2 QueueTypePubSub "t" "t" ConfigEmpty false 0 0]>
      {[1 := mkQueueMetadata 1 QueueTypeChannel "a" "a" ConfigEmpty false 0 0]})) empty_DB.

Lemma listQueuesRaw_complete_witness :
  (match (listQueuesRaw QueueTypeChannel calm_oracle (new_world witness_queues)).1 with
   | Ok rows => rows.*1 | _ => [] end) = [1; 3] /\
  exists rows w', listQueuesRaw QueueTypeChannel calm_oracle (new_world witness_queues) =
      (Ok rows, w') /\ NoDup rows.*1.
Proof.
  split; [vm_compute; reflexivity|].
  destruct (listQueuesRaw_complete calm_oracle (new_world witness_queues) QueueTypeChannel
    calm_oracle_reliable) as (rows & w' & H & _ & _ & Hn & _).
  exists rows, w'. split; [exact H|exact Hn].
Defined.
