(* ===== verification/Channel.v ===== *)
(** * Point-to-point channels ([channel.go])

    Consuming, acknowledging, extending, retrying and dead-lettering the messages
    of a channel.  The statements of a transaction body work on the channel's own
    tables ([channelTables]); the methods of [Queue] select them by table name. *)

From S2P Require Import Prelude Types Tx Backoff Utf8 MetadataCache World Config Queries.
From Stdlib Require Import ZArith Lia.
Local Open Scope Z_scope.

Definition minVisibilityTimeout : Duration := 1 * millisecond.
Definition maxVisibilityTimeout : Duration := 24 * hour.
Definition maxConsumeReclaimDefers : nat := 64.

Definition validateVisibilityTimeout (d : Duration) : result unit :=
  if (d <? minVisibilityTimeout) || (maxVisibilityTimeout <? d)
  then Err ErrInvalidVisibilityTimeout else Ok tt.

Definition errReasonVisibilityTimeout : bytes :=
  String.list_byte_of_string "exceeded max retries: not acknowledged before visibility timeout".

(** ** Row updates *)

Definition claim_row (retryCount : Z) (claim : uuid) (deadline : timestamp) (r : channelRow) :
    channelRow :=
  mkChannelRow (c_payload r) (c_created_at r) MessageStatusProcessing retryCount (c_max_retries r)
    (Some deadline) (c_available_at r) (Some claim) (c_processed_at r) (c_error_message r)
    (c_metadata r).

Definition complete_row (now : timestamp) (r : channelRow) : channelRow :=
  mkChannelRow (c_payload r) (c_created_at r) MessageStatusCompleted (c_retry_count r)
    (c_max_retries r) (c_visibility_timeout r) (c_available_at r) (c_claim_id r) (Some now)
    (c_error_message r) (c_metadata r).

Definition extend_row (deadline : timestamp) (r : channelRow) : channelRow :=
  mkChannelRow (c_payload r) (c_created_at r) (c_status r) (c_retry_count r) (c_max_retries r)
    (Some deadline) (c_available_at r) (c_claim_id r) (c_processed_at r) (c_error_message r)
    (c_metadata r).

(** Back to pending, with the claim and the deadline cleared. *)
Definition pend_row (retryCount : Z) (available : timestamp) (error : option bytes)
    (r : channelRow) : channelRow :=
  mkChannelRow (c_payload r) (c_created_at r) MessageStatusPending retryCount (c_max_retries r)
    None available None (c_processed_at r) error (c_metadata r).

(** [WHERE id = $1 AND claim_id = $2 AND status = 'processing'] *)
Definition owns (claim : uuid) (r : channelRow) : bool :=
  bool_decide (c_claim_id r = Some claim) && bool_decide (c_status r = MessageStatusProcessing).

(** CHECK (retry_count >= 0) *)
Definition retry_check (z : Z) : option driver_err :=
  if z <? 0 then Some check_violation else None.

Section channel.
Context `{Server} (cfg : queueConfig).

(** ** Consuming *)

(** The effective retry limit of a message. *)
Definition channelMaxRetries (defaultMax : Z) (maxRetries : option Z) : Z :=
  match maxRetries with Some m => m | None => defaultMax end.

(** The optional clause [AND created_at > NOW() - make_interval(secs => $1)]. *)
Definition within_ttl (ttl : Duration) (now created : timestamp) : bool :=
  if 0 <? ttl then now - make_interval ttl <? created else true.

(** [status = 'pending' AND available_at <= NOW()], not locked, within the TTL *)
Definition channel_pending (ttl : Duration) (e : env) (i : Z) (r : channelRow) : bool :=
  bool_decide (c_status r = MessageStatusPending) && (c_available_at r <=? e_now e) &&
  within_ttl ttl (e_now e) (c_created_at r) && negb (bool_decide (i ∈ e_locked e)).

(** [visibility_timeout < NOW()], NULL comparing as not true *)
Definition timed_out (now : timestamp) (v : option timestamp) : bool :=
  match v with Some t => t <? now | None => false end.

(** [status = 'processing' AND visibility_timeout < NOW()], not locked, within the TTL *)
Definition channel_reclaimable (ttl : Duration) (e : env) (i : Z) (r : channelRow) : bool :=
  bool_decide (c_status r = MessageStatusProcessing) &&
  timed_out (e_now e) (c_visibility_timeout r) &&
  within_ttl ttl (e_now e) (c_created_at r) && negb (bool_decide (i ∈ e_locked e)).

(** The two probes of [channelConsumeQueries]: ORDER BY (available_at, id), and
    ORDER BY (visibility_timeout, id), LIMIT 1. *)
Definition channelPendingQuery (ttl : Duration) : tx channelTables (option (Z * channelRow)) :=
  query (fun e t => Ok (head (sql_select (channel_pending ttl e) c_available_at (ct_msgs t)))).
Definition channelReclaimQuery (ttl : Duration) : tx channelTables (option (Z * channelRow)) :=
  query (fun e t => Ok (head (sql_select (channel_reclaimable ttl e)
    (fun r => default 0 (c_visibility_timeout r)) (ct_msgs t)))).

Definition claimChannelMessage (visibilityTimeout : Duration) (row : Z * channelRow)
    (retryCount : Z) : tx channelTables (option (Message * timestamp)) :=
  let '(id, r) := row in
  '(visTimeout, claimID) ← stmt (fun e n t =>
    let deadline := e_now e + make_interval visibilityTimeout in
    let claim := e_gen e n 0%nat in
    match ct_msgs t !! id with
    | None => (Err sql_ErrNoRows, t)
    | Some cur =>
        match retry_check retryCount with
        | Some d => (Err (ErrDriver d), t)
        | None => (Ok (deadline, claim),
                   set_ct_msgs (<[id := claim_row retryCount claim deadline cur]> (ct_msgs t)) t)
        end
    end);
  mret (Some (mkMessage id claimID (c_payload r) (c_created_at r) MessageStatusProcessing
    retryCount (channelMaxRetries (defaultMaxRetries cfg) (c_max_retries r)) None
    (c_processed_at r) (c_error_message r) (parseMetadataJSON (c_metadata r)) None, visTimeout)).

Definition moveToDLQ (messageID : uuid) (errorMsg : bytes) (payload : bytes) (retryCount : Z)
    (metadata : option jval) : tx channelTables unit :=
  let errorMsg := truncateErrorMsg errorMsg in
  stmt (fun e n t =>
    let id := e_gen e n 0%nat in
    let row := mkDlqEntry messageID None payload errorMsg retryCount (e_now e) metadata in
    if negb (text_ok errorMsg) then (Err (ErrDriver untranslatable), t)
    else
      match retry_check retryCount, ct_dlq t !! id with
      | Some d, _ => (Err (ErrDriver d), t)
      | None, Some _ => (Err (ErrDriver unique_violation), t)
      | None, None => (Ok tt, set_ct_dlq (<[id := row]> (ct_dlq t)) t)
      end) ;;
  stmt (fun _ _ t => (Ok tt, set_ct_msgs (delete messageID (ct_msgs t)) t)).

Definition deferReclaimedChannelMessage (messageID : uuid) (retryCount : Z) (delay : Duration) :
    tx channelTables unit :=
  stmt (fun e _ t =>
    match ct_msgs t !! messageID, retry_check retryCount with
    | Some _, Some d => (Err (ErrDriver d), t)
    | Some r, None =>
        (Ok tt, set_ct_msgs (<[messageID := pend_row retryCount (e_now e + make_interval delay)
                                (c_error_message r) r]> (ct_msgs t)) t)
    | None, _ => (Ok tt, t)
    end).

(** Returns the retry count to claim with, and whether the row was dealt with here
    (promoted to the DLQ, or deferred by the backoff policy). *)
Definition reclaimChannelAttempt (row : Z * channelRow) : tx channelTables (Z * bool) :=
  let '(id, r) := row in
  match c_status r with
  | MessageStatusProcessing =>
      let retryCount := wrap64 (c_retry_count r + 1) in
      if channelMaxRetries (defaultMaxRetries cfg) (c_max_retries r) <? retryCount then
        moveToDLQ id errReasonVisibilityTimeout (c_payload r) retryCount (c_metadata r) ;;
        mret (0, true)
      else if backoffConfigured cfg then
        delay ← computeRetryDelay cfg retryCount 0;
        deferReclaimedChannelMessage id retryCount delay ;;
        mret (0, true)
      else mret (retryCount, false)
  | MessageStatusPending => mret (c_retry_count r, false)
  | MessageStatusCompleted | MessageStatusAcked => throw ErrUnexpectedMessageStatus
  end.

(** The loop of [fetchPendingChannelMessage]; [left] timed-out messages may still
    be skipped. *)
Fixpoint fetchChannelLoop (left : nat) (visibilityTimeout ttl : Duration) :
    tx channelTables (option (Message * timestamp)) :=
  match left with
  | O => mret None
  | Datatypes.S left' =>
      pending ← channelPendingQuery ttl;
      match pending with
      | Some row => claimChannelMessage visibilityTimeout row (c_retry_count row.2)
      | None =>
          timedOut ← channelReclaimQuery ttl;
          match timedOut with
          | None => mret None
          | Some row =>
              '(retryCount, deferred) ← reclaimChannelAttempt row;
              if (deferred : bool) then fetchChannelLoop left' visibilityTimeout ttl
              else claimChannelMessage visibilityTimeout row retryCount
          end
      end
  end.

Definition fetchPendingChannelMessage (visibilityTimeout ttl : Duration) :
    tx channelTables (option (Message * timestamp)) :=
  fetchChannelLoop maxConsumeReclaimDefers visibilityTimeout ttl.

Definition set_visibility (v : option timestamp) (m : Message) : Message :=
  mkMessage (m_ID m) (m_ClaimID m) (m_Payload m) (m_CreatedAt m) (m_Status m) (m_RetryCount m)
    (m_MaxRetries m) v (m_ProcessedAt m) (m_ErrorMessage m) (m_Metadata m) (m_receipt m).

Definition consumeFromChannel (channelName : string) (visibilityTimeout : Duration) :
    io (option Message) :=
  checkClosed ;;
  from_result (validateVisibilityTimeout visibilityTimeout) ;;
  queueMeta ← map_err (not_found_as ErrChannelNotFound)
                (getQueueMetadata QueueTypeChannel channelName);
  if q_Paused queueMeta then fail ErrQueuePaused
  else
    let ttl := getQueueTTL cfg (q_Config queueMeta) in
    msg ← withTx (on_channel (q_TableName queueMeta)
                    (fetchPendingChannelMessage visibilityTimeout ttl));
    mret ((fun p => set_visibility (Some p.2) p.1) <$> msg).

(** ** Acknowledging and extending *)

(** The fenced UPDATE of a claimed row, and the classification of a miss. *)
Definition update_claimed (r : Receipt) (f : env -> channelRow -> channelRow) :
    tx channelTables unit :=
  rows ← stmt (fun e _ t =>
    let '(m, n) := sql_update_id (r_MessageID r) (owns (r_ClaimID r)) (f e) (ct_msgs t) in
    (Ok n, set_ct_msgs m t));
  if (rows =? 0)%nat then classifyChannelAckMiss r else mret tt.

Definition ack_tx (r : Receipt) : tx channelTables unit :=
  update_claimed r (fun e => complete_row (e_now e)).

Definition ackChannel (channelName : string) (r : Receipt) : io unit :=
  t ← map_err (not_found_as ErrChannelNotFound) (cachedTableName QueueTypeChannel channelName);
  withTx (on_channel t (ack_tx r)).

Definition extend_tx (r : Receipt) (d : Duration) : tx channelTables unit :=
  update_claimed r (fun e => extend_row (e_now e + make_interval d)).

Definition extendChannelVisibility (channelName : string) (r : Receipt) (d : Duration) : io unit :=
  t ← map_err (not_found_as ErrChannelNotFound) (cachedTableName QueueTypeChannel channelName);
  withTx (on_channel t (extend_tx r d)).

(** ** Negative acknowledgement *)

Record messageState := mkMessageState {
  ms_retryCount : Z;
  ms_maxRetries : option Z;
  ms_payload : bytes;
  ms_metadata : option jval
}.

Definition getProcessingMessageState (r : Receipt) : tx channelTables messageState :=
  row ← query (fun _ t => Ok (
    match ct_msgs t !! r_MessageID r with
    | Some x => if owns (r_ClaimID r) x then Some x else None
    | None => None
    end));
  match row with
  | Some x => mret (mkMessageState (c_retry_count x) (c_max_retries x) (c_payload x) (c_metadata x))
  | None => classifyChannelAckMiss r
  end.

Definition retryMessage (messageID : uuid) (errorMsg : bytes) (delay : Duration) :
    tx channelTables unit :=
  stmt (fun e _ t =>
    if negb (text_ok errorMsg) then (Err (ErrDriver untranslatable), t)
    else
      match ct_msgs t !! messageID with
      | None => (Ok tt, t)
      | Some r =>
          if int64_max <? c_retry_count r + 1 then (Err (ErrDriver out_of_range), t)
          else (Ok tt, set_ct_msgs
            (<[messageID := pend_row (c_retry_count r + 1) (e_now e + make_interval delay)
                             (Some errorMsg) r]> (ct_msgs t)) t)
      end).

Definition handleNack (messageID : uuid) (errorMsg : bytes) (state : messageState)
    (retryDelay : Duration) : tx channelTables unit :=
  let maxRetry := channelMaxRetries (defaultMaxRetries cfg) (ms_maxRetries state) in
  if maxRetry <? wrap64 (ms_retryCount state + 1) then
    moveToDLQ messageID errorMsg (ms_payload state) (wrap64 (ms_retryCount state + 1))
      (ms_metadata state)
  else
    delay ← computeRetryDelay cfg (wrap64 (ms_retryCount state + 1)) retryDelay;
    retryMessage messageID errorMsg delay.

Definition nack_tx (r : Receipt) (errorMsg : bytes) (retryDelay : Duration) :
    tx channelTables unit :=
  msgState ← getProcessingMessageState r;
  handleNack (r_MessageID r) errorMsg msgState retryDelay.

Definition nackChannelImpl (channelName : string) (r : Receipt) (errorMsg : bytes)
    (retryDelay : Duration) : io unit :=
  let errorMsg := truncateErrorMsg errorMsg in
  queueMeta ← map_err (not_found_as ErrChannelNotFound)
                (getQueueMetadata QueueTypeChannel channelName);
  withTx (on_channel (q_TableName queueMeta) (nack_tx r errorMsg retryDelay)).

Definition nackChannelWithOpts (channelName : string) (r : Receipt) (errorMsg : bytes)
    (opts : list NackOption) : io unit :=
  nackChannelImpl channelName r errorMsg (resolveNackRetryDelay opts).

End channel.

(** ** Specification vocabulary *)

Section channel_spec.
Context `{Server} (cfg : queueConfig).

(** The retry limit in force for a row. *)
Definition limit (r : channelRow) : Z := channelMaxRetries (defaultMaxRetries cfg) (c_max_retries r).

(** The state machine of a row: which columns go with which status, and the retry
    count within its limit. *)
Definition status_wf (r : channelRow) : Prop :=
  match c_status r with
  | MessageStatusPending => c_claim_id r = None /\ c_visibility_timeout r = None
  | MessageStatusProcessing => is_Some (c_claim_id r) /\ is_Some (c_visibility_timeout r)
  | MessageStatusCompleted => is_Some (c_claim_id r) /\ is_Some (c_processed_at r)
  | MessageStatusAcked => False
  end.
Definition row_wf (r : channelRow) : Prop :=
  status_wf r /\ 0 <= c_retry_count r <= limit r /\ limit r < int64_max.

Definition dlq_wf (d : dlqEntry) : Prop :=
  0 <= d_retry_count d /\ text_ok (d_failure_reason d) = true /\
  (length (d_failure_reason d) <= maxErrorMessageLength)%nat.

Definition channel_inv (t : channelTables) : Prop :=
  (forall i r, ct_msgs t !! i = Some r -> row_wf r) /\
  (forall k d, ct_dlq t !! k = Some d -> dlq_wf d).

(** uuidv7() never repeats itself, nor a key already in the dead-letter table. *)
Definition gen_fresh (e : env) (n : nat) (t : channelTables) : Prop :=
  (forall m i, (n <= m)%nat -> ct_dlq t !! e_gen e m i = None) /\
  (forall m m' i i', e_gen e m i = e_gen e m' i' -> m = m' /\ i = i').

(** Every message of [t] is in [t'], with its payload and metadata, or was
    dead-lettered under its id with them; no dead letter is lost. *)
Definition conserves (t t' : channelTables) : Prop :=
  (forall i r, ct_msgs t !! i = Some r ->
     (exists r', ct_msgs t' !! i = Some r' /\ c_payload r' = c_payload r /\
        c_metadata r' = c_metadata r /\ c_created_at r' = c_created_at r /\
        c_max_retries r' = c_max_retries r) \/
     (exists k d, ct_dlq t' !! k = Some d /\ d_original_message_id d = i /\
        d_payload d = c_payload r /\ d_metadata d = c_metadata r)) /\
  ct_dlq t ⊆ ct_dlq t'.

(** A message moved to the dead-letter table under key [k]. *)
Definition dead_letter (now : timestamp) (k id : Z) (reason payload : bytes) (rc : Z)
    (metadata : option jval) (t : channelTables) : channelTables :=
  mkChannelTables (delete id (ct_msgs t))
    (<[k := mkDlqEntry id None payload (truncateErrorMsg reason) rc now metadata]> (ct_dlq t)).

Definition put_row (id : Z) (r : channelRow) (t : channelTables) : channelTables :=
  set_ct_msgs (<[id := r]> (ct_msgs t)) t.

Definition next_pending (e : env) (ttl : Duration) (t : channelTables) : option (Z * channelRow) :=
  head (sql_select (channel_pending ttl e) c_available_at (ct_msgs t)).
Definition next_timed_out (e : env) (ttl : Duration) (t : channelTables) : option (Z * channelRow) :=
  head (sql_select (channel_reclaimable ttl e) (fun r => default 0 (c_visibility_timeout r))
    (ct_msgs t)).

(** One timed-out message the consume loop skips: dead-lettered when exhausted,
    otherwise put back behind the backoff delay. *)
Definition skip1 (e : env) (ttl : Duration) (t t' : channelTables) : Prop :=
  exists id r, next_pending e ttl t = None /\ next_timed_out e ttl t = Some (id, r) /\
  ((limit r < c_retry_count r + 1 /\
    exists j, let k := e_gen e j 0%nat in ct_dlq t !! k = None /\
      t' = dead_letter (e_now e) k id errReasonVisibilityTimeout (c_payload r)
             (c_retry_count r + 1) (c_metadata r) t) \/
   (c_retry_count r + 1 <= limit r /\ backoffConfigured cfg = true /\
    exists delay, retry_delay_ok (backoffPolicy cfg) (c_retry_count r + 1) 0 delay /\
      t' = put_row id (pend_row (c_retry_count r + 1) (e_now e + make_interval delay)
             (c_error_message r) r) t)).

Inductive skips (e : env) (ttl : Duration) : nat -> channelTables -> channelTables -> Prop :=
| skips_O t : skips e ttl 0 t t
| skips_S k t t1 t2 : skip1 e ttl t t1 -> skips e ttl k t1 t2 ->
    skips e ttl (Datatypes.S k) t t2.

(** The message the consume call hands out of [t], and the retry count it gets:
    the first available pending one, or else the longest timed-out one. *)
Definition delivers (e : env) (ttl : Duration) (t : channelTables) (id : Z) (r : channelRow)
    (rc : Z) : Prop :=
  (next_pending e ttl t = Some (id, r) /\ rc = c_retry_count r) \/
  (next_pending e ttl t = None /\ next_timed_out e ttl t = Some (id, r) /\
   rc = c_retry_count r + 1 /\ rc <= limit r /\ backoffConfigured cfg = false).

(** The [Message] handed out for a row claimed under [claim]. *)
Definition delivered (id : Z) (r : channelRow) (rc : Z) (claim : uuid) : Message :=
  mkMessage id claim (c_payload r) (c_created_at r) MessageStatusProcessing rc (limit r) None
    (c_processed_at r) (c_error_message r) (parseMetadataJSON (c_metadata r)) None.

(** The channel [name] exists, with metadata [meta] and tables [ct]. *)
Definition channel_at (d : DB) (name : string) (meta : queueMetadata) (ct : channelTables) : Prop :=
  lookup_queue QueueTypeChannel name d = Some meta /\
  db_channels d !! q_TableName meta = Some ct.

(** The database with the tables of one channel replaced. *)
Definition put_channel (meta : queueMetadata) (ct : channelTables) (d : DB) : DB :=
  set_channels (<[q_TableName meta := ct]> (db_channels d)) d.

Lemma put_channel_put meta a b d : put_channel meta a (put_channel meta b d) = put_channel meta a d.
Proof. unfold put_channel, set_channels. cbn. by rewrite insert_insert_eq. Qed.

Lemma channel_at_put d name meta ct ct' :
  channel_at d name meta ct -> channel_at (put_channel meta ct' d) name meta ct'.
Proof. intros [Hl _]. split; [exact Hl|]. cbn. by rewrite lookup_insert_eq. Qed.

Lemma put_channel_same meta d ct :
  db_channels d !! q_TableName meta = Some ct -> put_channel meta ct d = d.
Proof. intros Hct. unfold put_channel. rewrite insert_id by done. by destruct d. Qed.

(** The row a receipt still owns. *)
Definition owned (t : channelTables) (rc : Receipt) : option channelRow :=
  match ct_msgs t !! r_MessageID rc with
  | Some r => if owns (r_ClaimID rc) r then Some r else None
  | None => None
  end.

(** Why a receipt owns no row. *)
Definition miss (t : channelTables) (rc : Receipt) : err :=
  classifyClaimMiss ((fun x => (c_status x, c_claim_id x)) <$> ct_msgs t !! r_MessageID rc)
    (r_ClaimID rc).

End channel_spec.

(** ** Lemmas *)

Section channel_lemmas.
Context `{Server} (cfg : queueConfig).
Implicit Types (t : channelTables) (r : channelRow).

Lemma next_pending_Some e ttl t id r :
  next_pending e ttl t = Some (id, r) ->
  ct_msgs t !! id = Some r /\ channel_pending ttl e id r = true.
Proof. by intros Hh%head_Some_elem_of%elem_of_sql_select. Qed.

Lemma next_timed_out_Some e ttl t id r :
  next_timed_out e ttl t = Some (id, r) ->
  ct_msgs t !! id = Some r /\ channel_reclaimable ttl e id r = true.
Proof. by intros Hh%head_Some_elem_of%elem_of_sql_select. Qed.

Lemma reclaimable_processing ttl e id r :
  channel_reclaimable ttl e id r = true -> c_status r = MessageStatusProcessing.
Proof. unfold channel_reclaimable. rewrite !andb_true_iff, bool_decide_eq_true. tauto. Qed.

Lemma pending_pending ttl e id r :
  channel_pending ttl e id r = true -> c_status r = MessageStatusPending.
Proof. unfold channel_pending. rewrite !andb_true_iff, bool_decide_eq_true. tauto. Qed.

(** *** Row updates keep rows well formed *)

Lemma claim_row_wf rc claim deadline r :
  row_wf cfg r -> 0 <= rc <= limit cfg r -> row_wf cfg (claim_row rc claim deadline r).
Proof. intros (_ & _ & ?) ?. split; [split; by eexists|done]. Qed.

Lemma complete_row_wf now claim r :
  row_wf cfg r -> c_claim_id r = Some claim -> row_wf cfg (complete_row now r).
Proof. intros (_ & ? & ?) Hc. split; [split; cbn; [rewrite Hc|]; by eexists|done]. Qed.

Lemma extend_row_wf deadline r :
  row_wf cfg r -> c_status r = MessageStatusProcessing -> row_wf cfg (extend_row deadline r).
Proof.
  intros (Hs & ? & ?) Hst. split; [|done]. unfold status_wf in *. cbn. rewrite Hst in *.
  split; [tauto|by eexists].
Qed.

Lemma pend_row_wf rc available error r :
  row_wf cfg r -> 0 <= rc <= limit cfg r -> row_wf cfg (pend_row rc available error r).
Proof. intros (_ & _ & ?) ?. by split; [split|]. Qed.

Lemma put_row_inv id r t : channel_inv cfg t -> row_wf cfg r -> channel_inv cfg (put_row id r t).
Proof.
  intros [Hm Hd] Hr. split; [|done]. intros i q. cbn.
  rewrite lookup_insert_Some. intros [[<- <-]|[_ ?]]; eauto.
Qed.

Lemma dead_letter_inv now k id reason p rc md t :
  channel_inv cfg t -> 0 <= rc -> text_ok (truncateErrorMsg reason) = true ->
  channel_inv cfg (dead_letter now k id reason p rc md t).
Proof.
  intros [Hm Hd] Hrc Ht. split.
  - intros i q. cbn. rewrite lookup_delete_Some. intros [_ ?]. eauto.
  - intros j q. cbn. rewrite lookup_insert_Some. intros [[<- <-]|[_ ?]]; [|eauto].
    split_and!; cbn; [done..|apply truncateErrorMsg_length].
Qed.

(** *** Conservation *)

Lemma conserves_refl t : conserves t t.
Proof. split; [|done]. intros i r Hi. left. by exists r. Qed.

Lemma conserves_trans t1 t2 t3 : conserves t1 t2 -> conserves t2 t3 -> conserves t1 t3.
Proof.
  intros [Hm Hd] [Hm' Hd']. split; [|by etrans].
  intros i r Hi. destruct (Hm i r Hi) as [(r' & Hi' & Hp & Hmd & Hc & Hx)|(k & d & Hk & ?)].
  - destruct (Hm' i r' Hi') as [(r'' & Hi'' & Hp' & Hmd' & Hc' & Hx')|(k & d & Hk & Ho & Hp' & Hmd')].
    + left. exists r''. split_and!; congruence.
    + right. exists k, d. split_and!; congruence.
  - right. exists k, d. split; [by eapply lookup_weaken|done].
Qed.

(** Rewriting a row but for its payload, metadata, creation time and limit. *)
Definition same_content (r r' : channelRow) : Prop :=
  c_payload r' = c_payload r /\ c_metadata r' = c_metadata r /\
  c_created_at r' = c_created_at r /\ c_max_retries r' = c_max_retries r.

Lemma put_row_conserves id r r' t :
  ct_msgs t !! id = Some r -> same_content r r' -> conserves t (put_row id r' t).
Proof.
  intros Hid Hs. split; [|done]. intros i q Hq. left.
  destruct (decide (i = id)) as [->|].
  - exists r'. cbn. rewrite lookup_insert_eq. rewrite Hid in Hq. injection Hq as <-.
    split; [done|]. unfold same_content in Hs. tauto.
  - exists q. cbn. by rewrite lookup_insert_ne.
Qed.

Lemma dead_letter_conserves now k id reason rc t r :
  ct_msgs t !! id = Some r -> ct_dlq t !! k = None ->
  conserves t (dead_letter now k id reason (c_payload r) rc (c_metadata r) t).
Proof.
  intros Hid Hk. split; [|by apply insert_subseteq].
  intros i q Hq. destruct (decide (i = id)) as [->|].
  - right. eexists k, _. cbn. rewrite lookup_insert_eq. split; [done|].
    rewrite Hid in Hq. by injection Hq as <-.
  - left. exists q. cbn. by rewrite lookup_delete_ne.
Qed.

(** *** Freshness *)

Lemma gen_fresh_mono e n n' t : (n <= n')%nat -> gen_fresh e n t -> gen_fresh e n' t.
Proof. intros Hn [Hf Hi]. split; [|done]. intros m i Hm. apply Hf. lia. Qed.

Lemma gen_fresh_put e n id r t : gen_fresh e n t -> gen_fresh e n (put_row id r t).
Proof. done. Qed.

Lemma gen_fresh_dead_letter e n i now id reason p rc md t :
  gen_fresh e n t -> gen_fresh e (Datatypes.S n) (dead_letter now (e_gen e n i) id reason p rc md t).
Proof.
  intros [Hf Hi]. split; [|done]. intros m j Hm. cbn. rewrite lookup_insert_ne.
  - apply Hf. lia.
  - intros [-> _]%Hi. lia.
Qed.

(** *** Transaction bodies *)

Lemma retry_check_pos z : 0 <= z -> retry_check z = None.
Proof. intros. unfold retry_check. by rewrite (proj2 (Z.ltb_ge _ _)). Qed.

Lemma wp_moveToDLQ e n t id msg p rc md (Q : unit -> nat -> option channelTables -> Prop) E :
  (forall d, faulty e -> E (ErrDriver d)) ->
  (text_ok (truncateErrorMsg msg) = false -> E (ErrDriver untranslatable)) ->
  0 <= rc -> gen_fresh e n t ->
  (text_ok (truncateErrorMsg msg) = true ->
   Q tt (S (S n)) (Some (dead_letter (e_now e) (e_gen e n 0%nat) id msg p rc md t))) ->
  wp e n (Some t) (moveToDLQ id msg p rc md) Q E.
Proof.
  intros HF HT Hrc [Hfr _] HQ. unfold moveToDLQ. do 2 wp_step.
  destruct (text_ok (truncateErrorMsg msg)) eqn:Ht; cbn [negb]; [|by apply HT].
  rewrite (retry_check_pos rc Hrc), Hfr by lia. wp_step. by apply HQ.
Qed.

Lemma wp_deferReclaimed e n t id rc delay r (Q : unit -> nat -> option channelTables -> Prop) E :
  (forall d, faulty e -> E (ErrDriver d)) ->
  ct_msgs t !! id = Some r -> 0 <= rc ->
  Q tt (S n) (Some (put_row id (pend_row rc (e_now e + make_interval delay) (c_error_message r) r) t)) ->
  wp e n (Some t) (deferReclaimedChannelMessage id rc delay) Q E.
Proof.
  intros HF Hid Hrc HQ. unfold deferReclaimedChannelMessage. wp_step.
  by rewrite Hid, (retry_check_pos rc Hrc).
Qed.

Lemma wp_claimChannelMessage e n t vt id r rc
    (Q : option (Message * timestamp) -> nat -> option channelTables -> Prop) E :
  (forall d, faulty e -> E (ErrDriver d)) ->
  ct_msgs t !! id = Some r -> 0 <= rc ->
  (let deadline := e_now e + make_interval vt in
   Q (Some (delivered cfg id r rc (e_gen e n 0%nat), deadline)) (S n)
     (Some (put_row id (claim_row rc (e_gen e n 0%nat) deadline r) t))) ->
  wp e n (Some t) (claimChannelMessage cfg vt (id, r) rc) Q E.
Proof.
  intros HF Hid Hrc HQ. unfold claimChannelMessage. do 2 wp_step.
  rewrite Hid, (retry_check_pos rc Hrc). by wp_step.
Qed.

(** A row past its limit after one more attempt has a retry count equal to it. *)
Lemma row_wf_retry r : row_wf cfg r -> wrap64 (c_retry_count r + 1) = c_retry_count r + 1.
Proof. intros (_ & ? & ?). apply wrap64_succ. lia. Qed.

Lemma errReasonVisibilityTimeout_ok :
  text_ok (truncateErrorMsg errReasonVisibilityTimeout) = true.
Proof. vm_compute. reflexivity. Qed.

Lemma skip1_inv e ttl t t' : channel_inv cfg t -> skip1 cfg e ttl t t' -> channel_inv cfg t'.
Proof.
  intros Hi (id & r & _ & [Hid _]%next_timed_out_Some & [(Hl & k & Hk & ->)|(Hl & _ & delay & Hd & ->)]).
  - destruct (proj1 Hi id r Hid) as (_ & ? & _). apply dead_letter_inv; [done|lia|].
    apply errReasonVisibilityTimeout_ok.
  - pose proof (proj1 Hi id r Hid) as Hr. apply put_row_inv; [done|]. apply pend_row_wf; [done|].
    destruct Hr as (_ & ? & _). lia.
Qed.

Lemma skip1_conserves e ttl t t' : skip1 cfg e ttl t t' -> conserves t t'.
Proof.
  intros (id & r & _ & [Hid _]%next_timed_out_Some & [(Hl & k & Hk & ->)|(Hl & _ & delay & Hd & ->)]).
  - by apply dead_letter_conserves.
  - by eapply put_row_conserves.
Qed.

Lemma skips_inv e ttl k t t' :
  skips cfg e ttl k t t' -> channel_inv cfg t -> channel_inv cfg t' /\ conserves t t'.
Proof.
  induction 1 as [t|k t t1 t2 Hs _ IH]; intros Hi; [split; [done|apply conserves_refl]|].
  destruct IH as [? ?]; [by eapply skip1_inv|]. split; [done|].
  eapply conserves_trans; [by eapply skip1_conserves|done].
Qed.

(** What the consume loop does: it skips some timed-out messages, and then hands
    out one message or none. *)
Lemma wp_fetchChannelLoop e left vt ttl n t
    (Q : option (Message * timestamp) -> nat -> option channelTables -> Prop) E :
  (forall d, faulty e -> E (ErrDriver d)) ->
  channel_inv cfg t -> gen_fresh e n t ->
  (forall k n' t1, (k <= left)%nat -> skips cfg e ttl k t t1 ->
     (k = left \/ (next_pending e ttl t1 = None /\ next_timed_out e ttl t1 = None)) ->
     Q None n' (Some t1)) ->
  (forall k n' t1 id r rc, (k < left)%nat -> skips cfg e ttl k t t1 -> (n <= n')%nat ->
     delivers cfg e ttl t1 id r rc -> ct_msgs t1 !! id = Some r ->
     let deadline := e_now e + make_interval vt in
     Q (Some (delivered cfg id r rc (e_gen e n' 0%nat), deadline)) (S n')
       (Some (put_row id (claim_row rc (e_gen e n' 0%nat) deadline r) t1))) ->
  wp e n (Some t) (fetchChannelLoop cfg left vt ttl) Q E.
Proof.
  intros HF. revert n t. induction left as [|left IH]; intros n t Hi Hfr HN HS.
  { cbn [fetchChannelLoop]. wp_step. eapply (HN 0%nat); [lia|constructor|by left]. }
  cbn [fetchChannelLoop]. wp_step. apply wp_query; [done|]. fold (next_pending e ttl t).
  destruct (next_pending e ttl t) as [[id r]|] eqn:Hp.
  { pose proof Hp as [Hid _]%next_pending_Some. destruct (proj1 Hi id r Hid) as (_ & ? & _).
    apply wp_claimChannelMessage; [done..|cbn; lia|]. apply (HS 0%nat); [lia|constructor|lia| |done].
    by left. }
  wp_step. apply wp_query; [done|]. fold (next_timed_out e ttl t).
  destruct (next_timed_out e ttl t) as [[id r]|] eqn:Ht.
  2: { wp_step. eapply (HN 0%nat); [lia|constructor|by right]. }
  pose proof Ht as [Hid Hrec]%next_timed_out_Some. pose proof (proj1 Hi id r Hid) as Hr.
  pose proof Hr as (_ & Hrc & _).
  wp_step. unfold reclaimChannelAttempt. rewrite (reclaimable_processing _ _ _ _ Hrec).
  rewrite (row_wf_retry r Hr). fold (limit cfg r).
  destruct (Z.ltb_spec (limit cfg r) (c_retry_count r + 1)) as [Hl|Hl].
  - wp_step. apply wp_moveToDLQ; [done|by rewrite errReasonVisibilityTimeout_ok|lia| |].
    { eapply gen_fresh_mono; [|done]. lia. }
    intros _. wp_step. set (t1 := dead_letter _ _ _ _ _ _ _ _).
    assert (skip1 cfg e ttl t t1) as Hsk.
    { exists id, r. split_and!; [done..|]. left. split; [done|]. exists (S (S n)). split; [|reflexivity].
      apply Hfr. lia. }
    apply IH.
    + by eapply skip1_inv.
    + apply gen_fresh_mono with (S (S (S n))); [lia|]. apply gen_fresh_dead_letter.
      eapply gen_fresh_mono; [|done]. lia.
    + intros k n' t2 Hk Hks Hend. apply (HN (S k)); [lia|by econstructor|].
      destruct Hend as [->|]; auto.
    + intros k n' t2 id' r' rc' Hk Hks Hn. apply (HS (S k)); [lia|by econstructor|lia].
  - destruct (backoffConfigured cfg) eqn:Hb.
    + wp_step. apply wp_computeRetryDelay. intros delay n' Hn' Hd.
      wp_step. apply (wp_deferReclaimed _ _ _ _ _ _ r); [done..|lia|]. wp_step.
      set (t1 := put_row _ _ _). assert (skip1 cfg e ttl t t1) as Hsk.
      { exists id, r. split_and!; [done..|]. right. split_and!; [lia|done|]. by exists delay. }
      apply IH.
      * by eapply skip1_inv.
      * apply gen_fresh_put. eapply gen_fresh_mono; [|done]. lia.
      * intros k m t2 Hk Hks Hend. apply (HN (S k)); [lia|by econstructor|].
        destruct Hend as [->|]; auto.
      * intros k m t2 id' r' rc' Hk Hks Hn. apply (HS (S k)); [lia|by econstructor|lia].
    + wp_step. apply wp_claimChannelMessage; [done..|lia|].
      apply (HS 0%nat); [lia|constructor|lia| |done]. right. split_and!; done.
Qed.

(** *** Acknowledging, extending, nacking *)

Lemma owned_Some t rc r :
  owned t rc = Some r <->
  ct_msgs t !! r_MessageID rc = Some r /\ c_claim_id r = Some (r_ClaimID rc) /\
  c_status r = MessageStatusProcessing.
Proof.
  unfold owned, owns. destruct (ct_msgs t !! r_MessageID rc) as [q|]; [|naive_solver].
  destruct (bool_decide_reflect (c_claim_id q = Some (r_ClaimID rc))),
    (bool_decide_reflect (c_status q = MessageStatusProcessing)); cbn; naive_solver.
Qed.

Lemma wp_classifyChannelAckMiss {A} e n t rc (Q : A -> nat -> option channelTables -> Prop) E :
  (forall d, faulty e -> E (ErrDriver d)) -> E (miss t rc) ->
  wp e n (Some t) (classifyChannelAckMiss rc) Q E.
Proof. intros HF HE. unfold classifyChannelAckMiss. do 2 wp_step. by wp_step. Qed.

Lemma wp_update_claimed e n t rc f (Q : unit -> nat -> option channelTables -> Prop) E :
  (forall d, faulty e -> E (ErrDriver d)) ->
  match owned t rc with
  | Some r => Q tt (S n) (Some (put_row (r_MessageID rc) (f e r) t))
  | None => E (miss t rc)
  end ->
  wp e n (Some t) (update_claimed rc f) Q E.
Proof.
  intros HF HQ. unfold update_claimed, owned in *. do 2 wp_step. unfold sql_update_id.
  destruct (ct_msgs t !! r_MessageID rc) as [r|] eqn:Hr;
    [destruct (owns (r_ClaimID rc) r)|]; cbn.
  - by wp_step.
  - destruct t. by apply wp_classifyChannelAckMiss.
  - destruct t. by apply wp_classifyChannelAckMiss.
Qed.

Lemma wp_retryMessage e n t id msg delay r (Q : unit -> nat -> option channelTables -> Prop) E :
  (forall d, faulty e -> E (ErrDriver d)) ->
  (text_ok msg = false -> E (ErrDriver untranslatable)) ->
  ct_msgs t !! id = Some r -> c_retry_count r < int64_max ->
  (text_ok msg = true ->
   Q tt (S n) (Some (put_row id (pend_row (c_retry_count r + 1) (e_now e + make_interval delay)
     (Some msg) r) t))) ->
  wp e n (Some t) (retryMessage id msg delay) Q E.
Proof.
  intros HF HT Hid Hrc HQ. unfold retryMessage. wp_step.
  destruct (text_ok msg); cbn [negb]; [|by apply HT]. rewrite Hid.
  rewrite (proj2 (Z.ltb_ge _ _)) by lia. by apply HQ.
Qed.

(** A nack dead-letters an owned message that has no attempt left, and puts any
    other back behind its retry delay. *)
Lemma wp_nack_tx e n t rc msg override (Q : unit -> nat -> option channelTables -> Prop) E :
  (forall d, faulty e -> E (ErrDriver d)) ->
  (text_ok (truncateErrorMsg msg) = false -> E (ErrDriver untranslatable)) ->
  channel_inv cfg t -> gen_fresh e n t ->
  match owned t rc with
  | None => E (miss t rc)
  | Some r =>
      text_ok (truncateErrorMsg msg) = true ->
      if limit cfg r <? c_retry_count r + 1 then
        Q tt (S (S (S n))) (Some (dead_letter (e_now e) (e_gen e (S n) 0%nat) (r_MessageID rc) msg
          (c_payload r) (c_retry_count r + 1) (c_metadata r) t))
      else
        forall delay n', retry_delay_ok (backoffPolicy cfg) (c_retry_count r + 1) override delay ->
          Q tt n' (Some (put_row (r_MessageID rc)
            (pend_row (c_retry_count r + 1) (e_now e + make_interval delay)
               (Some (truncateErrorMsg msg)) r) t))
  end ->
  wp e n (Some t) (nack_tx cfg rc (truncateErrorMsg msg) override) Q E.
Proof.
  intros HF HT Hi Hfr HQ. unfold nack_tx, getProcessingMessageState. do 3 wp_step.
  fold (owned t rc). destruct (owned t rc) as [r|] eqn:Ho.
  2: { by apply wp_classifyChannelAckMiss. }
  wp_step. apply owned_Some in Ho as (Hid & _ & _). pose proof (proj1 Hi _ _ Hid) as Hr.
  pose proof Hr as (_ & Hrc & Hl). unfold handleNack. cbn [ms_retryCount ms_maxRetries ms_payload
    ms_metadata]. rewrite (row_wf_retry r Hr). fold (limit cfg r).
  destruct (Z.ltb_spec (limit cfg r) (c_retry_count r + 1)) as [Hx|Hx].
  - assert (truncateErrorMsg (truncateErrorMsg msg) = truncateErrorMsg msg) as Hid2
      by (apply truncateErrorMsg_id; [apply truncateErrorMsg_valid|apply truncateErrorMsg_length]).
    apply wp_moveToDLQ; rewrite ?Hid2; [done|done|lia| |].
    + eapply gen_fresh_mono; [|done]. lia.
    + intros Ht. unfold dead_letter in *. rewrite Hid2. by apply HQ.
  - wp_step. apply wp_computeRetryDelay. intros delay n' Hn Hd.
    apply (wp_retryMessage _ _ _ _ _ _ r); [done..|lia|]. intros Ht. by apply HQ.
Qed.

(** *** The methods *)

(** Running a transaction body on the tables of an existing channel. *)
Lemma iwp_withTx_channel {A} o w w0 name meta ct (m : tx channelTables A)
    (Q : A -> world -> Prop) E :
  frame w0 w -> channel_at (w_db w0) name meta ct ->
  (forall x w', io_fault o x -> E x w') ->
  wp (o (w_tick w)) 0 (Some ct) m
    (fun a _ s => match s with
                  | Some ct' => forall w', w_db w' = put_channel meta ct' (w_db w0) ->
                      ran w0 w' (w_tick w) -> Q a w'
                  | None => forall w', w_db w' = w_db w0 -> E (ErrDriver failed_tx) w'
                  end)
    (fun x => forall w', w_db w' = w_db w0 -> E x w') ->
  iwp o w (withTx (on_channel (q_TableName meta) m)) Q E.
Proof.
  intros (Hdb & _ & _ & Hti) (_ & Hct) HF Hm. apply iwp_withTx.
  { intros d Hf w'. apply HF. by exists (w_tick w), d. }
  rewrite Hdb. eapply on_channel_wp; [exact Hct|]. eapply wp_mono; [exact Hm| |].
  - intros a n' [ct'|] H'; cbn; apply H'; [done| |done]. unfold ran. cbn. lia.
  - intros x H'. by apply H'.
Qed.

Lemma iwp_consumeFromChannel o w name vt meta ct (Q : option Message -> world -> Prop) :
  reliable o -> w_closed w = false -> validateVisibilityTimeout vt = Ok tt ->
  channel_at (w_db w) name meta ct -> q_Paused meta = false ->
  channel_inv cfg ct -> (forall m, gen_fresh (o m) 0 ct) ->
  (forall m k t1 w', (k <= maxConsumeReclaimDefers)%nat ->
     let ttl := getQueueTTL cfg (q_Config meta) in
     skips cfg (o m) ttl k ct t1 ->
     (k = maxConsumeReclaimDefers \/
      (next_pending (o m) ttl t1 = None /\ next_timed_out (o m) ttl t1 = None)) ->
     w_db w' = put_channel meta t1 (w_db w) -> ran w w' m -> Q None w') ->
  (forall m n k t1 id r rc w', (k < maxConsumeReclaimDefers)%nat ->
     let ttl := getQueueTTL cfg (q_Config meta) in
     let claim := e_gen (o m) n 0%nat in
     let deadline := e_now (o m) + make_interval vt in
     skips cfg (o m) ttl k ct t1 -> delivers cfg (o m) ttl t1 id r rc ->
     w_db w' = put_channel meta (put_row id (claim_row rc claim deadline r) t1) (w_db w) -> ran w w' m ->
     Q (Some (set_visibility (Some deadline) (delivered cfg id r rc claim))) w') ->
  iwp o w (consumeFromChannel cfg name vt) Q (fun _ _ => False).
Proof.
  intros Hrel Hcl Hvt Hat Hpa Hinv Hfr HN HS. unfold consumeFromChannel.
  assert (forall x, ~ io_fault o x) as Hnf by (intros x; by apply reliable_no_fault).
  iwp_step. iwp_step; [congruence|intros _]. iwp_step. iwp_step. rewrite Hvt.
  do 2 iwp_step. apply iwp_getQueueMetadata.
  2: { intros w' Hl. destruct Hat. congruence. }
  2: { intros x w' Hx. by apply Hnf in Hx. }
  intros meta' w1 Hl Hfr1. assert (meta' = meta) as -> by (destruct Hat; congruence).
  rewrite Hpa. iwp_step. eapply iwp_withTx_channel; [done..| |].
  { intros x w' Hx. by apply Hnf in Hx. }
  unfold fetchPendingChannelMessage. apply wp_fetchChannelLoop; [|done|apply Hfr|..].
  - intros d Hf. exfalso. by apply (Hrel (w_tick w1)).
  - intros k n' t1 Hk Hs Hend w' Hw' Hm. iwp_step. by eapply HN.
  - intros k n' t1 id r rc Hk Hs Hn Hd Hid deadline w' Hw' Hm. iwp_step. cbn. by eapply HS.
Qed.

(** The table of an existing channel, through a coherent cache. *)
Lemma iwp_channel_table o w name meta ct (Q : string -> world -> Prop) E :
  cache_coherent w -> channel_at (w_db w) name meta ct ->
  (forall w', frame w w' -> Q (q_TableName meta) w') ->
  (forall x w', io_fault o x -> frame w w' -> E x w') ->
  iwp o w (map_err (not_found_as ErrChannelNotFound) (cachedTableName QueueTypeChannel name)) Q E.
Proof.
  intros Hc [Hl _] HQ HF. iwp_step. apply iwp_cachedTableName; [by left|done|..].
  - intros meta' w' Hl'. rewrite Hl in Hl'. injection Hl' as <-. apply HQ.
  - congruence.
  - intros x w' (n & d & Hf & ->). apply HF. by exists n, d.
Qed.

(** A fenced update through [Queue]: it changes the row a receipt owns and nothing
    else; a receipt that owns none changes nothing and learns why. *)
Lemma iwp_fenced o w name meta ct rc f :
  reliable o -> cache_coherent w -> channel_at (w_db w) name meta ct ->
  iwp o w
    (t ← map_err (not_found_as ErrChannelNotFound) (cachedTableName QueueTypeChannel name);
     withTx (on_channel t (update_claimed rc f)))
    (fun _ w' => exists m r, ran w w' m /\ owned ct rc = Some r /\
       w_db w' = put_channel meta (put_row (r_MessageID rc) (f (o m) r) ct) (w_db w))
    (fun x w' => owned ct rc = None /\ x = miss ct rc /\ w_db w' = w_db w).
Proof.
  intros Hrel Hc Hat.
  assert (forall x, ~ io_fault o x) as Hnf by (intros x; by apply reliable_no_fault).
  iwp_step. eapply iwp_channel_table; [done..| |by intros x w' Hx%Hnf].
  intros w1 Hf1. eapply iwp_withTx_channel; [done..| |].
  { by intros x w' Hx%Hnf. }
  apply wp_update_claimed; [intros d Hf; exfalso; by apply (Hrel (w_tick w1))|].
  destruct (owned ct rc) as [r|]; [|done]. intros w' Hw Hm. by exists (w_tick w1), r.
Qed.

(** What a nack through [Queue] does to the tables of its channel. *)
Lemma iwp_nackChannelImpl o w name meta ct rc msg override :
  reliable o -> channel_at (w_db w) name meta ct -> channel_inv cfg ct ->
  (forall m, gen_fresh (o m) 0 ct) -> text_ok (truncateErrorMsg msg) = true ->
  iwp o w (nackChannelImpl cfg name rc msg override)
    (fun _ w' => exists r m ct', ran w w' m /\ owned ct rc = Some r /\ w_db w' = put_channel meta ct' (w_db w) /\
      if limit cfg r <? c_retry_count r + 1 then
          exists k, ct_dlq ct !! k = None /\
            ct' = dead_letter (e_now (o m)) k (r_MessageID rc) msg (c_payload r)
            (c_retry_count r + 1) (c_metadata r) ct
      else exists delay, retry_delay_ok (backoffPolicy cfg) (c_retry_count r + 1) override delay /\
            ct' = put_row (r_MessageID rc) (pend_row (c_retry_count r + 1)
              (e_now (o m) + make_interval delay) (Some (truncateErrorMsg msg)) r) ct)
    (fun x w' => owned ct rc = None /\ x = miss ct rc /\ w_db w' = w_db w).
Proof.
  intros Hrel Hat Hinv Hfr Htext.
  assert (forall x, ~ io_fault o x) as Hnf by (intros x; by apply reliable_no_fault).
  unfold nackChannelImpl. iwp_step. iwp_step. apply iwp_getQueueMetadata.
  2: { intros w' Hl. destruct Hat. congruence. }
  2: { by intros x w' Hx%Hnf. }
  intros meta' w1 Hl Hf1. assert (meta' = meta) as -> by (destruct Hat; congruence).
  eapply iwp_withTx_channel; [done..| |]. { by intros x w' Hx%Hnf. }
  apply wp_nack_tx; [|congruence|done|done|].
  { intros d Hf. exfalso. by apply (Hrel (w_tick w1)). }
  destruct (owned ct rc) as [r|]; [|done]. intros _.
  destruct (limit cfg r <? c_retry_count r + 1) eqn:Hlim.
  - intros w' Hw Hm. eexists r, (w_tick w1), _. rewrite Hlim. split_and!; [done..|].
    eexists. split; [|done]. apply Hfr. lia.
  - intros delay n' Hd w' Hw Hm. eexists r, (w_tick w1), _. rewrite Hlim. split_and!; [done..|].
    by exists delay.
Qed.

(** *** Counting the timed-out rows *)

Definition timed_out_count (e : env) (ttl : Duration) (t : channelTables) : nat :=
  size (filter (fun x => channel_reclaimable ttl e x.1 x.2 = true) (ct_msgs t)).

Lemma skip1_count e ttl t t' :
  skip1 cfg e ttl t t' -> timed_out_count e ttl t = S (timed_out_count e ttl t').
Proof.
  intros (id & r & _ & [Hid Hrec]%next_timed_out_Some & Hcase). unfold timed_out_count.
  set (P := fun x : Z * channelRow => channel_reclaimable ttl e x.1 x.2 = true).
  assert (filter P (ct_msgs t) !! id = Some r) as Hf by by apply map_lookup_filter_Some.
  assert (filter P (ct_msgs t') = delete id (filter P (ct_msgs t))) as ->.
  { destruct Hcase as [(_ & k & _ & ->)|(_ & _ & delay & _ & ->)]; cbn.
    - apply map_filter_delete.
    - rewrite map_filter_insert_False; [by rewrite map_filter_delete|].
      unfold P, channel_reclaimable. cbn. done. }
  rewrite map_size_delete_Some by done.
  assert (size (filter P (ct_msgs t)) <> 0%nat); [|lia].
  intros Hz%map_size_empty_inv. rewrite Hz in Hf. by rewrite lookup_empty in Hf.
Qed.

Lemma skips_count e ttl k t t' :
  skips cfg e ttl k t t' -> timed_out_count e ttl t = (k + timed_out_count e ttl t')%nat.
Proof. induction 1 as [|k t t1 t2 Hs _ IH]; [done|]. rewrite (skip1_count _ _ _ _ Hs). lia. Qed.

End channel_lemmas.

(** ** A concrete channel, for the witnesses *)

(** Message 1 is pending, 2 was claimed under 77 and timed out with no attempt
    left, 3 is being processed under claim 78. *)
Definition sample_rows : gmap Z channelRow :=
  <[1 := mkChannelRow [Byte.x61] 0 MessageStatusPending 0 (Some 3) None 5 None None None None]>
  (<[2 := mkChannelRow [Byte.x62] 0 MessageStatusProcessing 3 (Some 3) (Some 10) 0 (Some 77) None
           None None]>
  {[3 := mkChannelRow [Byte.x63] 0 MessageStatusProcessing 0 (Some 3) (Some (10 ^ 15)) 0 (Some 78)
           None None None]}).
Definition sample_tables : channelTables := mkChannelTables sample_rows ∅.
Definition sample_meta : queueMetadata :=
  mkQueueMetadata 1 QueueTypeChannel "jobs" "jobs" ConfigEmpty false 0 0.
Definition sample_db : DB :=
  set_channels {["jobs"%string := sample_tables]} (set_metadata {[1 := sample_meta]} empty_DB).
Definition sample_world : world := new_world sample_db.
Definition sample_cfg : queueConfig := applyConfigOptions [].
Definition sample_receipt : Receipt := mkReceipt 3 78 "jobs" QueueTypeChannel "".
Definition stale_receipt : Receipt := mkReceipt 3 42 "jobs" QueueTypeChannel "".

Lemma sample_inv : channel_inv sample_cfg sample_tables.
Proof.
  split; [|intros k d Hk; cbn in Hk; by rewrite lookup_empty in Hk]. intros i r. unfold sample_tables,
    sample_rows. cbn [ct_msgs]. rewrite !lookup_insert_Some, lookup_singleton_Some.
  assert (3 < int64_max) by (unfold int64_max; lia).
  intros [[_ <-]|[_ [[_ <-]|[_ [_ <-]]]]]; (split; [split; first [done | by eexists]|cbn; lia]).
Qed.

Lemma calm_gen_fresh now base n t : ct_dlq t = ∅ -> gen_fresh (calm_env now base) n t.
Proof.
  intros Hd. split; [intros m i _; by rewrite Hd, lookup_empty|].
  intros m m' i i'. apply calm_gen_inj.
Qed.

Lemma sample_at : channel_at sample_db "jobs" sample_meta sample_tables.
Proof. split; reflexivity. Qed.

Lemma sample_coherent : cache_coherent sample_world.
Proof. intros qt name item _ Hc. cbn in Hc. by rewrite lookup_empty in Hc. Qed.

(** ** Properties *)

(** C5: on a working server a consume call always returns, and refines the
    abstract delivery rule: it skips at most 64 timed-out messages (exhausted ones
    go to the dead-letter table, others are put back behind the backoff delay),
    then claims exactly one message under a fresh claim and deadline (the first
    available pending one, else the longest timed-out one with its retry count
    raised), or none, when 64 were skipped or nothing is left to deliver. *)
Theorem consumeFromChannel_refines `{Server} (cfg : queueConfig) (o : oracle) (w : world)
    (name : string) (vt : Duration) (meta : queueMetadata) (ct : channelTables) :
  reliable o -> w_closed w = false -> validateVisibilityTimeout vt = Ok tt ->
  channel_at (w_db w) name meta ct -> q_Paused meta = false ->
  channel_inv cfg ct -> (forall m, gen_fresh (o m) 0 ct) ->
  let ttl := getQueueTTL cfg (q_Config meta) in
  exists res w' m k t1,
    consumeFromChannel cfg name vt o w = (Ok res, w') /\ ran w w' m /\
    skips cfg (o m) ttl k ct t1 /\ conserves ct t1 /\ (k <= maxConsumeReclaimDefers)%nat /\
    match res with
    | None =>
        w_db w' = put_channel meta t1 (w_db w) /\
        (k = maxConsumeReclaimDefers \/
         (next_pending (o m) ttl t1 = None /\ next_timed_out (o m) ttl t1 = None))
    | Some msg =>
        exists id r rc n, delivers cfg (o m) ttl t1 id r rc /\
          let claim := e_gen (o m) n 0%nat in
          let deadline := e_now (o m) + make_interval vt in
          msg = set_visibility (Some deadline) (delivered cfg id r rc claim) /\
          w_db w' = put_channel meta (put_row id (claim_row rc claim deadline r) t1) (w_db w)
    end.
Proof.
  intros Hrel Hcl Hvt Hat Hpa Hinv Hfr ttl.
  assert (iwp o w (consumeFromChannel cfg name vt) (fun res w' => exists m k t1,
    ran w w' m /\
    skips cfg (o m) ttl k ct t1 /\ (k <= maxConsumeReclaimDefers)%nat /\
    match res with
    | None =>
        w_db w' = put_channel meta t1 (w_db w) /\
        (k = maxConsumeReclaimDefers \/
         (next_pending (o m) ttl t1 = None /\ next_timed_out (o m) ttl t1 = None))
    | Some msg =>
        exists id r rc n, delivers cfg (o m) ttl t1 id r rc /\
          let claim := e_gen (o m) n 0%nat in
          let deadline := e_now (o m) + make_interval vt in
          msg = set_visibility (Some deadline) (delivered cfg id r rc claim) /\
          w_db w' = put_channel meta (put_row id (claim_row rc claim deadline r) t1) (w_db w)
    end) (fun _ _ => False)) as Hi.
  { eapply iwp_consumeFromChannel; [done..| |].
    - intros m k t1 w' Hk ttl' Hs Hend Hw Hm. exists m, k, t1. done.
    - intros m n k t1 id r rc w' Hk ttl' claim dl Hs Hd Hw Hm. exists m, k, t1.
      refine (conj Hm (conj Hs (conj _ _))); [lia|]. exists id, r, rc, n. done. }
  unfold iwp in Hi. destruct (consumeFromChannel cfg name vt o w) as [[res|x] w'] eqn:Heq; [|done].
  destruct Hi as (m & k & t1 & Hm & Hs & Hk & Hres). exists res, w', m, k, t1.
  pose proof (skips_inv cfg _ _ _ _ _ Hs Hinv) as [_ Hc]. done.
Qed.

Lemma consumeFromChannel_refines_witness :
  exists res w', consumeFromChannel (H := truncating_server) sample_cfg "jobs" (30 * second)
      calm_oracle sample_world = (Ok res, w') /\ m_ID <$> res = Some 1.
Proof.
  destruct (consumeFromChannel_refines (H := truncating_server) sample_cfg calm_oracle sample_world
    "jobs" (30 * second) sample_meta sample_tables) as (res & w' & m & k & t1 & Heq & _).
  - apply calm_oracle_reliable.
  - reflexivity.
  - reflexivity.
  - exact sample_at.
  - reflexivity.
  - exact sample_inv.
  - intros m. by apply calm_gen_fresh.
  - exists res, w'. split; [exact Heq|].
    assert (match (consumeFromChannel (H := truncating_server) sample_cfg "jobs" (30 * second)
      calm_oracle sample_world).1 with Ok (Some m) => m_ID m | _ => 0 end = 1) as Hc
      by (vm_compute; reflexivity).
    rewrite Heq in Hc. destruct res as [msg|]; cbn in *; [by rewrite Hc|discriminate Hc].
Defined.

(** The two outcomes of a call that skips nothing: the head of the pending probe is
    claimed, or nothing is left to deliver. *)
Lemma fetch_head `{Server} (cfg : queueConfig) e n t vt ttl id r l :
  ~ faulty e -> channel_inv cfg t ->
  sql_select (channel_pending ttl e) c_available_at (ct_msgs t) = (id, r) :: l ->
  let claim := e_gen e (S n) 0%nat in
  let deadline := e_now e + make_interval vt in
  fetchPendingChannelMessage cfg vt ttl e n (Some t) =
    TOk (Some (delivered cfg id r (c_retry_count r) claim, deadline)) (S (S n))
      (Some (put_row id (claim_row (c_retry_count r) claim deadline r) t)).
Proof.
  intros Hf Hinv Hsel claim deadline.
  pose proof (sql_select_head _ _ _ _ _ Hsel) as (Hid & _). cbn [fst snd] in Hid.
  assert (wp e n (Some t) (fetchPendingChannelMessage cfg vt ttl)
    (fun a n' s => TOk a n' s = TOk (Some (delivered cfg id r (c_retry_count r) claim, deadline))
       (S (S n)) (Some (put_row id (claim_row (c_retry_count r) claim deadline r) t)))
    (fun _ => False)) as Hw.
  { unfold fetchPendingChannelMessage, maxConsumeReclaimDefers. cbn [fetchChannelLoop].
    wp_step. apply wp_query; [by intros|]. rewrite Hsel. cbn [head].
    destruct (proj1 Hinv id r Hid) as (_ & ? & _).
    apply wp_claimChannelMessage; [by intros|done|cbn; lia|done]. }
  unfold wp in Hw. by destruct (fetchPendingChannelMessage cfg vt ttl e n (Some t)).
Qed.

Lemma fetch_none `{Server} (cfg : queueConfig) e n t vt ttl :
  ~ faulty e ->
  sql_select (channel_pending ttl e) c_available_at (ct_msgs t) = [] ->
  (forall i r, ct_msgs t !! i = Some r -> channel_reclaimable ttl e i r = false) ->
  fetchPendingChannelMessage cfg vt ttl e n (Some t) = TOk None (S (S n)) (Some t).
Proof.
  intros Hf Hsel Hre.
  assert (wp e n (Some t) (fetchPendingChannelMessage cfg vt ttl)
    (fun a n' s => TOk a n' s = TOk None (S (S n)) (Some t)) (fun _ => False)) as Hw.
  { unfold fetchPendingChannelMessage, maxConsumeReclaimDefers. cbn [fetchChannelLoop].
    wp_step. apply wp_query; [by intros|]. rewrite Hsel. cbn [head].
    wp_step. apply wp_query; [by intros|]. by rewrite (proj2 (sql_select_nil _ _ _)). }
  unfold wp in Hw. by destruct (fetchPendingChannelMessage cfg vt ttl e n (Some t)).
Qed.

(** A call that finds any available pending message (unlocked and within the
    TTL) skips nothing and claims one, with nothing else changed: the first by
    (available_at, id) among them. *)
Theorem channel_consume_fifo `{Server} (cfg : queueConfig) (e : env) (n : nat)
    (t : channelTables) (vt ttl : Duration) (id : Z) (r : channelRow) :
  ~ faulty e -> channel_inv cfg t ->
  ct_msgs t !! id = Some r -> channel_pending ttl e id r = true ->
  exists id' r' n',
    let claim := e_gen e n' 0%nat in
    let deadline := e_now e + make_interval vt in
    fetchPendingChannelMessage cfg vt ttl e n (Some t) =
      TOk (Some (delivered cfg id' r' (c_retry_count r') claim, deadline)) (S n')
        (Some (put_row id' (claim_row (c_retry_count r') claim deadline r') t)) /\
    channel_pending ttl e id' r' = true /\ ct_msgs t !! id' = Some r' /\
    forall j q, ct_msgs t !! j = Some q -> channel_pending ttl e j q = true ->
      row_le c_available_at (id', r') (j, q).
Proof.
  intros Hf Hinv Hid Hp.
  destruct (sql_select (channel_pending ttl e) c_available_at (ct_msgs t)) as [|[id' r'] l] eqn:Hsel.
  { pose proof (proj1 (sql_select_nil _ _ _) Hsel id r Hid). congruence. }
  pose proof (sql_select_head _ _ _ _ _ Hsel) as (Hid' & Hp' & Hmin). cbn [fst snd] in *.
  exists id', r', (S n). cbn zeta. split; [by eapply fetch_head|done].
Qed.

Lemma channel_consume_fifo_witness :
  exists id' r' n' s,
    fetchPendingChannelMessage (H := truncating_server) sample_cfg (30 * second) 0
      (calm_env 1000 500) 0%nat (Some sample_tables) =
      TOk (Some (delivered sample_cfg id' r' (c_retry_count r') (e_gen (calm_env 1000 500) n' 0%nat),
                 1000 + 30000000)) (S n') s /\ id' = 1.
Proof.
  destruct (channel_consume_fifo (H := truncating_server) sample_cfg (calm_env 1000 500) 0%nat
    sample_tables (30 * second) 0 1
    (mkChannelRow [Byte.x61] 0 MessageStatusPending 0 (Some 3) None 5 None None None None)
    (calm_env_not_faulty _ _) sample_inv eq_refl eq_refl)
    as (id' & r' & n' & Heq & _ & _ & Hmin).
  exists id', r', n'. eexists. split; [exact Heq|].
  assert (match fetchPendingChannelMessage (H := truncating_server) sample_cfg (30 * second) 0
    (calm_env 1000 500) 0%nat (Some sample_tables) with
    | TOk (Some (m, _)) _ _ => m_ID m | _ => 0 end = 1) as Hc by (vm_compute; reflexivity).
  rewrite Heq in Hc. exact Hc.
Defined.

(** With fewer than 64 timed-out messages in the table, a consume call returns
    empty only when nothing deliverable is left: no available pending message and
    no timed-out one. *)
Theorem channel_consume_exhaustive `{Server} (cfg : queueConfig) (e : env) (n n' : nat)
    (t t' : channelTables) (vt ttl : Duration) :
  ~ faulty e -> channel_inv cfg t -> gen_fresh e n t ->
  (timed_out_count e ttl t < maxConsumeReclaimDefers)%nat ->
  fetchPendingChannelMessage cfg vt ttl e n (Some t) = TOk None n' (Some t') ->
  (forall id r, ct_msgs t' !! id = Some r ->
     channel_pending ttl e id r = false /\ channel_reclaimable ttl e id r = false) /\
  conserves t t'.
Proof.
  intros Hf Hinv Hfr Hcnt Heq.
  assert (wp e n (Some t) (fetchPendingChannelMessage cfg vt ttl)
    (fun a _ s => match a with
       | None => exists k t1, s = Some t1 /\ skips cfg e ttl k t t1 /\
           (k = maxConsumeReclaimDefers \/
            (next_pending e ttl t1 = None /\ next_timed_out e ttl t1 = None))
       | Some _ => True end) (fun _ => True)) as Hw.
  { apply wp_fetchChannelLoop; [by intros|done..| |done]. intros k m t1 Hk Hs Hend. by exists k, t1. }
  pose proof (wp_run _ _ _ _ _ _ _ Hw Heq) as (k & t1 & [= ->] & Hs & Hend).
  pose proof (skips_inv cfg _ _ _ _ _ Hs Hinv) as [_ Hc]. split; [|done].
  destruct Hend as [->|[Hp Ht]].
  { pose proof (skips_count cfg _ _ _ _ _ Hs). lia. }
  unfold next_pending, next_timed_out in *. apply head_None in Hp, Ht.
  intros id r Hid. split;
    [exact (proj1 (sql_select_nil _ _ _) Hp id r Hid)|exact (proj1 (sql_select_nil _ _ _) Ht id r Hid)].
Qed.

(** Only the exhausted message is left: it is dead-lettered and the call is empty. *)
Lemma channel_consume_exhaustive_witness :
  let t := mkChannelTables (delete 1 sample_rows) ∅ in
  exists n' t', fetchPendingChannelMessage (H := truncating_server) sample_cfg (30 * second) 0
      (calm_env 1000 500) 0%nat (Some t) = TOk None n' (Some t') /\ size (ct_dlq t') = 1%nat /\
    conserves t t'.
Proof.
  intros t. eexists _, _. split; [vm_compute; reflexivity|]. split; [reflexivity|].
  eapply (channel_consume_exhaustive (H := truncating_server) sample_cfg (calm_env 1000 500) 0%nat _ t _
    (30 * second) 0).
  - apply calm_env_not_faulty.
  - destruct sample_inv as [Hm _]. split; [|intros k d Hk; cbn in Hk; by rewrite lookup_empty in Hk].
    intros i r Hi. cbn in Hi. apply lookup_delete_Some in Hi as [_ Hi]. by apply (Hm i).
  - by apply calm_gen_fresh.
  - vm_compute. lia.
  - vm_compute. reflexivity.
Defined.

(** C7: [ackChannel] succeeds exactly when the receipt's claim still owns the
    message in 'processing'; then that row is completed and nothing else changes.
    Otherwise the database is unchanged and the error says why: in particular a
    receipt whose message was redelivered, nacked or reset is refused. *)
Theorem ackChannel_exact (o : oracle) (w : world) (name : string) (meta : queueMetadata)
    (ct : channelTables) (rc : Receipt) :
  reliable o -> cache_coherent w -> channel_at (w_db w) name meta ct ->
  exists res w', ackChannel name rc o w = (res, w') /\
    match res with
    | Ok _ => exists m r, ran w w' m /\ owned ct rc = Some r /\
        w_db w' = put_channel meta (put_row (r_MessageID rc) (complete_row (e_now (o m)) r) ct)
                    (w_db w)
    | Err x => owned ct rc = None /\ x = miss ct rc /\ w_db w' = w_db w
    end.
Proof.
  intros Hrel Hc Hat.
  pose proof (iwp_fenced o w name meta ct rc (fun e => complete_row (e_now e)) Hrel Hc Hat) as Hi.
  unfold iwp in Hi. fold (ack_tx rc) in Hi. fold (ackChannel name rc) in Hi.
  destruct (ackChannel name rc o w) as [[[]|x] w']; by eexists _, _.
Qed.

Lemma ackChannel_exact_witness :
  (exists w', ackChannel "jobs" sample_receipt calm_oracle sample_world = (Ok tt, w')) /\
  (exists w', ackChannel "jobs" stale_receipt calm_oracle sample_world = (Err ErrClaimExpired, w') /\
    w_db w' = sample_db).
Proof.
  split; [eexists; vm_compute; reflexivity|].
  destruct (ackChannel_exact calm_oracle sample_world "jobs" sample_meta sample_tables stale_receipt
    calm_oracle_reliable sample_coherent sample_at) as (res & w' & Heq & Hres).
  destruct res as [u|x]; [destruct Hres as (m & r & _ & Ho & _); vm_compute in Ho; discriminate Ho|].
  destruct Hres as (_ & -> & Hw). exists w'. split; [exact Heq|exact Hw].
Defined.

(** [extendChannelVisibility] moves only the deadline of a message the receipt
    still owns: status, retry count and claim stay, so the receipt stays valid. *)
Theorem extendChannelVisibility_exact `{Server} (o : oracle) (w : world) (name : string)
    (meta : queueMetadata) (ct : channelTables) (rc : Receipt) (d : Duration) :
  reliable o -> cache_coherent w -> channel_at (w_db w) name meta ct ->
  exists res w', extendChannelVisibility name rc d o w = (res, w') /\
    match res with
    | Ok _ => exists m r, ran w w' m /\ owned ct rc = Some r /\
        let ct' := put_row (r_MessageID rc)
                     (extend_row (e_now (o m) + make_interval d) r) ct in
        w_db w' = put_channel meta ct' (w_db w) /\ is_Some (owned ct' rc)
    | Err x => owned ct rc = None /\ x = miss ct rc /\ w_db w' = w_db w
    end.
Proof.
  intros Hrel Hc Hat.
  pose proof (iwp_fenced o w name meta ct rc
    (fun e => extend_row (e_now e + make_interval d)) Hrel Hc Hat) as Hi.
  unfold iwp in Hi. fold (extend_tx rc d) in Hi. fold (extendChannelVisibility name rc d) in Hi.
  destruct (extendChannelVisibility name rc d o w) as [[[]|x] w']; [|by eexists _, _].
  destruct Hi as (m & r & Hm & Ho & Hw). eexists _, _. split; [done|]. exists m, r.
  split; [done|]. split; [done|]. cbn zeta. split; [done|]. apply owned_Some in Ho as (Hr & Hcl & Hst).
  eexists. apply owned_Some. cbn. by rewrite lookup_insert_eq.
Qed.

Lemma extendChannelVisibility_exact_witness :
  exists w' ct', extendChannelVisibility (H := truncating_server) "jobs" sample_receipt hour
      calm_oracle sample_world = (Ok tt, w') /\ is_Some (owned ct' sample_receipt) /\
    w_db w' = put_channel sample_meta ct' sample_db.
Proof.
  destruct (extendChannelVisibility_exact (H := truncating_server) calm_oracle sample_world "jobs"
    sample_meta sample_tables sample_receipt hour calm_oracle_reliable sample_coherent sample_at)
    as (res & w' & Heq & Hres).
  destruct res as [[]|x].
  - destruct Hres as (m & r & _ & _ & Hw & Ho). eexists w', _. split; [exact Heq|]. split; [exact Ho|exact Hw].
  - destruct Hres as (Ho & _). vm_compute in Ho. discriminate Ho.
Defined.

(** C6: a nack of an owned message that has used up its attempts moves it, payload
    and metadata intact, to the dead-letter table with the error text; any other
    owned message goes back to pending with its retry count raised by one, its
    claim cleared, and a redelivery delay within the backoff policy (or the
    caller's override, capped at 24 h).  A receipt that owns nothing changes
    nothing.  The error text may be any bytes but NUL. *)
Theorem nackChannel_exact `{Server} (cfg : queueConfig) (o : oracle) (w : world) (name : string)
    (meta : queueMetadata) (ct : channelTables) (rc : Receipt) (msg : bytes) (override : Duration) :
  reliable o -> channel_at (w_db w) name meta ct -> channel_inv cfg ct ->
  (forall m, gen_fresh (o m) 0 ct) ->
  forallb (fun b => negb (byte_val b =? 0)) msg = true ->
  exists res w', nackChannelImpl cfg name rc msg override o w = (res, w') /\
    match owned ct rc with
    | None => res = Err (miss ct rc) /\ w_db w' = w_db w
    | Some r =>
        res = Ok tt /\ exists m ct', ran w w' m /\ w_db w' = put_channel meta ct' (w_db w) /\
        channel_inv cfg ct' /\ conserves ct ct' /\ owned ct' rc = None /\
        if limit cfg r <? c_retry_count r + 1 then
          exists k, ct' = dead_letter (e_now (o m)) k (r_MessageID rc) msg (c_payload r)
            (c_retry_count r + 1) (c_metadata r) ct
        else
          exists delay, retry_delay_ok (backoffPolicy cfg) (c_retry_count r + 1) override delay /\
            ct' = put_row (r_MessageID rc) (pend_row (c_retry_count r + 1)
              (e_now (o m) + make_interval delay) (Some (truncateErrorMsg msg)) r) ct
    end.
Proof.
  intros Hrel Hat Hinv Hfr Hmsg. pose proof (truncateErrorMsg_text_ok msg Hmsg) as Htext.
  pose proof (iwp_nackChannelImpl cfg o w name meta ct rc msg override Hrel Hat Hinv Hfr Htext) as Hi.
  unfold iwp in Hi. destruct (nackChannelImpl cfg name rc msg override o w) as [[[]|x] w'].
  2: { destruct Hi as (-> & -> & ?). eexists _, _. done. }
  destruct Hi as (r & m & ct' & Hm & Ho & Hw & Hcase). eexists _, _. split; [done|]. rewrite Ho.
  split; [done|]. exists m, ct'. pose proof Ho as (Hid & Hcl & Hst)%owned_Some.
  pose proof (proj1 Hinv _ _ Hid) as Hr. pose proof Hr as (_ & ? & ?). unfold owned.
  destruct (Z.ltb_spec (limit cfg r) (c_retry_count r + 1)) as [Hlim|Hlim].
  - destruct Hcase as (k & Hk & ->). refine (conj Hm (conj Hw (conj _ (conj _ (conj _ _))))); [| | |by exists k].
    + apply dead_letter_inv; [done|lia|done].
    + by apply dead_letter_conserves.
    + cbn. by rewrite lookup_delete_eq.
  - destruct Hcase as (delay & Hd & ->).
    refine (conj Hm (conj Hw (conj _ (conj _ (conj _ _))))); [| | |by exists delay].
    + apply put_row_inv; [done|]. apply pend_row_wf; [done|lia].
    + by eapply put_row_conserves.
    + cbn. by rewrite lookup_insert_eq.
Qed.

Lemma nackChannel_exact_witness :
  exists w', nackChannelImpl (H := truncating_server) sample_cfg "jobs" sample_receipt [Byte.xff] 0
      calm_oracle sample_world = (Ok tt, w') /\
    exists ct', w_db w' = put_channel sample_meta ct' sample_db /\ owned ct' sample_receipt = None.
Proof.
  destruct (nackChannel_exact (H := truncating_server) sample_cfg calm_oracle sample_world "jobs"
    sample_meta sample_tables sample_receipt [Byte.xff] 0 calm_oracle_reliable sample_at sample_inv
    ltac:(intros m; by apply calm_gen_fresh) eq_refl) as (res & w' & Heq & Hres).
  change (owned sample_tables sample_receipt) with
    (Some (mkChannelRow [Byte.x63] 0 MessageStatusProcessing 0 (Some 3) (Some (10 ^ 15)) 0 (Some 78)
           None None None)) in Hres.
  destruct Hres as (-> & m & ct' & _ & Hw & _ & _ & Ho & _).
  exists w'. split; [exact Heq|]. exists ct'. split; [exact Hw|exact Ho].
Defined.

(** An error text of which the truncation keeps a NUL byte makes every nack of
    an owned message fail with the driver's encoding error and change nothing:
    truncateErrorMsg leaves NUL in place, although PostgreSQL stores no NUL in a
    TEXT column. *)
Theorem nack_nul_fails `{Server} (cfg : queueConfig) (e : env) (n : nat) (t : channelTables)
    (rc : Receipt) (r : channelRow) (msg : bytes) (override : Duration) :
  ~ faulty e -> channel_inv cfg t -> gen_fresh e n t -> owned t rc = Some r ->
  Byte.x00 ∈ truncateErrorMsg msg ->
  nack_tx cfg rc (truncateErrorMsg msg) override e n (Some t) =
    TErr (ErrDriver untranslatable).
Proof.
  intros Hf Hinv Hfr Ho Hnul.
  assert (text_ok (truncateErrorMsg msg) = false) as Ht by by apply text_ok_nul.
  assert (wp e n (Some t) (nack_tx cfg rc (truncateErrorMsg msg) override)
    (fun _ _ _ => False) (fun x => x = ErrDriver untranslatable)) as Hw.
  { unfold nack_tx, getProcessingMessageState. wp_step. wp_step. apply wp_query; [by intros|].
    fold (owned t rc). rewrite Ho. wp_step. unfold handleNack. cbn [ms_retryCount ms_maxRetries
      ms_payload ms_metadata]. apply owned_Some in Ho as (Hid & _).
    pose proof (proj1 Hinv _ _ Hid) as Hr. rewrite (row_wf_retry cfg r Hr).
    destruct Hr as (_ & ? & ?). fold (limit cfg r).
    destruct (limit cfg r <? c_retry_count r + 1).
    - apply wp_moveToDLQ; [by intros|done|lia|eapply gen_fresh_mono; [|done]; lia|].
      intros Hx. rewrite truncateErrorMsg_id in Hx; [congruence|apply truncateErrorMsg_valid|
        apply truncateErrorMsg_length].
    - wp_step. apply wp_computeRetryDelay. intros delay n' _ _.
      apply (wp_retryMessage _ _ _ _ _ _ r); [by intros|done|done|lia|by rewrite Ht]. }
  unfold wp in Hw. destruct (nack_tx _ _ _ _ _ _ _); [done|by subst].
Qed.

Lemma nack_nul_fails_witness :
  nack_tx (H := truncating_server) sample_cfg sample_receipt (truncateErrorMsg [Byte.x00]) 0
    (calm_env 1000 500) 0%nat (Some sample_tables) = TErr (ErrDriver untranslatable).
Proof.
  eapply (nack_nul_fails (H := truncating_server) sample_cfg (calm_env 1000 500) 0%nat sample_tables
    sample_receipt).
  - apply calm_env_not_faulty.
  - exact sample_inv.
  - by apply calm_gen_fresh.
  - reflexivity.
  - vm_compute. left.
Defined.
