(* ===== verification/Publish.v ===== *)
(** * Publishing ([publish.go], and the publishing half of [batch.go])

    Publishing one message or a batch to a channel or a topic: size and metadata
    limits, message ids, duplicate detection, the fan-out to subscribers and the
    notification that wakes consumers on commit. *)

From S2P Require Import Prelude Types Tx Utf8 MetadataCache World Config Queries.
From Stdlib Require Import ZArith Lia.
Local Open Scope Z_scope.

(** ** Marshalled size of metadata *)

(** The length of a string inside [json.Marshal]'s output: HTML-unsafe characters,
    most control characters, U+2028, U+2029 and invalid bytes become six-byte
    escapes, the short escapes two bytes. *)
Definition escape_width (b : Byte.byte) : Z :=
  let v := byte_val b in
  if (v =? 34) || (v =? 92) then 2
  else if (v =? 8) || (v =? 9) || (v =? 10) || (v =? 12) || (v =? 13) then 2
  else if v <? 32 then 6
  else if (v =? 60) || (v =? 62) || (v =? 38) then 6
  else 1.

Definition is_line_separator (s : bytes) : bool :=
  match s with
  | Byte.xe2 :: Byte.x80 :: b :: _ => (byte_val b =? 0xA8) || (byte_val b =? 0xA9)
  | _ => false
  end.

Fixpoint json_string_size (fuel : nat) (s : bytes) : Z :=
  match s, fuel with
  | [], _ => 0
  | _, O => 0
  | b :: s1, Datatypes.S fuel =>
      match rune_width s with
      | O => 6 + json_string_size fuel s1
      | 1%nat => escape_width b + json_string_size fuel s1
      | w => (if is_line_separator s then 6 else Z.of_nat w) + json_string_size fuel (drop w s)
      end
  end.

Definition json_quoted (s : string) : Z :=
  let bs := String.list_byte_of_string s in 2 + json_string_size (length bs) bs.

Definition commas {A} (l : list A) : Z := Z.of_nat (length l - 1).

(** [len(json.Marshal(v))] for a value that marshals. *)
Fixpoint json_size (v : jval) : Z :=
  match v with
  | JNull => 4
  | JBool true => 4
  | JBool false => 5
  | JNumber text => Z.of_nat (String.length text)
  | JString s => json_quoted s
  | JArray vs => 2 + commas vs + foldr (fun v acc => json_size v + acc) 0 vs
  | JObject kvs =>
      2 + commas kvs + foldr (fun kv acc => json_quoted kv.1 + 1 + json_size kv.2 + acc) 0 kvs
  | JUnsupported => 0
  end.

(** ** Limits *)

Definition resolveMaxMessageSize (cfg : queueConfig) (meta : queueMetadata) : Z :=
  match config_unmarshal (q_Config meta) with
  | Some o => if o_MaxMessageSize o =? 0 then maxMessageSize cfg else o_MaxMessageSize o
  | None => maxMessageSize cfg
  end.

Definition checkPayloadSize (maxMessageSize : Z) (payload : bytes) : result unit :=
  if maxMessageSize <? Z.of_nat (length payload) then Err ErrMessageSizeExceeded else Ok tt.

Definition validatePayloadSize (cfg : queueConfig) (meta : queueMetadata) (payload : bytes) :
    result unit :=
  checkPayloadSize (resolveMaxMessageSize cfg meta) payload.

Definition resolveMaxMetadataSize (cfg : queueConfig) (meta : queueMetadata) : Z :=
  match config_unmarshal (q_Config meta) with
  | Some o => if 0 <? o_MaxMetadataSize o then o_MaxMetadataSize o else maxMetadataSize cfg
  | None => maxMetadataSize cfg
  end.

(** The JSON stored in the jsonb column; nil metadata stores NULL ([jsonbParam]). *)
Definition marshalMetadataWithLimit (limit : Z) (metadata : option jmap) : result (option jval) :=
  match metadata with
  | None => Ok None
  | Some m =>
      if negb (jsupported (JObject m)) then Err ErrMarshal
      else if (0 <? limit) && (limit <? json_size (JObject m)) then Err ErrMetadataSizeExceeded
      else Ok (Some (JObject m))
  end.

Definition marshalAndValidateMetadata (cfg : queueConfig) (meta : queueMetadata)
    (metadata : option jmap) : result (option jval) :=
  match metadata with
  | None => Ok None
  | Some _ => marshalMetadataWithLimit (resolveMaxMetadataSize cfg meta) metadata
  end.

Definition resolveMaxRetries (cfg : queueConfig) (meta : queueMetadata) : Z :=
  match config_unmarshal (q_Config meta) with
  | Some o =>
      if o_MaxRetriesSet o then o_MaxRetries o
      else if 0 <? o_MaxRetries o then o_MaxRetries o
      else defaultMaxRetries cfg
  | None => defaultMaxRetries cfg
  end.

(** The type-agnostic lookup [WHERE queue_name = $1]. *)
Definition lookup_any_queue (name : string) (d : DB) : option queueMetadata :=
  snd <$> head (sql_select (fun _ m => bool_decide (q_QueueName m = name)) (fun _ => 0)
    (db_metadata d)).

Definition resolveQueueMetadata (name : string) : io queueMetadata :=
  row ← autocommit (query (fun _ d => Ok (lookup_any_queue name d)));
  match row with
  | None => fail ErrQueueNotFound
  | Some meta => mret meta
  end.

(** ** Notifications ([notify.go]) *)

Definition notifyChannelName (tableName : string) : string := "pgqueue_" +:+ tableName.

(** pg_notify: delivered when the transaction commits; an error is only logged. *)
Definition emitNotify (tableName : string) : tx DB unit :=
  stmt_logged (fun _ _ d =>
    (Ok tt, set_notifications (db_notifications d ++ [notifyChannelName tableName]) d)).

(** ** Channels *)

(** A new row of a channel: status pending, available at once, never tried. *)
Definition new_channel_row (now : timestamp) (payload : bytes) (metadata : option jval)
    (maxRetries : Z) : channelRow :=
  mkChannelRow payload now MessageStatusPending 0 (Some maxRetries) None now None None None metadata.

(** The jsonb type refuses the escape of a NUL character. *)
Definition jsonb_refuses (rows : list (uuid * (bytes * option jval))) : bool :=
  existsb (fun x => if x.2.2 is Some v then json_nul v else false) rows.

(** INSERT ... ON CONFLICT (id) DO NOTHING, with CHECK (max_retries >= 0); the rows
    affected. *)
Definition insert_channel_rows (rows : list (uuid * (bytes * option jval))) (maxRetries : Z) :
    tx channelTables nat :=
  stmt (fun e _ t =>
    if jsonb_refuses rows then (Err (ErrDriver unsupported_escape), t)
    else if maxRetries <? 0 then (Err (ErrDriver check_violation), t)
    else
      let '(m, ids) := sql_insert_many
        (map (fun x => (x.1, new_channel_row (e_now e) x.2.1 x.2.2 maxRetries)) rows) (ct_msgs t) in
      (Ok (length ids), set_ct_msgs m t)).

Definition publishToChannel (tableName : string) (messageID : uuid) (payload : bytes)
    (metadata : option jval) (maxRetries : Z) : io unit :=
  withTx (
    rowsAffected ← on_channel tableName (insert_channel_rows [(messageID, (payload, metadata))]
                     maxRetries);
    if (rowsAffected =? 0)%nat then throw ErrDuplicateMessageID
    else emitNotify tableName).

(** ** Topics *)

Record subRecord := mkSubRecord {
  sr_messageID : uuid;
  sr_subscriberID : string
}.

Definition subFanoutChunkRows : nat := Z.to_nat 16000.

Definition new_sub_row (now : timestamp) (rec : subRecord) : subRow :=
  mkSubRow (sr_messageID rec) (sr_subscriberID rec) MessageStatusPending now None None now None 0
    None.

(** Row [i] of the statement: FOREIGN KEY (message_id), then
    ON CONFLICT (message_id, subscriber_id) DO NOTHING. *)
Definition insert_sub (e : env) (n i : nat) (rec : subRecord) (t : topicTables) :
    result topicTables :=
  match tt_msgs t !! sr_messageID rec with
  | None => Err (ErrDriver foreign_key_violation)
  | Some _ =>
      match find_sub t (sr_messageID rec) (sr_subscriberID rec) with
      | Some _ => Ok t
      | None =>
          match tt_subs t !! e_gen e n i with
          | Some _ => Err (ErrDriver unique_violation)
          | None => Ok (set_tt_subs (<[e_gen e n i := new_sub_row (e_now e) rec]> (tt_subs t)) t)
          end
      end
  end.

Fixpoint insert_subs (e : env) (n i : nat) (recs : list subRecord) (t : topicTables) :
    result topicTables :=
  match recs with
  | [] => Ok t
  | rec :: recs => insert_sub e n i rec t ≫= insert_subs e n (Datatypes.S i) recs
  end.

(** One multi-row INSERT. *)
Definition insert_sub_chunk (recs : list subRecord) : tx topicTables unit :=
  stmt (fun e n t =>
    match insert_subs e n 0 recs t with
    | Ok t' => (Ok tt, t')
    | Err x => (Err x, t)
    end).

(** The slices [l[start : min(start+size, len)]]. *)
Fixpoint chunks {A} (fuel size : nat) (l : list A) : list (list A) :=
  match fuel, l with
  | O, _ | _, [] => []
  | Datatypes.S fuel, _ => take size l :: chunks fuel size (drop size l)
  end.

Definition insertSubscriptionRecords (records : list subRecord) : tx topicTables unit :=
  for_each insert_sub_chunk (chunks (length records) subFanoutChunkRows records).

Definition createSubscriptionRecords (cfg : queueConfig) (topicName tableName : string)
    (messageID : uuid) : tx DB unit :=
  subscribers ← getActiveSubscribers cfg topicName;
  match subscribers with
  | [] => mret tt
  | _ =>
      on_topic tableName (insertSubscriptionRecords
        (map (fun s => mkSubRecord messageID (sb_SubscriberID s)) subscribers))
  end.

(** INSERT ... ON CONFLICT (id) DO NOTHING; the rows affected. *)
Definition insert_topic_rows (rows : list (uuid * (bytes * option jval))) : tx topicTables nat :=
  stmt (fun e _ t =>
    if jsonb_refuses rows then (Err (ErrDriver unsupported_escape), t)
    else
      let '(m, ids) := sql_insert_many
        (map (fun x => (x.1, mkTopicRow x.2.1 (e_now e) x.2.2)) rows) (tt_msgs t) in
      (Ok (length ids), set_tt_msgs m t)).

Definition publishToPubSub (cfg : queueConfig) (topicName tableName : string) (messageID : uuid)
    (payload : bytes) (metadata : option jval) : io unit :=
  withTx (
    rowsAffected ← on_topic tableName (insert_topic_rows [(messageID, (payload, metadata))]);
    if (rowsAffected =? 0)%nat then throw ErrDuplicateMessageID
    else
      createSubscriptionRecords cfg topicName tableName messageID ;;
      emitNotify tableName).

(** ** Publish *)

Definition publishResolved (cfg : queueConfig) (queueName : string) (payload : bytes)
    (messageID : uuid) (metadata : option jmap) : io uuid :=
  queueMeta ← resolveQueueMetadata queueName;
  from_result (validatePayloadSize cfg queueMeta payload) ;;
  id ← (if messageID =? nil_uuid then NewUUIDv7 else mret messageID);
  metadataJSON ← from_result (marshalAndValidateMetadata cfg queueMeta metadata);
  (if bool_decide (q_QueueType queueMeta = QueueTypePubSub) then
     publishToPubSub cfg (q_QueueName queueMeta) (q_TableName queueMeta) id payload metadataJSON
   else
     publishToChannel (q_TableName queueMeta) id payload metadataJSON
       (resolveMaxRetries cfg queueMeta)) ;;
  mret id.

(** [payload] is [None] for a nil slice. *)
Definition Publish (cfg : queueConfig) (queueName : string) (payload : option bytes)
    (opts : list PublishOption) : io uuid :=
  checkClosed ;;
  match payload with
  | None => fail ErrNilPayload
  | Some p =>
      let o := applyPublishOptions opts in
      publishResolved cfg queueName p (po_messageID o) (po_metadata o)
  end.

(** ** PublishBatch ([batch.go]) *)

Record PublishMessage := mkPublishMessage {
  pm_ID : uuid;
  pm_Payload : option bytes;
  pm_Metadata : option jmap
}.

Definition MaxBatchSize : Z := 1000.

Definition validateBatchSize (size : Z) : result unit :=
  if MaxBatchSize <? size then Err ErrBatchTooLarge else Ok tt.

(** The upfront validation loop; the total payload size. *)
Fixpoint validate_payloads (maxMsgSize : Z) (messages : list PublishMessage) (total : Z) : result Z :=
  match messages with
  | [] => Ok total
  | m :: messages =>
      match pm_Payload m with
      | None => Err ErrNilPayload
      | Some p =>
          checkPayloadSize maxMsgSize p ;;
          validate_payloads maxMsgSize messages (total + Z.of_nat (length p))
      end
  end.

(** Ids and marshalled metadata, in the order of the messages. *)
Fixpoint prepareBatchMessages (maxMetaSize : Z) (messages : list PublishMessage) :
    io (list (uuid * option jval)) :=
  match messages with
  | [] => mret []
  | m :: messages =>
      id ← (if pm_ID m =? nil_uuid then NewUUIDv7 else mret (pm_ID m));
      md ← from_result (marshalMetadataWithLimit maxMetaSize (pm_Metadata m));
      rest ← prepareBatchMessages maxMetaSize messages;
      mret ((id, md) :: rest)
  end.

(** The rows to insert: id, payload, metadata. *)
Definition batch_rows (prepared : list (uuid * option jval)) (messages : list PublishMessage) :
    list (uuid * (bytes * option jval)) :=
  zip_with (fun x m => (x.1, (default [] (pm_Payload m), x.2))) prepared messages.

Definition publishBatchToChannel (tableName : string) (rows : list (uuid * (bytes * option jval)))
    (maxRetries : Z) : io unit :=
  withTx (
    rowsAffected ← on_channel tableName (insert_channel_rows rows maxRetries);
    if (rowsAffected <? length rows)%nat then throw ErrDuplicateMessageID
    else emitNotify tableName).

Definition insertBatchPubSubMessages (tableName : string)
    (rows : list (uuid * (bytes * option jval))) : tx DB unit :=
  rowsAffected ← on_topic tableName (insert_topic_rows rows);
  if (rowsAffected <? length rows)%nat then throw ErrDuplicateMessageID else mret tt.

(** The buffered fan-out: a full buffer is flushed, the rest at the end. *)
Fixpoint fanout (recs buf : list subRecord) : tx topicTables unit :=
  match recs with
  | [] => match buf with [] => mret tt | _ => insertSubscriptionRecords buf end
  | rec :: recs =>
      let buf := buf ++ [rec] in
      if (length buf =? subFanoutChunkRows)%nat
      then insertSubscriptionRecords buf ;; fanout recs []
      else fanout recs buf
  end.

Definition batchCreateSubscriptionRecords (messageIDs : list uuid) (subscribers : list subscriber) :
    tx topicTables unit :=
  fanout (messageIDs ≫= (fun id => map (fun s => mkSubRecord id (sb_SubscriberID s)) subscribers))
    [].

Definition publishBatchToPubSub (cfg : queueConfig) (topicName tableName : string)
    (rows : list (uuid * (bytes * option jval))) : io unit :=
  withTx (
    insertBatchPubSubMessages tableName rows ;;
    subscribers ← getActiveSubscribers cfg topicName;
    match subscribers with
    | [] => mret tt
    | _ => on_topic tableName (batchCreateSubscriptionRecords rows.*1 subscribers)
    end ;;
    emitNotify tableName).

Definition publishBatchResolved (cfg : queueConfig) (queueMeta : queueMetadata)
    (messages : list PublishMessage) : io (list uuid) :=
  totalBytes ← from_result (validate_payloads (resolveMaxMessageSize cfg queueMeta) messages 0);
  if (0 <? maxBatchBytes cfg) && (maxBatchBytes cfg <? totalBytes) then fail ErrBatchTooLarge
  else
    prepared ← prepareBatchMessages (resolveMaxMetadataSize cfg queueMeta) messages;
    let rows := batch_rows prepared messages in
    (if bool_decide (q_QueueType queueMeta = QueueTypePubSub) then
       publishBatchToPubSub cfg (q_QueueName queueMeta) (q_TableName queueMeta) rows
     else
       publishBatchToChannel (q_TableName queueMeta) rows (resolveMaxRetries cfg queueMeta)) ;;
    mret prepared.*1.

Definition PublishBatch (cfg : queueConfig) (queueName : string) (messages : list PublishMessage) :
    io (list uuid) :=
  checkClosed ;;
  match messages with
  | [] => mret []
  | _ =>
      from_result (validateBatchSize (Z.of_nat (length messages))) ;;
      queueMeta ← resolveQueueMetadata queueName;
      publishBatchResolved cfg queueMeta messages
  end.

(** ** Specification vocabulary *)

(** The tables of a channel after a publish of [rows] at [now]. *)
Definition channel_published (now : timestamp) (rows : list (uuid * (bytes * option jval)))
    (maxRetries : Z) (ct : channelTables) : channelTables :=
  set_ct_msgs (ct_msgs ct ∪
    list_to_map (map (fun x => (x.1, new_channel_row now x.2.1 x.2.2 maxRetries)) rows)) ct.

(** The database after a publish into a channel: its tables, and one notification. *)
Definition db_channel_published (now : timestamp) (tableName : string)
    (rows : list (uuid * (bytes * option jval))) (maxRetries : Z) (ct : channelTables) (d : DB) :
    DB :=
  set_notifications (db_notifications d ++ [notifyChannelName tableName])
    (set_channels (<[tableName := channel_published now rows maxRetries ct]> (db_channels d)) d).

(** The ids of a batch are new: distinct, and none taken. *)
Definition ids_new {R} (m : gmap Z R) (ids : list uuid) : Prop :=
  NoDup ids /\ forall id, id ∈ ids -> m !! id = None.

(** The keys of a topic's tables: every subscription is of a message of the topic,
    and there is at most one per message and subscriber. *)
Definition topic_keys (t : topicTables) : Prop :=
  (forall k s, tt_subs t !! k = Some s -> is_Some (tt_msgs t !! s_message_id s)) /\
  (forall k k' s s', tt_subs t !! k = Some s -> tt_subs t !! k' = Some s' ->
     s_message_id s = s_message_id s' -> s_subscriber_id s = s_subscriber_id s' -> k = k').

(** uuidv7() never repeats itself, nor a key of a subscription. *)
Definition sub_gen_fresh (e : env) (n : nat) (t : topicTables) : Prop :=
  (forall m i, (n <= m)%nat -> tt_subs t !! e_gen e m i = None) /\
  (forall m m' i i', e_gen e m i = e_gen e m' i' -> m = m' /\ i = i').

(** [t'] is [t] with a fresh pending subscription for every record that had none. *)
Definition subscribed (now : timestamp) (recs : list subRecord) (t t' : topicTables) : Prop :=
  tt_msgs t' = tt_msgs t /\ tt_dlq t' = tt_dlq t /\ tt_subs t ⊆ tt_subs t' /\
  (forall rec, rec ∈ recs -> exists k s, tt_subs t' !! k = Some s /\
     s_message_id s = sr_messageID rec /\ s_subscriber_id s = sr_subscriberID rec) /\
  (forall k s, tt_subs t' !! k = Some s -> tt_subs t !! k = Some s \/
     exists rec, rec ∈ recs /\ s = new_sub_row now rec).

(** ** Lemmas *)

Lemma map_fst_rows {A} (rows : list (uuid * (bytes * option jval))) (f : bytes * option jval -> A) :
  (map (fun x => (x.1, f x.2)) rows).*1 = rows.*1.
Proof. induction rows as [|x rows IH]; [done|]. cbn. by f_equal. Qed.

Lemma wp_insert_channel_rows e n ct rows mr (Q : nat -> nat -> option channelTables -> Prop) E :
  (forall d, faulty e -> E (ErrDriver d)) ->
  0 <= mr ->
  (jsonb_refuses rows = true -> E (ErrDriver unsupported_escape)) ->
  (forall k, jsonb_refuses rows = false ->
     (k <= length rows)%nat -> (k = length rows <-> ids_new (ct_msgs ct) rows.*1) ->
     Q k (S n) (Some (channel_published (e_now e) rows mr ct))) ->
  wp e n (Some ct) (insert_channel_rows rows mr) Q E.
Proof.
  intros HF Hmr HJ HQ. unfold insert_channel_rows. wp_step.
  destruct (jsonb_refuses rows) eqn:Ej; [by apply HJ|]. rewrite (proj2 (Z.ltb_ge _ _)) by done.
  set (new := map _ rows).
  pose proof (sql_insert_many_union new (ct_msgs ct)) as Hu.
  pose proof (sql_insert_many_full new (ct_msgs ct)) as Hful.
  pose proof (length_sql_insert_many new (ct_msgs ct)) as Hle.
  destruct (sql_insert_many new (ct_msgs ct)) as [m ids]. cbn in Hu, Hful, Hle. subst m.
  assert (length new = length rows) as Hlen by apply length_map.
  assert (new.*1 = rows.*1) as Hkeys.
  { subst new. apply (map_fst_rows rows (fun x => new_channel_row (e_now e) x.1 x.2 mr)). }
  rewrite Hlen in *. rewrite Hkeys in Hful. by apply HQ.
Qed.

Lemma wp_emitNotify e n d t (Q : unit -> nat -> option DB -> Prop) E :
  (faulty e -> Q tt (S n) None) ->
  Q tt (S n) (Some (set_notifications (db_notifications d ++ [notifyChannelName t]) d)) ->
  wp e n (Some d) (emitNotify t) Q E.
Proof. intros HF HQ. by apply wp_stmt_logged. Qed.

(** Publishing into an existing channel, on a server that works. *)
Lemma iwp_publishBatchToChannel o w t ct rows mr (Q : unit -> world -> Prop) E :
  reliable o -> db_channels (w_db w) !! t = Some ct -> 0 <= mr ->
  (forall w', jsonb_refuses rows = false -> ids_new (ct_msgs ct) rows.*1 ->
     w_db w' = db_channel_published (e_now (o (w_tick w))) t rows mr ct (w_db w) -> Q tt w') ->
  (forall w', ~ ids_new (ct_msgs ct) rows.*1 -> w_db w' = w_db w -> E ErrDuplicateMessageID w') ->
  (forall w', jsonb_refuses rows = true -> w_db w' = w_db w -> E (ErrDriver unsupported_escape) w') ->
  iwp o w (publishBatchToChannel t rows mr) Q E.
Proof.
  intros Hrel Hct Hmr HQ HE HJ. unfold publishBatchToChannel. apply iwp_withTx.
  { intros d Hf. exfalso. by eapply Hrel. }
  wp_step. eapply on_channel_wp; [exact Hct|]. apply wp_insert_channel_rows; [|done|intros; by apply HJ|].
  { intros d Hf. exfalso. by eapply Hrel. }
  intros k Ej Hk Hiff. destruct (Nat.ltb_spec k (length rows)) as [Hlt|Hge].
  - wp_step. apply HE; [|done]. intros Hn%Hiff. lia.
  - apply wp_emitNotify; [intros Hf; exfalso; by eapply Hrel|].
    apply HQ; [done|apply Hiff; lia|done].
Qed.

(** A single publish is a batch of one. *)
Lemma publishToChannel_batch t id p md mr o w :
  publishToChannel t id p md mr o w = publishBatchToChannel t [(id, (p, md))] mr o w.
Proof.
  unfold publishToChannel, publishBatchToChannel, withTx, mbind, tx_bind.
  destruct (e_begin _); [done|]. destruct (on_channel _ _ _ _ _) as [[|k] n s|]; done.
Qed.

Lemma resolveQueueMetadata_db_pure name : db_pure (resolveQueueMetadata name).
Proof.
  unfold resolveQueueMetadata. apply bind_db_pure; [apply query_db_pure|]. intros [m|]; rollback.
Qed.

Lemma prepareBatchMessages_db_pure mx ms : db_pure (prepareBatchMessages mx ms).
Proof.
  induction ms as [|m ms IH]; [rollback|]. cbn [prepareBatchMessages].
  apply bind_db_pure; [destruct (pm_ID m =? nil_uuid); rollback|]. intros id.
  apply bind_db_pure; [rollback|]. intros md. apply bind_db_pure; [done|rollback].
Qed.

#[export] Hint Resolve resolveQueueMetadata_db_pure prepareBatchMessages_db_pure : rollback.

(** ** Subscriptions: lemmas *)

Lemma find_sub_Some t mid sid k s :
  find_sub t mid sid = Some (k, s) ->
  tt_subs t !! k = Some s /\ s_message_id s = mid /\ s_subscriber_id s = sid.
Proof.
  unfold find_sub. intros H%head_Some_elem_of. apply elem_of_sql_select in H as [Hk HP].
  apply andb_true_iff in HP as [H1%Z.eqb_eq H2%bool_decide_eq_true_1]. done.
Qed.

Lemma find_sub_None t mid sid :
  find_sub t mid sid = None <->
  forall k s, tt_subs t !! k = Some s -> ~ (s_message_id s = mid /\ s_subscriber_id s = sid).
Proof.
  unfold find_sub. rewrite head_None, sql_select_nil. split; intros H k s Hk; specialize (H k s Hk).
  - intros [<- <-]. by rewrite Z.eqb_refl, bool_decide_eq_true_2 in H.
  - apply andb_false_iff. destruct (Z.eqb_spec (s_message_id s) mid) as [<-|]; [|by left].
    right. apply bool_decide_eq_false_2. intros <-. by apply H.
Qed.

Lemma subscribed_refl now t : subscribed now [] t t.
Proof.
  split_and!; [done..| |by left]. intros rec Hr. by apply elem_of_nil in Hr.
Qed.

Lemma subscribed_trans now r1 r2 t1 t2 t3 :
  subscribed now r1 t1 t2 -> subscribed now r2 t2 t3 -> subscribed now (r1 ++ r2) t1 t3.
Proof.
  intros (Hm & Hd & Hs & Hin & Hb) (Hm' & Hd' & Hs' & Hin' & Hb').
  split_and!; [congruence..|by etrans| |].
  - intros rec [Hr|Hr]%elem_of_app; [|by apply Hin'].
    destruct (Hin rec Hr) as (k & s & Hk & ?). exists k, s. split; [by eapply lookup_weaken|done].
  - intros k s Hk. destruct (Hb' k s Hk) as [Hk'|(rec & Hr & ->)].
    + destruct (Hb k s Hk') as [?|(rec & Hr & ->)]; [by left|].
      right. exists rec. split; [apply elem_of_app; by left|done].
    + right. exists rec. split; [apply elem_of_app; by right|done].
Qed.

(** One row of the fan-out insert, with keys to spare. *)
Lemma insert_sub_spec e n i rec t :
  topic_keys t -> is_Some (tt_msgs t !! sr_messageID rec) -> tt_subs t !! e_gen e n i = None ->
  exists t', insert_sub e n i rec t = Ok t' /\ subscribed (e_now e) [rec] t t' /\ topic_keys t' /\
    (forall k, tt_subs t !! k = None -> k <> e_gen e n i -> tt_subs t' !! k = None).
Proof.
  intros Hkeys [m Hm] Hg. unfold insert_sub. rewrite Hm.
  destruct (find_sub t (sr_messageID rec) (sr_subscriberID rec)) as [[k s]|] eqn:Hf.
  - exists t. split; [done|]. apply find_sub_Some in Hf as (Hk & Hmid & Hsid).
    split; [|done]. split_and!; [done..| |by left].
    intros rec' ->%list_elem_of_singleton. by exists k, s.
  - rewrite Hg. eexists. split; [done|]. rewrite find_sub_None in Hf. split_and!; cbn.
    + split_and!; cbn; [done..|by apply insert_subseteq| |].
      * intros rec' ->%list_elem_of_singleton. eexists _, _. by rewrite lookup_insert_eq.
      * intros k s. rewrite lookup_insert_Some. intros [[_ <-]|[_ ?]]; [right|by left].
        exists rec. split; [by left|done].
    + destruct Hkeys as [Hfk Huq]. split; cbn.
      * intros k s. rewrite lookup_insert_Some. intros [[_ <-]|[_ ?]]; [by eexists|eauto].
      * intros k k' s s'. rewrite !lookup_insert_Some.
        intros [[<- <-]|[Hk Hs]] [[<- <-]|[Hk' Hs']] H1 H2; cbn in *; [done|..].
        -- exfalso. by apply (Hf k' s' Hs').
        -- exfalso. by apply (Hf k s Hs).
        -- by apply (Huq k k' s s').
    + intros k Hk Hne. by rewrite lookup_insert_ne.
Qed.

Lemma insert_subs_spec e n recs i t :
  topic_keys t -> (forall rec, rec ∈ recs -> is_Some (tt_msgs t !! sr_messageID rec)) ->
  (forall j j', e_gen e n j = e_gen e n j' -> j = j') ->
  (forall j, (i <= j)%nat -> tt_subs t !! e_gen e n j = None) ->
  exists t', insert_subs e n i recs t = Ok t' /\ subscribed (e_now e) recs t t' /\ topic_keys t' /\
    (forall k, tt_subs t !! k = None -> (forall j, k <> e_gen e n j) -> tt_subs t' !! k = None).
Proof.
  intros Hkeys Hfk Hinj. revert i t Hkeys Hfk.
  induction recs as [|rec recs IH]; intros i t Hkeys Hfk Hfr.
  { exists t. split; [done|]. split; [apply subscribed_refl|done]. }
  destruct (insert_sub_spec e n i rec t Hkeys) as (t1 & Heq & Hsub & Hkeys1 & Hnone).
  { apply Hfk. left. } { by apply Hfr. }
  pose proof Hsub as (Hm1 & _).
  destruct (IH (S i) t1 Hkeys1) as (t2 & Heq2 & Hsub2 & Hkeys2 & Hnone2).
  - intros rec' Hr. rewrite Hm1. apply Hfk. by right.
  - intros j Hj. apply Hnone; [apply Hfr; lia|]. intros Heqj%Hinj. lia.
  - exists t2. cbn [insert_subs]. unfold mbind, result_bind. rewrite Heq. split; [done|].
    split; [by apply (subscribed_trans _ [rec] recs t t1 t2)|]. split; [done|].
    intros k Hk Hne. apply Hnone2; [|done]. by apply Hnone.
Qed.

Lemma wp_insert_sub_chunk e n recs t (Q : unit -> nat -> option topicTables -> Prop) E :
  (forall d, faulty e -> E (ErrDriver d)) ->
  topic_keys t -> sub_gen_fresh e n t ->
  (forall rec, rec ∈ recs -> is_Some (tt_msgs t !! sr_messageID rec)) ->
  (forall t', subscribed (e_now e) recs t t' -> topic_keys t' -> sub_gen_fresh e (S n) t' ->
     Q tt (S n) (Some t')) ->
  wp e n (Some t) (insert_sub_chunk recs) Q E.
Proof.
  intros HF Hkeys [Hfr Hinj] Hfk HQ. unfold insert_sub_chunk. wp_step.
  destruct (insert_subs_spec e n recs 0 t Hkeys Hfk) as (t' & -> & Hsub & Hk' & Hnone).
  - by intros j j' [_ ?]%Hinj.
  - intros j _. apply Hfr. lia.
  - apply HQ; [done..|]. split; [|done]. intros m i Hm. apply Hnone; [apply Hfr; lia|].
    intros j [-> _]%Hinj. lia.
Qed.

Lemma chunks_concat {A} fuel size (l : list A) :
  (0 < size)%nat -> (length l <= fuel)%nat -> mjoin (chunks fuel size l) = l.
Proof.
  intros Hs. revert l. induction fuel as [|fuel IH]; intros l Hl.
  { destruct l; [done|cbn in Hl; lia]. }
  destruct l as [|x l]; [done|]. cbn [chunks mjoin list_join].
  rewrite IH; [apply take_drop|]. rewrite length_drop. cbn in *. lia.
Qed.

(** Inserting in chunks subscribes every record once. *)
Lemma wp_chunks e n cs t (Q : unit -> nat -> option topicTables -> Prop) E :
  (forall d, faulty e -> E (ErrDriver d)) ->
  topic_keys t -> sub_gen_fresh e n t ->
  (forall rec, rec ∈ mjoin cs -> is_Some (tt_msgs t !! sr_messageID rec)) ->
  (forall t' n', (n <= n')%nat -> subscribed (e_now e) (mjoin cs) t t' -> topic_keys t' ->
     sub_gen_fresh e n' t' -> Q tt n' (Some t')) ->
  wp e n (Some t) (for_each insert_sub_chunk cs) Q E.
Proof.
  intros HF. revert n t Q. induction cs as [|c cs IH]; intros n t Q Hkeys Hfr Hfk HQ.
  { cbn [for_each]. wp_step. apply HQ; [done|apply subscribed_refl|done..]. }
  cbn [for_each mjoin list_join] in *. wp_step. apply wp_insert_sub_chunk; [done..| |].
  { intros rec Hr. apply Hfk. apply elem_of_app. by left. }
  intros t1 Hsub1 Hk1 Hf1. pose proof Hsub1 as (Hm1 & _). apply IH; [done..| |].
  - intros rec Hr. rewrite Hm1. apply Hfk. apply elem_of_app. by right.
  - intros t2 n2 Hn2 Hsub2 Hk2 Hf2. apply HQ; [lia| |done..]. by eapply subscribed_trans.
Qed.

Lemma wp_insertSubscriptionRecords e n recs t (Q : unit -> nat -> option topicTables -> Prop) E :
  (forall d, faulty e -> E (ErrDriver d)) ->
  topic_keys t -> sub_gen_fresh e n t ->
  (forall rec, rec ∈ recs -> is_Some (tt_msgs t !! sr_messageID rec)) ->
  (forall t' n', (n <= n')%nat -> subscribed (e_now e) recs t t' -> topic_keys t' ->
     sub_gen_fresh e n' t' -> Q tt n' (Some t')) ->
  wp e n (Some t) (insertSubscriptionRecords recs) Q E.
Proof.
  intros HF Hkeys Hfr Hfk HQ. unfold insertSubscriptionRecords.
  assert (mjoin (chunks (length recs) subFanoutChunkRows recs) = recs) as Hj.
  { apply chunks_concat; [unfold subFanoutChunkRows; lia|done]. }
  apply wp_chunks; rewrite ?Hj; done.
Qed.

Lemma wp_fanout e n recs buf t (Q : unit -> nat -> option topicTables -> Prop) E :
  (forall d, faulty e -> E (ErrDriver d)) ->
  topic_keys t -> sub_gen_fresh e n t ->
  (forall rec, rec ∈ buf ++ recs -> is_Some (tt_msgs t !! sr_messageID rec)) ->
  (forall t' n', (n <= n')%nat -> subscribed (e_now e) (buf ++ recs) t t' -> topic_keys t' ->
     sub_gen_fresh e n' t' -> Q tt n' (Some t')) ->
  wp e n (Some t) (fanout recs buf) Q E.
Proof.
  intros HF. revert n buf t Q. induction recs as [|rec recs IH]; intros n buf t Q Hkeys Hfr Hfk HQ.
  { cbn [fanout]. destruct buf as [|b buf].
    - wp_step. apply HQ; [done|apply subscribed_refl|done..].
    - rewrite (right_id_L [] (++)) in *. by apply wp_insertSubscriptionRecords. }
  cbn [fanout]. change (rec :: recs) with ([rec] ++ recs) in *. rewrite (assoc_L (++)) in *.
  destruct (length (buf ++ [rec]) =? subFanoutChunkRows)%nat; [|by apply IH].
  wp_step. apply wp_insertSubscriptionRecords; [done..| |].
  { intros rec' Hr. apply Hfk. apply elem_of_app. by left. }
  intros t1 n1 Hn1 Hsub1 Hk1 Hf1. pose proof Hsub1 as (Hm1 & _). apply IH; [done..| |].
  - intros rec' Hr. rewrite Hm1. apply Hfk. apply elem_of_app. by right.
  - intros t2 n2 Hn2 Hsub2 Hk2 Hf2. apply HQ; [lia| |done..]. by eapply subscribed_trans.
Qed.

(** The tables of a topic after the message rows of a publish. *)
Definition topic_published (now : timestamp) (rows : list (uuid * (bytes * option jval)))
    (t : topicTables) : topicTables :=
  set_tt_msgs (tt_msgs t ∪ list_to_map (map (fun x => (x.1, mkTopicRow x.2.1 now x.2.2)) rows)) t.

(** The messages × subscribers product. *)
Definition cross (ids : list uuid) (subs : list subscriber) : list subRecord :=
  ids ≫= (fun id => map (fun s => mkSubRecord id (sb_SubscriberID s)) subs).

(** The database after the topic's tables became [t'], with one notification. *)
Definition db_topic_published (tableName : string) (t' : topicTables) (d : DB) : DB :=
  set_notifications (db_notifications d ++ [notifyChannelName tableName])
    (set_topics (<[tableName := t']> (db_topics d)) d).

(** The outcome of publishing [rows]: their messages, and a pending subscription of
    each for every active subscriber. *)
Definition topic_fanned_out (now : timestamp) (rows : list (uuid * (bytes * option jval)))
    (subs : list subscriber) (t t' : topicTables) : Prop :=
  subscribed now (cross rows.*1 subs) (topic_published now rows t) t' /\ topic_keys t'.

Lemma elem_of_cross ids subs rec :
  rec ∈ cross ids subs <->
  sr_messageID rec ∈ ids /\ exists s, s ∈ subs /\ sr_subscriberID rec = sb_SubscriberID s.
Proof.
  unfold cross. rewrite list_elem_of_bind. split.
  - intros (id & (s & -> & Hs)%list_elem_of_fmap & Hid). split; [done|]. by exists s.
  - intros [Hid (s & Hs & Hx)]. exists (sr_messageID rec). split; [|done].
    apply list_elem_of_fmap. exists s. split; [|done]. destruct rec. cbn in *. by subst.
Qed.

Lemma topic_published_lookup now rows t id :
  id ∈ rows.*1 -> is_Some (tt_msgs (topic_published now rows t) !! id).
Proof.
  intros Hid. cbn. apply lookup_union_is_Some. right.
  set (l := map _ rows). assert (id ∈ l.*1) as Hl.
  { subst l. by rewrite (map_fst_rows rows (fun x => mkTopicRow x.1 now x.2)). }
  destruct (list_to_map (M := gmap Z topicRow) l !! id) as [x|] eqn:E; [by eexists|].
  apply not_elem_of_list_to_map in E. done.
Qed.

Lemma topic_published_keys now rows t : topic_keys t -> topic_keys (topic_published now rows t).
Proof.
  intros [Hfk Huq]. split; [|done]. intros k s Hk. cbn. apply lookup_union_is_Some. left. by eapply Hfk.
Qed.

Lemma wp_insert_topic_rows e n t rows (Q : nat -> nat -> option topicTables -> Prop) E :
  (forall d, faulty e -> E (ErrDriver d)) ->
  (jsonb_refuses rows = true -> E (ErrDriver unsupported_escape)) ->
  (forall k, jsonb_refuses rows = false ->
     (k <= length rows)%nat -> (k = length rows <-> ids_new (tt_msgs t) rows.*1) ->
     Q k (S n) (Some (topic_published (e_now e) rows t))) ->
  wp e n (Some t) (insert_topic_rows rows) Q E.
Proof.
  intros HF HJ HQ. unfold insert_topic_rows. wp_step.
  destruct (jsonb_refuses rows) eqn:Ej; [by apply HJ|]. set (new := map _ rows).
  pose proof (sql_insert_many_union new (tt_msgs t)) as Hu.
  pose proof (sql_insert_many_full new (tt_msgs t)) as Hful.
  pose proof (length_sql_insert_many new (tt_msgs t)) as Hle.
  destruct (sql_insert_many new (tt_msgs t)) as [m ids]. cbn in Hu, Hful, Hle. subst m.
  assert (length new = length rows) as Hlen by apply length_map.
  assert (new.*1 = rows.*1) as Hkeys.
  { subst new. apply (map_fst_rows rows (fun x => mkTopicRow x.1 (e_now e) x.2)). }
  rewrite Hlen in *. rewrite Hkeys in Hful. by apply HQ.
Qed.

(** The fan-out of the rows just inserted, by one insert ([ins]) or the other. *)
Lemma wp_fan e n d t tt rows subs (ins : tx topicTables unit)
    (Q : unit -> nat -> option DB -> Prop) E :
  ~ faulty e ->
  db_topics d !! t = Some (topic_published (e_now e) rows tt) -> topic_keys tt ->
  sub_gen_fresh e n tt ->
  (forall n t Q E, ~ faulty e -> topic_keys t -> sub_gen_fresh e n t ->
     (forall rec, rec ∈ cross rows.*1 subs -> is_Some (tt_msgs t !! sr_messageID rec)) ->
     (forall t' n', subscribed (e_now e) (cross rows.*1 subs) t t' -> topic_keys t' ->
        Q Datatypes.tt n' (Some t')) -> wp e n (Some t) ins Q E) ->
  (forall tt' n', topic_fanned_out (e_now e) rows subs tt tt' ->
     Q Datatypes.tt n' (Some (set_topics (<[t := tt']> (db_topics d)) d))) ->
  wp e n (Some d) (match subs with [] => mret Datatypes.tt | _ => on_topic t ins end) Q E.
Proof.
  intros Hf Ht Hkeys Hfr Hins HQ.
  assert (subs = [] -> cross rows.*1 subs = []) as Hnil.
  { intros ->. apply elem_of_nil_inv. intros rec [_ (s & Hs & _)]%elem_of_cross.
    by apply elem_of_nil in Hs. }
  destruct subs as [|s subs].
  - wp_step. replace d with (set_topics (<[t := topic_published (e_now e) rows tt]> (db_topics d)) d).
    + apply HQ. split; [|by apply topic_published_keys]. rewrite Hnil by done. apply subscribed_refl.
    + destruct d. unfold set_topics. cbn in *. by rewrite insert_id.
  - eapply on_topic_wp; [exact Ht|]. apply Hins; [done|by apply topic_published_keys|done| |].
    + intros rec [Hr _]%elem_of_cross. by apply topic_published_lookup.
    + intros t' n' Hsub Hk. cbn. by apply HQ.
Qed.

Lemma iwp_publishBatchToPubSub o w cfg topic t tt rows (Q : unit -> world -> Prop) E :
  reliable o -> db_topics (w_db w) !! t = Some tt -> topic_keys tt ->
  (forall m, sub_gen_fresh (o m) 0 tt) ->
  let subs := snd <$> active_subscribers topic (w_db w) in
  let over := (0 <? maxSubscribersPerTopic cfg) &&
              (maxSubscribersPerTopic cfg <? Z.of_nat (length subs)) in
  (forall tt' w', jsonb_refuses rows = false -> ids_new (tt_msgs tt) rows.*1 -> over = false ->
     topic_fanned_out (e_now (o (w_tick w))) rows subs tt tt' ->
     w_db w' = db_topic_published t tt' (w_db w) -> Q Datatypes.tt w') ->
  (forall w', ~ ids_new (tt_msgs tt) rows.*1 -> w_db w' = w_db w -> E ErrDuplicateMessageID w') ->
  (forall w', over = true -> w_db w' = w_db w -> E ErrTooManySubscribers w') ->
  (forall w', jsonb_refuses rows = true -> w_db w' = w_db w -> E (ErrDriver unsupported_escape) w') ->
  iwp o w (publishBatchToPubSub cfg topic t rows) Q E.
Proof.
  intros Hrel Ht Hkeys Hfr subs over HQ HD HO HJ. unfold publishBatchToPubSub. apply iwp_withTx.
  { intros d Hf. exfalso. by eapply Hrel. }
  set (e := o (w_tick w)) in *. assert (~ faulty e) as Hnf by apply Hrel.
  unfold insertBatchPubSubMessages. do 2 wp_step. eapply on_topic_wp; [exact Ht|].
  apply wp_insert_topic_rows; [by intros|intros; by apply HJ|].
  intros k Hj Hk Hiff. destruct (Nat.ltb_spec k (length rows)) as [Hlt|Hge].
  { wp_step. apply HD; [|done]. intros Hn%Hiff. lia. }
  do 2 wp_step. apply wp_getActiveSubscribers; [by intros|]. cbn [fmap option_fmap option_map].
  set (d1 := set_topics _ _). change (active_subscribers topic d1) with
    (active_subscribers topic (w_db w)). fold subs.
  replace (length (active_subscribers topic (w_db w))) with (length subs) by apply length_fmap.
  fold over. destruct over eqn:Hov; [by apply HO|].
  wp_step. eapply (wp_fan e _ d1 t tt rows subs); [done| |done| | |].
  - apply lookup_insert_eq.
  - destruct (Hfr (w_tick w)) as [Hf Hi]. split; [|done]. intros m i _. apply Hf. lia.
  - intros n' t' Q' E' _ Hk' Hf' Hfk HQ'. unfold batchCreateSubscriptionRecords.
    fold (cross rows.*1 subs). apply wp_fanout; [by intros|done..|]. intros; by eapply HQ'.
  - intros tt' n' Hfan. apply wp_emitNotify; [by intros|].
    eapply HQ; [done|apply Hiff; lia|done|exact Hfan|].
    unfold db_topic_published, d1. destruct (w_db w). unfold set_topics, set_notifications. cbn.
    by rewrite insert_insert_eq.
Qed.

(** A single publish to a topic meets the specification of a batch of one. *)
Lemma iwp_publishToPubSub o w cfg topic t tt id p md (Q : unit -> world -> Prop) E :
  reliable o -> db_topics (w_db w) !! t = Some tt -> topic_keys tt ->
  (forall m, sub_gen_fresh (o m) 0 tt) ->
  let subs := snd <$> active_subscribers topic (w_db w) in
  let over := (0 <? maxSubscribersPerTopic cfg) &&
              (maxSubscribersPerTopic cfg <? Z.of_nat (length subs)) in
  let rows := [(id, (p, md))] in
  (forall tt' w', jsonb_refuses rows = false -> ids_new (tt_msgs tt) rows.*1 -> over = false ->
     topic_fanned_out (e_now (o (w_tick w))) rows subs tt tt' ->
     w_db w' = db_topic_published t tt' (w_db w) -> Q Datatypes.tt w') ->
  (forall w', ~ ids_new (tt_msgs tt) rows.*1 -> w_db w' = w_db w -> E ErrDuplicateMessageID w') ->
  (forall w', over = true -> w_db w' = w_db w -> E ErrTooManySubscribers w') ->
  (forall w', jsonb_refuses rows = true -> w_db w' = w_db w -> E (ErrDriver unsupported_escape) w') ->
  iwp o w (publishToPubSub cfg topic t id p md) Q E.
Proof.
  intros Hrel Ht Hkeys Hfr subs over rows HQ HD HO HJ. unfold publishToPubSub. apply iwp_withTx.
  { intros d Hf. exfalso. by eapply Hrel. }
  set (e := o (w_tick w)) in *. assert (~ faulty e) as Hnf by apply Hrel.
  wp_step. eapply on_topic_wp; [exact Ht|]. apply wp_insert_topic_rows; [by intros|intros; by apply HJ|].
  intros k Hj Hk Hiff. cbn [length] in *. destruct (Nat.eqb_spec k 0) as [Hz|Hz].
  { wp_step. apply HD; [|done]. intros Hn%Hiff. lia. }
  wp_step. unfold createSubscriptionRecords. wp_step.
  apply wp_getActiveSubscribers; [by intros|]. cbn [fmap option_fmap option_map].
  set (d1 := set_topics _ _). change (active_subscribers topic d1) with
    (active_subscribers topic (w_db w)). fold subs.
  replace (length (active_subscribers topic (w_db w))) with (length subs) by apply length_fmap.
  fold over. destruct over eqn:Hov; [by apply HO|].
  eapply (wp_fan e _ d1 t tt rows subs); [done| |done| | |].
  - apply lookup_insert_eq.
  - destruct (Hfr (w_tick w)) as [Hf Hi]. split; [|done]. intros m i _. apply Hf. lia.
  - intros n' t' Q' E' _ Hk' Hf' Hfk HQ'.
    assert (cross rows.*1 subs = map (fun s => mkSubRecord id (sb_SubscriberID s)) subs) as Hc.
    { unfold cross. cbn. by rewrite (right_id_L [] (++)). }
    rewrite Hc in *. apply wp_insertSubscriptionRecords; [by intros|done..|]. intros; by eapply HQ'.
  - intros tt' n' Hfan. apply wp_emitNotify; [by intros|].
    eapply HQ; [done|apply Hiff; lia|done|exact Hfan|].
    unfold db_topic_published, d1. destruct (w_db w). unfold set_topics, set_notifications. cbn.
    by rewrite insert_insert_eq.
Qed.

(** ** Publishes that may fail anywhere *)

(** *** A lost answer *)

Lemma insert_subs_acknowledge e n recs i t :
  insert_subs (acknowledge e) n i recs t = insert_subs e n i recs t.
Proof.
  revert i t. induction recs as [|rec recs IH]; intros i t; [done|]. cbn [insert_subs].
  change (insert_sub (acknowledge e) n i rec t) with (insert_sub e n i rec t).
  unfold mbind, result_bind. by destruct (insert_sub e n i rec t).
Qed.

Lemma blind_insert_sub_chunk recs : blind (insert_sub_chunk recs).
Proof. apply blind_stmt. intros e n t. by rewrite insert_subs_acknowledge. Qed.
#[local] Hint Resolve blind_insert_sub_chunk : rollback.

Lemma blind_insertSubscriptionRecords recs : blind (insertSubscriptionRecords recs).
Proof. unfold insertSubscriptionRecords. rollback. Qed.
#[local] Hint Resolve blind_insertSubscriptionRecords : rollback.

Lemma blind_fanout recs buf : blind (fanout recs buf).
Proof.
  revert buf. induction recs as [|rec recs IH]; intros buf; cbn [fanout].
  - destruct buf; rollback.
  - destruct (_ =? _)%nat; [|apply IH]. apply blind_bind; [rollback|intros _; apply IH].
Qed.

Lemma blind_getActiveSubscribers cfg topic : blind (getActiveSubscribers cfg topic).
Proof. unfold getActiveSubscribers, query. rollback. Qed.
#[local] Hint Resolve blind_fanout blind_getActiveSubscribers : rollback.

Lemma publishToChannel_atomic t id p md mr : all_or_nothing (publishToChannel t id p md mr).
Proof. apply withTx_all_or_nothing. unfold on_channel, insert_channel_rows, emitNotify. rollback. Qed.
Lemma publishBatchToChannel_atomic t rows mr : all_or_nothing (publishBatchToChannel t rows mr).
Proof. apply withTx_all_or_nothing. unfold on_channel, insert_channel_rows, emitNotify. rollback. Qed.
Lemma publishToPubSub_atomic cfg topic t id p md : all_or_nothing (publishToPubSub cfg topic t id p md).
Proof.
  apply withTx_all_or_nothing.
  unfold on_topic, insert_topic_rows, createSubscriptionRecords, emitNotify. rollback.
Qed.
Lemma publishBatchToPubSub_atomic cfg topic t rows : all_or_nothing (publishBatchToPubSub cfg topic t rows).
Proof.
  apply withTx_all_or_nothing.
  unfold insertBatchPubSubMessages, on_topic, insert_topic_rows, batchCreateSubscriptionRecords, emitNotify.
  rollback.
Qed.

Lemma resolveQueueMetadata_steady name : steady (resolveQueueMetadata name).
Proof. unfold resolveQueueMetadata. apply bind_steady; [apply query_steady|]. intros [m|]; rollback. Qed.
Lemma prepareBatchMessages_steady mx ms : steady (prepareBatchMessages mx ms).
Proof.
  induction ms as [|m ms IH]; [rollback|]. cbn [prepareBatchMessages].
  apply bind_steady; [destruct (pm_ID m =? nil_uuid); rollback|]. intros id.
  apply bind_steady; [rollback|]. intros md. apply bind_steady; [done|rollback].
Qed.
#[local] Hint Resolve resolveQueueMetadata_steady prepareBatchMessages_steady : rollback.

Lemma publishResolved_atomic cfg q p id md : all_or_nothing (publishResolved cfg q p id md).
Proof.
  unfold publishResolved. apply bind_all_or_nothing; [rollback..|intros meta].
  apply bind_all_or_nothing; [rollback..|intros _].
  apply bind_all_or_nothing; [destruct (id =? nil_uuid); rollback..|intros id'].
  apply bind_all_or_nothing; [rollback..|intros mj].
  apply (bind_ret_all_or_nothing _ (fun _ => id')).
  case_bool_decide; [apply publishToPubSub_atomic|apply publishToChannel_atomic].
Qed.

Lemma publishBatchResolved_atomic cfg meta ms : all_or_nothing (publishBatchResolved cfg meta ms).
Proof.
  unfold publishBatchResolved. apply bind_all_or_nothing; [rollback..|intros total].
  destruct (_ && _); [rollback|]. apply bind_all_or_nothing; [rollback..|intros prepared].
  apply (bind_ret_all_or_nothing _ (fun _ => prepared.*1)).
  case_bool_decide; [apply publishBatchToPubSub_atomic|apply publishBatchToChannel_atomic].
Qed.

(** *** A publish that returns *)

(** The messages of a queue: payload and metadata by id. *)
Definition content (meta : queueMetadata) (d : DB) : gmap Z (bytes * option jval) :=
  if bool_decide (q_QueueType meta = QueueTypePubSub) then
    default ∅ ((fun t => (fun r => (t_payload r, t_metadata r)) <$> tt_msgs t) <$>
                 db_topics d !! q_TableName meta)
  else
    default ∅ ((fun t => (fun r => (c_payload r, c_metadata r)) <$> ct_msgs t) <$>
                 db_channels d !! q_TableName meta).

Definition within_limits (cfg : queueConfig) (meta : queueMetadata) (m : PublishMessage) : Prop :=
  (exists p, pm_Payload m = Some p /\ Z.of_nat (length p) <= resolveMaxMessageSize cfg meta) /\
  (forall md, pm_Metadata m = Some md -> jsupported (JObject md) = true /\
     (0 < resolveMaxMetadataSize cfg meta -> json_size (JObject md) <= resolveMaxMetadataSize cfg meta)).

(** The messages [ms] are within the limits and now on the queue, under the new ids
    [ids], their own where they have one; nothing else is. *)
Definition published (cfg : queueConfig) (meta : queueMetadata) (ms : list PublishMessage)
    (ids : list uuid) (d d' : DB) : Prop :=
  Forall (within_limits cfg meta) ms /\
  Forall2 (fun m id => pm_ID m <> nil_uuid -> id = pm_ID m) ms ids /\
  ids_new (content meta d) ids /\
  content meta d' = content meta d ∪
    list_to_map (zip ids ((fun m => (default [] (pm_Payload m), JObject <$> pm_Metadata m)) <$> ms)).

Lemma fmap_insert_rows {R X} (g : R -> X) (f : bytes * option jval -> R) m
    (rows : list (uuid * (bytes * option jval))) :
  g <$> (m ∪ list_to_map (map (fun x => (x.1, f x.2)) rows) : gmap Z R) =
  (g <$> m) ∪ list_to_map (map (fun x => (x.1, g (f x.2))) rows).
Proof.
  rewrite map_fmap_union. f_equal. induction rows as [|x rows IH]; [apply fmap_empty|].
  cbn. by rewrite fmap_insert, IH.
Qed.

(** The rows of a publish are on the queue, with new ids, and nothing else is. *)
Definition rows_stored (pubsub : bool) (t : string) (rows : list (uuid * (bytes * option jval)))
    (d d' : DB) : Prop :=
  let meta := mkQueueMetadata 0 (if pubsub then QueueTypePubSub else QueueTypeChannel) "" t ConfigEmpty
                false 0 0 in
  ids_new (content meta d) rows.*1 /\ content meta d' = content meta d ∪ list_to_map rows.

Lemma ids_new_fmap {R X} (g : R -> X) (m : gmap Z R) ids : ids_new m ids -> ids_new (g <$> m) ids.
Proof. intros [Hn Hm]. split; [done|]. intros id Hid. by rewrite lookup_fmap, Hm. Qed.

Lemma map_rows_id (rows : list (uuid * (bytes * option jval))) :
  map (fun x => (x.1, (x.2.1, x.2.2))) rows = rows.
Proof. induction rows as [|[i [p md]] rows IH]; [done|]. cbn. by f_equal. Qed.

Lemma iwp_channel_stored o w t rows mr :
  iwp o w (publishBatchToChannel t rows mr)
    (fun _ w' => rows_stored false t rows (w_db w) (w_db w')) (fun _ _ => True).
Proof.
  unfold publishBatchToChannel. apply iwp_withTx_lossy; [done|]. wp_step.
  destruct (db_channels (w_db w) !! t) as [ct|] eqn:Hct.
  2: { unfold wp, on_channel, zoom. rewrite Hct. by destruct (e_fault _ _). }
  eapply on_channel_wp; [exact Hct|]. destruct (Z.ltb_spec mr 0) as [Hmr|Hmr].
  { unfold insert_channel_rows. wp_step. rewrite (proj2 (Z.ltb_lt mr 0)) by done. by destruct (jsonb_refuses rows). }
  apply wp_insert_channel_rows; [done..|]. intros k _ Hk Hiff.
  destruct (Nat.ltb_spec k (length rows)) as [Hlt|Hge]; [by wp_step|].
  apply wp_emitNotify; [done|]. split; [|done]. unfold rows_stored, content. cbn -[list_to_map union].
  rewrite lookup_insert_eq, Hct. cbn -[list_to_map union]. split; [apply ids_new_fmap, Hiff; lia|].
  by rewrite (fmap_insert_rows _ (fun x => new_channel_row _ x.1 x.2 mr)), map_rows_id.
Qed.

Lemma wp_assoc {S A B C} e n s (m : tx S A) (f : A -> tx S B) (g : B -> tx S C) Q E :
  wp e n s (m ≫= (fun a => f a ≫= g)) Q E -> wp e n s ((m ≫= f) ≫= g) Q E.
Proof. unfold wp, mbind, tx_bind. by destruct (m e n s). Qed.

(** The fan-out leaves the messages alone. *)
Definition keeps_msgs {A} (m : tx topicTables A) : Prop := forall e n t,
  wp e n (Some t) m (fun _ _ s => exists t', s = Some t' /\ tt_msgs t' = tt_msgs t) (fun _ => True).

Lemma keeps_msgs_bind {A B} (m : tx topicTables A) (f : A -> tx topicTables B) :
  keeps_msgs m -> (forall a, keeps_msgs (f a)) -> keeps_msgs (m ≫= f).
Proof.
  intros Hm Hf e n t. wp_step. eapply wp_mono; [apply Hm| |done]. intros a n1 s (t1 & -> & H1).
  eapply wp_mono; [apply Hf| |done]. intros b n2 s (t2 & -> & H2). exists t2. by rewrite H2.
Qed.

Lemma keeps_msgs_ret {A} (a : A) : keeps_msgs (mret a).
Proof. intros e n t. wp_step. by exists t. Qed.

Lemma insert_subs_msgs e n recs i t t' : insert_subs e n i recs t = Ok t' -> tt_msgs t' = tt_msgs t.
Proof.
  revert i t. induction recs as [|rec recs IH]; intros i t; cbn [insert_subs]; [by intros [= ->]|].
  unfold mbind, result_bind, insert_sub. repeat case_match; try done; simplify_eq; by intros ->%IH.
Qed.

Lemma keeps_msgs_records recs : keeps_msgs (insertSubscriptionRecords recs).
Proof.
  unfold insertSubscriptionRecords. induction (chunks _ _ recs) as [|c cs IH]; [apply keeps_msgs_ret|].
  apply keeps_msgs_bind; [|done]. intros e n t. unfold insert_sub_chunk. wp_step.
  destruct (insert_subs e n 0 c t) as [t'|] eqn:E; [|done]. exists t'. split; [done|].
  by eapply insert_subs_msgs.
Qed.

Lemma keeps_msgs_fanout recs buf : keeps_msgs (fanout recs buf).
Proof.
  revert buf. induction recs as [|rec recs IH]; intros buf; cbn [fanout].
  - destruct buf; [apply keeps_msgs_ret|apply keeps_msgs_records].
  - destruct (_ =? _)%nat; [|apply IH]. apply keeps_msgs_bind; [apply keeps_msgs_records|done].
Qed.

(** The fan-out and the notification after the rows have been inserted. *)
Lemma wp_fan_stored cfg e n d d0 topic t tt rows (ins : list subscriber -> tx topicTables unit)
    (Q : unit -> nat -> option DB -> Prop) :
  (forall subs, keeps_msgs (ins subs)) ->
  db_topics d0 !! t = Some tt -> ids_new (tt_msgs tt) rows.*1 ->
  db_topics d !! t = Some (topic_published (e_now e) rows tt) ->
  (forall n' d', rows_stored true t rows d0 d' -> Q Datatypes.tt n' (Some d')) ->
  (forall n', Q Datatypes.tt n' None) ->
  wp e n (Some d)
    (subs ← getActiveSubscribers cfg topic;
     match subs with [] => mret Datatypes.tt | _ => on_topic t (ins subs) end ;;
     emitNotify t) Q (fun _ => True).
Proof.
  intros Hins Ht Hnew Hd HQ HN. wp_step. apply wp_getActiveSubscribers; [done|]. case_match; [done|].
  assert (forall n' d' t', db_topics d' !! t = Some t' ->
    tt_msgs t' = tt_msgs (topic_published (e_now e) rows tt) -> wp e n' (Some d') (emitNotify t) Q (fun _ => True))
    as Hend.
  { intros n' d' t' Hd' Hm. apply wp_emitNotify; [by intros|]. apply HQ. unfold rows_stored, content.
    cbn -[list_to_map union]. rewrite Ht, Hd'. cbn -[list_to_map union].
    split; [by apply ids_new_fmap|]. rewrite Hm. cbn -[list_to_map union].
    by rewrite (fmap_insert_rows _ (fun x => mkTopicRow x.1 _ x.2)), map_rows_id. }
  wp_step. destruct (snd <$> _) as [|s subs].
  - wp_step. by eapply Hend.
  - eapply on_topic_wp; [exact Hd|]. eapply wp_mono; [apply Hins| |done].
    intros _ n' s' (t' & -> & Hm). cbn. eapply Hend; [apply lookup_insert_eq|done].
Qed.

Lemma iwp_topic_stored o w cfg topic t rows :
  iwp o w (publishBatchToPubSub cfg topic t rows)
    (fun _ w' => rows_stored true t rows (w_db w) (w_db w')) (fun _ _ => True).
Proof.
  unfold publishBatchToPubSub. apply iwp_withTx_lossy; [done|].
  unfold insertBatchPubSubMessages. do 2 wp_step.
  destruct (db_topics (w_db w) !! t) as [tt|] eqn:Ht.
  2: { unfold wp, on_topic, zoom. rewrite Ht. by destruct (e_fault _ _). }
  eapply on_topic_wp; [exact Ht|]. apply wp_insert_topic_rows; [done..|]. intros k _ Hk Hiff.
  destruct (Nat.ltb_spec k (length rows)) as [Hlt|Hge]; [by wp_step|]. wp_step.
  apply (wp_fan_stored cfg _ _ _ (w_db w) topic t tt rows (batchCreateSubscriptionRecords rows.*1)); [..|done].
  - intros subs. apply keeps_msgs_fanout.
  - done.
  - apply Hiff. lia.
  - apply lookup_insert_eq.
  - done.
Qed.

Lemma iwp_topic_stored1 o w cfg topic t id p md :
  iwp o w (publishToPubSub cfg topic t id p md)
    (fun _ w' => rows_stored true t [(id, (p, md))] (w_db w) (w_db w')) (fun _ _ => True).
Proof.
  unfold publishToPubSub. apply iwp_withTx_lossy; [done|]. wp_step.
  destruct (db_topics (w_db w) !! t) as [tt|] eqn:Ht.
  2: { unfold wp, on_topic, zoom. rewrite Ht. by destruct (e_fault _ _). }
  eapply on_topic_wp; [exact Ht|]. apply wp_insert_topic_rows; [done..|]. intros k _ Hk Hiff.
  cbn [length] in *. destruct (Nat.eqb_spec k 0) as [Hz|Hz]; [by wp_step|].
  unfold createSubscriptionRecords. apply wp_assoc.
  apply (wp_fan_stored cfg _ _ _ (w_db w) topic t tt [(id, (p, md))]
    (fun subs => insertSubscriptionRecords (map (fun s => mkSubRecord id (sb_SubscriberID s)) subs))); [..|done].
  - intros subs. apply keeps_msgs_records.
  - done.
  - apply Hiff. lia.
  - apply lookup_insert_eq.
  - done.
Qed.
(** The id and the metadata a message is stored with. *)
Definition prepared_as (limit : Z) (m : PublishMessage) (x : uuid * option jval) : Prop :=
  (pm_ID m <> nil_uuid -> x.1 = pm_ID m) /\ x.2 = JObject <$> pm_Metadata m /\
  (forall md, pm_Metadata m = Some md -> jsupported (JObject md) = true /\
     (0 < limit -> json_size (JObject md) <= limit)).

Lemma marshalMetadataWithLimit_ok limit md j :
  marshalMetadataWithLimit limit md = Ok j -> j = JObject <$> md /\
    (forall m, md = Some m -> jsupported (JObject m) = true /\ (0 < limit -> json_size (JObject m) <= limit)).
Proof.
  unfold marshalMetadataWithLimit. destruct md as [m|]; [|by intros [= <-]].
  destruct (jsupported (JObject m)) eqn:Es; [|done]. cbn [negb].
  destruct (Z.ltb_spec 0 limit) as [Hl|Hl]; cbn [andb].
  - destruct (Z.ltb_spec limit (json_size (JObject m))); [done|]. intros [= <-]. split; [done|].
    by intros m' [= <-].
  - intros [= <-]. split; [done|]. intros m' [= <-]. split; [done|lia].
Qed.

Lemma iwp_prepare o w limit ms :
  iwp o w (prepareBatchMessages limit ms)
    (fun prepared w' => w_db w' = w_db w /\ Forall2 (prepared_as limit) ms prepared) (fun _ _ => True).
Proof.
  revert w. induction ms as [|m ms IH]; intros w; cbn [prepareBatchMessages]; [iwp_step; by split|].
  assert (forall id w1, (pm_ID m <> nil_uuid -> id = pm_ID m) -> w_db w1 = w_db w ->
    iwp o w1 (md ← from_result (marshalMetadataWithLimit limit (pm_Metadata m));
              rest ← prepareBatchMessages limit ms; mret ((id, md) :: rest))
      (fun prepared w' => w_db w' = w_db w /\ Forall2 (prepared_as limit) (m :: ms) prepared)
      (fun _ _ => True)) as Hrest.
  { intros id w1 Hid Hdb. do 2 iwp_step.
    destruct (marshalMetadataWithLimit _ _) as [md|] eqn:Em; [|done].
    apply marshalMetadataWithLimit_ok in Em as [Hmd Hl]. iwp_step.
    eapply iwp_mono; [apply IH| |done]. cbv beta. intros rest w2 [Hdb2 Hf]. iwp_step.
    split; [congruence|]. by constructor. }
  iwp_step. destruct (Z.eqb_spec (pm_ID m) nil_uuid) as [E|E].
  - apply iwp_NewUUIDv7; [|done]. intros u st. by apply Hrest.
  - iwp_step. by apply Hrest.
Qed.

Lemma validate_payloads_ok limit ms total n :
  validate_payloads limit ms total = Ok n ->
  Forall (fun m => exists p, pm_Payload m = Some p /\ Z.of_nat (length p) <= limit) ms /\
  n = total + foldr (fun m acc => Z.of_nat (length (default [] (pm_Payload m))) + acc) 0 ms.
Proof.
  revert total. induction ms as [|m ms IH]; intros total; cbn [validate_payloads foldr];
    [intros [= <-]; split; [done|lia]|].
  destruct (pm_Payload m) as [p|] eqn:Ep; [|done]. unfold checkPayloadSize.
  destruct (Z.ltb_spec limit (Z.of_nat (length p))); [done|]. intros [Hf ->]%IH.
  split; [|cbn; lia]. constructor; [by exists p|done].
Qed.

Lemma batch_rows_zip limit ms prepared :
  Forall2 (prepared_as limit) ms prepared ->
  batch_rows prepared ms =
    zip prepared.*1 ((fun m => (default [] (pm_Payload m), JObject <$> pm_Metadata m)) <$> ms) /\
  (batch_rows prepared ms).*1 = prepared.*1.
Proof.
  unfold batch_rows. induction 1 as [|m x ms prepared (_ & Hx & _) _ [IH1 IH2]]; [done|]. cbn.
  split; [by rewrite IH1, Hx|by rewrite IH2].
Qed.

Lemma stored_published cfg meta ms prepared d d' :
  rows_stored (bool_decide (q_QueueType meta = QueueTypePubSub)) (q_TableName meta)
    (batch_rows prepared ms) d d' ->
  Forall (fun m => exists p, pm_Payload m = Some p /\
    Z.of_nat (length p) <= resolveMaxMessageSize cfg meta) ms ->
  Forall2 (prepared_as (resolveMaxMetadataSize cfg meta)) ms prepared ->
  published cfg meta ms prepared.*1 d d'.
Proof.
  intros Hst Hp Hpr. destruct (batch_rows_zip _ _ _ Hpr) as [Hz Hk]. unfold rows_stored in Hst.
  rewrite Hk, Hz in Hst. split; [|split].
  - clear -Hp Hpr. induction Hpr as [|m x ms prepared (_ & _ & Hm) _ IH]; [done|].
    apply Forall_cons in Hp as [Hp Hps]. constructor; [by split|by apply IH].
  - clear -Hpr. induction Hpr as [|m x ms prepared (Hm & _) _ IH]; by constructor.
  - revert Hst. unfold content. cbn [q_QueueType q_TableName].
    destruct (bool_decide (q_QueueType meta = QueueTypePubSub)); done.
Qed.

(** Publishing to the queue [meta], whatever its type. *)
Lemma iwp_stored o w cfg meta rows :
  iwp o w (if bool_decide (q_QueueType meta = QueueTypePubSub) then
             publishBatchToPubSub cfg (q_QueueName meta) (q_TableName meta) rows
           else publishBatchToChannel (q_TableName meta) rows (resolveMaxRetries cfg meta))
    (fun _ w' => rows_stored (bool_decide (q_QueueType meta = QueueTypePubSub)) (q_TableName meta) rows
       (w_db w) (w_db w')) (fun _ _ => True).
Proof. destruct (bool_decide _); [apply iwp_topic_stored|apply iwp_channel_stored]. Qed.

Lemma iwp_stored1 o w cfg meta id p md :
  iwp o w (if bool_decide (q_QueueType meta = QueueTypePubSub) then
             publishToPubSub cfg (q_QueueName meta) (q_TableName meta) id p md
           else publishToChannel (q_TableName meta) id p md (resolveMaxRetries cfg meta))
    (fun _ w' => rows_stored (bool_decide (q_QueueType meta = QueueTypePubSub)) (q_TableName meta)
       [(id, (p, md))] (w_db w) (w_db w')) (fun _ _ => True).
Proof.
  destruct (bool_decide _); [apply iwp_topic_stored1|]. unfold iwp. rewrite publishToChannel_batch.
  apply iwp_channel_stored.
Qed.

Lemma iwp_resolve o w name (Q : queueMetadata -> world -> Prop) :
  (forall meta w', lookup_any_queue name (w_db w) = Some meta -> w_db w' = w_db w -> Q meta w') ->
  iwp o w (resolveQueueMetadata name) Q (fun _ _ => True).
Proof.
  intros HQ. unfold resolveQueueMetadata. iwp_step. apply iwp_withTx_lossy; [done|].
  apply wp_query; [done|]. split; [|done]. destruct (lookup_any_queue name (w_db w)) as [meta|] eqn:E;
    iwp_step; [by apply HQ|done].
Qed.

Lemma iwp_Publish o w cfg name payload opts :
  iwp o w (Publish cfg name payload opts)
    (fun id w' => exists meta, lookup_any_queue name (w_db w) = Some meta /\
       let po := applyPublishOptions opts in
       published cfg meta [mkPublishMessage (po_messageID po) payload (po_metadata po)] [id]
         (w_db w) (w_db w')) (fun _ _ => True).
Proof.
  unfold Publish. iwp_step. iwp_step; [done|intros _]. destruct payload as [p|]; [|by iwp_step].
  cbv zeta. set (id0 := po_messageID _). set (md := po_metadata _). unfold publishResolved. iwp_step.
  apply iwp_resolve. intros meta w1 Hl Hdb1. do 2 iwp_step. unfold validatePayloadSize, checkPayloadSize.
  destruct (Z.ltb_spec (resolveMaxMessageSize cfg meta) (Z.of_nat (length p))) as [|Hp]; [done|].
  pose (msg := mkPublishMessage id0 (Some p) md).
  assert (forall id w2, (id0 <> nil_uuid -> id = id0) -> w_db w2 = w_db w ->
    iwp o w2 (metadataJSON ← from_result (marshalAndValidateMetadata cfg meta md);
      (if bool_decide (q_QueueType meta = QueueTypePubSub) then
         publishToPubSub cfg (q_QueueName meta) (q_TableName meta) id p metadataJSON
       else publishToChannel (q_TableName meta) id p metadataJSON (resolveMaxRetries cfg meta)) ;; mret id)
      (fun id w' => exists meta, lookup_any_queue name (w_db w) = Some meta /\
         published cfg meta [msg] [id] (w_db w) (w_db w')) (fun _ _ => True)) as Hrest.
  { intros id w2 Hid Hdb2. do 2 iwp_step.
    assert (marshalAndValidateMetadata cfg meta md =
      marshalMetadataWithLimit (resolveMaxMetadataSize cfg meta) md) as -> by by destruct md.
    destruct (marshalMetadataWithLimit _ md) as [j|] eqn:Em; [|done].
    apply marshalMetadataWithLimit_ok in Em as [-> Hm]. iwp_step.
    eapply iwp_mono; [apply iwp_stored1| |done]. cbv beta. intros _ w3 Hst. iwp_step. exists meta.
    split; [done|]. rewrite Hdb2 in Hst.
    apply (stored_published cfg meta [msg] [(id, JObject <$> md)]); [exact Hst| |].
    - constructor; [by exists p|done].
    - constructor; [by split_and!|done]. }
  iwp_step. destruct (Z.eqb_spec id0 nil_uuid) as [E|E].
  - apply iwp_NewUUIDv7; [|done]. intros u st. by apply Hrest.
  - iwp_step. by apply Hrest.
Qed.

(** The bytes of a batch. *)
Definition batch_bytes (ms : list PublishMessage) : Z :=
  foldr (fun m acc => Z.of_nat (length (default [] (pm_Payload m))) + acc) 0 ms.

Lemma iwp_PublishBatch o w cfg name ms :
  iwp o w (PublishBatch cfg name ms)
    (fun ids w' => ms = [] /\ ids = [] /\ w_db w' = w_db w \/
       exists meta, lookup_any_queue name (w_db w) = Some meta /\
         Z.of_nat (length ms) <= MaxBatchSize /\
         (0 < maxBatchBytes cfg -> batch_bytes ms <= maxBatchBytes cfg) /\
         published cfg meta ms ids (w_db w) (w_db w')) (fun _ _ => True).
Proof.
  unfold PublishBatch. iwp_step. iwp_step; [done|intros _].
  destruct ms as [|m0 ms0]; [iwp_step; by left|]. set (ms := m0 :: ms0). do 2 iwp_step.
  unfold validateBatchSize. destruct (Z.ltb_spec MaxBatchSize (Z.of_nat (length ms))) as [|Hlen]; [done|].
  iwp_step. apply iwp_resolve. intros meta w1 Hl Hdb1. unfold publishBatchResolved. do 2 iwp_step.
  destruct (validate_payloads _ ms 0) as [total|] eqn:Ev; [|done].
  apply validate_payloads_ok in Ev as [Hp Ht]. fold (batch_bytes ms) in Ht.
  destruct ((0 <? maxBatchBytes cfg) && (maxBatchBytes cfg <? total)) eqn:Eb; [by iwp_step|].
  iwp_step. eapply iwp_mono; [apply iwp_prepare| |done]. cbv beta. intros prepared w2 [Hdb2 Hpr].
  iwp_step. eapply iwp_mono; [apply iwp_stored| |done]. cbv beta. intros _ w3 Hst. iwp_step.
  right. exists meta. split; [done|]. split; [done|]. split.
  - intros Hb. apply andb_false_iff in Eb as [?%Z.ltb_ge|?%Z.ltb_ge]; lia.
  - rewrite Hdb2, Hdb1 in Hst. by apply stored_published.
Qed.

(** ** Properties *)

(** C8: publishing is all or nothing under every failure.  Whenever [Publish] or
    [PublishBatch] returns an error (a limit, a duplicate id, a statement, the
    notification, BEGIN or COMMIT failing at any point), the database is exactly as it
    was; unless the answer to the COMMIT was lost after the server had committed, and then
    it is exactly what the call leaves when it is told so and succeeds.  And whenever
    one returns without an error, every payload, its metadata and the batch were within
    their limits, no id was taken or given twice, and the messages of the queue are
    those from before and exactly these, each with its payload and metadata, under the
    ids returned. *)
Theorem publish_all_or_nothing (cfg : queueConfig) (queueName : string) (payload : option bytes)
    (opts : list PublishOption) (messages : list PublishMessage) :
  all_or_nothing (Publish cfg queueName payload opts) /\
  all_or_nothing (PublishBatch cfg queueName messages) /\
  (forall o w id w', Publish cfg queueName payload opts o w = (Ok id, w') ->
     exists meta, lookup_any_queue queueName (w_db w) = Some meta /\
       let po := applyPublishOptions opts in
       published cfg meta [mkPublishMessage (po_messageID po) payload (po_metadata po)] [id]
         (w_db w) (w_db w')) /\
  (forall o w ids w', PublishBatch cfg queueName messages o w = (Ok ids, w') ->
     messages = [] /\ ids = [] /\ w_db w' = w_db w \/
     exists meta, lookup_any_queue queueName (w_db w) = Some meta /\
       Z.of_nat (length messages) <= 1000 /\
       (0 < maxBatchBytes cfg -> batch_bytes messages <= maxBatchBytes cfg) /\
       published cfg meta messages ids (w_db w) (w_db w')).
Proof.
  split; [|split; [|split]].
  - unfold Publish. apply bind_all_or_nothing; [rollback..|intros _].
    destruct payload; [apply publishResolved_atomic|rollback].
  - unfold PublishBatch. apply bind_all_or_nothing; [rollback..|intros _].
    destruct messages as [|m ms]; [rollback|].
    apply bind_all_or_nothing; [rollback..|intros _]. apply bind_all_or_nothing; [rollback..|intros meta].
    apply publishBatchResolved_atomic.
  - intros o w id w' Hrun. pose proof (iwp_Publish o w cfg queueName payload opts) as Hi.
    unfold iwp in Hi. by rewrite Hrun in Hi.
  - intros o w ids w' Hrun. pose proof (iwp_PublishBatch o w cfg queueName messages) as Hi.
    unfold iwp in Hi. by rewrite Hrun in Hi.
Qed.

Definition sample_channel_db : DB :=
  set_channels {["jobs"%string := mkChannelTables ∅ ∅]} empty_DB.

(** The connection is lost after the server has committed the second transaction. *)
Definition lost_connection : driver_err := DriverErr None "unexpected EOF".
Definition lossy_oracle : oracle := fun n =>
  let e := calm_oracle n in
  mkEnv (e_now e) (e_locked e) (e_gen e) (e_fault e) (e_begin e)
    (if (n =? 1)%nat then Some (lost_connection, true) else None)
    (e_rand e) (e_conv e) (e_time e) (e_ms e) (e_entropy e).
Definition lossy_meta : queueMetadata :=
  mkQueueMetadata 1 QueueTypeChannel "jobs" "jobs" ConfigEmpty false 0 0.
Definition lossy_world : world := new_world (set_metadata {[1 := lossy_meta]} sample_channel_db).
Definition lossy_publish : io uuid :=
  Publish (applyConfigOptions []) "jobs" (Some [Byte.x61]) [WithMessageID 5].

(** The caller gets an error although the message is on the queue, as a publish that
    succeeds leaves it. *)
Lemma publish_all_or_nothing_witness :
  exists w', lossy_publish lossy_oracle lossy_world = (Err (ErrDriver lost_connection), w') /\
    content lossy_meta (w_db w') = {[5 := ([Byte.x61], None)]} /\
    lossy_publish (acknowledged lossy_oracle) lossy_world = (Ok 5, w').
Proof.
  destruct (publish_all_or_nothing (applyConfigOptions []) "jobs" (Some [Byte.x61]) [WithMessageID 5] [])
    as (Hatom & _ & Hok & _).
  fold lossy_publish in Hatom, Hok.
  destruct (lossy_publish lossy_oracle lossy_world) as [r w'] eqn:Hrun.
  assert ((lossy_publish lossy_oracle lossy_world).1 = Err (ErrDriver lost_connection)) as Hr
    by (vm_compute; reflexivity).
  assert (content lossy_meta (w_db (lossy_publish lossy_oracle lossy_world).2) = {[5 := ([Byte.x61], None)]})
    as Hc by (vm_compute; reflexivity).
  rewrite Hrun in Hr, Hc. cbn in Hr, Hc. subst r. exists w'. split; [reflexivity|]. split; [exact Hc|].
  destruct (Hatom _ _ _ _ Hrun) as [Hsame|[_ [id Hid]]].
  - rewrite Hsame in Hc. vm_compute in Hc. discriminate Hc.
  - destruct (Hok _ _ _ _ Hid) as (meta & _ & _ & Hids & _). rewrite Hid. cbn in Hids.
    apply Forall2_cons in Hids as [Hi _]. rewrite Hi; [reflexivity|]. vm_compute. discriminate.
Defined.

(** On a working server a batch is inserted into a channel exactly when its ids
    are distinct, none is taken and no metadata has a NUL character: then every message is a new pending row
    (available now, retry count 0, the queue's retry limit), the other rows are
    untouched and one notification is committed; otherwise the call fails with
    [ErrDuplicateMessageID], or with the error of the server, and nothing changes.  A
    single publish is a batch of one. *)
Theorem publishToChannel_exact (o : oracle) (w : world) (t : string) (ct : channelTables)
    (rows : list (uuid * (bytes * option jval))) (mr : Z) :
  reliable o -> db_channels (w_db w) !! t = Some ct -> 0 <= mr ->
  (exists res w', publishBatchToChannel t rows mr o w = (res, w') /\
     ((res = Err (ErrDriver unsupported_escape) /\ jsonb_refuses rows = true /\ w_db w' = w_db w) \/
      (res = Ok tt /\ jsonb_refuses rows = false /\ ids_new (ct_msgs ct) rows.*1 /\
       w_db w' = db_channel_published (e_now (o (w_tick w))) t rows mr ct (w_db w)) \/
      (res = Err ErrDuplicateMessageID /\ ~ ids_new (ct_msgs ct) rows.*1 /\ w_db w' = w_db w))) /\
  (forall id p md, publishToChannel t id p md mr o w =
     publishBatchToChannel t [(id, (p, md))] mr o w).
Proof.
  intros Hrel Hct Hmr. split; [|intros; apply publishToChannel_batch].
  assert (iwp o w (publishBatchToChannel t rows mr)
    (fun _ w' => jsonb_refuses rows = false /\ ids_new (ct_msgs ct) rows.*1 /\
       w_db w' = db_channel_published (e_now (o (w_tick w))) t rows mr ct (w_db w))
    (fun x w' => (x = ErrDuplicateMessageID /\ ~ ids_new (ct_msgs ct) rows.*1 /\ w_db w' = w_db w) \/
       (x = ErrDriver unsupported_escape /\ jsonb_refuses rows = true /\ w_db w' = w_db w))) as Hi.
  { eapply iwp_publishBatchToChannel; [done..| | |]; eauto. }
  unfold iwp in Hi. destruct (publishBatchToChannel t rows mr o w) as [[[]|x] w'].
  - eexists _, _. split; [done|]. right. left. naive_solver.
  - eexists _, _. split; [done|]. naive_solver.
Qed.


Lemma publishToChannel_exact_witness :
  exists w', publishBatchToChannel "jobs" [(5, ([], None)); (5, ([], None))] 3 calm_oracle
      (new_world sample_channel_db) = (Err ErrDuplicateMessageID, w') /\
    w_db w' = sample_channel_db.
Proof.
  destruct (publishToChannel_exact calm_oracle (new_world sample_channel_db) "jobs"
    (mkChannelTables ∅ ∅) [(5, ([], None)); (5, ([], None))] 3 calm_oracle_reliable eq_refl
    ltac:(lia)) as [(res & w' & Heq & [(_ & Hj & _)|[(_ & _ & [Hnd _] & _)|(-> & _ & Hw)]]) _].
  - discriminate Hj.
  - exfalso. cbn in Hnd. apply NoDup_cons in Hnd as [Hnin _]. apply Hnin. left.
  - exists w'. split; [exact Heq|exact Hw].
Defined.

(** What publishing [rows] to a topic may come to: an error that changes nothing, or
    the messages stored with their content and, for each, exactly one new pending
    subscription of every active subscriber and of no one else, with everything that
    was there kept and one notification committed. *)
Definition fan_out_outcome (o : oracle) (w : world) (cfg : queueConfig) (topic t : string)
    (tt : topicTables) (rows : list (uuid * (bytes * option jval))) (run : result unit * world) :
    Prop :=
  let now := e_now (o (w_tick w)) in
  let subs := snd <$> active_subscribers topic (w_db w) in
  let over := (0 <? maxSubscribersPerTopic cfg) &&
              (maxSubscribersPerTopic cfg <? Z.of_nat (length subs)) in
  let '(res, w') := run in
  (res = Err (ErrDriver unsupported_escape) /\ jsonb_refuses rows = true /\ w_db w' = w_db w) \/
  (res = Err ErrDuplicateMessageID /\ ~ ids_new (tt_msgs tt) rows.*1 /\ w_db w' = w_db w) \/
  (res = Err ErrTooManySubscribers /\ over = true /\ w_db w' = w_db w) \/
  (res = Ok Datatypes.tt /\ jsonb_refuses rows = false /\ ids_new (tt_msgs tt) rows.*1 /\ over = false /\
   exists tt', w_db w' = db_topic_published t tt' (w_db w) /\ topic_keys tt' /\
     tt_dlq tt' = tt_dlq tt /\ tt_subs tt ⊆ tt_subs tt' /\
     tt_msgs tt' = tt_msgs tt ∪ list_to_map (map (fun x => (x.1, mkTopicRow x.2.1 now x.2.2)) rows) /\
     (forall id s, id ∈ rows.*1 -> s ∈ subs ->
        exists k, tt_subs tt' !! k = Some (new_sub_row now (mkSubRecord id (sb_SubscriberID s))) /\
          forall k' r, tt_subs tt' !! k' = Some r -> s_message_id r = id ->
            s_subscriber_id r = sb_SubscriberID s -> k' = k) /\
     (forall k r, tt_subs tt' !! k = Some r -> tt_subs tt !! k = Some r \/
        (s_message_id r ∈ rows.*1 /\ exists s, s ∈ subs /\ s_subscriber_id r = sb_SubscriberID s))).

Lemma fanned_out_outcome o w cfg topic t tt rows (prog : io unit) :
  let subs := snd <$> active_subscribers topic (w_db w) in
  let over := (0 <? maxSubscribersPerTopic cfg) &&
              (maxSubscribersPerTopic cfg <? Z.of_nat (length subs)) in
  topic_keys tt ->
  (forall (Q : unit -> world -> Prop) E,
    (forall tt' w', jsonb_refuses rows = false -> ids_new (tt_msgs tt) rows.*1 -> over = false ->
       topic_fanned_out (e_now (o (w_tick w))) rows subs tt tt' ->
       w_db w' = db_topic_published t tt' (w_db w) -> Q Datatypes.tt w') ->
    (forall w', ~ ids_new (tt_msgs tt) rows.*1 -> w_db w' = w_db w -> E ErrDuplicateMessageID w') ->
    (forall w', over = true -> w_db w' = w_db w -> E ErrTooManySubscribers w') ->
    (forall w', jsonb_refuses rows = true -> w_db w' = w_db w -> E (ErrDriver unsupported_escape) w') ->
    iwp o w prog Q E) ->
  fan_out_outcome o w cfg topic t tt rows (prog o w).
Proof.
  intros subs over Hkeys Hprog.
  assert (iwp o w prog (fun u w' => fan_out_outcome o w cfg topic t tt rows (Ok u, w'))
    (fun x w' => fan_out_outcome o w cfg topic t tt rows (Err x, w'))) as Hi.
  { apply Hprog.
    - intros tt' w' Hj Hnew Hov [(Hm & Hd & Hincl & Hin & Hback) Hk'] Hw. do 3 right.
      refine (conj eq_refl (conj Hj (conj Hnew (conj Hov _)))). exists tt'.
      refine (conj Hw (conj Hk' (conj Hd (conj Hincl (conj Hm (conj _ _)))))).
      + intros id s Hid Hs.
        destruct (Hin (mkSubRecord id (sb_SubscriberID s))) as (k & r & Hk & Hmid & Hsid).
        { apply elem_of_cross. split; [done|]. by exists s. }
        cbn in Hmid, Hsid. exists k. split.
        * destruct (Hback k r Hk) as [Hold|([a b] & _ & ->)].
          -- destruct (proj1 Hkeys k r Hold) as [y Hy]. subst id.
             by rewrite (proj2 Hnew _ Hid) in Hy.
          -- rewrite Hk. cbn in Hmid, Hsid. by rewrite Hmid, Hsid.
        * intros k' r' Hr' H1 H2. eapply (proj2 Hk'); [exact Hr'|exact Hk|congruence..].
      + intros k r Hk. destruct (Hback k r Hk) as [Hold|(rec & Hrec & ->)]; [by left|right].
        by apply elem_of_cross in Hrec.
    - intros w' Hn Hw. by right; left.
    - intros w' Hov Hw. by do 2 right; left.
    - intros w' Hj Hw. by left. }
  unfold iwp in Hi. by destruct (prog o w) as [[u|x] w'].
Qed.

(** C9: on a working server publishing to a topic (one message or a batch) either
    fails with [ErrDuplicateMessageID] or, over the subscriber cap, with
    [ErrTooManySubscribers], or because jsonb refuses a NUL character in the metadata,
    changing nothing; or stores the messages and gives
    every active subscriber, and no one else, exactly one new pending subscription
    per message, through however many 16000-row chunks, and commits one
    notification. *)
Theorem publishToPubSub_fans_out (o : oracle) (w : world) (cfg : queueConfig) (topic t : string)
    (tt : topicTables) (rows : list (uuid * (bytes * option jval))) :
  reliable o -> db_topics (w_db w) !! t = Some tt -> topic_keys tt ->
  (forall m, sub_gen_fresh (o m) 0 tt) ->
  fan_out_outcome o w cfg topic t tt rows (publishBatchToPubSub cfg topic t rows o w) /\
  (forall id p md, fan_out_outcome o w cfg topic t tt [(id, (p, md))]
     (publishToPubSub cfg topic t id p md o w)).
Proof.
  intros Hrel Ht Hkeys Hfr. split; [|intros id p md]; apply fanned_out_outcome; [done| |done|].
  - intros Q E. by apply iwp_publishBatchToPubSub.
  - intros Q E. by apply iwp_publishToPubSub.
Qed.

Definition sample_topic_db : DB :=
  set_subscribers (<[11 := mkSubscriber "news" "bob" 2 true]>
      (<[12 := mkSubscriber "news" "eve" 3 false]> {[10 := mkSubscriber "news" "alice" 1 true]}))
    (set_topics {["news"%string := mkTopicTables ∅ ∅ ∅]} empty_DB).

Lemma publishToPubSub_fans_out_witness :
  exists w', publishBatchToPubSub (applyConfigOptions []) "news" "news" [(5, ([], None))] calm_oracle
      (new_world sample_topic_db) = (Ok tt, w') /\
    exists tt', w_db w' = db_topic_published "news" tt' sample_topic_db /\ topic_keys tt'.
Proof.
  destruct (publishToPubSub_fans_out calm_oracle (new_world sample_topic_db)
    (applyConfigOptions []) "news" "news" (mkTopicTables ∅ ∅ ∅) [(5, ([], None))])
    as [Hres _].
  - apply calm_oracle_reliable.
  - reflexivity.
  - split; cbn; [intros k s Hk|intros k k' s s' Hk]; by rewrite lookup_empty in Hk.
  - intros m. split; [intros k i _; apply lookup_empty|]. intros k k' i i'. apply calm_gen_inj.
  - destruct (publishBatchToPubSub (applyConfigOptions []) "news" "news" [(5, ([], None))] calm_oracle
      (new_world sample_topic_db)) as [res w'].
    destruct Hres as [(_ & Hj & _)|[(_ & Hn & _)|[(_ & Hov & _)|(-> & _ & _ & _ & tt' & Hw & Hk & _)]]].
    + discriminate Hj.
    + exfalso. apply Hn. split; [apply NoDup_singleton|]. intros id _. apply lookup_empty.
    + vm_compute in Hov. discriminate Hov.
    + exists w'. split; [reflexivity|]. exists tt'. split; [exact Hw|exact Hk].
Defined.
