(* ===== verification/PubSub.v ===== *)
(** * Pub/sub topics ([pubsub.go])

    Subscribing, and consuming, acknowledging, extending, retrying and
    dead-lettering a subscriber's copy of a topic's messages.  A message row is
    shared by all subscribers; the state of a delivery is in the subscription row
    of (message, subscriber). *)

From S2P Require Import Prelude Types Tx Backoff Utf8 MetadataCache World Config Queries Channel Publish.
From Stdlib Require Import ZArith Lia.
Local Open Scope Z_scope.

(** ** Subscribers *)

Definition Subscribe (topicName subscriberID : string) : io unit :=
  checkClosed ;;
  from_result (validateSubscriberID subscriberID) ;;
  map_err (not_found_as ErrTopicNotFound) (getQueueMetadata QueueTypePubSub topicName) ;;
  registerSubscriber topicName subscriberID ;;
  mret tt.

(** ORDER BY created_at, subscriber_id *)
Definition subscriber_le : relation (Z * subscriber) := fun x y =>
  sb_CreatedAt x.2 < sb_CreatedAt y.2 \/
  (sb_CreatedAt x.2 = sb_CreatedAt y.2 /\
   String.leb (sb_SubscriberID x.2) (sb_SubscriberID y.2) = true).
#[export] Instance subscriber_le_dec : RelDecision subscriber_le.
Proof. intros x y. unfold subscriber_le. apply _. Defined.

Definition ListSubscribers (topicName : string) : io (list string) :=
  checkClosed ;;
  map_err (not_found_as ErrTopicNotFound) (getQueueMetadata QueueTypePubSub topicName) ;;
  autocommit (query (fun _ d =>
    Ok (map (fun x => sb_SubscriberID x.2) (merge_sort subscriber_le (active_subscribers topicName d))))).

Definition Unsubscribe (topicName subscriberID : string) : io unit :=
  checkClosed ;;
  from_result (validateSubscriberID subscriberID) ;;
  map_err (not_found_as ErrTopicNotFound) (getQueueMetadata QueueTypePubSub topicName) ;;
  unregisterSubscriber topicName subscriberID.

(** ** Row updates *)

Definition claim_sub (retryCount : Z) (claim : uuid) (deadline : timestamp) (s : subRow) : subRow :=
  mkSubRow (s_message_id s) (s_subscriber_id s) MessageStatusProcessing (s_created_at s)
    (s_acked_at s) (Some deadline) (s_available_at s) (Some claim) retryCount (s_error_message s).

Definition ack_sub (now : timestamp) (s : subRow) : subRow :=
  mkSubRow (s_message_id s) (s_subscriber_id s) MessageStatusAcked (s_created_at s) (Some now)
    (s_visibility_timeout s) (s_available_at s) (s_claim_id s) (s_retry_count s)
    (s_error_message s).

Definition extend_sub (deadline : timestamp) (s : subRow) : subRow :=
  mkSubRow (s_message_id s) (s_subscriber_id s) (s_status s) (s_created_at s) (s_acked_at s)
    (Some deadline) (s_available_at s) (s_claim_id s) (s_retry_count s) (s_error_message s).

Definition pend_sub (retryCount : Z) (available : timestamp) (error : option bytes) (s : subRow) :
    subRow :=
  mkSubRow (s_message_id s) (s_subscriber_id s) MessageStatusPending (s_created_at s)
    (s_acked_at s) None available None retryCount error.

(** [claim_id = $3 AND status = 'processing'] *)
Definition sub_owns (claim : uuid) (s : subRow) : bool :=
  bool_decide (s_claim_id s = Some claim) && bool_decide (s_status s = MessageStatusProcessing).

(** The subscription a receipt's message and subscriber name, if its claim owns it. *)
Definition owned_sub (t : topicTables) (subscriberID : string) (r : Receipt) : option (Z * subRow) :=
  match find_sub t (r_MessageID r) subscriberID with
  | Some (k, s) => if sub_owns (r_ClaimID r) s then Some (k, s) else None
  | None => None
  end.

(** ORDER BY (key, s.message_id) *)
Definition sub_le (key : subRow -> Z) : relation (Z * subRow) := fun x y =>
  key x.2 < key y.2 \/ (key x.2 = key y.2 /\ s_message_id x.2 <= s_message_id y.2).
#[export] Instance sub_le_dec key : RelDecision (sub_le key).
Proof. intros x y. unfold sub_le. apply _. Defined.

Definition select_subs (P : Z -> subRow -> bool) (key : subRow -> Z) (t : topicTables) :
    list (Z * subRow) :=
  merge_sort (sub_le key) (filter (fun x => P x.1 x.2 = true) (map_to_list (tt_subs t))).

Section topic.
Context `{Server} (cfg : queueConfig).

(** ** Consuming *)

(** [JOIN ... ON s.message_id = m.id] and the optional TTL clause on m.created_at *)
Definition joined (ttl : Duration) (e : env) (t : topicTables) (s : subRow) : bool :=
  match tt_msgs t !! s_message_id s with
  | Some m => within_ttl ttl (e_now e) (t_created_at m)
  | None => false
  end.

Definition topic_pending (subscriberID : string) (ttl : Duration) (e : env) (t : topicTables)
    (k : Z) (s : subRow) : bool :=
  bool_decide (s_subscriber_id s = subscriberID) &&
  bool_decide (s_status s = MessageStatusPending) && (s_available_at s <=? e_now e) &&
  joined ttl e t s && negb (bool_decide (k ∈ e_locked e)).

Definition topic_reclaimable (subscriberID : string) (ttl : Duration) (e : env) (t : topicTables)
    (k : Z) (s : subRow) : bool :=
  bool_decide (s_subscriber_id s = subscriberID) &&
  bool_decide (s_status s = MessageStatusProcessing) &&
  timed_out (e_now e) (s_visibility_timeout s) &&
  joined ttl e t s && negb (bool_decide (k ∈ e_locked e)).

(** The row of a probe joined with its message: [topicCandidate]. *)
Definition join_message (t : topicTables) (x : option (Z * subRow)) :
    option (Z * subRow * topicRow) :=
  match x with
  | Some (k, s) => (fun m => (k, s, m)) <$> tt_msgs t !! s_message_id s
  | None => None
  end.

(** The two probes of [topicConsumeQueries]. *)
Definition topicPendingQuery (subscriberID : string) (ttl : Duration) :
    tx topicTables (option (Z * subRow * topicRow)) :=
  query (fun e t => Ok (join_message t
    (head (select_subs (topic_pending subscriberID ttl e t) s_available_at t)))).
Definition topicReclaimQuery (subscriberID : string) (ttl : Duration) :
    tx topicTables (option (Z * subRow * topicRow)) :=
  query (fun e t => Ok (join_message t
    (head (select_subs (topic_reclaimable subscriberID ttl e t)
             (fun s => default 0 (s_visibility_timeout s)) t)))).

Definition claimTopicSubscription (visibilityTimeout : Duration) (row : Z * subRow * topicRow)
    (retryCount maxRetries : Z) : tx topicTables (option (Message * timestamp)) :=
  let '(subID, s, m) := row in
  '(visTimeout, claimID) ← stmt (fun e n t =>
    let deadline := e_now e + make_interval visibilityTimeout in
    let claim := e_gen e n 0%nat in
    match tt_subs t !! subID with
    | None => (Err sql_ErrNoRows, t)
    | Some cur =>
        match retry_check retryCount with
        | Some d => (Err (ErrDriver d), t)
        | None => (Ok (deadline, claim),
                   set_tt_subs (<[subID := claim_sub retryCount claim deadline cur]> (tt_subs t)) t)
        end
    end);
  mret (Some (mkMessage (s_message_id s) claimID (t_payload m) (t_created_at m)
    MessageStatusProcessing retryCount maxRetries None None (s_error_message s)
    (parseMetadataJSON (t_metadata m)) None, visTimeout)).

Record subState := mkSubState {
  ss_retryCount : Z;
  ss_payload : bytes;
  ss_metadata : option jval
}.

Definition moveSubToDLQ (messageID : uuid) (subscriberID : string) (errorMsg : bytes)
    (state : subState) : tx topicTables unit :=
  let errorMsg := truncateErrorMsg errorMsg in
  stmt (fun e n t =>
    let id := e_gen e n 0%nat in
    let rc := wrap64 (ss_retryCount state + 1) in
    let row := mkDlqEntry messageID (Some subscriberID) (ss_payload state) errorMsg rc (e_now e)
                 (ss_metadata state) in
    if negb (text_ok errorMsg) then (Err (ErrDriver untranslatable), t)
    else
      match retry_check rc, tt_dlq t !! id with
      | Some d, _ => (Err (ErrDriver d), t)
      | None, Some _ => (Err (ErrDriver unique_violation), t)
      | None, None => (Ok tt, set_tt_dlq (<[id := row]> (tt_dlq t)) t)
      end) ;;
  stmt (fun _ _ t =>
    (Ok tt, match find_sub t messageID subscriberID with
            | Some (k, _) => set_tt_subs (delete k (tt_subs t)) t
            | None => t
            end)).

Definition deferReclaimedSubscription (subID : uuid) (retryCount : Z) (delay : Duration) :
    tx topicTables unit :=
  stmt (fun e _ t =>
    match tt_subs t !! subID, retry_check retryCount with
    | Some _, Some d => (Err (ErrDriver d), t)
    | Some s, None =>
        (Ok tt, set_tt_subs (<[subID := pend_sub retryCount (e_now e + make_interval delay)
                                (s_error_message s) s]> (tt_subs t)) t)
    | None, _ => (Ok tt, t)
    end).

Definition reclaimTopicAttempt (subscriberID : string) (row : Z * subRow * topicRow)
    (maxRetries : Z) : tx topicTables (Z * bool) :=
  let '(subID, s, m) := row in
  let retryCount := s_retry_count s in
  match s_status s with
  | MessageStatusProcessing =>
      if maxRetries <? wrap64 (retryCount + 1) then
        moveSubToDLQ (s_message_id s) subscriberID errReasonVisibilityTimeout
          (mkSubState retryCount (t_payload m) (t_metadata m)) ;;
        mret (0, true)
      else
        let retryCount := wrap64 (retryCount + 1) in
        if backoffConfigured cfg then
          delay ← computeRetryDelay cfg retryCount 0;
          deferReclaimedSubscription subID retryCount delay ;;
          mret (0, true)
        else mret (retryCount, false)
  | MessageStatusPending => mret (retryCount, false)
  | MessageStatusCompleted | MessageStatusAcked => throw ErrUnexpectedMessageStatus
  end.

(** The loop of [fetchPendingTopicMessage]; [left] timed-out subscriptions may
    still be skipped. *)
Fixpoint fetchTopicLoop (left : nat) (subscriberID : string) (visibilityTimeout ttl : Duration)
    (maxRetries : Z) : tx topicTables (option (Message * timestamp)) :=
  match left with
  | O => mret None
  | Datatypes.S left' =>
      pending ← topicPendingQuery subscriberID ttl;
      match pending with
      | Some row => claimTopicSubscription visibilityTimeout row (s_retry_count row.1.2) maxRetries
      | None =>
          timedOut ← topicReclaimQuery subscriberID ttl;
          match timedOut with
          | None => mret None
          | Some row =>
              '(retryCount, skip) ← reclaimTopicAttempt subscriberID row maxRetries;
              if (skip : bool) then fetchTopicLoop left' subscriberID visibilityTimeout ttl maxRetries
              else claimTopicSubscription visibilityTimeout row retryCount maxRetries
          end
      end
  end.

Definition fetchPendingTopicMessage (subscriberID : string) (visibilityTimeout ttl : Duration)
    (maxRetries : Z) : tx topicTables (option (Message * timestamp)) :=
  fetchTopicLoop maxConsumeReclaimDefers subscriberID visibilityTimeout ttl maxRetries.

Definition consumeTopicPreflight (subscriberID : string) (visibilityTimeout : Duration) : io unit :=
  checkClosed ;;
  from_result (validateVisibilityTimeout visibilityTimeout) ;;
  from_result (validateSubscriberID subscriberID).

Definition consumeFromTopic (topicName subscriberID : string) (visibilityTimeout : Duration) :
    io (option Message) :=
  consumeTopicPreflight subscriberID visibilityTimeout ;;
  queueMeta ← map_err (not_found_as ErrTopicNotFound) (getQueueMetadata QueueTypePubSub topicName);
  if q_Paused queueMeta then fail ErrQueuePaused
  else
    let ttl := getQueueTTL cfg (q_Config queueMeta) in
    let maxRetries := resolveMaxRetries cfg queueMeta in
    msg ← withTx (on_topic (q_TableName queueMeta)
                    (fetchPendingTopicMessage subscriberID visibilityTimeout ttl maxRetries));
    mret ((fun p => set_visibility (Some p.2) p.1) <$> msg).

(** ** Acknowledging and extending *)

Definition update_claimed_sub (subscriberID : string) (r : Receipt) (f : env -> subRow -> subRow) :
    tx topicTables unit :=
  rows ← stmt (fun e _ t =>
    match owned_sub t subscriberID r with
    | Some (k, s) => (Ok 1%nat, set_tt_subs (<[k := f e s]> (tt_subs t)) t)
    | None => (Ok 0%nat, t)
    end);
  if (rows =? 0)%nat then classifyTopicAckMiss subscriberID r else mret tt.

Definition ackTopic (topicName subscriberID : string) (r : Receipt) : io unit :=
  from_result (validateSubscriberID subscriberID) ;;
  queueMeta ← map_err (not_found_as ErrTopicNotFound) (getQueueMetadata QueueTypePubSub topicName);
  withTx (on_topic (q_TableName queueMeta)
    (update_claimed_sub subscriberID r (fun e => ack_sub (e_now e)))).

Definition extendTopicVisibility (topicName subscriberID : string) (r : Receipt) (d : Duration) :
    io unit :=
  from_result (validateSubscriberID subscriberID) ;;
  queueMeta ← map_err (not_found_as ErrTopicNotFound) (getQueueMetadata QueueTypePubSub topicName);
  withTx (on_topic (q_TableName queueMeta)
    (update_claimed_sub subscriberID r (fun e => extend_sub (e_now e + make_interval d)))).

(** ** Negative acknowledgement *)

Definition getProcessingSubState (subscriberID : string) (r : Receipt) : tx topicTables subState :=
  row ← query (fun _ t => Ok (join_message t (owned_sub t subscriberID r)));
  match row with
  | Some (_, s, m) => mret (mkSubState (s_retry_count s) (t_payload m) (t_metadata m))
  | None => classifyTopicAckMiss subscriberID r
  end.

Definition retrySubscription (messageID : uuid) (subscriberID : string) (errorMsg : bytes)
    (delay : Duration) : tx topicTables unit :=
  stmt (fun e _ t =>
    if negb (text_ok errorMsg) then (Err (ErrDriver untranslatable), t)
    else
      match find_sub t messageID subscriberID with
      | None => (Ok tt, t)
      | Some (k, s) =>
          if int64_max <? s_retry_count s + 1 then (Err (ErrDriver out_of_range), t)
          else (Ok tt, set_tt_subs
            (<[k := pend_sub (s_retry_count s + 1) (e_now e + make_interval delay)
                      (Some errorMsg) s]> (tt_subs t)) t)
      end).

Definition nack_sub_tx (subscriberID : string) (r : Receipt) (errorMsg : bytes)
    (retryDelay : Duration) (maxRetry : Z) : tx topicTables unit :=
  state ← getProcessingSubState subscriberID r;
  if maxRetry <? wrap64 (ss_retryCount state + 1) then
    moveSubToDLQ (r_MessageID r) subscriberID errorMsg state
  else
    delay ← computeRetryDelay cfg (wrap64 (ss_retryCount state + 1)) retryDelay;
    retrySubscription (r_MessageID r) subscriberID errorMsg delay.

Definition nackTopicImpl (topicName subscriberID : string) (r : Receipt) (errorMsg : bytes)
    (retryDelay : Duration) : io unit :=
  let errorMsg := truncateErrorMsg errorMsg in
  from_result (validateSubscriberID subscriberID) ;;
  queueMeta ← map_err (not_found_as ErrTopicNotFound) (getQueueMetadata QueueTypePubSub topicName);
  withTx (on_topic (q_TableName queueMeta)
    (nack_sub_tx subscriberID r errorMsg retryDelay (resolveMaxRetries cfg queueMeta))).

Definition nackTopicWithOpts (topicName subscriberID : string) (r : Receipt) (errorMsg : bytes)
    (opts : list NackOption) : io unit :=
  nackTopicImpl topicName subscriberID r errorMsg (resolveNackRetryDelay opts).

End topic.

(** ** Specification vocabulary *)

Section topic_spec.
Context `{Server} (cfg : queueConfig).

Definition sub_status_wf (s : subRow) : Prop :=
  match s_status s with
  | MessageStatusPending => s_claim_id s = None /\ s_visibility_timeout s = None
  | MessageStatusProcessing => is_Some (s_claim_id s) /\ is_Some (s_visibility_timeout s)
  | MessageStatusAcked => is_Some (s_claim_id s) /\ is_Some (s_acked_at s)
  | MessageStatusCompleted => False
  end.

(** A subscription under retry limit [mr]. *)
Definition sub_wf (mr : Z) (s : subRow) : Prop :=
  sub_status_wf s /\ 0 <= s_retry_count s <= mr /\ mr < int64_max.

Definition topic_inv (mr : Z) (t : topicTables) : Prop :=
  topic_keys t /\ (forall k s, tt_subs t !! k = Some s -> sub_wf mr s) /\
  (forall k d, tt_dlq t !! k = Some d -> dlq_wf d).

Definition dlq_gen_fresh (e : env) (n : nat) (t : topicTables) : Prop :=
  (forall m i, (n <= m)%nat -> tt_dlq t !! e_gen e m i = None) /\
  (forall m m' i i', e_gen e m i = e_gen e m' i' -> m = m' /\ i = i').

(** Every subscription of [t] is in [t'], or was dead-lettered for its subscriber
    with the message's payload and metadata; messages and dead letters stay. *)
Definition topic_conserves (t t' : topicTables) : Prop :=
  tt_msgs t' = tt_msgs t /\ tt_dlq t ⊆ tt_dlq t' /\
  (forall k s, tt_subs t !! k = Some s ->
     (exists s', tt_subs t' !! k = Some s' /\ s_message_id s' = s_message_id s /\
        s_subscriber_id s' = s_subscriber_id s) \/
     (exists j d m, tt_dlq t' !! j = Some d /\ tt_msgs t !! s_message_id s = Some m /\
        d_original_message_id d = s_message_id s /\ d_subscriber_id d = Some (s_subscriber_id s) /\
        d_payload d = t_payload m /\ d_metadata d = t_metadata m)).

Definition put_sub (k : Z) (s : subRow) (t : topicTables) : topicTables :=
  set_tt_subs (<[k := s]> (tt_subs t)) t.

(** Subscription [k] of message [m] moved to the dead-letter table under key [j]. *)
Definition dead_letter_sub (now : timestamp) (j k : Z) (s : subRow) (m : topicRow) (reason : bytes)
    (rc : Z) (t : topicTables) : topicTables :=
  mkTopicTables (tt_msgs t) (delete k (tt_subs t))
    (<[j := mkDlqEntry (s_message_id s) (Some (s_subscriber_id s)) (t_payload m)
              (truncateErrorMsg reason) rc now (t_metadata m)]> (tt_dlq t)).

Definition next_sub_pending (e : env) (sid : string) (ttl : Duration) (t : topicTables) :
    option (Z * subRow * topicRow) :=
  join_message t (head (select_subs (topic_pending sid ttl e t) s_available_at t)).
Definition next_sub_timed_out (e : env) (sid : string) (ttl : Duration) (t : topicTables) :
    option (Z * subRow * topicRow) :=
  join_message t (head (select_subs (topic_reclaimable sid ttl e t)
    (fun s => default 0 (s_visibility_timeout s)) t)).

Definition sub_skip1 (e : env) (sid : string) (ttl : Duration) (mr : Z) (t t' : topicTables) : Prop :=
  exists k s m, next_sub_pending e sid ttl t = None /\
    next_sub_timed_out e sid ttl t = Some (k, s, m) /\
  ((mr < s_retry_count s + 1 /\
    exists j, tt_dlq t !! e_gen e j 0%nat = None /\
      t' = dead_letter_sub (e_now e) (e_gen e j 0%nat) k s m errReasonVisibilityTimeout
             (s_retry_count s + 1) t) \/
   (s_retry_count s + 1 <= mr /\ backoffConfigured cfg = true /\
    exists delay, retry_delay_ok (backoffPolicy cfg) (s_retry_count s + 1) 0 delay /\
      t' = put_sub k (pend_sub (s_retry_count s + 1) (e_now e + make_interval delay)
             (s_error_message s) s) t)).

Inductive sub_skips (e : env) (sid : string) (ttl : Duration) (mr : Z) :
    nat -> topicTables -> topicTables -> Prop :=
| sub_skips_O t : sub_skips e sid ttl mr 0 t t
| sub_skips_S n t t1 t2 : sub_skip1 e sid ttl mr t t1 -> sub_skips e sid ttl mr n t1 t2 ->
    sub_skips e sid ttl mr (Datatypes.S n) t t2.

Definition sub_delivers (e : env) (sid : string) (ttl : Duration) (mr : Z) (t : topicTables)
    (k : Z) (s : subRow) (m : topicRow) (rc : Z) : Prop :=
  (next_sub_pending e sid ttl t = Some (k, s, m) /\ rc = s_retry_count s) \/
  (next_sub_pending e sid ttl t = None /\ next_sub_timed_out e sid ttl t = Some (k, s, m) /\
   rc = s_retry_count s + 1 /\ rc <= mr /\ backoffConfigured cfg = false).

Definition sub_delivered (mr : Z) (s : subRow) (m : topicRow) (rc : Z) (claim : uuid) : Message :=
  mkMessage (s_message_id s) claim (t_payload m) (t_created_at m) MessageStatusProcessing rc mr None
    None (s_error_message s) (parseMetadataJSON (t_metadata m)) None.

Definition topic_at (d : DB) (name : string) (meta : queueMetadata) (tt : topicTables) : Prop :=
  lookup_queue QueueTypePubSub name d = Some meta /\ db_topics d !! q_TableName meta = Some tt.

Definition put_topic (meta : queueMetadata) (tt : topicTables) (d : DB) : DB :=
  set_topics (<[q_TableName meta := tt]> (db_topics d)) d.

Definition sub_miss (t : topicTables) (sid : string) (rc : Receipt) : err :=
  classifyClaimMiss ((fun x => (s_status x.2, s_claim_id x.2)) <$> find_sub t (r_MessageID rc) sid)
    (r_ClaimID rc).

End topic_spec.

(** ** Lemmas *)

Section topic_lemmas.
Context `{Server} (cfg : queueConfig).
Implicit Types (t : topicTables) (s : subRow) (m : topicRow).

Lemma elem_of_select_subs P key t k s :
  (k, s) ∈ select_subs P key t <-> tt_subs t !! k = Some s /\ P k s = true.
Proof.
  unfold select_subs. rewrite merge_sort_Permutation, list_elem_of_filter, elem_of_map_to_list.
  naive_solver.
Qed.

Lemma select_subs_nil P key t :
  select_subs P key t = [] <-> (forall k s, tt_subs t !! k = Some s -> P k s = false).
Proof.
  split.
  - intros Hn k s Hk. destruct (P k s) eqn:E; [|done].
    assert ((k, s) ∈ select_subs P key t) as Hin by by apply elem_of_select_subs.
    rewrite Hn in Hin. by apply elem_of_nil in Hin.
  - intros Hf. destruct (select_subs P key t) as [|[k s] l] eqn:E; [done|].
    assert ((k, s) ∈ select_subs P key t) as [Hk HP]%elem_of_select_subs by (rewrite E; left).
    specialize (Hf k s Hk). congruence.
Qed.

Lemma join_message_head P key t k s m :
  join_message t (head (select_subs P key t)) = Some (k, s, m) ->
  tt_subs t !! k = Some s /\ tt_msgs t !! s_message_id s = Some m /\ P k s = true.
Proof.
  destruct (head (select_subs P key t)) as [[k0 s0]|] eqn:Hh; [|done]. cbn.
  destruct (tt_msgs t !! s_message_id s0) as [m0|] eqn:Hm; cbn; [|done]. intros [= <- <- <-].
  apply head_Some_elem_of, elem_of_select_subs in Hh as [? ?]. done.
Qed.

Lemma reclaimable_sub sid ttl e t k s :
  topic_reclaimable sid ttl e t k s = true ->
  s_status s = MessageStatusProcessing /\ s_subscriber_id s = sid.
Proof. unfold topic_reclaimable. rewrite !andb_true_iff, !bool_decide_eq_true. tauto. Qed.

Lemma pending_sub sid ttl e t k s :
  topic_pending sid ttl e t k s = true ->
  s_status s = MessageStatusPending /\ s_subscriber_id s = sid.
Proof. unfold topic_pending. rewrite !andb_true_iff, !bool_decide_eq_true. tauto. Qed.

(** The probe sees no eligible row exactly when there is none. *)
Lemma next_sub_pending_None e sid ttl t :
  next_sub_pending e sid ttl t = None <->
  forall k s, tt_subs t !! k = Some s -> topic_pending sid ttl e t k s = false.
Proof.
  rewrite <-(select_subs_nil _ s_available_at). unfold next_sub_pending.
  destruct (select_subs _ _ t) as [|[k s] l] eqn:Hsel; [done|]. cbn. split; [|done].
  assert ((k, s) ∈ select_subs (topic_pending sid ttl e t) s_available_at t) as
    [_ HP]%elem_of_select_subs by (rewrite Hsel; left).
  unfold topic_pending, joined in HP. destruct (tt_msgs t !! s_message_id s); [done|].
  rewrite andb_false_r in HP. done.
Qed.

Lemma next_sub_timed_out_None e sid ttl t :
  next_sub_timed_out e sid ttl t = None <->
  forall k s, tt_subs t !! k = Some s -> topic_reclaimable sid ttl e t k s = false.
Proof.
  rewrite <-(select_subs_nil _ (fun s => default 0 (s_visibility_timeout s))).
  unfold next_sub_timed_out.
  destruct (select_subs _ _ t) as [|[k s] l] eqn:Hsel; [done|]. cbn. split; [|done].
  assert ((k, s) ∈ select_subs (topic_reclaimable sid ttl e t)
    (fun s => default 0 (s_visibility_timeout s)) t) as [_ HP]%elem_of_select_subs
    by (rewrite Hsel; left).
  unfold topic_reclaimable, joined in HP. destruct (tt_msgs t !! s_message_id s); [done|].
  rewrite andb_false_r in HP. done.
Qed.

Lemma find_sub_intro t k s :
  topic_keys t -> tt_subs t !! k = Some s ->
  find_sub t (s_message_id s) (s_subscriber_id s) = Some (k, s).
Proof.
  intros [_ Huq] Hk. destruct (find_sub t _ _) as [[k' s']|] eqn:Hf.
  - apply find_sub_Some in Hf as (Hk' & ? & ?). assert (k' = k) as -> by by eapply Huq.
    congruence.
  - rewrite find_sub_None in Hf. exfalso. by apply (Hf k s Hk).
Qed.

(** *** Keys and well-formedness are kept *)

Lemma put_sub_keys k s s' t :
  topic_keys t -> tt_subs t !! k = Some s -> s_message_id s' = s_message_id s ->
  s_subscriber_id s' = s_subscriber_id s -> topic_keys (put_sub k s' t).
Proof.
  intros [Hfk Huq] Hk H1 H2. split; cbn.
  - intros i r. rewrite lookup_insert_Some. intros [[<- <-]|[_ ?]]; [|eauto].
    rewrite H1. by eapply Hfk.
  - intros i j r r'. rewrite !lookup_insert_Some.
    intros [[<- <-]|[? ?]] [[<- <-]|[? ?]] E1 E2; [done|..|by eapply Huq].
    + eapply Huq; [exact Hk|done|congruence..].
    + symmetry. eapply Huq; [exact Hk|done|congruence..].
Qed.

Lemma put_sub_inv mr k s s' t :
  topic_inv mr t -> tt_subs t !! k = Some s -> s_message_id s' = s_message_id s ->
  s_subscriber_id s' = s_subscriber_id s -> sub_wf mr s' -> topic_inv mr (put_sub k s' t).
Proof.
  intros (Hk & Hs & Hd) Hks H1 H2 Hw. split_and!; [by eapply put_sub_keys| |done].
  intros i r. cbn. rewrite lookup_insert_Some. intros [[_ <-]|[_ ?]]; eauto.
Qed.

Lemma dead_letter_sub_inv mr now j k s m reason rc t :
  topic_inv mr t -> 0 <= rc -> text_ok (truncateErrorMsg reason) = true ->
  topic_inv mr (dead_letter_sub now j k s m reason rc t).
Proof.
  intros ([Hfk Huq] & Hs & Hd) Hrc Ht. split_and!; cbn.
  - split; cbn.
    + intros i r. rewrite lookup_delete_Some. intros [_ ?]. eauto.
    + intros i i' r r'. rewrite !lookup_delete_Some. intros [_ ?] [_ ?]. eauto.
  - intros i r. rewrite lookup_delete_Some. intros [_ ?]. eauto.
  - intros i d. rewrite lookup_insert_Some. intros [[_ <-]|[_ ?]]; [|eauto].
    split_and!; cbn; [done..|apply truncateErrorMsg_length].
Qed.

Lemma topic_conserves_refl t : topic_conserves t t.
Proof. split_and!; [done..|]. intros k s Hk. left. by exists s. Qed.

Lemma topic_conserves_trans t1 t2 t3 :
  topic_conserves t1 t2 -> topic_conserves t2 t3 -> topic_conserves t1 t3.
Proof.
  intros (Hm & Hd & Hs) (Hm' & Hd' & Hs'). split_and!; [congruence|by etrans|].
  intros k s Hk. destruct (Hs k s Hk) as [(s' & Hk' & H1 & H2)|(j & d & m & Hj & ?)].
  - destruct (Hs' k s' Hk') as [(s'' & Hk'' & ? & ?)|(j & d & m & Hj & Hmm & ?)].
    + left. exists s''. split_and!; congruence.
    + right. exists j, d, m. rewrite Hm, H1, H2 in *. done.
  - right. exists j, d, m. split; [by eapply lookup_weaken|done].
Qed.

Lemma put_sub_conserves k s s' t :
  tt_subs t !! k = Some s -> s_message_id s' = s_message_id s ->
  s_subscriber_id s' = s_subscriber_id s -> topic_conserves t (put_sub k s' t).
Proof.
  intros Hk H1 H2. split_and!; [done..|]. intros i r Hi. left.
  destruct (decide (i = k)) as [->|].
  - exists s'. cbn. rewrite lookup_insert_eq. rewrite Hk in Hi. injection Hi as <-. done.
  - exists r. cbn. by rewrite lookup_insert_ne.
Qed.

Lemma dead_letter_sub_conserves now j k s m reason rc t :
  tt_subs t !! k = Some s -> tt_msgs t !! s_message_id s = Some m -> tt_dlq t !! j = None ->
  topic_conserves t (dead_letter_sub now j k s m reason rc t).
Proof.
  intros Hk Hm Hj. split_and!; [done|by apply insert_subseteq|]. intros i r Hi.
  destruct (decide (i = k)) as [->|].
  - right. rewrite Hk in Hi. injection Hi as <-. eexists j, _, m. cbn. rewrite lookup_insert_eq. done.
  - left. exists r. cbn. by rewrite lookup_delete_ne.
Qed.

Lemma dlq_gen_fresh_mono e n n' t : (n <= n')%nat -> dlq_gen_fresh e n t -> dlq_gen_fresh e n' t.
Proof. intros Hn [Hf Hi]. split; [|done]. intros k i Hm. apply Hf. lia. Qed.

Lemma dlq_gen_fresh_dead_letter e n i now k s m reason rc t :
  dlq_gen_fresh e n t ->
  dlq_gen_fresh e (Datatypes.S n) (dead_letter_sub now (e_gen e n i) k s m reason rc t).
Proof.
  intros [Hf Hi]. split; [|done]. intros p q Hm. cbn. rewrite lookup_insert_ne.
  - apply Hf. lia.
  - intros [-> _]%Hi. lia.
Qed.

(** *** Transaction bodies *)

Lemma wp_moveSubToDLQ e n t k s m msg (Q : unit -> nat -> option topicTables -> Prop) E :
  (forall d, faulty e -> E (ErrDriver d)) ->
  (text_ok (truncateErrorMsg msg) = false -> E (ErrDriver untranslatable)) ->
  topic_keys t -> tt_subs t !! k = Some s -> 0 <= s_retry_count s < int64_max ->
  dlq_gen_fresh e n t ->
  (text_ok (truncateErrorMsg msg) = true -> Q tt (S (S n)) (Some (dead_letter_sub (e_now e)
     (e_gen e n 0%nat) k s m msg (s_retry_count s + 1) t))) ->
  wp e n (Some t) (moveSubToDLQ (s_message_id s) (s_subscriber_id s) msg
    (mkSubState (s_retry_count s) (t_payload m) (t_metadata m))) Q E.
Proof.
  intros HF HT Hkeys Hk Hrc [Hfr _] HQ. unfold moveSubToDLQ. do 2 wp_step.
  cbn [ss_retryCount ss_payload ss_metadata]. rewrite (wrap64_succ _ Hrc).
  destruct (text_ok (truncateErrorMsg msg)) eqn:Ht; cbn [negb]; [|by apply HT].
  rewrite retry_check_pos, Hfr by lia. wp_step.
  match goal with |- context [find_sub ?t' _ _] =>
    change (find_sub t' (s_message_id s) (s_subscriber_id s))
      with (find_sub t (s_message_id s) (s_subscriber_id s)) end.
  rewrite (find_sub_intro t k s Hkeys Hk). by apply HQ.
Qed.

Lemma wp_claimTopicSubscription e n t vt k s m rc mr
    (Q : option (Message * timestamp) -> nat -> option topicTables -> Prop) E :
  (forall d, faulty e -> E (ErrDriver d)) ->
  tt_subs t !! k = Some s -> 0 <= rc ->
  (let deadline := e_now e + make_interval vt in
   Q (Some (sub_delivered mr s m rc (e_gen e n 0%nat), deadline)) (S n)
     (Some (put_sub k (claim_sub rc (e_gen e n 0%nat) deadline s) t))) ->
  wp e n (Some t) (claimTopicSubscription vt (k, s, m) rc mr) Q E.
Proof.
  intros HF Hk Hrc HQ. unfold claimTopicSubscription. do 2 wp_step.
  rewrite Hk, (retry_check_pos rc Hrc). by wp_step.
Qed.

Lemma wp_deferReclaimedSub e n t k s rc delay (Q : unit -> nat -> option topicTables -> Prop) E :
  (forall d, faulty e -> E (ErrDriver d)) ->
  tt_subs t !! k = Some s -> 0 <= rc ->
  Q tt (S n) (Some (put_sub k (pend_sub rc (e_now e + make_interval delay) (s_error_message s) s) t)) ->
  wp e n (Some t) (deferReclaimedSubscription k rc delay) Q E.
Proof.
  intros HF Hk Hrc HQ. unfold deferReclaimedSubscription. wp_step.
  by rewrite Hk, (retry_check_pos rc Hrc).
Qed.

Lemma sub_skip1_ok e sid ttl mr t t' :
  topic_inv mr t -> sub_skip1 cfg e sid ttl mr t t' -> topic_inv mr t' /\ topic_conserves t t'.
Proof.
  intros Hi (k & s & m & _ & (Hk & Hm & _)%join_message_head & Hcase).
  pose proof (proj1 (proj2 Hi) k s Hk) as (_ & ? & ?).
  destruct Hcase as [(Hl & j & Hj & ->)|(Hl & _ & delay & Hd & ->)].
  - split; [|by apply dead_letter_sub_conserves].
    apply dead_letter_sub_inv; [done|lia|apply errReasonVisibilityTimeout_ok].
  - split; [|by eapply put_sub_conserves]. eapply put_sub_inv; [done..|].
    split; [by split|]. cbn. lia.
Qed.

Lemma sub_skips_ok e sid ttl mr n t t' :
  sub_skips cfg e sid ttl mr n t t' -> topic_inv mr t -> topic_inv mr t' /\ topic_conserves t t'.
Proof.
  induction 1 as [t|n t t1 t2 Hs _ IH]; intros Hi; [split; [done|apply topic_conserves_refl]|].
  destruct (sub_skip1_ok _ _ _ _ _ _ Hi Hs) as [Hi1 Hc1]. destruct (IH Hi1) as [? ?].
  split; [done|]. by eapply topic_conserves_trans.
Qed.

Lemma wp_fetchTopicLoop e left sid vt ttl mr n t
    (Q : option (Message * timestamp) -> nat -> option topicTables -> Prop) E :
  (forall d, faulty e -> E (ErrDriver d)) ->
  topic_inv mr t -> dlq_gen_fresh e n t ->
  (forall k n' t1, (k <= left)%nat -> sub_skips cfg e sid ttl mr k t t1 ->
     (k = left \/
      (next_sub_pending e sid ttl t1 = None /\ next_sub_timed_out e sid ttl t1 = None)) ->
     Q None n' (Some t1)) ->
  (forall k n' t1 i s m rc, (k < left)%nat -> sub_skips cfg e sid ttl mr k t t1 -> (n <= n')%nat ->
     sub_delivers cfg e sid ttl mr t1 i s m rc -> tt_subs t1 !! i = Some s ->
     let deadline := e_now e + make_interval vt in
     Q (Some (sub_delivered mr s m rc (e_gen e n' 0%nat), deadline)) (S n')
       (Some (put_sub i (claim_sub rc (e_gen e n' 0%nat) deadline s) t1))) ->
  wp e n (Some t) (fetchTopicLoop cfg left sid vt ttl mr) Q E.
Proof.
  intros HF. revert n t. induction left as [|left IH]; intros n t Hi Hfr HN HS.
  { cbn [fetchTopicLoop]. wp_step. eapply (HN 0%nat); [lia|constructor|by left]. }
  cbn [fetchTopicLoop]. wp_step. apply wp_query; [done|]. fold (next_sub_pending e sid ttl t).
  destruct (next_sub_pending e sid ttl t) as [[[k s] m]|] eqn:Hp.
  { pose proof Hp as (Hk & _)%join_message_head.
    pose proof (proj1 (proj2 Hi) k s Hk) as (_ & ? & _).
    apply wp_claimTopicSubscription; [done..|cbn; lia|].
    apply (HS 0%nat); [lia|constructor|lia| |done]. by left. }
  wp_step. apply wp_query; [done|]. fold (next_sub_timed_out e sid ttl t).
  destruct (next_sub_timed_out e sid ttl t) as [[[k s] m]|] eqn:Ht.
  2: { wp_step. eapply (HN 0%nat); [lia|constructor|by right]. }
  pose proof Ht as (Hk & Hm & [Hst Hsid]%reclaimable_sub)%join_message_head.
  pose proof (proj1 (proj2 Hi) k s Hk) as (_ & Hrc & Hmr).
  wp_step. unfold reclaimTopicAttempt. rewrite Hst. rewrite wrap64_succ by lia.
  destruct (Z.ltb_spec mr (s_retry_count s + 1)) as [Hl|Hl].
  - wp_step. rewrite <-Hsid.
    apply (wp_moveSubToDLQ _ _ _ k); [done|by rewrite errReasonVisibilityTimeout_ok|apply Hi|done|lia| |].
    { eapply dlq_gen_fresh_mono; [|done]. lia. }
    intros _. wp_step. set (t1 := dead_letter_sub _ _ _ _ _ _ _ _).
    assert (sub_skip1 cfg e sid ttl mr t t1) as Hsk.
    { exists k, s, m. split_and!; [done..|]. left. split; [done|]. eexists. split; [|reflexivity].
      apply Hfr. lia. }
    rewrite Hsid. apply IH.
    + by eapply sub_skip1_ok.
    + apply dlq_gen_fresh_mono with (S (S (S n))); [lia|]. apply dlq_gen_fresh_dead_letter.
      eapply dlq_gen_fresh_mono; [|done]. lia.
    + intros i n' t2 Hik Hks Hend. apply (HN (S i)); [lia|by econstructor|].
      destruct Hend as [->|]; auto.
    + intros i n' t2 k' s' m' rc' Hik Hks Hn. apply (HS (S i)); [lia|by econstructor|lia].
  - destruct (backoffConfigured cfg) eqn:Hb.
    + wp_step. apply wp_computeRetryDelay. intros delay n' Hn' Hd.
      wp_step. apply (wp_deferReclaimedSub _ _ _ _ s); [done..|lia|]. wp_step.
      set (t1 := put_sub _ _ _). assert (sub_skip1 cfg e sid ttl mr t t1) as Hsk.
      { exists k, s, m. split_and!; [done..|]. right. split_and!; [lia|done|]. by exists delay. }
      apply IH.
      * by eapply sub_skip1_ok.
      * eapply dlq_gen_fresh_mono; [|exact Hfr]. lia.
      * intros i n2 t2 Hik Hks Hend. apply (HN (S i)); [lia|by econstructor|].
        destruct Hend as [->|]; auto.
      * intros i n2 t2 k' s' m' rc' Hik Hks Hn. apply (HS (S i)); [lia|by econstructor|lia].
    + wp_step. apply wp_claimTopicSubscription; [done..|lia|].
      apply (HS 0%nat); [lia|constructor|lia| |done]. right. split_and!; done.
Qed.

(** *** Acknowledging, extending, nacking *)

Lemma owned_sub_Some t sid rc k s :
  owned_sub t sid rc = Some (k, s) ->
  tt_subs t !! k = Some s /\ s_message_id s = r_MessageID rc /\ s_subscriber_id s = sid /\
  s_claim_id s = Some (r_ClaimID rc) /\ s_status s = MessageStatusProcessing.
Proof.
  unfold owned_sub, sub_owns. destruct (find_sub t _ _) as [[k' s']|] eqn:Hf; [|done].
  case_match eqn:Hb; [|done]. intros [= <- <-]. apply find_sub_Some in Hf as (? & ? & ?).
  apply andb_true_iff in Hb as [?%bool_decide_eq_true_1 ?%bool_decide_eq_true_1]. done.
Qed.

Lemma wp_classifyTopicAckMiss {A} e n t sid rc (Q : A -> nat -> option topicTables -> Prop) E :
  (forall d, faulty e -> E (ErrDriver d)) -> E (sub_miss t sid rc) ->
  wp e n (Some t) (classifyTopicAckMiss sid rc) Q E.
Proof. intros HF HE. unfold classifyTopicAckMiss. do 2 wp_step. by wp_step. Qed.

Lemma wp_update_claimed_sub e n t sid rc f (Q : unit -> nat -> option topicTables -> Prop) E :
  (forall d, faulty e -> E (ErrDriver d)) ->
  match owned_sub t sid rc with
  | Some (k, s) => Q tt (S n) (Some (put_sub k (f e s) t))
  | None => E (sub_miss t sid rc)
  end ->
  wp e n (Some t) (update_claimed_sub sid rc f) Q E.
Proof.
  intros HF HQ. unfold update_claimed_sub. do 2 wp_step.
  destruct (owned_sub t sid rc) as [[k s]|]; cbn; [by wp_step|].
  by apply wp_classifyTopicAckMiss.
Qed.

Lemma wp_nack_sub_tx e n t sid rc msg override mr
    (Q : unit -> nat -> option topicTables -> Prop) E :
  (forall d, faulty e -> E (ErrDriver d)) ->
  (text_ok (truncateErrorMsg msg) = false -> E (ErrDriver untranslatable)) ->
  topic_inv mr t -> dlq_gen_fresh e n t ->
  match owned_sub t sid rc with
  | None => E (sub_miss t sid rc)
  | Some (k, s) =>
      text_ok (truncateErrorMsg msg) = true ->
      if mr <? s_retry_count s + 1 then
        forall m, tt_msgs t !! s_message_id s = Some m ->
        Q tt (S (S (S n))) (Some (dead_letter_sub (e_now e) (e_gen e (S n) 0%nat) k s m msg
          (s_retry_count s + 1) t))
      else
        forall delay n', retry_delay_ok (backoffPolicy cfg) (s_retry_count s + 1) override delay ->
          Q tt n' (Some (put_sub k (pend_sub (s_retry_count s + 1) (e_now e + make_interval delay)
               (Some (truncateErrorMsg msg)) s) t))
  end ->
  wp e n (Some t) (nack_sub_tx cfg sid rc (truncateErrorMsg msg) override mr) Q E.
Proof.
  intros HF HT Hi Hfr HQ. unfold nack_sub_tx, getProcessingSubState. do 3 wp_step.
  destruct (owned_sub t sid rc) as [[k s]|] eqn:Ho; cbn [join_message].
  2: { by apply wp_classifyTopicAckMiss. }
  pose proof Ho as (Hk & Hmid & Hsid & _)%owned_sub_Some. destruct Hi as (Hkeys & Hs & Hd).
  destruct (proj1 Hkeys k s Hk) as [m Hm]. rewrite Hm. cbn [fmap option_fmap option_map].
  wp_step. destruct (Hs k s Hk) as (_ & Hrc & Hmr). cbn [ss_retryCount].
  rewrite wrap64_succ by lia.
  destruct (Z.ltb_spec mr (s_retry_count s + 1)) as [Hx|Hx].
  - assert (truncateErrorMsg (truncateErrorMsg msg) = truncateErrorMsg msg) as Hid2
      by (apply truncateErrorMsg_id; [apply truncateErrorMsg_valid|apply truncateErrorMsg_length]).
    rewrite <-Hmid, <-Hsid.
    apply (wp_moveSubToDLQ _ _ _ k s m); rewrite ?Hid2; [done|done|done|done|lia| |].
    + eapply dlq_gen_fresh_mono; [|done]. lia.
    + intros Ht. unfold dead_letter_sub in *. rewrite Hid2. by apply HQ.
  - wp_step. apply wp_computeRetryDelay. intros delay n' Hn Hd'.
    unfold retrySubscription. wp_step.
    destruct (text_ok (truncateErrorMsg msg)) eqn:Ht; cbn [negb]; [|by apply HT].
    rewrite <-Hmid, <-Hsid, (find_sub_intro t k s Hkeys Hk).
    rewrite (proj2 (Z.ltb_ge _ _)) by lia. by apply HQ.
Qed.

(** Running a transaction body on the tables of an existing topic. *)
Lemma iwp_withTx_topic {A} o w w0 name meta tt (body : tx topicTables A)
    (Q : A -> world -> Prop) E :
  frame w0 w -> topic_at (w_db w0) name meta tt ->
  (forall x w', io_fault o x -> E x w') ->
  wp (o (w_tick w)) 0 (Some tt) body
    (fun a _ o => match o with
                  | Some tt' => forall w', w_db w' = put_topic meta tt' (w_db w0) ->
                      ran w0 w' (w_tick w) -> Q a w'
                  | None => forall w', w_db w' = w_db w0 -> E (ErrDriver failed_tx) w'
                  end)
    (fun x => forall w', w_db w' = w_db w0 -> E x w') ->
  iwp o w (withTx (on_topic (q_TableName meta) body)) Q E.
Proof.
  intros (Hdb & _ & _ & Hti) (_ & Htt) HF Hm. apply iwp_withTx.
  { intros d Hf w'. apply HF. by exists (w_tick w), d. }
  rewrite Hdb. eapply on_topic_wp; [exact Htt|]. eapply wp_mono; [exact Hm| |].
  - intros a n' [tt'|] H'; cbn; apply H'; [done| |done]. unfold ran. cbn. lia.
  - intros x H'. by apply H'.
Qed.

(** The metadata of an existing topic, on a working server. *)
Lemma iwp_topic_meta o w name meta tt (Q : queueMetadata -> world -> Prop) E :
  reliable o -> topic_at (w_db w) name meta tt ->
  (forall w', frame w w' -> Q meta w') ->
  iwp o w (map_err (not_found_as ErrTopicNotFound) (getQueueMetadata QueueTypePubSub name)) Q E.
Proof.
  intros Hrel [Hl _] HQ. iwp_step. apply iwp_getQueueMetadata.
  - intros meta' w' Hl'. rewrite Hl in Hl'. injection Hl' as <-. apply HQ.
  - congruence.
  - intros x w' Hx. by apply reliable_no_fault in Hx.
Qed.

(** What a topic nack does to the tables of its topic. *)
Lemma iwp_nackTopicImpl o w name sid meta tt rc msg override :
  let mr := resolveMaxRetries cfg meta in
  reliable o -> topic_at (w_db w) name meta tt -> validateSubscriberID sid = Ok Datatypes.tt ->
  topic_inv mr tt -> (forall i, dlq_gen_fresh (o i) 0 tt) -> text_ok (truncateErrorMsg msg) = true ->
  iwp o w (nackTopicImpl cfg name sid rc msg override)
    (fun _ w' => exists i k s tt', ran w w' i /\ owned_sub tt sid rc = Some (k, s) /\
      w_db w' = put_topic meta tt' (w_db w) /\
      if mr <? s_retry_count s + 1 then
        exists j m, tt_dlq tt !! j = None /\ tt_msgs tt !! s_message_id s = Some m /\
          tt' = dead_letter_sub (e_now (o i)) j k s m msg (s_retry_count s + 1) tt
      else exists delay, retry_delay_ok (backoffPolicy cfg) (s_retry_count s + 1) override delay /\
          tt' = put_sub k (pend_sub (s_retry_count s + 1) (e_now (o i) + make_interval delay)
                  (Some (truncateErrorMsg msg)) s) tt)
    (fun x w' => owned_sub tt sid rc = None /\ x = sub_miss tt sid rc /\ w_db w' = w_db w).
Proof.
  intros mr Hrel Hat Hsid Hinv Hfr Htext.
  assert (forall x, ~ io_fault o x) as Hnf by (intros x; by apply reliable_no_fault).
  unfold nackTopicImpl. do 2 iwp_step. rewrite Hsid. iwp_step. eapply iwp_topic_meta; [done..|].
  intros w1 Hf1. eapply iwp_withTx_topic; [done..|by intros x w' Hx%Hnf|].
  apply wp_nack_sub_tx; [intros d Hf; exfalso; by apply (Hrel (w_tick w1))|congruence|done|apply Hfr|].
  destruct (owned_sub tt sid rc) as [[k s]|]; [|done]. intros _.
  destruct (resolveMaxRetries cfg meta <? s_retry_count s + 1) eqn:Hlim.
  - intros m Hm w' Hw Hi. eexists (w_tick w1), k, s, _. fold mr. fold mr in Hlim. rewrite Hlim.
    split_and!; [done..|]. eexists _, m. split_and!; [apply Hfr; lia|done|done].
  - intros delay n' Hd w' Hw Hi. eexists (w_tick w1), k, s, _. fold mr. fold mr in Hlim. rewrite Hlim.
    split_and!; [done..|]. by exists delay.
Qed.

End topic_lemmas.

(** ** A concrete topic, for the witnesses *)

(** Alice's copy of message 5 is being processed under claim 77; Bob's is pending. *)
Definition sample_sub_alice : subRow :=
  mkSubRow 5 "alice" MessageStatusProcessing 0 None (Some (10 ^ 15)) 0 (Some 77) 0 None.
Definition sample_sub_bob : subRow :=
  mkSubRow 5 "bob" MessageStatusPending 0 None None 0 None 0 None.
Definition sample_topic_tables : topicTables :=
  mkTopicTables {[5 := mkTopicRow [Byte.x61] 0 None]}
    (<[101 := sample_sub_alice]> {[102 := sample_sub_bob]}) ∅.
Definition sample_topic_meta : queueMetadata :=
  mkQueueMetadata 1 QueueTypePubSub "news" "news" ConfigEmpty false 0 0.
Definition sample_topic_world : world :=
  new_world (set_topics {["news"%string := sample_topic_tables]}
    (set_metadata {[1 := sample_topic_meta]} empty_DB)).
Definition alice_receipt : Receipt := mkReceipt 5 77 "news" QueueTypePubSub "alice".

Lemma sample_topic_inv : topic_inv 3 sample_topic_tables.
Proof.
  assert (3 < int64_max) by (unfold int64_max; lia).
  assert (forall k s, tt_subs sample_topic_tables !! k = Some s ->
    (k = 101 /\ s = sample_sub_alice) \/ (k = 102 /\ s = sample_sub_bob)) as Hsubs.
  { intros k s. cbn. rewrite lookup_insert_Some, lookup_singleton_Some. naive_solver. }
  split_and!.
  - split.
    + intros k s [[-> ->]|[-> ->]]%Hsubs; by eexists.
    + intros k k' s s' [[-> ->]|[-> ->]]%Hsubs [[-> ->]|[-> ->]]%Hsubs; done.
  - intros k s [[-> ->]|[-> ->]]%Hsubs; (split; [split; first [done|by eexists]|cbn; lia]).
  - intros k d Hk. cbn in Hk. by rewrite lookup_empty in Hk.
Qed.

Lemma sample_topic_at : topic_at (w_db sample_topic_world) "news" sample_topic_meta sample_topic_tables.
Proof. split; reflexivity. Qed.

Lemma calm_dlq_fresh now base n t : tt_dlq t = ∅ -> dlq_gen_fresh (calm_env now base) n t.
Proof.
  intros Hd. split; [intros m i _; by rewrite Hd, lookup_empty|].
  intros m m' i i'. apply calm_gen_inj.
Qed.

(** ** Properties *)

(** C10: on a working server consuming from a topic always returns and refines the
    delivery rule per subscriber: at most 64 of the subscriber's timed-out copies
    are skipped (dead-lettered when exhausted, else deferred), then exactly one of
    its copies is claimed under a fresh claim and handed out with the shared
    message's payload, or none when nothing of the subscriber's is deliverable;
    messages, dead letters and the other subscribers' copies are kept. *)
Theorem consumeFromTopic_refines `{Server} (cfg : queueConfig) (o : oracle) (w : world)
    (name sid : string) (vt : Duration) (meta : queueMetadata) (tt : topicTables) :
  let mr := resolveMaxRetries cfg meta in
  let ttl := getQueueTTL cfg (q_Config meta) in
  reliable o -> w_closed w = false -> validateVisibilityTimeout vt = Ok Datatypes.tt ->
  validateSubscriberID sid = Ok Datatypes.tt ->
  topic_at (w_db w) name meta tt -> q_Paused meta = false ->
  topic_inv mr tt -> (forall m, dlq_gen_fresh (o m) 0 tt) ->
  exists res w' i k t1,
    consumeFromTopic cfg name sid vt o w = (Ok res, w') /\ ran w w' i /\
    sub_skips cfg (o i) sid ttl mr k tt t1 /\ topic_conserves tt t1 /\
    (k <= maxConsumeReclaimDefers)%nat /\
    match res with
    | None =>
        w_db w' = put_topic meta t1 (w_db w) /\
        (k = maxConsumeReclaimDefers \/
         forall j s, tt_subs t1 !! j = Some s ->
           topic_pending sid ttl (o i) t1 j s = false /\
           topic_reclaimable sid ttl (o i) t1 j s = false)
    | Some msg =>
        exists j s m rc n, sub_delivers cfg (o i) sid ttl mr t1 j s m rc /\
          s_subscriber_id s = sid /\
          let claim := e_gen (o i) n 0%nat in
          let deadline := e_now (o i) + make_interval vt in
          msg = set_visibility (Some deadline) (sub_delivered mr s m rc claim) /\
          w_db w' = put_topic meta (put_sub j (claim_sub rc claim deadline s) t1) (w_db w)
    end.
Proof.
  intros mr ttl Hrel Hcl Hvt Hsid Hat Hpa Hinv Hfr.
  assert (forall x, ~ io_fault o x) as Hnf by (intros x; by apply reliable_no_fault).
  assert (iwp o w (consumeFromTopic cfg name sid vt) (fun res w' => exists i k t1,
    ran w w' i /\
    sub_skips cfg (o i) sid ttl mr k tt t1 /\ (k <= maxConsumeReclaimDefers)%nat /\
    match res with
    | None => w_db w' = put_topic meta t1 (w_db w) /\ (k = maxConsumeReclaimDefers \/
         (next_sub_pending (o i) sid ttl t1 = None /\ next_sub_timed_out (o i) sid ttl t1 = None))
    | Some msg => exists j s m rc n, sub_delivers cfg (o i) sid ttl mr t1 j s m rc /\
          let claim := e_gen (o i) n 0%nat in
          let deadline := e_now (o i) + make_interval vt in
          msg = set_visibility (Some deadline) (sub_delivered mr s m rc claim) /\
          w_db w' = put_topic meta (put_sub j (claim_sub rc claim deadline s) t1) (w_db w)
    end) (fun _ _ => False)) as Hi.
  { unfold consumeFromTopic, consumeTopicPreflight. do 2 iwp_step.
    iwp_step; [congruence|intros _]. do 2 iwp_step. rewrite Hvt. iwp_step. rewrite Hsid.
    iwp_step. eapply iwp_topic_meta; [done..|]. intros w1 Hf1. rewrite Hpa. iwp_step.
    eapply iwp_withTx_topic; [done..|by intros x w' Hx%Hnf|].
    unfold fetchPendingTopicMessage.
    apply wp_fetchTopicLoop; [intros d Hf; exfalso; by apply (Hrel (w_tick w1))|done|apply Hfr|..].
    - intros k n' t1 Hk Hs Hend w' Hw' Hi. iwp_step. by exists (w_tick w1), k, t1.
    - intros k n' t1 j s m rc Hk Hs Hn Hd Hj deadline w' Hw' Hi. iwp_step.
      exists (w_tick w1), k, t1. refine (conj Hi (conj Hs (conj _ _))); [lia|]. cbn. by eexists j, s, m, rc, _. }
  unfold iwp in Hi. destruct (consumeFromTopic cfg name sid vt o w) as [[res|x] w'] eqn:Heq; [|done].
  destruct Hi as (i & k & t1 & Hi & Hs & Hk & Hres). exists res, w', i, k, t1.
  destruct (sub_skips_ok cfg _ _ _ _ _ _ _ Hs Hinv) as [_ Hc].
  refine (conj eq_refl (conj Hi (conj Hs (conj Hc (conj Hk _))))).
  destruct res as [msg|].
  - destruct Hres as (j & s & m & rc & n & Hd & Hm & Hw). exists j, s, m, rc, n.
    split_and!; [done| |done..].
    destruct Hd as [[(_ & _ & Hp)%join_message_head _]|(_ & (_ & _ & Hp)%join_message_head & _)].
    + by apply pending_sub in Hp as [_ ?].
    + by apply reclaimable_sub in Hp as [_ ?].
  - destruct Hres as [Hw [->|[Hp Ht]]]; (split; [done|]); [by left|right].
    rewrite next_sub_pending_None in Hp. rewrite next_sub_timed_out_None in Ht. eauto.
Qed.

Lemma consumeFromTopic_refines_witness :
  exists res w', consumeFromTopic (H := truncating_server) sample_cfg "news" "bob" (30 * second)
      calm_oracle sample_topic_world = (Ok res, w') /\ m_ID <$> res = Some 5.
Proof.
  destruct (consumeFromTopic_refines (H := truncating_server) sample_cfg calm_oracle
    sample_topic_world "news" "bob" (30 * second) sample_topic_meta sample_topic_tables)
    as (res & w' & i & k & t1 & Heq & _).
  - apply calm_oracle_reliable.
  - reflexivity.
  - reflexivity.
  - reflexivity.
  - exact sample_topic_at.
  - reflexivity.
  - exact sample_topic_inv.
  - intros m. by apply calm_dlq_fresh.
  - exists res, w'. split; [exact Heq|].
    assert (match (consumeFromTopic (H := truncating_server) sample_cfg "news" "bob" (30 * second)
      calm_oracle sample_topic_world).1 with Ok (Some m) => m_ID m | _ => 0 end = 5) as Hc
      by (vm_compute; reflexivity).
    rewrite Heq in Hc. destruct res as [msg|]; cbn in *; [by rewrite Hc|discriminate Hc].
Defined.

(** A topic ack succeeds exactly when the receipt's claim owns the subscriber's
    copy in 'processing'; then only that copy changes, to acked, and every other
    subscriber's copy of the same message stays as it is.  Otherwise nothing
    changes and the error is the classification of the copy. *)
Theorem ackTopic_exact (o : oracle) (w : world) (name sid : string) (meta : queueMetadata)
    (tt : topicTables) (rc : Receipt) :
  reliable o -> topic_at (w_db w) name meta tt -> validateSubscriberID sid = Ok Datatypes.tt ->
  exists res w', ackTopic name sid rc o w = (res, w') /\
    match owned_sub tt sid rc with
    | Some (k, s) => res = Ok Datatypes.tt /\ exists i, ran w w' i /\
        let tt' := put_sub k (ack_sub (e_now (o i)) s) tt in
        w_db w' = put_topic meta tt' (w_db w) /\
        forall k' s', s_subscriber_id s' <> sid ->
          (tt_subs tt' !! k' = Some s' <-> tt_subs tt !! k' = Some s')
    | None => res = Err (sub_miss tt sid rc) /\ w_db w' = w_db w
    end.
Proof.
  intros Hrel Hat Hsid.
  assert (forall x, ~ io_fault o x) as Hnf by (intros x; by apply reliable_no_fault).
  assert (iwp o w (ackTopic name sid rc)
    (fun _ w' => exists i k s, ran w w' i /\ owned_sub tt sid rc = Some (k, s) /\
       w_db w' = put_topic meta (put_sub k (ack_sub (e_now (o i)) s) tt) (w_db w))
    (fun x w' => owned_sub tt sid rc = None /\ x = sub_miss tt sid rc /\ w_db w' = w_db w)) as Hi.
  { unfold ackTopic. do 2 iwp_step. rewrite Hsid. iwp_step. eapply iwp_topic_meta; [done..|].
    intros w1 Hf1. eapply iwp_withTx_topic; [done..|by intros x w' Hx%Hnf|].
    apply wp_update_claimed_sub; [intros d Hf; exfalso; by apply (Hrel (w_tick w1))|].
    destruct (owned_sub tt sid rc) as [[k s]|]; [|done]. intros w' Hw Hi. by exists (w_tick w1), k, s. }
  unfold iwp in Hi. destruct (ackTopic name sid rc o w) as [[[]|x] w'].
  2: { destruct Hi as (-> & -> & ?). eauto. }
  destruct Hi as (i & k & s & Hi & Ho & Hw). eexists _, _. split; [done|]. rewrite Ho.
  split; [done|]. exists i. split; [done|]. cbn zeta. split; [done|]. intros k' s' Hne. cbn.
  apply owned_sub_Some in Ho as (Hk & _ & Hs & _). destruct (decide (k' = k)) as [->|].
  - rewrite lookup_insert_eq, Hk. split; intros [= <-]; exfalso; by apply Hne.
  - by rewrite lookup_insert_ne.
Qed.

Lemma ackTopic_exact_witness :
  exists w', ackTopic "news" "alice" alice_receipt calm_oracle sample_topic_world = (Ok tt, w').
Proof.
  destruct (ackTopic_exact calm_oracle sample_topic_world "news" "alice" sample_topic_meta
    sample_topic_tables alice_receipt calm_oracle_reliable sample_topic_at eq_refl)
    as (res & w' & Heq & Hres).
  change (owned_sub sample_topic_tables "alice" alice_receipt) with (Some (101, sample_sub_alice))
    in Hres. destruct Hres as [-> _]. exists w'. exact Heq.
Defined.

(** A topic nack of an owned copy dead-letters it for its subscriber, with the
    message's payload and metadata, when its attempts are used up, and otherwise
    puts it back with the retry count raised by one and a delay within the backoff
    policy; the message itself and the other copies stay, the keys and the row
    invariant are kept, and the receipt no longer owns anything. *)
Theorem nackTopic_exact `{Server} (cfg : queueConfig) (o : oracle) (w : world) (name sid : string)
    (meta : queueMetadata) (tt : topicTables) (rc : Receipt) (msg : bytes) (override : Duration) :
  let mr := resolveMaxRetries cfg meta in
  reliable o -> topic_at (w_db w) name meta tt -> validateSubscriberID sid = Ok Datatypes.tt ->
  topic_inv mr tt -> (forall m, dlq_gen_fresh (o m) 0 tt) ->
  forallb (fun b => negb (byte_val b =? 0)) msg = true ->
  exists res w', nackTopicImpl cfg name sid rc msg override o w = (res, w') /\
    match owned_sub tt sid rc with
    | None => res = Err (sub_miss tt sid rc) /\ w_db w' = w_db w
    | Some (k, s) =>
        res = Ok Datatypes.tt /\ exists i tt', ran w w' i /\ w_db w' = put_topic meta tt' (w_db w) /\
        topic_inv mr tt' /\ topic_conserves tt tt' /\
        (forall k', k' <> k -> tt_subs tt' !! k' = tt_subs tt !! k') /\
        if mr <? s_retry_count s + 1 then
          tt_subs tt' !! k = None /\ exists j m, tt_msgs tt !! s_message_id s = Some m /\
            tt_dlq tt' = <[j := mkDlqEntry (s_message_id s) (Some sid) (t_payload m)
              (truncateErrorMsg msg) (s_retry_count s + 1) (e_now (o i)) (t_metadata m)]> (tt_dlq tt)
        else
          tt_dlq tt' = tt_dlq tt /\
          exists delay, retry_delay_ok (backoffPolicy cfg) (s_retry_count s + 1) override delay /\
            tt_subs tt' !! k = Some (pend_sub (s_retry_count s + 1)
              (e_now (o i) + make_interval delay) (Some (truncateErrorMsg msg)) s)
    end.
Proof.
  intros mr Hrel Hat Hsid Hinv Hfr Hmsg.
  pose proof (truncateErrorMsg_text_ok msg Hmsg) as Htext.
  pose proof (iwp_nackTopicImpl cfg o w name sid meta tt rc msg override Hrel Hat Hsid Hinv Hfr Htext)
    as Hi. fold mr in Hi.
  unfold iwp in Hi. destruct (nackTopicImpl cfg name sid rc msg override o w) as [[[]|x] w'].
  2: { destruct Hi as (-> & -> & ?). eauto. }
  destruct Hi as (i & k & s & tt' & Hi & Ho & Hw & Hcase). eexists _, _. split; [done|]. rewrite Ho.
  split; [done|]. exists i, tt'. apply owned_sub_Some in Ho as (Hk & _ & Hs & _).
  pose proof (proj1 (proj2 Hinv) k s Hk) as (_ & ? & ?).
  destruct (Z.ltb_spec mr (s_retry_count s + 1)) as [Hlim|Hlim].
  - destruct Hcase as (j & m & Hj & Hm & ->).
    refine (conj Hi (conj Hw (conj _ (conj _ (conj _ (conj _ _)))))).
    + apply dead_letter_sub_inv; [done|lia|done].
    + by apply dead_letter_sub_conserves.
    + intros k' Hne. cbn. by rewrite lookup_delete_ne.
    + cbn. by rewrite lookup_delete_eq.
    + exists j, m. cbn. by rewrite Hs.
  - destruct Hcase as (delay & Hd & ->).
    refine (conj Hi (conj Hw (conj _ (conj _ (conj _ (conj _ _)))))).
    + eapply put_sub_inv; [done..|]. split; [by split|]. cbn. lia.
    + by eapply put_sub_conserves.
    + intros k' Hne. cbn. by rewrite lookup_insert_ne.
    + done.
    + exists delay. cbn. by rewrite lookup_insert_eq.
Qed.

Lemma nackTopic_exact_witness :
  exists w', nackTopicImpl (H := truncating_server) sample_cfg "news" "alice" alice_receipt
    [Byte.x62] 0 calm_oracle sample_topic_world = (Ok tt, w').
Proof.
  destruct (nackTopic_exact (H := truncating_server) sample_cfg calm_oracle sample_topic_world "news"
    "alice" sample_topic_meta sample_topic_tables alice_receipt [Byte.x62] 0 calm_oracle_reliable
    sample_topic_at eq_refl sample_topic_inv ltac:(intros m; by apply calm_dlq_fresh) eq_refl)
    as (res & w' & Heq & Hres).
  change (owned_sub sample_topic_tables "alice" alice_receipt) with (Some (101, sample_sub_alice))
    in Hres. destruct Hres as [-> _]. exists w'. exact Heq.
Defined.
