(* ===== verification/Gc.v ===== *)
(** * Garbage collection ([gc.go])

    The collector's configuration, the paged statements of a collection pass, the
    promotion of exhausted deliveries to the dead-letter table and the reset of
    timed-out ones, composed as [doCollectQueue] composes them.  The counts that Go
    returns beside an error feed only a metrics hook and are not kept.  A context
    cancelled between two pages stops the loop as a failure of the next statement
    does, and is modelled as one. *)

From S2P Require Import Prelude Types Tx Utf8 World Config Queries Channel Publish PubSub.
From Stdlib Require Import ZArith Lia.
Local Open Scope Z_scope.

(** ** Configuration *)

Definition KeepForever : Duration := -1.
Definition defaultGCInterval : Duration := 5 * minute.
Definition defaultGCMaxWorkers : Z := 10.
Definition maxGCMaxWorkers : Z := 100.

Record RetentionPolicy := mkRetentionPolicy {
  CompletedMessageTTL : Duration;
  MaxPendingAge : Duration;
  DLQRetention : Duration
}.

#[export] Instance RetentionPolicy_eq_dec : EqDecision RetentionPolicy.
Proof. solve_decision. Defined.

(** [gc_Policies] is [None] for a nil map. *)
Record GarbageCollectorConfig := mkGarbageCollectorConfig {
  gc_Interval : Duration;
  gc_Policies : option (gmap string RetentionPolicy);
  gc_DefaultPolicy : RetentionPolicy;
  gc_MaxWorkers : Z
}.

Definition defaultRetentionPolicy : RetentionPolicy :=
  mkRetentionPolicy (24 * hour) 0 (30 * (24 * hour)).

Definition retention_ok (d : Duration) : bool := negb ((d <? 0) && negb (d =? KeepForever)).

Definition validateRetentionPolicy (policy : RetentionPolicy) : result unit :=
  if forallb retention_ok [CompletedMessageTTL policy; MaxPendingAge policy; DLQRetention policy]
  then Ok tt else Err ErrInvalidConfig.

Fixpoint validate_policies (policies : list (string * RetentionPolicy)) : result unit :=
  match policies with
  | [] => Ok tt
  | (_, p) :: policies => _ ← validateRetentionPolicy p; validate_policies policies
  end.

Definition validateGCConfig (config : GarbageCollectorConfig) : result unit :=
  if gc_Interval config <? 0 then Err ErrInvalidConfig
  else if (gc_MaxWorkers config <? 0) || (maxGCMaxWorkers <? gc_MaxWorkers config)
  then Err ErrInvalidConfig
  else
    _ ← validateRetentionPolicy (gc_DefaultPolicy config);
    validate_policies (map_to_list (default ∅ (gc_Policies config))).

Definition normalizeGCConfig (config : GarbageCollectorConfig) : result GarbageCollectorConfig :=
  _ ← validateGCConfig config;
  mret (mkGarbageCollectorConfig
    (if gc_Interval config =? 0 then defaultGCInterval else gc_Interval config)
    (Some (default ∅ (gc_Policies config)))
    (if bool_decide (gc_DefaultPolicy config = mkRetentionPolicy 0 0 0)
     then defaultRetentionPolicy else gc_DefaultPolicy config)
    (if gc_MaxWorkers config =? 0 then defaultGCMaxWorkers else gc_MaxWorkers config)).

Definition getPolicy (config : GarbageCollectorConfig) (queueName : string) : RetentionPolicy :=
  match default ∅ (gc_Policies config) !! queueName with
  | Some policy => policy
  | None => gc_DefaultPolicy config
  end.

(** ** Accumulated errors *)

Definition maxAccumulatedCollectErrs : nat := 100.

(** A recorded error: one queue's, or the truncation sentinel. *)
Inductive collectErr :=
| QueueErr (queueName : string) (x : err)
| errCollectErrsTruncated.

Definition appendCappedErr (errs : list collectErr) (queueName : string) (qerr : err) :
    list collectErr :=
  if (length errs <? maxAccumulatedCollectErrs)%nat then errs ++ [QueueErr queueName qerr]
  else if (length errs =? maxAccumulatedCollectErrs)%nat then errs ++ [errCollectErrsTruncated]
  else errs.

(** ** Emptying a queue *)

Definition executePurge (tableName : string) (queueType : QueueType) : io unit :=
  withTx (
    if bool_decide (queueType = QueueTypePubSub) then
      on_topic tableName (
        stmt (fun _ _ t => (Ok tt, set_tt_subs ∅ t)) ;;
        stmt (fun _ _ t => (Ok tt, mkTopicTables ∅ ∅ (tt_dlq t))) ;;   (* ON DELETE CASCADE *)
        stmt (fun _ _ t => (Ok tt, set_tt_dlq ∅ t)))
    else
      on_channel tableName (
        stmt (fun _ _ t => (Ok tt, set_ct_msgs ∅ t)) ;;
        stmt (fun _ _ t => (Ok tt, set_ct_dlq ∅ t)))).

Definition PurgeQueue (queueName : string) (queueType : QueueType) : io unit :=
  checkClosed ;;
  metadata ← getQueueMetadata queueType queueName;
  executePurge (q_TableName metadata) queueType.

(** ** Paged statements *)

Definition retentionPurgePageSize : nat := 1000.
Definition promoteExhaustedChannelMessagesPageSize : nat := 100.
Definition promoteExhaustedTopicSubscriptionsPageSize : nat := 100.

(** Pages of [size] rows until one is not full; [fuel] pages at most. *)
Fixpoint paged (fuel size : nat) (page : tx DB nat) (total : Z) : io Z :=
  match fuel with
  | O => mret total
  | Datatypes.S fuel =>
      n ← withTx page;
      let total := total + Z.of_nat n in
      if (n <? size)%nat then mret total else paged fuel size page total
  end.

(** The rows of a queue's tables: every full page removes or settles some. *)
Definition queue_rows (tableName : string) (d : DB) : nat :=
  (match db_channels d !! tableName with
   | Some t => size (ct_msgs t) + size (ct_dlq t)
   | None => 0
   end +
   match db_topics d !! tableName with
   | Some t => size (tt_msgs t) + size (tt_subs t) + size (tt_dlq t)
   | None => 0
   end)%nat.

Definition page_loop (size : nat) (tableName : string) (page : tx DB nat) : io Z :=
  w ← get_world;
  paged (Datatypes.S (queue_rows tableName (w_db w))) size page 0.

Definition runPagedPurge (tableName : string) (page : tx DB nat) : io Z :=
  page_loop retentionPurgePageSize tableName page.

(** [DELETE ... WHERE id IN (SELECT id ... WHERE P ORDER BY k, id LIMIT 1000)] and the
    UPDATE of the same shape: the table after, and the rows affected. *)
Definition delete_page {R} (P : Z -> R -> bool) (k : R -> Z) (m : gmap Z R) : gmap Z R * nat :=
  let ids := (sql_select_limit retentionPurgePageSize P k m).*1 in
  (sql_delete_ids ids m, length ids).
Definition update_page {R} (P : Z -> R -> bool) (k : R -> Z) (f : R -> R) (m : gmap Z R) :
    gmap Z R * nat :=
  let ids := (sql_select_limit retentionPurgePageSize P k m).*1 in
  (sql_update_ids ids f m, length ids).

(** Statements on the dead-letter table of a queue, whichever its type. *)
Definition on_dlq (tableName : string) (f : env -> gmap Z dlqEntry -> gmap Z dlqEntry * nat) :
    tx DB nat := fun e n s =>
  match s ≫= fun d => db_channels d !! tableName with
  | Some _ => on_channel tableName (stmt (fun e _ t =>
      let '(m, k) := f e (ct_dlq t) in (Ok k, set_ct_dlq m t))) e n s
  | None => on_topic tableName (stmt (fun e _ t =>
      let '(m, k) := f e (tt_dlq t) in (Ok k, set_tt_dlq m t))) e n s
  end.

(** FOR UPDATE SKIP LOCKED *)
Definition unlocked (e : env) (i : Z) : bool := negb (bool_decide (i ∈ e_locked e)).

Section collect.
Context `{Server} (cfg : queueConfig).

(** [NOW() - make_interval(secs => $1)] *)
Definition cutoff (e : env) (d : Duration) : timestamp := e_now e - make_interval d.

(** *** Channels *)

Definition completed_before (e : env) (ttl : Duration) (i : Z) (r : channelRow) : bool :=
  bool_decide (c_status r = MessageStatusCompleted) && timed_out (cutoff e ttl) (c_processed_at r) &&
  unlocked e i.
Definition purge_completed_page (ttl : Duration) : tx channelTables nat :=
  stmt (fun e _ t =>
    let '(m, n) := delete_page (completed_before e ttl) (fun r => default 0 (c_processed_at r))
                     (ct_msgs t) in
    (Ok n, set_ct_msgs m t)).

Definition pending_before (e : env) (maxAge : Duration) (i : Z) (r : channelRow) : bool :=
  bool_decide (c_status r = MessageStatusPending) && (c_created_at r <? cutoff e maxAge) &&
  unlocked e i.
Definition purge_pending_page (maxAge : Duration) : tx channelTables nat :=
  stmt (fun e _ t =>
    let '(m, n) := delete_page (pending_before e maxAge) (fun _ => 0) (ct_msgs t) in
    (Ok n, set_ct_msgs m t)).

(** [status = 'processing' AND visibility_timeout < NOW()] *)
Definition expired (e : env) (i : Z) (r : channelRow) : bool :=
  bool_decide (c_status r = MessageStatusProcessing) &&
  timed_out (e_now e) (c_visibility_timeout r) && unlocked e i.

Definition exhausted_message (defaultMax : Z) (e : env) (i : Z) (r : channelRow) : bool :=
  expired e i r && (channelMaxRetries defaultMax (c_max_retries r) <=? c_retry_count r).

Definition scanExhaustedChannelMessages (defaultMax : Z) : tx channelTables (list (Z * channelRow)) :=
  query (fun e t => Ok (sql_select_limit promoteExhaustedChannelMessagesPageSize
    (exhausted_message defaultMax e) (fun _ => 0) (ct_msgs t))).

Definition promoteExhaustedChannelPage (defaultMax : Z) : tx channelTables nat :=
  batch ← scanExhaustedChannelMessages defaultMax;
  for_each (fun x => moveToDLQ x.1 errReasonVisibilityTimeout (c_payload x.2)
    (wrap64 (c_retry_count x.2 + 1)) (c_metadata x.2)) batch ;;
  mret (length batch).

Definition promoteExhaustedChannelMessages (tableName : string) : io Z :=
  page_loop promoteExhaustedChannelMessagesPageSize tableName
    (on_channel tableName (promoteExhaustedChannelPage (defaultMaxRetries cfg))).

Definition reset_row (r : channelRow) : channelRow :=
  pend_row (c_retry_count r + 1) (c_available_at r) (c_error_message r) r.
Definition resettable_message (defaultMax : Z) (e : env) (i : Z) (r : channelRow) : bool :=
  expired e i r && (c_retry_count r <? channelMaxRetries defaultMax (c_max_retries r)).
Definition reset_messages_page (defaultMax : Z) : tx channelTables nat :=
  stmt (fun e _ t =>
    let '(m, n) := update_page (resettable_message defaultMax e)
                     (fun r => default 0 (c_visibility_timeout r)) reset_row (ct_msgs t) in
    (Ok n, set_ct_msgs m t)).

Definition resetTimedOutMessages (tableName : string) (defaultMax : Z) : io Z :=
  runPagedPurge tableName (on_channel tableName (reset_messages_page defaultMax)).

(** *** Topics *)

(** [EXISTS (SELECT 1 FROM dlq d WHERE d.original_message_id = m.id)] *)
Definition dlq_references (t : topicTables) (id : Z) : bool :=
  existsb (fun x => d_original_message_id x.2 =? id) (map_to_list (tt_dlq t)).
(** [EXISTS (SELECT 1 FROM sub s WHERE s.message_id = m.id AND P s)] *)
Definition has_sub (P : subRow -> bool) (t : topicTables) (id : Z) : bool :=
  existsb (fun x => (s_message_id x.2 =? id) && P x.2) (map_to_list (tt_subs t)).

(** DELETE of message rows: ON DELETE CASCADE removes their subscriptions. *)
Definition delete_messages (P : Z -> topicRow -> bool) (t : topicTables) : topicTables * nat :=
  let ids := (sql_select_limit retentionPurgePageSize P (fun _ => 0) (tt_msgs t)).*1 in
  (mkTopicTables (sql_delete_ids ids (tt_msgs t))
     (filter (fun x => s_message_id x.2 ∉ ids) (tt_subs t)) (tt_dlq t), length ids).

Definition finished_before (e : env) (t : topicTables) (ttl : Duration) (i : Z) (m : topicRow) : bool :=
  (t_created_at m <? cutoff e ttl) &&
  negb (has_sub (fun s => negb (bool_decide (s_status s = MessageStatusAcked))) t i) &&
  negb (dlq_references t i) && unlocked e i.
Definition purge_finished_page (ttl : Duration) : tx topicTables nat :=
  stmt (fun e _ t => let '(t', n) := delete_messages (finished_before e t ttl) t in (Ok n, t')).

(** Pending subscriptions of a message published before the cutoff. *)
Definition pending_sub_before (e : env) (t : topicTables) (maxAge : Duration) (k : Z) (s : subRow) :
    bool :=
  bool_decide (s_status s = MessageStatusPending) &&
  match tt_msgs t !! s_message_id s with
  | Some m => t_created_at m <? cutoff e maxAge
  | None => false
  end && unlocked e k.
Definition purge_pending_subs_page (maxAge : Duration) : tx topicTables nat :=
  stmt (fun e _ t =>
    let '(m, n) := delete_page (pending_sub_before e t maxAge) (fun _ => 0) (tt_subs t) in
    (Ok n, set_tt_subs m t)).

Definition orphan (e : env) (t : topicTables) (i : Z) (m : topicRow) : bool :=
  negb (has_sub (fun _ => true) t i) && negb (dlq_references t i) && unlocked e i.
Definition orphan_page : tx topicTables nat :=
  stmt (fun e _ t => let '(t', n) := delete_messages (orphan e t) t in (Ok n, t')).
Definition reclaimOrphanTopicMessages (tableName : string) : io Z :=
  runPagedPurge tableName (on_topic tableName orphan_page).

(** [subscriber_id IN (SELECT ... WHERE topic_name = $1 AND active = FALSE)] *)
Definition is_inactive (queueName : string) (d : DB) (sid : string) : bool :=
  existsb (fun x => is_subscriber queueName sid x.2 && negb (sb_Active x.2))
    (map_to_list (db_subscribers d)).

(** [NOT (status = 'processing' AND visibility_timeout > NOW())], where a NULL
    timeout makes the condition not true. *)
Definition not_in_flight (e : env) (s : subRow) : bool :=
  if bool_decide (s_status s = MessageStatusProcessing) then
    match s_visibility_timeout s with Some v => v <=? e_now e | None => false end
  else true.
Definition abandoned (inactive : string -> bool) (e : env) (k : Z) (s : subRow) : bool :=
  inactive (s_subscriber_id s) && not_in_flight e s && unlocked e k.
Definition inactive_page (inactive : string -> bool) : tx topicTables nat :=
  stmt (fun e _ t =>
    let '(m, n) := delete_page (abandoned inactive e) (fun _ => 0) (tt_subs t) in
    (Ok n, set_tt_subs m t)).
Definition purgeInactiveSubscriptions (queueName tableName : string) : io Z :=
  runPagedPurge tableName (fun e n s =>
    on_topic tableName (inactive_page (is_inactive queueName (default empty_DB s))) e n s).

(** [status = 'processing' AND visibility_timeout < NOW()] *)
Definition expired_sub (e : env) (k : Z) (s : subRow) : bool :=
  bool_decide (s_status s = MessageStatusProcessing) &&
  timed_out (e_now e) (s_visibility_timeout s) && unlocked e k.

Definition exhausted_sub (maxRetries : Z) (e : env) (t : topicTables) (k : Z) (s : subRow) : bool :=
  expired_sub e k s && (maxRetries <=? s_retry_count s) &&
  bool_decide (is_Some (tt_msgs t !! s_message_id s)).

Definition scanExhaustedTopicSubscriptions (maxRetries : Z) :
    tx topicTables (list (subRow * topicRow)) :=
  query (fun e t => Ok (omap (fun x => (fun m => (x.2, m)) <$> tt_msgs t !! s_message_id x.2)
    (sql_select_limit promoteExhaustedTopicSubscriptionsPageSize (exhausted_sub maxRetries e t)
      (fun _ => 0) (tt_subs t)))).

Definition promoteExhaustedTopicPage (maxRetries : Z) : tx topicTables nat :=
  batch ← scanExhaustedTopicSubscriptions maxRetries;
  for_each (fun x => moveSubToDLQ (s_message_id x.1) (s_subscriber_id x.1) errReasonVisibilityTimeout
    (mkSubState (s_retry_count x.1) (t_payload x.2) (t_metadata x.2))) batch ;;
  mret (length batch).

Definition promoteExhaustedTopicSubscriptions (queue : queueMetadata) : io Z :=
  page_loop promoteExhaustedTopicSubscriptionsPageSize (q_TableName queue)
    (on_topic (q_TableName queue) (promoteExhaustedTopicPage (resolveMaxRetries cfg queue))).

Definition reset_sub (s : subRow) : subRow :=
  pend_sub (s_retry_count s + 1) (s_available_at s) (s_error_message s) s.
Definition resettable_sub (maxRetries : Z) (e : env) (k : Z) (s : subRow) : bool :=
  expired_sub e k s && (s_retry_count s <? maxRetries).
Definition reset_subs_page (maxRetries : Z) : tx topicTables nat :=
  stmt (fun e _ t =>
    let '(m, n) := update_page (resettable_sub maxRetries e) (fun _ => 0) reset_sub (tt_subs t) in
    (Ok n, set_tt_subs m t)).
Definition resetTimedOutSubscriptions (tableName : string) (maxRetries : Z) : io Z :=
  runPagedPurge tableName (on_topic tableName (reset_subs_page maxRetries)).

(** *** One queue *)

Definition purgeCompletedMessages (tableName : string) (queueType : QueueType) (ttl : Duration) :
    io Z :=
  runPagedPurge tableName
    (if bool_decide (queueType = QueueTypePubSub) then on_topic tableName (purge_finished_page ttl)
     else on_channel tableName (purge_completed_page ttl)).

Definition purgeOldPendingMessages (tableName : string) (queueType : QueueType) (maxAge : Duration) :
    io Z :=
  runPagedPurge tableName
    (if bool_decide (queueType = QueueTypePubSub)
     then on_topic tableName (purge_pending_subs_page maxAge)
     else on_channel tableName (purge_pending_page maxAge)).

Definition dead_before (e : env) (retention : Duration) (k : Z) (d : dlqEntry) : bool :=
  (d_moved_at d <? cutoff e retention) && unlocked e k.
Definition purgeDLQMessages (tableName : string) (retention : Duration) : io Z :=
  runPagedPurge tableName
    (on_dlq tableName (fun e m => delete_page (dead_before e retention) (fun _ => 0) m)).

(** [if d > 0 { n, err := purge(d); total += n; ... }] *)
Definition when_positive (d : Duration) (purge : Duration -> io Z) (total : Z) : io Z :=
  if 0 <? d then n ← purge d; mret (total + n) else mret total.

Definition applyRetentionPolicy (queue : queueMetadata) (policy : RetentionPolicy) : io Z :=
  total ← when_positive (CompletedMessageTTL policy)
            (purgeCompletedMessages (q_TableName queue) (q_QueueType queue)) 0;
  total ← when_positive (MaxPendingAge policy)
            (purgeOldPendingMessages (q_TableName queue) (q_QueueType queue)) total;
  when_positive (DLQRetention policy) (purgeDLQMessages (q_TableName queue)) total.

Definition resetTimedOutEntries (queue : queueMetadata) : io Z :=
  match q_QueueType queue with
  | QueueTypeChannel => resetTimedOutMessages (q_TableName queue) (defaultMaxRetries cfg)
  | QueueTypePubSub => resetTimedOutSubscriptions (q_TableName queue) (resolveMaxRetries cfg queue)
  | QueueTypeOther _ => mret 0
  end.

(** Returns the rows purged and the rows reclaimed. *)
Definition doCollectQueue (gc : GarbageCollectorConfig) (queue : queueMetadata) : io (Z * Z) :=
  purged ← applyRetentionPolicy queue (getPolicy gc (q_QueueName queue));
  '(purged, promoted) ←
    (if bool_decide (q_QueueType queue = QueueTypePubSub) then
       inactivePurged ← purgeInactiveSubscriptions (q_QueueName queue) (q_TableName queue);
       orphanPurged ← reclaimOrphanTopicMessages (q_TableName queue);
       n ← promoteExhaustedTopicSubscriptions queue;
       mret (purged + inactivePurged + orphanPurged, n)
     else mret (purged, 0));
  promoted ←
    (if bool_decide (q_QueueType queue = QueueTypeChannel) then
       n ← promoteExhaustedChannelMessages (q_TableName queue); mret (promoted + n)
     else mret promoted);
  reclaimed ← resetTimedOutEntries queue;
  mret (purged, promoted + reclaimed).

End collect.

(** ** Lemmas on pages *)

Section pages.
Context {R : Type}.
Implicit Types (P : Z -> R -> bool) (k : R -> Z) (m : gmap Z R).

(** The rows one page picks: matching rows, without repetition, and all of them
    when the page is not full. *)
Lemma page_ids n P k m (ids := (sql_select_limit n P k m).*1) :
  NoDup ids /\ (forall i, i ∈ ids -> exists r, m !! i = Some r /\ P i r = true) /\
  ((length ids < n)%nat -> forall i r, m !! i = Some r -> P i r = true -> i ∈ ids).
Proof.
  unfold ids, sql_select_limit. split_and!.
  - rewrite fmap_take. eapply sublist_NoDup; [apply (NoDup_sql_select P k m)|apply sublist_take].
  - intros i ([i' r] & -> & Hin)%list_elem_of_fmap. exists r. cbn.
    apply elem_of_sql_select with k. eapply elem_of_sublist; [exact Hin|apply sublist_take].
  - rewrite length_fmap, length_take. intros Hl i r Hi HP.
    rewrite take_ge by lia. apply list_elem_of_fmap. exists (i, r). split; [done|].
    by apply elem_of_sql_select.
Qed.

Lemma delete_ids_dom ids m :
  dom (sql_delete_ids ids m) =@{gset Z} dom m ∖ list_to_set ids.
Proof.
  apply set_eq. intros i. rewrite elem_of_difference, elem_of_list_to_set, !elem_of_dom.
  rewrite lookup_sql_delete_ids. case_decide; [|tauto]. split; [by intros [? ?]|tauto].
Qed.

Lemma size_removed {S} (m : gmap Z S) (m' : gmap Z S) ids :
  NoDup ids -> (forall i, i ∈ ids -> is_Some (m !! i)) ->
  dom m' =@{gset Z} dom m ∖ list_to_set ids -> (size m' + length ids = size m)%nat.
Proof.
  intros Hnd Hin Hd. rewrite <-!(size_dom (D := gset Z)), Hd.
  assert (list_to_set ids ⊆@{gset Z} dom m) as Hsub.
  { intros i Hi. apply elem_of_list_to_set in Hi. apply elem_of_dom. auto. }
  rewrite size_difference by done. rewrite size_list_to_set by done.
  apply subseteq_size in Hsub. rewrite size_list_to_set in Hsub by done. lia.
Qed.

Lemma delete_page_spec P k m m' n :
  delete_page P k m = (m', n) ->
  m' ⊆ m /\ (size m' + n = size m)%nat /\
  (forall i r, m !! i = Some r -> m' !! i = Some r \/ P i r = true) /\
  ((n < retentionPurgePageSize)%nat -> forall i r, m' !! i = Some r -> P i r = false).
Proof.
  unfold delete_page. intros [= <- <-].
  destruct (page_ids retentionPurgePageSize P k m) as (Hnd & Hin & Hall).
  set (ids := (sql_select_limit retentionPurgePageSize P k m).*1) in *. split_and!.
  - apply map_subseteq_spec. intros i r. rewrite lookup_sql_delete_ids. by case_decide.
  - apply size_removed; [done| |apply delete_ids_dom].
    intros i (r & ? & _)%Hin. by eexists.
  - intros i r Hi. rewrite lookup_sql_delete_ids. case_decide as Hid; [|by left].
    right. destruct (Hin i Hid) as (r' & ? & ?). congruence.
  - intros Hn i r. rewrite lookup_sql_delete_ids. case_decide as Hid; [done|].
    intros Hi. destruct (P i r) eqn:HP; [|done]. exfalso. by eapply Hid, Hall.
Qed.

Lemma update_page_spec P k f m m' n :
  update_page P k f m = (m', n) ->
  (forall i r, P i r = true -> P i (f r) = false) ->
  (forall i r, m !! i = Some r ->
     m' !! i = Some r \/ (P i r = true /\ m' !! i = Some (f r))) /\
  (forall i, m !! i = None -> m' !! i = None) /\
  ((n < retentionPurgePageSize)%nat -> forall i r, m' !! i = Some r -> P i r = false) /\
  (forall K : R -> bool, (forall i r, P i r = true -> K r = true /\ K (f r) = false) ->
     (size (filter (fun x => K x.2 = true) m') + n =
      size (filter (fun x => K x.2 = true) m))%nat).
Proof.
  unfold update_page. intros [= <- <-] Hf.
  destruct (page_ids retentionPurgePageSize P k m) as (Hnd & Hin & Hall).
  set (ids := (sql_select_limit retentionPurgePageSize P k m).*1) in *. split_and!.
  - intros i r Hi. rewrite lookup_sql_update_ids, Hi. cbn. case_decide as Hid; [|by left].
    right. destruct (Hin i Hid) as (r' & ? & ?). split; [congruence|done].
  - intros i Hi. by rewrite lookup_sql_update_ids, Hi.
  - intros Hn i r. rewrite lookup_sql_update_ids. destruct (m !! i) as [q|] eqn:Hi; [|done]. cbn.
    case_decide as Hid; intros [= <-].
    + apply Hf. destruct (Hin i Hid) as (r' & ? & ?). congruence.
    + destruct (P i q) eqn:HP; [|done]. exfalso. by eapply Hid, Hall.
  - intros K HK. apply size_removed; [done| |].
    + intros i (r & Hi & HP)%Hin. exists r. apply map_lookup_filter_Some. split; [done|].
      by apply (HK i).
    + apply set_eq. intros i. rewrite elem_of_difference, elem_of_list_to_set, !elem_of_dom.
      unfold is_Some. setoid_rewrite map_lookup_filter_Some. cbn.
      setoid_rewrite lookup_sql_update_ids. split.
      * intros (x & Hx & HKx). destruct (m !! i) as [q|] eqn:Hi; [|done]. cbn in Hx.
        injection Hx as <-. case_decide as Hid; [|eauto].
        destruct (Hin i Hid) as (r' & ? & HP). destruct (HK i r' HP). congruence.
      * intros ((x & Hx & HKx) & Hid). exists x. rewrite Hx. cbn. by rewrite decide_False.
Qed.

End pages.

(** ** The paged loop *)

(** One queue's tables inside the database. *)
Class TableLens {T} (get : DB -> option T) (put : T -> DB -> DB) : Prop := {
  lens_get_put x d : get (put x d) = Some x;
  lens_put_put x y d : put x (put y d) = put x d
}.

#[export] Instance channel_lens t : TableLens (fun d => db_channels d !! t)
  (fun x d => set_channels (<[t := x]> (db_channels d)) d).
Proof.
  split; intros; cbn; [by rewrite lookup_insert_eq|].
  unfold set_channels. cbn. by rewrite insert_insert_eq.
Qed.
#[export] Instance topic_lens t : TableLens (fun d => db_topics d !! t)
  (fun x d => set_topics (<[t := x]> (db_topics d)) d).
Proof.
  split; intros; cbn; [by rewrite lookup_insert_eq|].
  unfold set_topics. cbn. by rewrite insert_insert_eq.
Qed.

Section loop.
Context {T : Type} {get : DB -> option T} {put : T -> DB -> DB} `{!TableLens get put}.

(** One page, run at step [m]: it keeps the invariant, relates the tables before and
    after, each with its step, lowers the measure by the rows it affects, and is done
    when it is not full. *)
Definition page_ok (o : oracle) (size : nat) (body : tx T nat) (I : nat -> T -> Prop)
    (Rel : nat * T -> nat * T -> Prop) (Dn : env -> T -> Prop) (mu : T -> nat) : Prop :=
  forall m x, I m x ->
    wp (o m) 0 (Some x) body
      (fun n _ s => exists x', s = Some x' /\ I (S m) x' /\ Rel (m, x) (S m, x') /\
         (mu x' + n <= mu x)%nat /\ ((n < size)%nat -> Dn (o m) x'))
      (fun _ => False).

(** The loop ends, within as many pages as the measure counts, on a page that was
    not full. *)
Lemma iwp_paged o size body I Rel Dn mu page d fuel total w x (Q : Z -> world -> Prop) E :
  reliable o -> (0 < size)%nat -> Reflexive Rel -> Transitive Rel ->
  page_ok o size body I Rel Dn mu ->
  (forall e y, page e 0%nat (Some (put y d)) = zoom get put body e 0%nat (Some (put y d))) ->
  I (w_tick w) x -> w_db w = put x d -> (mu x < fuel)%nat ->
  (forall k m x' w', Rel (w_tick w, x) (w_tick w', x') -> (w_tick w <= m < w_tick w')%nat ->
     Dn (o m) x' -> I (w_tick w') x' -> w_db w' = put x' d -> Q k w') ->
  iwp o w (paged fuel size page total) Q E.
Proof.
  intros Hrel Hsz Hr Ht Hok Hpage. revert total w x.
  induction fuel as [|fuel IH]; intros total w x HI Hdb Hmu HQ; [lia|]. cbn [paged].
  iwp_step. apply iwp_withTx.
  { intros de Hf. exfalso. by apply (Hrel (w_tick w)). }
  unfold wp. rewrite Hdb, Hpage.
  change (wp (o (w_tick w)) 0 (Some (put x d)) (zoom get put body)
    (fun a _ s => match s with
       | Some d' => iwp o (set_w_db d' (w_next w))
           (if (a <? size)%nat then mret (total + Z.of_nat a)
            else paged fuel size page (total + Z.of_nat a)) Q E
       | None => E (ErrDriver failed_tx) (w_next w) end) (fun x => E x (w_next w))).
  eapply wp_zoom; [apply lens_get_put|]. eapply wp_mono; [apply (Hok _ _ HI)| |done].
  intros n _ s (x' & -> & HI' & HR & Hm & HD). cbn [fmap option_fmap option_map].
  rewrite lens_put_put. destruct (Nat.ltb_spec n size) as [Hn|Hn].
  - iwp_step. eapply (HQ _ (w_tick w) x'); [done|cbn; lia|by apply HD|exact HI'|done].
  - apply (IH _ _ x'); [exact HI'|done|lia|]. intros k m y w' HR' Hm' HD' HI'' Hw. cbn in Hm', HR'.
    eapply (HQ _ m); [by etrans|lia|done..].
Qed.

End loop.

(** ** Properties of the configuration *)

Lemma validateRetentionPolicy_ok p :
  validateRetentionPolicy p = Ok tt <->
  Forall (fun d => 0 <= d \/ d = KeepForever) [CompletedMessageTTL p; MaxPendingAge p; DLQRetention p].
Proof.
  unfold validateRetentionPolicy, KeepForever. rewrite !Forall_cons, Forall_nil. cbn.
  unfold retention_ok, KeepForever.
  repeat match goal with
  | |- context [?a <? 0] => destruct (Z.ltb_spec a 0)
  | |- context [?a =? -1] => destruct (Z.eqb_spec a (-1))
  end; cbn; split; intros Hx; try done; lia.
Qed.

Lemma validate_policies_ok l :
  validate_policies l = Ok tt <-> Forall (fun x => validateRetentionPolicy x.2 = Ok tt) l.
Proof.
  induction l as [|[n p] l IH]; [done|]. rewrite Forall_cons. cbn.
  destruct (validateRetentionPolicy p) as [[]|x]; cbn; [by rewrite IH; intuition|].
  split; [done|by intros [? _]].
Qed.

Lemma validateGCConfig_ok c :
  validateGCConfig c = Ok tt <->
  0 <= gc_Interval c /\ 0 <= gc_MaxWorkers c <= maxGCMaxWorkers /\
  validateRetentionPolicy (gc_DefaultPolicy c) = Ok tt /\
  (forall q p, default ∅ (gc_Policies c) !! q = Some p -> validateRetentionPolicy p = Ok tt).
Proof.
  unfold validateGCConfig, maxGCMaxWorkers. destruct (Z.ltb_spec (gc_Interval c) 0); [split; [done|lia]|].
  destruct (Z.ltb_spec (gc_MaxWorkers c) 0); [split; [done|lia]|].
  destruct (Z.ltb_spec 100 (gc_MaxWorkers c)); [split; [done|lia]|]. cbn.
  destruct (validateRetentionPolicy (gc_DefaultPolicy c)) as [[]|x]; cbn.
  2: { split; [done|]. by intros (_ & _ & ? & _). }
  rewrite validate_policies_ok, Forall_forall. split.
  - intros Hf. split_and!; [lia..|done|]. intros q p Hq. apply (Hf (q, p)).
    by apply elem_of_map_to_list.
  - intros (_ & _ & _ & Hf) [q p] Hq. apply (Hf q). by apply elem_of_map_to_list.
Qed.

(** [normalizeGCConfig] accepts exactly the documented ranges, and what it
    returns is usable: a positive interval, 1 to 100 workers, retention durations
    that are non-negative or KeepForever, per-queue policies as given; it does not
    change its own result. *)
Theorem gc_config_normalized (c : GarbageCollectorConfig) :
  (forall x, normalizeGCConfig c = Err x -> x = ErrInvalidConfig /\ validateGCConfig c <> Ok tt) /\
  (forall c', normalizeGCConfig c = Ok c' ->
     validateGCConfig c = Ok tt /\ 0 < gc_Interval c' /\ 1 <= gc_MaxWorkers c' <= maxGCMaxWorkers /\
     (forall q, Forall (fun d => 0 <= d \/ d = KeepForever)
        [CompletedMessageTTL (getPolicy c' q); MaxPendingAge (getPolicy c' q);
         DLQRetention (getPolicy c' q)]) /\
     (forall q p, default ∅ (gc_Policies c) !! q = Some p -> getPolicy c' q = p) /\
     normalizeGCConfig c' = Ok c').
Proof.
  assert (forall x, validateGCConfig c = Err x -> x = ErrInvalidConfig) as Herr.
  { intros x. unfold validateGCConfig. case_match; [by intros [= <-]|]. case_match; [by intros [= <-]|].
    generalize (map_to_list (default ∅ (gc_Policies c))). unfold validateRetentionPolicy at 1.
    destruct (forallb _ _); cbn; [|by intros ? [= <-]].
    intros l. induction l as [|[n p] l IH]; [done|]. cbn. unfold validateRetentionPolicy.
    destruct (forallb _ _); cbn; [done|by intros [= <-]]. }
  unfold normalizeGCConfig. destruct (validateGCConfig c) as [[]|y] eqn:Hv; cbn.
  2: { split; [|done]. intros x [= <-]. split; [by apply Herr|done]. }
  split; [done|]. intros c' [= <-].
  pose proof Hv as (Hi & Hw & Hd & Hp)%validateGCConfig_ok.
  set (c' := mkGarbageCollectorConfig _ _ _ _).
  assert (0 < gc_Interval c') as Hi'.
  { cbn. destruct (Z.eqb_spec (gc_Interval c) 0); [done|lia]. }
  assert (1 <= gc_MaxWorkers c' <= maxGCMaxWorkers) as Hw'.
  { cbn. destruct (Z.eqb_spec (gc_MaxWorkers c) 0); [done|lia]. }
  assert (validateRetentionPolicy (gc_DefaultPolicy c') = Ok tt) as Hd'.
  { cbn. by case_bool_decide. }
  assert (validateGCConfig c' = Ok tt) as ->.
  { apply validateGCConfig_ok. split_and!; [lia|lia|lia|done|exact Hp]. }
  split_and!; [done|done|lia|lia| |..].
  - intros q. apply validateRetentionPolicy_ok. unfold getPolicy.
    destruct (default ∅ (gc_Policies c') !! q) eqn:Hq; [by eapply Hp|done].
  - intros q p Hq. unfold getPolicy. cbn. by rewrite Hq.
  - unfold c', mbind, result_bind, mret, result_ret.
    cbn [gc_Interval gc_Policies gc_DefaultPolicy gc_MaxWorkers]. f_equal.
    f_equal; cbn [default].
    + destruct (Z.eqb_spec (gc_Interval c) 0) as [|Hn].
      { done. }
      by rewrite (proj2 (Z.eqb_neq _ _) Hn).
    + destruct (bool_decide (gc_DefaultPolicy c = _)) eqn:Hb; [done|]. by rewrite Hb.
    + destruct (Z.eqb_spec (gc_MaxWorkers c) 0) as [|Hn]; [done|].
      by rewrite (proj2 (Z.eqb_neq _ _) Hn).
Qed.
