(* ===== verification/GcChannel.v ===== *)
(** * A collection pass over a channel

    What [doCollectQueue] does to a channel: retention first, then the promotion
    of exhausted messages and the reset of timed-out ones. *)

From S2P Require Import Prelude Types Tx Utf8 World Config Queries Channel Publish PubSub Gc.
From Stdlib Require Import ZArith Lia Cantor.
Local Open Scope Z_scope.

(** uuidv7() never repeats a value: not across transactions, and not one of the keys
    in a table, from step [m] on. *)
Definition gen_distinct (o : oracle) : Prop :=
  forall m m' n n' i i', e_gen (o m) n i = e_gen (o m') n' i' -> m = m' /\ n = n' /\ i = i'.
Definition fresh_from {R} (o : oracle) (m : nat) (tbl : gmap Z R) : Prop :=
  forall m' n i, (m <= m')%nat -> tbl !! e_gen (o m') n i = None.

(** [P] holds of the server at one of the steps [a] to [b - 1]. *)
Definition during (o : oracle) (a b : nat) (P : env -> Prop) : Prop :=
  exists m, (a <= m < b)%nat /\ P (o m).
(** A time that lies more than [age] back at one of these steps. *)
Definition older `{Server} (o : oracle) (a b : nat) (age : Duration) (at_ : timestamp) : Prop :=
  during o a b (fun e => at_ < e_now e - make_interval age).

Lemma during_mono o a b a' b' (P P' : env -> Prop) :
  during o a b P -> (a' <= a)%nat -> (b <= b')%nat -> (forall e, P e -> P' e) -> during o a' b' P'.
Proof. intros (m & ? & ?) ? ? HP. exists m. split; [lia|auto]. Qed.

Lemma during_here o m (P : env -> Prop) : P (o m) -> during o m (S m) P.
Proof. intros ?. exists m. split; [lia|done]. Qed.

(** A delivery whose deadline has passed, and that no transaction holds a lock on. *)
Definition overdue (e : env) (i : Z) (r : channelRow) : Prop :=
  c_status r = MessageStatusProcessing /\ (i ∉ e_locked e) /\
  exists v, c_visibility_timeout r = Some v /\ v < e_now e.

(** A delivery whose deadline has not passed at any of the steps. *)
Definition in_flight (o : oracle) (a b : nat) (r : channelRow) : Prop :=
  c_status r = MessageStatusProcessing /\
  exists v, c_visibility_timeout r = Some v /\ forall m, (a <= m < b)%nat -> e_now (o m) <= v.

Definition is_processing (r : channelRow) : bool :=
  bool_decide (c_status r = MessageStatusProcessing).

Section gc_channel.
Context `{Server} (cfg : queueConfig) (o : oracle).
Implicit Types (t : channelTables) (r : channelRow).

Lemma timed_out_true now v : timed_out now v = true <-> exists u, v = Some u /\ u < now.
Proof.
  unfold timed_out. destruct v as [u|]; [|split; [done|by intros (? & ? & _)]].
  rewrite Z.ltb_lt. split; [by eexists|by intros (? & [= ->] & ?)].
Qed.

Lemma unlocked_true e i : unlocked e i = true <-> i ∉ e_locked e.
Proof. unfold unlocked. by rewrite negb_true_iff, bool_decide_eq_false. Qed.

Lemma expired_iff e i r : expired e i r = true <-> overdue e i r.
Proof.
  unfold expired, overdue. rewrite !andb_true_iff, bool_decide_eq_true, timed_out_true, unlocked_true.
  tauto.
Qed.

(** Why a message may be dropped between two steps: it was completed, or pending,
    for longer than the policy keeps it. *)
Definition droppable (p : RetentionPolicy) (a b : nat) (r : channelRow) : Prop :=
  (c_status r = MessageStatusCompleted /\ 0 < CompletedMessageTTL p /\
     exists v, c_processed_at r = Some v /\ older o a b (CompletedMessageTTL p) v) \/
  (c_status r = MessageStatusPending /\ 0 < MaxPendingAge p /\
     older o a b (MaxPendingAge p) (c_created_at r)).

(** What retention under [p] may do: rows only go away, a message only when it is
    [droppable], a dead letter only past its retention. *)
Definition retained (p : RetentionPolicy) (x x' : nat * channelTables) : Prop :=
  (x.1 <= x'.1)%nat /\ ct_msgs x'.2 ⊆ ct_msgs x.2 /\ ct_dlq x'.2 ⊆ ct_dlq x.2 /\
  (forall i r, ct_msgs x.2 !! i = Some r ->
     ct_msgs x'.2 !! i = Some r \/ droppable p x.1 x'.1 r) /\
  (forall k d, ct_dlq x.2 !! k = Some d -> ct_dlq x'.2 !! k = Some d \/
     (0 < DLQRetention p /\ older o x.1 x'.1 (DLQRetention p) (d_moved_at d))).

(** What reclaiming may do: nothing is lost, and only a timed-out delivery changes:
    back to pending with one more attempt counted, or to the dead-letter table. *)
Definition reclaimed (x x' : nat * channelTables) : Prop :=
  (x.1 <= x'.1)%nat /\ conserves x.2 x'.2 /\
  (forall i r, ct_msgs x.2 !! i = Some r -> ct_msgs x'.2 !! i = Some r \/
     (during o x.1 x'.1 (fun e => overdue e i r) /\
      (ct_msgs x'.2 !! i = None \/ ct_msgs x'.2 !! i = Some (reset_row r)))) /\
  (forall i, ct_msgs x.2 !! i = None -> ct_msgs x'.2 !! i = None).

Definition gc_inv (m : nat) (t : channelTables) : Prop :=
  channel_inv cfg t /\ fresh_from o m (ct_dlq t).

Lemma older_mono a b a' b' age v :
  older o a b age v -> (a' <= a)%nat -> (b <= b')%nat -> older o a' b' age v.
Proof. intros Ho ? ?. by eapply during_mono. Qed.

Lemma droppable_mono p a b a' b' r :
  droppable p a b r -> (a' <= a)%nat -> (b <= b')%nat -> droppable p a' b' r.
Proof.
  intros [(? & ? & v & ? & Ho)|(? & ? & Ho)] Ha Hb; [left|right]; eauto 6 using older_mono.
Qed.

Lemma retained_refl p : Reflexive (retained p).
Proof. intros x. split_and!; eauto. Qed.

Lemma retained_trans p : Transitive (retained p).
Proof.
  intros x y z (H0 & H1 & H2 & H3 & H4) (G0 & G1 & G2 & G3 & G4). split_and!; [lia|by etrans..| |].
  - intros i r Hi. destruct (H3 i r Hi) as [Hi'|Hd].
    + destruct (G3 i r Hi') as [|Hd]; [by left|right]. by eapply droppable_mono.
    + right. by eapply droppable_mono.
  - intros k d Hk. destruct (H4 k d Hk) as [Hk'|[? Hd]].
    + destruct (G4 k d Hk') as [|[? Hd]]; [by left|right]. split; [done|]. by eapply older_mono.
    + right. split; [done|]. by eapply older_mono.
Qed.

Lemma reset_not_overdue e i r : ~ overdue e i (reset_row r).
Proof. by intros (? & _). Qed.

Lemma reclaimed_refl : Reflexive reclaimed.
Proof. intros x. refine (conj _ (conj _ (conj _ _))); [done|apply conserves_refl|eauto..]. Qed.

(** Two steps in a row, or both in the same transaction. *)
Lemma reclaimed_join a b a' b' t1 t2 t3 :
  reclaimed (a, t1) (b, t2) -> reclaimed (a', t2) (b', t3) ->
  (a <= a')%nat -> (b <= b')%nat -> reclaimed (a, t1) (b', t3).
Proof.
  intros (H0 & H1 & H2 & H3) (G0 & G1 & G2 & G3) Ha Hb. cbn in *.
  refine (conj _ (conj _ (conj _ _))); cbn; [lia|by eapply conserves_trans| |eauto].
  intros i r Hi. destruct (H2 i r Hi) as [Hi'|(Hm & [Hi'|Hi'])].
  - destruct (G2 i r Hi') as [|[Hm ?]]; [by left|right]. split; [|done]. by eapply during_mono.
  - right. split; [by eapply during_mono|]. auto.
  - right. split; [by eapply during_mono|].
    destruct (G2 i _ Hi') as [?|((m & _ & Hm') & _)]; [auto|].
    by apply reset_not_overdue in Hm'.
Qed.

Lemma reclaimed_trans : Transitive reclaimed.
Proof.
  intros [a x] [b y] [c z] H1 H2. pose proof (proj1 H1). pose proof (proj1 H2).
  by eapply reclaimed_join.
Qed.

Lemma channel_inv_sub t t' :
  ct_msgs t' ⊆ ct_msgs t -> ct_dlq t' ⊆ ct_dlq t -> channel_inv cfg t -> channel_inv cfg t'.
Proof.
  intros Hm Hd [H1 H2]. split; intros i x Hi; [eapply H1|eapply H2]; by eapply lookup_weaken.
Qed.

Lemma fresh_from_sub {R} m m' (tbl tbl' : gmap Z R) :
  (m <= m')%nat -> tbl' ⊆ tbl -> fresh_from o m tbl -> fresh_from o m' tbl'.
Proof.
  intros Hm Hs Hf j n i Hj. eapply lookup_weaken_None; [|done]. apply Hf. lia.
Qed.

Lemma retained_gc_inv p m t t' : gc_inv m t -> retained p (m, t) (S m, t') -> gc_inv (S m) t'.
Proof.
  intros [Hi Hf] (_ & H1 & H2 & _). split; [by eapply channel_inv_sub|].
  eapply fresh_from_sub; [|done..]. lia.
Qed.

(** *** The pages *)

Hypothesis Hrel : reliable o.
Hypothesis Hgen : gen_distinct o.

Lemma no_fault {P : Prop} m : faulty (o m) -> P.
Proof. intros Hf. exfalso. by apply (Hrel m). Qed.

Lemma purge_completed_ok p :
  0 < CompletedMessageTTL p ->
  page_ok o retentionPurgePageSize (purge_completed_page (CompletedMessageTTL p)) gc_inv (retained p)
    (fun e t => forall i r, ct_msgs t !! i = Some r ->
       completed_before e (CompletedMessageTTL p) i r = false) (fun t => size (ct_msgs t)).
Proof.
  intros Hp m t HI. unfold purge_completed_page. wp_step; [intros d; apply no_fault|].
  destruct (delete_page _ _ _) as [ms n] eqn:Hd. apply delete_page_spec in Hd as (Hs & Hz & Hl & Hn).
  eexists. split; [done|]. assert (retained p (m, t) (S m, set_ct_msgs ms t)) as HR.
  { split_and!; [cbn; lia|done..| |eauto]. intros i r Hi. destruct (Hl i r Hi) as [|Hx]; [by left|right].
    left. unfold completed_before in Hx.
    rewrite !andb_true_iff, bool_decide_eq_true, timed_out_true in Hx.
    destruct Hx as [[? (v & ? & ?)] _]. split_and!; [done..|]. exists v. split; [done|].
    by apply during_here. }
  refine (conj _ (conj HR (conj _ _))); [by eapply retained_gc_inv|cbn; lia|done].
Qed.

Lemma purge_pending_ok p :
  0 < MaxPendingAge p ->
  page_ok o retentionPurgePageSize (purge_pending_page (MaxPendingAge p)) gc_inv (retained p)
    (fun _ _ => True) (fun t => size (ct_msgs t)).
Proof.
  intros Hp m t HI. unfold purge_pending_page. wp_step; [intros d; apply no_fault|].
  destruct (delete_page _ _ _) as [ms n] eqn:Hd. apply delete_page_spec in Hd as (Hs & Hz & Hl & Hn).
  eexists. split; [done|]. assert (retained p (m, t) (S m, set_ct_msgs ms t)) as HR.
  { split_and!; [cbn; lia|done..| |eauto]. intros i r Hi. destruct (Hl i r Hi) as [|Hx]; [by left|right].
    right. unfold pending_before in Hx. rewrite !andb_true_iff, bool_decide_eq_true, Z.ltb_lt in Hx.
    split_and!; [tauto|done|]. apply during_here. tauto. }
  refine (conj _ (conj HR (conj _ _))); [by eapply retained_gc_inv|cbn; lia|done].
Qed.

Lemma purge_dlq_ok p :
  0 < DLQRetention p ->
  page_ok o retentionPurgePageSize (stmt (fun e _ t =>
      let '(m, k) := delete_page (dead_before e (DLQRetention p)) (fun _ => 0) (ct_dlq t) in
      (Ok k, set_ct_dlq m t))) gc_inv (retained p)
    (fun _ _ => True) (fun t => size (ct_dlq t)).
Proof.
  intros Hp m t HI. wp_step; [intros d; apply no_fault|].
  destruct (delete_page _ _ _) as [ms n] eqn:Hd. apply delete_page_spec in Hd as (Hs & Hz & Hl & Hn).
  eexists. split; [done|]. assert (retained p (m, t) (S m, set_ct_dlq ms t)) as HR.
  { split_and!; [cbn; lia|done..|eauto|]. intros i r Hi. destruct (Hl i r Hi) as [|Hx]; [by left|right].
    unfold dead_before in Hx. rewrite andb_true_iff, Z.ltb_lt in Hx.
    split; [done|]. apply during_here. tauto. }
  refine (conj _ (conj HR (conj _ _))); [by eapply retained_gc_inv|cbn; lia|done].
Qed.

Lemma reset_messages_ok :
  page_ok o retentionPurgePageSize (reset_messages_page (defaultMaxRetries cfg)) gc_inv reclaimed
    (fun e t => forall i r, ct_msgs t !! i = Some r ->
       resettable_message (defaultMaxRetries cfg) e i r = false)
    (fun t => size (filter (fun x => is_processing x.2 = true) (ct_msgs t))).
Proof.
  intros m t [HI Hf]. unfold reset_messages_page. wp_step; [intros d; apply no_fault|].
  destruct (update_page _ _ _ _) as [ms n] eqn:Hd.
  apply update_page_spec in Hd as (Hl & Hnone & Hdone & Hsz).
  2: { done. }
  assert (forall i r, resettable_message (defaultMaxRetries cfg) (o m) i r = true ->
    overdue (o m) i r /\ c_retry_count r < limit cfg r) as Hres.
  { intros i r [?%expired_iff ?%Z.ltb_lt]%andb_true_iff. done. }
  eexists. split; [done|].
  refine (conj _ (conj (conj _ (conj _ (conj _ _))) (conj _ _))); [|cbn; lia|..].
  - split; [|eapply fresh_from_sub; [|done..]; lia]. split; [|apply HI]. intros i q Hq. cbn in Hq.
    destruct (ct_msgs t !! i) as [r|] eqn:Hi; [|by rewrite (Hnone i Hi) in Hq].
    pose proof (proj1 HI i r Hi) as Hw. destruct (Hl i r Hi) as [Hr|[Hp%Hres Hr]];
      rewrite Hr in Hq; injection Hq as <-; [done|].
    apply pend_row_wf; [done|]. destruct Hw as (_ & ? & _). lia.
  - split; [|done]. intros i r Hi. left. destruct (Hl i r Hi) as [Hr|[_ Hr]]; by eexists.
  - intros i r Hi. destruct (Hl i r Hi) as [Hr|[Hp%Hres Hr]]; [by left|right].
    split; [apply during_here; tauto|by right].
  - done.
  - cbn. rewrite <-(Hsz is_processing); [lia|].
    intros i r [[Hp _] _]%Hres. unfold is_processing. by rewrite Hp.
  - done.
Qed.

(** Promoting a page: every row of the batch goes to the dead-letter table. *)
Lemma wp_promote m (batch : list (Z * channelRow)) n t
    (Q : unit -> nat -> option channelTables -> Prop) E :
  NoDup batch.*1 -> (forall x, x ∈ batch -> ct_msgs t !! x.1 = Some x.2 /\
    overdue (o m) x.1 x.2 /\ limit cfg x.2 <= c_retry_count x.2) ->
  channel_inv cfg t -> fresh_from o (S m) (ct_dlq t) ->
  (forall n' i, (n <= n')%nat -> ct_dlq t !! e_gen (o m) n' i = None) ->
  (forall n' t', gc_inv (S m) t' -> reclaimed (m, t) (S m, t') ->
     ct_msgs t' = sql_delete_ids batch.*1 (ct_msgs t) -> Q tt n' (Some t')) ->
  wp (o m) n (Some t) (for_each (fun x => moveToDLQ x.1 errReasonVisibilityTimeout (c_payload x.2)
    (wrap64 (c_retry_count x.2 + 1)) (c_metadata x.2)) batch) Q E.
Proof.
  revert n t Q. induction batch as [|[i r] batch IH]; intros n t Q Hnd Hb HI Hf Hg HQ.
  { cbn [for_each]. wp_step. apply HQ; [done| |].
    { refine (conj _ (conj _ (conj _ _))); [cbn; lia|apply conserves_refl|eauto..]. }
    apply map_eq. intros j. rewrite lookup_sql_delete_ids, decide_False; [done|apply not_elem_of_nil]. }
  destruct (Hb (i, r) ltac:(left)) as (Hi & He & Hl). cbn [fst snd] in Hi, He, Hl.
  apply NoDup_cons in Hnd as [Hni Hnd].
  pose proof (proj1 HI i r Hi) as Hw. destruct Hw as (Hst & Hrc & Hlim).
  cbn [for_each fst snd]. wp_step. rewrite wrap64_succ by lia.
  apply wp_moveToDLQ; [intros d; apply no_fault|by rewrite errReasonVisibilityTimeout_ok|lia| |].
  { split; [done|]. intros ? ? ? ? He'. apply Hgen in He'. tauto. }
  intros _. set (t1 := dead_letter _ _ _ _ _ _ _ _).
  assert (reclaimed (m, t) (S m, t1)) as HR1.
  { refine (conj _ (conj _ (conj _ _))); cbn [fst snd].
    - lia.
    - apply dead_letter_conserves; [done|apply Hg; lia].
    - intros j q Hj. destruct (decide (j = i)) as [->|Hne].
      + right. split; [apply during_here; congruence|]. left. cbn. apply lookup_delete_eq.
      + left. cbn. by rewrite lookup_delete_ne.
    - intros j Hj. cbn. by rewrite lookup_delete_None; right. }
  apply IH; [done|..].
  - intros [j q] Hj. destruct (Hb (j, q) ltac:(by right)) as (Hjq & ? & ?). split_and!; [|done..].
    cbn. rewrite lookup_delete_ne; [done|]. intros ->. apply Hni.
    apply list_elem_of_fmap. by exists (j, q).
  - apply dead_letter_inv; [done|lia|apply errReasonVisibilityTimeout_ok].
  - intros m' n' k Hm'. cbn. rewrite lookup_insert_ne; [by apply Hf|].
    intros He'%Hgen. lia.
  - intros n' k Hn'. cbn. rewrite lookup_insert_ne; [apply Hg; lia|]. intros He'%Hgen. lia.
  - intros n' t' HI' HR' Hms. apply HQ; [done|by eapply reclaimed_join|]. rewrite Hms.
    apply map_eq. intros j. rewrite !lookup_sql_delete_ids. cbn [t1 dead_letter ct_msgs].
    rewrite fmap_cons. cbn [fst].
    destruct (decide (j ∈ i :: batch.*1)) as [Hj|Hj]; rewrite elem_of_cons in Hj.
    + destruct (decide (j ∈ batch.*1)); [done|]. destruct Hj as [->|]; [apply lookup_delete_eq|done].
    + rewrite decide_False by tauto. apply lookup_delete_ne. intros ->. tauto.
Qed.

Lemma promote_messages_ok :
  page_ok o promoteExhaustedChannelMessagesPageSize
    (promoteExhaustedChannelPage (defaultMaxRetries cfg)) gc_inv reclaimed
    (fun e t => forall i r, ct_msgs t !! i = Some r ->
       exhausted_message (defaultMaxRetries cfg) e i r = false)
    (fun t => size (ct_msgs t)).
Proof.
  intros m t [HI Hf]. unfold promoteExhaustedChannelPage, scanExhaustedChannelMessages.
  wp_step. wp_step; [intros d; apply no_fault|].
  destruct (page_ids promoteExhaustedChannelMessagesPageSize
    (exhausted_message (defaultMaxRetries cfg) (o m)) (fun _ => 0) (ct_msgs t)) as (Hnd & Hin & Hall).
  set (batch := sql_select_limit _ _ _ _) in *.
  wp_step. apply wp_promote; [done| |done|eapply fresh_from_sub; [|done..]; lia| |].
  - intros [i r] Hx. cbn [fst snd]. pose proof (elem_of_sublist _ _ _ Hx (sublist_take _ _))
      as [Hi [He%expired_iff Hl%Z.leb_le]%andb_true_iff]%elem_of_sql_select. done.
  - intros n' i _. by apply Hf.
  - intros n' t' HI' HR Hms. wp_step. eexists. split; [done|]. refine (conj HI' (conj HR (conj _ _))).
    + rewrite Hms, <-(length_fmap fst). rewrite (size_removed (ct_msgs t) _ batch.*1);
        [lia|done| |apply delete_ids_dom]. intros i (r & ? & _)%Hin. by eexists.
    + intros Hn i r. rewrite Hms, lookup_sql_delete_ids. case_decide as Hid; [done|]. intros Hi.
      destruct (exhausted_message _ _ _ _) eqn:Hx; [|done]. exfalso. apply Hid.
      rewrite <-(length_fmap fst) in Hn. by eapply Hall.
Qed.

(** *** The pass *)

(** A paged loop over the tables of the channel [t] of the database [d]. *)
Lemma iwp_channel_loop sz body I Rel Dn mu page (t : string) d w ct (Q : Z -> world -> Prop) E :
  (0 < sz)%nat -> Reflexive Rel -> Transitive Rel ->
  page_ok o sz body I Rel Dn mu ->
  (forall e y, let d' := set_channels (<[t := y]> (db_channels d)) d in
     page e 0%nat (Some d') = on_channel t body e 0%nat (Some d')) ->
  I (w_tick w) ct -> w_db w = set_channels (<[t := ct]> (db_channels d)) d ->
  (mu ct <= size (ct_msgs ct) + size (ct_dlq ct))%nat ->
  (forall k m ct' w', Rel (w_tick w, ct) (w_tick w', ct') -> (w_tick w <= m < w_tick w')%nat ->
     Dn (o m) ct' -> I (w_tick w') ct' ->
     w_db w' = set_channels (<[t := ct']> (db_channels d)) d -> Q k w') ->
  iwp o w (page_loop sz t page) Q E.
Proof.
  intros Hsz HR HT Hok Hpage HI Hdb Hmu HQ. unfold page_loop. do 2 iwp_step.
  eapply (iwp_paged (get := fun d => db_channels d !! t)
    (put := fun x d => set_channels (<[t := x]> (db_channels d)) d)); [done..| |exact HQ].
  rewrite Hdb. unfold queue_rows. cbn. rewrite lookup_insert_eq. lia.
Qed.

(** Reclaiming leaves behind only rows that were there, and reset ones. *)
Lemma reclaimed_back x x' i r :
  reclaimed x x' -> ct_msgs x'.2 !! i = Some r ->
  ct_msgs x.2 !! i = Some r \/ c_status r = MessageStatusPending.
Proof.
  intros (_ & _ & H2 & H3) Hi. destruct (ct_msgs x.2 !! i) as [q|] eqn:Hq.
  - destruct (H2 i q Hq) as [?|(_ & [?|Hr])]; [left; congruence|congruence|].
    right. rewrite Hr in Hi. by injection Hi as <-.
  - rewrite (H3 i Hq) in Hi. done.
Qed.

(** No completed message is left that was past the policy's age, and not locked, at
    one of the steps. *)
Definition completed_clean (p : RetentionPolicy) (a b : nat) (t : channelTables) : Prop :=
  0 < CompletedMessageTTL p -> during o a b (fun e => forall i r v, ct_msgs t !! i = Some r ->
    c_status r = MessageStatusCompleted -> c_processed_at r = Some v -> i ∉ e_locked e ->
    e_now e - make_interval (CompletedMessageTTL p) <= v).

Lemma completed_clean_mono p a b a' b' t t' :
  completed_clean p a b t -> (a' <= a)%nat -> (b <= b')%nat ->
  (forall i r, ct_msgs t' !! i = Some r ->
     ct_msgs t !! i = Some r \/ c_status r = MessageStatusPending) ->
  completed_clean p a' b' t'.
Proof.
  intros Hc Ha Hb Ht Hp. eapply during_mono; [by apply Hc|done..|]. intros e He i r v Hi Hst.
  destruct (Ht i r Hi) as [Hi'|?]; [by eapply He|congruence].
Qed.

Lemma iwp_retention p meta d w ct (Q : Z -> world -> Prop) E :
  q_QueueType meta = QueueTypeChannel -> gc_inv (w_tick w) ct ->
  w_db w = put_channel meta ct d ->
  (forall k w' ct', retained p (w_tick w, ct) (w_tick w', ct') -> gc_inv (w_tick w') ct' ->
     completed_clean p (w_tick w) (w_tick w') ct' ->
     w_db w' = put_channel meta ct' d -> Q k w') ->
  iwp o w (applyRetentionPolicy meta p) Q E.
Proof.
  intros Hqt HI Hdb HQ. unfold applyRetentionPolicy, when_positive. rewrite Hqt.
  assert ((0 < retentionPurgePageSize)%nat) as Hsz by (unfold retentionPurgePageSize; lia).
  iwp_step. assert (iwp o w (if 0 <? CompletedMessageTTL p
    then n ← purgeCompletedMessages (q_TableName meta) QueueTypeChannel (CompletedMessageTTL p);
         mret (0 + n) else mret 0)
    (fun _ w1 => exists ct1, retained p (w_tick w, ct) (w_tick w1, ct1) /\ gc_inv (w_tick w1) ct1 /\
       completed_clean p (w_tick w) (w_tick w1) ct1 /\
       w_db w1 = put_channel meta ct1 d) E) as H1.
  { destruct (Z.ltb_spec 0 (CompletedMessageTTL p)) as [Hp|Hp].
    - iwp_step. eapply iwp_channel_loop; [done|apply retained_refl|apply retained_trans|
        by apply purge_completed_ok|done|done|exact Hdb|lia|].
      intros k m ct1 w1 HR Hm HD HI1 Hw. iwp_step. exists ct1.
      refine (conj HR (conj HI1 (conj _ Hw))). intros _. exists m. split; [done|].
      intros i r v Hi Hst Hv Hu. specialize (HD i r Hi). unfold completed_before in HD.
      rewrite Hv, (bool_decide_eq_true_2 _ Hst), (proj2 (unlocked_true _ _) Hu), andb_true_r in HD.
      by apply Z.ltb_ge.
    - iwp_step. exists ct.
      refine (conj (retained_refl p _) (conj HI (conj _ Hdb))). intros ?. lia. }
  eapply iwp_mono; [exact H1| |done]. intros tot w1 (ct1 & HR1 & HI1 & HC1 & Hw1). clear H1 Hdb HI.
  iwp_step. assert (iwp o w1 (if 0 <? MaxPendingAge p
    then n ← purgeOldPendingMessages (q_TableName meta) QueueTypeChannel (MaxPendingAge p);
         mret (tot + n) else mret tot)
    (fun _ w2 => exists ct2, retained p (w_tick w1, ct1) (w_tick w2, ct2) /\ gc_inv (w_tick w2) ct2 /\
       w_db w2 = put_channel meta ct2 d) E) as H2.
  { destruct (Z.ltb_spec 0 (MaxPendingAge p)) as [Hp|Hp].
    - iwp_step. eapply iwp_channel_loop; [done|apply retained_refl|apply retained_trans|
        by apply purge_pending_ok|done|done|exact Hw1|lia|].
      intros k m ct2 w2 HR _ HD HI2 Hw. iwp_step. by exists ct2.
    - iwp_step. exists ct1. split; [apply retained_refl|done]. }
  eapply iwp_mono; [exact H2| |done]. intros tot2 w2 (ct2 & HR2 & HI2 & Hw2). clear H2 Hw1 HI1.
  assert (iwp o w2 (if 0 <? DLQRetention p
    then n ← purgeDLQMessages (q_TableName meta) (DLQRetention p); mret (tot2 + n) else mret tot2)
    (fun _ w3 => exists ct3, retained p (w_tick w2, ct2) (w_tick w3, ct3) /\ gc_inv (w_tick w3) ct3 /\
       w_db w3 = put_channel meta ct3 d) E) as H3.
  { destruct (Z.ltb_spec 0 (DLQRetention p)) as [Hp|Hp].
    - iwp_step. eapply iwp_channel_loop; [done|apply retained_refl|apply retained_trans|
        by apply purge_dlq_ok| |done|exact Hw2|lia|].
      { intros e y d'. unfold on_dlq, d'. cbn. by rewrite lookup_insert_eq. }
      intros k m ct3 w3 HR _ HD HI3 Hw. iwp_step. by exists ct3.
    - iwp_step. exists ct2. split; [apply retained_refl|done]. }
  eapply iwp_mono; [exact H3| |done]. intros tot3 w3 (ct3 & HR3 & HI3 & Hw3).
  assert (retained p (w_tick w1, ct1) (w_tick w3, ct3)) as HR13 by by eapply retained_trans.
  eapply HQ; [by eapply retained_trans|done| |done].
  eapply completed_clean_mono; [done..|apply (proj1 HR13)|]. intros i r Hi. left.
  eapply lookup_weaken; [exact Hi|apply HR13].
Qed.

Lemma iwp_collect_channel gc meta d w ct (Q : Z * Z -> world -> Prop) E :
  q_QueueType meta = QueueTypeChannel -> gc_inv (w_tick w) ct ->
  w_db w = put_channel meta ct d ->
  (forall k w' tick1 ct1 ct', let p := getPolicy gc (q_QueueName meta) in
     retained p (w_tick w, ct) (tick1, ct1) -> reclaimed (tick1, ct1) (w_tick w', ct') ->
     channel_inv cfg ct' -> completed_clean p (w_tick w) (w_tick w') ct' ->
     during o (w_tick w) (w_tick w') (fun e => forall i r, ct_msgs ct' !! i = Some r ->
       overdue e i r -> c_retry_count r < limit cfg r) ->
     during o (w_tick w) (w_tick w') (fun e => forall i r, ct_msgs ct' !! i = Some r ->
       overdue e i r -> limit cfg r <= c_retry_count r) ->
     w_db w' = put_channel meta ct' d -> Q k w') ->
  iwp o w (doCollectQueue cfg gc meta) Q E.
Proof.
  intros Hqt HI Hdb HQ. unfold doCollectQueue. iwp_step.
  eapply iwp_retention; [done..|]. intros tot w1 ct1 HR1 HI1 HC1 Hw1. rewrite Hqt.
  rewrite (bool_decide_eq_false_2 (QueueTypeChannel = QueueTypePubSub)) by done. do 2 iwp_step.
  rewrite (bool_decide_eq_true_2 (QueueTypeChannel = QueueTypeChannel)) by done. do 2 iwp_step.
  eapply iwp_channel_loop; [|apply reclaimed_refl|apply reclaimed_trans|apply promote_messages_ok|
    done|done|exact Hw1|lia|]. { unfold promoteExhaustedChannelMessagesPageSize. lia. }
  intros n m1 ct2 w2 HR2 Hm1 HD2 HI2 Hw2. do 2 iwp_step. unfold resetTimedOutEntries. rewrite Hqt.
  eapply iwp_channel_loop; [|apply reclaimed_refl|apply reclaimed_trans|apply reset_messages_ok|
    done|done|exact Hw2|cbn|]. { unfold retentionPurgePageSize. lia. }
  { pose proof (map_size_filter (fun x : Z * channelRow => is_processing x.2 = true) (ct_msgs ct2)).
    lia. }
  intros n' m2 ct3 w3 HR3 Hm2 HD3 HI3 Hw3. iwp_step.
  assert (reclaimed (w_tick w1, ct1) (w_tick w3, ct3)) as HR13 by by eapply reclaimed_trans.
  pose proof (proj1 HR1) as T1. pose proof (proj1 HR2) as T2. pose proof (proj1 HR3) as T3.
  cbn in T1, T2, T3.
  apply (HQ _ _ (w_tick w1) ct1 ct3 HR1 HR13 (proj1 HI3)); [..|exact Hw3].
  - eapply completed_clean_mono; [done|lia|lia|]. intros i r. by apply (reclaimed_back _ _ _ _ HR13).
  - exists m1. split; [lia|]. intros i r Hi Ho. destruct (reclaimed_back _ _ _ _ HR3 Hi) as [Hi2|Hst].
    + apply Z.nle_gt. intros Hl. specialize (HD2 i r Hi2). unfold exhausted_message in HD2.
      rewrite (proj2 (expired_iff _ _ _) Ho) in HD2. by apply Z.leb_gt, Z.nle_gt in HD2.
    + destruct Ho as [Ho _]. congruence.
  - exists m2. split; [lia|]. intros i r Hi Ho. specialize (HD3 i r Hi). unfold resettable_message in HD3.
    rewrite (proj2 (expired_iff _ _ _) Ho) in HD3. by apply Z.ltb_ge in HD3.
Qed.

End gc_channel.

(** ** Properties *)

(** A working server whose uuidv7() never repeats a value; one second passes
    between two steps. *)
Definition distinct_oracle : oracle := fun k =>
  let e := calm_oracle k in
  mkEnv (e_now e) (e_locked e)
    (fun n i => 2 ^ 120 + Z.of_nat (Cantor.to_nat (k, Cantor.to_nat (n, i))))
    (e_fault e) (e_begin e) (e_commit e) (e_rand e) (e_conv e) (e_time e) (e_ms e) (e_entropy e).

Lemma distinct_oracle_reliable : reliable distinct_oracle.
Proof. intros k [[d Hd]|[[d Hd]|(n & d & Hd)]]; discriminate Hd. Qed.

Lemma distinct_oracle_distinct : gen_distinct distinct_oracle.
Proof.
  intros m m' n n' i i'. cbn [distinct_oracle e_gen]. intros Heq.
  assert (Cantor.to_nat (m, Cantor.to_nat (n, i)) = Cantor.to_nat (m', Cantor.to_nat (n', i')))
    as Hp%Cantor.to_nat_inj by lia.
  pose proof (f_equal fst Hp) as H1. pose proof (f_equal snd Hp) as H2. cbn [fst snd] in H1, H2.
  apply Cantor.to_nat_inj in H2. by injection H2 as -> ->.
Qed.

(** Message 1 is pending; 2 timed out with no attempt left, 3 with attempts left; 4
    is in flight; 5 was completed long ago. *)
Definition gc_rows : gmap Z channelRow :=
  <[1 := mkChannelRow [Byte.x61] 0 MessageStatusPending 0 (Some 3) None 5 None None None None]>
  (<[2 := mkChannelRow [Byte.x62] 0 MessageStatusProcessing 3 (Some 3) (Some 10) 5 (Some 77) None None
            None]>
  (<[3 := mkChannelRow [Byte.x63] 0 MessageStatusProcessing 1 (Some 3) (Some 10) 5 (Some 78) None None
            None]>
  (<[4 := mkChannelRow [Byte.x64] 0 MessageStatusProcessing 1 (Some 3) (Some (10 ^ 15)) 5 (Some 79)
            None None None]>
  (<[5 := mkChannelRow [Byte.x65] (- 10 ^ 15) MessageStatusCompleted 1 (Some 3) (Some 10) 5 (Some 80)
            (Some (- 10 ^ 14)) None None]> ∅)))).
Definition gc_tables : channelTables := mkChannelTables gc_rows ∅.
Definition gc_world : world :=
  new_world (put_channel sample_meta gc_tables sample_db).
Definition gc_default : GarbageCollectorConfig :=
  mkGarbageCollectorConfig defaultGCInterval (Some ∅) defaultRetentionPolicy defaultGCMaxWorkers.

Lemma gc_tables_inv : channel_inv sample_cfg gc_tables.
Proof.
  split; [|intros k d Hk; cbn in Hk; by rewrite lookup_empty in Hk].
  intros i r Hi. cbn [gc_tables ct_msgs] in Hi. unfold gc_rows in Hi.
  repeat (rewrite lookup_insert_Some in Hi; destruct Hi as [[<- <-]|[_ Hi]];
    [repeat split; vm_compute; try done; by eexists|]).
  by rewrite lookup_empty in Hi.
Qed.

(** a collection pass over an existing channel of a working server returns,
    keeps the table invariant, and is thorough: at one of its steps every overdue
    message still there had an attempt left, and at one of its steps every overdue
    message still there had none, so that none is left whose deadline had passed
    before both; and at one of its steps every completed message still there was
    within the age the retention policy keeps. Rows another transaction has locked
    at that step are skipped. *)
Theorem gc_channel_thorough `{Server} (cfg : queueConfig) (gc : GarbageCollectorConfig) (o : oracle)
    (w : world) (meta : queueMetadata) (ct : channelTables) :
  reliable o -> gen_distinct o -> q_QueueType meta = QueueTypeChannel ->
  db_channels (w_db w) !! q_TableName meta = Some ct ->
  channel_inv cfg ct -> fresh_from o (w_tick w) (ct_dlq ct) ->
  exists counts w' ct', doCollectQueue cfg gc meta o w = (Ok counts, w') /\
    w_db w' = put_channel meta ct' (w_db w) /\ channel_inv cfg ct' /\
    during o (w_tick w) (w_tick w') (fun e => forall i r, ct_msgs ct' !! i = Some r ->
      overdue e i r -> c_retry_count r < limit cfg r) /\
    during o (w_tick w) (w_tick w') (fun e => forall i r, ct_msgs ct' !! i = Some r ->
      overdue e i r -> limit cfg r <= c_retry_count r) /\
    (let ttl := CompletedMessageTTL (getPolicy gc (q_QueueName meta)) in
     0 < ttl -> during o (w_tick w) (w_tick w') (fun e => forall i r v, ct_msgs ct' !! i = Some r ->
       c_status r = MessageStatusCompleted -> c_processed_at r = Some v -> i ∉ e_locked e ->
       e_now e - make_interval ttl <= v)).
Proof.
  intros Hrel Hgen Hqt Hct Hinv Hfr.
  assert (iwp o w (doCollectQueue cfg gc meta) (fun _ w' => exists ct',
      w_db w' = put_channel meta ct' (w_db w) /\ channel_inv cfg ct' /\
      during o (w_tick w) (w_tick w') (fun e => forall i r, ct_msgs ct' !! i = Some r ->
        overdue e i r -> c_retry_count r < limit cfg r) /\
      during o (w_tick w) (w_tick w') (fun e => forall i r, ct_msgs ct' !! i = Some r ->
        overdue e i r -> limit cfg r <= c_retry_count r) /\
      completed_clean o (getPolicy gc (q_QueueName meta)) (w_tick w) (w_tick w') ct')
    (fun _ _ => False)) as Hi.
  { eapply (iwp_collect_channel cfg o Hrel Hgen gc meta (w_db w) w ct);
      [done|done|by rewrite put_channel_same|].
    intros k w' t1 ct1 ct' p _ _ Hi HC H1 H2 Hw. exists ct'.
    exact (conj Hw (conj Hi (conj H1 (conj H2 HC)))). }
  unfold iwp in Hi. destruct (doCollectQueue cfg gc meta o w) as [[c|x] w']; [|done].
  destruct Hi as (ct' & Hi). by exists c, w', ct'.
Qed.

Lemma gc_fresh_empty {R} o m : fresh_from o m (∅ : gmap Z R).
Proof. intros m' n i _. apply lookup_empty. Qed.

(** The pass over the sample channel: 5 is purged, 2 is dead-lettered, 3 is reset. *)
Lemma gc_channel_thorough_witness :
  exists w' ct',
    doCollectQueue (H := truncating_server) sample_cfg gc_default sample_meta distinct_oracle gc_world
      = (Ok (1, 2), w') /\
    w_db w' = put_channel sample_meta ct' (w_db gc_world) /\ channel_inv sample_cfg ct'.
Proof.
  destruct (gc_channel_thorough (H := truncating_server) sample_cfg gc_default distinct_oracle gc_world
    sample_meta gc_tables distinct_oracle_reliable distinct_oracle_distinct eq_refl eq_refl
    gc_tables_inv (gc_fresh_empty _ _)) as (c & w' & ct' & Heq & Hw & Hi & _).
  exists w', ct'. split; [|split; [exact Hw|exact Hi]]. rewrite Heq. f_equal.
  assert (match fst (doCollectQueue (H := truncating_server) sample_cfg gc_default sample_meta
    distinct_oracle gc_world) with Ok c => c | Err _ => (0, 0) end = (1, 2)) as Hc
    by (vm_compute; reflexivity).
  rewrite Heq in Hc. cbn [fst] in Hc. by rewrite Hc.
Defined.

(** C13: a collection pass over a channel is safe: a delivery whose deadline does not
    pass during the pass is left exactly as it is; a message is dropped only when,
    at a step of the pass, it had been completed for longer than the policy's
    CompletedMessageTTL, or pending for longer than its MaxPendingAge, and that
    duration is set; every other message is still there with its content or
    dead-lettered with it; and a dead letter is dropped only past DLQRetention. *)
Theorem gc_channel_safe `{Server} (cfg : queueConfig) (gc : GarbageCollectorConfig) (o : oracle)
    (w : world) (meta : queueMetadata) (ct : channelTables) :
  reliable o -> gen_distinct o -> q_QueueType meta = QueueTypeChannel ->
  db_channels (w_db w) !! q_TableName meta = Some ct ->
  channel_inv cfg ct -> fresh_from o (w_tick w) (ct_dlq ct) ->
  let p := getPolicy gc (q_QueueName meta) in
  exists counts w' ct', doCollectQueue cfg gc meta o w = (Ok counts, w') /\
    w_db w' = put_channel meta ct' (w_db w) /\
    let a := w_tick w in let b := w_tick w' in
    (forall i r, ct_msgs ct !! i = Some r -> in_flight o a b r -> ct_msgs ct' !! i = Some r) /\
    (forall i r, ct_msgs ct !! i = Some r ->
       (exists r', ct_msgs ct' !! i = Some r' /\ same_content r r') \/
       (exists k d, ct_dlq ct' !! k = Some d /\ d_original_message_id d = i /\
          d_payload d = c_payload r /\ d_metadata d = c_metadata r) \/
       (c_status r = MessageStatusCompleted /\ 0 < CompletedMessageTTL p /\
          exists v, c_processed_at r = Some v /\ older o a b (CompletedMessageTTL p) v) \/
       (c_status r = MessageStatusPending /\ 0 < MaxPendingAge p /\
          older o a b (MaxPendingAge p) (c_created_at r))) /\
    (forall k d, ct_dlq ct !! k = Some d -> ct_dlq ct' !! k = Some d \/
       (0 < DLQRetention p /\ older o a b (DLQRetention p) (d_moved_at d))).
Proof.
  intros Hrel Hgen Hqt Hct Hinv Hfr p.
  assert (iwp o w (doCollectQueue cfg gc meta)
    (fun _ w' => exists t1 ct1 ct', w_db w' = put_channel meta ct' (w_db w) /\
       retained o p (w_tick w, ct) (t1, ct1) /\ reclaimed o (t1, ct1) (w_tick w', ct'))
    (fun _ _ => False)) as Hi.
  { eapply (iwp_collect_channel cfg o Hrel Hgen gc meta (w_db w) w ct);
      [done|done|by rewrite put_channel_same|].
    intros k w' t1 ct1 ct' p' HR1 HR2 _ _ _ _ Hw. by exists t1, ct1, ct'. }
  unfold iwp in Hi. destruct (doCollectQueue cfg gc meta o w) as [[c|x] w']; [|done].
  destruct Hi as (t1 & ct1 & ct' & Hw & (T1 & _ & _ & Hm & Hd) & (T2 & (Hc & Hdl) & Hu & _)).
  cbn [fst snd] in *. exists c, w', ct'. refine (conj eq_refl (conj Hw (conj _ (conj _ _)))).
  - intros i r Hr (Hst & v & Hv & Hnow). destruct (Hm i r Hr) as [Hr1|[[? _]|[? _]]]; [|congruence..].
    destruct (Hu i r Hr1) as [?|((m & Hm' & _ & _ & u & Hu' & Hlt) & _)]; [done|].
    exfalso. specialize (Hnow m ltac:(lia)). assert (u = v) by congruence. lia.
  - intros i r Hr. destruct (Hm i r Hr) as [Hr1|Hdrop].
    + destruct (Hc i r Hr1) as [(r' & Hr' & ? & ? & ? & ?)|?]; [left; by exists r'|by right; left].
    + right. right. by eapply droppable_mono.
  - intros k d Hk. destruct (Hd k d Hk) as [Hk1|[? ?]]; [left; by eapply lookup_weaken|right].
    split; [done|]. by eapply older_mono.
Qed.

(** Message 4 is in flight and stays as it is; 1 is pending and stays, with its
    content, since the policy sets no MaxPendingAge. *)
Lemma gc_channel_safe_witness :
  exists counts w' ct',
    doCollectQueue (H := truncating_server) sample_cfg gc_default sample_meta distinct_oracle gc_world
      = (Ok counts, w') /\
    w_db w' = put_channel sample_meta ct' (w_db gc_world) /\ ct_msgs ct' !! 4 = gc_rows !! 4.
Proof.
  destruct (gc_channel_safe (H := truncating_server) sample_cfg gc_default distinct_oracle gc_world
    sample_meta gc_tables distinct_oracle_reliable distinct_oracle_distinct eq_refl eq_refl
    gc_tables_inv (gc_fresh_empty _ _)) as (c & w' & ct' & Heq & Hw & Hfl & _).
  exists c, w', ct'. split; [exact Heq|]. split; [exact Hw|].
  assert (w_tick (snd (doCollectQueue (H := truncating_server) sample_cfg gc_default
    sample_meta distinct_oracle gc_world)) = 4%nat) as Hc by (vm_compute; reflexivity).
  rewrite Heq in Hc. cbn [snd] in Hc. apply (Hfl 4); [reflexivity|].
  split; [reflexivity|]. eexists. split; [reflexivity|]. intros m [_ Hm]. rewrite Hc in Hm.
  do 4 (destruct m as [|m]; [vm_compute; discriminate|]). lia.
Defined.
