(* ===== verification/GcTopic.v ===== *)
(** * A collection pass over a topic

    What [doCollectQueue] does to a topic: retention, the leftovers of
    unsubscribed subscribers, messages nobody can receive, then the promotion of
    exhausted subscriptions and the reset of timed-out ones. *)

From S2P Require Import Prelude Types Tx Utf8 World Config Queries Channel Publish PubSub Gc GcChannel.
From Stdlib Require Import ZArith Lia.
Local Open Scope Z_scope.

(** Every dead letter's message is still there: what a dead-letter replay needs. *)
Definition dlq_parents (t : topicTables) : Prop :=
  forall k d, tt_dlq t !! k = Some d -> is_Some (tt_msgs t !! d_original_message_id d).

(** A delivery whose deadline has passed, and that no transaction holds a lock on. *)
Definition sub_overdue (e : env) (k : Z) (s : subRow) : Prop :=
  s_status s = MessageStatusProcessing /\ (k ∉ e_locked e) /\
  exists v, s_visibility_timeout s = Some v /\ v < e_now e.

(** A delivery whose deadline lies ahead at all of the steps. *)
Definition sub_in_flight (o : oracle) (a b : nat) (s : subRow) : Prop :=
  s_status s = MessageStatusProcessing /\
  exists v, s_visibility_timeout s = Some v /\ forall m, (a <= m < b)%nat -> e_now (o m) < v.

Definition sub_is_processing (s : subRow) : bool :=
  bool_decide (s_status s = MessageStatusProcessing).

Section gc_topic.
Context `{Server} (cfg : queueConfig) (o : oracle) (mr : Z) (inactive : string -> bool)
  (p : RetentionPolicy).
Implicit Types (t : topicTables) (s : subRow).

Lemma expired_sub_iff e k s : expired_sub e k s = true <-> sub_overdue e k s.
Proof.
  unfold expired_sub, sub_overdue.
  rewrite !andb_true_iff, bool_decide_eq_true, timed_out_true, unlocked_true. tauto.
Qed.

(** Why a subscription may be dropped between two steps: its message was published
    longer ago than the policy keeps acked, or pending, deliveries; or its
    subscriber left and it is not in flight. *)
Definition sub_droppable (t : topicTables) (a b : nat) (s : subRow) : Prop :=
  (s_status s = MessageStatusAcked /\ 0 < CompletedMessageTTL p /\
     exists x, tt_msgs t !! s_message_id s = Some x /\
       older o a b (CompletedMessageTTL p) (t_created_at x)) \/
  (s_status s = MessageStatusPending /\ 0 < MaxPendingAge p /\
     exists x, tt_msgs t !! s_message_id s = Some x /\
       older o a b (MaxPendingAge p) (t_created_at x)) \/
  (inactive (s_subscriber_id s) = true /\
     (s_status s = MessageStatusProcessing ->
      exists v, s_visibility_timeout s = Some v /\ during o a b (fun e => v <= e_now e))).

(** What the purges may do: rows only go away; a subscription only when it is
    [sub_droppable]; a message only when no remaining dead letter refers to it; a
    dead letter only past its retention. *)
Definition pruned (x x' : nat * topicTables) : Prop :=
  (x.1 <= x'.1)%nat /\
  tt_msgs x'.2 ⊆ tt_msgs x.2 /\ tt_subs x'.2 ⊆ tt_subs x.2 /\ tt_dlq x'.2 ⊆ tt_dlq x.2 /\
  (forall i m, tt_msgs x.2 !! i = Some m -> tt_msgs x'.2 !! i = Some m \/
     forall k d, tt_dlq x'.2 !! k = Some d -> d_original_message_id d <> i) /\
  (forall k s, tt_subs x.2 !! k = Some s -> tt_subs x'.2 !! k = Some s \/
     sub_droppable x.2 x.1 x'.1 s) /\
  (forall k d, tt_dlq x.2 !! k = Some d -> tt_dlq x'.2 !! k = Some d \/
     (0 < DLQRetention p /\ older o x.1 x'.1 (DLQRetention p) (d_moved_at d))).

(** What reclaiming may do: see [reclaimed]. *)
Definition subs_reclaimed (x x' : nat * topicTables) : Prop :=
  (x.1 <= x'.1)%nat /\ topic_conserves x.2 x'.2 /\
  (forall k s, tt_subs x.2 !! k = Some s -> tt_subs x'.2 !! k = Some s \/
     (during o x.1 x'.1 (fun e => sub_overdue e k s) /\
      (tt_subs x'.2 !! k = None \/ tt_subs x'.2 !! k = Some (reset_sub s)))) /\
  (forall k, tt_subs x.2 !! k = None -> tt_subs x'.2 !! k = None).

Definition gc_topic_inv (m : nat) (t : topicTables) : Prop :=
  topic_inv mr t /\ fresh_from o m (tt_dlq t) /\ dlq_parents t.

Lemma sub_droppable_mono t t' a b a' b' s :
  sub_droppable t a b s -> tt_msgs t ⊆ tt_msgs t' -> (a' <= a)%nat -> (b <= b')%nat ->
  sub_droppable t' a' b' s.
Proof.
  intros [(? & ? & x & Hx & ?)|[(? & ? & x & Hx & ?)|(? & Hs)]] Ht Ha Hb; [left|right; left|right; right].
  1-2: eauto 8 using older_mono, lookup_weaken.
  split; [done|]. intros Hp. destruct (Hs Hp) as (v & ? & Hd). exists v. split; [done|].
  by eapply during_mono.
Qed.

Lemma pruned_refl : Reflexive pruned.
Proof. intros t. split_and!; eauto. Qed.

Lemma pruned_trans : Transitive pruned.
Proof.
  intros x y z (H0 & H1 & H2 & H3 & H4 & H5 & H6) (G0 & G1 & G2 & G3 & G4 & G5 & G6).
  split_and!; [lia|by etrans..| | |].
  - intros i m Hi. destruct (H4 i m Hi) as [Hi'|Hn]; [by apply G4|right].
    intros k d Hk. apply (Hn k). by eapply lookup_weaken.
  - intros k s Hk. destruct (H5 k s Hk) as [Hk'|Hd].
    + destruct (G5 k s Hk') as [|Hd]; [by left|right]. by eapply sub_droppable_mono.
    + right. by eapply sub_droppable_mono.
  - intros k d Hk. destruct (H6 k d Hk) as [Hk'|[? ?]].
    + destruct (G6 k d Hk') as [|[? ?]]; [by left|right]. split; [done|]. by eapply older_mono.
    + right. split; [done|]. by eapply older_mono.
Qed.

Lemma subs_reclaimed_refl : Reflexive subs_reclaimed.
Proof. intros x. refine (conj _ (conj _ (conj _ _))); [done|apply topic_conserves_refl|eauto..]. Qed.

Lemma subs_reclaimed_join a b a' b' t1 t2 t3 :
  subs_reclaimed (a, t1) (b, t2) -> subs_reclaimed (a', t2) (b', t3) ->
  (a <= a')%nat -> (b <= b')%nat -> subs_reclaimed (a, t1) (b', t3).
Proof.
  intros (H0 & H1 & H2 & H3) (G0 & G1 & G2 & G3) Ha Hb. cbn [fst snd] in *.
  refine (conj _ (conj _ (conj _ _))); cbn [fst snd]; [lia|by eapply topic_conserves_trans| |eauto].
  intros k s Hk. destruct (H2 k s Hk) as [Hk'|(Hm & [Hk'|Hk'])].
  - destruct (G2 k s Hk') as [|[Hm ?]]; [by left|right]. split; [|done]. by eapply during_mono.
  - right. split; [by eapply during_mono|]. auto.
  - right. split; [by eapply during_mono|].
    destruct (G2 k _ Hk') as [?|((m & _ & Hm' & _) & _)]; [auto|done].
Qed.

Lemma subs_reclaimed_trans : Transitive subs_reclaimed.
Proof.
  intros [a x] [b y] [c z] H1 H2. pose proof (proj1 H1). pose proof (proj1 H2).
  by eapply subs_reclaimed_join.
Qed.

(** Pruning keeps the invariant when it keeps the messages of the subscriptions. *)
Lemma pruned_inv m t t' :
  gc_topic_inv m t -> pruned (m, t) (S m, t') ->
  (forall k s, tt_subs t' !! k = Some s -> is_Some (tt_msgs t' !! s_message_id s)) ->
  gc_topic_inv (S m) t'.
Proof.
  intros (((Hfk & Huq) & Hs & Hd) & Hf & Hp) (_ & H1 & H2 & H3 & H4 & _) Hfk'.
  refine (conj (conj (conj Hfk' _) (conj _ _)) (conj _ _)).
  - intros k k' s s' Hk Hk'. apply Huq; by eapply lookup_weaken.
  - intros k s Hk. eapply Hs. by eapply lookup_weaken.
  - intros k d Hk. eapply Hd. by eapply lookup_weaken.
  - eapply fresh_from_sub; [|done..]. lia.
  - intros k d Hk. destruct (Hp k d) as [x Hx]; [by eapply lookup_weaken|].
    destruct (H4 _ x Hx) as [Hx'|Hn]; [by eexists|]. by destruct (Hn k d Hk).
Qed.

Lemma has_sub_false P t i :
  has_sub P t i = false <->
  forall k s, tt_subs t !! k = Some s -> s_message_id s = i -> P s = false.
Proof.
  unfold has_sub. rewrite <-not_true_iff_false, existsb_exists. split.
  - intros Hn k s Hk Hi. destruct (P s) eqn:HP; [|done]. exfalso. apply Hn. exists (k, s).
    split; [by apply list_elem_of_In, elem_of_map_to_list|]. cbn. rewrite HP, Hi.
    by rewrite Z.eqb_refl.
  - intros Hf ([k s] & Hin & Hb). apply list_elem_of_In, elem_of_map_to_list in Hin. cbn in Hb.
    apply andb_true_iff in Hb as [Hi%Z.eqb_eq HP]. by rewrite (Hf k s Hin Hi) in HP.
Qed.

Lemma dlq_references_false t i :
  dlq_references t i = false <->
  forall k d, tt_dlq t !! k = Some d -> d_original_message_id d <> i.
Proof.
  unfold dlq_references. rewrite <-not_true_iff_false, existsb_exists. split.
  - intros Hn k d Hk Hi. apply Hn. exists (k, d).
    split; [by apply list_elem_of_In, elem_of_map_to_list|]. cbn. by apply Z.eqb_eq.
  - intros Hf ([k d] & Hin & Hb). apply list_elem_of_In, elem_of_map_to_list in Hin. cbn in Hb.
    apply Z.eqb_eq in Hb. by eapply Hf.
Qed.

(** *** The pages *)

Hypothesis Hrel : reliable o.
Hypothesis Hgen : gen_distinct o.

(** A page of message deletions. *)
Lemma delete_messages_ok m t P t' n :
  delete_messages P t = (t', n) ->
  (forall i x, P i x = true -> dlq_references t i = false /\
     forall k s, tt_subs t !! k = Some s -> s_message_id s = i ->
       s_status s = MessageStatusAcked /\ 0 < CompletedMessageTTL p /\
       t_created_at x < e_now (o m) - make_interval (CompletedMessageTTL p)) ->
  gc_topic_inv m t ->
  gc_topic_inv (S m) t' /\ pruned (m, t) (S m, t') /\ (size (tt_msgs t') + n = size (tt_msgs t))%nat /\
  tt_dlq t' = tt_dlq t /\
  ((n < retentionPurgePageSize)%nat -> forall i x, tt_msgs t' !! i = Some x -> P i x = false).
Proof.
  unfold delete_messages. intros [= <- <-] HP HI.
  destruct (page_ids retentionPurgePageSize P (fun _ => 0) (tt_msgs t)) as (Hnd & Hin & Hall).
  set (ids := (sql_select_limit retentionPurgePageSize P (fun _ => 0) (tt_msgs t)).*1) in *.
  set (t' := mkTopicTables _ _ _). assert (pruned (m, t) (S m, t')) as HR.
  { split_and!; cbn [fst snd t' tt_msgs tt_subs tt_dlq].
    - lia.
    - apply map_subseteq_spec. intros i r. rewrite lookup_sql_delete_ids. by case_decide.
    - apply map_filter_subseteq.
    - done.
    - intros i x Hi. rewrite lookup_sql_delete_ids. case_decide as Hid; [right|by left].
      destruct (Hin i Hid) as (x' & Hx' & [Hd _]%HP). by apply dlq_references_false.
    - intros k s Hk. destruct (decide (s_message_id s ∈ ids)) as [Hid|Hid].
      + right. left. destruct (Hin _ Hid) as (x' & Hx' & [_ Hs]%HP).
        destruct (Hs k s Hk eq_refl) as (? & ? & ?). split_and!; [done..|]. exists x'.
        split; [done|]. by apply during_here.
      + left. by apply map_lookup_filter_Some.
    - eauto. }
  assert (forall i x, tt_msgs t !! i = Some x -> i ∉ ids -> tt_msgs t' !! i = Some x) as Hkeep.
  { intros i x Hi Hid. cbn. by rewrite lookup_sql_delete_ids, decide_False. }
  refine (conj _ (conj HR (conj _ (conj eq_refl _)))).
  - eapply pruned_inv; [done..|]. intros k s [Hk Hid]%map_lookup_filter_Some. cbn in Hid.
    destruct (proj1 (proj1 (proj1 HI)) k s Hk) as [x Hx]. exists x. by apply Hkeep.
  - apply size_removed; [done| |apply delete_ids_dom]. intros i (r & ? & _)%Hin. by eexists.
  - intros Hn i x. cbn. rewrite lookup_sql_delete_ids. case_decide as Hid; [done|].
    intros Hi. destruct (P i x) eqn:HPx; [|done]. exfalso. by eapply Hid, Hall.
Qed.

Lemma purge_finished_ok :
  0 < CompletedMessageTTL p ->
  page_ok o retentionPurgePageSize (purge_finished_page (CompletedMessageTTL p)) gc_topic_inv pruned
    (fun _ _ => True) (fun t => size (tt_msgs t)).
Proof.
  intros Hp m t HI. unfold purge_finished_page. wp_step; [intros d; by apply no_fault|].
  destruct (delete_messages _ _) as [t' n] eqn:Hd.
  destruct (delete_messages_ok m t _ _ _ Hd) as (HI' & HR & Hz & _ & _); [|done|].
  { intros i x Hf. unfold finished_before in Hf. rewrite !andb_true_iff, !negb_true_iff, Z.ltb_lt in Hf.
    destruct Hf as [[[Hlt Hs] ?] _]. split; [done|]. intros k s Hk Hmid.
    rewrite has_sub_false in Hs. specialize (Hs k s Hk Hmid).
    apply negb_false_iff, bool_decide_eq_true in Hs. done. }
  exists t'. refine (conj eq_refl (conj HI' (conj HR (conj _ _)))); [lia|done].
Qed.

Lemma orphan_ok :
  page_ok o retentionPurgePageSize orphan_page gc_topic_inv pruned
    (fun e t => forall i x, tt_msgs t !! i = Some x -> orphan e t i x = false)
    (fun t => size (tt_msgs t)).
Proof.
  intros m t HI. unfold orphan_page. wp_step; [intros d; by apply no_fault|].
  destruct (delete_messages _ _) as [t' n] eqn:Hd.
  destruct (delete_messages_ok m t _ _ _ Hd) as (HI' & HR & Hz & Hdl & Hn); [|done|].
  { intros i x Hf. unfold orphan in Hf. rewrite !andb_true_iff, !negb_true_iff in Hf.
    split; [tauto|]. intros k s Hk Hmid. destruct Hf as [[Hs _] _]. rewrite has_sub_false in Hs.
    by specialize (Hs k s Hk Hmid). }
  exists t'. refine (conj eq_refl (conj HI' (conj HR (conj _ _)))); [lia|].
  intros Hlt i x Hi. specialize (Hn Hlt i x Hi). unfold orphan in *.
  destruct (dlq_references t' i) eqn:Hr'; [by rewrite andb_false_r|].
  assert (dlq_references t i = false) as Hr by (unfold dlq_references in *; by rewrite <-Hdl).
  rewrite Hr in Hn. cbn in *. rewrite andb_true_r in Hn |- *.
  apply andb_false_iff in Hn as [Hn|Hn]; [|by rewrite Hn, andb_false_r].
  apply andb_false_iff. left. apply negb_false_iff in Hn. apply negb_false_iff.
  destruct (has_sub (fun _ => true) t' i) eqn:Hs; [done|]. exfalso.
  assert (has_sub (fun _ => true) t i = false) as Hs'; [|congruence].
  apply has_sub_false. intros k s Hk Hmid. exfalso.
  rewrite has_sub_false in Hs. enough (tt_subs t' !! k = Some s) as Hk' by by specialize (Hs k s Hk' Hmid).
  unfold delete_messages in Hd. injection Hd as Hd _. subst t'. cbn in *.
  rewrite lookup_sql_delete_ids in Hi. case_decide as Hid; [done|].
  apply map_lookup_filter_Some. split; [done|]. cbn. by rewrite Hmid.
Qed.

(** A page of subscription deletions. *)
Lemma delete_subs_ok m t P ks ms n :
  delete_page P ks (tt_subs t) = (ms, n) ->
  (forall k s, tt_subs t !! k = Some s -> P k s = true -> sub_droppable t m (S m) s) ->
  gc_topic_inv m t ->
  gc_topic_inv (S m) (set_tt_subs ms t) /\ pruned (m, t) (S m, set_tt_subs ms t) /\
  (size ms + n = size (tt_subs t))%nat.
Proof.
  intros (Hs & Hz & Hl & _)%delete_page_spec HP HI.
  assert (pruned (m, t) (S m, set_tt_subs ms t)) as HR.
  { split_and!; cbn; [lia|done|done|done|eauto| |eauto]. intros k s Hk.
    destruct (Hl k s Hk) as [?|Hx]; [by left|right; by eapply HP]. }
  refine (conj _ (conj HR Hz)). eapply pruned_inv; [done..|].
  intros k s Hk. apply (proj1 (proj1 (proj1 HI)) k). by eapply lookup_weaken.
Qed.

Lemma purge_pending_subs_ok :
  0 < MaxPendingAge p ->
  page_ok o retentionPurgePageSize (purge_pending_subs_page (MaxPendingAge p)) gc_topic_inv pruned
    (fun _ _ => True) (fun t => size (tt_subs t)).
Proof.
  intros Hp m t HI. unfold purge_pending_subs_page. wp_step; [intros d; by apply no_fault|].
  destruct (delete_page _ _ _) as [ms n] eqn:Hd.
  destruct (delete_subs_ok m t _ _ _ _ Hd) as (HI' & HR & Hz); [|done|].
  { intros k s _ Hf. right. left. unfold pending_sub_before in Hf.
    rewrite !andb_true_iff, bool_decide_eq_true in Hf. destruct Hf as [[? Hx] _].
    destruct (tt_msgs t !! s_message_id s) as [x|]; [|done]. apply Z.ltb_lt in Hx.
    split_and!; [done..|]. exists x. split; [done|]. by apply during_here. }
  eexists. refine (conj eq_refl (conj HI' (conj HR (conj _ _)))); [cbn; lia|done].
Qed.

Lemma inactive_ok :
  page_ok o retentionPurgePageSize (inactive_page inactive) gc_topic_inv pruned
    (fun _ _ => True) (fun t => size (tt_subs t)).
Proof.
  intros m t HI. unfold inactive_page. wp_step; [intros d; by apply no_fault|].
  destruct (delete_page _ _ _) as [ms n] eqn:Hd.
  destruct (delete_subs_ok m t _ _ _ _ Hd) as (HI' & HR & Hz); [|done|].
  { intros k s _ Hf. right. right. unfold abandoned, not_in_flight in Hf.
    rewrite !andb_true_iff in Hf. destruct Hf as [[? Hn] _]. split; [done|]. intros Hst.
    rewrite (bool_decide_eq_true_2 _ Hst) in Hn. destruct (s_visibility_timeout s) as [v|]; [|done].
    exists v. split; [done|]. apply during_here. by apply Z.leb_le. }
  eexists. refine (conj eq_refl (conj HI' (conj HR (conj _ _)))); [cbn; lia|done].
Qed.

Lemma purge_topic_dlq_ok :
  0 < DLQRetention p ->
  page_ok o retentionPurgePageSize (stmt (fun e _ t =>
      let '(m, k) := delete_page (dead_before e (DLQRetention p)) (fun _ => 0) (tt_dlq t) in
      (Ok k, set_tt_dlq m t))) gc_topic_inv pruned
    (fun _ _ => True) (fun t => size (tt_dlq t)).
Proof.
  intros Hp m t HI. wp_step; [intros d; by apply no_fault|].
  destruct (delete_page _ _ _) as [ms n] eqn:Hd. apply delete_page_spec in Hd as (Hs & Hz & Hl & Hn).
  eexists. split; [done|]. assert (pruned (m, t) (S m, set_tt_dlq ms t)) as HR.
  { split_and!; cbn; [lia|done|done|done|eauto|eauto|]. intros i r Hi.
    destruct (Hl i r Hi) as [|Hx]; [by left|right]. unfold dead_before in Hx.
    rewrite andb_true_iff, Z.ltb_lt in Hx. split; [done|]. apply during_here. tauto. }
  refine (conj _ (conj HR (conj _ _))); [|cbn; lia|done].
  eapply pruned_inv; [done..|]. intros k s Hk. by apply (proj1 (proj1 (proj1 HI)) k).
Qed.

Lemma reset_subs_ok :
  page_ok o retentionPurgePageSize (reset_subs_page mr) gc_topic_inv subs_reclaimed
    (fun e t => forall k s, tt_subs t !! k = Some s -> resettable_sub mr e k s = false)
    (fun t => size (filter (fun x => sub_is_processing x.2 = true) (tt_subs t))).
Proof.
  intros m t (HI & Hf & Hp). unfold reset_subs_page. wp_step; [intros d; by apply no_fault|].
  destruct (update_page _ _ _ _) as [ms n] eqn:Hd.
  apply update_page_spec in Hd as (Hl & Hnone & Hdone & Hsz); [|done].
  assert (forall k s, resettable_sub mr (o m) k s = true ->
    sub_overdue (o m) k s /\ s_retry_count s < mr) as Hres.
  { intros k s [?%expired_sub_iff ?%Z.ltb_lt]%andb_true_iff. done. }
  assert (forall k q, ms !! k = Some q -> exists s, tt_subs t !! k = Some s /\
    s_message_id q = s_message_id s /\ s_subscriber_id q = s_subscriber_id s /\ sub_wf mr q) as Hback.
  { intros k q Hq. destruct (tt_subs t !! k) as [s|] eqn:Hk; [|by rewrite (Hnone k Hk) in Hq].
    exists s. split; [done|]. pose proof (proj1 (proj2 HI) k s Hk) as Hw.
    destruct (Hl k s Hk) as [Hr|[Hx%Hres Hr]]; rewrite Hr in Hq; injection Hq as <-; [done|].
    split_and!; [done..|]. split; [by split|]. destruct Hw as (_ & ? & ?). cbn. lia. }
  eexists. split; [done|].
  refine (conj (conj (conj _ (conj _ _)) (conj _ Hp))
    (conj (conj _ (conj _ (conj _ Hnone))) (conj _ Hdone))); cbn [fst snd].
  - split; cbn.
    + intros k q (s & Hk & -> & _)%Hback. by eapply (proj1 (proj1 HI)).
    + intros k k' q q' (s & Hk & -> & -> & _)%Hback (s' & Hk' & -> & -> & _)%Hback.
      by apply (proj2 (proj1 HI)).
  - intros k q (s & Hk & _ & _ & Hw)%Hback. done.
  - apply HI.
  - eapply fresh_from_sub; [|done..]. lia.
  - lia.
  - refine (conj eq_refl (conj _ _)); [done|]. intros k s Hk. left.
    destruct (Hl k s Hk) as [Hr|[_ Hr]]; by eexists.
  - intros k s Hk. destruct (Hl k s Hk) as [Hr|[Hx%Hres Hr]]; [by left|right].
    split; [apply during_here; tauto|by right].
  - cbn. rewrite <-(Hsz sub_is_processing); [lia|].
    intros k s [[Hx _] _]%Hres. unfold sub_is_processing. by rewrite Hx.
Qed.

Lemma wp_promote_subs m (rows : list (Z * subRow)) msgs n t
    (Q : unit -> nat -> option topicTables -> Prop) E :
  tt_msgs t = msgs -> NoDup rows.*1 ->
  (forall x, x ∈ rows -> tt_subs t !! x.1 = Some x.2 /\ sub_overdue (o m) x.1 x.2) ->
  topic_inv mr t -> dlq_parents t -> fresh_from o (S m) (tt_dlq t) ->
  (forall n' i, (n <= n')%nat -> tt_dlq t !! e_gen (o m) n' i = None) ->
  (forall n' t', gc_topic_inv (S m) t' -> subs_reclaimed (m, t) (S m, t') ->
     tt_subs t' = sql_delete_ids rows.*1 (tt_subs t) -> Q tt n' (Some t')) ->
  wp (o m) n (Some t) (for_each (fun x => moveSubToDLQ (s_message_id x.1) (s_subscriber_id x.1)
    errReasonVisibilityTimeout (mkSubState (s_retry_count x.1) (t_payload x.2) (t_metadata x.2)))
    (omap (fun x => (fun m => (x.2, m)) <$> msgs !! s_message_id x.2) rows)) Q E.
Proof.
  intros Hms. revert n t Hms Q. induction rows as [|[k s] rows IH]; intros n t Hms Q Hnd Hb HI Hp Hf Hg HQ.
  { cbn [omap list_omap for_each]. wp_step. apply HQ; [done| |].
    { refine (conj _ (conj _ (conj _ _))); [cbn; lia|apply topic_conserves_refl|eauto..]. }
    apply map_eq. intros j. rewrite lookup_sql_delete_ids, decide_False; [done|apply not_elem_of_nil]. }
  destruct (Hb (k, s) ltac:(left)) as (Hk & He). cbn [fst snd] in Hk, He.
  apply NoDup_cons in Hnd as [Hni Hnd].
  destruct (proj1 (proj1 HI) k s Hk) as [x Hx]. pose proof (proj1 (proj2 HI) k s Hk) as (_ & Hrc & Hmr).
  cbn [omap list_omap snd]. rewrite <-Hms, Hx. cbn [fmap option_fmap option_map for_each fst snd].
  wp_step. apply (wp_moveSubToDLQ _ _ _ k s x); [intros d; by apply no_fault|
    by rewrite errReasonVisibilityTimeout_ok|apply HI|done|lia| |].
  { split; [done|]. intros ? ? ? ? He'. apply Hgen in He'. tauto. }
  intros _. set (t1 := dead_letter_sub _ _ _ _ _ _ _ _).
  assert (subs_reclaimed (m, t) (S m, t1)) as HR1.
  { refine (conj _ (conj _ (conj _ _))); cbn [fst snd].
    - lia.
    - apply dead_letter_sub_conserves; [done..|apply Hg; lia].
    - intros j q Hj. destruct (decide (j = k)) as [->|Hne].
      + right. split; [apply during_here; congruence|]. left. cbn. apply lookup_delete_eq.
      + left. cbn. by rewrite lookup_delete_ne.
    - intros j Hj. cbn. by rewrite lookup_delete_None; right. }
  rewrite Hms. apply (IH _ t1); [done|done|..].
  - intros [j q] Hj. destruct (Hb (j, q) ltac:(by right)) as (Hjq & ?). split; [|done].
    cbn. rewrite lookup_delete_ne; [done|]. intros ->. apply Hni.
    apply list_elem_of_fmap. by exists (j, q).
  - apply dead_letter_sub_inv; [done|lia|apply errReasonVisibilityTimeout_ok].
  - intros j d. cbn. rewrite lookup_insert_Some. intros [[_ <-]|[_ Hj]]; [by eexists|by eapply Hp].
  - intros m' n' i Hm'. cbn. rewrite lookup_insert_ne; [by apply Hf|]. intros He'%Hgen. lia.
  - intros n' i Hn'. cbn. rewrite lookup_insert_ne; [apply Hg; lia|]. intros He'%Hgen. lia.
  - intros n' t' HI' HR' Hs. apply HQ; [done|by eapply subs_reclaimed_join|]. rewrite Hs.
    apply map_eq. intros j. rewrite !lookup_sql_delete_ids. cbn [t1 dead_letter_sub tt_subs].
    rewrite fmap_cons. cbn [fst].
    destruct (decide (j ∈ k :: rows.*1)) as [Hj|Hj]; rewrite elem_of_cons in Hj.
    + destruct (decide (j ∈ rows.*1)); [done|]. destruct Hj as [->|]; [apply lookup_delete_eq|done].
    + rewrite decide_False by tauto. apply lookup_delete_ne. intros ->. tauto.
Qed.

Lemma promote_subs_ok :
  page_ok o promoteExhaustedTopicSubscriptionsPageSize (promoteExhaustedTopicPage mr)
    gc_topic_inv subs_reclaimed
    (fun e t => forall k s, tt_subs t !! k = Some s -> expired_sub e k s && (mr <=? s_retry_count s) = false)
    (fun t => size (tt_subs t)).
Proof.
  intros m t (HI & Hf & Hp). unfold promoteExhaustedTopicPage, scanExhaustedTopicSubscriptions.
  wp_step. wp_step; [intros d; by apply no_fault|].
  destruct (page_ids promoteExhaustedTopicSubscriptionsPageSize (exhausted_sub mr (o m) t)
    (fun _ => 0) (tt_subs t)) as (Hnd & Hin & Hall).
  set (rows := sql_select_limit _ _ _ _) in *.
  assert (length (omap (fun x => (fun m => (x.2, m)) <$> tt_msgs t !! s_message_id x.2) rows)
    = length rows) as Hlen.
  { assert (forall x, x ∈ rows -> is_Some (tt_msgs t !! s_message_id x.2)) as Hsome.
    { intros [k s] Hx. pose proof (elem_of_sublist _ _ _ Hx (sublist_take _ _))
        as [Hk _]%elem_of_sql_select. by apply (proj1 (proj1 HI) k). }
    clear -Hsome. induction rows as [|x rows IH]; [done|]. cbn.
    destruct (Hsome x ltac:(left)) as [y Hy]. rewrite Hy. cbn. f_equal. apply IH.
    intros z Hz. apply Hsome. by right. }
  wp_step. apply (wp_promote_subs m rows (tt_msgs t)); [done|done| |done|done| | |].
  - intros [k s] Hx. cbn [fst snd]. pose proof (elem_of_sublist _ _ _ Hx (sublist_take _ _))
      as [Hk [[He%expired_sub_iff _]%andb_true_iff _]%andb_true_iff]%elem_of_sql_select. done.
  - eapply fresh_from_sub; [|done..]. lia.
  - intros n' i _. by apply Hf.
  - intros n' t' HI' HR Hs. wp_step. rewrite Hlen. eexists. split; [done|].
    refine (conj HI' (conj HR (conj _ _))).
    + rewrite Hs, <-(length_fmap fst). rewrite (size_removed (tt_subs t) _ rows.*1);
        [lia|done| |apply delete_ids_dom]. intros i (r & ? & _)%Hin. by eexists.
    + intros Hn k s. rewrite Hs, lookup_sql_delete_ids. case_decide as Hid; [done|]. intros Hk.
      destruct (expired_sub (o m) k s && (mr <=? s_retry_count s)) eqn:Hx; [|done]. exfalso. apply Hid.
      rewrite <-(length_fmap fst) in Hn. eapply Hall; [done..|].
      unfold exhausted_sub. rewrite Hx. cbn. apply bool_decide_eq_true_2. by apply (proj1 (proj1 HI) k).
Qed.

(** *** The pass *)

Lemma iwp_topic_loop sz body I Rel Dn mu page (t : string) d w tt (Q : Z -> world -> Prop) E :
  (0 < sz)%nat -> Reflexive Rel -> Transitive Rel ->
  page_ok o sz body I Rel Dn mu ->
  (forall e y, let d' := set_topics (<[t := y]> (db_topics d)) d in
     page e 0%nat (Some d') = on_topic t body e 0%nat (Some d')) ->
  I (w_tick w) tt -> w_db w = set_topics (<[t := tt]> (db_topics d)) d ->
  (mu tt <= size (tt_msgs tt) + size (tt_subs tt) + size (tt_dlq tt))%nat ->
  (forall k m tt' w', Rel (w_tick w, tt) (w_tick w', tt') -> (w_tick w <= m < w_tick w')%nat ->
     Dn (o m) tt' -> I (w_tick w') tt' ->
     w_db w' = set_topics (<[t := tt']> (db_topics d)) d -> Q k w') ->
  iwp o w (page_loop sz t page) Q E.
Proof.
  intros Hsz HR HT Hok Hpage HI Hdb Hmu HQ. unfold page_loop. do 2 iwp_step.
  eapply (iwp_paged (get := fun d => db_topics d !! t)
    (put := fun x d => set_topics (<[t := x]> (db_topics d)) d)); [done..| |exact HQ].
  rewrite Hdb. unfold queue_rows. cbn. rewrite lookup_insert_eq. lia.
Qed.

(** A loop of a purge, under a policy duration that may switch it off. *)
Lemma iwp_when_pruned (dur : Duration) purge total meta d w tt (Q : Z -> world -> Prop) E :
  gc_topic_inv (w_tick w) tt -> w_db w = put_topic meta tt d ->
  (forall Q', 0 < dur -> (forall k w' tt', pruned (w_tick w, tt) (w_tick w', tt') -> gc_topic_inv (w_tick w') tt' ->
     w_db w' = put_topic meta tt' d -> Q' k w') -> iwp o w (purge dur) Q' E) ->
  (forall k w' tt', pruned (w_tick w, tt) (w_tick w', tt') -> gc_topic_inv (w_tick w') tt' ->
     w_db w' = put_topic meta tt' d -> Q k w') ->
  iwp o w (when_positive dur purge total) Q E.
Proof.
  intros HI Hdb Hpurge HQ. unfold when_positive. destruct (Z.ltb_spec 0 dur) as [Hd|Hd].
  - iwp_step. apply Hpurge; [done|]. intros k w' tt' HR HI' Hw. iwp_step. by eapply HQ.
  - iwp_step. eapply HQ; [apply pruned_refl|done..].
Qed.

Lemma iwp_topic_retention meta d w tt (Q : Z -> world -> Prop) E :
  q_QueueType meta = QueueTypePubSub -> db_channels d !! q_TableName meta = None ->
  gc_topic_inv (w_tick w) tt -> w_db w = put_topic meta tt d ->
  (forall k w' tt', pruned (w_tick w, tt) (w_tick w', tt') -> gc_topic_inv (w_tick w') tt' ->
     w_db w' = put_topic meta tt' d -> Q k w') ->
  iwp o w (applyRetentionPolicy meta p) Q E.
Proof.
  intros Hqt Hch HI Hdb HQ. unfold applyRetentionPolicy. rewrite Hqt.
  assert ((0 < retentionPurgePageSize)%nat) as Hsz by (unfold retentionPurgePageSize; lia).
  iwp_step. eapply iwp_when_pruned; [done..| |].
  { intros Q' Hd HQ'. eapply iwp_topic_loop; [done|apply pruned_refl|apply pruned_trans|
      by apply purge_finished_ok|done|done|exact Hdb|lia|]. intros k m tt' w' HR _ _. by apply HQ'. }
  intros k1 w1 tt1 HR1 HI1 Hw1. iwp_step. eapply iwp_when_pruned; [done..| |].
  { intros Q' Hd HQ'. eapply iwp_topic_loop; [done|apply pruned_refl|apply pruned_trans|
      by apply purge_pending_subs_ok|done|done|exact Hw1|lia|]. intros k m tt' w' HR _ _. by apply HQ'. }
  intros k2 w2 tt2 HR2 HI2 Hw2. eapply iwp_when_pruned; [done..| |].
  { intros Q' Hd HQ'. eapply iwp_topic_loop; [done|apply pruned_refl|apply pruned_trans|
      by apply purge_topic_dlq_ok| |done|exact Hw2|lia|].
    { intros e y d'. unfold on_dlq, d'. cbn. by rewrite Hch. }
    intros k m tt' w' HR _ _. by apply HQ'. }
  intros k3 w3 tt3 HR3 HI3 Hw3. eapply HQ; [|done..].
  eapply pruned_trans; [done|]. by eapply pruned_trans.
Qed.

(** Reclaiming makes no orphan: a subscription it removes left a dead letter. *)
Lemma reclaimed_no_orphan e a b t t' :
  subs_reclaimed (a, t) (b, t') ->
  (forall i x, tt_msgs t !! i = Some x -> orphan e t i x = false) ->
  forall i x, tt_msgs t' !! i = Some x -> orphan e t' i x = false.
Proof.
  intros (_ & (Hm & Hd & Hs) & _) Ho i x Hi. cbn [fst snd] in *. rewrite Hm in Hi. specialize (Ho i x Hi).
  destruct (orphan e t' i x) eqn:Hx; [|done]. exfalso.
  unfold orphan in Hx, Ho. rewrite !andb_true_iff, !negb_true_iff in Hx.
  destruct Hx as [[Hns Hnd] Hu]. rewrite Hu, andb_true_r in Ho.
  assert (dlq_references t i = false) as Hr.
  { apply dlq_references_false. intros k d Hk. rewrite dlq_references_false in Hnd.
    eapply (Hnd k). by eapply lookup_weaken. }
  rewrite Hr, andb_true_r in Ho. apply negb_false_iff in Ho.
  assert (has_sub (fun _ => true) t i = false) as Hf; [|congruence].
  apply has_sub_false. intros k s Hk Hmid. exfalso. rewrite has_sub_false in Hns.
  destruct (Hs k s Hk) as [(s' & Hk' & ? & _)|(j & dl & y & Hj & _ & Hoid & _)].
  - assert (true = false) by (apply (Hns k s' Hk'); congruence). done.
  - rewrite dlq_references_false in Hnd. apply (Hnd j dl Hj). congruence.
Qed.

Lemma subs_reclaimed_back x x' k s :
  subs_reclaimed x x' -> tt_subs x'.2 !! k = Some s ->
  tt_subs x.2 !! k = Some s \/ s_status s = MessageStatusPending.
Proof.
  intros (_ & _ & H2 & H3) Hk. destruct (tt_subs x.2 !! k) as [q|] eqn:Hq.
  - destruct (H2 k q Hq) as [?|(_ & [?|Hr])]; [left; congruence|congruence|].
    right. rewrite Hr in Hk. by injection Hk as <-.
  - rewrite (H3 k Hq) in Hk. done.
Qed.

(** A subscription or a dead letter of message [i] is left. *)
Definition referenced (t : topicTables) (i : Z) : Prop :=
  (exists k s, tt_subs t !! k = Some s /\ s_message_id s = i) \/
  (exists k d, tt_dlq t !! k = Some d /\ d_original_message_id d = i).

Lemma orphan_false e t i x : orphan e t i x = false -> i ∉ e_locked e -> referenced t i.
Proof.
  unfold orphan. rewrite !andb_false_iff, !negb_false_iff. intros [[Hs|Hd]|Hu] Hl.
  - left. unfold has_sub in Hs. apply existsb_exists in Hs as ([k s] & Hin & Hb).
    apply list_elem_of_In, elem_of_map_to_list in Hin. cbn in Hb.
    apply andb_true_iff in Hb as [Hb%Z.eqb_eq _]. by exists k, s.
  - right. unfold dlq_references in Hd. apply existsb_exists in Hd as ([k d] & Hin & Hb).
    apply list_elem_of_In, elem_of_map_to_list in Hin. apply Z.eqb_eq in Hb. by exists k, d.
  - apply unlocked_true in Hl. congruence.
Qed.

Lemma put_topic_same meta d tt :
  db_topics d !! q_TableName meta = Some tt -> d = put_topic meta tt d.
Proof. intros Htt. unfold put_topic. rewrite insert_id by done. by destruct d. Qed.

End gc_topic.

Lemma iwp_collect_topic `{Server} cfg o gc meta d w tt (Q : Z * Z -> world -> Prop) E :
  let p := getPolicy gc (q_QueueName meta) in
  let inactive := is_inactive (q_QueueName meta) d in
  let mr := resolveMaxRetries cfg meta in
  reliable o -> gen_distinct o ->
  q_QueueType meta = QueueTypePubSub -> db_channels d !! q_TableName meta = None ->
  gc_topic_inv o mr (w_tick w) tt -> w_db w = put_topic meta tt d ->
  (forall k w' tick1 tt1 tt',
     pruned o inactive p (w_tick w, tt) (tick1, tt1) ->
     subs_reclaimed o (tick1, tt1) (w_tick w', tt') -> topic_inv mr tt' -> dlq_parents tt' ->
     during o (w_tick w) (w_tick w') (fun e => forall i x, tt_msgs tt' !! i = Some x ->
       i ∉ e_locked e -> referenced tt' i) ->
     during o (w_tick w) (w_tick w') (fun e => forall k s, tt_subs tt' !! k = Some s ->
       sub_overdue e k s -> s_retry_count s < mr) ->
     during o (w_tick w) (w_tick w') (fun e => forall k s, tt_subs tt' !! k = Some s ->
       sub_overdue e k s -> mr <= s_retry_count s) ->
     w_db w' = put_topic meta tt' d -> Q k w') ->
  iwp o w (doCollectQueue cfg gc meta) Q E.
Proof.
  intros p inactive mr Hrel Hgen Hqt Hch HI Hdb HQ. unfold doCollectQueue. iwp_step.
  assert ((0 < retentionPurgePageSize)%nat) as Hsz by (unfold retentionPurgePageSize; lia).
  apply (iwp_topic_retention o mr inactive p Hrel meta d w tt); [done..|].
  intros n1 w1 tt1 HR1 HI1 Hw1. rewrite Hqt.
  rewrite (bool_decide_eq_true_2 (QueueTypePubSub = QueueTypePubSub)) by done.
  rewrite (bool_decide_eq_false_2 (QueueTypePubSub = QueueTypeChannel)) by done. do 2 iwp_step.
  eapply (iwp_topic_loop o Hrel); [done|apply (pruned_refl o inactive p)|apply pruned_trans|
    apply (inactive_ok o mr inactive p Hrel)| |exact HI1|exact Hw1|lia|].
  { intros e y d'. done. }
  intros n2 m2 tt2 w2 HR2 _ _ HI2 Hw2. iwp_step.
  eapply (iwp_topic_loop o Hrel); [done|apply (pruned_refl o inactive p)|apply pruned_trans|
    apply (orphan_ok o mr inactive p Hrel)|done|exact HI2|exact Hw2|lia|].
  intros n3 m3 tt3 w3 HR3 Hm3 HD3 HI3 Hw3. iwp_step.
  eapply (iwp_topic_loop o Hrel); [|apply (subs_reclaimed_refl o)|apply subs_reclaimed_trans|
    apply (promote_subs_ok o mr Hrel Hgen)|done|exact HI3|exact Hw3|lia|].
  { unfold promoteExhaustedTopicSubscriptionsPageSize. lia. }
  intros n4 m4 tt4 w4 HR4 Hm4 HD4 HI4 Hw4. do 4 iwp_step. unfold resetTimedOutEntries. rewrite Hqt.
  eapply (iwp_topic_loop o Hrel); [done|apply (subs_reclaimed_refl o)|apply subs_reclaimed_trans|
    apply (reset_subs_ok o mr Hrel)|done|exact HI4|exact Hw4|cbn|].
  { pose proof (map_size_filter (fun x : Z * subRow => sub_is_processing x.2 = true) (tt_subs tt4)).
    lia. }
  intros n5 m5 tt5 w5 HR5 Hm5 HD5 HI5 Hw5. iwp_step.
  assert (subs_reclaimed o (w_tick w3, tt3) (w_tick w5, tt5)) as HR35
    by by eapply subs_reclaimed_trans.
  pose proof (proj1 HR1) as T1. pose proof (proj1 HR2) as T2. pose proof (proj1 HR3) as T3.
  pose proof (proj1 HR4) as T4. pose proof (proj1 HR5) as T5. cbn in T1, T2, T3, T4, T5.
  apply (HQ _ _ (w_tick w3) tt3 tt5); [|done|apply HI5|apply HI5| | | |exact Hw5].
  - eapply pruned_trans; [exact HR1|]. by eapply pruned_trans.
  - exists m3. split; [lia|]. intros i x Hi. eapply orphan_false. by eapply reclaimed_no_orphan.
  - exists m4. split; [lia|]. intros i s Hi Ho.
    destruct (subs_reclaimed_back _ _ _ _ _ HR5 Hi) as [Hi4|Hst].
    + specialize (HD4 i s Hi4). rewrite (proj2 (expired_sub_iff _ _ _) Ho) in HD4.
      by apply Z.leb_gt in HD4.
    + destruct Ho as [Ho _]. congruence.
  - exists m5. split; [lia|]. intros i s Hi Ho. specialize (HD5 i s Hi). unfold resettable_sub in HD5.
    rewrite (proj2 (expired_sub_iff _ _ _) Ho) in HD5. by apply Z.ltb_ge in HD5.
Qed.

(** ** Properties *)

(** Of message 5, Alice's copy is in flight and Bob's is pending; Carol's copy of
    message 7 timed out with no attempt left; nobody subscribes to message 6. *)
Definition gc_topic_tables : topicTables :=
  mkTopicTables
    (<[5 := mkTopicRow [Byte.x61] 0 None]> (<[6 := mkTopicRow [Byte.x62] 0 None]>
      {[7 := mkTopicRow [Byte.x63] 0 None]}))
    (<[10 := mkSubRow 5 "alice" MessageStatusProcessing 0 None (Some (10 ^ 15)) 0 (Some 77) 0 None]>
     (<[11 := mkSubRow 5 "bob" MessageStatusPending 0 None None 0 None 0 None]>
      {[12 := mkSubRow 7 "carol" MessageStatusProcessing 0 None (Some 10) 0 (Some 78) 3 None]})) ∅.
Definition gc_topic_world : world :=
  new_world (put_topic sample_topic_meta gc_topic_tables empty_DB).

Lemma gc_topic_tables_inv : topic_inv 3 gc_topic_tables.
Proof.
  assert (3 < int64_max) by (unfold int64_max; lia).
  refine (conj (conj _ _) (conj _ _)); cbn.
  - intros k s. rewrite !lookup_insert_Some, lookup_singleton_Some.
    intros [[_ <-]|[_ [[_ <-]|[_ [_ <-]]]]]; by eexists.
  - intros k k' s s'. rewrite !lookup_insert_Some, !lookup_singleton_Some.
    intros [[<- <-]|[_ [[<- <-]|[_ [<- <-]]]]] [[<- <-]|[_ [[<- <-]|[_ [<- <-]]]]]; done.
  - intros k s. rewrite !lookup_insert_Some, lookup_singleton_Some.
    intros [[_ <-]|[_ [[_ <-]|[_ [_ <-]]]]];
      (split; [split; first [done | by eexists]|cbn; lia]).
  - intros k d Hk. by rewrite lookup_empty in Hk.
Qed.

(** C12: a collection pass over a topic is safe: every dead letter that is left still
    has its message, so it stays replayable; a delivery whose deadline does not pass
    during the pass is left exactly as it is; a subscription is dropped only when, at
    a step of the pass, its message was older than CompletedMessageTTL and it was
    acked, or older than MaxPendingAge and it was pending, with that duration set, or
    when its subscriber has unsubscribed and it is not in flight: every other one is
    still there, or dead-lettered for its subscriber with the message's payload and
    metadata; and a dead letter is dropped only past DLQRetention. *)
Theorem gc_topic_safe `{Server} (cfg : queueConfig) (gc : GarbageCollectorConfig) (o : oracle)
    (w : world) (meta : queueMetadata) (tt : topicTables) :
  reliable o -> gen_distinct o -> q_QueueType meta = QueueTypePubSub ->
  db_channels (w_db w) !! q_TableName meta = None ->
  db_topics (w_db w) !! q_TableName meta = Some tt ->
  topic_inv (resolveMaxRetries cfg meta) tt -> dlq_parents tt -> fresh_from o (w_tick w) (tt_dlq tt) ->
  let p := getPolicy gc (q_QueueName meta) in
  exists counts w' tt', doCollectQueue cfg gc meta o w = (Ok counts, w') /\
    w_db w' = put_topic meta tt' (w_db w) /\
    topic_inv (resolveMaxRetries cfg meta) tt' /\ dlq_parents tt' /\
    let a := w_tick w in let b := w_tick w' in
    (forall k s, tt_subs tt !! k = Some s -> sub_in_flight o a b s -> tt_subs tt' !! k = Some s) /\
    (forall k s, tt_subs tt !! k = Some s ->
       (exists s', tt_subs tt' !! k = Some s' /\ s_message_id s' = s_message_id s /\
          s_subscriber_id s' = s_subscriber_id s) \/
       (exists j d x, tt_dlq tt' !! j = Some d /\ tt_msgs tt !! s_message_id s = Some x /\
          d_original_message_id d = s_message_id s /\
          d_subscriber_id d = Some (s_subscriber_id s) /\
          d_payload d = t_payload x /\ d_metadata d = t_metadata x) \/
       (s_status s = MessageStatusAcked /\ 0 < CompletedMessageTTL p /\
          exists x, tt_msgs tt !! s_message_id s = Some x /\
            older o a b (CompletedMessageTTL p) (t_created_at x)) \/
       (s_status s = MessageStatusPending /\ 0 < MaxPendingAge p /\
          exists x, tt_msgs tt !! s_message_id s = Some x /\
            older o a b (MaxPendingAge p) (t_created_at x)) \/
       (is_inactive (q_QueueName meta) (w_db w) (s_subscriber_id s) = true /\
          (s_status s = MessageStatusProcessing ->
           exists v, s_visibility_timeout s = Some v /\ during o a b (fun e => v <= e_now e)))) /\
    (forall k d, tt_dlq tt !! k = Some d -> tt_dlq tt' !! k = Some d \/
       (0 < DLQRetention p /\ older o a b (DLQRetention p) (d_moved_at d))).
Proof.
  intros Hrel Hgen Hqt Hch Htt Hinv Hpar Hfr p.
  assert (iwp o w (doCollectQueue cfg gc meta)
    (fun _ w' => exists t1 tt1 tt', w_db w' = put_topic meta tt' (w_db w) /\
       topic_inv (resolveMaxRetries cfg meta) tt' /\ dlq_parents tt' /\
       pruned o (is_inactive (q_QueueName meta) (w_db w)) p (w_tick w, tt) (t1, tt1) /\
       subs_reclaimed o (t1, tt1) (w_tick w', tt'))
    (fun _ _ => False)) as Hi.
  { eapply (iwp_collect_topic cfg o gc meta (w_db w) w tt); [done..|by apply put_topic_same|].
    intros k w' t1 tt1 tt' HR1 HR2 Hi Hp _ _ _ Hw. by exists t1, tt1, tt'. }
  unfold iwp in Hi. destruct (doCollectQueue cfg gc meta o w) as [[c|x] w']; [|done].
  destruct Hi as (t1 & tt1 & tt' & Hw & Hi & Hp & (T1 & Hms & _ & _ & _ & Hs & Hd) &
    (T2 & (_ & Hdl & Hc) & Hu & _)). cbn [fst snd] in *.
  exists c, w', tt'. refine (conj eq_refl (conj Hw (conj Hi (conj Hp (conj _ (conj _ _)))))).
  - intros k s Hk (Hst & v & Hv & Hnow).
    destruct (Hs k s Hk) as [Hk1|[[Hbad _]|[[Hbad _]|(_ & Hv')]]]; [|congruence..|].
    + destruct (Hu k s Hk1) as [?|((m & Hm & _ & _ & u & Hu' & Hlt) & _)]; [done|]. exfalso.
      specialize (Hnow m ltac:(lia)). assert (u = v) by congruence. lia.
    + exfalso. destruct (Hv' Hst) as (u & Hu' & m & Hm & Hle).
      specialize (Hnow m ltac:(lia)). assert (u = v) by congruence. lia.
  - intros k s Hk. destruct (Hs k s Hk) as [Hk1|Hdrop].
    + destruct (Hc k s Hk1) as [?|(j & d & y & Hj & Hy & ?)]; [by left|right; left].
      exists j, d, y. split; [done|]. split; [by eapply lookup_weaken|done].
    + right. right. by eapply sub_droppable_mono.
  - intros k d Hk. destruct (Hd k d Hk) as [Hk1|[? ?]]; [left; by eapply lookup_weaken|right].
    split; [done|]. by eapply older_mono.
Qed.

Lemma gc_topic_safe_witness :
  exists counts w' tt',
    doCollectQueue (H := truncating_server) sample_cfg gc_default sample_topic_meta distinct_oracle
      gc_topic_world = (Ok counts, w') /\ dlq_parents tt' /\
    w_db w' = put_topic sample_topic_meta tt' (w_db gc_topic_world) /\ counts = (1, 1).
Proof.
  destruct (gc_topic_safe (H := truncating_server) sample_cfg gc_default distinct_oracle gc_topic_world
    sample_topic_meta gc_topic_tables distinct_oracle_reliable distinct_oracle_distinct eq_refl eq_refl
    eq_refl gc_topic_tables_inv
    ltac:(intros k d Hk; cbn in Hk; by rewrite lookup_empty in Hk) (gc_fresh_empty _ _))
    as (c & w' & tt' & Heq & Hw & _ & Hp & _).
  exists c, w', tt'. split; [exact Heq|]. split; [exact Hp|]. split; [exact Hw|].
  assert (match fst (doCollectQueue (H := truncating_server) sample_cfg gc_default sample_topic_meta
    distinct_oracle gc_topic_world) with Ok c => c | Err _ => (0, 0) end = (1, 1)) as Hc
    by (vm_compute; reflexivity).
  rewrite Heq in Hc. exact Hc.
Defined.

(** A collection pass over a topic is thorough: at one of its steps every message
    still there had a subscription or a dead letter, so that none is left that nobody
    can ever receive or replay; at one of its steps every overdue subscription still
    there had an attempt left, and at one of its steps every one had none. Rows
    another transaction has locked at that step are skipped. *)
Theorem gc_topic_thorough `{Server} (cfg : queueConfig) (gc : GarbageCollectorConfig) (o : oracle)
    (w : world) (meta : queueMetadata) (tt : topicTables) :
  reliable o -> gen_distinct o -> q_QueueType meta = QueueTypePubSub ->
  db_channels (w_db w) !! q_TableName meta = None ->
  db_topics (w_db w) !! q_TableName meta = Some tt ->
  topic_inv (resolveMaxRetries cfg meta) tt -> dlq_parents tt -> fresh_from o (w_tick w) (tt_dlq tt) ->
  let mr := resolveMaxRetries cfg meta in
  exists counts w' tt', doCollectQueue cfg gc meta o w = (Ok counts, w') /\
    w_db w' = put_topic meta tt' (w_db w) /\
    let a := w_tick w in let b := w_tick w' in
    during o a b (fun e => forall i x, tt_msgs tt' !! i = Some x -> i ∉ e_locked e ->
      (exists k s, tt_subs tt' !! k = Some s /\ s_message_id s = i) \/
      (exists k d, tt_dlq tt' !! k = Some d /\ d_original_message_id d = i)) /\
    during o a b (fun e => forall k s, tt_subs tt' !! k = Some s -> sub_overdue e k s ->
      s_retry_count s < mr) /\
    during o a b (fun e => forall k s, tt_subs tt' !! k = Some s -> sub_overdue e k s ->
      mr <= s_retry_count s).
Proof.
  intros Hrel Hgen Hqt Hch Htt Hinv Hpar Hfr mr.
  assert (iwp o w (doCollectQueue cfg gc meta) (fun _ w' => exists tt',
      w_db w' = put_topic meta tt' (w_db w) /\
      during o (w_tick w) (w_tick w') (fun e => forall i x, tt_msgs tt' !! i = Some x ->
        i ∉ e_locked e -> referenced tt' i) /\
      during o (w_tick w) (w_tick w') (fun e => forall k s, tt_subs tt' !! k = Some s ->
        sub_overdue e k s -> s_retry_count s < mr) /\
      during o (w_tick w) (w_tick w') (fun e => forall k s, tt_subs tt' !! k = Some s ->
        sub_overdue e k s -> mr <= s_retry_count s)) (fun _ _ => False)) as Hi.
  { eapply (iwp_collect_topic cfg o gc meta (w_db w) w tt); [done..|by apply put_topic_same|].
    intros k w' t1 tt1 tt' _ _ _ _ H0 H1 H2 Hw. exists tt'.
    exact (conj Hw (conj H0 (conj H1 H2))). }
  unfold iwp in Hi. destruct (doCollectQueue cfg gc meta o w) as [[c|x] w']; [|done].
  destruct Hi as (tt' & Hi). by exists c, w', tt'.
Qed.

(** Message 6 is purged; Carol's copy of 7 is dead-lettered. *)
Lemma gc_topic_thorough_witness :
  exists counts w' tt',
    doCollectQueue (H := truncating_server) sample_cfg gc_default sample_topic_meta distinct_oracle
      gc_topic_world = (Ok counts, w') /\
    w_db w' = put_topic sample_topic_meta tt' (w_db gc_topic_world) /\ tt_msgs tt' !! 6 = None.
Proof.
  destruct (gc_topic_thorough (H := truncating_server) sample_cfg gc_default distinct_oracle
    gc_topic_world sample_topic_meta gc_topic_tables distinct_oracle_reliable distinct_oracle_distinct
    eq_refl eq_refl eq_refl gc_topic_tables_inv
    ltac:(intros k d Hk; cbn in Hk; by rewrite lookup_empty in Hk) (gc_fresh_empty _ _))
    as (c & w' & tt' & Heq & Hw & _).
  exists c, w', tt'. split; [exact Heq|]. split; [exact Hw|].
  assert (match db_topics (w_db (snd (doCollectQueue (H := truncating_server) sample_cfg gc_default
    sample_topic_meta distinct_oracle gc_topic_world))) !! q_TableName sample_topic_meta with
    | Some t => bool_decide (tt_msgs t !! 6 = None) | None => false end = true) as Hc
    by (vm_compute; reflexivity).
  rewrite Heq in Hc. cbn [snd] in Hc. rewrite Hw in Hc. unfold put_topic in Hc.
  cbn [db_topics set_topics] in Hc. rewrite lookup_insert_eq in Hc.
  exact (bool_decide_eq_true_1 _ Hc).
Defined.
