(* ===== verification/Replay.v ===== *)
(** * Replay and dead-letter access ([replay.go], [dlq.go])

    Resetting delivered messages to pending ([ReplayFrom], [ReplayMessage]), moving
    dead letters back to their queue ([ReplayDLQ]) and listing them
    ([ListDLQMessages]).  Every replay writes an audit row in the transaction of the
    page it describes.  A page loop runs with as much fuel as the queue has rows. *)

From S2P Require Import Prelude Types Tx Utf8 MetadataCache World Config Queries Channel Publish PubSub Gc GcChannel.
From Stdlib Require Import ZArith Lia.
Local Open Scope Z_scope.

(** ** Options *)

Record ReplayOptions := mkReplayOptions {
  DryRun : bool;
  Limit : Z;
  PerformedBy : string
}.

Definition DefaultReplayHistoryLimit : Z := 100.
Definition MaxPerformedByLen : nat := 256.

(** [unicode.IsControl] of the rune at the head of [s], [w] bytes wide: U+0000 to
    U+001F and U+007F to U+009F. *)
Definition is_control (s : bytes) (w : nat) : bool :=
  match w, s with
  | 1%nat, b :: _ => (byte_val b <? 32) || (byte_val b =? 127)
  | 2%nat, b0 :: b1 :: _ => (byte_val b0 =? 0xC2) && (byte_val b1 <? 0xA0)
  | _, _ => false
  end.

(** [strings.ContainsFunc(s, unicode.IsControl)]: an invalid byte is the rune
    U+FFFD, which is no control character. *)
Fixpoint contains_control (fuel : nat) (s : bytes) : bool :=
  match s, fuel with
  | [], _ => false
  | _, O => false
  | _ :: s1, S fuel =>
      match rune_width s with
      | O => contains_control fuel s1
      | w => is_control s w || contains_control fuel (drop w s)
      end
  end.

Definition validateReplayOpts (opts : ReplayOptions) : result unit :=
  let by_ := String.list_byte_of_string (PerformedBy opts) in
  if Limit opts <? 0 then Err ErrInvalidConfig
  else if (MaxPerformedByLen <? length by_)%nat then Err ErrInvalidPerformedBy
  else if contains_control (length by_) by_ then Err ErrInvalidPerformedBy
  else Ok tt.

Definition getReplayQueueMetadata (queueType : QueueType) (queueName : string) : io queueMetadata :=
  map_err (not_found_as ErrQueueNotFound) (getQueueMetadata queueType queueName).

Definition writeReplayLog (queueName : string) (queueType : QueueType) (operation : string)
    (count : Z) (performedBy : string) : tx DB unit :=
  createReplayLog queueType queueName operation count
    (if bool_decide (performedBy = "") then None else Some performedBy).

(** ** Replaying from a timestamp *)

Definition defaultReplayPageSize : Z := 100.

(** [status != 'pending' AND status != 'processing'] *)
Definition settled (st : MessageStatus) : bool :=
  negb (bool_decide (st = MessageStatusPending)) && negb (bool_decide (st = MessageStatusProcessing)).

(** [created_at >= $1 AND status ...] on a channel, and on a topic, where the time
    is that of the joined message. *)
Definition replayable (since : timestamp) (r : channelRow) : bool :=
  (since <=? c_created_at r) && settled (c_status r).
Definition replayable_sub (since : timestamp) (t : topicTables) (s : subRow) : bool :=
  match tt_msgs t !! s_message_id s with
  | Some m => (since <=? t_created_at m) && settled (s_status s)
  | None => false
  end.

Definition countReplayableMessages (tableName : string) (queueType : QueueType) (since : timestamp) :
    io Z :=
  autocommit (
    if bool_decide (queueType = QueueTypePubSub) then
      on_topic tableName (query (fun _ t =>
        Ok (Z.of_nat (sql_count (fun _ => replayable_sub since t) (tt_subs t)))))
    else
      on_channel tableName (query (fun _ t =>
        Ok (Z.of_nat (sql_count (fun _ => replayable since) (ct_msgs t)))))).

(** [$3::uuid IS NULL OR id > $3], where the nil UUID is passed as NULL. *)
Definition past (afterID : uuid) (i : Z) : bool := (afterID =? nil_uuid) || (afterID <? i).

Definition fetchReplayCandidateIDs (tableName : string) (queueType : QueueType) (since : timestamp)
    (afterID : uuid) (pageLimit : Z) : tx DB (list uuid) :=
  if bool_decide (queueType = QueueTypeChannel) then
    on_channel tableName (query (fun _ t => Ok (sql_select_limit (Z.to_nat pageLimit)
      (fun i r => replayable since r && past afterID i) (fun _ => 0) (ct_msgs t)).*1))
  else
    on_topic tableName (query (fun _ t => Ok (sql_select_limit (Z.to_nat pageLimit)
      (fun i s => replayable_sub since t s && past afterID i) (fun _ => 0) (tt_subs t)).*1)).

Definition replay_row (r : channelRow) : channelRow :=
  mkChannelRow (c_payload r) (c_created_at r) MessageStatusPending 0 (c_max_retries r) None
    (c_available_at r) None None None (c_metadata r).
Definition replay_sub (s : subRow) : subRow :=
  mkSubRow (s_message_id s) (s_subscriber_id s) MessageStatusPending (s_created_at s) None None
    (s_available_at s) None 0 None.

(** [UPDATE ... SET f WHERE id = ANY(ids) AND P]: the table after, the rows affected. *)
Definition update_any {R} (ids : list uuid) (P : R -> bool) (f : R -> R) (m : gmap Z R) :
    gmap Z R * nat :=
  let hit := (sql_select (fun i r => bool_decide (i ∈ ids) && P r) (fun _ => 0) m).*1 in
  (sql_update_ids hit f m, length hit).

(** The UPDATE of [applyReplayFrom], on a channel and on a topic. *)
Definition replay_rows (ids : list uuid) : tx channelTables Z :=
  stmt (fun _ _ t =>
    let '(m, n) := update_any ids (fun r => settled (c_status r)) replay_row (ct_msgs t) in
    (Ok (Z.of_nat n), set_ct_msgs m t)).
Definition replay_subs (ids : list uuid) : tx topicTables Z :=
  stmt (fun _ _ t =>
    let '(m, n) := update_any ids (fun s => settled (s_status s)) replay_sub (tt_subs t) in
    (Ok (Z.of_nat n), set_tt_subs m t)).

Definition applyReplayFrom (tableName : string) (queueType : QueueType) (ids : list uuid) :
    tx DB Z :=
  if bool_decide (queueType = QueueTypeChannel) then
    on_channel tableName (replay_rows ids)
  else on_topic tableName (replay_subs ids).

(** [replayFromPageResult] and [dlqPageResult], two structs with the same fields. *)
Record pageResult := mkPageResult {
  replayed : Z;
  lastID : uuid;
  fetched : Z
}.

Definition replayFromPage (queueName tableName : string) (queueType : QueueType)
    (since : timestamp) (afterID : uuid) (pageLimit : Z) (performedBy : string) : io pageResult :=
  withTx (
    ids ← fetchReplayCandidateIDs tableName queueType since afterID pageLimit;
    match last ids with
    | None => mret (mkPageResult 0 afterID 0)
    | Some lastID =>
        replayed ← applyReplayFrom tableName queueType ids;
        (if 0 <? replayed then writeReplayLog queueName queueType "timestamp" replayed performedBy
         else mret tt) ;;
        mret (mkPageResult replayed lastID (Z.of_nat (length ids)))
    end).

(** The size of the next page under the caller's limit, [None] when the limit is
    reached. *)
Definition next_page_limit (size limit examined : Z) : option Z :=
  if 0 <? limit then
    if limit - examined <=? 0 then None else Some (Z.min size (limit - examined))
  else Some size.

Fixpoint executeReplayFrom (fuel : nat) (queueName tableName : string) (queueType : QueueType)
    (since : timestamp) (opts : ReplayOptions) (afterID : uuid) (total : Z) : io Z :=
  match fuel with
  | O => mret total
  | Datatypes.S fuel =>
      match next_page_limit defaultReplayPageSize (Limit opts) total with
      | None => mret total
      | Some pageLimit =>
          page ← replayFromPage queueName tableName queueType since afterID pageLimit
                   (PerformedBy opts);
          let total := total + replayed page in
          if fetched page =? 0 then mret total
          else executeReplayFrom fuel queueName tableName queueType since opts (lastID page) total
      end
  end.

(** Every page but the last examines a row. *)
Definition replay_fuel (tableName : string) (w : world) : nat :=
  Datatypes.S (Datatypes.S (queue_rows tableName (w_db w))).

Definition ReplayFrom (queueName : string) (queueType : QueueType) (since : timestamp)
    (opts : ReplayOptions) : io Z :=
  checkClosed ;;
  from_result (validateReplayOpts opts) ;;
  metadata ← getReplayQueueMetadata queueType queueName;
  let tableName := q_TableName metadata in
  if DryRun opts then
    count ← countReplayableMessages tableName queueType since;
    mret (if (0 <? Limit opts) && (Limit opts <? count) then Limit opts else count)
  else
    w ← get_world;
    executeReplayFrom (replay_fuel tableName w) queueName tableName queueType since opts nil_uuid 0.

(** ** Replaying one message *)

Definition checkMessageExists (tableName : string) (messageID : uuid) : io unit :=
  status ← autocommit (on_channel tableName (query (fun _ t =>
             Ok (c_status <$> ct_msgs t !! messageID))));
  match status with
  | None => fail ErrReplayMessageNotFound
  | Some MessageStatusProcessing => fail ErrMessageInProcessing
  | Some _ => mret tt
  end.

Definition replay_row_now (now : timestamp) (r : channelRow) : channelRow :=
  mkChannelRow (c_payload r) (c_created_at r) MessageStatusPending 0 (c_max_retries r) None now None
    None None (c_metadata r).

(** [UPDATE ... WHERE id = $1 AND status != 'processing']; the rows affected. *)
Definition replay_message_row (messageID : uuid) : tx channelTables nat :=
  stmt (fun e _ t =>
    let '(m, n) := sql_update_id messageID
      (fun r => negb (bool_decide (c_status r = MessageStatusProcessing)))
      (replay_row_now (e_now e)) (ct_msgs t) in
    (Ok n, set_ct_msgs m t)).

(** The second SELECT runs in the same transaction, after an UPDATE that changed
    nothing: every row it finds is reported as being in process. *)
Definition executeReplayMessage (queueName tableName : string) (queueType : QueueType)
    (messageID : uuid) (opts : ReplayOptions) : io unit :=
  withTx (
    rows ← on_channel tableName (replay_message_row messageID);
    if (rows =? 0)%nat then
      status ← on_channel tableName (query (fun _ t => Ok (c_status <$> ct_msgs t !! messageID)));
      match status with
      | None => throw ErrReplayMessageNotFound
      | Some _ => throw ErrMessageInProcessing
      end
    else writeReplayLog queueName queueType "message_id" 1 (PerformedBy opts)).

Definition ReplayMessage (queueName : string) (queueType : QueueType) (messageID : uuid)
    (opts : ReplayOptions) : io unit :=
  checkClosed ;;
  if bool_decide (queueType = QueueTypePubSub) then fail ErrReplayNotSupported
  else
    from_result (validateReplayOpts opts) ;;
    metadata ← getReplayQueueMetadata queueType queueName;
    if DryRun opts then checkMessageExists (q_TableName metadata) messageID
    else executeReplayMessage queueName (q_TableName metadata) queueType messageID opts.

(** ** Replaying dead letters *)

Record ReplayDLQResult := mkReplayDLQResult {
  Replayed : Z;
  Skipped : Z
}.

Record dlqRow := mkDlqRow {
  dr_id : uuid;
  dr_originalMessageID : uuid;
  dr_subscriberID : option string;
  dr_payload : bytes;
  dr_metadata : option jval
}.

Definition defaultDLQReplayPageSize : Z := 100.

(** The dead-letter table of a queue, whichever its type. *)
Definition get_dlq (tableName : string) (d : DB) : option (gmap Z dlqEntry) :=
  match db_channels d !! tableName with
  | Some t => Some (ct_dlq t)
  | None => tt_dlq <$> db_topics d !! tableName
  end.
Definition on_dead_letters {A} (tableName : string) (f : env -> gmap Z dlqEntry -> result A) :
    tx DB A :=
  zoom (get_dlq tableName) (fun _ d => d) (query f).

Definition scan_dlq (x : Z * dlqEntry) : dlqRow :=
  mkDlqRow x.1 (d_original_message_id x.2) (d_subscriber_id x.2) (d_payload x.2) (d_metadata x.2).

Definition fetchDLQMessages (tableName : string) (afterID : uuid) (limit : Z) :
    tx DB (list dlqRow) :=
  let limit := if limit <=? 0 then defaultDLQReplayPageSize else limit in
  on_dead_letters tableName (fun e m => Ok (scan_dlq <$>
    sql_select_limit (Z.to_nat limit) (fun i _ => past afterID i && unlocked e i) (fun _ => 0) m)).

Fixpoint dedupe (seen : gset Z) (dlqMessages : list dlqRow) : list dlqRow :=
  match dlqMessages with
  | [] => []
  | msg :: dlqMessages =>
      if bool_decide (dr_originalMessageID msg ∈ seen) then dedupe seen dlqMessages
      else msg :: dedupe ({[dr_originalMessageID msg]} ∪ seen) dlqMessages
  end.

Definition dedupeDLQByMessageID (dlqMessages : list dlqRow) : list dlqRow := dedupe ∅ dlqMessages.

(** INSERT ... ON CONFLICT (id) DO NOTHING RETURNING id, with CHECK (max_retries >= 0). *)
Definition insertDLQChannelMessages (maxRetries : Z) (dlqMessages : list dlqRow) :
    tx channelTables (gset Z) :=
  stmt (fun e _ t =>
    if maxRetries <? 0 then (Err (ErrDriver check_violation), t)
    else
      let '(m, ids) := sql_insert_many
        (map (fun msg => (dr_originalMessageID msg,
           new_channel_row (e_now e) (dr_payload msg) (dr_metadata msg) maxRetries)) dlqMessages)
        (ct_msgs t) in
      (Ok (list_to_set ids), set_ct_msgs m t)).

Definition reinsertDLQChannel (maxRetries : Z) (dlqMessages : list dlqRow) : tx channelTables Z :=
  match dlqMessages with
  | [] => mret 0
  | _ =>
      let unique := dedupeDLQByMessageID dlqMessages in
      insertedIDs ← insertDLQChannelMessages maxRetries unique;
      if (size insertedIDs =? 0)%nat then mret 0
      else
        let dlqIDs := dr_id <$>
          filter (fun msg => dr_originalMessageID msg ∈ insertedIDs) unique in
        stmt (fun _ _ t => (Ok tt, set_ct_dlq (sql_delete_ids dlqIDs (ct_dlq t)) t)) ;;
        mret (Z.of_nat (size insertedIDs))
  end.

Definition filterExistingMessages (dlqMessages : list dlqRow) : tx topicTables (list dlqRow) :=
  query (fun _ t => Ok
    (filter (fun msg => is_Some (tt_msgs t !! dr_originalMessageID msg)) dlqMessages)).

#[export] Instance subRecord_eq_dec : EqDecision subRecord.
Proof. solve_decision. Defined.

(** [addRecord]: a record already seen is not added again. *)
Definition addRecord (records : list subRecord) (rec : subRecord) : list subRecord :=
  if bool_decide (rec ∈ records) then records else records ++ [rec].

(** The loop of [resolvePubSubDLQRecords]; [legacy] is the subscriber list once
    loaded. *)
Fixpoint resolve_records (cfg : queueConfig) (queueName : string)
    (legacy : option (list subscriber)) (dlqMessages : list dlqRow) (records : list subRecord)
    (replayedIDs : list uuid) : tx DB (list subRecord * list uuid) :=
  match dlqMessages with
  | [] => mret (records, replayedIDs)
  | msg :: dlqMessages =>
      match dr_subscriberID msg with
      | Some sid =>
          resolve_records cfg queueName legacy dlqMessages
            (addRecord records (mkSubRecord (dr_originalMessageID msg) sid))
            (replayedIDs ++ [dr_id msg])
      | None =>
          subs ← (match legacy with
                  | Some subs => mret subs
                  | None => getActiveSubscribers cfg queueName
                  end);
          match subs with
          | [] => resolve_records cfg queueName (Some subs) dlqMessages records replayedIDs
          | _ =>
              resolve_records cfg queueName (Some subs) dlqMessages
                (foldl (fun rs sub =>
                   addRecord rs (mkSubRecord (dr_originalMessageID msg) (sb_SubscriberID sub)))
                   records subs)
                (replayedIDs ++ [dr_id msg])
          end
      end
  end.

Definition resolvePubSubDLQRecords (cfg : queueConfig) (queueName : string)
    (dlqMessages : list dlqRow) : tx DB (list subRecord * list uuid) :=
  resolve_records cfg queueName None dlqMessages [] [].

(** DELETE FROM the dead-letter table WHERE id = ANY(...) *)
Definition delete_dead_letters (replayedIDs : list uuid) : tx topicTables unit :=
  stmt (fun _ _ t => (Ok tt, set_tt_dlq (sql_delete_ids replayedIDs (tt_dlq t)) t)).

Definition reinsertDLQPubSub (cfg : queueConfig) (queueName tableName : string)
    (dlqMessages : list dlqRow) : tx DB Z :=
  match dlqMessages with
  | [] => mret 0
  | _ =>
      live ← on_topic tableName (filterExistingMessages dlqMessages);
      match live with
      | [] => mret 0
      | _ =>
          '(records, replayedIDs) ← resolvePubSubDLQRecords cfg queueName live;
          match replayedIDs with
          | [] => mret 0
          | _ =>
              on_topic tableName (insertSubscriptionRecords records) ;;
              on_topic tableName (delete_dead_letters replayedIDs) ;;
              mret (Z.of_nat (length replayedIDs))
          end
      end
  end.

Definition reinsertDLQMessages (cfg : queueConfig) (queueName tableName : string)
    (queueType : QueueType) (maxRetries : Z) (dlqMessages : list dlqRow) : tx DB Z :=
  if bool_decide (queueType = QueueTypePubSub) then
    reinsertDLQPubSub cfg queueName tableName dlqMessages
  else on_channel tableName (reinsertDLQChannel maxRetries dlqMessages).

(** The body of the page's transaction: the page, and whether it ends with the
    sentinel [errDryRunRollback]. *)
Definition dlq_page_body (cfg : queueConfig) (queueName tableName : string) (queueType : QueueType)
    (afterID : uuid) (pageLimit : Z) (performedBy : string) (maxRetries : Z) (dryRun : bool) :
    tx DB (pageResult * bool) :=
  dlqMessages ← fetchDLQMessages tableName afterID pageLimit;
  match last dlqMessages with
  | None => mret (mkPageResult 0 afterID 0, false)
  | Some lastMsg =>
      replayed ← reinsertDLQMessages cfg queueName tableName queueType maxRetries dlqMessages;
      (if (0 <? replayed) && negb dryRun
       then writeReplayLog queueName queueType "dlq" replayed performedBy
       else mret tt) ;;
      mret (mkPageResult replayed (dr_id lastMsg) (Z.of_nat (length dlqMessages)), dryRun)
  end.

(** [withTx] around a body that may end with the sentinel: the transaction is then
    rolled back and the value kept. *)
Definition withTx_dryRun {A} (fn : tx DB (A * bool)) : io A := fun o w =>
  match e_begin (o (w_tick w)), fn (o (w_tick w)) 0%nat (Some (w_db w)) with
  | None, TOk (a, true) _ _ => (Ok a, w_next w)
  | _, _ => ('(a, _) ← withTx fn; mret a) o w
  end.

Definition replayDLQPage (cfg : queueConfig) (queueName tableName : string) (queueType : QueueType)
    (afterID : uuid) (pageLimit : Z) (performedBy : string) (maxRetries : Z) (dryRun : bool) :
    io pageResult :=
  withTx_dryRun (dlq_page_body cfg queueName tableName queueType afterID pageLimit performedBy
    maxRetries dryRun).

(** The counts so far are returned also beside an error. *)
Fixpoint executeReplayDLQ (fuel : nat) (cfg : queueConfig) (queueName tableName : string)
    (queueType : QueueType) (opts : ReplayOptions) (maxRetries : Z) (dryRun : bool) (afterID : uuid)
    (result : ReplayDLQResult) : io (ReplayDLQResult * option err) :=
  match fuel with
  | O => mret (result, None)
  | Datatypes.S fuel =>
      match next_page_limit defaultDLQReplayPageSize (Limit opts) (Replayed result + Skipped result)
      with
      | None => mret (result, None)
      | Some pageLimit =>
          r ← try_io (replayDLQPage cfg queueName tableName queueType afterID pageLimit
                        (PerformedBy opts) maxRetries dryRun);
          match r with
          | Err x => mret (result, Some x)
          | Ok page =>
              let result := mkReplayDLQResult (Replayed result + replayed page)
                              (Skipped result + (fetched page - replayed page)) in
              if fetched page =? 0 then mret (result, None)
              else executeReplayDLQ fuel cfg queueName tableName queueType opts maxRetries dryRun
                     (lastID page) result
          end
      end
  end.

Definition ReplayDLQ (cfg : queueConfig) (queueName : string) (queueType : QueueType)
    (opts : ReplayOptions) : io (ReplayDLQResult * option err) :=
  m ← try_io (checkClosed ;;
              from_result (validateReplayOpts opts) ;;
              getReplayQueueMetadata queueType queueName);
  match m with
  | Err x => mret (mkReplayDLQResult 0 0, Some x)
  | Ok metadata =>
      let tableName := q_TableName metadata in
      w ← get_world;
      '(result, er) ← executeReplayDLQ (replay_fuel tableName w) cfg queueName tableName queueType
                        opts (resolveMaxRetries cfg metadata) (DryRun opts) nil_uuid
                        (mkReplayDLQResult 0 0);
      match er with
      | Some x => mret (if DryRun opts then mkReplayDLQResult 0 0 else result, Some x)
      | None => mret (result, None)
      end
  end.

Definition ReplayHistory (queueName : string) (queueType : QueueType) (limit : Z) :
    io (list (Z * replayLogRow)) :=
  checkClosed ;;
  getReplayHistory queueType queueName (if limit <=? 0 then DefaultReplayHistoryLimit else limit).

(** ** Listing dead letters ([dlq.go]) *)

Definition DefaultDLQPageSize : Z := 100.
Definition MaxDLQPageSize : Z := 1000.

Record DLQPage := mkDLQPage {
  AfterID : uuid;
  PageLimit : Z
}.

Record DLQMessage := mkDLQMessage {
  dm_ID : uuid;
  dm_OriginalMessageID : uuid;
  dm_Payload : bytes;
  dm_FailureReason : bytes;
  dm_RetryCount : Z;
  dm_MovedAt : timestamp;
  dm_Metadata : option jmap
}.

Definition resolveDLQLimit (n : Z) : Z :=
  if n <=? 0 then DefaultDLQPageSize else if MaxDLQPageSize <? n then MaxDLQPageSize else n.

Definition scanDLQMessage (x : Z * dlqEntry) : DLQMessage :=
  mkDLQMessage x.1 (d_original_message_id x.2) (d_payload x.2) (d_failure_reason x.2)
    (d_retry_count x.2) (d_moved_at x.2) (parseMetadataJSON (d_metadata x.2)).

Definition ListDLQMessages (name : string) (queueType : QueueType) (page : DLQPage) :
    io (list DLQMessage * DLQPage) :=
  checkClosed ;;
  let limit := resolveDLQLimit (PageLimit page) in
  tableName ← cachedTableName queueType name;
  messages ← autocommit (on_dead_letters tableName (fun _ m => Ok (scanDLQMessage <$>
    sql_select_limit (Z.to_nat limit) (fun i _ => past (AfterID page) i) (fun _ => 0) m)));
  mret (messages, mkDLQPage (default (AfterID page) (dm_ID <$> last messages)) limit).

(** ** Pages of a replay

    [P] selects the rows to replay from the table [m0], [f] resets one, [P'] is the
    condition the UPDATE repeats. *)
Section replay_pages.
Context {R : Type} (P : Z -> R -> bool) (P' : R -> bool) (f : R -> R) (m0 : gmap Z R).
Hypothesis HPf : forall i r, P i (f r) = false.
Hypothesis HPP' : forall i r, P i r = true -> P' r = true.

(** The rows to replay, and the table once some of them have been. *)
Definition candidates : list (Z * R) := sql_select P (fun _ => 0) m0.
Definition replayed_table (ids : list Z) : gmap Z R := sql_update_ids ids f m0.

(** The cursor after the rows [pre]. *)
Definition cursor (pre : list Z) : uuid := default nil_uuid (last pre).

Section split.
Context (pre rest : list (Z * R)).
Hypothesis Hsplit : candidates = pre ++ rest.

Lemma candidates_NoDup : NoDup (pre.*1 ++ rest.*1).
Proof. rewrite <-fmap_app, <-Hsplit. apply NoDup_sql_select. Qed.

Lemma rest_fresh i r : (i, r) ∈ rest -> i ∉ pre.*1.
Proof.
  pose proof candidates_NoDup as (_ & Hd & _)%NoDup_app. intros Hin Hp. apply (Hd i Hp).
  by apply (list_elem_of_fmap_2 fst) in Hin.
Qed.

Lemma rest_row i r : (i, r) ∈ rest -> m0 !! i = Some r /\ P i r = true.
Proof.
  intros Hin. apply (elem_of_sql_select P (fun _ => 0)). fold candidates.
  rewrite Hsplit. apply elem_of_app. by right.
Qed.

Lemma lookup_replayed i r : (i, r) ∈ rest -> replayed_table pre.*1 !! i = Some r.
Proof.
  intros Hin. unfold replayed_table. rewrite lookup_sql_update_ids.
  destruct (rest_row _ _ Hin) as [-> _]. cbn. by rewrite decide_False by (by eapply rest_fresh).
Qed.

Lemma select_rest : sql_select P (fun _ => 0) (replayed_table pre.*1) = rest.
Proof.
  apply sql_select_unique.
  - pose proof (sql_select_sorted P (fun _ => 0) m0) as Hs. fold candidates in Hs.
    rewrite Hsplit in Hs. by apply StronglySorted_app in Hs as (_ & _ & ?).
  - by pose proof candidates_NoDup as (_ & _ & ?)%NoDup_app.
  - intros i r. split.
    + intros Hin. split; [by apply lookup_replayed|by apply rest_row].
    + unfold replayed_table. rewrite lookup_sql_update_ids.
      intros [(r0 & Hi & ->)%fmap_Some HP]. case_decide as Hp; [by rewrite HPf in HP|].
      assert ((i, r0) ∈ candidates) as Hc by by apply elem_of_sql_select.
      rewrite Hsplit in Hc. apply elem_of_app in Hc as [Hc|Hc]; [|done].
      by apply (list_elem_of_fmap_2 fst) in Hc.
Qed.

Lemma rest_past i r : (i, r) ∈ rest -> past (cursor pre.*1) i = true.
Proof.
  intros Hin. unfold past, cursor. rewrite fmap_last. destruct (last pre) as [[j q]|] eqn:Hl; [|done].
  cbn. apply orb_true_iff. right. pose proof (sql_select_sorted P (fun _ => 0) m0) as Hs.
  fold candidates in Hs. rewrite Hsplit in Hs. apply StronglySorted_app in Hs as (Hs & _ & _).
  pose proof (rest_fresh _ _ Hin) as Hf. apply last_Some_elem_of in Hl.
  specialize (Hs _ _ Hl Hin) as Hle. unfold row_le in Hle. cbn in Hle. apply Z.ltb_lt.
  assert (j <> i); [|lia]. intros ->. by apply (list_elem_of_fmap_2 fst) in Hl.
Qed.

(** A page reads the next rows to replay. *)
Lemma page_candidates n :
  sql_select_limit n (fun i r => P i r && past (cursor pre.*1) i) (fun _ => 0)
    (replayed_table pre.*1) = take n rest.
Proof.
  unfold sql_select_limit. f_equal.
  rewrite (sql_select_filter P (fun i _ => past (cursor pre.*1) i)), select_rest.
  apply filter_keep. intros [i r] Hin. by eapply rest_past.
Qed.

(** And resets exactly these. *)
Lemma update_candidates n :
  update_any (take n rest).*1 P' f (replayed_table pre.*1) =
  (replayed_table (pre.*1 ++ (take n rest).*1), length (take n rest)).
Proof.
  assert (forall x, x ∈ take n rest -> x ∈ rest) as Hsub.
  { intros x Hx. eapply elem_of_sublist; [exact Hx|apply sublist_take]. }
  unfold update_any. rewrite (sql_select_unique _ _ _ (take n rest)).
  - rewrite length_fmap. f_equal. apply map_eq. intros i. unfold replayed_table.
    rewrite !lookup_sql_update_ids. destruct (m0 !! i) as [r|]; cbn; [|done]. f_equal.
    destruct (decide (i ∈ (take n rest).*1)) as [Hi|Hi].
    + assert (i ∉ pre.*1). { apply list_elem_of_fmap in Hi as ([i' q] & -> & Hq). by eapply rest_fresh, Hsub. }
      by rewrite (decide_False (P := i ∈ pre.*1)), decide_True by (rewrite ?elem_of_app; tauto).
    + destruct (decide (i ∈ pre.*1)) as [Hp|Hp];
        [by rewrite decide_True by (rewrite elem_of_app; tauto)
        |by rewrite decide_False by (rewrite elem_of_app; tauto)].
  - pose proof (sql_select_sorted P (fun _ => 0) (replayed_table pre.*1)) as Hs.
    rewrite select_rest in Hs. rewrite <-(take_drop n rest) in Hs.
    by apply StronglySorted_app in Hs as (_ & ? & _).
  - pose proof candidates_NoDup as (_ & _ & Hnd)%NoDup_app.
    eapply sublist_NoDup; [exact Hnd|]. apply fmap_sublist, sublist_take.
  - intros i r. rewrite andb_true_iff, bool_decide_eq_true. split.
    + intros Hin. split_and!; [by apply lookup_replayed, Hsub|by apply (list_elem_of_fmap_2 fst) in Hin|].
      eapply HPP'. by apply (rest_row i r), Hsub.
    + intros (Hr & Hi & _). apply list_elem_of_fmap in Hi as ([i' q] & -> & Hq). cbn in *.
      rewrite (lookup_replayed i' q) in Hr by by apply Hsub. by injection Hr as <-.
Qed.

End split.
End replay_pages.

(** ** The audit log *)

Definition creator (performedBy : string) : option string :=
  if bool_decide (performedBy = "") then None else Some performedBy.

Definition audit_total (lg : gmap Z replayLogRow) : Z :=
  map_fold (fun _ l n => rl_MessageCount l + n) 0 lg.

(** [lg'] is [lg] with rows of one replay added, which account for [n] messages. *)
Record audited (qt : QueueType) (name op by_ : string) (lg lg' : gmap Z replayLogRow) (n : Z) :
    Prop := mkAudited {
  audited_kept : lg ⊆ lg';
  audited_sum : audit_total lg' = audit_total lg + n;
  audited_rows k l : lg' !! k = Some l -> lg !! k = None ->
    is_log_of qt name l = true /\ rl_ReplayType l = op /\ rl_CreatedBy l = creator by_ /\
    0 < rl_MessageCount l
}.

Lemma audit_total_insert lg k l :
  lg !! k = None -> audit_total (<[k := l]> lg) = rl_MessageCount l + audit_total lg.
Proof. intros Hk. unfold audit_total. rewrite map_fold_insert_L; [done| |done]. intros. lia. Qed.

Lemma audited_refl qt name op by_ lg : audited qt name op by_ lg lg 0.
Proof. split; [done|lia|congruence]. Qed.

Lemma audited_trans qt name op by_ lg1 lg2 lg3 n n' :
  audited qt name op by_ lg1 lg2 n -> audited qt name op by_ lg2 lg3 n' ->
  audited qt name op by_ lg1 lg3 (n + n').
Proof.
  intros [Hs Ht Hr] [Hs' Ht' Hr']. split; [by etrans|lia|]. intros k l Hk Hn.
  destruct (lg2 !! k) as [l2|] eqn:H2; [|by eapply Hr'].
  pose proof (lookup_weaken _ _ _ _ H2 Hs') as Heq. rewrite Hk in Heq. injection Heq as ->.
  by eapply Hr.
Qed.

Lemma audited_insert qt name op by_ lg k now n :
  lg !! k = None -> 0 < n ->
  audited qt name op by_ lg
    (<[k := mkReplayLogRow (queue_type_string qt) name op n now (creator by_)]> lg) n.
Proof.
  intros Hk Hn. split; [by apply insert_subseteq|rewrite audit_total_insert by done; cbn; lia|].
  intros j l Hj Hj'. apply lookup_insert_Some in Hj as [[<- <-]|[_ Hj]]; [|congruence].
  unfold is_log_of. cbn. rewrite !bool_decide_eq_true_2 by done. done.
Qed.

Lemma wp_writeReplayLog e n d qt name op count by_ (Q : unit -> nat -> option DB -> Prop) E :
  (forall x, faulty e -> E (ErrDriver x)) ->
  text_ok (String.list_byte_of_string by_) = true \/ E (ErrDriver untranslatable) ->
  db_replay_log d !! e_gen e n 0%nat = None \/ E (ErrDriver unique_violation) -> 0 < count ->
  (forall lg', audited qt name op by_ (db_replay_log d) lg' count ->
     (forall k, k <> e_gen e n 0%nat -> lg' !! k = db_replay_log d !! k) ->
     Q tt (S n) (Some (set_replay_log lg' d))) ->
  wp e n (Some d) (writeReplayLog name qt op count by_) Q E.
Proof.
  intros HF Htext Hk Hc HQ. unfold writeReplayLog, createReplayLog. wp_step. cbn zeta.
  fold (creator by_). replace (String.list_byte_of_string (default "" (creator by_)))
    with (String.list_byte_of_string by_).
  2: { unfold creator. case_bool_decide as Hb; [by rewrite Hb|done]. }
  destruct (text_ok _); cbn [negb]; [|by destruct Htext].
  destruct (db_replay_log d !! e_gen e n 0%nat) eqn:Hl; [by destruct Hk|].
  apply HQ; [by apply audited_insert|]. intros k Hne. by rewrite lookup_insert_ne.
Qed.

(** A fresh log stays fresh for the steps to come. *)
Lemma fresh_log_next o m n (lg lg' : gmap Z replayLogRow) :
  gen_distinct o -> fresh_from o m lg -> (forall k, k <> e_gen (o m) n 0%nat -> lg' !! k = lg !! k) ->
  fresh_from o (S m) lg'.
Proof.
  intros Hgen Hf Hk m' n' i' Hm. rewrite Hk; [apply Hf; lia|].
  intros (-> & _)%Hgen. lia.
Qed.

(** ** The loop over the pages of [ReplayFrom] *)

(** The number of rows a limit lets a replay examine out of [n]. *)
Definition quota (limit : Z) (n : nat) : nat :=
  if 0 <? limit then (Z.to_nat limit `min` n)%nat else n.

(** A page takes at least one row and no more than the limit leaves. *)
Lemma quota_page size limit n j pl :
  1 <= size -> next_page_limit size limit (Z.of_nat j) = Some pl -> (j <= quota limit n)%nat ->
  1 <= pl /\ (Nat.min (Z.to_nat pl) (n - j) <= quota limit n - j)%nat /\
  (n = j -> quota limit n = j).
Proof.
  unfold next_page_limit, quota. destruct (Z.ltb_spec 0 limit); [|intros; simplify_eq; lia].
  destruct (Z.leb_spec (limit - Z.of_nat j) 0); intros; simplify_eq; lia.
Qed.

Lemma quota_stop size limit n j :
  next_page_limit size limit (Z.of_nat j) = None -> (j <= quota limit n)%nat -> quota limit n = j.
Proof.
  unfold next_page_limit, quota. destruct (Z.ltb_spec 0 limit); [|done].
  destruct (Z.leb_spec (limit - Z.of_nat j) 0); intros; simplify_eq; lia.
Qed.

Section replay_loop.
Context (o : oracle) (queueName tableName : string) (qt : QueueType) (since : timestamp)
  (opts : ReplayOptions) (ids : list Z) (put : list Z -> DB).
Hypothesis Hrel : reliable o.
Hypothesis Hgen : gen_distinct o.
Hypothesis Htext : text_ok (String.list_byte_of_string (PerformedBy opts)) = true.
Hypothesis Hfetch : forall e n pre rest lg k, ~ faulty e -> ids = pre ++ rest ->
  wp e n (Some (set_replay_log lg (put pre)))
    (fetchReplayCandidateIDs tableName qt since (cursor pre) k)
    (fun a _ s => a = take (Z.to_nat k) rest /\ s = Some (set_replay_log lg (put pre)))
    (fun _ => False).
Hypothesis Happly : forall e n pre rest lg k, ~ faulty e -> ids = pre ++ rest ->
  wp e n (Some (set_replay_log lg (put pre))) (applyReplayFrom tableName qt (take k rest))
    (fun a _ s => a = Z.of_nat (length (take k rest)) /\
                  s = Some (set_replay_log lg (put (pre ++ take k rest))))
    (fun _ => False).

Abbreviation audited' := (audited qt queueName "timestamp" (PerformedBy opts)).

Lemma iwp_replayFromPage w pre rest lg k :
  ids = pre ++ rest -> w_db w = set_replay_log lg (put pre) -> fresh_from o (w_tick w) lg ->
  iwp o w (replayFromPage queueName tableName qt since (cursor pre) k (PerformedBy opts))
    (fun page w' => let got := take (Z.to_nat k) rest in
       page = mkPageResult (Z.of_nat (length got)) (cursor (pre ++ got)) (Z.of_nat (length got)) /\
       exists lg', w_db w' = set_replay_log lg' (put (pre ++ got)) /\ fresh_from o (w_tick w') lg' /\
         audited' lg lg' (Z.of_nat (length got)) /\ w_tick w' = S (w_tick w))
    (fun _ _ => False).
Proof.
  intros Hids Hdb Hfr. unfold replayFromPage. apply iwp_withTx.
  { no_fault. }
  rewrite Hdb. wp_step. eapply wp_mono; [by apply (Hfetch _ _ pre rest)| |done].
  intros ? n1 ? [-> ->]. set (got := take (Z.to_nat k) rest).
  destruct (last got) as [j|] eqn:Hlast.
  - wp_step. eapply wp_mono; [by apply (Happly _ _ pre rest)| |done].
    intros ? n2 ? [-> ->]. fold got.
    assert (0 < Z.of_nat (length got)) as Hpos by (destruct got; [done|cbn; lia]).
    wp_step. rewrite (proj2 (Z.ltb_lt _ _)) by done.
    apply wp_writeReplayLog; [|by left|left; apply Hfr; done|done|].
    { no_fault. }
    intros lg' Haud Hk. wp_step. split.
    + f_equal. unfold cursor. by rewrite last_app, Hlast.
    + exists lg'. split_and!; [done| |done..]. by eapply fresh_log_next.
  - apply last_None in Hlast as Hnil. rewrite Hnil. wp_step. rewrite (right_id_L [] (++)). split; [done|].
    exists lg. split_and!; [done| |apply audited_refl|done].
    by eapply fresh_from_sub; [|reflexivity|exact Hfr]; cbn; lia.
Qed.

Lemma iwp_executeReplayFrom fuel w pre rest lg :
  ids = pre ++ rest -> w_db w = set_replay_log lg (put pre) -> fresh_from o (w_tick w) lg ->
  (length rest < fuel)%nat -> (length pre <= quota (Limit opts) (length ids))%nat ->
  iwp o w (executeReplayFrom fuel queueName tableName qt since opts (cursor pre)
             (Z.of_nat (length pre)))
    (fun n w' => let k := quota (Limit opts) (length ids) in
       n = Z.of_nat k /\ exists lg', w_db w' = set_replay_log lg' (put (take k ids)) /\
         audited' lg lg' (Z.of_nat k - Z.of_nat (length pre)))
    (fun _ _ => False).
Proof.
  revert w pre rest lg. induction fuel as [|fuel IH]; intros w pre rest lg Hids Hdb Hfr Hfuel Hq; [lia|].
  set (k := quota (Limit opts) (length ids)) in *. cbn [executeReplayFrom].
  assert (length ids = length pre + length rest)%nat as Hlen by (rewrite Hids, length_app; done).
  destruct (next_page_limit defaultReplayPageSize (Limit opts) (Z.of_nat (length pre))) as [pl|] eqn:Hpl.
  - iwp_step. eapply iwp_mono; [by apply (iwp_replayFromPage _ pre rest lg)| |done].
    intros ? w1 (-> & lg1 & Hdb1 & Hfr1 & Haud & _). cbn [replayed fetched lastID].
    set (got := take (Z.to_nat pl) rest) in *.
    destruct (quota_page defaultReplayPageSize _ (length ids) _ _ ltac:(done) Hpl Hq)
      as (Hpl1 & Hgot & Hnil). fold k in Hgot, Hnil.
    assert (length got = Nat.min (Z.to_nat pl) (length rest)) as Hlg by apply length_take.
    destruct (Z.eqb_spec (Z.of_nat (length got)) 0) as [Hz|Hz].
    + assert (rest = []) as Hr by (apply nil_length_inv; lia).
      assert (k = length pre) as Hk by (apply Hnil; rewrite Hr in Hlen; cbn in Hlen; lia).
      iwp_step. split; [lia|]. exists lg1. rewrite Hdb1, Hids, Hr, Hk.
      assert (got = []) as -> by (apply nil_length_inv; lia).
      rewrite !(right_id_L [] (++)), firstn_all. split; [done|].
      by replace (Z.of_nat (length pre) - Z.of_nat (length pre)) with (Z.of_nat (length (@nil Z))) by (cbn; lia).
    + replace (Z.of_nat (length pre) + Z.of_nat (length got)) with (Z.of_nat (length (pre ++ got)))
        by (rewrite length_app; lia).
      eapply iwp_mono; [apply (IH w1 (pre ++ got) (drop (Z.to_nat pl) rest) lg1)| |done].
      * subst got. by rewrite <-(assoc_L (++)), take_drop.
      * done.
      * done.
      * rewrite length_drop. lia.
      * rewrite length_app. lia.
      * cbn zeta. intros n w' (-> & lg' & Hdb' & Haud'). split; [done|]. exists lg'. split; [done|].
        rewrite length_app in Haud'. pose proof (audited_trans _ _ _ _ _ _ _ _ _ Haud Haud') as Ha.
        by replace (Z.of_nat k - Z.of_nat (length pre)) with (Z.of_nat (length got) +
          (Z.of_nat k - Z.of_nat (length pre + length got)%nat)) by lia.
  - pose proof (quota_stop _ _ (length ids) _ Hpl Hq) as Hk. fold k in Hk.
    iwp_step. split; [by rewrite Hk|]. exists lg. rewrite Hk, Hids, take_app_length.
    split; [done|]. rewrite Z.sub_diag. apply audited_refl.
Qed.

End replay_loop.

(** ** [ReplayFrom] on a channel and on a topic *)

Section replay_from.

(** A query that finds its tables. *)
Lemma wp_on_channel_query {A} e n d t ct (f : env -> channelTables -> A)
    (Q : A -> nat -> option DB -> Prop) E :
  ~ faulty e -> db_channels d !! t = Some ct -> Q (f e ct) (S n) (Some d) ->
  wp e n (Some d) (on_channel t (query (fun e t => Ok (f e t)))) Q E.
Proof.
  intros Hf Hct HQ. eapply on_channel_wp; [exact Hct|]. wp_step. cbn.
  rewrite insert_id by done. by destruct d.
Qed.

Lemma wp_on_topic_query {A} e n d t tt (f : env -> topicTables -> A)
    (Q : A -> nat -> option DB -> Prop) E :
  ~ faulty e -> db_topics d !! t = Some tt -> Q (f e tt) (S n) (Some d) ->
  wp e n (Some d) (on_topic t (query (fun e t => Ok (f e t)))) Q E.
Proof.
  intros Hf Ht HQ. eapply on_topic_wp; [exact Ht|]. wp_step. cbn.
  rewrite insert_id by done. by destruct d.
Qed.

Lemma settled_reset since r : replayable since (replay_row r) = false.
Proof. unfold replayable. cbn. by rewrite andb_false_r. Qed.

Section channel.
Context (meta : queueMetadata) (ct : channelTables) (d : DB) (since : timestamp).

Definition channel_replayed (ids : list Z) : DB :=
  put_channel meta (set_ct_msgs (replayed_table replay_row (ct_msgs ct) ids) ct) d.

Lemma channel_replayed_lookup lg ids :
  db_channels (set_replay_log lg (channel_replayed ids)) !! q_TableName meta =
  Some (set_ct_msgs (replayed_table replay_row (ct_msgs ct) ids) ct).
Proof. cbn. apply lookup_insert_eq. Qed.

Let P : Z -> channelRow -> bool := fun _ => replayable since.
Let cs := candidates P (ct_msgs ct).

Lemma channel_fetch e n pre rest lg k :
  ~ faulty e -> cs.*1 = pre ++ rest ->
  wp e n (Some (set_replay_log lg (channel_replayed pre)))
    (fetchReplayCandidateIDs (q_TableName meta) QueueTypeChannel since (cursor pre) k)
    (fun a _ s => a = take (Z.to_nat k) rest /\ s = Some (set_replay_log lg (channel_replayed pre)))
    (fun _ => False).
Proof.
  intros Hf (pre' & rest' & -> & -> & Hcs)%fmap_app_inv.
  unfold fetchReplayCandidateIDs. rewrite bool_decide_eq_true_2 by done.
  eapply (wp_on_channel_query _ _ _ _ _ (fun _ t => (sql_select_limit _ _ _ (ct_msgs t)).*1));
    [done|apply channel_replayed_lookup|]. split; [|done]. cbn [ct_msgs set_ct_msgs].
  rewrite <-fmap_take. f_equal. apply (page_candidates P replay_row); [|done].
  intros. apply settled_reset.
Qed.

Lemma channel_apply e n pre rest lg k :
  ~ faulty e -> cs.*1 = pre ++ rest ->
  wp e n (Some (set_replay_log lg (channel_replayed pre)))
    (applyReplayFrom (q_TableName meta) QueueTypeChannel (take k rest))
    (fun a _ s => a = Z.of_nat (length (take k rest)) /\
                  s = Some (set_replay_log lg (channel_replayed (pre ++ take k rest))))
    (fun _ => False).
Proof.
  intros Hf (pre' & rest' & -> & -> & Hcs)%fmap_app_inv.
  unfold applyReplayFrom, replay_rows, replay_subs. rewrite bool_decide_eq_true_2 by done.
  eapply on_channel_wp; [apply channel_replayed_lookup|]. wp_step. cbn [ct_msgs set_ct_msgs].
  rewrite <-fmap_take, (update_candidates P (fun r => settled (c_status r))) by
    (first [exact Hcs|intros; apply settled_reset|unfold P, replayable; intros i r [_ ?]%andb_true_iff; done]).
  rewrite length_fmap. split; [done|]. cbn. unfold channel_replayed, put_channel, set_ct_msgs.
  cbn. by rewrite insert_insert_eq.
Qed.

End channel.

Section topic.
Context (meta : queueMetadata) (tt : topicTables) (d : DB) (since : timestamp).

Definition topic_replayed (ids : list Z) : DB :=
  put_topic meta (set_tt_subs (replayed_table replay_sub (tt_subs tt) ids) tt) d.

Lemma topic_replayed_lookup lg ids :
  db_topics (set_replay_log lg (topic_replayed ids)) !! q_TableName meta =
  Some (set_tt_subs (replayed_table replay_sub (tt_subs tt) ids) tt).
Proof. cbn. apply lookup_insert_eq. Qed.

Let P : Z -> subRow -> bool := fun _ => replayable_sub since tt.
Let cs := candidates P (tt_subs tt).

Lemma settled_reset_sub s : replayable_sub since tt (replay_sub s) = false.
Proof. unfold replayable_sub. cbn. destruct (tt_msgs tt !! _); [by rewrite andb_false_r|done]. Qed.

Lemma replayable_sub_settled s : replayable_sub since tt s = true -> settled (s_status s) = true.
Proof. unfold replayable_sub. destruct (tt_msgs tt !! _); [|done]. by intros [_ ?]%andb_true_iff. Qed.

Lemma topic_fetch e n pre rest lg k :
  ~ faulty e -> cs.*1 = pre ++ rest ->
  wp e n (Some (set_replay_log lg (topic_replayed pre)))
    (fetchReplayCandidateIDs (q_TableName meta) QueueTypePubSub since (cursor pre) k)
    (fun a _ s => a = take (Z.to_nat k) rest /\ s = Some (set_replay_log lg (topic_replayed pre)))
    (fun _ => False).
Proof.
  intros Hf (pre' & rest' & -> & -> & Hcs)%fmap_app_inv.
  unfold fetchReplayCandidateIDs. rewrite bool_decide_eq_false_2 by done.
  eapply (wp_on_topic_query _ _ _ _ _ (fun _ t => (sql_select_limit _ (fun i s =>
    replayable_sub since t s && past (cursor pre'.*1) i) _ (tt_subs t)).*1));
    [done|apply topic_replayed_lookup|]. split; [|done]. cbn [tt_subs set_tt_subs].
  rewrite <-fmap_take. f_equal. apply (page_candidates P replay_sub); [|done].
  intros. apply settled_reset_sub.
Qed.

Lemma topic_apply e n pre rest lg k :
  ~ faulty e -> cs.*1 = pre ++ rest ->
  wp e n (Some (set_replay_log lg (topic_replayed pre)))
    (applyReplayFrom (q_TableName meta) QueueTypePubSub (take k rest))
    (fun a _ s => a = Z.of_nat (length (take k rest)) /\
                  s = Some (set_replay_log lg (topic_replayed (pre ++ take k rest))))
    (fun _ => False).
Proof.
  intros Hf (pre' & rest' & -> & -> & Hcs)%fmap_app_inv.
  unfold applyReplayFrom, replay_rows, replay_subs. rewrite bool_decide_eq_false_2 by done.
  eapply on_topic_wp; [apply topic_replayed_lookup|]. wp_step. cbn [tt_subs set_tt_subs].
  rewrite <-fmap_take, (update_candidates P (fun s => settled (s_status s))) by
    (first [exact Hcs|intros; apply settled_reset_sub|intros i s; apply replayable_sub_settled]).
  rewrite length_fmap. split; [done|]. cbn. unfold topic_replayed, put_topic, set_tt_subs.
  cbn. by rewrite insert_insert_eq.
Qed.

End topic.
End replay_from.

(** What [ReplayFrom] returns and does, given its candidates [ids] and the database
    [put] makes of the ones replayed. *)
Lemma iwp_ReplayFrom o w name qt since opts meta (ids : list Z) (put : list Z -> DB) :
  reliable o -> gen_distinct o -> fresh_from o (w_tick w) (db_replay_log (w_db w)) ->
  w_closed w = false -> validateReplayOpts opts = Ok tt ->
  text_ok (String.list_byte_of_string (PerformedBy opts)) = true ->
  lookup_queue qt name (w_db w) = Some meta ->
  (length ids <= queue_rows (q_TableName meta) (w_db w))%nat ->
  set_replay_log (db_replay_log (w_db w)) (put []) = w_db w ->
  (forall w', frame w w' -> iwp o w' (countReplayableMessages (q_TableName meta) qt since)
     (fun n w'' => n = Z.of_nat (length ids) /\ w_db w'' = w_db w) (fun _ _ => False)) ->
  (forall e n pre rest lg k, ~ faulty e -> ids = pre ++ rest ->
     wp e n (Some (set_replay_log lg (put pre)))
       (fetchReplayCandidateIDs (q_TableName meta) qt since (cursor pre) k)
       (fun a _ s => a = take (Z.to_nat k) rest /\ s = Some (set_replay_log lg (put pre)))
       (fun _ => False)) ->
  (forall e n pre rest lg k, ~ faulty e -> ids = pre ++ rest ->
     wp e n (Some (set_replay_log lg (put pre))) (applyReplayFrom (q_TableName meta) qt (take k rest))
       (fun a _ s => a = Z.of_nat (length (take k rest)) /\
                     s = Some (set_replay_log lg (put (pre ++ take k rest))))
       (fun _ => False)) ->
  exists w', let k := quota (Limit opts) (length ids) in
    ReplayFrom name qt since opts o w = (Ok (Z.of_nat k), w') /\
    if DryRun opts then w_db w' = w_db w
    else exists lg', w_db w' = set_replay_log lg' (put (take k ids)) /\
      audited qt name "timestamp" (PerformedBy opts) (db_replay_log (w_db w)) lg' (Z.of_nat k).
Proof.
  intros Hrel Hgen Hfr Hcl Hv Htext Hl Hrows Hput Hcount Hfetch Happly.
  set (k := quota (Limit opts) (length ids)).
  enough (iwp o w (ReplayFrom name qt since opts) (fun n w' => n = Z.of_nat k /\
    if DryRun opts then w_db w' = w_db w
    else exists lg', w_db w' = set_replay_log lg' (put (take k ids)) /\
      audited qt name "timestamp" (PerformedBy opts) (db_replay_log (w_db w)) lg' (Z.of_nat k))
    (fun _ _ => False)) as Hi.
  { unfold iwp in Hi. destruct (ReplayFrom name qt since opts o w) as [[n|x] w']; [|done].
    destruct Hi as [-> ?]. by exists w'. }
  unfold ReplayFrom.
  iwp_step. iwp_step; [congruence|intros _]. iwp_step. iwp_step. rewrite Hv.
  unfold getReplayQueueMetadata. do 2 iwp_step. apply iwp_getQueueMetadata.
  2: { intros w1 Hn. congruence. }
  2: { no_fault. }
  intros meta' w1 Hl' Hf1. rewrite Hl in Hl'. injection Hl' as <-.
  pose proof Hf1 as (Hdb1 & _ & _ & Hti). destruct (DryRun opts).
  - iwp_step. eapply iwp_mono; [by apply Hcount| |done]. intros n w2 [-> Hdb2]. iwp_step.
    split; [|done]. subst k. unfold quota. destruct (Z.ltb_spec 0 (Limit opts)); cbn [andb]; [|done].
    destruct (Z.ltb_spec (Limit opts) (Z.of_nat (length ids))); lia.
  - do 2 iwp_step. apply (iwp_mono o w1 _ _ _ _ _
      (iwp_executeReplayFrom o name (q_TableName meta) qt since opts ids put Hrel Hgen Htext Hfetch
         Happly (replay_fuel (q_TableName meta) w1) w1 [] ids (db_replay_log (w_db w)) eq_refl
         (eq_trans Hdb1 (eq_sym Hput))
         (fresh_from_sub o (w_tick w) _ _ _ Hti ltac:(reflexivity) Hfr)
         ltac:(unfold replay_fuel; rewrite Hdb1; lia) (Nat.le_0_l _))); [|done].
    cbn zeta. fold k. intros n w2 (-> & lg' & Hdb2 & Haud). split; [done|]. exists lg'.
    split; [done|]. cbn in Haud. by rewrite Z.sub_0_r in Haud.
Qed.

(** ** Properties *)

(** C15: replaying a channel from a timestamp resets exactly the settled messages
    published since then, oldest id first and no more of them than the limit: each is
    pending again with no attempt counted, no claim and no error, and nothing else of
    the database changes but the audit log, which gains rows that account for exactly
    the messages replayed.  A dry run changes nothing and returns the number the real
    run would return. *)
Theorem ReplayFrom_channel_exact (o : oracle) (w : world) (name : string) (since : timestamp)
    (opts : ReplayOptions) (meta : queueMetadata) (ct : channelTables) :
  reliable o -> gen_distinct o -> fresh_from o (w_tick w) (db_replay_log (w_db w)) ->
  w_closed w = false -> validateReplayOpts opts = Ok tt ->
  text_ok (String.list_byte_of_string (PerformedBy opts)) = true ->
  channel_at (w_db w) name meta ct ->
  let ids := (sql_select (fun _ => replayable since) (fun _ => 0) (ct_msgs ct)).*1 in
  let k := quota (Limit opts) (length ids) in
  exists w', ReplayFrom name QueueTypeChannel since opts o w = (Ok (Z.of_nat k), w') /\
    if DryRun opts then w_db w' = w_db w
    else exists lg', w_db w' = set_replay_log lg'
          (put_channel meta (set_ct_msgs (sql_update_ids (take k ids) replay_row (ct_msgs ct)) ct)
            (w_db w)) /\
        audited QueueTypeChannel name "timestamp" (PerformedBy opts) (db_replay_log (w_db w)) lg'
          (Z.of_nat k).
Proof.
  intros Hrel Hgen Hfr Hcl Hv Htext [Hl Hct] ids k.
  apply (iwp_ReplayFrom o w name QueueTypeChannel since opts meta ids
    (channel_replayed meta ct (w_db w))); try done.
  - subst ids. rewrite length_fmap. unfold queue_rows. rewrite Hct.
    pose proof (length_sql_select (fun _ => replayable since) (fun _ => 0) (ct_msgs ct)). lia.
  - unfold channel_replayed, replayed_table. rewrite sql_update_ids_nil.
    replace (set_ct_msgs (ct_msgs ct) ct) with ct by by destruct ct.
    rewrite put_channel_same by done. by destruct (w_db w).
  - intros w1 (Hdb & _). unfold countReplayableMessages. rewrite bool_decide_eq_false_2 by done.
    apply iwp_withTx; [no_fault|]. rewrite Hdb.
    eapply (wp_on_channel_query _ _ _ _ _ (fun _ t => Z.of_nat (sql_count _ (ct_msgs t))));
      [apply Hrel|exact Hct|]. split; [|done]. subst ids. by rewrite length_fmap.
  - intros. by apply channel_fetch.
  - intros. by apply (channel_apply _ _ _ since).
Qed.

(** Two messages were published after the cut-off: 5 is acknowledged, 7 is pending. *)
Definition replay_tables : channelTables :=
  mkChannelTables
    (<[5 := mkChannelRow [Byte.x61] 20 MessageStatusCompleted 2 (Some 3) None 20 (Some 9) (Some 30) None
              None]>
    (<[7 := mkChannelRow [Byte.x62] 40 MessageStatusPending 0 (Some 3) None 40 None None None None]>
    (<[2 := mkChannelRow [Byte.x63] 3 MessageStatusCompleted 1 (Some 3) None 3 (Some 8) (Some 5) None
              None]> ∅)))
    (<[3 := mkDlqEntry 2 None [Byte.x64] [] 4 50 None]>
    (<[4 := mkDlqEntry 6 None [Byte.x65] [] 4 51 None]> ∅)).
Definition replay_world : world := new_world (put_channel sample_meta replay_tables sample_db).
Definition replay_opts (dry : bool) : ReplayOptions := mkReplayOptions dry 0 "ops".

Lemma replay_at : channel_at (w_db replay_world) "jobs" sample_meta replay_tables.
Proof. split; vm_compute; reflexivity. Qed.

Lemma ReplayFrom_channel_exact_witness :
  (exists w', ReplayFrom "jobs" QueueTypeChannel 10 (replay_opts true) distinct_oracle replay_world =
     (Ok 1, w') /\ w_db w' = w_db replay_world) /\
  exists w', ReplayFrom "jobs" QueueTypeChannel 10 (replay_opts false) distinct_oracle replay_world =
     (Ok 1, w').
Proof.
  split.
  - apply (ReplayFrom_channel_exact distinct_oracle replay_world "jobs" 10 (replay_opts true)
      sample_meta replay_tables distinct_oracle_reliable distinct_oracle_distinct
      (gc_fresh_empty _ _) eq_refl eq_refl eq_refl replay_at).
  - destruct (ReplayFrom_channel_exact distinct_oracle replay_world "jobs" 10 (replay_opts false)
      sample_meta replay_tables distinct_oracle_reliable distinct_oracle_distinct
      (gc_fresh_empty _ _) eq_refl eq_refl eq_refl replay_at) as (w' & H & _). exists w'. exact H.
Defined.

(** On a topic the unit replayed is a subscription: the acknowledged deliveries
    of messages published since the timestamp are pending again for their subscriber,
    oldest first and no more of them than the limit, and nothing else changes but the
    audit log; a dry run returns the same number and changes nothing. *)
Theorem ReplayFrom_topic_exact (o : oracle) (w : world) (name : string) (since : timestamp)
    (opts : ReplayOptions) (meta : queueMetadata) (t : topicTables) :
  reliable o -> gen_distinct o -> fresh_from o (w_tick w) (db_replay_log (w_db w)) ->
  w_closed w = false -> validateReplayOpts opts = Ok tt ->
  text_ok (String.list_byte_of_string (PerformedBy opts)) = true ->
  topic_at (w_db w) name meta t ->
  let ids := (sql_select (fun _ => replayable_sub since t) (fun _ => 0) (tt_subs t)).*1 in
  let k := quota (Limit opts) (length ids) in
  exists w', ReplayFrom name QueueTypePubSub since opts o w = (Ok (Z.of_nat k), w') /\
    if DryRun opts then w_db w' = w_db w
    else exists lg', w_db w' = set_replay_log lg'
          (put_topic meta (set_tt_subs (sql_update_ids (take k ids) replay_sub (tt_subs t)) t)
            (w_db w)) /\
        audited QueueTypePubSub name "timestamp" (PerformedBy opts) (db_replay_log (w_db w)) lg'
          (Z.of_nat k).
Proof.
  intros Hrel Hgen Hfr Hcl Hv Htext [Hl Ht] ids k.
  apply (iwp_ReplayFrom o w name QueueTypePubSub since opts meta ids
    (topic_replayed meta t (w_db w))); try done.
  - subst ids. rewrite length_fmap. unfold queue_rows. rewrite Ht.
    pose proof (length_sql_select (fun _ => replayable_sub since t) (fun _ => 0) (tt_subs t)). lia.
  - unfold topic_replayed, replayed_table. rewrite sql_update_ids_nil.
    replace (set_tt_subs (tt_subs t) t) with t by by destruct t.
    unfold put_topic. rewrite insert_id by done. by destruct (w_db w).
  - intros w1 (Hdb & _). unfold countReplayableMessages. rewrite bool_decide_eq_true_2 by done.
    apply iwp_withTx; [no_fault|]. rewrite Hdb.
    eapply (wp_on_topic_query _ _ _ _ _ (fun _ t => Z.of_nat (sql_count (fun _ => replayable_sub since t)
      (tt_subs t)))); [apply Hrel|exact Ht|]. split; [|done]. subst ids. by rewrite length_fmap.
  - intros. by apply topic_fetch.
  - intros. by apply (topic_apply _ _ _ since).
Qed.

(** Alice has acknowledged her copy of message 5. *)
Definition replay_topic_tables : topicTables :=
  set_tt_subs (<[101 := ack_sub 7 sample_sub_alice]> {[102 := sample_sub_bob]}) sample_topic_tables.
Definition replay_topic_world : world :=
  new_world (put_topic sample_topic_meta replay_topic_tables (w_db sample_topic_world)).

Lemma replay_topic_at :
  topic_at (w_db replay_topic_world) "news" sample_topic_meta replay_topic_tables.
Proof. split; vm_compute; reflexivity. Qed.

Lemma ReplayFrom_topic_exact_witness :
  exists w', ReplayFrom "news" QueueTypePubSub 0 (replay_opts false) distinct_oracle
     replay_topic_world = (Ok 1, w').
Proof.
  destruct (ReplayFrom_topic_exact distinct_oracle replay_topic_world "news" 0 (replay_opts false)
    sample_topic_meta replay_topic_tables distinct_oracle_reliable distinct_oracle_distinct
    (gc_fresh_empty _ _) eq_refl eq_refl eq_refl replay_topic_at) as (w' & H & _).
  exists w'. exact H.
Defined.

(** What replaying message [id] of a channel comes to. *)
Definition message_replayed (o : oracle) (w : world) (name : string) (id : uuid)
    (opts : ReplayOptions) (meta : queueMetadata) (ct : channelTables) (res : result unit)
    (w' : world) : Prop :=
  match ct_msgs ct !! id with
  | None => res = Err ErrReplayMessageNotFound /\ w_db w' = w_db w
  | Some r =>
      if decide (c_status r = MessageStatusProcessing)
      then res = Err ErrMessageInProcessing /\ w_db w' = w_db w
      else res = Ok tt /\
        if DryRun opts then w_db w' = w_db w
        else exists m lg', ran w w' m /\
          w_db w' = set_replay_log lg' (put_channel meta
            (set_ct_msgs (<[id := replay_row_now (e_now (o m)) r]> (ct_msgs ct)) ct) (w_db w)) /\
          audited QueueTypeChannel name "message_id" (PerformedBy opts) (db_replay_log (w_db w)) lg' 1
  end.

Lemma iwp_checkMessageExists o w w1 name id opts meta ct :
  reliable o -> DryRun opts = true -> channel_at (w_db w) name meta ct -> frame w w1 ->
  iwp o w1 (checkMessageExists (q_TableName meta) id)
    (fun a => message_replayed o w name id opts meta ct (Ok a))
    (fun x => message_replayed o w name id opts meta ct (Err x)).
Proof.
  intros Hrel Hdry [_ Hct] (Hdb & _). unfold checkMessageExists. iwp_step.
  apply iwp_withTx; [no_fault|].
  eapply (wp_on_channel_query _ _ _ _ ct (fun _ t => c_status <$> ct_msgs t !! id));
    [apply Hrel|by rewrite Hdb|]. unfold message_replayed. rewrite Hdry.
  destruct (ct_msgs ct !! id) as [r|]; cbn; [|by iwp_step].
  destruct (c_status r) eqn:Hst; iwp_step; cbn; done.
Qed.

Lemma iwp_executeReplayMessage o w w1 name id opts meta ct :
  reliable o -> fresh_from o (w_tick w) (db_replay_log (w_db w)) -> DryRun opts = false ->
  text_ok (String.list_byte_of_string (PerformedBy opts)) = true ->
  channel_at (w_db w) name meta ct -> frame w w1 ->
  iwp o w1 (executeReplayMessage name (q_TableName meta) QueueTypeChannel id opts)
    (fun a => message_replayed o w name id opts meta ct (Ok a))
    (fun x => message_replayed o w name id opts meta ct (Err x)).
Proof.
  intros Hrel Hfr Hdry Htext [_ Hct] (Hdb & _ & _ & Hti). unfold executeReplayMessage, replay_message_row.
  apply iwp_withTx; [no_fault|]. rewrite Hdb. wp_step.
  eapply on_channel_wp; [exact Hct|]. wp_step; [no_fault|].
  destruct (sql_update_id _ _ _ (ct_msgs ct)) as [m n] eqn:Hu. cbn.
  destruct (sql_update_id_inv _ _ _ _ _ _ Hu) as [(r & Hr & Hc & -> & ->)|(Hmiss & -> & ->)]; cbn [Nat.eqb].
  - apply negb_true_iff, bool_decide_eq_false_1 in Hc.
    apply wp_writeReplayLog; [no_fault|by left|left; by apply Hfr|done|].
    intros lg' Haud _. unfold message_replayed. rewrite Hr, decide_False, Hdry by done.
    split; [done|]. exists (w_tick w1), lg'. split_and!; [unfold ran; cbn; lia|done|done].
  - wp_step. eapply (wp_on_channel_query _ _ _ _ (set_ct_msgs (ct_msgs ct) ct)
      (fun _ t => c_status <$> ct_msgs t !! id)); [apply Hrel|apply lookup_insert_eq|].
    unfold message_replayed. cbn. destruct (ct_msgs ct !! id) as [r|] eqn:Hr; cbn; wp_step; [|done].
    specialize (Hmiss r eq_refl). apply negb_false_iff, bool_decide_eq_true_1 in Hmiss.
    by rewrite decide_True.
Qed.

(** Replaying one message resets it, makes it available at once and writes one
    audit row; a message that is being processed or does not exist is refused with its
    own error and nothing changes, in a dry run as in a real one; topics are refused. *)
Theorem ReplayMessage_exact (o : oracle) (w : world) (name : string) (id : uuid)
    (opts : ReplayOptions) (meta : queueMetadata) (ct : channelTables) :
  reliable o -> fresh_from o (w_tick w) (db_replay_log (w_db w)) ->
  w_closed w = false -> validateReplayOpts opts = Ok tt ->
  text_ok (String.list_byte_of_string (PerformedBy opts)) = true ->
  channel_at (w_db w) name meta ct ->
  ReplayMessage name QueueTypePubSub id opts o w = (Err ErrReplayNotSupported, w) /\
  exists res w', ReplayMessage name QueueTypeChannel id opts o w = (res, w') /\
    message_replayed o w name id opts meta ct res w'.
Proof.
  intros Hrel Hfr Hcl Hv Htext Hat.
  split. { unfold ReplayMessage, mbind, io_bind, checkClosed. by rewrite Hcl. }
  enough (iwp o w (ReplayMessage name QueueTypeChannel id opts)
    (fun a => message_replayed o w name id opts meta ct (Ok a))
    (fun x => message_replayed o w name id opts meta ct (Err x))) as Hi.
  { unfold iwp in Hi. destruct (ReplayMessage name _ id opts o w) as [[a|x] w']; by eexists _, w'. }
  unfold ReplayMessage. iwp_step. iwp_step; [congruence|intros _].
  rewrite bool_decide_eq_false_2 by done. do 2 iwp_step. rewrite Hv.
  unfold getReplayQueueMetadata. do 2 iwp_step. destruct Hat as [Hl Hct]. apply iwp_getQueueMetadata.
  2: { intros w1 Hn. congruence. }
  2: { no_fault. }
  intros meta' w1 Hl' Hf1. rewrite Hl in Hl'. injection Hl' as <-.
  destruct (DryRun opts) eqn:Hdry.
  - by apply iwp_checkMessageExists.
  - by apply iwp_executeReplayMessage.
Qed.

Lemma ReplayMessage_exact_witness :
  exists res w', ReplayMessage "jobs" QueueTypeChannel 5 (replay_opts false) distinct_oracle
    replay_world = (res, w') /\
    message_replayed distinct_oracle replay_world "jobs" 5 (replay_opts false) sample_meta
      replay_tables res w' /\ res = Ok tt.
Proof.
  destruct (ReplayMessage_exact distinct_oracle replay_world "jobs" 5 (replay_opts false) sample_meta
    replay_tables distinct_oracle_reliable (gc_fresh_empty _ _) eq_refl eq_refl eq_refl replay_at)
    as (_ & res & w' & Hr & Hm).
  exists res, w'. refine (conj Hr (conj Hm _)). exact (proj1 Hm).
Defined.

(** ** Listing dead letters *)

(** A client that follows the cursors until a page is not full, [fuel] pages at most. *)
Fixpoint list_dead_letters (fuel : nat) (name : string) (queueType : QueueType) (page : DLQPage) :
    io (list DLQMessage) :=
  match fuel with
  | O => mret []
  | Datatypes.S fuel =>
      '(messages, next) ← ListDLQMessages name queueType page;
      if Z.of_nat (length messages) <? PageLimit next then mret messages
      else rest ← list_dead_letters fuel name queueType next; mret (messages ++ rest)
  end.

Definition dead_letters (m : gmap Z dlqEntry) : list (Z * dlqEntry) :=
  sql_select (fun _ _ => true) (fun _ => 0) m.

Lemma resolveDLQLimit_bounds n : 1 <= resolveDLQLimit n <= MaxDLQPageSize.
Proof.
  unfold resolveDLQLimit, DefaultDLQPageSize, MaxDLQPageSize.
  destruct (Z.leb_spec n 0); [lia|]. destruct (Z.ltb_spec 1000 n); lia.
Qed.

Lemma resolveDLQLimit_idem n : resolveDLQLimit (resolveDLQLimit n) = resolveDLQLimit n.
Proof.
  pose proof (resolveDLQLimit_bounds n) as Hb. revert Hb. generalize (resolveDLQLimit n). intros k Hk.
  unfold resolveDLQLimit. destruct (Z.leb_spec k 0); [lia|].
  destruct (Z.ltb_spec MaxDLQPageSize k); lia.
Qed.

Lemma dead_letters_sorted m : StronglySorted Z.lt (dead_letters m).*1.
Proof.
  pose proof (sql_select_sorted (fun _ _ => true) (fun _ => 0) m) as Hs.
  pose proof (NoDup_sql_select (fun _ _ => true) (fun _ => 0) m) as Hnd.
  fold (dead_letters m) in Hs, Hnd. induction Hs as [|x l Hl IH Hx]; [constructor|].
  cbn in *. apply NoDup_cons in Hnd as [Hx' Hnd]. constructor; [by apply IH|].
  apply Forall_fmap. rewrite Forall_forall in *. intros y Hy. specialize (Hx y Hy).
  unfold row_le in Hx. cbn. assert (x.1 <> y.1); [|lia]. intros Heq. apply Hx'.
  rewrite Heq. by apply list_elem_of_fmap_2.
Qed.

(** The page after the entries [pre]. *)
Lemma dlq_page m pre rest n :
  dead_letters m = pre ++ rest -> m !! nil_uuid = None ->
  sql_select_limit n (fun i _ => past (cursor pre.*1) i) (fun _ => 0) m = take n rest.
Proof.
  intros Hsplit Hnil. unfold sql_select_limit. f_equal.
  rewrite (sql_select_ext _ (fun i r => true && past (cursor pre.*1) i)) by done.
  rewrite (sql_select_filter (fun _ _ => true) (fun i _ => past (cursor pre.*1) i)).
  fold (dead_letters m). rewrite Hsplit. unfold cursor. rewrite fmap_last.
  destruct (last pre) as [[j d]|] eqn:Hl; cbn.
  - assert ((j, d) ∈ dead_letters m) as [Hj _]%elem_of_sql_select.
    { rewrite Hsplit. apply elem_of_app. left. by apply last_Some_elem_of. }
    rewrite <-(keyset_resume pre rest (j, d)) at 2; [..|done]; cycle 1.
    + rewrite <-Hsplit. apply sql_select_sorted.
    + rewrite <-Hsplit. apply NoDup_sql_select.
    + apply list_filter_iff. intros [i x]. cbn. unfold past.
      rewrite (proj2 (Z.eqb_neq j nil_uuid)) by congruence. done.
  - apply last_None in Hl as ->. by apply filter_keep.
Qed.

Lemma wp_on_dead_letters {A} e n d t m (f : env -> gmap Z dlqEntry -> result A)
    (Q : A -> nat -> option DB -> Prop) E :
  (forall x, faulty e -> E (ErrDriver x)) -> get_dlq t d = Some m ->
  match f e m with Ok a => Q a (S n) (Some d) | Err er => E er end ->
  wp e n (Some d) (on_dead_letters t f) Q E.
Proof. intros HF Hm HQ. eapply wp_zoom; [exact Hm|]. by wp_step. Qed.

Lemma iwp_ListDLQMessages o w name qt meta m pre rest lim :
  reliable o -> w_closed w = false -> qt = QueueTypeChannel \/ qt = QueueTypePubSub ->
  cache_coherent w -> lookup_queue qt name (w_db w) = Some meta ->
  get_dlq (q_TableName meta) (w_db w) = Some m -> m !! nil_uuid = None ->
  dead_letters m = pre ++ rest ->
  let got := take (Z.to_nat (resolveDLQLimit lim)) rest in
  iwp o w (ListDLQMessages name qt (mkDLQPage (cursor pre.*1) lim))
    (fun a w' => a = (scanDLQMessage <$> got, mkDLQPage (cursor (pre ++ got).*1) (resolveDLQLimit lim)) /\
       frame w w' /\ cache_coherent w')
    (fun _ _ => False).
Proof.
  intros Hrel Hcl Hqt Hc Hl Hm Hnil Hsplit got. unfold ListDLQMessages.
  iwp_step. iwp_step; [congruence|intros _]. iwp_step.
  apply iwp_cachedTableName_coherent; [done..| |congruence].
  intros meta' w1 Hl' Hf1 Hc1. rewrite Hl in Hl'. injection Hl' as <-. iwp_step.
  pose proof Hf1 as (Hdb & _). apply iwp_withTx; [no_fault|].
  eapply wp_on_dead_letters; [no_fault|by rewrite Hdb|]. cbn [AfterID PageLimit].
  rewrite (dlq_page m pre rest) by done. fold got. iwp_step. split; [|split; [|done]].
  - f_equal. f_equal. unfold cursor. rewrite fmap_app, last_app, fmap_last, !fmap_last.
    destruct (last got) as [x|]; [done|]. cbn. by destruct (last pre).
  - eapply frame_trans; [exact Hf1|]. by destruct w1.
Qed.

Lemma iwp_list_dead_letters fuel o w name qt meta m pre rest lim :
  reliable o -> w_closed w = false -> qt = QueueTypeChannel \/ qt = QueueTypePubSub ->
  cache_coherent w -> lookup_queue qt name (w_db w) = Some meta ->
  get_dlq (q_TableName meta) (w_db w) = Some m -> m !! nil_uuid = None ->
  dead_letters m = pre ++ rest -> (length rest < fuel)%nat ->
  iwp o w (list_dead_letters fuel name qt (mkDLQPage (cursor pre.*1) lim))
    (fun a w' => a = scanDLQMessage <$> rest /\ frame w w') (fun _ _ => False).
Proof.
  intros Hrel Hcl Hqt. revert w Hcl pre rest lim. induction fuel as [|fuel IH];
    intros w Hcl pre rest lim Hc Hl Hm Hnil Hsplit Hfuel; [lia|]. cbn [list_dead_letters].
  iwp_step. eapply iwp_mono; [by eapply iwp_ListDLQMessages| |done].
  intros a w1 (-> & Hf1 & Hc1). pose proof Hf1 as (Hdb & Hcl1 & _). cbn [PageLimit].
  set (k := Z.to_nat (resolveDLQLimit lim)). pose proof (resolveDLQLimit_bounds lim) as Hk.
  rewrite length_fmap, length_take.
  destruct (Z.ltb_spec (Z.of_nat (Nat.min k (length rest))) (resolveDLQLimit lim)).
  - iwp_step. rewrite take_ge by lia. done.
  - iwp_step. eapply iwp_mono; [apply (IH w1 ltac:(congruence) (pre ++ take k rest) (drop k rest))| |done];
      rewrite ?Hdb; try done.
    + by rewrite <-(assoc_L (++)), take_drop.
    + rewrite length_drop. lia.
    + intros b w2 (-> & Hf2). iwp_step. split; [by rewrite <-fmap_app, take_drop|].
      by eapply frame_trans.
Qed.

(** Following the cursors of ListDLQMessages from the zero page on ends, and the
    pages put together are the dead letters of the queue, each exactly once and in id
    order, whatever page size was asked for; the database does not change. *)
Theorem ListDLQMessages_complete (o : oracle) (w : world) (name : string) (qt : QueueType)
    (meta : queueMetadata) (m : gmap Z dlqEntry) (lim : Z) :
  reliable o -> w_closed w = false -> qt = QueueTypeChannel \/ qt = QueueTypePubSub ->
  cache_coherent w -> lookup_queue qt name (w_db w) = Some meta ->
  get_dlq (q_TableName meta) (w_db w) = Some m -> m !! nil_uuid = None ->
  exists l w', list_dead_letters (S (size m)) name qt (mkDLQPage nil_uuid lim) o w = (Ok l, w') /\
    w_db w' = w_db w /\ l = scanDLQMessage <$> dead_letters m /\
    StronglySorted Z.lt (dm_ID <$> l) /\
    (forall k d, m !! k = Some d <-> (k, d) ∈ dead_letters m).
Proof.
  intros Hrel Hcl Hqt Hc Hl Hm Hnil.
  pose proof (iwp_list_dead_letters (S (size m)) o w name qt meta m [] (dead_letters m) lim Hrel Hcl
    Hqt Hc Hl Hm Hnil eq_refl) as Hi.
  specialize (Hi ltac:(pose proof (length_sql_select (fun _ _ => true) (fun _ => 0) m);
    unfold dead_letters; lia)).
  change (cursor (@nil (Z * dlqEntry)).*1) with nil_uuid in Hi. unfold iwp in Hi.
  destruct (list_dead_letters _ _ _ _ o w) as [[l|x] w']; [|done]. destruct Hi as [-> (Hdb & _)].
  exists (scanDLQMessage <$> dead_letters m), w'. split_and!; [done..| |].
  - rewrite <-list_fmap_compose. apply (dead_letters_sorted m).
  - intros k d. unfold dead_letters. rewrite elem_of_sql_select. naive_solver.
Qed.

Lemma ListDLQMessages_complete_witness :
  exists l w', list_dead_letters 3 "jobs" QueueTypeChannel (mkDLQPage nil_uuid 1) calm_oracle
    replay_world = (Ok l, w') /\ dm_OriginalMessageID <$> l = [2; 6].
Proof.
  destruct (ListDLQMessages_complete calm_oracle replay_world "jobs" QueueTypeChannel sample_meta
    (ct_dlq replay_tables) 1 calm_oracle_reliable eq_refl (or_introl eq_refl)) as (l & w' & H & _ & Hl & _).
  - intros qt name item _ Hi. cbn in Hi. by rewrite lookup_empty in Hi.
  - reflexivity.
  - reflexivity.
  - reflexivity.
  - exists l, w'. split; [exact H|]. rewrite Hl. vm_compute. reflexivity.
Defined.
