(* ===== verification/ReplayDlq.v ===== *)
(** * What [ReplayDLQ] does ([replay.go])

    The dead letters a replay puts back, page by page, the equivalence of the pages
    with one pass over the dead letters in id order, and what holds when the server
    fails half-way. *)

From S2P Require Import Prelude Types Tx Utf8 MetadataCache World Config Queries Channel Publish PubSub Gc GcChannel Replay.
From Stdlib Require Import ZArith Lia.
Local Open Scope Z_scope.

(** ** The dead letters a replay puts back *)

Definition orig (x : Z * dlqEntry) : uuid := d_original_message_id x.2.

(** Of the dead letters [l], in order, those whose message id is free at their turn. *)
Fixpoint first_free (taken : gset Z) (l : list (Z * dlqEntry)) : list (Z * dlqEntry) :=
  match l with
  | [] => []
  | x :: l =>
      if decide (orig x ∈ taken) then first_free taken l
      else x :: first_free ({[orig x]} ∪ taken) l
  end.

(** The row a dead letter becomes, at time [clock k]. *)
Definition revived (clock : Z -> timestamp) (mr : Z) (x : Z * dlqEntry) : Z * channelRow :=
  (orig x, new_channel_row (clock x.1) (d_payload x.2) (d_metadata x.2) mr).

(** The tables once the dead letters [l] are back on the queue. *)
Definition revive (clock : Z -> timestamp) (mr : Z) (l : list (Z * dlqEntry)) (t : channelTables) :
    channelTables :=
  mkChannelTables (ct_msgs t ∪ list_to_map (revived clock mr <$> l)) (sql_delete_ids l.*1 (ct_dlq t)).

Section first_free.
Implicit Types (l : list (Z * dlqEntry)) (taken : gset Z).

Lemma elem_of_first_free taken l x :
  x ∈ first_free taken l -> x ∈ l /\ orig x ∉ taken.
Proof.
  revert taken. induction l as [|y l IH]; intros taken; cbn; [by intros ?%elem_of_nil|].
  case_decide as Hy.
  - intros [Hx Ht]%IH. split; [by right|done].
  - rewrite !elem_of_cons. intros [->|[Hx Ht]%IH]; [by auto|]. split; [by right|set_solver].
Qed.

Lemma NoDup_first_free taken l : NoDup (orig <$> first_free taken l).
Proof.
  revert taken. induction l as [|y l IH]; intros taken; cbn; [constructor|].
  case_decide; [apply IH|]. apply NoDup_cons. split; [|apply IH].
  intros (x & Heq & [_ Hx]%elem_of_first_free)%list_elem_of_fmap. set_solver.
Qed.

Lemma sublist_first_free taken l : first_free taken l `sublist_of` l.
Proof.
  revert taken. induction l as [|y l IH]; intros taken; cbn; [constructor|].
  case_decide; constructor; apply IH.
Qed.

Lemma first_free_app taken l l' :
  first_free taken (l ++ l') =
  first_free taken l ++ first_free (list_to_set (orig <$> first_free taken l) ∪ taken) l'.
Proof.
  revert taken. induction l as [|y l IH]; intros taken; cbn; [by rewrite (left_id_L ∅ (∪))|].
  case_decide as Hy; [apply IH|]. cbn. rewrite IH. do 3 f_equal. set_solver.
Qed.

(** Ids already taken only take dead letters out. *)
Lemma first_free_filter taken taken' l :
  filter (fun x => orig x ∉ taken') (first_free taken l) = first_free (taken' ∪ taken) l.
Proof.
  revert taken. induction l as [|y l IH]; intros taken; cbn [first_free]; [done|].
  destruct (decide (orig y ∈ taken)) as [Hy|Hy].
  { rewrite (decide_True (P := orig y ∈ taken' ∪ taken)) by set_solver. apply IH. }
  rewrite filter_cons. destruct (decide (orig y ∈ taken')) as [Hy'|Hy'].
  - rewrite (decide_False (P := orig y ∉ taken')) by naive_solver.
    rewrite (decide_True (P := orig y ∈ taken' ∪ taken)) by set_solver. rewrite IH. f_equal. set_solver.
  - rewrite (decide_True (P := orig y ∉ taken')) by done.
    rewrite (decide_False (P := orig y ∈ taken' ∪ taken)) by set_solver. rewrite IH. do 2 f_equal.
    set_solver.
Qed.

(** Without repeated ids, the dead letters whose message is not live. *)
Lemma first_free_distinct taken l :
  NoDup (orig <$> l) -> first_free taken l = filter (fun x => orig x ∉ taken) l.
Proof.
  revert taken. induction l as [|y l IH]; intros taken; cbn [first_free]; [done|].
  rewrite fmap_cons, NoDup_cons. intros [Hy Hl]. rewrite filter_cons. case_decide as Ht.
  { rewrite decide_False by naive_solver. by apply IH. }
  rewrite decide_True by done. f_equal. rewrite IH by done. apply filter_iff_in.
  intros x Hx. assert (orig x <> orig y); [|set_solver].
  intros Heq. apply Hy. rewrite <-Heq. by apply list_elem_of_fmap_2.
Qed.

(** [dedupeDLQByMessageID] keeps the first dead letter of each id. *)
Lemma dedupe_first_free seen l : dedupe seen (scan_dlq <$> l) = scan_dlq <$> first_free seen l.
Proof.
  revert seen. induction l as [|y l IH]; intros seen; cbn; [done|].
  change (dr_originalMessageID (scan_dlq y)) with (orig y).
  case_bool_decide; [rewrite decide_True by done|rewrite decide_False by done]; cbn; by rewrite IH.
Qed.

End first_free.

(** ** One page of a channel's dead letters *)

Section channel_page.
Context (mr : Z).
Implicit Types (t : channelTables) (clock : Z -> timestamp).

Lemma revived_fst clock l : (revived clock mr <$> l).*1 = orig <$> l.
Proof. rewrite <-list_fmap_compose. done. Qed.

Lemma revive_nil clock t : revive clock mr [] t = t.
Proof. unfold revive. cbn. rewrite (right_id_L ∅ (∪)), sql_delete_ids_nil. by destruct t. Qed.

(** The rows a multi-row insert of the dead letters adds are those of the free ids. *)
Lemma revive_insert clock t l :
  let l' := first_free (dom (ct_msgs t)) l in
  let ins := sql_insert_many (revived clock mr <$> first_free ∅ l) (ct_msgs t) in
  ins.1 = ct_msgs t ∪ list_to_map (revived clock mr <$> l') /\ ins.2 ≡ₚ orig <$> l'.
Proof.
  cbn zeta. set (m := ct_msgs t). set (l' := first_free (dom m) l).
  assert (filter (fun x => orig x ∉ dom m) (first_free ∅ l) = l') as Hl'.
  { rewrite first_free_filter. by rewrite (right_id_L ∅ (∪)). }
  assert (forall x, x ∈ l' <-> x ∈ first_free ∅ l /\ m !! orig x = None) as Hin.
  { intros x. rewrite <-Hl', list_elem_of_filter, not_elem_of_dom. tauto. }
  split.
  - rewrite sql_insert_many_union. apply map_eq. intros i. rewrite !lookup_union.
    destruct (m !! i) as [r|] eqn:Hi; [by rewrite !union_Some_l|]. rewrite !(left_id_L None (∪)).
    apply option_eq. intros r.
    rewrite <-!elem_of_list_to_map by (rewrite revived_fst; apply NoDup_first_free).
    rewrite !list_elem_of_fmap. split; intros (x & Hx & Hxl); exists x; (split; [done|]); apply Hin in Hxl || apply Hin;
      [|tauto]. split; [done|]. by injection Hx as -> _.
  - apply NoDup_Permutation; [apply NoDup_sql_insert_many|apply NoDup_first_free|].
    intros i. rewrite elem_of_sql_insert_many, revived_fst, !list_elem_of_fmap. setoid_rewrite Hin.
    naive_solver.
Qed.

Lemma wp_reinsertDLQChannel e n t l (Q : Z -> nat -> option channelTables -> Prop) E :
  (forall x, faulty e -> E (ErrDriver x)) -> 0 <= mr \/ E (ErrDriver check_violation) ->
  let l' := first_free (dom (ct_msgs t)) l in
  (forall n', (n <= n')%nat ->
     Q (Z.of_nat (length l')) n' (Some (revive (fun _ => e_now e) mr l' t))) ->
  wp e n (Some t) (reinsertDLQChannel mr (scan_dlq <$> l)) Q E.
Proof.
  intros HF Hmr l' HQ. unfold reinsertDLQChannel. destruct (decide (l = [])) as [->|Hl].
  { cbn. wp_step. cbn in HQ. rewrite revive_nil in HQ. by apply HQ. }
  destruct (scan_dlq <$> l) as [|y ys] eqn:Hs; [by apply fmap_nil_inv in Hs|]. rewrite <-Hs. clear y ys Hs.
  unfold dedupeDLQByMessageID. rewrite dedupe_first_free. wp_step. unfold insertDLQChannelMessages. wp_step.
  destruct (Z.ltb_spec mr 0) as [Hneg|_]; [destruct Hmr; [lia|done]|].
  pose proof (revive_insert (fun _ => e_now e) t l) as [Hm Hids]. fold l' in Hm, Hids.
  replace (map _ (scan_dlq <$> first_free ∅ l)) with (revived (fun _ => e_now e) mr <$> first_free ∅ l).
  2: { change (map ?f ?x) with (f <$> x). by rewrite <-list_fmap_compose. }
  destruct (sql_insert_many _ _) as [m ids]. cbn in Hm, Hids. subst m.
  assert (NoDup ids) as Hnd by (rewrite Hids; apply NoDup_first_free).
  rewrite size_list_to_set by done.
  assert (length ids = length l') as -> by by rewrite Hids, length_fmap. destruct (length l' =? 0)%nat eqn:Hz.
  - apply Nat.eqb_eq, nil_length_inv in Hz. wp_step. rewrite Hz in *. cbn.
    rewrite (right_id_L ∅ (∪)). specialize (HQ (S n)). rewrite revive_nil in HQ.
    replace (set_ct_msgs (ct_msgs t) t) with t by by destruct t. apply HQ. lia.
  - wp_step. wp_step. wp_step. cbn.
    replace (dr_id <$> filter _ (scan_dlq <$> first_free ∅ l)) with l'.*1; [apply HQ; lia|].
    rewrite filter_list_fmap, <-list_fmap_compose. unfold l' at 1.
    rewrite <-(right_id_L ∅ (∪) (dom (ct_msgs t))), <-first_free_filter.
    apply (f_equal (fmap fst)), filter_iff_in. intros x Hx. cbn.
    change (d_original_message_id x.2) with (orig x). rewrite elem_of_list_to_set, Hids.
    rewrite list_elem_of_fmap. unfold l'. rewrite <-(right_id_L ∅ (∪) (dom (ct_msgs t))).
    setoid_rewrite <-first_free_filter. setoid_rewrite list_elem_of_filter.
    rewrite (right_id_L ∅ (∪)). split; [intros Hd; by exists x|by intros (x' & -> & ? & _)].
Qed.

End channel_page.

(** A transaction that ends with the dry-run sentinel leaves the database alone. *)
Lemma iwp_withTx_dryRun_lossy {A} o w (fn : tx DB (A * bool)) (Q : A -> world -> Prop) E :
  let e := o (w_tick w) in
  (forall d, faulty e -> E (ErrDriver d) (w_next w)) ->
  wp e 0 (Some (w_db w)) fn
    (fun a _ s => if a.2 then Q a.1 (w_next w)
                  else match s with
                       | Some d => Q a.1 (set_w_db d (w_next w)) /\
                           forall de, e_commit e = Some (de, true) -> E (ErrDriver de) (set_w_db d (w_next w))
                       | None => E (ErrDriver failed_tx) (w_next w)
                       end)
    (fun x => E x (w_next w)) ->
  iwp o w (withTx_dryRun fn) Q E.
Proof.
  intros e HF Hwp. unfold iwp, withTx_dryRun. fold e.
  assert (iwp o w ('(a, _) ← withTx fn; mret a) Q E \/
    exists a n s, fn e 0%nat (Some (w_db w)) = TOk (a, true) n s) as [Hi|(a & n & s & Hfn)].
  { destruct (fn e 0%nat (Some (w_db w))) as [[a []] n s|x] eqn:Hfn; [by right; eauto|..]; left;
      iwp_step; (apply iwp_withTx_lossy; [done|]); unfold wp in *; fold e; rewrite Hfn in *; [|done];
      cbn in Hwp; destruct s; [|done]. destruct Hwp as [HQ HE]. split; [by iwp_step|done]. }
  - destruct (e_begin e); [exact Hi|]. destruct (fn e 0%nat (Some (w_db w))) as [[a []] n s|x] eqn:Hfn;
      [|exact Hi..]. unfold wp in Hwp. by rewrite Hfn in Hwp.
  - destruct (e_begin e) as [d|] eqn:Hb.
    + unfold mbind, io_bind, withTx. fold e. rewrite Hb. apply HF. left. by exists d.
    + rewrite Hfn. unfold wp in Hwp. by rewrite Hfn in Hwp.
Qed.

Lemma iwp_withTx_dryRun {A} o w (fn : tx DB (A * bool)) (Q : A -> world -> Prop) E :
  let e := o (w_tick w) in
  (forall d, faulty e -> forall w', E (ErrDriver d) w') ->
  wp e 0 (Some (w_db w)) fn
    (fun a _ s => if a.2 then Q a.1 (w_next w)
                  else match s with
                       | Some d => Q a.1 (set_w_db d (w_next w))
                       | None => E (ErrDriver failed_tx) (w_next w)
                       end)
    (fun x => E x (w_next w)) ->
  iwp o w (withTx_dryRun fn) Q E.
Proof.
  intros e HF Hwp. apply iwp_withTx_dryRun_lossy; [by intros; apply HF|].
  eapply wp_mono; [exact Hwp| |done]. intros [a []] n [d|]; [done..| |done]. intros HQ. split; [done|].
  intros de He. apply HF. right. left. eauto.
Qed.

Lemma last_scan (l : list (Z * dlqEntry)) : last (scan_dlq <$> l) = scan_dlq <$> last l.
Proof. apply fmap_last. Qed.

(** One page of dead letters, of a channel or a topic: the rows [got] it examines,
    the [cnt] of them that reinserting puts back, the database [R] then describes, and
    the audit row. *)
Lemma wp_page_body e cfg name tableName qt after k by_ mr (dry : bool) d m (cnt : nat)
    (R : DB -> Prop) (Q : pageResult * bool -> nat -> option DB -> Prop) E :
  (forall x, faulty e -> E (ErrDriver x)) ->
  text_ok (String.list_byte_of_string by_) = true \/ E (ErrDriver untranslatable) ->
  (forall n i, db_replay_log d !! e_gen e n i = None) \/ E (ErrDriver unique_violation) -> 1 <= k ->
  get_dlq tableName d = Some m ->
  let got := sql_select_limit (Z.to_nat k) (fun i _ => past after i && unlocked e i) (fun _ => 0) m in
  (forall n, got <> [] ->
     wp e n (Some d) (reinsertDLQMessages cfg name tableName qt mr (scan_dlq <$> got))
       (fun c _ s => exists d', s = Some d' /\ c = Z.of_nat cnt /\
          db_replay_log d' = db_replay_log d /\ R d') E) ->
  (got = [] -> cnt = 0%nat /\ R d) ->
  (forall n n0 lg' d', (forall j, j <> e_gen e n0 0%nat -> lg' !! j = db_replay_log d !! j) ->
     audited qt name "dlq" by_ (db_replay_log d) lg' (if dry then 0 else Z.of_nat cnt) ->
     (dry = true -> lg' = db_replay_log d) -> (got = [] -> d' = d) -> R d' ->
     Q (mkPageResult (Z.of_nat cnt) (default after (last got.*1)) (Z.of_nat (length got)),
        dry && negb (bool_decide (got = []))) n (Some (set_replay_log lg' d'))) ->
  wp e 0 (Some d) (dlq_page_body cfg name tableName qt after k by_ mr dry) Q E.
Proof.
  intros HF Htext Hlog Hk Hm got Hre Hnone HQ. unfold dlq_page_body, fetchDLQMessages. wp_step.
  eapply wp_on_dead_letters; [done|exact Hm|]. rewrite (proj2 (Z.leb_gt _ _)) by lia.
  fold got. rewrite last_scan.
  assert (forall d', db_replay_log d' = db_replay_log d -> set_replay_log (db_replay_log d) d' = d') as Hid.
  { intros d' <-. by destruct d'. }
  destruct (last got) as [x|] eqn:Hlast; cbn [fmap option_fmap option_map].
  - assert (got <> []) as Hne by (intros Hn; by rewrite Hn in Hlast).
    rewrite fmap_last, Hlast in HQ. cbn in HQ. rewrite bool_decide_eq_false_2, andb_true_r in HQ by done.
    wp_step. eapply wp_mono; [by apply Hre| |done]. intros c n' ? (d' & -> & -> & Hlg & HR).
    rewrite length_fmap. wp_step. destruct (Z.ltb_spec 0 (Z.of_nat cnt)) as [Hpos|Hz]; cbn [andb].
    + destruct dry; cbn [negb].
      { do 2 wp_step. rewrite <-(Hid d' Hlg). apply (HQ _ 0%nat); [done|apply audited_refl|done..]. }
      apply wp_writeReplayLog; [done..|rewrite Hlg; destruct Hlog as [Hlog|?]; [left; apply Hlog|by right]
        |done|]. rewrite Hlg. intros lg' Haud Hj. wp_step. by eapply HQ.
    + do 2 wp_step. rewrite <-(Hid d' Hlg). apply (HQ _ 0%nat); [done| |done..].
      replace (Z.of_nat cnt) with 0 by lia. destruct dry; apply audited_refl.
  - apply last_None in Hlast as Hnil. destruct (Hnone Hnil) as [Hc HR]. wp_step.
    rewrite Hnil, Hc in HQ. cbn in HQ. rewrite andb_false_r in HQ.
    rewrite <-(Hid d eq_refl). apply (HQ _ 0%nat); [done| |done..]. destruct dry; apply audited_refl.
Qed.

Section dlq_pages.
Context (cfg : queueConfig) (name : string) (meta : queueMetadata) (d0 : DB) (mr : Z) (by_ : string).

(** The database with the channel's tables at [t] and the audit log at [lg]. *)
Definition chan_db (lg : gmap Z replayLogRow) (t : channelTables) : DB :=
  set_replay_log lg (put_channel meta t d0).

Lemma chan_db_lookup lg t : db_channels (chan_db lg t) !! q_TableName meta = Some t.
Proof. cbn. apply lookup_insert_eq. Qed.

Lemma chan_db_dlq lg t : get_dlq (q_TableName meta) (chan_db lg t) = Some (ct_dlq t).
Proof. unfold get_dlq. by rewrite chan_db_lookup. Qed.

(** One page: what it examines, what it puts back, and its audit row. *)
Lemma wp_dlq_page e lg t after k (dry : bool) (Q : pageResult * bool -> nat -> option DB -> Prop) E :
  (forall x, faulty e -> E (ErrDriver x)) -> 0 <= mr \/ E (ErrDriver check_violation) ->
  text_ok (String.list_byte_of_string by_) = true \/ E (ErrDriver untranslatable) ->
  (forall n i, lg !! e_gen e n i = None) \/ E (ErrDriver unique_violation) -> 1 <= k ->
  let got := sql_select_limit (Z.to_nat k) (fun i _ => past after i && unlocked e i) (fun _ => 0)
               (ct_dlq t) in
  let l' := first_free (dom (ct_msgs t)) got in
  (forall n n0 lg', (forall j, j <> e_gen e n0 0%nat -> lg' !! j = lg !! j) ->
     audited QueueTypeChannel name "dlq" by_ lg lg' (if dry then 0 else Z.of_nat (length l')) ->
     (dry = true -> lg' = lg) ->
     Q (mkPageResult (Z.of_nat (length l')) (default after (last got.*1)) (Z.of_nat (length got)),
        dry && negb (bool_decide (got = []))) n
       (Some (chan_db lg' (revive (fun _ => e_now e) mr l' t)))) ->
  wp e 0 (Some (chan_db lg t))
    (dlq_page_body cfg name (q_TableName meta) QueueTypeChannel after k by_ mr dry) Q E.
Proof.
  intros HF Hmr Htext Hlog Hk got l' HQ.
  apply (wp_page_body _ _ _ _ _ _ _ _ _ _ _ (ct_dlq t) (length l')
    (fun d => d = chan_db lg (revive (fun _ => e_now e) mr l' t))); fold got;
    [done|done|done|done|apply chan_db_dlq|..].
  - intros n Hne. unfold reinsertDLQMessages. rewrite bool_decide_eq_false_2 by done.
    eapply on_channel_wp; [apply chan_db_lookup|]. apply wp_reinsertDLQChannel; [done..|].
    fold l'. intros n' _. eexists. split_and!; [done|done|done|].
    unfold chan_db, put_channel. cbn. by rewrite insert_insert_eq.
  - intros Hn. assert (l' = []) as -> by (unfold l'; by rewrite Hn). by rewrite revive_nil.
  - intros n n0 lg' d' Hj Haud Hdry _ ->. by apply (HQ n n0 lg').
Qed.

End dlq_pages.

(** ** The loop over the pages *)

(** [cnt pre] of the dead letters examined so far were put back, and the state
    satisfies [St pre]; a page moves on by the rows it examines. *)
Lemma iwp_dlq_loop o cfg name tableName qt opts mr (dry : bool) (entries : list (Z * dlqEntry))
    (cnt : list (Z * dlqEntry) -> nat) (St : list (Z * dlqEntry) -> world -> Prop) fuel w pre rest :
  (forall w pre rest k, entries = pre ++ rest -> St pre w -> 1 <= k ->
     iwp o w (replayDLQPage cfg name tableName qt (cursor pre.*1) k (PerformedBy opts) mr dry)
       (fun page w' => let got := take (Z.to_nat k) rest in
          page = mkPageResult (Z.of_nat (cnt (pre ++ got)) - Z.of_nat (cnt pre))
                   (cursor (pre ++ got).*1) (Z.of_nat (length got)) /\ St (pre ++ got) w')
       (fun _ _ => False)) ->
  entries = pre ++ rest -> St pre w -> (length rest < fuel)%nat ->
  (length pre <= quota (Limit opts) (length entries))%nat ->
  iwp o w (executeReplayDLQ fuel cfg name tableName qt opts mr dry (cursor pre.*1)
     (mkReplayDLQResult (Z.of_nat (cnt pre)) (Z.of_nat (length pre) - Z.of_nat (cnt pre))))
    (fun a w' => let examined := take (quota (Limit opts) (length entries)) entries in
       a = (mkReplayDLQResult (Z.of_nat (cnt examined))
              (Z.of_nat (length examined) - Z.of_nat (cnt examined)), None) /\ St examined w')
    (fun _ _ => False).
Proof.
  intros Hpage. revert w pre rest. induction fuel as [|fuel IH]; intros w pre rest Hes HSt Hfuel Hq; [lia|].
  cbn [executeReplayDLQ Replayed Skipped]. set (K := quota (Limit opts) (length entries)) in *.
  assert (length entries = length pre + length rest)%nat as Hlen by (rewrite Hes, length_app; done).
  replace (Z.of_nat (cnt pre) + (Z.of_nat (length pre) - Z.of_nat (cnt pre)))
    with (Z.of_nat (length pre)) by lia.
  destruct (next_page_limit _ _ _) as [pl|] eqn:Hpl.
  - destruct (quota_page defaultDLQReplayPageSize _ (length entries) _ _ ltac:(done) Hpl Hq)
      as (Hpl1 & Hgot & Hnil). fold K in Hgot, Hnil.
    iwp_step. iwp_step. eapply iwp_mono; [by apply (Hpage w pre rest)| |done]. cbn zeta.
    set (got := take (Z.to_nat pl) rest). intros ? w1 (-> & HSt1). cbn [replayed fetched lastID].
    assert (length got = Nat.min (Z.to_nat pl) (length rest)) as Hlg by apply length_take.
    destruct (Z.eqb_spec (Z.of_nat (length got)) 0) as [Hz|Hz].
    + assert (rest = []) as Hr by (apply nil_length_inv; lia).
      assert (K = length pre) as HK by (apply Hnil; rewrite Hr in Hlen; cbn in Hlen; lia).
      assert (got = []) as Hg by (apply nil_length_inv; lia). rewrite Hg, (right_id_L [] (++)) in *.
      iwp_step. rewrite HK, Hes, take_app_length. split; [|done]. do 2 f_equal; cbn; lia.
    + replace (mkReplayDLQResult _ _) with (mkReplayDLQResult (Z.of_nat (cnt (pre ++ got)))
        (Z.of_nat (length (pre ++ got)) - Z.of_nat (cnt (pre ++ got)))).
      2: { rewrite length_app. f_equal; lia. }
      apply (IH w1 (pre ++ got) (drop (Z.to_nat pl) rest)).
      * subst got. by rewrite <-(assoc_L (++)), take_drop.
      * done.
      * rewrite length_drop. lia.
      * rewrite length_app. lia.
  - pose proof (quota_stop _ _ (length entries) _ Hpl Hq) as HK. fold K in HK.
    iwp_step. rewrite HK, Hes, take_app_length. done.
Qed.

(** The page after the dead letters [pre], some of which are gone. *)
Lemma dlq_page_after e m n pre rest gone :
  dead_letters m = pre ++ rest -> m !! nil_uuid = None ->
  (forall k, is_Some (m !! k) -> k ∉ e_locked e) -> (forall k, k ∈ gone -> k ∈ pre.*1) ->
  sql_select_limit n (fun i _ => past (cursor pre.*1) i && unlocked e i) (fun _ => 0)
    (sql_delete_ids gone m) = take n rest.
Proof.
  intros Hes Hnil Hfree Hgone. unfold sql_select_limit. f_equal. rewrite sql_select_delete.
  rewrite (sql_select_ext _ (fun i _ => past (cursor pre.*1) i)).
  2: { intros i r Hi. unfold unlocked. rewrite bool_decide_eq_false_2 by (apply Hfree; eauto).
       apply andb_true_r. }
  pose proof (dlq_page m pre rest (length (sql_select (fun i _ => past (cursor pre.*1) i)
    (fun _ => 0) m) `max` length rest) Hes Hnil) as Hp.
  unfold sql_select_limit in Hp. rewrite !take_ge in Hp by lia. rewrite Hp.
  apply filter_keep. intros x Hx Hin%Hgone.
  pose proof (NoDup_sql_select (fun _ _ => true) (fun _ => 0) m) as Hnd. fold (dead_letters m) in Hnd.
  rewrite Hes, fmap_app in Hnd. apply NoDup_app in Hnd as (_ & Hd & _). apply (Hd x.1 Hin).
  by apply list_elem_of_fmap_2.
Qed.

(** ** A whole replay of a channel's dead letters *)

Section channel_replay.
Context (o : oracle) (cfg : queueConfig) (name : string) (meta : queueMetadata) (w0 : world)
  (t0 : channelTables) (opts : ReplayOptions) (mr : Z).
Hypothesis Hrel : reliable o.
Hypothesis Hnil : ct_dlq t0 !! nil_uuid = None.
Hypothesis Hfree : forall m k, is_Some (ct_dlq t0 !! k) -> k ∉ e_locked (o m).
Hypothesis Hmr : 0 <= mr.
Hypothesis Htext : text_ok (String.list_byte_of_string (PerformedBy opts)) = true.

Let entries := dead_letters (ct_dlq t0).
Let free := first_free (dom (ct_msgs t0)).

Lemma entries_row x : x ∈ entries -> ct_dlq t0 !! x.1 = Some x.2.
Proof. destruct x as [k d]. by intros [? _]%elem_of_sql_select. Qed.

Lemma entries_NoDup pre rest : entries = pre ++ rest -> NoDup (pre.*1 ++ rest.*1).
Proof. intros Hes. rewrite <-fmap_app, <-Hes. apply NoDup_sql_select. Qed.

Lemma free_keys pre k : k ∈ (free pre).*1 -> k ∈ pre.*1.
Proof.
  intros (x & -> & [Hx _]%elem_of_first_free)%list_elem_of_fmap. by apply list_elem_of_fmap_2.
Qed.

(** The page after [pre], with the dead letters [pre] put back or left. *)
Lemma page_after m n pre rest :
  entries = pre ++ rest ->
  sql_select_limit n (fun i _ => past (cursor pre.*1) i && unlocked (o m) i) (fun _ => 0)
    (sql_delete_ids (free pre).*1 (ct_dlq t0)) = take n rest.
Proof.
  intros Hes. apply dlq_page_after; [done|done|apply Hfree|apply free_keys].
Qed.

(** Putting back [l] at time [now] after [l1]. *)
Lemma revive_app clock now l1 l t :
  NoDup (l1.*1 ++ l.*1) ->
  revive (fun _ => now) mr l (revive clock mr l1 t) =
  revive (fun k => if decide (k ∈ l1.*1) then clock k else now) mr (l1 ++ l) t.
Proof.
  intros (_ & Hd & _)%NoDup_app. set (clock' := fun k => if decide (k ∈ l1.*1) then clock k else now).
  unfold revive. cbn. rewrite fmap_app, sql_delete_ids_app, <-(assoc_L (∪)), fmap_app, list_to_map_app.
  do 3 f_equal.
  - f_equal. apply list_fmap_ext. intros i x Hx%list_elem_of_lookup_2. unfold revived, clock'.
    by rewrite decide_True by by apply list_elem_of_fmap_2.
  - f_equal. apply list_fmap_ext. intros i x Hx%list_elem_of_lookup_2. unfold revived, clock'.
    rewrite decide_False; [done|]. intros Hin. apply (Hd x.1 Hin). by apply list_elem_of_fmap_2.
Qed.

Lemma revive_dom clock l t :
  dom (ct_msgs (revive clock mr l t)) = list_to_set (orig <$> l) ∪ dom (ct_msgs t).
Proof.
  cbn. rewrite dom_union_L, dom_list_to_map_L, revived_fst. by rewrite (comm_L (∪)).
Qed.

(** The state after the dead letters [pre] were examined. *)
Definition replayed_state (pre : list (Z * dlqEntry)) (w : world) : Prop :=
  exists clock lg, w_db w = chan_db meta (w_db w0) lg (revive clock mr (free pre) t0) /\
    (forall k, k ∈ (free pre).*1 -> exists m, ran w0 w m /\ clock k = e_now (o m)) /\
    fresh_from o (w_tick w) lg /\ (w_tick w0 <= w_tick w)%nat /\
    audited QueueTypeChannel name "dlq" (PerformedBy opts) (db_replay_log (w_db w0)) lg
      (Z.of_nat (length (free pre))).

(** A dry run, over dead letters of distinct messages. *)
Lemma iwp_dry_page w pre rest k :
  NoDup (orig <$> entries) -> entries = pre ++ rest -> w_db w = chan_db meta (w_db w0) (db_replay_log (w_db w0)) t0 ->
  fresh_from o (w_tick w) (db_replay_log (w_db w0)) -> 1 <= k ->
  iwp o w (replayDLQPage cfg name (q_TableName meta) QueueTypeChannel (cursor pre.*1) k
             (PerformedBy opts) mr true)
    (fun page w' => let got := take (Z.to_nat k) rest in
       page = mkPageResult (Z.of_nat (length (free (pre ++ got))) - Z.of_nat (length (free pre)))
                (cursor (pre ++ got).*1) (Z.of_nat (length got)) /\
       w_db w' = w_db w /\ w_tick w' = S (w_tick w))
    (fun _ _ => False).
Proof.
  intros Hdist Hes Hdb Hfr Hk. unfold replayDLQPage. apply iwp_withTx_dryRun; [no_fault|]. rewrite Hdb.
  apply wp_dlq_page; [no_fault|by left|by left|left; intros; by apply Hfr|done|].
  set (got := take (Z.to_nat k) rest).
  assert (NoDup (orig <$> pre ++ got)) as Hnd.
  { eapply sublist_NoDup; [exact Hdist|]. rewrite Hes. apply fmap_sublist.
    apply sublist_app; [done|apply sublist_take]. }
  assert (sql_select_limit (Z.to_nat k) (fun i _ => past (cursor pre.*1) i && unlocked (o (w_tick w)) i)
    (fun _ => 0) (ct_dlq t0) = got) as Hgot'.
  { rewrite <-(sql_delete_ids_nil (ct_dlq t0)). apply dlq_page_after; [done|done|apply Hfree|].
    intros j Hj. by apply elem_of_nil in Hj. }
  rewrite Hgot'. intros n n0 lg' _ _ Hlg. rewrite (Hlg eq_refl). unfold free.
  assert (length (first_free (dom (ct_msgs t0)) (pre ++ got)) =
    (length (first_free (dom (ct_msgs t0)) pre) + length (first_free (dom (ct_msgs t0)) got))%nat) as Hlen.
  { rewrite fmap_app in Hnd. apply NoDup_app in Hnd as Hnd'. destruct Hnd' as (Hp & _ & Hg).
    rewrite <-fmap_app in Hnd. by rewrite !first_free_distinct, filter_app, length_app. }
  assert (mkPageResult (Z.of_nat (length (first_free (dom (ct_msgs t0)) got)))
    (default (cursor pre.*1) (last got.*1)) (Z.of_nat (length got)) =
    mkPageResult (Z.of_nat (length (first_free (dom (ct_msgs t0)) (pre ++ got))) -
      Z.of_nat (length (first_free (dom (ct_msgs t0)) pre))) (cursor (pre ++ got).*1)
      (Z.of_nat (length got))) as Hpage.
  { f_equal; [lia|]. unfold cursor. rewrite fmap_app, last_app. by destruct (last got.*1). }
  destruct (bool_decide (got = [])) eqn:Hb; cbn [andb negb fst snd]; (split; [exact Hpage|]).
  - apply bool_decide_eq_true_1 in Hb. rewrite Hb, <-Hdb. cbn [first_free]. rewrite revive_nil.
    by rewrite Hdb.
  - done.
Qed.

Hypothesis Hgen : gen_distinct o.

Lemma iwp_replayed_page w pre rest k :
  entries = pre ++ rest -> replayed_state pre w -> 1 <= k ->
  iwp o w (replayDLQPage cfg name (q_TableName meta) QueueTypeChannel (cursor pre.*1) k
             (PerformedBy opts) mr false)
    (fun page w' => let got := take (Z.to_nat k) rest in
       page = mkPageResult (Z.of_nat (length (free (pre ++ got))) - Z.of_nat (length (free pre)))
                (cursor (pre ++ got).*1) (Z.of_nat (length got)) /\ replayed_state (pre ++ got) w')
    (fun _ _ => False).
Proof.
  intros Hes (clock & lg & Hdb & Hclock & Hfr & Hti & Haud) Hk. unfold replayDLQPage.
  apply iwp_withTx_dryRun; [no_fault|]. rewrite Hdb.
  apply wp_dlq_page; [no_fault|by left|by left|left; intros; by apply Hfr|done|].
  cbn [ct_dlq revive]. rewrite (page_after (w_tick w) _ pre rest Hes).
  set (got := take (Z.to_nat k) rest). rewrite revive_dom.
  set (new := first_free (list_to_set (orig <$> free pre) ∪ dom (ct_msgs t0)) got).
  assert (free (pre ++ got) = free pre ++ new) as Hfree' by apply first_free_app.
  intros n n0 lg' Hlg' Haud' _. cbn [fst snd andb]. rewrite Hfree', length_app. split.
  - f_equal; [lia|]. unfold cursor. rewrite fmap_app, last_app. by destruct (last got.*1).
  - assert (NoDup ((free pre).*1 ++ new.*1)) as Hnd.
    { rewrite <-fmap_app, <-Hfree'. eapply sublist_NoDup; [|apply fmap_sublist, sublist_first_free].
      rewrite fmap_app. eapply sublist_NoDup; [apply (entries_NoDup _ _ Hes)|].
      apply sublist_app; [done|]. apply fmap_sublist, sublist_take. }
    rewrite revive_app by done. eexists _, lg'. rewrite Hfree'. split; [done|].
    cbn [w_tick set_w_db w_next]. split_and!.
    + intros j Hj. cbn. case_decide as Hin.
      * destruct (Hclock j Hin) as (m & Hm & ->). exists m. unfold ran in *. cbn. split; [lia|done].
      * exists (w_tick w). unfold ran. cbn. split; [lia|done].
    + by eapply fresh_log_next.
    + lia.
    + rewrite length_app, Nat2Z.inj_add. by eapply audited_trans.
Qed.

End channel_replay.

(** Why a replay does not start. *)
Definition refused (o : oracle) (w : world) (qt : QueueType) (name : string) (opts : ReplayOptions)
    (x : err) : Prop :=
  w_closed w = true \/ validateReplayOpts opts = Err x \/
  lookup_queue qt name (w_db w) = None \/ exists m, faulty (o m).

(** The checks before the pages; a failing server is reported as a value. *)
Lemma iwp_ReplayDLQ o w cfg name qt opts (Q : ReplayDLQResult * option err -> world -> Prop) :
  (forall x w', refused o w qt name opts x -> frame w w' -> Q (mkReplayDLQResult 0 0, Some x) w') ->
  (forall meta w', frame w w' -> lookup_queue qt name (w_db w) = Some meta ->
     iwp o w' (executeReplayDLQ (replay_fuel (q_TableName meta) w') cfg name (q_TableName meta) qt opts
                 (resolveMaxRetries cfg meta) (DryRun opts) nil_uuid (mkReplayDLQResult 0 0))
       (fun a w'' => Q (match a.2 with
                        | Some _ => (if DryRun opts then mkReplayDLQResult 0 0 else a.1, a.2)
                        | None => a
                        end) w'')
       (fun _ _ => False)) ->
  iwp o w (ReplayDLQ cfg name qt opts) Q (fun _ _ => False).
Proof.
  intros HE HQ. unfold ReplayDLQ. iwp_step. iwp_step.
  assert (forall x w', refused o w qt name opts x -> frame w w' ->
    iwp o w' (mret (mkReplayDLQResult 0 0, Some x)) Q (fun _ _ => False)) as Hfail
    by (intros x w' Hx Hf; iwp_step; by apply HE).
  iwp_step. iwp_step; [intros Hc; apply Hfail; [by left|done]|intros _]. do 2 iwp_step.
  destruct (validateReplayOpts opts) as [[]|y] eqn:Hv.
  2: { apply Hfail; [|done]. right. by left. }
  unfold getReplayQueueMetadata. iwp_step. apply iwp_getQueueMetadata.
  - intros meta w1 Hl Hf. do 3 iwp_step. eapply iwp_mono; [by apply HQ| |done].
    intros [r [x|]] w2 H2; iwp_step; exact H2.
  - intros w1 Hl Hf. apply Hfail; [|done]. do 2 right. by left.
  - intros x w1 (m & d & Hm & _) Hf. apply Hfail; [|done]. do 3 right. by exists m.
Qed.

(** The run of a replay on a working server, real or dry. *)
Section run.
Context (o : oracle) (cfg : queueConfig) (w : world) (name : string) (opts : ReplayOptions)
  (meta : queueMetadata) (ct : channelTables).
Hypothesis Hrel : reliable o.
Hypothesis Hfr : fresh_from o (w_tick w) (db_replay_log (w_db w)).
Hypothesis Hcl : w_closed w = false.
Hypothesis Hv : validateReplayOpts opts = Ok tt.
Hypothesis Htext : text_ok (String.list_byte_of_string (PerformedBy opts)) = true.
Hypothesis Hat : channel_at (w_db w) name meta ct.
Hypothesis Hnil : ct_dlq ct !! nil_uuid = None.
Hypothesis Hfree : forall m k, is_Some (ct_dlq ct !! k) -> k ∉ e_locked (o m).
Let mr := resolveMaxRetries cfg meta.
Hypothesis Hmr : 0 <= mr.

Let all := dead_letters (ct_dlq ct).
Let examined := take (quota (Limit opts) (length all)) all.
Let back := first_free (dom (ct_msgs ct)) examined.
Let outcome := (mkReplayDLQResult (Z.of_nat (length back))
                  (Z.of_nat (length examined) - Z.of_nat (length back)), @None err).

Lemma iwp_run (St : list (Z * dlqEntry) -> world -> Prop) :
  (forall w1, frame w w1 -> St [] w1) ->
  (forall w' pre rest k, all = pre ++ rest -> St pre w' -> 1 <= k ->
     iwp o w' (replayDLQPage cfg name (q_TableName meta) QueueTypeChannel (cursor pre.*1) k
                 (PerformedBy opts) mr (DryRun opts))
       (fun page w'' => let got := take (Z.to_nat k) rest in
          page = mkPageResult (Z.of_nat (length (first_free (dom (ct_msgs ct)) (pre ++ got))) -
                   Z.of_nat (length (first_free (dom (ct_msgs ct)) pre)))
                   (cursor (pre ++ got).*1) (Z.of_nat (length got)) /\ St (pre ++ got) w'')
       (fun _ _ => False)) ->
  iwp o w (ReplayDLQ cfg name QueueTypeChannel opts) (fun a w' => a = outcome /\ St examined w')
    (fun _ _ => False).
Proof.
  intros Hinit Hpage. destruct Hat as [Hl Hct]. apply iwp_ReplayDLQ.
  { intros x w1 [?|[?|[?|[m Hm]]]]; [congruence..|]. no_fault. }
  intros meta' w1 Hf1 Hl'. rewrite Hl in Hl'. injection Hl' as <-. pose proof Hf1 as (Hdb & _).
  eapply iwp_mono; [apply (iwp_dlq_loop o cfg name (q_TableName meta) QueueTypeChannel opts mr
    (DryRun opts) all (fun pre => length (first_free (dom (ct_msgs ct)) pre)) St
    (replay_fuel (q_TableName meta) w1) w1 [] all)| |done].
  - exact Hpage.
  - done.
  - by apply Hinit.
  - unfold replay_fuel, queue_rows. rewrite Hdb, Hct. unfold all, dead_letters.
    pose proof (length_sql_select (fun _ _ => true) (fun _ => 0) (ct_dlq ct)). lia.
  - cbn. lia.
  - by intros a w2 (-> & HSt).
Qed.

Lemma iwp_real_run :
  gen_distinct o -> DryRun opts = false ->
  iwp o w (ReplayDLQ cfg name QueueTypeChannel opts)
    (fun a w' => a = outcome /\ replayed_state o name meta w ct opts mr examined w')
    (fun _ _ => False).
Proof.
  intros Hgen Hdry. apply iwp_run.
  - intros w1 (Hdb & _ & _ & Hti). exists (fun _ => 0), (db_replay_log (w_db w)). cbn [first_free].
    rewrite revive_nil. destruct Hat as [_ Hct]. split_and!; [| | |done|apply audited_refl].
    + rewrite Hdb. unfold chan_db. rewrite put_channel_same by done. by destruct (w_db w).
    + intros k Hk. by apply elem_of_nil in Hk.
    + by eapply fresh_from_sub; [exact Hti|reflexivity|].
  - intros w' pre rest k. rewrite Hdry. by apply iwp_replayed_page.
Qed.

Lemma iwp_dry_run :
  NoDup (orig <$> all) -> DryRun opts = true ->
  iwp o w (ReplayDLQ cfg name QueueTypeChannel opts) (fun a w' => a = outcome) (fun _ _ => False).
Proof.
  intros Hdist Hdry. destruct Hat as [_ Hct].
  assert (w_db w = chan_db meta (w_db w) (db_replay_log (w_db w)) ct) as Hw.
  { unfold chan_db. rewrite put_channel_same by done. by destruct (w_db w). }
  eapply iwp_mono; [apply (iwp_run (fun _ w' => w_db w' = w_db w /\ (w_tick w <= w_tick w')%nat))| |done].
  - by intros w1 (? & _ & _ & ?).
  - intros w' pre rest k Hall [Hdb Hti] Hk. rewrite Hdry.
    eapply iwp_mono; [apply (iwp_dry_page o cfg name meta w ct opts mr); try done| |done].
    + congruence.
    + by eapply fresh_from_sub; [exact Hti|reflexivity|].
    + intros page w'' (-> & Hdb' & Ht'). split; [done|]. split; [congruence|lia].
  - by intros a w' [-> _].
Qed.

End run.

(** A dry run *)

(** A dry run's transaction either rolls back or has only read. *)
Lemma wp_dry_body e cfg name tableName qt after k by_ mr d :
  wp e 0 (Some d) (dlq_page_body cfg name tableName qt after k by_ mr true)
    (fun a _ s => a.2 = true \/ s = Some d) (fun _ => True).
Proof.
  unfold dlq_page_body, fetchDLQMessages. apply wp_bind.
  destruct (get_dlq tableName d) as [m|] eqn:Hm.
  2: { by apply wp_zoom_missing. }
  eapply wp_on_dead_letters; [done|exact Hm|]. cbn. destruct (last _); [|wp_step; by right].
  apply wp_bind. unfold wp at 1. destruct (reinsertDLQMessages _ _ _ _ _ _ _ _ _) as [a n s|x]; [|done].
  rewrite andb_false_r. do 3 wp_step. by left.
Qed.

Lemma try_db_pure {A} (m : io A) : db_pure m -> db_pure (try_io m).
Proof.
  intros Hm o w x w'. unfold try_io. destruct (m o w) as [q w1] eqn:E. intros [= <- <-]. by eapply Hm.
Qed.

Lemma executeReplayDLQ_dry_pure fuel cfg name tableName qt opts mr after r :
  db_pure (executeReplayDLQ fuel cfg name tableName qt opts mr true after r).
Proof.
  revert after r. induction fuel as [|fuel IH]; intros after r; [rollback|]. cbn [executeReplayDLQ].
  destruct (next_page_limit _ _ _) as [pl|]; [|rollback].
  assert (db_pure (replayDLQPage cfg name tableName qt after pl (PerformedBy opts) mr true)) as Hp.
  { intros o w x w' Hrun. pose proof (iwp_withTx_dryRun_lossy o w
      (dlq_page_body cfg name tableName qt after pl (PerformedBy opts) mr true)
      (fun _ w' => w_db w' = w_db w) (fun _ w' => w_db w' = w_db w)) as Hi.
    unfold replayDLQPage in Hrun. unfold iwp in Hi. rewrite Hrun in Hi. destruct x; apply Hi; try done;
      (eapply wp_mono; [apply wp_dry_body| |done]); intros [? []] n' s [?| ->]; done. }
  apply bind_db_pure; [by apply try_db_pure|].
  intros [page|x]; [|rollback]. destruct (fetched page =? 0); [rollback|apply IH].
Qed.

Lemma ReplayDLQ_dry_pure cfg name qt limit by_ :
  db_pure (ReplayDLQ cfg name qt (mkReplayOptions true limit by_)).
Proof.
  unfold ReplayDLQ. apply bind_db_pure.
  { apply try_db_pure. apply bind_db_pure; [rollback|intros _]. apply bind_db_pure; [rollback|intros _].
    apply map_err_db_pure, getQueueMetadata_db_pure. }
  intros [meta|x]; [|rollback]. apply bind_db_pure; [rollback|intros w].
  apply bind_db_pure; [apply executeReplayDLQ_dry_pure|]. intros [r [x|]]; rollback.
Qed.

(** ** A server that may fail *)

Section unreliable.
Context (o : oracle) (cfg : queueConfig) (name : string) (meta : queueMetadata) (w0 : world)
  (t0 : channelTables) (opts : ReplayOptions) (mr : Z).

(** The dead letters [back], and nothing else, are back on the queue. *)
Definition put_back (back : list (Z * dlqEntry)) (w : world) : Prop :=
  exists clock lg, w_db w = chan_db meta (w_db w0) lg (revive clock mr back t0) /\
    (forall x, x ∈ back -> ct_dlq t0 !! x.1 = Some x.2 /\ ct_msgs t0 !! orig x = None /\
       exists m, ran w0 w m /\ clock x.1 = e_now (o m)) /\
    NoDup back.*1 /\ NoDup (orig <$> back) /\ (w_tick w0 <= w_tick w)%nat /\
    audited QueueTypeChannel name "dlq" (PerformedBy opts) (db_replay_log (w_db w0)) lg
      (Z.of_nat (length back)).

Lemma put_back_later back w w' :
  w_db w' = w_db w -> (w_tick w <= w_tick w')%nat -> put_back back w -> put_back back w'.
Proof.
  intros Hdb Hti (clock & lg & Hw & Hx & Hn & Ho & Ht & Haud). exists clock, lg.
  refine (conj (eq_trans Hdb Hw) (conj _ (conj Hn (conj Ho (conj _ Haud))))); [|lia].
  intros x (? & ? & m & Hm & ?)%Hx. split_and!; [done..|]. exists m. unfold ran in *. split; [lia|done].
Qed.

Lemma iwp_any_page w back after k :
  put_back back w -> 1 <= k ->
  iwp o w (replayDLQPage cfg name (q_TableName meta) QueueTypeChannel after k (PerformedBy opts) mr
             false)
    (fun page w' => exists new, put_back (back ++ new) w' /\ replayed page = Z.of_nat (length new) /\
       replayed page <= fetched page)
    (fun _ w' => exists new, put_back (back ++ new) w' /\ (new = [] \/ answer_lost o)).
Proof.
  intros Hback Hk. pose proof Hback as (clock & lg & Hdb & Hx & Hn & Ho & Hti & Haud).
  assert (put_back back (w_next w)) as Hnext
    by (eapply (put_back_later back w); [done|cbn; lia|done]).
  assert (exists new, put_back (back ++ new) (w_next w) /\ (new = [] \/ answer_lost o)) as Hnone.
  { exists []. rewrite (right_id_L [] (++)). by split; [|left]. }
  unfold replayDLQPage. apply iwp_withTx_dryRun_lossy; [done|]. rewrite Hdb.
  apply wp_dlq_page; [done|by right|by right|by right|done|].
  set (got := sql_select_limit _ _ _ _). set (new := first_free _ got).
  intros n n0 lg' _ Haud' _. cbn [fst snd andb replayed fetched].
  match goal with |- (exists _, put_back _ ?w' /\ _) /\ _ =>
    cut (put_back (back ++ new) w' /\ new `sublist_of` got) end.
  { intros [Hp Hsub]. split.
    - exists new. split; [done|]. split; [done|]. apply sublist_length in Hsub. lia.
    - intros de He. exists new. split; [done|]. right. by exists (w_tick w), de. }
  assert (forall x, x ∈ new -> ct_dlq t0 !! x.1 = Some x.2 /\ x.1 ∉ back.*1 /\
    ct_msgs t0 !! orig x = None /\ orig x ∉ orig <$> back) as Hnew.
  { intros [j d] [Hin Hdom]%elem_of_first_free. rewrite revive_dom, not_elem_of_union in Hdom.
    rewrite not_elem_of_dom, elem_of_list_to_set in Hdom.
    eapply elem_of_sublist in Hin; [|apply sublist_take].
    apply elem_of_sql_select in Hin as [Hj _]. cbn [ct_dlq revive] in Hj.
    rewrite lookup_sql_delete_ids in Hj. case_decide; [done|]. tauto. }
  assert (new `sublist_of` got) as Hsub by apply sublist_first_free.
  assert (NoDup (back.*1 ++ new.*1)) as Hkeys.
  { apply NoDup_app. split_and!; [done| |].
    - intros j Hj (x & -> & Hin)%list_elem_of_fmap. by apply Hnew in Hin as (_ & ? & _).
    - eapply sublist_NoDup; [|by apply fmap_sublist]. unfold got, sql_select_limit. rewrite fmap_take.
      eapply sublist_NoDup; [|apply sublist_take]. apply NoDup_sql_select. }
  split; [|done].
  rewrite revive_app by done. eexists _, lg'. split; [done|]. rewrite !fmap_app. split_and!.
  - intros x [Hin|Hin]%elem_of_app; cbn beta.
    + rewrite decide_True by by apply list_elem_of_fmap_2. destruct (Hx x Hin) as (? & ? & m & Hm & ?).
      split_and!; [done..|]. exists m. unfold ran in *. cbn. split; [lia|done].
    + destruct (Hnew x Hin) as (? & ? & ? & ?). rewrite decide_False by done.
      split_and!; [done..|]. exists (w_tick w). unfold ran. cbn. split; [lia|done].
  - done.
  - apply NoDup_app. split_and!; [done| |apply NoDup_first_free].
    intros i Hi (x & -> & Hin)%list_elem_of_fmap. by apply Hnew in Hin as (_ & _ & _ & ?).
  - cbn. lia.
  - rewrite length_app, Nat2Z.inj_add. by eapply audited_trans.
Qed.

Lemma iwp_any_replay fuel w back after r :
  put_back back w -> Replayed r = Z.of_nat (length back) -> 0 <= Skipped r ->
  iwp o w (executeReplayDLQ fuel cfg name (q_TableName meta) QueueTypeChannel opts mr false after r)
    (fun a w' => exists back', put_back back' w' /\ Replayed a.1 <= Z.of_nat (length back') /\
       (Replayed a.1 = Z.of_nat (length back') \/ (answer_lost o /\ a.2 <> None)) /\ 0 <= Skipped a.1)
    (fun _ _ => False).
Proof.
  revert w back after r. induction fuel as [|fuel IH]; intros w back after r Hback Hr Hs.
  { cbn [executeReplayDLQ]. iwp_step. exists back. split_and!; [done|cbn; lia|by left|done]. }
  cbn [executeReplayDLQ]. destruct (next_page_limit _ _ _) as [pl|] eqn:Hpl.
  2: { iwp_step. exists back. split_and!; [done|cbn; lia|by left|done]. }
  assert (1 <= pl) as Hpl1.
  { unfold next_page_limit in Hpl. destruct (0 <? Limit opts); [|by simplify_eq].
    destruct (Z.leb_spec (Limit opts - (Replayed r + Skipped r)) 0); simplify_eq.
    unfold defaultDLQReplayPageSize. lia. }
  iwp_step. iwp_step. eapply iwp_mono; [by apply (iwp_any_page w back)| |].
  - intros page w1 (new & Hback1 & Hrep & Hle). destruct (fetched page =? 0).
    + iwp_step. exists (back ++ new). cbn. rewrite length_app. split_and!; [done|lia|left; lia|lia].
    + apply (IH w1 (back ++ new)); cbn; [done|rewrite length_app; lia|lia].
  - intros x w1 (new & Hback1 & Hnew). iwp_step. exists (back ++ new). cbn. rewrite length_app.
    split_and!; [done|lia| |done]. destruct Hnew as [->|Hl]; [left; cbn; lia|by right].
Qed.

End unreliable.

(** ** Properties *)

(** C14: replaying a channel's dead letters page by page comes to one pass over them
    in id order, limited to as many as the caller asked for: each whose message id is
    free at its turn is back on the queue, pending with a full retry budget, and gone
    from the dead-letter table; the others stay.  The counts returned are those of the
    dead letters put back and left, and the audit rows account for the former. *)
Theorem ReplayDLQ_channel_refines (o : oracle) (cfg : queueConfig) (w : world) (name : string)
    (opts : ReplayOptions) (meta : queueMetadata) (ct : channelTables) :
  reliable o -> gen_distinct o -> fresh_from o (w_tick w) (db_replay_log (w_db w)) ->
  w_closed w = false -> validateReplayOpts opts = Ok tt -> DryRun opts = false ->
  text_ok (String.list_byte_of_string (PerformedBy opts)) = true ->
  channel_at (w_db w) name meta ct -> ct_dlq ct !! nil_uuid = None ->
  (forall m k, is_Some (ct_dlq ct !! k) -> k ∉ e_locked (o m)) ->
  let mr := resolveMaxRetries cfg meta in 0 <= mr ->
  let all := dead_letters (ct_dlq ct) in
  let examined := take (quota (Limit opts) (length all)) all in
  let back := first_free (dom (ct_msgs ct)) examined in
  exists clock lg w',
    ReplayDLQ cfg name QueueTypeChannel opts o w =
      (Ok (mkReplayDLQResult (Z.of_nat (length back))
             (Z.of_nat (length examined) - Z.of_nat (length back)), None), w') /\
    w_db w' = set_replay_log lg (put_channel meta (revive clock mr back ct) (w_db w)) /\
    (forall k, k ∈ back.*1 -> exists m, ran w w' m /\ clock k = e_now (o m)) /\
    audited QueueTypeChannel name "dlq" (PerformedBy opts) (db_replay_log (w_db w)) lg
      (Z.of_nat (length back)).
Proof.
  intros Hrel Hgen Hfr Hcl Hv Hdry Htext Hat Hnil Hfree mr Hmr all examined back.
  pose proof (iwp_real_run o cfg w name opts meta ct Hrel Hfr Hcl Hv Htext Hat Hnil Hfree Hmr Hgen Hdry)
    as Hi. unfold iwp in Hi. destruct (ReplayDLQ cfg name QueueTypeChannel opts o w) as [[a|x] w'];
    [|done]. destruct Hi as [-> (clock & lg & Hdb & Hc & _ & _ & Haud)]. by exists clock, lg, w'.
Qed.

Lemma calm_unlocked (m : nat) (k : Z) (P : Prop) : P -> k ∉ e_locked (distinct_oracle m).
Proof. intros _. apply not_elem_of_empty. Qed.

(** Of the two dead letters, 3 belongs to a live message and stays, 4 goes back. *)
Lemma ReplayDLQ_channel_refines_witness :
  exists w', ReplayDLQ sample_cfg "jobs" QueueTypeChannel (replay_opts false) distinct_oracle
    replay_world = (Ok (mkReplayDLQResult 1 1, None), w').
Proof.
  destruct (ReplayDLQ_channel_refines distinct_oracle sample_cfg replay_world "jobs"
    (replay_opts false) sample_meta replay_tables distinct_oracle_reliable distinct_oracle_distinct
    (gc_fresh_empty _ _) eq_refl eq_refl eq_refl eq_refl replay_at eq_refl
    (fun m k => calm_unlocked m k _) ltac:(done)) as (clock & lg & w' & H & _).
  exists w'. exact H.
Defined.

(** A dry run never changes the database, whatever fails on the way, for channels
    and topics alike; and when the dead letters of a channel belong to distinct
    messages it returns exactly what the real run returns. *)
Theorem ReplayDLQ_dry_run_previews (o : oracle) (cfg : queueConfig) (w : world) (name : string)
    (opts : ReplayOptions) (meta : queueMetadata) (ct : channelTables) :
  (forall o' w' qt x w'', ReplayDLQ cfg name qt (mkReplayOptions true (Limit opts) (PerformedBy opts))
     o' w' = (x, w'') -> w_db w'' = w_db w') /\
  (reliable o -> gen_distinct o -> fresh_from o (w_tick w) (db_replay_log (w_db w)) ->
   w_closed w = false -> validateReplayOpts opts = Ok tt -> DryRun opts = false ->
   text_ok (String.list_byte_of_string (PerformedBy opts)) = true ->
   channel_at (w_db w) name meta ct -> ct_dlq ct !! nil_uuid = None ->
   (forall m k, is_Some (ct_dlq ct !! k) -> k ∉ e_locked (o m)) ->
   0 <= resolveMaxRetries cfg meta -> NoDup (orig <$> dead_letters (ct_dlq ct)) ->
   (ReplayDLQ cfg name QueueTypeChannel (mkReplayOptions true (Limit opts) (PerformedBy opts)) o w).1 =
   (ReplayDLQ cfg name QueueTypeChannel opts o w).1).
Proof.
  split.
  - intros o' w' qt. apply ReplayDLQ_dry_pure.
  - intros Hrel Hgen Hfr Hcl Hv Hdry Htext Hat Hnil Hfree Hmr Hdist.
    pose proof (iwp_real_run o cfg w name opts meta ct Hrel Hfr Hcl Hv Htext Hat Hnil Hfree Hmr Hgen
      Hdry) as Hreal.
    pose proof (iwp_dry_run o cfg w name (mkReplayOptions true (Limit opts) (PerformedBy opts)) meta ct
      Hrel Hfr Hcl Hv Htext Hat Hnil Hfree Hmr Hdist eq_refl) as Hpre.
    unfold iwp in Hreal, Hpre.
    destruct (ReplayDLQ cfg name _ (mkReplayOptions true _ _) o w) as [[a|x] w1]; [|done].
    destruct (ReplayDLQ cfg name _ opts o w) as [[b|x] w2]; [|done].
    destruct Hreal as [-> _]. by rewrite Hpre.
Qed.

Lemma ReplayDLQ_dry_run_previews_witness :
  (ReplayDLQ sample_cfg "jobs" QueueTypeChannel (replay_opts true) distinct_oracle replay_world).1 =
  (ReplayDLQ sample_cfg "jobs" QueueTypeChannel (replay_opts false) distinct_oracle replay_world).1.
Proof.
  apply (proj2 (ReplayDLQ_dry_run_previews distinct_oracle sample_cfg replay_world "jobs"
    (replay_opts false) sample_meta replay_tables) distinct_oracle_reliable distinct_oracle_distinct
    (gc_fresh_empty _ _) eq_refl eq_refl eq_refl eq_refl replay_at eq_refl
    (fun m k => calm_unlocked m k _) ltac:(done)).
  apply (bool_decide_unpack _). vm_compute. done.
Defined.

(** whatever fails in the middle of a replay of a channel's dead letters (a
    statement, BEGIN, COMMIT, the audit row), no dead letter is lost or duplicated:
    the ones gone from the table are back on the queue as pending messages with their
    payload and metadata, under ids that were free and that no two of them share; no
    live message and no other part of the database changes; the audit log says how many
    were put back; and that is the count returned, also beside an error, unless the
    answer to the COMMIT of the last page was lost, when the count may leave out that
    page. *)
Theorem ReplayDLQ_channel_safe (o : oracle) (cfg : queueConfig) (w : world) (name : string)
    (opts : ReplayOptions) (meta : queueMetadata) (ct : channelTables) :
  channel_at (w_db w) name meta ct -> DryRun opts = false ->
  exists res w' back, ReplayDLQ cfg name QueueTypeChannel opts o w = (Ok res, w') /\
    put_back o name meta w ct opts (resolveMaxRetries cfg meta) back w' /\
    Replayed res.1 <= Z.of_nat (length back) /\
    (Replayed res.1 = Z.of_nat (length back) \/ (answer_lost o /\ res.2 <> None)) /\
    0 <= Skipped res.1.
Proof.
  intros [Hl Hct] Hdry.
  assert (forall w1, frame w w1 -> put_back o name meta w ct opts (resolveMaxRetries cfg meta) [] w1) as H0.
  { intros w1 (Hdb & _ & _ & Hti). exists (fun _ => 0), (db_replay_log (w_db w)). rewrite revive_nil.
    split_and!; [| |constructor|constructor|done|apply audited_refl].
    - rewrite Hdb. unfold chan_db. rewrite put_channel_same by done. by destruct (w_db w).
    - intros x Hx. by apply elem_of_nil in Hx. }
  assert (iwp o w (ReplayDLQ cfg name QueueTypeChannel opts) (fun a w' => exists back,
    put_back o name meta w ct opts (resolveMaxRetries cfg meta) back w' /\
    Replayed a.1 <= Z.of_nat (length back) /\
    (Replayed a.1 = Z.of_nat (length back) \/ (answer_lost o /\ a.2 <> None)) /\ 0 <= Skipped a.1)
    (fun _ _ => False)) as Hi.
  { apply iwp_ReplayDLQ.
    - intros x w1 _ Hf. exists []. split; [by apply H0|]. split; [done|]. by split; [left|].
    - intros meta' w1 Hf Hl'. rewrite Hl in Hl'. injection Hl' as <-. rewrite Hdry.
      eapply iwp_mono; [apply (iwp_any_replay o cfg name meta w ct opts _ _ _ []); [by apply H0|done..]| |done].
      intros [r [x|]] w2 Ha; exact Ha. }
  unfold iwp in Hi. destruct (ReplayDLQ cfg name QueueTypeChannel opts o w) as [[res|x] w']; [|done].
  destruct Hi as (back & ?). by exists res, w', back.
Qed.

(** The COMMIT of step 2, that of the first page, fails. *)
Definition failing_oracle : oracle := fun k =>
  let e := distinct_oracle k in
  mkEnv (e_now e) (e_locked e) (e_gen e) (e_fault e) (e_begin e)
    (if (k =? 2)%nat then Some (failed_tx, false) else None) (e_rand e) (e_conv e) (e_time e) (e_ms e)
    (e_entropy e).

Lemma ReplayDLQ_channel_safe_witness :
  exists w' back, ReplayDLQ sample_cfg "jobs" QueueTypeChannel (replay_opts false) failing_oracle
    replay_world = (Ok (mkReplayDLQResult 0 0, Some (ErrDriver failed_tx)), w') /\
    put_back failing_oracle "jobs" sample_meta replay_world replay_tables (replay_opts false)
      (resolveMaxRetries sample_cfg sample_meta) back w' /\ back = [].
Proof.
  destruct (ReplayDLQ_channel_safe failing_oracle sample_cfg replay_world "jobs" (replay_opts false)
    sample_meta replay_tables replay_at eq_refl) as (res & w' & back & H & Hp & _ & Hr & _).
  assert ((ReplayDLQ sample_cfg "jobs" QueueTypeChannel (replay_opts false) failing_oracle
    replay_world).1 = Ok (mkReplayDLQResult 0 0, Some (ErrDriver failed_tx))) as Hv
    by (vm_compute; reflexivity).
  rewrite H in Hv. cbn in Hv. injection Hv as ->. exists w', back. refine (conj H (conj Hp _)).
  destruct Hr as [Hr|[(n & de & Hlost) _]].
  - cbn in Hr. destruct back; [reflexivity|]. cbn in Hr. lia.
  - cbn in Hlost. destruct (n =? 2)%nat; discriminate Hlost.
Defined.
