(* ===== verification/ReplayTopic.v ===== *)
(** * What [ReplayDLQ] does to a topic ([replay.go])

    A dead letter of a topic goes back to the subscriber it failed for (to every
    active one when it is too old to name it), as a new pending subscription of the
    message it still refers to. *)

From S2P Require Import Prelude Types Tx Utf8 MetadataCache World Config Queries Channel Publish PubSub Gc GcChannel GcTopic Replay ReplayDlq.
From Stdlib Require Import ZArith Lia.
Local Open Scope Z_scope.

(** The subscribers a dead letter goes back to, [subs] being the active ones. *)
Definition targets (subs : list string) (x : Z * dlqEntry) : list string :=
  match d_subscriber_id x.2 with Some sid => [sid] | None => subs end.

(** It goes back when its message still exists and there is someone to take it. *)
Definition returns (subs : list string) (t : topicTables) (x : Z * dlqEntry) : Prop :=
  is_Some (tt_msgs t !! orig x) /\ targets subs x <> [].

#[export] Instance returns_dec subs t x : Decision (returns subs t x).
Proof. unfold returns. apply _. Defined.

Definition target_records (subs : list string) (back : list (Z * dlqEntry)) : list subRecord :=
  back ≫= (fun x => mkSubRecord (orig x) <$> targets subs x).

(** [t'] is [t] with the dead letters [back] turned into subscriptions, made at times
    in [P], unless there was one. *)
Definition resubscribed (P : timestamp -> Prop) (subs : list string) (back : list (Z * dlqEntry))
    (t t' : topicTables) : Prop :=
  tt_msgs t' = tt_msgs t /\ tt_dlq t' = sql_delete_ids back.*1 (tt_dlq t) /\ tt_subs t ⊆ tt_subs t' /\
  (forall rec, rec ∈ target_records subs back -> exists k s, tt_subs t' !! k = Some s /\
     s_message_id s = sr_messageID rec /\ s_subscriber_id s = sr_subscriberID rec) /\
  (forall k s, tt_subs t' !! k = Some s -> tt_subs t !! k = Some s \/
     exists rec now, rec ∈ target_records subs back /\ P now /\ s = new_sub_row now rec).

Lemma elem_of_target_records subs back rec :
  rec ∈ target_records subs back <->
  exists x, x ∈ back /\ sr_messageID rec = orig x /\ sr_subscriberID rec ∈ targets subs x.
Proof.
  unfold target_records. rewrite list_elem_of_bind. setoid_rewrite list_elem_of_fmap. split.
  - intros (x & (sid & -> & Hs) & Hx). by exists x.
  - intros (x & Hx & Hm & Hs). exists x. split; [|done]. eexists. split; [|exact Hs].
    destruct rec. cbn in *. by subst.
Qed.

Lemma target_records_app subs l l' :
  target_records subs (l ++ l') = target_records subs l ++ target_records subs l'.
Proof. apply bind_app. Qed.

(** ** Resolving the subscribers *)

Section resolve.
Context (cfg : queueConfig) (name : string) (d : DB).
Let subs : list string := (fun x => sb_SubscriberID x.2) <$> active_subscribers name d.

Definition subscribers_fit : Prop :=
  maxSubscribersPerTopic cfg <= 0 \/
  Z.of_nat (length (active_subscribers name d)) <= maxSubscribersPerTopic cfg.

Lemma elem_of_addRecord records rec rec' :
  rec' ∈ addRecord records rec <-> rec' = rec \/ rec' ∈ records.
Proof.
  unfold addRecord. case_bool_decide; [naive_solver|]. rewrite elem_of_app, list_elem_of_singleton. tauto.
Qed.

Lemma elem_of_addRecords {A} (f : A -> subRecord) l records rec :
  rec ∈ foldl (fun rs x => addRecord rs (f x)) records l <-> rec ∈ records \/ rec ∈ f <$> l.
Proof.
  revert records. induction l as [|x l IH]; intros records; cbn.
  { rewrite elem_of_nil. tauto. }
  rewrite IH, elem_of_addRecord, elem_of_cons. tauto.
Qed.

Lemma wp_resolve_records e n l legacy records ids
    (Q : list subRecord * list uuid -> nat -> option DB -> Prop) E :
  (forall x, faulty e -> E (ErrDriver x)) -> subscribers_fit \/ E ErrTooManySubscribers ->
  (forall s, legacy = Some s -> sb_SubscriberID <$> s = subs) ->
  let back := filter (fun x => targets subs x <> []) l in
  (forall n' records', (n <= n')%nat ->
     (forall rec, rec ∈ records' <-> rec ∈ records \/ rec ∈ target_records subs back) ->
     Q (records', ids ++ back.*1) n' (Some d)) ->
  wp e n (Some d) (resolve_records cfg name legacy (scan_dlq <$> l) records ids) Q E.
Proof.
  intros HF Hfit. revert n legacy records ids. induction l as [|x l IH];
    intros n legacy records ids Hleg back HQ.
  { cbn. wp_step. subst back. rewrite filter_nil in HQ. cbn in HQ. rewrite (right_id_L [] (++)) in HQ.
    apply HQ; [done|]. intros rec. rewrite elem_of_nil. tauto. }
  rewrite fmap_cons. cbn [resolve_records]. change (dr_subscriberID (scan_dlq x)) with (d_subscriber_id x.2).
  subst back. rewrite filter_cons in HQ.
  destruct (d_subscriber_id x.2) as [sid|] eqn:Hsid.
  - assert (targets subs x = [sid]) as Ht by (unfold targets; by rewrite Hsid).
    rewrite decide_True in HQ by by rewrite Ht. apply IH; [done|]. intros n' records' Hn Hrec.
    rewrite <-(assoc_L (++)). apply HQ; [done|]. intros rec. rewrite Hrec, elem_of_addRecord.
    unfold target_records at 2. cbn [mbind list_bind]. rewrite elem_of_app, Ht.
    cbn [fmap list_fmap]. rewrite list_elem_of_singleton. fold (target_records subs). tauto.
  - assert (targets subs x = subs) as Ht by (unfold targets; by rewrite Hsid).
    rewrite Ht in HQ. wp_step. assert (forall s n', (n <= n')%nat -> sb_SubscriberID <$> s = subs -> wp e n' (Some d)
      (match s with
       | [] => resolve_records cfg name (Some s) (scan_dlq <$> l) records ids
       | _ => resolve_records cfg name (Some s) (scan_dlq <$> l)
                (foldl (fun rs sub => addRecord rs (mkSubRecord (dr_originalMessageID (scan_dlq x))
                   (sb_SubscriberID sub))) records s) (ids ++ [dr_id (scan_dlq x)])
       end) Q E) as Hgo.
    { intros s n' Hn Hs. assert (forall s', Some s = Some s' -> sb_SubscriberID <$> s' = subs) as Hs'
        by by intros s' [= <-]. destruct s as [|s0 s].
      - rewrite decide_False in HQ by (rewrite <-Hs; naive_solver). apply IH; [done|]. intros n'' r' Hn' Hr.
        apply HQ; [lia|done].
      - rewrite decide_True in HQ by by rewrite <-Hs. apply IH; [done|]. intros n'' r' Hn' Hr.
        rewrite <-(assoc_L (++)). apply HQ; [lia|]. intros rec.
        rewrite Hr, (elem_of_addRecords (fun sub => mkSubRecord (orig x) (sb_SubscriberID sub))).
        unfold target_records at 2. cbn [mbind list_bind]. rewrite elem_of_app.
        rewrite Ht, <-Hs, <-list_fmap_compose. fold (target_records subs).
        change (compose (mkSubRecord (orig x)) sb_SubscriberID) with
          (fun sub => mkSubRecord (orig x) (sb_SubscriberID sub)). tauto. }
    destruct legacy as [s|]; [wp_step; apply Hgo; auto|].
    apply wp_getActiveSubscribers; [done|]. destruct (_ && _) eqn:Hmany.
    + destruct Hfit as [Hfit|?]; [|done]. apply andb_true_iff in Hmany as [?%Z.ltb_lt ?%Z.ltb_lt].
      unfold subscribers_fit in Hfit. lia.
    + apply Hgo; [lia|]. by rewrite <-list_fmap_compose.
Qed.

End resolve.

(** ** One page of a topic's dead letters *)

(** The subscriptions of [t'] that are not of [t] carry keys minted in [e]. *)
Definition minted (e : env) (t t' : topicTables) : Prop :=
  forall k, is_Some (tt_subs t' !! k) -> is_Some (tt_subs t !! k) \/ exists n i, k = e_gen e n i.

Lemma wp_and {S A} e n s (m : tx S A) Q1 Q2 E1 E2 :
  wp e n s m Q1 E1 -> wp e n s m Q2 E2 ->
  wp e n s m (fun a n' s' => Q1 a n' s' /\ Q2 a n' s') (fun x => E1 x /\ E2 x).
Proof. unfold wp. by destruct (m e n s). Qed.

Lemma insert_subs_minted e n i recs t t' : insert_subs e n i recs t = Ok t' -> minted e t t'.
Proof.
  revert i t. induction recs as [|rec recs IH]; intros i t; cbn.
  { intros [= <-] k Hk. by left. }
  unfold insert_sub. destruct (tt_msgs t !! sr_messageID rec); [|done].
  destruct (find_sub _ _ _); cbn; [by apply IH|].
  destruct (tt_subs t !! e_gen e n i) as [s|] eqn:Hs; cbn; [done|]. intros Hm%IH k Hk.
  destruct (Hm k Hk) as [H1|?]; [|by right]. cbn in H1.
  destruct (decide (k = e_gen e n i)) as [->|Hne]; [right; by eexists _, _|].
  rewrite lookup_insert_ne in H1 by done. by left.
Qed.

Lemma wp_insert_minted e n recs t :
  wp e n (Some t) (insertSubscriptionRecords recs)
    (fun _ _ s => forall t', s = Some t' -> minted e t t') (fun _ => True).
Proof.
  apply (wp_for_each e insert_sub_chunk _ (fun _ s => forall t', s = Some t' -> minted e t t')).
  { intros t' [= <-] k Hk. by left. }
  intros c n' [t1|] _ H1; [|done]. unfold insert_sub_chunk. wp_step.
  destruct (insert_subs e n' 0 c t1) as [t2|x] eqn:H2; [|done]. intros t' [= <-] k Hk.
  destruct (insert_subs_minted _ _ _ _ _ _ H2 k Hk) as [H3|?]; [|by right].
  by apply (H1 t1 eq_refl).
Qed.

Section topic_page.
Context (cfg : queueConfig) (name : string) (meta : queueMetadata) (d0 : DB) (by_ : string).
Hypothesis Hchan : db_channels d0 !! q_TableName meta = None.

Definition topic_db (lg : gmap Z replayLogRow) (t : topicTables) : DB :=
  set_replay_log lg (put_topic meta t d0).

Let subs : list string := (fun x => sb_SubscriberID x.2) <$> active_subscribers name d0.

Lemma topic_db_lookup lg t : db_topics (topic_db lg t) !! q_TableName meta = Some t.
Proof. cbn. apply lookup_insert_eq. Qed.

Lemma topic_db_dlq lg t : get_dlq (q_TableName meta) (topic_db lg t) = Some (tt_dlq t).
Proof. unfold get_dlq. cbn. rewrite Hchan. cbn. by rewrite lookup_insert_eq. Qed.

Lemma topic_db_put lg t t' :
  set_topics (<[q_TableName meta := t']> (db_topics (topic_db lg t))) (topic_db lg t) = topic_db lg t'.
Proof. unfold topic_db, put_topic. cbn. by rewrite insert_insert_eq. Qed.

Lemma filter_returns t (l : list (Z * dlqEntry)) :
  filter (fun x => targets subs x <> []) (filter (fun x => is_Some (tt_msgs t !! orig x)) l) =
  filter (returns subs t) l.
Proof. rewrite list_filter_filter. apply list_filter_iff. intros x. unfold returns. tauto. Qed.

Lemma resubscribed_nil P t : resubscribed P subs [] t t.
Proof.
  unfold resubscribed. cbn. rewrite sql_delete_ids_nil. split_and!; [done..| |by left].
  intros rec Hr. by apply elem_of_nil in Hr.
Qed.

Lemma wp_reinsertDLQPubSub e n lg t l (Q : Z -> nat -> option DB -> Prop) E :
  (forall x, faulty e -> E (ErrDriver x)) -> subscribers_fit cfg name d0 \/ E ErrTooManySubscribers ->
  topic_keys t -> sub_gen_fresh e n t ->
  let back := filter (returns subs t) l in
  (forall n' t', (n <= n')%nat -> resubscribed (eq (e_now e)) subs back t t' -> topic_keys t' ->
     minted e t t' -> Q (Z.of_nat (length back)) n' (Some (topic_db lg t'))) ->
  wp e n (Some (topic_db lg t)) (reinsertDLQPubSub cfg name (q_TableName meta) (scan_dlq <$> l)) Q E.
Proof.
  intros HF Hfit Hkeys Hfr back HQ. unfold reinsertDLQPubSub, delete_dead_letters.
  assert (back = [] -> forall n', (n <= n')%nat -> Q 0 n' (Some (topic_db lg t))) as Hnone.
  { intros Hb n' Hn. rewrite Hb in HQ. apply HQ; [done|apply resubscribed_nil|done|by left]. }
  destruct (decide (l = [])) as [->|Hl]; [cbn; wp_step; by apply Hnone|].
  destruct (scan_dlq <$> l) as [|y ys] eqn:Hs; [by apply fmap_nil_inv in Hs|]. rewrite <-Hs. clear y ys Hs.
  wp_step. eapply on_topic_wp; [apply topic_db_lookup|]. unfold filterExistingMessages. wp_step.
  cbn [fmap option_fmap option_map]. rewrite topic_db_put, filter_list_fmap.
  set (live := filter _ l). assert (filter (fun x => targets subs x <> []) live = back) as Hback
    by apply filter_returns.
  destruct (decide (live = [])) as [Hlive|Hlive].
  { rewrite Hlive. cbn. wp_step. apply Hnone; [|lia]. by rewrite <-Hback, Hlive. }
  destruct (scan_dlq <$> live) as [|y ys] eqn:Hs; [by apply fmap_nil_inv in Hs|]. rewrite <-Hs. clear y ys Hs.
  wp_step. unfold resolvePubSubDLQRecords.
  apply (wp_resolve_records cfg name (topic_db lg t)); [done|done|done|].
  change ((fun x => sb_SubscriberID x.2) <$> active_subscribers name (topic_db lg t)) with subs.
  rewrite Hback. cbn [app]. intros n1 recs Hn1 Hrecs.
  assert (forall rec, rec ∈ recs <-> rec ∈ target_records subs back) as Hrecs'.
  { intros rec. rewrite Hrecs, elem_of_nil. tauto. }
  destruct (back.*1) as [|k ks] eqn:Hks.
  { apply fmap_nil_inv in Hks. wp_step. apply Hnone; [done|lia]. }
  rewrite <-Hks. wp_step. eapply on_topic_wp; [apply topic_db_lookup|].
  eapply wp_mono; [eapply (wp_and _ _ _ _ (fun _ n' s => exists t1, s = Some t1 /\ (n1 <= n')%nat /\
    subscribed (e_now e) recs t t1 /\ topic_keys t1) _ E); [|apply wp_insert_minted]| |by intros x [Hx _]].
  { apply wp_insertSubscriptionRecords; [done|done| | |].
    - split; [|apply Hfr]. intros m i Hm. apply Hfr. lia.
    - intros rec Hr%Hrecs'. apply elem_of_target_records in Hr as (x & Hx & -> & _).
      apply list_elem_of_filter in Hx as [[Hx _] _]. exact Hx.
    - intros t1 n2 Hn2 Hsub Hk1 _. by exists t1. }
  intros [] n2 s ((t1 & -> & Hn2 & (Hm1 & Hd1 & Hs1 & Hnew1 & Hold1) & Hk1) & Hmint).
  cbn [fmap option_fmap option_map]. rewrite topic_db_put.
  wp_step. eapply on_topic_wp; [apply topic_db_lookup|]. do 2 wp_step.
  cbn [fmap option_fmap option_map]. rewrite topic_db_put. rewrite length_fmap.
  apply HQ; [lia| |exact Hk1|].
  - unfold resubscribed. cbn. rewrite Hd1. split_and!; [done..| |].
    + intros rec Hr. by apply Hnew1, Hrecs'.
    + intros k' s' [?|(rec & Hr%Hrecs' & ->)]%Hold1; [by left|]. right. by exists rec, (e_now e).
  - intros k' Hk'. by apply (Hmint t1 eq_refl).
Qed.

End topic_page.

(** ** A whole replay of a topic's dead letters *)

Section topic_replay.
Context (o : oracle) (cfg : queueConfig) (name : string) (meta : queueMetadata) (w0 : world)
  (t0 : topicTables) (opts : ReplayOptions) (mr : Z).
Hypothesis Hrel : reliable o.
Hypothesis Hgen : gen_distinct o.
Hypothesis Hchan : db_channels (w_db w0) !! q_TableName meta = None.
Hypothesis Hfit : subscribers_fit cfg name (w_db w0).
Hypothesis Hnil : tt_dlq t0 !! nil_uuid = None.
Hypothesis Hfree : forall m k, is_Some (tt_dlq t0 !! k) -> k ∉ e_locked (o m).
Hypothesis Htext : text_ok (String.list_byte_of_string (PerformedBy opts)) = true.

Let subs : list string := (fun x => sb_SubscriberID x.2) <$> active_subscribers name (w_db w0).
Let entries := dead_letters (tt_dlq t0).
Definition going_back (pre : list (Z * dlqEntry)) : list (Z * dlqEntry) :=
  filter (returns subs t0) pre.

(** The state after the dead letters [pre] were examined. *)
Definition topic_state (pre : list (Z * dlqEntry)) (w : world) : Prop :=
  exists lg t, w_db w = topic_db meta (w_db w0) lg t /\
    resubscribed (fun now => exists m, ran w0 w m /\ now = e_now (o m)) subs (going_back pre) t0 t /\
    topic_keys t /\ fresh_from o (w_tick w) (tt_subs t) /\ fresh_from o (w_tick w) lg /\
    (w_tick w0 <= w_tick w)%nat /\
    audited QueueTypePubSub name "dlq" (PerformedBy opts) (db_replay_log (w_db w0)) lg
      (Z.of_nat (length (going_back pre))).

Lemma resubscribed_trans (P P' P'' : timestamp -> Prop) b b' t t' t'' :
  resubscribed P subs b t t' -> resubscribed P' subs b' t' t'' ->
  (forall x, P x -> P'' x) -> (forall x, P' x -> P'' x) -> resubscribed P'' subs (b ++ b') t t''.
Proof.
  intros (Hm & Hd & Hs & Hn & Ho) (Hm' & Hd' & Hs' & Hn' & Ho') HP HP'. unfold resubscribed.
  rewrite fmap_app, target_records_app. split_and!.
  - congruence.
  - by rewrite Hd', Hd, sql_delete_ids_app.
  - by etrans.
  - intros rec [Hr|Hr]%elem_of_app; [|by apply Hn'].
    destruct (Hn rec Hr) as (k & s & Hk & ?). exists k, s. split; [|done]. by eapply lookup_weaken.
  - intros k s Hk. destruct (Ho' k s Hk) as [Hk'|(rec & now & Hr & Hnow & ->)].
    + destruct (Ho k s Hk') as [?|(rec & now & Hr & Hnow & ->)]; [by left|right].
      exists rec, now. rewrite elem_of_app. auto.
    + right. exists rec, now. rewrite elem_of_app. auto.
Qed.

Lemma minted_fresh m t t' :
  fresh_from o m (tt_subs t) -> minted (o m) t t' -> fresh_from o (S m) (tt_subs t').
Proof.
  intros Hf Hm m' n i Hle. destruct (tt_subs t' !! e_gen (o m') n i) as [s|] eqn:Hs; [|done].
  destruct (Hm (e_gen (o m') n i) ltac:(eauto)) as [[s' Hs']|(n' & i' & Heq)].
  - by rewrite Hf in Hs' by lia.
  - apply Hgen in Heq. lia.
Qed.

Lemma fresh_sub_gen m n t : fresh_from o m (tt_subs t) -> sub_gen_fresh (o m) n t.
Proof.
  intros Hf. split; [intros; by apply Hf|]. intros m1 m2 i1 i2 Heq. apply Hgen in Heq. tauto.
Qed.

Lemma returns_msgs t x : tt_msgs t = tt_msgs t0 -> returns subs t x <-> returns subs t0 x.
Proof. intros Hm. unfold returns. by rewrite Hm. Qed.

(** A page's transaction on a topic. *)
Lemma wp_topic_page w pre rest k (dry : bool) lg t (Q : pageResult * bool -> nat -> option DB -> Prop) :
  entries = pre ++ rest -> 1 <= k ->
  tt_msgs t = tt_msgs t0 -> tt_dlq t = sql_delete_ids (if dry then [] else (going_back pre).*1) (tt_dlq t0) ->
  topic_keys t -> fresh_from o (w_tick w) (tt_subs t) -> fresh_from o (w_tick w) lg ->
  let got := take (Z.to_nat k) rest in
  (forall n n0 lg' t', (forall j, j <> e_gen (o (w_tick w)) n0 0%nat -> lg' !! j = lg !! j) ->
     audited QueueTypePubSub name "dlq" (PerformedBy opts) lg lg'
       (if dry then 0 else Z.of_nat (length (going_back got))) ->
     (dry = true -> lg' = lg) -> (got = [] -> t' = t) ->
     resubscribed (eq (e_now (o (w_tick w)))) subs (going_back got) t t' -> topic_keys t' ->
     minted (o (w_tick w)) t t' ->
     Q (mkPageResult (Z.of_nat (length (going_back got))) (default (cursor pre.*1) (last got.*1))
          (Z.of_nat (length got)), dry && negb (bool_decide (got = []))) n
       (Some (topic_db meta (w_db w0) lg' t'))) ->
  wp (o (w_tick w)) 0 (Some (topic_db meta (w_db w0) lg t))
    (dlq_page_body cfg name (q_TableName meta) QueueTypePubSub (cursor pre.*1) k (PerformedBy opts) mr
       dry) Q (fun _ => False).
Proof.
  intros Hes Hk Hm Hd Hkeys Hsubs Hlg got HQ.
  assert (sql_select_limit (Z.to_nat k) (fun i _ => past (cursor pre.*1) i && unlocked (o (w_tick w)) i)
    (fun _ => 0) (tt_dlq t) = got) as Hgot.
  { rewrite Hd. apply dlq_page_after; [done|done|apply Hfree|]. intros j. destruct dry.
    - by intros ?%elem_of_nil.
    - intros (x & -> & [_ Hx]%list_elem_of_filter)%list_elem_of_fmap. by apply list_elem_of_fmap_2. }
  assert (filter (returns subs t) got = going_back got) as Hback
    by (apply list_filter_iff; intros x; by apply returns_msgs).
  eapply (wp_page_body _ _ _ _ _ _ _ _ _ _ _ (tt_dlq t) (length (going_back got))
    (fun d => exists t', d = topic_db meta (w_db w0) lg t' /\ (got = [] -> t' = t) /\
      resubscribed (eq (e_now (o (w_tick w)))) subs (going_back got) t t' /\ topic_keys t' /\
      minted (o (w_tick w)) t t')); rewrite ?Hgot;
    [no_fault|by left|left; intros; by apply Hlg|done|by apply topic_db_dlq|..].
  - intros n Hne. unfold reinsertDLQMessages. rewrite bool_decide_eq_true_2 by done.
    apply wp_reinsertDLQPubSub; [no_fault|by left|done|by apply fresh_sub_gen|].
    fold subs. rewrite Hback. intros n' t' _ Hre Hk' Hmint. eexists. split_and!; [done..|].
    exists t'. split_and!; [done| |done..]. intros ?. done.
  - intros Hn. rewrite Hn. cbn. split; [done|]. exists t. split_and!; [done..| |done|by left].
    apply resubscribed_nil.
  - intros n n0 lg' d' Hj Haud Hdry _ (t' & -> & Hsame & Hre & Hk' & Hmint).
    change (set_replay_log lg' (topic_db meta (w_db w0) lg t')) with (topic_db meta (w_db w0) lg' t').
    by eapply HQ.
Qed.

Lemma going_back_app l l' : going_back (l ++ l') = going_back l ++ going_back l'.
Proof. apply filter_app. Qed.

Lemma topic_page_result pre got :
  mkPageResult (Z.of_nat (length (going_back got))) (default (cursor pre.*1) (last got.*1))
    (Z.of_nat (length got)) =
  mkPageResult (Z.of_nat (length (going_back (pre ++ got))) - Z.of_nat (length (going_back pre)))
    (cursor (pre ++ got).*1) (Z.of_nat (length got)).
Proof.
  f_equal; [rewrite going_back_app, length_app; lia|].
  unfold cursor. rewrite fmap_app, last_app. by destruct (last got.*1).
Qed.

Lemma iwp_topic_page w pre rest k :
  entries = pre ++ rest -> topic_state pre w -> 1 <= k ->
  iwp o w (replayDLQPage cfg name (q_TableName meta) QueueTypePubSub (cursor pre.*1) k
             (PerformedBy opts) mr false)
    (fun page w' => let got := take (Z.to_nat k) rest in
       page = mkPageResult (Z.of_nat (length (going_back (pre ++ got))) -
                Z.of_nat (length (going_back pre))) (cursor (pre ++ got).*1) (Z.of_nat (length got)) /\
       topic_state (pre ++ got) w')
    (fun _ _ => False).
Proof.
  intros Hes (lg & t & Hdb & Hre & Hkeys & Hsubs & Hlg & Hti & Haud) Hk. unfold replayDLQPage.
  apply iwp_withTx_dryRun; [no_fault|]. rewrite Hdb. pose proof Hre as (Hm & Hd & _).
  apply (wp_topic_page w pre rest k false lg t); [done..|]. set (got := take (Z.to_nat k) rest).
  intros n n0 lg' t' Hj Haud' _ _ Hre' Hkeys' Hmint. cbn [fst snd andb]. split; [apply topic_page_result|].
  exists lg', t'. rewrite going_back_app, length_app, Nat2Z.inj_add. split; [done|].
  refine (conj _ (conj Hkeys' (conj _ (conj _ (conj _ _))))).
  - eapply resubscribed_trans; [exact Hre|exact Hre'|..].
    + intros x (m & Hm' & ->). exists m. unfold ran in *. cbn. split; [lia|done].
    + intros x <-. exists (w_tick w). unfold ran. cbn. split; [lia|done].
  - by eapply minted_fresh.
  - by eapply fresh_log_next.
  - cbn. lia.
  - by eapply audited_trans.
Qed.

Hypothesis Hkeys : topic_keys t0.
Hypothesis Hsubs : fresh_from o (w_tick w0) (tt_subs t0).
Hypothesis Hlog : fresh_from o (w_tick w0) (db_replay_log (w_db w0)).
Hypothesis Hat : topic_at (w_db w0) name meta t0.

Lemma topic_db_id : topic_db meta (w_db w0) (db_replay_log (w_db w0)) t0 = w_db w0.
Proof. destruct Hat as [_ Ht]. unfold topic_db. rewrite <-(put_topic_same meta (w_db w0) t0 Ht). by destruct (w_db w0). Qed.

Lemma iwp_topic_dry_page w pre rest k :
  entries = pre ++ rest -> w_db w = w_db w0 -> (w_tick w0 <= w_tick w)%nat -> 1 <= k ->
  iwp o w (replayDLQPage cfg name (q_TableName meta) QueueTypePubSub (cursor pre.*1) k
             (PerformedBy opts) mr true)
    (fun page w' => let got := take (Z.to_nat k) rest in
       page = mkPageResult (Z.of_nat (length (going_back (pre ++ got))) -
                Z.of_nat (length (going_back pre))) (cursor (pre ++ got).*1) (Z.of_nat (length got)) /\
       w_db w' = w_db w0 /\ (w_tick w0 <= w_tick w')%nat)
    (fun _ _ => False).
Proof.
  intros Hes Hdb Hti Hk. unfold replayDLQPage. apply iwp_withTx_dryRun; [no_fault|].
  rewrite Hdb. replace (Some (w_db w0))
    with (Some (topic_db meta (w_db w0) (db_replay_log (w_db w0)) t0)) by by rewrite topic_db_id.
  apply (wp_topic_page w pre rest k true _ t0); [done|done|done|by rewrite sql_delete_ids_nil|done|..].
  { by eapply fresh_from_sub; [exact Hti|reflexivity|]. }
  { by eapply fresh_from_sub; [exact Hti|reflexivity|]. }
  set (got := take (Z.to_nat k) rest). intros n n0 lg' t' _ _ Hlg Ht' _ _ _. rewrite (Hlg eq_refl).
  destruct (bool_decide (got = [])) eqn:Hb; cbn [andb negb fst snd];
    (split; [apply topic_page_result|]); cbn; (split; [|lia]).
  - apply bool_decide_eq_true_1 in Hb. rewrite (Ht' Hb). apply topic_db_id.
  - exact Hdb.
Qed.

Let examined := take (quota (Limit opts) (length entries)) entries.

Lemma iwp_topic_run (St : list (Z * dlqEntry) -> world -> Prop) :
  w_closed w0 = false -> validateReplayOpts opts = Ok tt -> mr = resolveMaxRetries cfg meta ->
  (forall w1, frame w0 w1 -> St [] w1) ->
  (forall w' pre rest k, entries = pre ++ rest -> St pre w' -> 1 <= k ->
     iwp o w' (replayDLQPage cfg name (q_TableName meta) QueueTypePubSub (cursor pre.*1) k
                 (PerformedBy opts) mr (DryRun opts))
       (fun page w'' => let got := take (Z.to_nat k) rest in
          page = mkPageResult (Z.of_nat (length (going_back (pre ++ got))) -
                   Z.of_nat (length (going_back pre))) (cursor (pre ++ got).*1)
                   (Z.of_nat (length got)) /\ St (pre ++ got) w'')
       (fun _ _ => False)) ->
  iwp o w0 (ReplayDLQ cfg name QueueTypePubSub opts)
    (fun a w' => a = (mkReplayDLQResult (Z.of_nat (length (going_back examined)))
       (Z.of_nat (length examined) - Z.of_nat (length (going_back examined))), None) /\ St examined w')
    (fun _ _ => False).
Proof.
  intros Hcl Hv -> Hinit Hpage. destruct Hat as [Hl Ht]. apply iwp_ReplayDLQ.
  { intros x w1 [?|[?|[?|[m Hm]]]]; [congruence..|]. no_fault. }
  intros meta' w1 Hf1 Hl'. rewrite Hl in Hl'. injection Hl' as <-. pose proof Hf1 as (Hdb & _).
  eapply iwp_mono; [apply (iwp_dlq_loop o cfg name (q_TableName meta) QueueTypePubSub opts _
    (DryRun opts) entries (fun pre => length (going_back pre)) St
    (replay_fuel (q_TableName meta) w1) w1 [] entries)| |done].
  - exact Hpage.
  - done.
  - by apply Hinit.
  - unfold replay_fuel, queue_rows. rewrite Hdb, Ht. unfold entries, dead_letters.
    pose proof (length_sql_select (fun _ _ => true) (fun _ => 0) (tt_dlq t0)). lia.
  - cbn. lia.
  - by intros a w2 (-> & HSt).
Qed.

Lemma topic_state_start w1 : frame w0 w1 -> topic_state [] w1.
Proof.
  intros (Hdb & _ & _ & Hti). exists (db_replay_log (w_db w0)), t0. rewrite topic_db_id. cbn.
  refine (conj Hdb (conj _ (conj Hkeys (conj _ (conj _ (conj Hti (audited_refl _ _ _ _ _))))))).
  - apply resubscribed_nil.
  - by eapply fresh_from_sub; [exact Hti|reflexivity|].
  - by eapply fresh_from_sub; [exact Hti|reflexivity|].
Qed.

End topic_replay.

(** ** Properties *)

(** C26: replaying a topic's dead letters gives exactly those whose message still
    exists, and that have someone to go to, back to the subscriber they failed for (a
    dead letter that names none goes to every active subscriber): each such delivery
    exists afterwards, new ones are pending, other subscriptions and all messages stay
    as they are, the dead letters put back are gone and the others remain.  Dead letters
    of one message are not skipped as duplicates of one another, in whatever pages they
    are: each is counted as replayed and removed.  So a dry run returns the same counts,
    and changes nothing; the caveat in the documentation of ReplayDLQ about entries that
    share an original_message_id holds of channels only. *)
Theorem ReplayDLQ_topic_exact (o : oracle) (cfg : queueConfig) (w : world) (name : string)
    (opts : ReplayOptions) (meta : queueMetadata) (t : topicTables) :
  reliable o -> gen_distinct o -> fresh_from o (w_tick w) (db_replay_log (w_db w)) ->
  fresh_from o (w_tick w) (tt_subs t) ->
  w_closed w = false -> validateReplayOpts opts = Ok tt ->
  text_ok (String.list_byte_of_string (PerformedBy opts)) = true ->
  topic_at (w_db w) name meta t -> db_channels (w_db w) !! q_TableName meta = None ->
  subscribers_fit cfg name (w_db w) -> topic_keys t -> tt_dlq t !! nil_uuid = None ->
  (forall m k, is_Some (tt_dlq t !! k) -> k ∉ e_locked (o m)) ->
  let subs := (fun x => sb_SubscriberID x.2) <$> active_subscribers name (w_db w) in
  let all := dead_letters (tt_dlq t) in
  let examined := take (quota (Limit opts) (length all)) all in
  let back := filter (returns subs t) examined in
  exists w', ReplayDLQ cfg name QueueTypePubSub opts o w =
      (Ok (mkReplayDLQResult (Z.of_nat (length back))
             (Z.of_nat (length examined) - Z.of_nat (length back)), None), w') /\
    if DryRun opts then w_db w' = w_db w
    else exists lg t', w_db w' = set_replay_log lg (put_topic meta t' (w_db w)) /\
      resubscribed (fun now => exists m, ran w w' m /\ now = e_now (o m)) subs back t t' /\
      topic_keys t' /\
      audited QueueTypePubSub name "dlq" (PerformedBy opts) (db_replay_log (w_db w)) lg
        (Z.of_nat (length back)).
Proof.
  intros Hrel Hgen Hlog Hsubs Hcl Hv Htext Hat Hchan Hfit Hkeys Hnil Hfree subs all examined back.
  set (mr := resolveMaxRetries cfg meta). destruct (DryRun opts) eqn:Hdry.
  - pose proof (iwp_topic_run o cfg name meta w t opts mr Hrel Hat
      (fun _ w' => w_db w' = w_db w /\ (w_tick w <= w_tick w')%nat) Hcl Hv eq_refl) as Hi.
    rewrite Hdry in Hi. unfold iwp in Hi.
    destruct (ReplayDLQ cfg name QueueTypePubSub opts o w) as [[a|x] w'];
      (destruct Hi as [-> [Hdb _]] || destruct Hi).
    + by intros w1 (? & _ & _ & ?).
    + intros w1 pre rest k Hes [Hdb Hti] Hk. by apply (iwp_topic_dry_page o cfg name meta w t opts mr).
    + by exists w'.
    + by intros w1 (? & _ & _ & ?).
    + intros w1 pre rest k Hes [Hdb Hti] Hk. by apply (iwp_topic_dry_page o cfg name meta w t opts mr).
  - pose proof (iwp_topic_run o cfg name meta w t opts mr Hrel Hat
      (topic_state o name meta w t opts) Hcl Hv eq_refl) as Hi.
    rewrite Hdry in Hi. unfold iwp in Hi.
    destruct (ReplayDLQ cfg name QueueTypePubSub opts o w) as [[a|x] w'];
      (destruct Hi as [-> (lg & t' & Hdb & Hre & Hk' & _ & _ & _ & Haud)] || destruct Hi).
    + intros w1 Hf. by apply (topic_state_start o cfg).
    + intros w1 pre rest k Hes HSt Hk. by apply iwp_topic_page.
    + exists w'. split; [done|]. by exists lg, t'.
    + intros w1 Hf. by apply (topic_state_start o cfg).
    + intros w1 pre rest k Hes HSt Hk. by apply iwp_topic_page.
Qed.

(** Alice's delivery of message 5 was dead-lettered (11); 12 is of a message that is
    gone, 13 names no subscriber. *)
Definition dead_topic_tables : topicTables :=
  mkTopicTables {[5 := mkTopicRow [Byte.x61] 0 None]} {[102 := sample_sub_bob]}
    (<[11 := mkDlqEntry 5 (Some "alice") [Byte.x61] [] 4 50 None]>
    (<[12 := mkDlqEntry 9 (Some "alice") [Byte.x62] [] 4 51 None]>
    {[13 := mkDlqEntry 5 None [Byte.x61] [] 4 52 None]})).
Definition dead_topic_world : world :=
  new_world (set_subscribers {[1 := mkSubscriber "news" "bob" 0 true]}
    (put_topic sample_topic_meta dead_topic_tables (w_db sample_topic_world))).

Lemma dead_topic_keys : topic_keys dead_topic_tables.
Proof.
  unfold topic_keys. cbn [dead_topic_tables tt_subs tt_msgs]. setoid_rewrite lookup_singleton_Some.
  split; [intros k s [<- <-]; by eexists|]. by intros k k' s s' [<- _] [<- _].
Qed.

Lemma dead_topic_fresh : fresh_from distinct_oracle (w_tick dead_topic_world) (tt_subs dead_topic_tables).
Proof. intros m n i _. apply lookup_singleton_None. cbn [distinct_oracle e_gen]. lia. Qed.

Lemma ReplayDLQ_topic_exact_witness :
  exists w', ReplayDLQ sample_cfg "news" QueueTypePubSub (replay_opts false) distinct_oracle
    dead_topic_world = (Ok (mkReplayDLQResult 2 1, None), w').
Proof.
  destruct (ReplayDLQ_topic_exact distinct_oracle sample_cfg dead_topic_world "news"
    (replay_opts false) sample_topic_meta dead_topic_tables distinct_oracle_reliable
    distinct_oracle_distinct (gc_fresh_empty _ _) dead_topic_fresh eq_refl eq_refl eq_refl)
    as (w' & H & _).
  - split; vm_compute; reflexivity.
  - reflexivity.
  - unfold subscribers_fit. apply (bool_decide_unpack _). vm_compute. exact I.
  - exact dead_topic_keys.
  - reflexivity.
  - intros m k. apply calm_unlocked.
  - exists w'. exact H.
Defined.
