(* ===== verification/Stats.v ===== *)
(** * Statistics ([stats.go])

    The aggregate queries an operator reads: [Stats], [QueueDepth],
    [SubscriberLag], [DLQStats], [SubscriberHealth] and [UnhealthySubscribers].
    Each is one autocommitted SELECT over the queue's tables (one per topic for
    [UnhealthySubscribers]), so its figures share one snapshot.  The properties
    tie them to the operations they describe: the depth is the number of messages
    consume calls hand out, the counts add up to the table. *)

From S2P Require Import Prelude Types Tx Backoff Float64 World Config Queries Channel PubSub Replay.
From Stdlib Require Import ZArith Lia.
Local Open Scope Z_scope.

(** ** What the driver scans *)

(** [scan_float num den] is the float64 the driver scans from the numeric
    [num / den] the server computed. *)
Class Decoder := { scan_float : Z -> Z -> spec_float }.

(** Whatever it is, it is a double. *)
Class DecoderLaws `{Decoder} : Prop := {
  scan_float_valid num den : valid_binary 53 1024 (scan_float num den) = true
}.

(** ** SQL aggregates *)

(** The values an aggregate ranges over: NULL and filtered-out rows are dropped. *)
Definition sql_values {R} (f : R -> option Z) (m : gmap Z R) : list Z :=
  omap (fun x => f x.2) (map_to_list m).

Definition sql_min (l : list Z) : option Z :=
  match l with [] => None | x :: l => Some (foldr Z.min x l) end.
Definition sql_max (l : list Z) : option Z :=
  match l with [] => None | x :: l => Some (foldr Z.max x l) end.
(** The average as a fraction. *)
Definition sql_avg (l : list Z) : option (Z * Z) :=
  match l with [] => None | _ => Some (foldr Z.add 0 l, Z.of_nat (length l)) end.

(** [EXTRACT(EPOCH FROM ...)] of microseconds over [n]. *)
Definition epoch `{Decoder} (us n : Z) : spec_float := scan_float us (1000000 * n).

(** ** Durations from seconds *)

Definition maxProcessingTimeSeconds : Z := 100 * 36525 * 24 * 36.

(** The clamp both conversions apply. *)
Definition clamp_seconds (v : spec_float) : spec_float :=
  let v := if SFltb v (S754_zero false) || negb (SFeqb v v) then S754_zero false else v in
  if SFltb (float64_of_int maxProcessingTimeSeconds) v then float64_of_int maxProcessingTimeSeconds
  else v.

Definition secondsToProcessingTime (conv : spec_float -> Z) (secs : option spec_float) :
    option Duration :=
  match secs with
  | None => None
  | Some v => Some (int_of_float64 conv (f64_mul (clamp_seconds v) (float64_of_int second)))
  end.

Definition secondsToAge (conv : spec_float -> Z) (secs : option spec_float) : option Duration :=
  match secs with
  | None => None
  | Some v => Some (int_of_float64 conv (f64_mul (clamp_seconds v) (float64_of_int second)))
  end.

(** ** Queue statistics *)

Record QueueStats := mkQueueStats {
  st_QueueName : string;
  PendingCount : Z;
  ProcessingCount : Z;
  CompletedCount : Z;
  DLQCount : Z;
  AvgProcessingTime : option Duration;
  OldestPendingAge : option Duration
}.

(** COUNT( * ) FILTER (WHERE status = s) *)
Definition count_status {R} (status : R -> MessageStatus) (s : MessageStatus) (m : gmap Z R) : Z :=
  Z.of_nat (sql_count (fun _ r => bool_decide (status r = s)) m).

(** MIN(created_at) FILTER (WHERE status = 'pending') *)
Definition oldest_pending {R} (status : R -> MessageStatus) (created : R -> timestamp)
    (m : gmap Z R) : option timestamp :=
  sql_min (sql_values (fun r => if bool_decide (status r = MessageStatusPending)
                                then Some (created r) else None) m).

Section stats.
Context `{Server} `{Decoder} (cfg : queueConfig).

(** EXTRACT(EPOCH FROM (NOW() - oldest)) *)
Definition age_seconds (now : timestamp) (oldest : option timestamp) : option spec_float :=
  (fun c => epoch (now - c) 1) <$> oldest.

(** AVG(EXTRACT(EPOCH FROM (finished - created))) FILTER (WHERE finished IS NOT NULL) *)
Definition avg_seconds {R} (finished : R -> option timestamp) (created : R -> timestamp)
    (m : gmap Z R) : option spec_float :=
  (fun a => epoch a.1 a.2) <$> sql_avg (sql_values (fun r => (fun f => f - created r) <$> finished r) m).

Definition getChannelStats (tableName : string) (stats : QueueStats) : io QueueStats :=
  autocommit (
    conv ← ask_conv;
    on_channel tableName (query (fun e t =>
      let m := ct_msgs t in
      Ok (mkQueueStats (st_QueueName stats)
        (count_status c_status MessageStatusPending m)
        (count_status c_status MessageStatusProcessing m)
        (count_status c_status MessageStatusCompleted m)
        (Z.of_nat (size (ct_dlq t)))
        (secondsToProcessingTime conv (avg_seconds c_processed_at c_created_at m))
        (secondsToAge conv (age_seconds (e_now e) (oldest_pending c_status c_created_at m))))))).

Definition getPubSubStats (tableName : string) (stats : QueueStats) : io QueueStats :=
  autocommit (
    conv ← ask_conv;
    on_topic tableName (query (fun e t =>
      let m := tt_subs t in
      Ok (mkQueueStats (st_QueueName stats)
        (count_status s_status MessageStatusPending m)
        (count_status s_status MessageStatusProcessing m)
        (count_status s_status MessageStatusAcked m)
        (Z.of_nat (size (tt_dlq t)))
        (secondsToProcessingTime conv (avg_seconds s_acked_at s_created_at m))
        (secondsToAge conv (age_seconds (e_now e) (oldest_pending s_status s_created_at m))))))).

(** status = 'pending' AND available_at <= NOW(), and the TTL clause of a channel *)
Definition channel_depth_row (ttl : Duration) (now : timestamp) (r : channelRow) : bool :=
  bool_decide (c_status r = MessageStatusPending) && (c_available_at r <=? now) &&
  within_ttl ttl now (c_created_at r).
Definition sub_available (now : timestamp) (s : subRow) : bool :=
  bool_decide (s_status s = MessageStatusPending) && (s_available_at s <=? now).

Definition queueDepthQuery (tableName : string) (queueType : QueueType) (ttl : Duration) : tx DB Z :=
  if bool_decide (queueType = QueueTypeChannel) then
    on_channel tableName (query (fun e t => Ok (Z.of_nat
      (sql_count (fun _ => channel_depth_row ttl (e_now e)) (ct_msgs t)))))
  else if 0 <? ttl then
    on_topic tableName (query (fun e t => Ok (Z.of_nat
      (sql_count (fun _ s => sub_available (e_now e) s && joined ttl e t s) (tt_subs t)))))
  else
    on_topic tableName (query (fun e t => Ok (Z.of_nat
      (sql_count (fun _ => sub_available (e_now e)) (tt_subs t))))).

Definition consumableDepth (tableName : string) (queueType : QueueType) (config : configJSON) : io Z :=
  let ttl := getQueueTTL cfg config in
  autocommit (queueDepthQuery tableName queueType ttl).

(** The second component is the depth the metrics recorder observes. *)
Definition Stats (queueName : string) (queueType : QueueType) : io (QueueStats * Z) :=
  checkClosed ;;
  metadata ← getQueueMetadata queueType queueName;
  let tableName := q_TableName metadata in
  let stats := mkQueueStats queueName 0 0 0 0 None None in
  stats ← (if bool_decide (queueType = QueueTypeChannel) then getChannelStats tableName stats
           else getPubSubStats tableName stats);
  depth ← consumableDepth tableName queueType (q_Config metadata);
  mret (stats, depth).

Definition QueueDepth (queueName : string) (queueType : QueueType) : io Z :=
  checkClosed ;;
  metadata ← getQueueMetadata queueType queueName;
  consumableDepth (q_TableName metadata) queueType (q_Config metadata).

(** ** Dead-letter statistics *)

Record DLQStats_ := mkDLQStats {
  ds_QueueName : string;
  TotalCount : Z;
  OldestMovedAt : option timestamp;
  NewestMovedAt : option timestamp;
  AvgRetryCount : spec_float
}.

Definition DLQStats (queueName : string) (queueType : QueueType) : io DLQStats_ :=
  checkClosed ;;
  metadata ← getQueueMetadata queueType queueName;
  autocommit (on_dead_letters (q_TableName metadata) (fun _ m =>
    let moved := sql_values (fun d => Some (d_moved_at d)) m in
    Ok (mkDLQStats queueName (Z.of_nat (size m)) (sql_min moved) (sql_max moved)
      (match sql_avg (sql_values (fun d => Some (d_retry_count d)) m) with
       | Some a => scan_float a.1 a.2
       | None => S754_zero false
       end)))).

(** ** Subscribers *)

Record SubscriberLag_ := mkSubscriberLag {
  lag_SubscriberID : string;
  lag_TopicName : string;
  lag_PendingCount : Z;
  lag_ProcessingCount : Z;
  lag_AckedCount : Z;
  lag_OldestPendingAge : option Duration
}.

Record SubscriberHealth_ := mkSubscriberHealth {
  h_TopicName : string;
  h_SubscriberID : string;
  PendingMessages : Z;
  StuckMessages : Z;
  OldestPending : option timestamp;
  LastActivity : option timestamp
}.

(** WHERE subscriber_id = $1 *)
Definition subs_of (subscriberID : string) (t : topicTables) : gmap Z subRow :=
  filter (fun x => s_subscriber_id x.2 = subscriberID) (tt_subs t).

Definition SubscriberLag (topicName subscriberID : string) : io SubscriberLag_ :=
  checkClosed ;;
  from_result (validateSubscriberID subscriberID) ;;
  metadata ← map_err (not_found_as ErrTopicNotFound) (getQueueMetadata QueueTypePubSub topicName);
  autocommit (
    conv ← ask_conv;
    on_topic (q_TableName metadata) (query (fun e t =>
      let m := subs_of subscriberID t in
      Ok (mkSubscriberLag subscriberID topicName
        (count_status s_status MessageStatusPending m)
        (count_status s_status MessageStatusProcessing m)
        (count_status s_status MessageStatusAcked m)
        (secondsToAge conv (age_seconds (e_now e) (oldest_pending s_status s_created_at m))))))).

(** status = 'processing' AND visibility_timeout < NOW() *)
Definition stuck (now : timestamp) (s : subRow) : bool :=
  bool_decide (s_status s = MessageStatusProcessing) && timed_out now (s_visibility_timeout s).

(** The aggregates of one subscriber's rows. *)
Definition health_of (now : timestamp) (topicName subscriberID : string) (m : gmap Z subRow) :
    SubscriberHealth_ :=
  mkSubscriberHealth topicName subscriberID
    (count_status s_status MessageStatusPending m)
    (Z.of_nat (sql_count (fun _ => stuck now) m))
    (oldest_pending s_status s_created_at m)
    (sql_max (sql_values s_acked_at m)).

Definition buildSubscriberHealthQuery (topicName subscriberID : string) :
    tx topicTables SubscriberHealth_ :=
  query (fun e t => Ok (health_of (e_now e) topicName subscriberID (subs_of subscriberID t))).

Definition SubscriberHealth (topicName subscriberID : string) : io SubscriberHealth_ :=
  checkClosed ;;
  from_result (validateSubscriberID subscriberID) ;;
  metadata ← map_err (not_found_as ErrTopicNotFound) (getQueueMetadata QueueTypePubSub topicName);
  autocommit (on_topic (q_TableName metadata) (buildSubscriberHealthQuery topicName subscriberID)).

(** GROUP BY subscriber_id: one group per subscriber with rows.  The server chooses
    the order of the groups. *)
Definition group_keys (t : topicTables) : list string :=
  remove_dups ((fun x => s_subscriber_id x.2) <$> map_to_list (tt_subs t)).

(** The HAVING clause; a NULL minimum compares as not true. *)
Definition unhealthy (threshold : Duration) (now : timestamp) (h : SubscriberHealth_) : bool :=
  (0 <? StuckMessages h) ||
  match OldestPending h with Some c => c <? now - make_interval threshold | None => false end.

Definition buildUnhealthySubscribersQuery (topicName : string) (threshold : Duration) :
    tx topicTables (list SubscriberHealth_) :=
  query (fun e t => Ok (filter (fun h => unhealthy threshold (e_now e) h = true)
    ((fun sid => health_of (e_now e) topicName sid (subs_of sid t)) <$> group_keys t))).

Definition findUnhealthyForTopic (topicName tableName : string) (threshold : Duration) :
    io (list SubscriberHealth_) :=
  autocommit (on_topic tableName (buildUnhealthySubscribersQuery topicName threshold)).

(** The loop over the topics. *)
Fixpoint unhealthy_loop (topics : list queueMetadata) (threshold : Duration)
    (acc : list SubscriberHealth_) : io (list SubscriberHealth_) :=
  match topics with
  | [] => mret acc
  | topic :: topics =>
      subs ← findUnhealthyForTopic (q_QueueName topic) (q_TableName topic) threshold;
      unhealthy_loop topics threshold (acc ++ subs)
  end.

Definition UnhealthySubscribers (threshold : Duration) : io (list SubscriberHealth_) :=
  checkClosed ;;
  topics ← autocommit (query (fun _ d => Ok (snd <$>
    sql_select (fun _ m => bool_decide (q_QueueType m = QueueTypePubSub)) (fun _ => 0) (db_metadata d))));
  unhealthy_loop topics threshold [].

End stats.

(** ** The clamp *)

Lemma max_seconds_float :
  float64_of_int maxProcessingTimeSeconds = S754_finite false (3155760000 * 2 ^ 21) (- 21).
Proof. reflexivity. Qed.

Lemma second_float : float64_of_int second = S754_finite false (1000000000 * 2 ^ 23) (- 23).
Proof. reflexivity. Qed.

(** The doubles that are at most 100 years. *)
Lemma max_seconds_least m e :
  bounded 53 1024 m e = true ->
  SFltb (float64_of_int maxProcessingTimeSeconds) (S754_finite false m e) = false ->
  -1074 <= e /\ at_most 1100 maxProcessingTimeSeconds (Z.pos m) e.
Proof.
  rewrite max_seconds_float. intros Hb Hlt. unfold bounded, canonical_mantissa, fexp, emin in Hb.
  apply andb_true_iff in Hb as [He%Z.eqb_eq _]. destruct (digits2_pos_bounds m) as [_ Hm].
  split; [lia|]. split; [lia|]. unfold SFltb, SFcompare in Hlt. change maxProcessingTimeSeconds with 3155760000.
  assert (e < -21 \/ (e = -21 /\ Z.pos m <= 3155760000 * 2 ^ 21)) as [Hlow|[-> Hle]].
  { destruct (Z.compare_spec (-21) e) as [<-|?|?]; [|done|by left]. right. split; [done|].
    change (PosDef.Pos.compare_cont Eq ?x ?y) with (Pos.compare x y) in Hlt.
    destruct (Pos.compare_spec (3155760000 * 2 ^ 21) m); [subst; done|done|lia]. }
  - assert (Z.pos m < 2 ^ 53) by (eapply Z.lt_le_trans; [exact Hm|]; apply Z.pow_le_mono_r; lia).
    assert (2 ^ (e + 1100) <= 2 ^ 1078) by (apply Z.pow_le_mono_r; lia).
    assert (0 < 2 ^ (e + 1100)) by (apply Z.pow_pos_nonneg; lia).
    apply Z.le_trans with (2 ^ 53 * 2 ^ 1078); [|vm_compute; congruence].
    apply Z.mul_le_mono_nonneg; lia.
  - apply Z.le_trans with (3155760000 * 2 ^ 21 * 2 ^ (-21 + 1100)); [|vm_compute; congruence].
    apply Z.mul_le_mono_nonneg_r; lia.
Qed.

Lemma clamp_seconds_cases v :
  valid_binary 53 1024 v = true ->
  (exists s, clamp_seconds v = S754_zero s) \/
  (exists m e, clamp_seconds v = S754_finite false m e /\ -1074 <= e /\
     at_most 1100 maxProcessingTimeSeconds (Z.pos m) e).
Proof.
  intros Hv. unfold clamp_seconds.
  assert (-1074 <= -21 /\ at_most 1100 maxProcessingTimeSeconds (Z.pos (3155760000 * 2 ^ 21)) (-21)) as Hmax.
  { split; [lia|]. split; [lia|]. vm_compute. congruence. }
  destruct v as [s|[]| |[] m e]; try (left; by eexists).
  { right. by do 2 eexists. }
  assert (SFeqb (S754_finite false m e) (S754_finite false m e) = true) as ->.
  { unfold SFeqb, SFcompare. rewrite Z.compare_refl.
    change (PosDef.Pos.compare_cont Eq ?x ?y) with (Pos.compare x y). by rewrite Pos.compare_refl. }
  cbn [negb orb]. destruct (SFltb (float64_of_int _) _) eqn:E; right.
  - rewrite max_seconds_float. by do 2 eexists.
  - exists m, e. split; [done|]. by apply max_seconds_least.
Qed.

Lemma seconds_to_duration v :
  valid_binary 53 1024 v = true ->
  exists d, 0 <= d <= maxProcessingTimeSeconds * second /\
    forall conv, int_of_float64 conv (f64_mul (clamp_seconds v) (float64_of_int second)) = d.
Proof.
  intros Hv. rewrite second_float. destruct (clamp_seconds_cases v Hv) as [[s ->]|(m & e & -> & He & HeB & Hle)].
  { exists 0. split; [done|]. by intros conv. }
  apply (round_at_most 1123 (maxProcessingTimeSeconds * second)); [done|done|lia|lia|].
  split; [lia|]. replace (e + -23 + 1123) with (e + 1100) by lia. rewrite Pos2Z.inj_mul.
  replace (2 ^ 1123) with (2 ^ 1100 * 2 ^ 23) by done.
  replace (Z.pos (1000000000 * 2 ^ 23)) with (second * 2 ^ 23) by done.
  apply Z.le_trans with (Z.pos m * 2 ^ (e + 1100) * (second * 2 ^ 23)); [lia|].
  apply Z.le_trans with (maxProcessingTimeSeconds * 2 ^ 1100 * (second * 2 ^ 23)); [|lia].
  apply Z.mul_le_mono_nonneg_r; [done|exact Hle].
Qed.

(** ** Aggregates *)

Lemma elem_of_sql_values {R} (f : R -> option Z) (m : gmap Z R) v :
  v ∈ sql_values f m <-> exists i r, m !! i = Some r /\ f r = Some v.
Proof.
  unfold sql_values. rewrite list_elem_of_omap. split.
  - intros ([i r] & Hin%elem_of_map_to_list & Hf). by exists i, r.
  - intros (i & r & Hi & Hf). exists (i, r). by rewrite elem_of_map_to_list.
Qed.

Lemma foldr_min_le x l : foldr Z.min x l <= x /\ forall y, y ∈ l -> foldr Z.min x l <= y.
Proof.
  induction l as [|z l [IH1 IH2]]; cbn.
  { split; [lia|]. intros y Hy. by apply elem_of_nil in Hy. }
  split; [lia|]. intros y [->|Hy]%elem_of_cons; [lia|]. specialize (IH2 y Hy). lia.
Qed.

Lemma foldr_min_in x l : foldr Z.min x l ∈ x :: l.
Proof.
  induction l as [|z l IH]; cbn; [left|].
  destruct (Z.min_spec z (foldr Z.min x l)) as [[_ ->]|[_ ->]]; [right; left|].
  apply elem_of_cons in IH as [->|IH]; [left|by do 2 right].
Qed.

Lemma sql_min_spec l x : sql_min l = Some x <-> x ∈ l /\ forall y, y ∈ l -> x <= y.
Proof.
  destruct l as [|z l]; cbn [sql_min].
  { split; [done|]. intros [Hx _]. by apply elem_of_nil in Hx. }
  destruct (foldr_min_le z l) as [H1 H2]. pose proof (foldr_min_in z l) as Hin. split.
  - intros [= <-]. split; [done|]. intros y [->|Hy]%elem_of_cons; auto.
  - intros [Hx Hall]. f_equal. specialize (Hall _ Hin). apply elem_of_cons in Hx as [->|Hx]; [lia|].
    specialize (H2 x Hx). lia.
Qed.

Lemma sql_min_None l : sql_min l = None <-> l = [].
Proof. by destruct l. Qed.

(** A comparison of the minimum is one of some row. *)
Lemma sql_min_below {R} (f : R -> option Z) (m : gmap Z R) b :
  match sql_min (sql_values f m) with Some c => c <? b | None => false end = true <->
  exists i r v, m !! i = Some r /\ f r = Some v /\ v < b.
Proof.
  destruct (sql_min (sql_values f m)) as [c|] eqn:E.
  - apply sql_min_spec in E as [Hin Hall]. rewrite Z.ltb_lt. split.
    + intros Hlt. apply elem_of_sql_values in Hin as (i & r & Hi & Hf). by exists i, r, c.
    + intros (i & r & v & Hi & Hf & Hlt). specialize (Hall v). rewrite elem_of_sql_values in Hall.
      specialize (Hall ltac:(eauto)). lia.
  - apply sql_min_None in E. split; [done|]. intros (i & r & v & Hi & Hf & _). exfalso.
    apply (not_elem_of_nil v). rewrite <-E. apply elem_of_sql_values. eauto.
Qed.

Lemma sql_count_positive {R} (P : Z -> R -> bool) (m : gmap Z R) :
  (0 <? Z.of_nat (sql_count P m)) = true <-> exists i r, m !! i = Some r /\ P i r = true.
Proof.
  rewrite Z.ltb_lt. split.
  - intros Hpos. destruct (sql_select P (fun _ => 0) m) as [|[i r] l] eqn:E.
    + unfold sql_count in Hpos. rewrite E in Hpos. cbn in Hpos. lia.
    + apply sql_select_head in E as (Hi & HP & _). by exists i, r.
  - intros (i & r & Hi & HP). destruct (sql_count P m) eqn:E; [|lia].
    pose proof (proj1 (sql_count_zero _ _) E i r Hi). congruence.
Qed.

(** The counts by status add up to the table. *)
Lemma count_status_sum {R} (status : R -> MessageStatus) a b c (m : gmap Z R) :
  a <> b -> a <> c -> b <> c ->
  (forall i r, m !! i = Some r -> status r = a \/ status r = b \/ status r = c) ->
  count_status status a m + count_status status b m + count_status status c m = Z.of_nat (size m).
Proof.
  intros Hab Hac Hbc Hall. unfold count_status. rewrite !sql_count_filter, <-length_map_to_list.
  assert (forall x, x ∈ map_to_list m -> status x.2 = a \/ status x.2 = b \/ status x.2 = c) as Hl.
  { intros [i r] Hin%elem_of_map_to_list. by eapply Hall. }
  clear Hall. induction (map_to_list m) as [|x l IH]; [done|]. rewrite !filter_cons.
  pose proof (Hl x ltac:(left)) as Hx. specialize (IH ltac:(intros y Hy; apply Hl; by right)).
  repeat case_decide; rewrite ?bool_decide_eq_true in *; cbn [length];
    first [congruence|lia|destruct Hx as [|[|]]; congruence].
Qed.

(** ** What the figures promise *)

(** The consumable rows of a queue now, its rows and its dead letters. *)
Definition queue_totals (cfg : queueConfig) (qt : QueueType) (meta : queueMetadata) (d : DB)
    (rows dead : nat) : Prop :=
  match qt with
  | QueueTypeChannel => exists ct, db_channels d !! q_TableName meta = Some ct /\
      channel_inv cfg ct /\ rows = size (ct_msgs ct) /\ dead = size (ct_dlq ct)
  | QueueTypePubSub => exists tt mr, db_topics d !! q_TableName meta = Some tt /\
      topic_inv mr tt /\ rows = size (tt_subs tt) /\ dead = size (tt_dlq tt)
  | QueueTypeOther _ => False
  end.

Record stats_ok (rows dead : nat) (depth : Z) (st : QueueStats) : Prop := mkStatsOk {
  ok_sum : PendingCount st + ProcessingCount st + CompletedCount st = Z.of_nat rows;
  ok_dead : DLQCount st = Z.of_nat dead;
  ok_depth : 0 <= depth <= PendingCount st;
  ok_oldest : OldestPendingAge st = None <-> PendingCount st = 0;
  ok_clamped d : AvgProcessingTime st = Some d \/ OldestPendingAge st = Some d ->
    0 <= d <= maxProcessingTimeSeconds * second
}.

Section stats_proofs.
Context `{Server} `{DecoderLaws} (cfg : queueConfig).

Lemma seconds_clamped conv secs d :
  (forall v, secs = Some v -> valid_binary 53 1024 v = true) ->
  secondsToAge conv secs = Some d -> 0 <= d <= maxProcessingTimeSeconds * second.
Proof.
  intros Hv. destruct secs as [v|]; [|done]. cbn. intros [= <-].
  destruct (seconds_to_duration v (Hv v eq_refl)) as (d & Hd & Heq). by rewrite Heq.
Qed.

Lemma stats_row_ok {R} conv name now (status : R -> MessageStatus) created finished last m dead depth :
  last <> MessageStatusPending -> last <> MessageStatusProcessing ->
  (forall i r, m !! i = Some r -> status r = MessageStatusPending \/
     status r = MessageStatusProcessing \/ status r = last) ->
  0 <= depth <= count_status status MessageStatusPending m ->
  stats_ok (size m) dead depth (mkQueueStats name (count_status status MessageStatusPending m)
    (count_status status MessageStatusProcessing m) (count_status status last m) (Z.of_nat dead)
    (secondsToProcessingTime conv (avg_seconds finished created m))
    (secondsToAge conv (age_seconds now (oldest_pending status created m)))).
Proof.
  intros Hl1 Hl2 Hall Hd. split; cbn [PendingCount ProcessingCount CompletedCount DLQCount
    OldestPendingAge AvgProcessingTime]; [by apply count_status_sum|done|done| |].
  - unfold age_seconds, oldest_pending, count_status. destruct (sql_min _) as [c|] eqn:E; cbn.
    + apply sql_min_spec in E as [(i & r & Hi & Hr)%elem_of_sql_values _].
      destruct (bool_decide (status r = MessageStatusPending)) eqn:Hp; [|done]. split; [done|].
      intros Hz. destruct (sql_count _ m) eqn:Hc; [|lia].
      pose proof (proj1 (sql_count_zero _ _) Hc i r Hi) as Hf. cbn in Hf. congruence.
    + split; [|done]. intros _. apply sql_min_None in E.
      destruct (sql_count _ m) eqn:Hc; [done|]. exfalso.
      destruct (proj1 (sql_count_positive (fun _ r => bool_decide (status r = MessageStatusPending)) m))
        as (i & r & Hi & Hr); [rewrite Hc; apply Z.ltb_lt; lia|].
      apply (not_elem_of_nil (created r)). rewrite <-E. apply elem_of_sql_values. exists i, r.
      by rewrite Hr.
  - intros d [Hs|Hs].
    1: apply (seconds_clamped conv (avg_seconds finished created m)); [|exact Hs].
    2: apply (seconds_clamped conv (age_seconds now (oldest_pending status created m))); [|exact Hs].
    all: unfold avg_seconds, age_seconds, epoch; intros v (? & _ & ->)%fmap_Some; apply scan_float_valid.
Qed.

Lemma channel_depth_le ttl now (m : gmap Z channelRow) :
  0 <= Z.of_nat (sql_count (fun _ => channel_depth_row ttl now) m) <= count_status c_status MessageStatusPending m.
Proof.
  split; [lia|]. unfold count_status. apply inj_le, sql_count_mono. intros i r _.
  unfold channel_depth_row. rewrite !andb_true_iff. tauto.
Qed.

Lemma iwp_getChannelStats o w t ct st (Q : QueueStats -> world -> Prop) E :
  reliable o -> db_channels (w_db w) !! t = Some ct -> channel_inv cfg ct ->
  (forall st', (forall depth, 0 <= depth <= count_status c_status MessageStatusPending (ct_msgs ct) ->
       stats_ok (size (ct_msgs ct)) (size (ct_dlq ct)) depth st') -> Q st' (w_next w)) ->
  iwp o w (getChannelStats t st) Q E.
Proof.
  intros Hrel Hct [Hrows _] HQ. apply iwp_withTx; [no_fault|]. wp_step. wp_step.
  eapply (wp_on_channel_query _ _ _ _ _ (fun e t => mkQueueStats _ _ _ _ _ _ _)); [apply Hrel|exact Hct|].
  assert (set_w_db (w_db w) (w_next w) = w_next w) as -> by by destruct w.
  apply HQ. intros depth Hd. apply stats_row_ok; [done|done| |done].
  intros i r Hi. destruct (Hrows i r Hi) as [Hs _]. unfold status_wf in Hs.
  destruct (c_status r); tauto.
Qed.

Lemma iwp_getPubSubStats o w t tt mr st (Q : QueueStats -> world -> Prop) E :
  reliable o -> db_topics (w_db w) !! t = Some tt -> topic_inv mr tt ->
  (forall st', (forall depth, 0 <= depth <= count_status s_status MessageStatusPending (tt_subs tt) ->
       stats_ok (size (tt_subs tt)) (size (tt_dlq tt)) depth st') -> Q st' (w_next w)) ->
  iwp o w (getPubSubStats t st) Q E.
Proof.
  intros Hrel Htt (_ & Hrows & _) HQ. apply iwp_withTx; [no_fault|]. wp_step. wp_step.
  eapply (wp_on_topic_query _ _ _ _ _ (fun e t => mkQueueStats _ _ _ _ _ _ _)); [apply Hrel|exact Htt|].
  assert (set_w_db (w_db w) (w_next w) = w_next w) as -> by by destruct w.
  apply HQ. intros depth Hd. apply stats_row_ok; [done|done| |done].
  intros i r Hi. destruct (Hrows i r Hi) as [Hs _]. unfold sub_status_wf in Hs.
  destruct (s_status r); tauto.
Qed.

Lemma iwp_consumableDepth_channel o w t ct config (Q : Z -> world -> Prop) E :
  reliable o -> db_channels (w_db w) !! t = Some ct ->
  Q (Z.of_nat (sql_count (fun _ => channel_depth_row (getQueueTTL cfg config) (e_now (o (w_tick w))))
       (ct_msgs ct))) (w_next w) ->
  iwp o w (consumableDepth cfg t QueueTypeChannel config) Q E.
Proof.
  intros Hrel Hct HQ. apply iwp_withTx; [no_fault|]. unfold queueDepthQuery. cbn [bool_decide].
  eapply (wp_on_channel_query _ _ _ _ _ (fun e t => Z.of_nat _)); [apply Hrel|exact Hct|].
  by assert (set_w_db (w_db w) (w_next w) = w_next w) as -> by by destruct w.
Qed.

Lemma iwp_consumableDepth_topic o w t tt config (Q : Z -> world -> Prop) E :
  reliable o -> db_topics (w_db w) !! t = Some tt ->
  (forall depth, 0 <= depth <= count_status s_status MessageStatusPending (tt_subs tt) -> Q depth (w_next w)) ->
  iwp o w (consumableDepth cfg t QueueTypePubSub config) Q E.
Proof.
  intros Hrel Htt HQ. apply iwp_withTx; [no_fault|]. unfold queueDepthQuery. cbn [bool_decide].
  assert (set_w_db (w_db w) (w_next w) = w_next w) as Hw by by destruct w.
  destruct (0 <? getQueueTTL cfg config);
    (eapply (wp_on_topic_query _ _ _ _ _ (fun e t => Z.of_nat _)); [apply Hrel|exact Htt|]);
    rewrite Hw; apply HQ; (split; [lia|]); unfold count_status; apply inj_le, sql_count_mono;
    intros i r _; unfold sub_available; rewrite ?andb_true_iff; tauto.
Qed.

Lemma iwp_Stats o w name qt meta rows dead :
  reliable o -> w_closed w = false -> lookup_queue qt name (w_db w) = Some meta ->
  queue_totals cfg qt meta (w_db w) rows dead ->
  iwp o w (Stats cfg name qt)
    (fun r w' => stats_ok rows dead r.2 r.1 /\ frame w w') (fun _ _ => False).
Proof.
  intros Hrel Hcl Hl Htot. unfold Stats. iwp_step. iwp_step; [congruence|intros _].
  iwp_step. apply iwp_getQueueMetadata; [|congruence|no_fault].
  intros meta' w1 Hl1 Hf. rewrite Hl in Hl1. injection Hl1 as <-. pose proof Hf as (Hdb & _).
  assert (forall w2, w2 = w_next (w_next w1) -> frame w w2) as Hfr.
  { intros w2 ->. eapply frame_trans; [exact Hf|]. split_and!; try done. cbn. lia. }
  rewrite <-Hdb in Htot. destruct qt as [| |s]; [| |done]; cbn [bool_decide]; iwp_step.
  - destruct Htot as (tt & mr & Htt & Hinv & -> & ->). eapply iwp_getPubSubStats; [done..|].
    intros st Hst. iwp_step. eapply iwp_consumableDepth_topic; [done..|]. intros depth Hd. iwp_step.
    split; [by apply Hst|by apply Hfr].
  - destruct Htot as (ct & Hct & Hinv & -> & ->). eapply iwp_getChannelStats; [done..|].
    intros st Hst. iwp_step. eapply iwp_consumableDepth_channel; [done..|]. iwp_step.
    split; [apply Hst, channel_depth_le|by apply Hfr].
Qed.

End stats_proofs.

(** ** Draining a channel *)

(** A consumer that calls [consumeFromChannel] until it is told that there is
    nothing, at most [fuel] times. Each call is a transaction of its own. *)
Fixpoint consume_all `{Server} (cfg : queueConfig) (name : string) (vt : Duration) (fuel : nat) :
    io (list Message) :=
  match fuel with
  | O => mret []
  | Datatypes.S fuel =>
      msg ← consumeFromChannel cfg name vt;
      match msg with
      | None => mret []
      | Some m => rest ← consume_all cfg name vt fuel; mret (m :: rest)
      end
  end.

(** From the count at step [m] to step [hi] of the server: no row is locked by
    someone else, no message of the channel becomes due or expires, no earlier
    delivery times out, and the clock moves by less than the visibility timeout. *)
Definition undisturbed `{Server} (o : oracle) (ttl vt : Duration) (ct : channelTables) (m hi : nat) : Prop :=
  forall m1, (m <= m1 < hi)%nat ->
    e_locked (o m1) = ∅ /\
    (forall m2, (m <= m2 < hi)%nat -> e_now (o m2) <= e_now (o m1) + make_interval vt) /\
    (forall i r, ct_msgs ct !! i = Some r ->
       channel_depth_row ttl (e_now (o m1)) r = channel_depth_row ttl (e_now (o m)) r /\
       channel_reclaimable ttl (o m1) i r = false).

(** Steps of the server are only ever spent. *)
Definition ticks {A} (p : io A) : Prop := forall o w, (w_tick w <= w_tick (p o w).2)%nat.

Lemma bind_ticks {A B} (p : io A) (f : A -> io B) :
  ticks p -> (forall a, ticks (f a)) -> ticks (p ≫= f).
Proof.
  intros Hp Hf o w. unfold mbind, io_bind. specialize (Hp o w).
  destruct (p o w) as [[a|x] w1]; [|done]. specialize (Hf a o w1). cbn in *. lia.
Qed.
Lemma withTx_ticks {A} (p : tx DB A) : ticks (withTx p).
Proof.
  intros o w. unfold withTx. destruct (e_begin _); [cbn; lia|].
  destruct (p _ _ _) as [a n [d|]|]; [|cbn; lia..]. destruct (e_commit _) as [[? []]|]; cbn; lia.
Qed.
Lemma getQueueMetadata_ticks qt name : ticks (getQueueMetadata qt name).
Proof.
  apply bind_ticks; [apply withTx_ticks|]. intros [meta|]; [|by intros o w].
  intros o w. cbn. apply Nat.le_succ_diag_r.
Qed.
Lemma consumeFromChannel_ticks `{Server} cfg name vt : ticks (consumeFromChannel cfg name vt).
Proof.
  apply bind_ticks; [intros o w; unfold checkClosed; by destruct (w_closed w)|intros _].
  apply bind_ticks; [by intros o w|intros _]. apply bind_ticks.
  - intros o w. pose proof (getQueueMetadata_ticks QueueTypeChannel name o w) as Hm. unfold map_err.
    by destruct (getQueueMetadata _ _ o w) as [[?|?] ?].
  - intros md. destruct (q_Paused md); [by intros o w|]. by apply bind_ticks; [apply withTx_ticks|intros a o w].
Qed.
Lemma consume_all_ticks `{Server} cfg name vt fuel : ticks (consume_all cfg name vt fuel).
Proof.
  induction fuel as [|fuel IH]; [by intros o w|]. cbn [consume_all].
  apply bind_ticks; [apply consumeFromChannel_ticks|]. intros [m|]; [|by intros o w]. by apply bind_ticks; [|intros a o w].
Qed.

Lemma getQueueMetadata_run o w qt name meta :
  reliable o -> lookup_queue qt name (w_db w) = Some meta ->
  exists w1, getQueueMetadata qt name o w = (Ok meta, w1) /\ frame w w1.
Proof.
  intros Hrel Hl. assert (iwp o w (getQueueMetadata qt name) (fun md w1 => md = meta /\ frame w w1)
    (fun _ _ => False)) as Hw.
  { apply iwp_getQueueMetadata; [|congruence|no_fault]. intros md w1 Hmd Hf.
    split; [congruence|done]. }
  unfold iwp in Hw. destruct (getQueueMetadata qt name o w) as [[md|x] w1]; [|done].
  destruct Hw as [-> Hf]. by exists w1.
Qed.

(** A consume call on an open queue is one run of [fetchPendingChannelMessage] in a
    transaction of its own, or [ErrQueuePaused] when the channel is paused. *)
Lemma consumeFromChannel_run `{Server} cfg o w name vt meta ct :
  reliable o -> w_closed w = false -> validateVisibilityTimeout vt = Ok tt ->
  channel_at (w_db w) name meta ct ->
  exists m w1, (w_tick w <= m)%nat /\ w_tick w1 = S m /\ w_closed w1 = false /\
    if q_Paused meta then (consumeFromChannel cfg name vt o w).1 = Err ErrQueuePaused
    else match fetchPendingChannelMessage cfg vt (getQueueTTL cfg (q_Config meta)) (o m) 0%nat (Some ct) with
         | TOk msg _ (Some ct') => consumeFromChannel cfg name vt o w =
             (Ok ((fun p => set_visibility (Some p.2) p.1) <$> msg),
              set_w_db (put_channel meta ct' (w_db w)) w1)
         | TOk _ _ None => consumeFromChannel cfg name vt o w = (Err (ErrDriver failed_tx), w1)
         | TErr x => consumeFromChannel cfg name vt o w = (Err x, w1)
         end.
Proof.
  intros Hrel Hcl Hvt [Hl Hct]. destruct (getQueueMetadata_run o w _ _ _ Hrel Hl) as (w1 & Hg & Hfr).
  destruct Hfr as (Hdb & Hcl1 & _ & Ht). exists (w_tick w1), (w_next w1).
  split; [done|]. split; [done|]. split; [cbn; congruence|].
  unfold consumeFromChannel, mbind, io_bind, checkClosed, from_result, map_err. rewrite Hcl, Hvt, Hg.
  destruct (q_Paused meta); [done|]. unfold withTx, on_channel, zoom. cbn [w_db].
  destruct (e_begin (o (w_tick w1))) eqn:Hb; [exfalso; apply (Hrel (w_tick w1)); left; eauto|].
  rewrite Hdb, Hct. destruct (fetchPendingChannelMessage _ _ _ _ _ _) as [msg n [ct'|]|x]; [|done..].
  destruct (e_commit (o (w_tick w1))) eqn:Hc; [exfalso; apply (Hrel (w_tick w1)); right; left; eauto|done].
Qed.

(** The pending messages are [l], in this order, and no delivery has timed out, at
    every step of the window. *)
Definition steadily `{Server} (o : oracle) (ttl : Duration) (lo hi : nat) (l : list (Z * channelRow))
    (t : channelTables) : Prop :=
  forall m, (lo <= m < hi)%nat ->
    sql_select (channel_pending ttl (o m)) c_available_at (ct_msgs t) = l /\
    (forall i r, ct_msgs t !! i = Some r -> channel_reclaimable ttl (o m) i r = false).

Lemma steadily_claim `{Server} o ttl lo hi id r l t rc claim deadline :
  steadily o ttl lo hi ((id, r) :: l) t -> (forall m, (lo <= m < hi)%nat -> e_now (o m) <= deadline) ->
  steadily o ttl lo hi l (put_row id (claim_row rc claim deadline r) t).
Proof.
  intros Hs Hdl m Hm. destruct (Hs m Hm) as [Hsel Hre]. specialize (Hdl m Hm). split.
  - eapply sql_select_tail; [exact Hsel|done].
  - intros i q. cbn. rewrite lookup_insert_Some. intros [[<- <-]|[_ Hi]]; [|by eapply Hre].
    unfold channel_reclaimable, timed_out. cbn. rewrite (proj2 (Z.ltb_ge _ _)) by lia. done.
Qed.

Lemma consume_all_spec `{ServerLaws} (cfg : queueConfig) o name vt meta lo hi fuel : forall w t l res w2,
  reliable o -> validateVisibilityTimeout vt = Ok tt -> q_Paused meta = false ->
  (forall m1 m2, (lo <= m1 < hi)%nat -> (lo <= m2 < hi)%nat -> e_now (o m2) <= e_now (o m1) + make_interval vt) ->
  w_closed w = false -> channel_at (w_db w) name meta t -> channel_inv cfg t ->
  steadily o (getQueueTTL cfg (q_Config meta)) lo hi l t -> (length l < fuel)%nat -> (lo <= w_tick w)%nat ->
  consume_all cfg name vt fuel o w = (res, w2) -> (w_tick w2 <= hi)%nat ->
  exists msgs, res = Ok msgs /\ m_ID <$> msgs = l.*1.
Proof.
  induction fuel as [|fuel IH]; intros w t l res w2 Hrel Hvt Hpa Hclk Hcl Hat Hinv Hst Hlen Hlo Hrun Hhi; [lia|].
  destruct (consumeFromChannel_run cfg o w name vt meta t Hrel Hcl Hvt Hat) as (m & w1 & Hm & Ht1 & Hcl1 & Hc).
  rewrite Hpa in Hc. pose proof (consume_all_ticks cfg name vt fuel) as Htk.
  cbn [consume_all] in Hrun. unfold mbind, io_bind in Hrun.
  assert (m < hi)%nat as Hmhi.
  { destruct (fetchPendingChannelMessage _ _ _ _ _ _) as [[p|] n [t'|]|x]; rewrite Hc in Hrun; cbn in Hrun.
    1: specialize (Htk o (set_w_db (put_channel meta t' (w_db w)) w1)).
    1: destruct (consume_all cfg name vt fuel o _) as [[?|?] ?].
    all: injection Hrun as <- <-; cbn in *; lia. }
  destruct (Hst m ltac:(lia)) as [Hsel Hre]. destruct l as [|[id r] l].
  { rewrite fetch_none in Hc by done. rewrite Hc in Hrun. injection Hrun as <- <-. by exists []. }
  rewrite (fetch_head cfg (o m) 0 t vt _ id r l) in Hc by done. rewrite Hc in Hrun. cbn in Hrun.
  set (claim := e_gen (o m) 1 0) in *. set (deadline := e_now (o m) + make_interval vt) in *.
  pose proof (sql_select_head _ _ _ _ _ Hsel) as (Hid & _). cbn [fst snd] in Hid.
  match type of Hrun with context [consume_all _ _ _ _ _ ?w'] => set (w3 := w') in * end.
  destruct (consume_all cfg name vt fuel o w3) as [res3 w4] eqn:Hrun3.
  assert (w2 = w4) as -> by (destruct res3; by injection Hrun).
  destruct (IH w3 (put_row id (claim_row (c_retry_count r) claim deadline r) t) l res3 w4)
    as (msgs & -> & Hids); try done.
  - by eapply channel_at_put.
  - destruct (proj1 Hinv id r Hid) as (Hw & Hrc & Hlt). apply put_row_inv; [done|]. by apply claim_row_wf.
  - apply steadily_claim; [done|]. intros m' Hm'. apply Hclk; lia.
  - cbn in Hlen. lia.
  - cbn. lia.
  - injection Hrun as <-. eexists. split; [reflexivity|]. cbn. by rewrite Hids.
Qed.

Lemma depth_is_pending `{Server} e ttl (m : gmap Z channelRow) :
  e_locked e = ∅ ->
  sql_count (fun _ => channel_depth_row ttl (e_now e)) m =
    length (sql_select (channel_pending ttl e) c_available_at m).
Proof.
  intros Hl. unfold sql_count, sql_select. rewrite !merge_sort_Permutation. f_equal.
  apply list_filter_iff. intros [i r]. cbn. unfold channel_pending, channel_depth_row.
  rewrite Hl, (bool_decide_false (i ∈ (∅ : gset Z))) by apply not_elem_of_empty. by rewrite andb_true_r.
Qed.

Lemma undisturbed_steadily `{Server} o ttl vt ct m hi :
  (m < hi)%nat -> undisturbed o ttl vt ct m hi ->
  steadily o ttl m hi (sql_select (channel_pending ttl (o m)) c_available_at (ct_msgs ct)) ct.
Proof.
  intros Hm Hu m1 Hm1. destruct (Hu m ltac:(lia)) as [Hlk _], (Hu m1 Hm1) as (Hlk1 & _ & Hrows).
  split; [|by intros i r Hi; apply Hrows]. apply sql_select_ext. intros i r Hi.
  destruct (Hrows i r Hi) as [Hd _]. unfold channel_pending, channel_depth_row in *.
  by rewrite Hlk, Hlk1, Hd.
Qed.

(** ** Unhealthy subscribers *)

Lemma elem_of_group_keys t sid :
  sid ∈ group_keys t <-> exists k s, tt_subs t !! k = Some s /\ s_subscriber_id s = sid.
Proof.
  unfold group_keys. rewrite elem_of_remove_dups, list_elem_of_fmap. split.
  - intros ([k s] & -> & Hin%elem_of_map_to_list). by exists k, s.
  - intros (k & s & Hk & <-). exists (k, s). by rewrite elem_of_map_to_list.
Qed.

Lemma lookup_subs_of sid t k s :
  subs_of sid t !! k = Some s <-> tt_subs t !! k = Some s /\ s_subscriber_id s = sid.
Proof. unfold subs_of. apply map_lookup_filter_Some. Qed.

(** A subscription that makes its subscriber unhealthy: in progress past its
    visibility timeout, or pending for longer than the threshold. *)
Definition troubled `{Server} (threshold : Duration) (now : timestamp) (s : subRow) : Prop :=
  (s_status s = MessageStatusProcessing /\ exists v, s_visibility_timeout s = Some v /\ v < now) \/
  (s_status s = MessageStatusPending /\ s_created_at s < now - make_interval threshold).

Lemma unhealthy_iff `{Server} threshold now topic sid t :
  unhealthy threshold now (health_of now topic sid (subs_of sid t)) = true <->
  exists k s, tt_subs t !! k = Some s /\ s_subscriber_id s = sid /\ troubled threshold now s.
Proof.
  unfold unhealthy, health_of, oldest_pending. cbn [StuckMessages OldestPending].
  rewrite orb_true_iff, sql_count_positive, sql_min_below. split.
  - intros [(k & s & [Hk Hs]%lookup_subs_of & Hst)|(k & s & v & [Hk Hs]%lookup_subs_of & Hv & Hlt)];
      exists k, s; (split; [done|]; split; [done|]).
    + left. unfold stuck, timed_out in Hst. apply andb_true_iff in Hst as [Hp%bool_decide_eq_true Hto].
      split; [done|]. destruct (s_visibility_timeout s) as [v|]; [|done]. apply Z.ltb_lt in Hto. by exists v.
    + right. case_bool_decide; [|done]. injection Hv as <-. done.
  - intros (k & s & Hk & Hs & [(Hp & v & Hv & Hlt)|(Hp & Hlt)]); [left|right]; exists k, s.
    + rewrite lookup_subs_of. split; [done|]. unfold stuck, timed_out. rewrite Hv, Hp. by apply Z.ltb_lt.
    + exists (s_created_at s). rewrite lookup_subs_of, Hp. done.
Qed.

(** What [UnhealthySubscribers] reports for one topic whose query ran at [now]. *)
Definition reported `{Server} (threshold : Duration) (now : timestamp) (topic : string)
    (t : topicTables) (h : SubscriberHealth_) : Prop :=
  exists sid, h = health_of now topic sid (subs_of sid t) /\
    exists k s, tt_subs t !! k = Some s /\ s_subscriber_id s = sid /\ troubled threshold now s.

Lemma iwp_findUnhealthy `{Server} o w topic table t threshold (Q : list SubscriberHealth_ -> world -> Prop) E :
  reliable o -> db_topics (w_db w) !! table = Some t ->
  (forall hs, (forall h, h ∈ hs <-> reported threshold (e_now (o (w_tick w))) topic t h) -> Q hs (w_next w)) ->
  iwp o w (findUnhealthyForTopic topic table threshold) Q E.
Proof.
  intros Hrel Ht HQ. apply iwp_withTx; [no_fault|]. unfold buildUnhealthySubscribersQuery.
  eapply (wp_on_topic_query _ _ _ _ _ (fun e t => filter _ _)); [apply Hrel|exact Ht|].
  assert (set_w_db (w_db w) (w_next w) = w_next w) as -> by by destruct w.
  apply HQ. intros h. rewrite list_elem_of_filter, list_elem_of_fmap. unfold reported. split.
  - intros (Hu & sid & -> & _). exists sid. split; [done|]. by apply unhealthy_iff in Hu.
  - intros (sid & -> & Htr). split; [by apply unhealthy_iff|]. exists sid. split; [done|].
    apply elem_of_group_keys. naive_solver.
Qed.

Lemma iwp_unhealthy_loop `{Server} o threshold topics : forall w acc,
  reliable o -> (forall m, m ∈ topics -> is_Some (db_topics (w_db w) !! q_TableName m)) ->
  iwp o w (unhealthy_loop topics threshold acc)
    (fun hs w' => frame w w' /\ forall h, h ∈ hs <-> h ∈ acc \/
       exists j meta t, topics !! j = Some meta /\ db_topics (w_db w) !! q_TableName meta = Some t /\
         reported threshold (e_now (o (w_tick w + j)%nat)) (q_QueueName meta) t h)
    (fun _ _ => False).
Proof.
  induction topics as [|meta topics IH]; intros w acc Hrel Htabs; cbn [unhealthy_loop]; iwp_step.
  { split; [done|]. intros h. split; [by left|]. intros [?|(j & m & t & Hj & _)]; [done|].
    by rewrite lookup_nil in Hj. }
  destruct (Htabs meta ltac:(left)) as [t Ht]. eapply iwp_findUnhealthy; [done..|]. intros hs Hhs.
  eapply iwp_mono; [apply IH; [done|]|..| done].
  { intros m Hm. apply Htabs. by right. }
  intros all w' [Hf Hall]. split; [eapply frame_trans; [|exact Hf]; split_and!; try done; cbn; lia|].
  intros h. rewrite Hall, elem_of_app, Hhs. cbn [w_db w_next w_tick]. split.
  - intros [[Ha|Hr]|(j & m & t' & Hj & Ht' & Hr)]; [by left|right..].
    + exists 0%nat, meta, t. by rewrite Nat.add_0_r.
    + exists (S j), m, t'. by replace (w_tick w + S j)%nat with (S (w_tick w) + j)%nat by lia.
  - intros [Ha|([|j] & m & t' & Hj & Ht' & Hr)]; [by do 2 left| |].
    + left. right. injection Hj as <-. rewrite Nat.add_0_r in Hr. congruence.
    + right. exists j, m, t'. by replace (w_tick w + S j)%nat with (S (w_tick w) + j)%nat in Hr by lia.
Qed.

(** ** A concrete server for the witnesses *)

(** The correctly rounded quotient. *)
Definition rounding_decoder : Decoder := {| scan_float num den :=
  let x := SFdiv 53 1024 (float64_of_int num) (float64_of_int den) in
  if valid_binary 53 1024 x then x else S754_nan |}.

#[export] Instance rounding_decoder_laws : DecoderLaws (H := rounding_decoder).
Proof. split. intros num den. cbn. by destruct (valid_binary 53 1024 (SFdiv _ _ _ _)) eqn:E. Qed.

(** ** Properties *)

(** [Stats] of a channel or a topic on a working server changes nothing and
    returns figures of one snapshot: pending, processing and finished add up to the
    rows of the queue, the dead-letter count is the size of that table, there is an
    oldest pending age exactly when something is pending, both durations lie between
    0 and 100 years whatever the server's clock arithmetic yields, and the depth the
    metrics recorder sees never exceeds the pending count. *)
Theorem Stats_consistent `{Server} `{DecoderLaws} (cfg : queueConfig) (o : oracle) (w : world)
    (name : string) (qt : QueueType) (meta : queueMetadata) (rows dead : nat) :
  reliable o -> w_closed w = false -> lookup_queue qt name (w_db w) = Some meta ->
  queue_totals cfg qt meta (w_db w) rows dead ->
  exists st depth w', Stats cfg name qt o w = (Ok (st, depth), w') /\ w_db w' = w_db w /\
    stats_ok rows dead depth st.
Proof.
  intros Hrel Hcl Hl Htot. pose proof (iwp_Stats cfg o w name qt meta rows dead Hrel Hcl Hl Htot) as Hw.
  unfold iwp in Hw. destruct (Stats cfg name qt o w) as [[[st depth]|x] w']; [|done].
  destruct Hw as [Hok (Hdb & _)]. by exists st, depth, w'.
Qed.

Lemma Stats_consistent_witness :
  exists st depth w', Stats (H := truncating_server) (H0 := rounding_decoder) sample_cfg "jobs"
      QueueTypeChannel calm_oracle sample_world = (Ok (st, depth), w') /\
    PendingCount st + ProcessingCount st + CompletedCount st = 3 /\ DLQCount st = 0 /\ 0 <= depth.
Proof.
  destruct (Stats_consistent (H := truncating_server) (H0 := rounding_decoder) sample_cfg calm_oracle sample_world "jobs"
    QueueTypeChannel sample_meta 3 0) as (st & depth & w' & Hrun & _ & [Hsum Hd Hdep _ _]).
  - exact calm_oracle_reliable.
  - reflexivity.
  - reflexivity.
  - exists sample_tables. split; [reflexivity|]. split; [exact sample_inv|]. split; reflexivity.
  - exists st, depth, w'. split; [exact Hrun|]. split; [exact Hsum|]. split; [exact Hd|lia].
Defined.

(** C34: [QueueDepth] of a channel counts exactly what consumers get. On a channel that
    is not paused, a consumer that goes on to call [consumeFromChannel], each call in
    its own transaction at its own time, until it is told there is nothing, receives
    exactly that many messages, the pending ones in the order of (available_at, id),
    and then none, provided that from the count to the last call nothing is locked by
    someone else, no message becomes due or expires, and no delivery times out. Of a
    paused channel the depth is reported all the same, while a consumer gets
    [ErrQueuePaused]. *)
Theorem QueueDepth_drains `{ServerLaws} (cfg : queueConfig) (o : oracle) (w : world) (name : string)
    (meta : queueMetadata) (ct : channelTables) (vt : Duration) :
  reliable o -> w_closed w = false -> channel_at (w_db w) name meta ct -> channel_inv cfg ct ->
  validateVisibilityTimeout vt = Ok tt ->
  let ttl := getQueueTTL cfg (q_Config meta) in
  exists depth w1 m, QueueDepth cfg name QueueTypeChannel o w = (Ok depth, w1) /\ w_db w1 = w_db w /\
    ran w w1 m /\
    if q_Paused meta then (consumeFromChannel cfg name vt o w1).1 = Err ErrQueuePaused
    else forall fuel res w2, depth < Z.of_nat fuel ->
      consume_all cfg name vt fuel o w1 = (res, w2) -> undisturbed o ttl vt ct m (w_tick w2) ->
      exists msgs, res = Ok msgs /\ Z.of_nat (length msgs) = depth /\
        m_ID <$> msgs = (sql_select (channel_pending ttl (o m)) c_available_at (ct_msgs ct)).*1.
Proof.
  intros Hrel Hcl Hat Hinv Hvt ttl. pose proof Hat as [Hl Hct].
  assert (iwp o w (QueueDepth cfg name QueueTypeChannel) (fun depth w' => exists m,
    frame w w' /\ ran w w' m /\ depth = Z.of_nat (sql_count
      (fun _ => channel_depth_row ttl (e_now (o m))) (ct_msgs ct))) (fun _ _ => False)) as Hw.
  { unfold QueueDepth. iwp_step. iwp_step; [congruence|intros _]. iwp_step.
    apply iwp_getQueueMetadata; [|congruence|no_fault]. intros meta' w1 Hl1 Hf.
    rewrite Hl in Hl1. injection Hl1 as <-. pose proof Hf as (Hdb & _ & _ & Ht).
    apply (iwp_consumableDepth_channel cfg o w1 _ ct); [done|by rewrite Hdb|]. exists (w_tick w1).
    split; [eapply frame_trans; [exact Hf|]; split_and!; try done; cbn; lia|].
    split; [unfold ran; cbn; lia|done]. }
  unfold iwp in Hw. destruct (QueueDepth _ _ _ o w) as [[depth|x] w1]; [|done].
  destruct Hw as (m & (Hdb & Hcl1 & _) & Hm & ->). rewrite <-Hdb in Hat. rewrite <-Hcl1 in Hcl.
  eexists _, w1, m. split; [done|]. split; [done|]. split; [done|].
  destruct (q_Paused meta) eqn:Hpa.
  { destruct (consumeFromChannel_run cfg o w1 name vt meta ct Hrel ltac:(done) Hvt Hat)
      as (? & ? & _ & _ & _ & Hc). by rewrite Hpa in Hc. }
  intros fuel res w2 Hfuel Hrun Hu. unfold ran in Hm.
  pose proof (consume_all_ticks cfg name vt fuel o w1) as Htk. rewrite Hrun in Htk. cbn in Htk.
  destruct (Hu m ltac:(lia)) as [Hlk _]. rewrite depth_is_pending in Hfuel |- * by done.
  destruct (consume_all_spec cfg o name vt meta m (w_tick w2) fuel w1 ct
    (sql_select (channel_pending ttl (o m)) c_available_at (ct_msgs ct)) res w2) as (msgs & -> & Hids);
    try done; try lia; [|by eapply undisturbed_steadily; [lia|]|].
  { intros m1 m2 Hm1 Hm2. by apply Hu. }
  exists msgs. split; [done|]. split; [|done]. by rewrite <-(length_fmap m_ID), Hids, length_fmap.
Qed.

(** Two pending messages, of which the one published later is available first. *)
Definition two_pending : channelTables := mkChannelTables
  (<[1 := mkChannelRow [Byte.x61] 0 MessageStatusPending 0 (Some 3) None 9 None None None None]>
   {[2 := mkChannelRow [Byte.x62] 0 MessageStatusPending 0 (Some 3) None 5 None None None None]}) ∅.
Definition two_pending_world : world := new_world (put_channel sample_meta two_pending sample_db).

Lemma two_pending_inv : channel_inv sample_cfg two_pending.
Proof.
  split; [|intros k d Hk; cbn in Hk; by rewrite lookup_empty in Hk]. intros i r. cbn [ct_msgs two_pending].
  rewrite lookup_insert_Some, lookup_singleton_Some. assert (3 < int64_max) by (unfold int64_max; lia).
  intros [[_ <-]|[_ [_ <-]]]; (split; [split; done|cbn; lia]).
Qed.

Lemma QueueDepth_drains_witness :
  exists w1 msgs, QueueDepth (H := truncating_server) sample_cfg "jobs" QueueTypeChannel
      calm_oracle two_pending_world = (Ok 2, w1) /\
    (consume_all (H := truncating_server) sample_cfg "jobs" (30 * second) 3 calm_oracle w1).1 = Ok msgs /\
    length msgs = 2%nat.
Proof.
  destruct (QueueDepth_drains (H := truncating_server) sample_cfg calm_oracle two_pending_world "jobs"
    sample_meta two_pending (30 * second) calm_oracle_reliable eq_refl (conj eq_refl eq_refl)
    two_pending_inv eq_refl) as (depth & w1 & m & Hrun & _ & Hm & Hdrain).
  assert ((QueueDepth (H := truncating_server) sample_cfg "jobs" QueueTypeChannel calm_oracle
    two_pending_world).1 = Ok 2) as H2 by (vm_compute; reflexivity).
  rewrite Hrun in H2. injection H2 as ->.
  destruct (consume_all (H := truncating_server) sample_cfg "jobs" (30 * second) 3 calm_oracle w1)
    as [res w2] eqn:Hall.
  assert (w_tick w2 <= 20)%nat as Ht2.
  { assert (w1 = (QueueDepth (H := truncating_server) sample_cfg "jobs" QueueTypeChannel calm_oracle
      two_pending_world).2) as -> by by rewrite Hrun.
    change w2 with (res, w2).2. rewrite <-Hall. apply Nat.leb_le. vm_compute. reflexivity. }
  destruct (Hdrain 3%nat res w2) as (msgs & -> & Hlen & _).
  - lia.
  - exact Hall.
  - intros m1 Hm1. split; [reflexivity|].
    assert (make_interval (Server := truncating_server) (30 * second) = 30000000) as -> by reflexivity.
    split; [intros m2 Hm2; cbn [calm_oracle calm_env e_now]; lia|].
    intros i r. cbn [ct_msgs two_pending]. rewrite lookup_insert_Some, lookup_singleton_Some.
    unfold channel_depth_row, channel_reclaimable. cbn [calm_oracle calm_env e_now].
    intros [[_ <-]|[_ [_ <-]]]; cbn [c_status c_available_at c_created_at];
      (split; [|reflexivity]); rewrite !(proj2 (Z.leb_le _ _)) by lia; reflexivity.
  - exists w1, msgs. split; [exact Hrun|]. split; [by rewrite Hall|lia].
Defined.

(** [UnhealthySubscribers] on a working server reports a subscriber of a topic
    exactly when one of its deliveries there has passed its visibility timeout or one
    of its messages has been pending for longer than the threshold, with the figures
    [SubscriberHealth] computes for it at the same instant. *)
Theorem UnhealthySubscribers_exact `{Server} (o : oracle) (w : world) (threshold : Duration) :
  reliable o -> w_closed w = false ->
  let topics := snd <$> sql_select (fun _ m => bool_decide (q_QueueType m = QueueTypePubSub)) (fun _ => 0)
                          (db_metadata (w_db w)) in
  (forall m, m ∈ topics -> is_Some (db_topics (w_db w) !! q_TableName m)) ->
  exists hs w', UnhealthySubscribers threshold o w = (Ok hs, w') /\ w_db w' = w_db w /\
    forall h, h ∈ hs <-> exists j meta t k s,
      topics !! j = Some meta /\ db_topics (w_db w) !! q_TableName meta = Some t /\
      let now := e_now (o (w_tick w + 1 + j)%nat) in
      tt_subs t !! k = Some s /\
      ((s_status s = MessageStatusProcessing /\ exists v, s_visibility_timeout s = Some v /\ v < now) \/
       (s_status s = MessageStatusPending /\ s_created_at s < now - make_interval threshold)) /\
      h = health_of now (q_QueueName meta) (s_subscriber_id s) (subs_of (s_subscriber_id s) t).
Proof.
  intros Hrel Hcl topics Htabs.
  assert (iwp o w (UnhealthySubscribers threshold) (fun hs w' => frame (w_next w) w' /\
    forall h, h ∈ hs <-> h ∈ [] \/ exists j meta t, topics !! j = Some meta /\
      db_topics (w_db w) !! q_TableName meta = Some t /\
      reported threshold (e_now (o (S (w_tick w) + j)%nat)) (q_QueueName meta) t h) (fun _ _ => False)) as Hw.
  { unfold UnhealthySubscribers. iwp_step. iwp_step; [congruence|intros _]. iwp_step.
    apply iwp_query; [done|]. cbn [bool_decide]. by apply (iwp_unhealthy_loop o threshold topics (w_next w)). }
  unfold iwp in Hw. destruct (UnhealthySubscribers threshold o w) as [[hs|x] w']; [|done].
  destruct Hw as [(Hdb & _) Hhs]. exists hs, w'. split; [done|]. split; [done|].
  replace (w_tick w + 1)%nat with (S (w_tick w)) by lia.
  intros h. rewrite Hhs. unfold reported, troubled. split.
  - intros [Hn|(j & meta & t & Hj & Ht & sid & -> & k & s & Hk & <- & Htr)].
    + by apply elem_of_nil in Hn.
    + by exists j, meta, t, k, s.
  - intros (j & meta & t & k & s & Hj & Ht & Hk & Htr & ->). right. exists j, meta, t.
    split; [done|]. split; [done|]. exists (s_subscriber_id s). split; [done|]. by exists k, s.
Qed.

Lemma UnhealthySubscribers_exact_witness :
  exists hs w' h, UnhealthySubscribers (H := truncating_server) 0 calm_oracle sample_topic_world = (Ok hs, w') /\
    h ∈ hs /\ h_SubscriberID h = "bob"%string /\ PendingMessages h = 1.
Proof.
  destruct (UnhealthySubscribers_exact (H := truncating_server) calm_oracle sample_topic_world 0
    calm_oracle_reliable eq_refl) as (hs & w' & Hrun & _ & Hhs).
  - intros m Hm. apply list_elem_of_fmap in Hm as ([i m'] & -> & Hm%elem_of_sql_select). destruct Hm as [Hm _].
    cbn in Hm. apply lookup_singleton_Some in Hm as [_ <-]. by eexists.
  - exists hs, w', (health_of 2000000 "news" "bob" (subs_of "bob" sample_topic_tables)).
    split; [exact Hrun|]. split; [|split; reflexivity]. apply Hhs.
    exists 0%nat, sample_topic_meta, sample_topic_tables, 102, sample_sub_bob.
    split; [reflexivity|]. split; [reflexivity|]. split; [reflexivity|]. split; [|reflexivity].
    right. split; [reflexivity|]. vm_compute. reflexivity.
Defined.

(** C38: the conversion of a statistic from seconds to a duration is total: for
    every double, NaN and the infinities included, the result lies between 0 and 100
    years and does not depend on what the machine does with an out-of-range
    conversion. *)
Theorem seconds_conversion_total (v : spec_float) :
  valid_binary 53 1024 v = true ->
  exists d, 0 <= d <= maxProcessingTimeSeconds * second /\
    forall conv, secondsToAge conv (Some v) = Some d /\ secondsToProcessingTime conv (Some v) = Some d.
Proof.
  intros Hv. destruct (seconds_to_duration v Hv) as (d & Hd & Heq). exists d. split; [done|].
  intros conv. cbn. by rewrite Heq.
Qed.

Lemma seconds_conversion_total_witness :
  exists d, (forall conv, secondsToAge conv (Some (S754_infinity false)) = Some d) /\
    0 <= d <= maxProcessingTimeSeconds * second.
Proof.
  destruct (seconds_conversion_total (S754_infinity false) eq_refl) as (d & Hd & Heq).
  exists d. split; [intros conv; apply (Heq conv)|exact Hd].
Defined.
