(* ===== verification/Batch.v ===== *)
(** * Batch acknowledgement ([batch.go], [pgparam.go])

    Acknowledging and negatively acknowledging many receipts of one channel, or of
    one subscriber of a topic, in one transaction.  A batch statement joins the
    table with [unnest] of the receipts' (message, claim) pairs; here the pairs are
    the list the array literals render. *)

From S2P Require Import Prelude Types Tx Backoff Utf8 MetadataCache World Config Queries.
From S2P Require Import Channel Publish PubSub.
From Stdlib Require Import ZArith Lia.
Local Open Scope Z_scope.

(** ** Receipts as query parameters *)

(** [matchKey]: the message id and the claim id of a receipt. *)
Definition receiptMatchKey (r : Receipt) : Z * Z := (r_MessageID r, r_ClaimID r).

(** The canonical (MessageID, ClaimID) order. *)
Definition key_le : relation (Z * Z) := fun x y => x.1 < y.1 \/ (x.1 = y.1 /\ x.2 <= y.2).
#[export] Instance key_le_dec : RelDecision key_le.
Proof. intros x y. unfold key_le. apply _. Defined.

(** The two index-aligned uuid[] parameters, as the pairs [unnest] makes of them. *)
Definition receiptsToIDClaimLiterals (receipts : list Receipt) : list (Z * Z) :=
  merge_sort key_le (receiptMatchKey <$> receipts).

(** UPDATE ... SET f FROM unnest(...) AS u(id, a) WHERE m.id = u.id.  Of several
    [u] rows that join one target row PostgreSQL uses one; here the first. *)
Definition sql_update_from {A R} (key : Z -> R -> Z) (us : list (Z * A)) (f : A -> R -> R)
    (m : gmap Z R) : gmap Z R :=
  map_imap (fun i r =>
    Some (match (list_to_map us : gmap Z A) !! key i r with Some a => f a r | None => r end)) m.

(** A multi-row INSERT without ON CONFLICT: any duplicate key fails it. *)
Definition sql_insert_all {R} (rs : list (Z * R)) (m : gmap Z R) : result (gmap Z R) :=
  let '(m', ids) := sql_insert_many rs m in
  if (length ids =? length rs)%nat then Ok m' else Err (ErrDriver unique_violation).

(** ** The outcome of a batch *)

Definition finishBatch {T : Type} (receipts : list Receipt) (matched : gset (Z * Z))
    (classify : list Receipt -> tx T (list FailedReceipt)) : tx T BatchResult :=
  let succeeded := filter (fun r => receiptMatchKey r ∈ matched) receipts in
  let misses := filter (fun r => receiptMatchKey r ∉ matched) receipts in
  failed ← (if (0 <? length misses)%nat then classify misses else mret []);
  mret (mkBatchResult succeeded failed).

(** [withBatchRetry]: up to three more attempts after a transient error.  [done i]
    is whether the context is done when attempt [i] has failed, or before its
    backoff has elapsed. *)
Fixpoint batch_attempts (left i : nat) (done : nat -> bool) (attempt : io BatchResult) :
    io BatchResult :=
  r ← try_io attempt;
  match r with
  | Ok b => mret b
  | Err x =>
      if negb (isTransientError x) || done i then fail x
      else
        match left with
        | O => fail x
        | Datatypes.S left' => batch_attempts left' (Datatypes.S i) done attempt
        end
  end.

Definition maxBatchTransientRetries : nat := 3.

Definition withBatchRetry (done : nat -> bool) (attempt : io BatchResult) : io BatchResult :=
  batch_attempts maxBatchTransientRetries 0 done attempt.

(** The checks every batch operation makes first: [None] is an empty batch. *)
Definition check_batch (receipts : list Receipt) : result (option (list Receipt)) :=
  if (length receipts =? 0)%nat then Ok None
  else _ ← validateBatchSize (Z.of_nat (length receipts)); Ok (Some receipts).

Definition empty_batch : BatchResult := mkBatchResult [] [].

Section channel_batch.
Context `{Server} (cfg : queueConfig).

(** [m.id = u.id AND m.claim_id = u.claim_id AND m.status = 'processing'] *)
Definition joins (i : Z) (r : channelRow) (u : Z * Z) : bool := (u.1 =? i) && owns u.2 r.
Definition claimed (us : list (Z * Z)) (i : Z) (r : channelRow) : bool := existsb (joins i r) us.

(** The pair [RETURNING m.id, m.claim_id] yields. *)
Definition row_key (x : Z * channelRow) : Z * Z := (x.1, default nil_uuid (c_claim_id x.2)).

Definition ack_batch_tx (receipts : list Receipt) : tx channelTables BatchResult :=
  let us := receiptsToIDClaimLiterals receipts in
  matched ← stmt (fun e _ t =>
    let hit := sql_select (claimed us) (fun _ => 0) (ct_msgs t) in
    (Ok (list_to_set (row_key <$> hit) : gset (Z * Z)),
     set_ct_msgs (sql_update_ids hit.*1 (complete_row (e_now e)) (ct_msgs t)) t));
  finishBatch receipts matched classifyChannelBatchMisses.

Definition ackChannelBatch (channelName : string) (receipts : list Receipt) : io BatchResult :=
  batch ← from_result (check_batch receipts);
  match batch with
  | None => mret empty_batch
  | Some receipts =>
      queueMeta ← map_err (not_found_as ErrChannelNotFound)
                    (getQueueMetadata QueueTypeChannel channelName);
      withTx (on_channel (q_TableName queueMeta) (ack_batch_tx receipts))
  end.

Record batchMessageState := mkBatchMessageState {
  bs_id : uuid;
  bs_claimID : uuid;
  bs_retryCount : Z;
  bs_maxRetries : option Z;
  bs_payload : bytes;
  bs_metadata : option jval
}.

Record batchDLQMessage := mkBatchDLQMessage {
  bd_id : uuid;
  bd_payload : bytes;
  bd_retryCount : Z;
  bd_metadata : option jval
}.

Definition message_state (x : Z * channelRow) : batchMessageState :=
  mkBatchMessageState x.1 (default nil_uuid (c_claim_id x.2)) (c_retry_count x.2)
    (c_max_retries x.2) (c_payload x.2) (c_metadata x.2).

(** One state per joined pair, so a repeated receipt repeats its row. *)
Definition fetchBatchMessageStates (receipts : list Receipt) :
    tx channelTables (list batchMessageState) :=
  let us := receiptsToIDClaimLiterals receipts in
  query (fun _ t => Ok (
    x ← sql_select (claimed us) (fun _ => 0) (ct_msgs t);
    (fun _ => message_state x) <$> filter (fun u => joins x.1 x.2 u = true) us)).

(** The split of [processNackBatch]: the retried messages with their delays, and
    the exhausted ones. *)
Fixpoint split_nack (states : list batchMessageState) (retryDelay : Duration) :
    tx channelTables (list (Z * Duration) * list batchDLQMessage) :=
  match states with
  | [] => mret ([], [])
  | s :: states =>
      let maxRetry := channelMaxRetries (defaultMaxRetries cfg) (bs_maxRetries s) in
      let attempt := wrap64 (bs_retryCount s + 1) in
      if maxRetry <? attempt then
        '(retries, dead) ← split_nack states retryDelay;
        mret (retries, mkBatchDLQMessage (bs_id s) (bs_payload s) attempt (bs_metadata s) :: dead)
      else
        delay ← computeRetryDelay cfg attempt retryDelay;
        '(retries, dead) ← split_nack states retryDelay;
        mret ((bs_id s, delay) :: retries, dead)
  end.

Definition batchRetryMessages (retries : list (Z * Duration)) (errorMsg : bytes) :
    tx channelTables unit :=
  stmt (fun e _ t =>
    if negb (text_ok errorMsg) then (Err (ErrDriver untranslatable), t)
    else if existsb (fun p => match ct_msgs t !! p.1 with
                              | Some r => int64_max <? c_retry_count r + 1
                              | None => false
                              end) retries
    then (Err (ErrDriver out_of_range), t)
    else (Ok tt, set_ct_msgs
      (sql_update_from (fun i _ => i) retries
         (fun delay r => pend_row (c_retry_count r + 1) (e_now e + make_interval delay)
                           (Some errorMsg) r) (ct_msgs t)) t)).

(** The rows of the multi-row INSERT into the dead-letter table. *)
Definition dlq_rows (e : env) (n : nat) (subscriberID : option string) (errorMsg : bytes)
    (messages : list batchDLQMessage) : list (Z * dlqEntry) :=
  imap (fun i d => (e_gen e n i, mkDlqEntry (bd_id d) subscriberID (bd_payload d) errorMsg
                                   (bd_retryCount d) (e_now e) (bd_metadata d))) messages.

(** Its constraints: text without NUL, CHECK (retry_count >= 0), distinct keys. *)
Definition insert_dlq (e : env) (n : nat) (subscriberID : option string) (errorMsg : bytes)
    (messages : list batchDLQMessage) (m : gmap Z dlqEntry) : result (gmap Z dlqEntry) :=
  if negb (text_ok errorMsg) then Err (ErrDriver untranslatable)
  else if existsb (fun d => bd_retryCount d <? 0) messages then Err (ErrDriver check_violation)
  else sql_insert_all (dlq_rows e n subscriberID errorMsg messages) m.

Definition batchMoveToDLQ (messages : list batchDLQMessage) (errorMsg : bytes) :
    tx channelTables unit :=
  let errorMsg := truncateErrorMsg errorMsg in
  stmt (fun e n t =>
    match insert_dlq e n None errorMsg messages (ct_dlq t) with
    | Ok m => (Ok tt, set_ct_dlq m t)
    | Err x => (Err x, t)
    end) ;;
  stmt (fun _ _ t => (Ok tt, set_ct_msgs (sql_delete_ids (bd_id <$> messages) (ct_msgs t)) t)).

Definition processNackBatch (states : list batchMessageState) (errorMsg : bytes)
    (retryDelay : Duration) : tx channelTables unit :=
  '(retries, dead) ← split_nack states retryDelay;
  (if (0 <? length retries)%nat then batchRetryMessages retries errorMsg else mret tt) ;;
  (if (0 <? length dead)%nat then batchMoveToDLQ dead errorMsg else mret tt).

Definition nack_batch_tx (receipts : list Receipt) (errorMsg : bytes) (retryDelay : Duration) :
    tx channelTables BatchResult :=
  states ← fetchBatchMessageStates receipts;
  processNackBatch states errorMsg retryDelay ;;
  finishBatch receipts (list_to_set ((fun s => (bs_id s, bs_claimID s)) <$> states))
    classifyChannelBatchMisses.

Definition nackChannelBatch (channelName : string) (receipts : list Receipt) (errorMsg : bytes)
    (opts : list NackOption) : io BatchResult :=
  let errorMsg := truncateErrorMsg errorMsg in
  let retryDelay := resolveNackRetryDelay opts in
  batch ← from_result (check_batch receipts);
  match batch with
  | None => mret empty_batch
  | Some receipts =>
      queueMeta ← map_err (not_found_as ErrChannelNotFound)
                    (getQueueMetadata QueueTypeChannel channelName);
      withTx (on_channel (q_TableName queueMeta) (nack_batch_tx receipts errorMsg retryDelay))
  end.

End channel_batch.

Section topic_batch.
Context `{Server} (cfg : queueConfig).

(** [s.message_id = u.message_id AND s.claim_id = u.claim_id AND s.subscriber_id = $3
    AND s.status = 'processing'] *)
Definition sub_joins (s : subRow) (u : Z * Z) : bool :=
  (u.1 =? s_message_id s) && sub_owns u.2 s.
Definition claimed_sub (us : list (Z * Z)) (subscriberID : string) (s : subRow) : bool :=
  bool_decide (s_subscriber_id s = subscriberID) && existsb (sub_joins s) us.

Definition sub_key (s : subRow) : Z * Z := (s_message_id s, default nil_uuid (s_claim_id s)).

Definition ack_topic_batch_tx (subscriberID : string) (receipts : list Receipt) :
    tx topicTables BatchResult :=
  let us := receiptsToIDClaimLiterals receipts in
  matched ← stmt (fun e _ t =>
    let hit := sql_select (fun _ => claimed_sub us subscriberID) (fun _ => 0) (tt_subs t) in
    (Ok (list_to_set ((fun x => sub_key x.2) <$> hit) : gset (Z * Z)),
     set_tt_subs (sql_update_ids hit.*1 (ack_sub (e_now e)) (tt_subs t)) t));
  finishBatch receipts matched (classifyTopicBatchMisses subscriberID).

Definition ackTopicBatch (topicName subscriberID : string) (receipts : list Receipt) :
    io BatchResult :=
  from_result (validateSubscriberID subscriberID) ;;
  batch ← from_result (check_batch receipts);
  match batch with
  | None => mret empty_batch
  | Some receipts =>
      queueMeta ← map_err (not_found_as ErrTopicNotFound)
                    (getQueueMetadata QueueTypePubSub topicName);
      withTx (on_topic (q_TableName queueMeta) (ack_topic_batch_tx subscriberID receipts))
  end.

Record batchSubState := mkBatchSubState {
  bu_messageID : uuid;
  bu_claimID : uuid;
  bu_retryCount : Z;
  bu_payload : bytes;
  bu_metadata : option jval
}.

Definition sub_state (x : subRow * topicRow) : batchSubState :=
  mkBatchSubState (s_message_id x.1) (default nil_uuid (s_claim_id x.1)) (s_retry_count x.1)
    (t_payload x.2) (t_metadata x.2).

(** ORDER BY s.message_id; the join with the message table drops a subscription
    without a message. *)
Definition fetchBatchSubStates (receipts : list Receipt) (subscriberID : string) :
    tx topicTables (list batchSubState) :=
  let us := receiptsToIDClaimLiterals receipts in
  query (fun _ t => Ok (
    x ← select_subs (fun _ => claimed_sub us subscriberID) (fun _ => 0) t;
    match tt_msgs t !! s_message_id x.2 with
    | Some m => (fun _ => sub_state (x.2, m)) <$> filter (fun u => sub_joins x.2 u = true) us
    | None => []
    end)).

(** The split of [processNackTopicBatch]. *)
Fixpoint split_nack_subs (states : list batchSubState) (maxRetry : Z) (retryDelay : Duration) :
    tx topicTables (list (Z * Duration) * list batchDLQMessage) :=
  match states with
  | [] => mret ([], [])
  | s :: states =>
      let attempt := wrap64 (bu_retryCount s + 1) in
      if maxRetry <? attempt then
        '(retries, dead) ← split_nack_subs states maxRetry retryDelay;
        mret (retries,
              mkBatchDLQMessage (bu_messageID s) (bu_payload s) attempt (bu_metadata s) :: dead)
      else
        delay ← computeRetryDelay cfg attempt retryDelay;
        '(retries, dead) ← split_nack_subs states maxRetry retryDelay;
        mret ((bu_messageID s, delay) :: retries, dead)
  end.

Definition batchRetrySubscriptions (retries : list (Z * Duration)) (subscriberID : string)
    (errorMsg : bytes) : tx topicTables unit :=
  stmt (fun e _ t =>
    if negb (text_ok errorMsg) then (Err (ErrDriver untranslatable), t)
    else if existsb (fun p => match find_sub t p.1 subscriberID with
                              | Some (_, s) => int64_max <? s_retry_count s + 1
                              | None => false
                              end) retries
    then (Err (ErrDriver out_of_range), t)
    else (Ok tt, set_tt_subs
      (sql_update_from (fun _ s => s_message_id s) retries
         (fun delay s =>
            if bool_decide (s_subscriber_id s = subscriberID)
            then pend_sub (s_retry_count s + 1) (e_now e + make_interval delay) (Some errorMsg) s
            else s) (tt_subs t)) t)).

Definition batchMoveSubToDLQ (subscriberID : string) (messages : list batchDLQMessage)
    (errorMsg : bytes) : tx topicTables unit :=
  let errorMsg := truncateErrorMsg errorMsg in
  stmt (fun e n t =>
    match insert_dlq e n (Some subscriberID) errorMsg messages (tt_dlq t) with
    | Ok m => (Ok tt, set_tt_dlq m t)
    | Err x => (Err x, t)
    end) ;;
  stmt (fun _ _ t => (Ok tt, set_tt_subs
    (filter (fun x => ~ (s_message_id x.2 ∈ bd_id <$> messages /\
                         s_subscriber_id x.2 = subscriberID)) (tt_subs t)) t)).

Definition processNackTopicBatch (subscriberID : string) (states : list batchSubState)
    (maxRetry : Z) (errorMsg : bytes) (retryDelay : Duration) : tx topicTables unit :=
  '(retries, dead) ← split_nack_subs states maxRetry retryDelay;
  (if (0 <? length retries)%nat then batchRetrySubscriptions retries subscriberID errorMsg
   else mret tt) ;;
  (if (0 <? length dead)%nat then batchMoveSubToDLQ subscriberID dead errorMsg else mret tt).

Definition nack_topic_batch_tx (subscriberID : string) (receipts : list Receipt) (maxRetry : Z)
    (errorMsg : bytes) (retryDelay : Duration) : tx topicTables BatchResult :=
  states ← fetchBatchSubStates receipts subscriberID;
  processNackTopicBatch subscriberID states maxRetry errorMsg retryDelay ;;
  finishBatch receipts (list_to_set ((fun s => (bu_messageID s, bu_claimID s)) <$> states))
    (classifyTopicBatchMisses subscriberID).

(** [getTopicMetadata] *)
Definition getTopicMetadata (topicName : string) : io queueMetadata :=
  map_err (not_found_as ErrTopicNotFound) (getQueueMetadata QueueTypePubSub topicName).

Definition nackTopicBatch (topicName subscriberID : string) (receipts : list Receipt)
    (errorMsg : bytes) (opts : list NackOption) : io BatchResult :=
  let errorMsg := truncateErrorMsg errorMsg in
  let retryDelay := resolveNackRetryDelay opts in
  from_result (validateSubscriberID subscriberID) ;;
  batch ← from_result (check_batch receipts);
  match batch with
  | None => mret empty_batch
  | Some receipts =>
      queueMeta ← getTopicMetadata topicName;
      withTx (on_topic (q_TableName queueMeta)
        (nack_topic_batch_tx subscriberID receipts (resolveMaxRetries cfg queueMeta) errorMsg
           retryDelay))
  end.

End topic_batch.

(** ** Specification vocabulary *)

Section batch_spec.
Context `{Server} (cfg : queueConfig).

(** Acking the receipts one by one, in order, at one instant. *)
Fixpoint ack_each (now : timestamp) (rs : list Receipt) (t : channelTables) :
    BatchResult * channelTables :=
  match rs with
  | [] => (empty_batch, t)
  | rc :: rs =>
      match owned t rc with
      | Some r =>
          let '(b, t') := ack_each now rs (put_row (r_MessageID rc) (complete_row now r) t) in
          (mkBatchResult (rc :: Succeeded b) (Failed b), t')
      | None =>
          let '(b, t') := ack_each now rs t in
          (mkBatchResult (Succeeded b) (mkFailedReceipt rc (miss t rc) :: Failed b), t')
      end
  end.

(** Nacking one receipt that owns its message. *)
Definition nack1 (e : env) (override : Duration) (msg : bytes) (rc : Receipt)
    (t t' : channelTables) : Prop :=
  exists r, owned t rc = Some r /\
  ((limit cfg r < c_retry_count r + 1 /\
    exists n i, ct_dlq t !! e_gen e n i = None /\
      t' = dead_letter (e_now e) (e_gen e n i) (r_MessageID rc) msg (c_payload r)
             (c_retry_count r + 1) (c_metadata r) t) \/
   (c_retry_count r + 1 <= limit cfg r /\
    exists delay, retry_delay_ok (backoffPolicy cfg) (c_retry_count r + 1) override delay /\
      t' = put_row (r_MessageID rc) (pend_row (c_retry_count r + 1) (e_now e + make_interval delay)
             (Some (truncateErrorMsg msg)) r) t)).

(** Nacking receipts one after the other. *)
Inductive nacks (e : env) (override : Duration) (msg : bytes) :
    list Receipt -> channelTables -> channelTables -> Prop :=
| nacks_nil t : nacks e override msg [] t t
| nacks_cons rc rs t t1 t2 : nack1 e override msg rc t t1 -> nacks e override msg rs t1 t2 ->
    nacks e override msg (rc :: rs) t t2.

End batch_spec.

(** ** Lemmas *)

Lemma Forall2_in_r {A B} (P : A -> B -> Prop) l k y :
  Forall2 P l k -> y ∈ k -> exists x, x ∈ l /\ P x y.
Proof.
  induction 1 as [|x z l k Hp _ IH]; [intros Hn; by apply elem_of_nil in Hn|].
  rewrite elem_of_cons. intros [->|Hy]; [exists x; split; [left|done]|].
  destruct (IH Hy) as (x' & Hx & ?). exists x'. split; [by right|done].
Qed.

Lemma Forall2_in_l {A B} (P : A -> B -> Prop) l k x :
  Forall2 P l k -> x ∈ l -> exists y, y ∈ k /\ P x y.
Proof. intros Hp%Forall2_flip Hx. by apply (Forall2_in_r _ _ _ _ Hp Hx). Qed.

Lemma Forall2_choose {A B} (P : A -> B -> Prop) l :
  (forall x, x ∈ l -> exists y, P x y) -> exists k, Forall2 P l k.
Proof.
  induction l as [|x l IH]; intros Hl; [by exists []|].
  destruct (Hl x ltac:(left)) as [y Hy]. destruct IH as [k Hk]; [intros z Hz; apply Hl; by right|].
  exists (y :: k). by constructor.
Qed.

Lemma filter_ext_in {A} (P Q : A -> Prop) `{!forall x, Decision (P x), !forall x, Decision (Q x)}
    (l : list A) : (forall x, x ∈ l -> P x <-> Q x) -> filter P l = filter Q l.
Proof.
  induction l as [|x l IH]; [done|]. intros Hl. rewrite !filter_cons.
  rewrite IH by (intros y Hy; apply Hl; by right).
  destruct (decide (P x)), (decide (Q x)); [done| | |done]; exfalso;
    specialize (Hl x ltac:(left)); tauto.
Qed.

(** An UPDATE of the rows a SELECT returned. *)
Lemma sql_update_selected {R} (P : Z -> R -> bool) k (f : R -> R) m i :
  sql_update_ids (sql_select P k m).*1 f m !! i = (fun r => if P i r then f r else r) <$> m !! i.
Proof.
  rewrite lookup_sql_update_ids. destruct (m !! i) as [r|] eqn:Hi; [|done]. cbn. f_equal.
  destruct (P i r) eqn:HP; case_decide as Hin; [done| |exfalso|done].
  - exfalso. apply Hin, list_elem_of_fmap. exists (i, r). by rewrite elem_of_sql_select.
  - apply list_elem_of_fmap in Hin as ([j q] & -> & [Hj HP']%elem_of_sql_select).
    cbn in *. congruence.
Qed.


Section batch_lemmas.
Context `{Server} (cfg : queueConfig).
Implicit Types (t : channelTables) (r : channelRow) (rs us : list Receipt).

Lemma elem_of_literals rs k :
  k ∈ receiptsToIDClaimLiterals rs <-> k ∈ receiptMatchKey <$> rs.
Proof. unfold receiptsToIDClaimLiterals. by rewrite merge_sort_Permutation. Qed.

Lemma joins_true i r u :
  joins i r u = true <->
  u.1 = i /\ c_claim_id r = Some u.2 /\ c_status r = MessageStatusProcessing.
Proof.
  unfold joins, owns. rewrite !andb_true_iff, Z.eqb_eq, !bool_decide_eq_true. tauto.
Qed.

Lemma claimed_true (ps : list (Z * Z)) i r :
  claimed ps i r = true <->
  exists c, (i, c) ∈ ps /\ c_claim_id r = Some c /\ c_status r = MessageStatusProcessing.
Proof.
  unfold claimed. rewrite existsb_exists. split.
  - intros ([i' c] & Hin & (Hi & Hc & Hs)%joins_true). cbn in *. subst i'. exists c.
    by rewrite list_elem_of_In.
  - intros (c & Hin & Hc & Hs). exists (i, c). rewrite joins_true. by rewrite list_elem_of_In in Hin.
Qed.

(** A row is claimed by a batch when some receipt of the batch owns it. *)
Lemma claimed_owned rs t i r :
  ct_msgs t !! i = Some r ->
  claimed (receiptsToIDClaimLiterals rs) i r = true <->
  exists u, u ∈ rs /\ r_MessageID u = i /\ owned t u = Some r.
Proof.
  intros Hi. rewrite claimed_true. setoid_rewrite elem_of_literals.
  setoid_rewrite list_elem_of_fmap. split.
  - intros (c & (u & [= -> ->] & Hu) & Hc & Hs). exists u. split_and!; [done..|].
    by apply owned_Some.
  - intros (u & Hu & <- & (_ & Hc & Hs)%owned_Some). exists (r_ClaimID u).
    split_and!; [|done..]. by exists u.
Qed.

(** A receipt is matched by the rows the batch hits exactly when it owns its message. *)
Lemma matched_owned rs t u :
  u ∈ rs ->
  receiptMatchKey u ∈ (list_to_set (row_key <$>
    sql_select (claimed (receiptsToIDClaimLiterals rs)) (fun _ => 0) (ct_msgs t)) : gset (Z * Z)) <->
  is_Some (owned t u).
Proof.
  intros Hu. rewrite elem_of_list_to_set, list_elem_of_fmap. split.
  - intros ([i r] & Hk & [Hi Hc]%elem_of_sql_select). unfold receiptMatchKey, row_key in Hk.
    cbn in Hk. injection Hk as Hid Hcl. apply claimed_true in Hc as (c & _ & Hc & Hs).
    rewrite Hc in Hcl. cbn in Hcl. exists r. apply owned_Some. subst. done.
  - intros [r Ho]. pose proof Ho as (Hi & Hc & Hs)%owned_Some.
    exists (r_MessageID u, r). split.
    + unfold receiptMatchKey, row_key. cbn. by rewrite Hc.
    + apply elem_of_sql_select. split; [done|]. apply claimed_owned with t; [done|]. by exists u.
Qed.

(** What [finishBatch] reports once the matched set is known. *)
Lemma wp_finishBatch (e : env) (n : nat) t rs (matched : gset (Z * Z)) (own : Receipt -> Prop)
    `{!forall u, Decision (own u)} (Q : BatchResult -> nat -> option channelTables -> Prop)
    (E : err -> Prop) :
  (forall d, faulty e -> E (ErrDriver d)) ->
  (forall u, u ∈ rs -> receiptMatchKey u ∈ matched <-> own u) ->
  (forall n', Q (mkBatchResult (filter own rs)
       ((fun u => mkFailedReceipt u (miss t u)) <$> filter (fun u => ~ own u) rs)) n' (Some t)) ->
  wp e n (Some t) (finishBatch rs matched classifyChannelBatchMisses) Q E.
Proof.
  intros HF Hm HQ. unfold finishBatch.
  rewrite (filter_ext_in (fun u => receiptMatchKey u ∈ matched) own rs Hm).
  rewrite (filter_ext_in (fun u => receiptMatchKey u ∉ matched) (fun u => ~ own u) rs)
    by (intros u Hu; by rewrite Hm).
  wp_step. destruct (filter (fun u => ~ own u) rs) as [|u us] eqn:Hf; cbn [length Nat.ltb Nat.leb].
  - wp_step. wp_step. apply HQ.
  - unfold classifyChannelBatchMisses. apply wp_query; [done|].
    wp_step. apply HQ.
Qed.

Lemma claimed_literals rs i r :
  claimed (receiptsToIDClaimLiterals rs) i r = claimed (receiptMatchKey <$> rs) i r.
Proof.
  apply eq_true_iff_eq. rewrite !claimed_true. by setoid_rewrite elem_of_literals.
Qed.

Lemma owned_put_ne t u i r : r_MessageID u <> i -> owned (put_row i r t) u = owned t u.
Proof. intros Hne. unfold owned. cbn. by rewrite lookup_insert_ne. Qed.

Lemma owned_delete_ne now k i msg p rc md t u :
  r_MessageID u <> i -> owned (dead_letter now k i msg p rc md t) u = owned t u.
Proof. intros Hne. unfold owned. cbn. by rewrite lookup_delete_ne. Qed.

(** Completing a message leaves every other receipt as it was. *)
Lemma owned_complete now t rc x u :
  owned t rc = Some x -> receiptMatchKey u <> receiptMatchKey rc ->
  owned (put_row (r_MessageID rc) (complete_row now x) t) u = owned t u.
Proof.
  intros (Hi & Hc & Hs)%owned_Some Hne. destruct (decide (r_MessageID u = r_MessageID rc)) as [Heq|];
    [|by apply owned_put_ne].
  unfold owned. cbn. rewrite Heq, lookup_insert_eq, Hi. unfold owns. cbn.
  rewrite andb_false_r, Hc, (bool_decide_eq_false_2 (Some _ = Some _)); [done|].
  intros [= Hcl]. apply Hne. unfold receiptMatchKey. congruence.
Qed.

(** A receipt that owns nothing is told the same once the rows others own are
    completed. *)
Lemma miss_complete now t t' u :
  owned t u = None ->
  ct_msgs t' !! r_MessageID u = ct_msgs t !! r_MessageID u \/
  (exists r, ct_msgs t !! r_MessageID u = Some r /\ c_status r = MessageStatusProcessing /\
     ct_msgs t' !! r_MessageID u = Some (complete_row now r)) ->
  miss t' u = miss t u.
Proof.
  intros Hu [Heq|(r & Hr & Hs & Hr')]; unfold miss; [by rewrite Heq|]. rewrite Hr, Hr'. cbn.
  unfold classifyClaimState. cbn [negb]. destruct (c_claim_id r) as [c|] eqn:Hc; [|done].
  destruct (Z.eqb_spec c (r_ClaimID u)) as [->|]; [|done].
  exfalso. assert (owned t u = Some r); [|congruence]. by apply owned_Some.
Qed.

(** Acking one by one completes the claimed rows and reports the owners. *)
Lemma ack_each_spec now rs t :
  NoDup (receiptMatchKey <$> rs) ->
  let hit := sql_select (claimed (receiptsToIDClaimLiterals rs)) (fun _ => 0) (ct_msgs t) in
  ack_each now rs t =
    (mkBatchResult (filter (fun u => is_Some (owned t u)) rs)
       ((fun u => mkFailedReceipt u (miss t u)) <$> filter (fun u => ~ is_Some (owned t u)) rs),
     set_ct_msgs (sql_update_ids hit.*1 (complete_row now) (ct_msgs t)) t).
Proof.
  intros Hnd hit.
  assert (forall i, sql_update_ids hit.*1 (complete_row now) (ct_msgs t) !! i =
    (fun r => if claimed (receiptMatchKey <$> rs) i r then complete_row now r else r) <$>
      ct_msgs t !! i) as Hlk.
  { intros i. unfold hit. rewrite sql_update_selected. destruct (ct_msgs t !! i); [|done].
    cbn. by rewrite claimed_literals. }
  revert Hlk. generalize (sql_update_ids hit.*1 (complete_row now) (ct_msgs t)). clear hit.
  revert t Hnd. induction rs as [|rc rs IH]; intros t Hnd m Hlk.
  { cbn. f_equal. destruct t as [msgs dlq]. unfold set_ct_msgs. cbn in *. f_equal.
    apply map_eq. intros i. rewrite Hlk. by destruct (msgs !! i). }
  rewrite fmap_cons, NoDup_cons in Hnd. destruct Hnd as [Hrc Hnd]. cbn [ack_each].
  assert (forall u, u ∈ rs -> receiptMatchKey u <> receiptMatchKey rc) as Hne.
  { intros u Hu Heq. apply Hrc. rewrite <-Heq. by apply list_elem_of_fmap_2. }
  rewrite fmap_cons in Hlk. unfold claimed in Hlk. cbn [existsb] in Hlk. fold (claimed) in Hlk.
  destruct (owned t rc) as [x|] eqn:Ho.
  - rewrite filter_cons_True by (rewrite Ho; eauto).
    rewrite filter_cons_False by (rewrite Ho; intros Hn; apply Hn; eauto).
    pose proof Ho as (Hi & Hc & Hs)%owned_Some.
    rewrite (IH _ Hnd m).
    + cbn [Succeeded Failed]. f_equal. f_equal.
      * f_equal. apply filter_ext_in. intros u Hu. by rewrite (owned_complete now _ _ _ _ Ho) by auto.
      * match goal with |- _ <$> filter ?P rs = _ =>
          rewrite (filter_ext_in P (fun u => ~ is_Some (owned t u)) rs) end.
        2: { intros u Hu. by rewrite (owned_complete now _ _ _ _ Ho) by auto. }
        apply list_fmap_ext. intros j u Hu%list_elem_of_lookup_2. f_equal.
        apply list_elem_of_filter in Hu as [Hu%eq_None_not_Some _]. apply miss_complete with now; [done|].
        cbn. destruct (decide (r_MessageID u = r_MessageID rc)) as [->|];
          [right; exists x; by rewrite lookup_insert_eq|left; by rewrite lookup_insert_ne].
    + intros i. rewrite Hlk. cbn. destruct (decide (i = r_MessageID rc)) as [->|Hni].
      * rewrite lookup_insert_eq, Hi. cbn.
        rewrite (proj2 (joins_true _ _ _)) by done. cbn. f_equal.
        destruct (claimed _ _ (complete_row now x)) eqn:Hcl; [|done].
        apply claimed_true in Hcl as (c & _ & _ & ?). done.
      * rewrite lookup_insert_ne by done. destruct (ct_msgs t !! i) as [r|]; [|done]. cbn.
        destruct (joins i r (receiptMatchKey rc)) eqn:Hj; [|done].
        apply joins_true in Hj as (Hj & _). by rewrite <-Hj in Hni.
  - rewrite filter_cons_False by (rewrite Ho; intros [? ?]; done).
    rewrite filter_cons_True by (rewrite Ho; intros [? ?]; done).
    rewrite (IH _ Hnd m); [done|]. intros i. rewrite Hlk.
    destruct (ct_msgs t !! i) as [r|] eqn:Hi; [|done]. cbn.
    destruct (joins i r (receiptMatchKey rc)) eqn:Hj; [|done].
    apply joins_true in Hj as (Hj & Hc & Hs). cbn in *.
    assert (owned t rc = Some r); [|congruence]. apply owned_Some. by rewrite Hj.
Qed.

(** *** Negative acknowledgement *)

Lemma nacks_app e override msg us1 us2 t t1 t2 :
  nacks cfg e override msg us1 t t1 -> nacks cfg e override msg us2 t1 t2 ->
  nacks cfg e override msg (us1 ++ us2) t t2.
Proof. induction 1; [done|]. intros Hn. cbn. econstructor; [done|auto]. Qed.

Lemma nack1_ok e override msg rc t t' :
  channel_inv cfg t -> text_ok (truncateErrorMsg msg) = true -> nack1 cfg e override msg rc t t' ->
  channel_inv cfg t' /\ conserves t t'.
Proof.
  intros Hi Ht (r & (Hid & _)%owned_Some & Hcase).
  pose proof (proj1 Hi _ _ Hid) as Hr. pose proof Hr as (_ & ? & _).
  destruct Hcase as [(Hl & n & i & Hk & ->)|(Hl & delay & Hd & ->)].
  - split; [apply dead_letter_inv; [done|lia|done]|by apply dead_letter_conserves].
  - split; [|by eapply put_row_conserves]. apply put_row_inv; [done|].
    apply pend_row_wf; [done|lia].
Qed.

Lemma nacks_ok e override msg rs t t' :
  nacks cfg e override msg rs t t' -> channel_inv cfg t -> text_ok (truncateErrorMsg msg) = true ->
  channel_inv cfg t' /\ conserves t t'.
Proof.
  induction 1 as [t|rc rs t t1 t2 Hn _ IH]; intros Hi Ht; [split; [done|apply conserves_refl]|].
  destruct (nack1_ok _ _ _ _ _ _ Hi Ht Hn) as [Hi1 Hc1]. destruct (IH Hi1 Ht) as [? ?].
  split; [done|]. by eapply conserves_trans.
Qed.

(** The table after the retry UPDATE, and after the dead-letter INSERT and DELETE. *)
Definition retried (e : env) (msg : bytes) (ps : list (Z * Duration)) (t : channelTables) :
    channelTables :=
  set_ct_msgs (sql_update_from (fun i _ => i) ps
    (fun delay r => pend_row (c_retry_count r + 1) (e_now e + make_interval delay)
                      (Some (truncateErrorMsg msg)) r) (ct_msgs t)) t.
Definition buried (ids : list Z) (es : list (Z * dlqEntry)) (t : channelTables) : channelTables :=
  mkChannelTables (sql_delete_ids ids (ct_msgs t)) (sql_insert_many es (ct_dlq t)).1.

(** The receipts [us] own the rows [l]. *)
Definition owners (t : channelTables) (l : list (Z * channelRow)) (us : list Receipt) : Prop :=
  Forall2 (fun x u => r_MessageID u = x.1 /\ owned t u = Some x.2) l us.

Lemma owners_mono t t' l us :
  (forall u, r_MessageID u ∈ l.*1 -> owned t' u = owned t u) -> owners t l us -> owners t' l us.
Proof.
  intros Hm Ho. induction Ho as [|x u l us [Hid Hu] Ho IH]; constructor.
  - split; [done|]. rewrite Hm; [done|]. rewrite Hid. left.
  - apply IH. intros u' Hu'. apply Hm. by right.
Qed.

Lemma nacks_retried e override msg l us ps t :
  owners t l us -> NoDup l.*1 ->
  Forall2 (fun x p => p.1 = x.1 /\ c_retry_count x.2 + 1 <= limit cfg x.2 /\
    retry_delay_ok (backoffPolicy cfg) (c_retry_count x.2 + 1) override p.2) l ps ->
  nacks cfg e override msg us t (retried e msg ps t).
Proof.
  intros Ho. revert ps t Ho. induction l as [|[i r] l IH] in us |- *; intros ps t Ho Hnd Hps.
  - inversion_clear Hps. inversion_clear Ho.
    replace (retried e msg [] t) with t; [constructor|]. destruct t as [msgs dlq].
    unfold retried, set_ct_msgs, sql_update_from. cbn. f_equal. apply map_eq. intros i.
    rewrite map_lookup_imap. by destruct (msgs !! i).
  - apply Forall2_cons_inv_l in Hps as ([i' d] & ps' & (Hid & Hl & Hd) & Hps & ->).
    apply Forall2_cons_inv_l in Ho as (u & us' & [Hu Hou] & Ho & ->). cbn in *. subst i'.
    apply NoDup_cons in Hnd as [Hi Hnd]. pose proof Hou as (Hrow & _)%owned_Some.
    set (t1 := put_row i (pend_row (c_retry_count r + 1) (e_now e + make_interval d)
                 (Some (truncateErrorMsg msg)) r) t).
    apply nacks_cons with t1.
    { exists r. split; [done|]. right. split; [done|]. exists d. split; [done|]. by rewrite Hu. }
    assert (retried e msg ((i, d) :: ps') t = retried e msg ps' t1) as ->.
    { assert (i ∉ ps'.*1) as Hps1.
      { intros (p & -> & Hp)%list_elem_of_fmap. apply Hi.
        destruct (Forall2_in_r _ _ _ _ Hps Hp) as (y & Hy & Hpy & _).
        rewrite Hpy. by apply list_elem_of_fmap_2. }
      unfold retried, t1, put_row, set_ct_msgs. cbn. f_equal. apply map_eq. intros j.
      unfold sql_update_from. rewrite !map_lookup_imap. destruct (decide (j = i)) as [->|Hj].
      - rewrite <-Hu, Hrow, Hu, lookup_insert_eq. cbn.
        rewrite lookup_insert_eq, not_elem_of_list_to_map_1 by done. done.
      - rewrite lookup_insert_ne by done. destruct (ct_msgs t !! j) as [q|]; [|done]. cbn.
        by rewrite lookup_insert_ne. }
    apply IH; [|done|done]. eapply owners_mono; [|exact Ho]. intros u' Hu'. apply owned_put_ne.
    by intros <-.
Qed.

Lemma nacks_buried e override msg l us es t :
  owners t l us -> NoDup l.*1 -> NoDup es.*1 -> (forall k, k ∈ es.*1 -> ct_dlq t !! k = None /\ exists n i, k = e_gen e n i) ->
  Forall2 (fun x y => limit cfg x.2 < c_retry_count x.2 + 1 /\
    y.2 = mkDlqEntry x.1 None (c_payload x.2) (truncateErrorMsg msg) (c_retry_count x.2 + 1)
            (e_now e) (c_metadata x.2)) l es ->
  nacks cfg e override msg us t (buried l.*1 es t).
Proof.
  intros Ho. revert es t Ho. induction l as [|[i r] l IH] in us |- *; intros es t Ho Hnd Hek Hfr Hes.
  - inversion_clear Hes. inversion_clear Ho.
    replace (buried [].*1 [] t) with t; [constructor|]. destruct t as [msgs dlq].
    unfold buried. cbn. f_equal. apply map_eq. intros i. rewrite lookup_sql_delete_ids.
    rewrite decide_False; [done|]. apply not_elem_of_nil.
  - apply Forall2_cons_inv_l in Hes as ([k y] & es' & (Hl & Hy) & Hes & ->).
    apply Forall2_cons_inv_l in Ho as (u & us' & [Hu Hou] & Ho & ->). cbn in *.
    apply NoDup_cons in Hnd as [Hi Hnd], Hek as [Hk Hek]. pose proof Hou as (Hrow & _)%owned_Some.
    destruct (Hfr k ltac:(left)) as (Hdk & n & g & ->).
    set (t1 := dead_letter (e_now e) (e_gen e n g) i msg (c_payload r) (c_retry_count r + 1) (c_metadata r) t).
    apply nacks_cons with t1.
    { exists r. split; [done|]. left. split; [done|]. exists n, g. by rewrite Hu. }
    assert (buried (i :: l.*1) ((e_gen e n g, y) :: es') t = buried l.*1 es' t1) as ->.
    { unfold buried. f_equal.
      - apply map_eq. intros j. unfold t1. cbn. rewrite !lookup_sql_delete_ids.
        destruct (decide (j = i)) as [->|Hj].
        + rewrite lookup_delete_eq, decide_True by left. by case_decide.
        + rewrite lookup_delete_ne by done. case_decide as H1; case_decide as H2; [done|..|done].
          * apply elem_of_cons in H1 as [?|?]; done.
          * exfalso. apply H1. by right.
      - cbn. rewrite Hdk. subst y. by destruct (sql_insert_many es' _). }
    apply IH; [|done..| |done].
    + eapply owners_mono; [|exact Ho]. intros u' Hu'. apply owned_delete_ne. by intros <-.
    + intros k' Hk'. destruct (Hfr k' ltac:(by right)) as [? ?]. split; [|done].
      cbn. rewrite lookup_insert_ne; [done|]. by intros Heq; subst.
Qed.

Definition exhausted_row (x : Z * channelRow) : Prop := limit cfg x.2 < c_retry_count x.2 + 1.
#[local] Instance exhausted_row_dec x : Decision (exhausted_row x).
Proof. unfold exhausted_row. apply _. Defined.

Definition dead_of (x : Z * channelRow) : batchDLQMessage :=
  mkBatchDLQMessage x.1 (c_payload x.2) (c_retry_count x.2 + 1) (c_metadata x.2).

Lemma wp_split_nack e n s l override
    (Q : list (Z * Duration) * list batchDLQMessage -> nat -> option channelTables -> Prop) E :
  Forall (fun x => row_wf cfg x.2) l ->
  (forall ps n', (n <= n')%nat ->
     Forall2 (fun x p => p.1 = x.1 /\ c_retry_count x.2 + 1 <= limit cfg x.2 /\
       retry_delay_ok (backoffPolicy cfg) (c_retry_count x.2 + 1) override p.2)
       (filter (fun x => ~ exhausted_row x) l) ps ->
     Q (ps, dead_of <$> filter exhausted_row l) n' s) ->
  wp e n s (split_nack cfg (message_state <$> l) override) Q E.
Proof.
  revert n Q. induction l as [|[i r] l IH]; intros n Q Hwf HQ.
  { cbn. wp_step. apply HQ; [done|constructor]. }
  apply Forall_cons in Hwf as [Hr Hwf]. cbn [fmap list_fmap split_nack].
  cbn [message_state bs_id bs_retryCount bs_maxRetries bs_payload bs_metadata fst snd].
  rewrite (row_wf_retry cfg r Hr). fold (limit cfg r).
  destruct (Z.ltb_spec (limit cfg r) (c_retry_count r + 1)) as [Hl|Hl].
  - wp_step. apply IH; [done|]. intros ps n' Hn Hps. wp_step.
    rewrite filter_cons_False in HQ by (intros Hx; by apply Hx).
    rewrite filter_cons_True in HQ by done. by apply HQ.
  - wp_step. apply wp_computeRetryDelay. intros d n1 Hn1 Hd. wp_step. apply IH; [done|].
    intros ps n' Hn Hps. wp_step.
    assert (~ exhausted_row (i, r)) as Hx by (unfold exhausted_row; cbn; lia).
    rewrite filter_cons_True in HQ by done. rewrite filter_cons_False in HQ by done.
    apply HQ; [lia|]. by constructor.
Qed.

Lemma wp_batchRetryMessages e n t ps msg (Q : unit -> nat -> option channelTables -> Prop) E :
  (forall d, faulty e -> E (ErrDriver d)) ->
  text_ok (truncateErrorMsg msg) = true -> channel_inv cfg t ->
  (forall n', (n <= n')%nat -> Q tt n' (Some (retried e msg ps t))) ->
  wp e n (Some t) (if (0 <? length ps)%nat then batchRetryMessages ps (truncateErrorMsg msg)
                   else mret tt) Q E.
Proof.
  intros HF Ht Hi HQ. destruct ps as [|p ps]; cbn [length Nat.ltb Nat.leb].
  { wp_step. replace t with (retried e msg [] t) at 1; [by apply HQ|].
    destruct t as [msgs dlq]. unfold retried, set_ct_msgs, sql_update_from. cbn. f_equal.
    apply map_eq. intros i. rewrite map_lookup_imap. by destruct (msgs !! i). }
  unfold batchRetryMessages. wp_step. rewrite Ht. cbn [negb].
  destruct (existsb _ (p :: ps)) eqn:Hex; [|apply HQ; lia].
  apply existsb_exists in Hex as (q & _ & Hq). destruct (ct_msgs t !! q.1) as [r|] eqn:Hr; [|done].
  apply Z.ltb_lt in Hq. destruct (proj1 Hi _ _ Hr) as (_ & ? & ?). lia.
Qed.

Lemma dlq_rows_keys e n sid msg l k :
  k ∈ (dlq_rows e n sid msg l).*1 -> exists i, k = e_gen e n i.
Proof.
  intros ([k' d] & -> & Hk)%list_elem_of_fmap. apply elem_of_lookup_imap in Hk as (i & x & [= -> _] & _).
  by exists i.
Qed.

Lemma dlq_rows_NoDup e n sid msg l :
  (forall i i', e_gen e n i = e_gen e n i' -> i = i') -> NoDup (dlq_rows e n sid msg l).*1.
Proof.
  intros Hinj. unfold dlq_rows. apply NoDup_alt. intros i j k Hi Hj.
  rewrite list_lookup_fmap, list_lookup_imap in Hi, Hj.
  destruct (l !! i); [|done]. destruct (l !! j); [|done]. cbn in *. apply Hinj. congruence.
Qed.

Lemma insert_dlq_ok e n sid msg l m :
  text_ok msg = true -> Forall (fun d => 0 <= bd_retryCount d) l ->
  (forall i i', e_gen e n i = e_gen e n i' -> i = i') -> (forall i, m !! e_gen e n i = None) ->
  insert_dlq e n sid msg l m = Ok (sql_insert_many (dlq_rows e n sid msg l) m).1.
Proof.
  intros Ht Hrc Hinj Hfr. unfold insert_dlq, sql_insert_all. rewrite Ht. cbn [negb].
  destruct (existsb _ l) eqn:Hex.
  { apply existsb_exists in Hex as (d & Hd%list_elem_of_In & Hlt%Z.ltb_lt).
    rewrite Forall_forall in Hrc. specialize (Hrc d Hd). lia. }
  pose proof (proj2 (sql_insert_many_full (dlq_rows e n sid msg l) m)) as Hlen.
  destruct (sql_insert_many _ m) as [m' ids]. cbn in *. rewrite Hlen, Nat.eqb_refl; [done|].
  split; [by apply dlq_rows_NoDup|]. intros k (i & ->)%dlq_rows_keys. apply Hfr.
Qed.

Lemma truncateErrorMsg_idem msg :
  truncateErrorMsg (truncateErrorMsg msg) = truncateErrorMsg msg.
Proof. apply truncateErrorMsg_id; [apply truncateErrorMsg_valid|apply truncateErrorMsg_length]. Qed.

Lemma wp_batchMoveToDLQ e n t l msg (Q : unit -> nat -> option channelTables -> Prop) E :
  (forall d, faulty e -> E (ErrDriver d)) ->
  text_ok (truncateErrorMsg msg) = true -> Forall (fun d => 0 <= bd_retryCount d) l ->
  gen_fresh e n t ->
  (forall n', Q tt n' (Some (buried (bd_id <$> l)
                 (dlq_rows e n None (truncateErrorMsg msg) l) t))) ->
  wp e n (Some t) (if (0 <? length l)%nat then batchMoveToDLQ l (truncateErrorMsg msg)
                   else mret tt) Q E.
Proof.
  intros HF Ht Hl [Hfr Hinj] HQ. destruct l as [|d l]; cbn [length Nat.ltb Nat.leb].
  { wp_step. specialize (HQ n). destruct t as [msgs dlq]. unfold buried in HQ. cbn in HQ.
    replace (sql_delete_ids [] msgs) with msgs in HQ; [done|]. apply map_eq. intros i.
    rewrite lookup_sql_delete_ids, decide_False; [done|]. apply not_elem_of_nil. }
  unfold batchMoveToDLQ. rewrite truncateErrorMsg_idem. do 2 wp_step.
  rewrite insert_dlq_ok; [|done|done|..].
  - wp_step. apply HQ.
  - intros i i' Hii. by apply Hinj in Hii as [_ ?].
  - intros i. by apply Hfr.
Qed.

Lemma filter_unique {A} (P : A -> Prop) `{!forall x, Decision (P x)} (l : list A) x :
  NoDup l -> x ∈ l -> (forall y, y ∈ l -> P y <-> y = x) -> filter P l = [x].
Proof.
  induction l as [|y l IH]; intros Hnd Hx HP; [by apply elem_of_nil in Hx|].
  apply NoDup_cons in Hnd as [Hy Hnd]. destruct (decide (P y)) as [HPy|Hne].
  - rewrite filter_cons_True by done. apply HP in HPy as ->; [|left]. f_equal. apply filter_drop.
    intros z Hz HPz. apply HP in HPz; [by subst|by right].
  - rewrite filter_cons_False by done. apply IH; [done| |intros z Hz; apply HP; by right].
    apply elem_of_cons in Hx as [->|?]; [|done]. exfalso. apply Hne, HP; [left|done].
Qed.

(** Without repeated receipts, each claimed row is fetched once. *)
Lemma fetched_states rs l :
  NoDup (receiptMatchKey <$> rs) ->
  (forall x, x ∈ l -> claimed (receiptsToIDClaimLiterals rs) x.1 x.2 = true) ->
  (x ← l; (fun _ => message_state x) <$>
     filter (fun u => joins x.1 x.2 u = true) (receiptsToIDClaimLiterals rs)) =
  message_state <$> l.
Proof.
  intros Hnd. induction l as [|[i r] l IH]; intros Hl; [done|]. cbn [mbind list_bind fmap list_fmap].
  pose proof (Hl (i, r) ltac:(left)) as (c & Hin & Hc & Hs)%claimed_true.
  rewrite (filter_unique _ _ (i, c)).
  - cbn. f_equal. apply IH. intros x Hx. apply Hl. by right.
  - unfold receiptsToIDClaimLiterals. by rewrite merge_sort_Permutation.
  - done.
  - intros [j c'] _. rewrite joins_true. cbn. split; [intros (-> & Hc' & _)|intros [= -> ->]; done].
    cbn in *. congruence.
Qed.

(** The receipts that own the hit rows are, up to order, the live ones. *)
Lemma owners_perm rs t l us :
  NoDup (receiptMatchKey <$> rs) ->
  l ≡ₚ sql_select (claimed (receiptsToIDClaimLiterals rs)) (fun _ => 0) (ct_msgs t) ->
  owners t l us -> (forall u, u ∈ us -> u ∈ rs) ->
  us ≡ₚ filter (fun u => is_Some (owned t u)) rs.
Proof.
  intros Hnd Hl Ho Hin. apply NoDup_Permutation.
  - apply (NoDup_fmap_1 r_MessageID). replace (r_MessageID <$> us) with l.*1;
      [rewrite Hl; apply NoDup_sql_select|]. clear Hl.
    induction Ho as [|x u l us' [Hu _] _ IH]; [done|]. cbn. f_equal; [done|].
    apply IH. intros v Hv. apply Hin. by right.
  - by apply NoDup_filter, (NoDup_fmap_1 receiptMatchKey).
  - intros u. rewrite list_elem_of_filter. split.
    + intros Hu. split; [|by apply Hin]. destruct (Forall2_in_r _ _ _ _ Ho Hu) as (x & _ & _ & Hx).
      by exists x.2.
    + intros [[r Hr] Hu]. pose proof Hr as (Hi & Hc & _)%owned_Some.
      assert ((r_MessageID u, r) ∈ l) as Hhit.
      { rewrite Hl. apply elem_of_sql_select. split; [done|]. apply claimed_owned with t; [done|]. by exists u. }
      destruct (Forall2_in_l _ _ _ _ Ho Hhit) as (v & Hv & Hvi & Hvo). cbn in *.
      apply owned_Some in Hvo as (_ & Hvc & _).
      assert (receiptMatchKey u = receiptMatchKey v) as Hk.
      { unfold receiptMatchKey. congruence. }
      pose proof (Hin v Hv) as Hvr. apply list_elem_of_lookup in Hu as [i Hu], Hvr as [j Hvr].
      assert (i = j) as ->; [|congruence].
      eapply (NoDup_lookup (receiptMatchKey <$> rs)); [done|rewrite list_lookup_fmap, Hu; done|].
      rewrite list_lookup_fmap, Hvr. cbn. congruence.
Qed.

(** Retrying leaves the receipts of the other rows as they were. *)
Lemma owned_retried e msg ps t u :
  r_MessageID u ∉ ps.*1 -> owned (retried e msg ps t) u = owned t u.
Proof.
  intros Hu. unfold owned, retried, sql_update_from. cbn. rewrite map_lookup_imap.
  rewrite not_elem_of_list_to_map_1 by done. by destruct (ct_msgs t !! r_MessageID u).
Qed.

Lemma dlq_rows_entries e n msg l :
  Forall exhausted_row l ->
  Forall2 (fun x y => limit cfg x.2 < c_retry_count x.2 + 1 /\
    y.2 = mkDlqEntry x.1 None (c_payload x.2) msg (c_retry_count x.2 + 1) (e_now e)
            (c_metadata x.2)) l (dlq_rows e n None msg (dead_of <$> l)).
Proof.
  intros Hl. apply Forall2_same_length_lookup. unfold dlq_rows. rewrite length_imap, length_fmap.
  split; [done|]. intros i x y Hx Hy. rewrite list_lookup_imap, list_lookup_fmap, Hx in Hy.
  cbn in Hy. injection Hy as <-. cbn. split; [|done]. by eapply Forall_lookup in Hl.
Qed.

(** The two statements of a batch nack are the nacks of its live receipts. *)
Lemma nacks_batch e n override msg rs t ps :
  gen_fresh e n t -> NoDup (receiptMatchKey <$> rs) ->
  let hit := sql_select (claimed (receiptsToIDClaimLiterals rs)) (fun _ => 0) (ct_msgs t) in
  Forall2 (fun x p => p.1 = x.1 /\ c_retry_count x.2 + 1 <= limit cfg x.2 /\
    retry_delay_ok (backoffPolicy cfg) (c_retry_count x.2 + 1) override p.2)
    (filter (fun x => ~ exhausted_row x) hit) ps ->
  let dead := dead_of <$> filter exhausted_row hit in
  exists us, us ≡ₚ filter (fun u => is_Some (owned t u)) rs /\
    nacks cfg e override msg us t (buried (bd_id <$> dead)
      (dlq_rows e n None (truncateErrorMsg msg) dead) (retried e msg ps t)).
Proof.
  intros [Hfr Hinj] Hnd hit Hps dead.
  set (l1 := filter (fun x => ~ exhausted_row x) hit) in *. set (l2 := filter exhausted_row hit) in *.
  assert (l1 ++ l2 ≡ₚ hit) as Hperm.
  { unfold l1, l2. rewrite (Permutation_app_comm _ (filter exhausted_row hit)).
    apply filter_app_complement. }
  destruct (Forall2_choose (fun x u => u ∈ rs /\ r_MessageID u = x.1 /\ owned t u = Some x.2)
    (l1 ++ l2)) as [us Hus].
  { intros [i r]. rewrite Hperm. intros [Hx Hc]%elem_of_sql_select.
    exact (proj1 (claimed_owned rs t _ _ Hx) Hc). }
  exists us. assert (owners t (l1 ++ l2) us) as Ho.
  { eapply Forall2_impl; [exact Hus|]. by intros x u [_ ?]. }
  split.
  { apply owners_perm with (l1 ++ l2); [done..|].
    intros u Hu. destruct (Forall2_in_r _ _ _ _ Hus Hu) as (x & _ & ? & _). done. }
  assert (NoDup (l1 ++ l2).*1) as Hnd12 by (rewrite Hperm; apply NoDup_sql_select).
  apply Forall2_app_inv_l in Ho as (us1 & us2 & Hus1 & Hus2 & ->).
  rewrite fmap_app, NoDup_app in Hnd12. destruct Hnd12 as (Hnd1 & Hdis & Hnd2).
  eapply nacks_app; [by apply nacks_retried with l1|].
  unfold dead. rewrite <-list_fmap_compose. change (bd_id ∘ dead_of) with (@fst Z channelRow).
  apply nacks_buried; [|done|..].
  - eapply owners_mono; [|exact Hus2]. intros u Hu. apply owned_retried.
    intros (p & Hp & Hin)%list_elem_of_fmap.
    destruct (Forall2_in_r _ _ _ _ Hps Hin) as (y & Hy & Hpy & _).
    apply (Hdis (r_MessageID u)); [|done]. rewrite Hp, Hpy. by apply list_elem_of_fmap_2.
  - apply dlq_rows_NoDup. intros i i' Hii. by apply Hinj in Hii as [_ ?].
  - intros k (i & ->)%dlq_rows_keys. split; [apply Hfr; lia|]. by exists n, i.
  - apply dlq_rows_entries, Forall_forall. by intros x [? _]%list_elem_of_filter.
Qed.

Lemma wp_nack_batch_tx (e : env) (n : nat) t rs msg override
    (Q : BatchResult -> nat -> option channelTables -> Prop) (E : err -> Prop) :
  (forall d, faulty e -> E (ErrDriver d)) ->
  text_ok (truncateErrorMsg msg) = true -> channel_inv cfg t -> gen_fresh e n t ->
  NoDup (receiptMatchKey <$> rs) ->
  (forall us t' n', us ≡ₚ filter (fun u => is_Some (owned t u)) rs ->
     nacks cfg e override msg us t t' ->
     Q (mkBatchResult (filter (fun u => is_Some (owned t u)) rs)
         ((fun u => mkFailedReceipt u (miss t' u)) <$> filter (fun u => ~ is_Some (owned t u)) rs))
       n' (Some t')) ->
  wp e n (Some t) (nack_batch_tx cfg rs (truncateErrorMsg msg) override) Q E.
Proof.
  intros HF Ht Hi Hfr Hnd HQ. unfold nack_batch_tx, fetchBatchMessageStates. do 2 wp_step.
  set (hit := sql_select _ _ (ct_msgs t)).
  rewrite fetched_states; [|done|by intros [i r] [_ ?]%elem_of_sql_select]. wp_step.
  assert (Forall (fun x => row_wf cfg x.2) hit) as Hwf.
  { apply Forall_forall. intros [i r] [Hx _]%elem_of_sql_select. by apply (proj1 Hi i). }
  unfold processNackBatch. wp_step. apply wp_split_nack; [done|]. intros ps n1 Hn1 Hps.
  wp_step. apply wp_batchRetryMessages; [done..|]. intros n2 Hn2.
  assert (gen_fresh e n2 t) as Hfr2 by (apply gen_fresh_mono with n; [lia|done]).
  apply wp_batchMoveToDLQ; [done..| |done|].
  { apply Forall_fmap, Forall_forall. intros x [_ Hx]%list_elem_of_filter. cbn.
    rewrite Forall_forall in Hwf. destruct (Hwf x Hx) as (_ & ? & _). lia. }
  intros n3. destruct (nacks_batch e n2 override msg rs t ps Hfr2 Hnd Hps) as (us & Hus & Hnacks).
  eapply (wp_finishBatch _ _ _ rs _ (fun u => is_Some (owned t u))); [done| |].
  - intros u Hu. rewrite <-list_fmap_compose. by apply (matched_owned rs t u).
  - intros n4. by apply HQ with us.
Qed.

End batch_lemmas.

(** A batch ack of distinct receipts is the acks of its receipts. *)
Lemma wp_ack_batch_tx (e : env) (n : nat) t rs
    (Q : BatchResult -> nat -> option channelTables -> Prop) (E : err -> Prop) :
  (forall d, faulty e -> E (ErrDriver d)) -> NoDup (receiptMatchKey <$> rs) ->
  (forall n', Q (ack_each (e_now e) rs t).1 n' (Some (ack_each (e_now e) rs t).2)) ->
  wp e n (Some t) (ack_batch_tx rs) Q E.
Proof.
  intros HF Hnd HQ. unfold ack_batch_tx. do 2 wp_step.
  eapply (wp_finishBatch _ _ _ rs _ (fun u => is_Some (owned t u))); [done|..].
  - intros u Hu. by apply (matched_owned rs t u).
  - intros n'. specialize (HQ n'). rewrite (ack_each_spec _ _ _ Hnd) in HQ. cbn [fst snd] in HQ.
    eassert (_ = _) as Heq; [|rewrite Heq; exact HQ]. do 2 f_equal.
    apply list_fmap_ext. intros j u Hu%list_elem_of_lookup_2. f_equal.
    apply list_elem_of_filter in Hu as [Hu%eq_None_not_Some _].
    apply miss_complete with (e_now e); [done|]. cbn. rewrite sql_update_selected.
    destruct (ct_msgs t !! r_MessageID u) as [r|]; [|by left]. cbn.
    destruct (claimed _ _ r) eqn:Hc; [|by left]. right. exists r.
    by apply claimed_true in Hc as (c & _ & _ & ?).
Qed.

(** *** The methods *)

(** The frame of a channel batch: the checks, the metadata, the transaction. *)
Lemma iwp_channel_batch o w name meta ct rs (body : list Receipt -> tx channelTables BatchResult)
    (Q : BatchResult -> world -> Prop) :
  reliable o -> channel_at (w_db w) name meta ct -> Z.of_nat (length rs) <= MaxBatchSize ->
  (rs = [] -> Q empty_batch w) ->
  (forall i, rs <> [] -> wp (o i) 0 (Some ct) (body rs)
     (fun b _ s => exists ct', s = Some ct' /\
        forall w', w_db w' = put_channel meta ct' (w_db w) -> ran w w' i -> Q b w') (fun _ => False)) ->
  iwp o w
    (batch ← from_result (check_batch rs);
     match batch with
     | None => mret empty_batch
     | Some receipts =>
         queueMeta ← map_err (not_found_as ErrChannelNotFound)
                       (getQueueMetadata QueueTypeChannel name);
         withTx (on_channel (q_TableName queueMeta) (body receipts))
     end) Q (fun _ _ => False).
Proof.
  intros Hrel Hat Hlen H0 Hb.
  assert (forall x, ~ io_fault o x) as Hnf by (intros x; by apply reliable_no_fault).
  do 2 iwp_step. unfold check_batch, validateBatchSize.
  destruct rs as [|rc rs]; cbn [length Nat.eqb]; [iwp_step; by apply H0|].
  rewrite (proj2 (Z.ltb_ge _ _)) by done. cbn [mbind result_bind].
  do 2 iwp_step. apply iwp_getQueueMetadata.
  2: { intros w' Hl. destruct Hat. congruence. }
  2: { by intros x w' Hx%Hnf. }
  intros meta' w1 Hl Hf1. assert (meta' = meta) as -> by (destruct Hat; congruence).
  eapply iwp_withTx_channel; [done..|by intros x w' Hx%Hnf|].
  eapply wp_mono; [by apply Hb| |done]. by intros b n' s (ct' & -> & HQ).
Qed.

(** ** Properties *)

(** a batch ack of distinct receipts does in one statement what acking them
    one by one does: the same table, the receipts that owned their message
    reported as succeeded and the others as failed, in input order, each with the
    error its own ack would give. *)
Theorem ackChannelBatch_is_acks (o : oracle) (w : world) (name : string) (meta : queueMetadata)
    (ct : channelTables) (rs : list Receipt) :
  reliable o -> channel_at (w_db w) name meta ct ->
  Z.of_nat (length rs) <= MaxBatchSize -> NoDup (receiptMatchKey <$> rs) ->
  exists i w', let '(b, ct') := ack_each (e_now (o i)) rs ct in
    ackChannelBatch name rs o w = (Ok b, w') /\ (rs <> [] -> ran w w' i) /\
    w_db w' = put_channel meta ct' (w_db w).
Proof.
  intros Hrel Hat Hlen Hnd.
  assert (iwp o w (ackChannelBatch name rs)
    (fun b w' => exists i, (rs <> [] -> ran w w' i) /\ b = (ack_each (e_now (o i)) rs ct).1 /\
       w_db w' = put_channel meta (ack_each (e_now (o i)) rs ct).2 (w_db w))
    (fun _ _ => False)) as Hi.
  { apply (iwp_channel_batch o w name meta ct); [done..| |].
    - intros ->. exists 0%nat. split; [done|]. split; [done|]. cbn. by rewrite put_channel_same by (by destruct Hat).
    - intros i _. apply wp_ack_batch_tx; [intros d Hf; by apply (Hrel i)|done|].
      intros n'. eexists. split; [done|]. intros w' Hw Hi. by exists i. }
  unfold iwp in Hi. destruct (ackChannelBatch name rs o w) as [[b|x] w'] eqn:Heq; [|done].
  destruct Hi as (i & Hi & -> & Hw). exists i, w'. by destruct (ack_each _ rs ct).
Qed.

(** One live receipt, one stale, one of a message that is gone. *)
Lemma ackChannelBatch_is_acks_witness :
  let rs := [stale_receipt; sample_receipt; mkReceipt 9 9 "jobs" QueueTypeChannel ""] in
  exists w', ackChannelBatch "jobs" rs calm_oracle sample_world =
    (Ok (mkBatchResult [sample_receipt]
           [mkFailedReceipt stale_receipt ErrClaimExpired;
            mkFailedReceipt (mkReceipt 9 9 "jobs" QueueTypeChannel "") ErrMessageNotFound]), w').
Proof.
  intros rs. destruct (ackChannelBatch_is_acks calm_oracle sample_world "jobs" sample_meta
    sample_tables rs calm_oracle_reliable sample_at) as (i & w' & Hres).
  - vm_compute. discriminate.
  - repeat constructor; cbn; rewrite ?elem_of_cons, ?elem_of_nil; intros ?;
      repeat match goal with H : _ \/ _ |- _ => destruct H | H : _ = _ |- _ => discriminate H
                        | H : False |- _ => destruct H end.
  - destruct (ack_each (e_now (calm_oracle i)) rs sample_tables) as [b ct'] eqn:Hb.
    destruct Hres as [Heq _]. exists w'. rewrite Heq. f_equal. f_equal.
    vm_compute in Hb. injection Hb as <- _. reflexivity.
Defined.

(** C20: a batch nack of distinct receipts is the sequence of the single nacks of
    the receipts that own their message, in some order: each exhausted message is
    dead-lettered exactly once, each other one put back behind its own delay.
    Those receipts are reported as succeeded, the others as failed with the
    reason the resulting table gives; rows stay well formed and no message is
    lost. *)
Theorem nackChannelBatch_is_nacks `{Server} (cfg : queueConfig) (o : oracle) (w : world)
    (name : string) (meta : queueMetadata) (ct : channelTables) (rs : list Receipt) (msg : bytes)
    (opts : list NackOption) :
  reliable o -> channel_at (w_db w) name meta ct -> channel_inv cfg ct ->
  (forall m, gen_fresh (o m) 0 ct) -> forallb (fun b => negb (byte_val b =? 0)) msg = true ->
  Z.of_nat (length rs) <= MaxBatchSize -> NoDup (receiptMatchKey <$> rs) ->
  exists b w' i us ct', nackChannelBatch cfg name rs msg opts o w = (Ok b, w') /\
    (rs <> [] -> ran w w' i) /\
    w_db w' = put_channel meta ct' (w_db w) /\
    Succeeded b = filter (fun u => is_Some (owned ct u)) rs /\
    Failed b = (fun u => mkFailedReceipt u (miss ct' u)) <$>
                 filter (fun u => ~ is_Some (owned ct u)) rs /\
    us ≡ₚ Succeeded b /\ nacks cfg (o i) (resolveNackRetryDelay opts) msg us ct ct' /\
    channel_inv cfg ct' /\ conserves ct ct'.
Proof.
  intros Hrel Hat Hinv Hfr Hmsg Hlen Hnd.
  pose proof (truncateErrorMsg_text_ok msg Hmsg) as Htext.
  assert (iwp o w (nackChannelBatch cfg name rs msg opts)
    (fun b w' => exists i us ct', (rs <> [] -> ran w w' i) /\ w_db w' = put_channel meta ct' (w_db w) /\
       b = mkBatchResult (filter (fun u => is_Some (owned ct u)) rs)
         ((fun u => mkFailedReceipt u (miss ct' u)) <$> filter (fun u => ~ is_Some (owned ct u)) rs) /\
       us ≡ₚ Succeeded b /\ nacks cfg (o i) (resolveNackRetryDelay opts) msg us ct ct')
    (fun _ _ => False)) as Hi.
  { apply (iwp_channel_batch o w name meta ct); [done..| |].
    - intros ->. exists 0%nat, [], ct.
      split_and!; [done|by rewrite put_channel_same by (by destruct Hat)|done..|constructor].
    - intros i _. apply wp_nack_batch_tx; [|done|done|apply Hfr|done|].
      { intros d Hf. by apply (Hrel i). }
      intros us t' n' Hus Hn. exists t'. split; [done|]. intros w' Hw Hi. by exists i, us, t'. }
  unfold iwp in Hi. destruct (nackChannelBatch cfg name rs msg opts o w) as [[b|x] w'] eqn:Heq;
    [|done]. destruct Hi as (i & us & ct' & Hi & Hw & -> & Hus & Hn).
  destruct (nacks_ok cfg _ _ _ _ _ _ Hn Hinv Htext) as [? ?]. by eexists _, w', i, us, ct'.
Qed.

Lemma nackChannelBatch_is_nacks_witness :
  exists w' ct', nackChannelBatch (H := truncating_server) sample_cfg "jobs"
      [sample_receipt; stale_receipt; mkReceipt 2 77 "jobs" QueueTypeChannel ""] [Byte.x62] []
      calm_oracle sample_world =
    (Ok (mkBatchResult [sample_receipt; mkReceipt 2 77 "jobs" QueueTypeChannel ""]
           [mkFailedReceipt stale_receipt ErrClaimExpired]), w') /\
    size (ct_dlq ct') = 1%nat /\ w_db w' = put_channel sample_meta ct' sample_db /\
    conserves sample_tables ct'.
Proof.
  destruct (nackChannelBatch_is_nacks (H := truncating_server) sample_cfg calm_oracle sample_world
    "jobs" sample_meta sample_tables
    [sample_receipt; stale_receipt; mkReceipt 2 77 "jobs" QueueTypeChannel ""] [Byte.x62] []
    calm_oracle_reliable sample_at sample_inv ltac:(intros m; by apply calm_gen_fresh) eq_refl)
    as (b & w' & i & us & ct' & Heq & _ & Hw & _ & _ & _ & _ & _ & Hc).
  - vm_compute. discriminate.
  - repeat constructor; cbn; rewrite ?elem_of_cons, ?elem_of_nil; intros ?;
      repeat match goal with H : _ \/ _ |- _ => destruct H | H : _ = _ |- _ => discriminate H
                        | H : False |- _ => destruct H end.
  - exists w', ct'.
    assert ((nackChannelBatch (H := truncating_server) sample_cfg "jobs"
      [sample_receipt; stale_receipt; mkReceipt 2 77 "jobs" QueueTypeChannel ""] [Byte.x62] []
      calm_oracle sample_world).1 =
      Ok (mkBatchResult [sample_receipt; mkReceipt 2 77 "jobs" QueueTypeChannel ""]
           [mkFailedReceipt stale_receipt ErrClaimExpired])) as Hb by (vm_compute; reflexivity).
    assert ((fun c => size (ct_dlq c)) <$> db_channels (w_db (nackChannelBatch
      (H := truncating_server) sample_cfg "jobs"
      [sample_receipt; stale_receipt; mkReceipt 2 77 "jobs" QueueTypeChannel ""] [Byte.x62] []
      calm_oracle sample_world).2) !! "jobs"%string = Some 1%nat) as Hd by (vm_compute; reflexivity).
    rewrite Heq in Hb, Hd. cbn [fst snd] in Hb, Hd. rewrite Hw in Hd. cbn [put_channel set_channels
      db_channels q_TableName sample_meta] in Hd. rewrite lookup_insert_eq in Hd. cbn in Hd.
    injection Hb as ->. injection Hd as Hd. split; [exact Heq|]. split; [exact Hd|].
    split; [exact Hw|exact Hc].
Defined.
