(* ===== verification/BatchTopic.v ===== *)
(** * Batches of one subscriber ([batch.go])

    What [ackTopicBatch] and [nackTopicBatch] do to the tables of a topic: the
    statements of a batch amount to acknowledging, or negatively acknowledging, its
    receipts one after the other. *)

From S2P Require Import Prelude Types Tx Backoff Utf8 MetadataCache World Config Queries Channel Publish PubSub Batch.
From Stdlib Require Import ZArith Lia.
Local Open Scope Z_scope.

(** ** Specification vocabulary *)

(** Acking the receipts of a subscriber one by one, in order, at one instant. *)
Fixpoint ack_sub_each (now : timestamp) (sid : string) (rs : list Receipt) (t : topicTables) :
    BatchResult * topicTables :=
  match rs with
  | [] => (empty_batch, t)
  | rc :: rs =>
      match owned_sub t sid rc with
      | Some (k, s) =>
          let '(b, t') := ack_sub_each now sid rs (put_sub k (ack_sub now s) t) in
          (mkBatchResult (rc :: Succeeded b) (Failed b), t')
      | None =>
          let '(b, t') := ack_sub_each now sid rs t in
          (mkBatchResult (Succeeded b) (mkFailedReceipt rc (sub_miss t sid rc) :: Failed b), t')
      end
  end.

Section spec.
Context `{Server} (cfg : queueConfig).

(** Nacking one receipt that owns its subscription, under retry limit [mr]. *)
Definition nack_sub1 (e : env) (sid : string) (mr : Z) (override : Duration) (msg : bytes)
    (rc : Receipt) (t t' : topicTables) : Prop :=
  exists k s, owned_sub t sid rc = Some (k, s) /\
  ((mr < s_retry_count s + 1 /\
    exists n i m, tt_dlq t !! e_gen e n i = None /\ tt_msgs t !! s_message_id s = Some m /\
      t' = dead_letter_sub (e_now e) (e_gen e n i) k s m msg (s_retry_count s + 1) t) \/
   (s_retry_count s + 1 <= mr /\
    exists delay, retry_delay_ok (backoffPolicy cfg) (s_retry_count s + 1) override delay /\
      t' = put_sub k (pend_sub (s_retry_count s + 1) (e_now e + make_interval delay)
             (Some (truncateErrorMsg msg)) s) t)).

(** Nacking receipts one after the other. *)
Inductive sub_nacks (e : env) (sid : string) (mr : Z) (override : Duration) (msg : bytes) :
    list Receipt -> topicTables -> topicTables -> Prop :=
| sub_nacks_nil t : sub_nacks e sid mr override msg [] t t
| sub_nacks_cons rc rs t t1 t2 : nack_sub1 e sid mr override msg rc t t1 ->
    sub_nacks e sid mr override msg rs t1 t2 -> sub_nacks e sid mr override msg (rc :: rs) t t2.
End spec.

(** ** Lemmas *)

Section lookup.
Implicit Types (t : topicTables) (s : subRow) (rs us : list Receipt).

Lemma find_sub_iff t mid sid k s :
  topic_keys t -> find_sub t mid sid = Some (k, s) <->
    tt_subs t !! k = Some s /\ s_message_id s = mid /\ s_subscriber_id s = sid.
Proof.
  intros Hk. split; [by intros ?%find_sub_Some|]. intros (Hs & <- & <-). by apply find_sub_intro.
Qed.

Lemma owned_sub_iff t sid u k s :
  topic_keys t -> owned_sub t sid u = Some (k, s) <->
    tt_subs t !! k = Some s /\ s_message_id s = r_MessageID u /\ s_subscriber_id s = sid /\
    s_claim_id s = Some (r_ClaimID u) /\ s_status s = MessageStatusProcessing.
Proof.
  intros Hk. split; [apply owned_sub_Some|]. intros (Hs & Hm & Hsid & Hc & Hst).
  unfold owned_sub. rewrite (proj2 (find_sub_iff t _ _ k s Hk)) by done.
  unfold sub_owns. by rewrite Hc, Hst, !bool_decide_true.
Qed.

(** A lookup by message and subscriber, after a row was rewritten or removed. *)
Lemma find_sub_put t k s s' mid sid :
  topic_keys t -> tt_subs t !! k = Some s -> s_message_id s' = s_message_id s ->
  s_subscriber_id s' = s_subscriber_id s ->
  find_sub (put_sub k s' t) mid sid =
    if decide (s_message_id s = mid /\ s_subscriber_id s = sid) then Some (k, s') else find_sub t mid sid.
Proof.
  intros Hk Hs H1 H2. pose proof (put_sub_keys k s s' t Hk Hs H1 H2) as Hk'.
  case_decide as Hd.
  - apply find_sub_iff; [done|]. cbn. rewrite lookup_insert_eq, H1, H2. done.
  - apply option_eq. intros [j q]. rewrite !find_sub_iff by done. cbn. rewrite lookup_insert_Some.
    split; [intros ([[<- <-]|[_ ?]] & ? & ?); [|done]|intros (Hj & ? & ?)].
    + exfalso. apply Hd. by rewrite <-H1, <-H2.
    + split; [|done]. right. split; [|done]. intros <-. rewrite Hs in Hj. injection Hj as <-.
      by apply Hd.
Qed.

Lemma dead_letter_sub_keys now j k s m reason rc t :
  topic_keys t -> topic_keys (dead_letter_sub now j k s m reason rc t).
Proof.
  intros [Hfk Huq]. split; cbn.
  - intros i r [_ Hi]%lookup_delete_Some. by eapply Hfk.
  - intros i i' r r' [_ Hi]%lookup_delete_Some [_ Hi']%lookup_delete_Some. by eapply Huq.
Qed.

Lemma find_sub_dead t now j k s m reason rc mid sid :
  topic_keys t -> tt_subs t !! k = Some s -> ~ (s_message_id s = mid /\ s_subscriber_id s = sid) ->
  find_sub (dead_letter_sub now j k s m reason rc t) mid sid = find_sub t mid sid.
Proof.
  intros Hk Hs Hne. pose proof (dead_letter_sub_keys now j k s m reason rc t Hk) as Hk'.
  apply option_eq. intros [i q]. rewrite !find_sub_iff by done. cbn. rewrite lookup_delete_Some.
  split; [intros ([_ ?] & ?); done|]. intros (Hi & Hm & Hsid). split; [|done]. split; [|done].
  intros <-. rewrite Hs in Hi. injection Hi as <-. by apply Hne.
Qed.

Lemma owned_sub_put_ne t sid k s s' u :
  topic_keys t -> tt_subs t !! k = Some s -> s_message_id s' = s_message_id s ->
  s_subscriber_id s' = s_subscriber_id s -> r_MessageID u <> s_message_id s ->
  owned_sub (put_sub k s' t) sid u = owned_sub t sid u.
Proof.
  intros Hk Hs H1 H2 Hne. unfold owned_sub. rewrite (find_sub_put t k s s') by done.
  rewrite decide_False; [done|]. intros [? _]. congruence.
Qed.

Lemma owned_sub_dead_ne t sid now j k s m reason rc u :
  topic_keys t -> tt_subs t !! k = Some s -> r_MessageID u <> s_message_id s ->
  owned_sub (dead_letter_sub now j k s m reason rc t) sid u = owned_sub t sid u.
Proof.
  intros Hk Hs Hne. unfold owned_sub. rewrite find_sub_dead; [done|done|done|].
  intros [? _]. congruence.
Qed.

(** *** The rows a batch hits *)

Lemma sub_joins_true s u :
  sub_joins s u = true <->
  u.1 = s_message_id s /\ s_claim_id s = Some u.2 /\ s_status s = MessageStatusProcessing.
Proof.
  unfold sub_joins, sub_owns. rewrite !andb_true_iff, Z.eqb_eq, !bool_decide_eq_true. tauto.
Qed.

Lemma claimed_sub_true ps sid s :
  claimed_sub ps sid s = true <->
  s_subscriber_id s = sid /\
  exists c, (s_message_id s, c) ∈ ps /\ s_claim_id s = Some c /\ s_status s = MessageStatusProcessing.
Proof.
  unfold claimed_sub. rewrite andb_true_iff, bool_decide_eq_true, existsb_exists. split.
  - intros (? & [i c] & Hin & (Hi & Hc & Hs)%sub_joins_true). cbn in *. subst i. split; [done|].
    exists c. by rewrite list_elem_of_In.
  - intros (? & c & Hin & Hc & Hs). split; [done|]. exists (s_message_id s, c).
    rewrite sub_joins_true. by rewrite list_elem_of_In in Hin.
Qed.

Lemma claimed_sub_owned rs sid t k s :
  topic_keys t -> tt_subs t !! k = Some s ->
  claimed_sub (receiptsToIDClaimLiterals rs) sid s = true <->
  exists u, u ∈ rs /\ owned_sub t sid u = Some (k, s).
Proof.
  intros Hk Hs. rewrite claimed_sub_true. setoid_rewrite elem_of_literals.
  setoid_rewrite list_elem_of_fmap. split.
  - intros (Hsid & c & (u & [= Hm Hcl] & Hu) & Hc & Hst). exists u. split; [done|].
    apply owned_sub_iff; [done|]. by rewrite <-Hcl.
  - intros (u & Hu & (_ & Hm & Hsid & Hc & Hst)%owned_sub_Some). split; [done|].
    exists (r_ClaimID u). split; [|done]. exists u. unfold receiptMatchKey. by rewrite Hm.
Qed.

Lemma claimed_sub_literals rs sid s :
  claimed_sub (receiptsToIDClaimLiterals rs) sid s = claimed_sub (receiptMatchKey <$> rs) sid s.
Proof. apply eq_true_iff_eq. rewrite !claimed_sub_true. by setoid_rewrite elem_of_literals. Qed.
End lookup.

(** *** Acknowledgement *)

Section ack.
Implicit Types (t : topicTables) (s : subRow) (rs us : list Receipt).

(** The hit rows, as the statement of the batch selects them. *)
Definition hits (sid : string) rs t : list (Z * subRow) :=
  sql_select (fun _ => claimed_sub (receiptsToIDClaimLiterals rs) sid) (fun _ => 0) (tt_subs t).

Lemma sub_key_owned t sid u k s : owned_sub t sid u = Some (k, s) -> sub_key s = receiptMatchKey u.
Proof.
  intros (_ & Hm & _ & Hc & _)%owned_sub_Some. unfold sub_key, receiptMatchKey. by rewrite Hm, Hc.
Qed.

(** A receipt is matched exactly when it owns its subscription. *)
Lemma matched_sub_owned sid rs t u (l : list (Z * subRow)) :
  topic_keys t -> u ∈ rs ->
  (forall k s, (k, s) ∈ l <-> tt_subs t !! k = Some s /\
     claimed_sub (receiptsToIDClaimLiterals rs) sid s = true) ->
  receiptMatchKey u ∈ (list_to_set ((fun x => sub_key x.2) <$> l) : gset (Z * Z)) <->
  is_Some (owned_sub t sid u).
Proof.
  intros Hk Hu Hl. rewrite elem_of_list_to_set, list_elem_of_fmap. split.
  - intros ([k s] & Heq & [Hs Hc]%Hl). apply (claimed_sub_owned rs sid t k s Hk Hs) in Hc as (v & _ & Hv).
    pose proof Hv as (_ & Hm & Hsid & Hc & Hst)%owned_sub_Some. exists (k, s). apply owned_sub_iff; [done|].
    cbn in Heq. unfold receiptMatchKey, sub_key in Heq. injection Heq as Hm' Hc'. rewrite Hc in Hc'.
    cbn in Hc'. rewrite Hm', Hc'. done.
  - intros [[k s] Ho]. exists (k, s). split; [symmetry; by apply (sub_key_owned t sid u k)|].
    apply Hl. pose proof Ho as (Hs & _)%owned_sub_Some. split; [done|].
    apply (claimed_sub_owned rs sid t k s Hk Hs). by exists u.
Qed.

Lemma wp_finishTopicBatch (e : env) (n : nat) t (sid : string) rs (matched : gset (Z * Z)) (own : Receipt -> Prop)
    `{!forall u, Decision (own u)} (Q : BatchResult -> nat -> option topicTables -> Prop)
    (E : err -> Prop) :
  (forall d, faulty e -> E (ErrDriver d)) ->
  (forall u, u ∈ rs -> receiptMatchKey u ∈ matched <-> own u) ->
  (forall n', Q (mkBatchResult (filter own rs)
       ((fun u => mkFailedReceipt u (sub_miss t sid u)) <$> filter (fun u => ~ own u) rs)) n' (Some t)) ->
  wp e n (Some t) (finishBatch rs matched (classifyTopicBatchMisses sid)) Q E.
Proof.
  intros HF Hm HQ. unfold finishBatch.
  rewrite (filter_ext_in (fun u => receiptMatchKey u ∈ matched) own rs Hm).
  rewrite (filter_ext_in (fun u => receiptMatchKey u ∉ matched) (fun u => ~ own u) rs)
    by (intros u Hu; by rewrite Hm).
  wp_step. destruct (filter (fun u => ~ own u) rs) as [|u us] eqn:Hf; cbn [length Nat.ltb Nat.leb].
  - wp_step. wp_step. apply HQ.
  - unfold classifyTopicBatchMisses. apply wp_query; [done|]. wp_step. apply HQ.
Qed.

Lemma owned_sub_acked now t sid rc k s u :
  topic_keys t -> owned_sub t sid rc = Some (k, s) -> receiptMatchKey u <> receiptMatchKey rc ->
  is_Some (owned_sub (put_sub k (ack_sub now s) t) sid u) <-> is_Some (owned_sub t sid u).
Proof.
  intros Hk (Hs & Hm & Hsid & Hc & Hst)%owned_sub_Some Hne.
  destruct (decide (r_MessageID u = s_message_id s)) as [Heq|]; [|by rewrite owned_sub_put_ne with (s := s)].
  split; intros [[j q] Ho]; exfalso.
  - apply owned_sub_iff in Ho as (Hq & Hqm & Hqs & _ & Hqst); [|by apply put_sub_keys with s].
    cbn in Hq. rewrite lookup_insert_Some in Hq. destruct Hq as [[<- <-]|[Hjk Hq]]; [done|].
    apply Hjk. eapply (proj2 Hk); [exact Hs|exact Hq|congruence..].
  - apply owned_sub_Some in Ho as (Hq & Hqm & Hqs & Hqc & _).
    assert (k = j) as <- by (eapply (proj2 Hk); [exact Hs|exact Hq|congruence..]).
    rewrite Hs in Hq. injection Hq as <-. apply Hne. unfold receiptMatchKey. congruence.
Qed.

(** A receipt that owns nothing is told the same once rows others own are acked. *)
Lemma sub_miss_acked now t t' sid u :
  topic_keys t -> topic_keys t' -> owned_sub t sid u = None ->
  (forall k, tt_subs t' !! k = tt_subs t !! k \/
     exists s, tt_subs t !! k = Some s /\ s_status s = MessageStatusProcessing /\
       tt_subs t' !! k = Some (ack_sub now s)) ->
  sub_miss t' sid u = sub_miss t sid u.
Proof.
  intros Hk Hk' Hu Hsub. unfold sub_miss. destruct (find_sub t (r_MessageID u) sid) as [[k s]|] eqn:Hf.
  - pose proof Hf as (Hs & Hm & Hsid)%find_sub_Some. destruct (Hsub k) as [Heq|(q & Hq & Hst & Heq)].
    + rewrite (proj2 (find_sub_iff t' _ _ k s Hk')) by (rewrite Heq; done). done.
    + rewrite Hs in Hq. injection Hq as <-.
      rewrite (proj2 (find_sub_iff t' _ _ k (ack_sub now s) Hk')) by done. cbn.
      unfold classifyClaimState. cbn [negb]. destruct (s_claim_id s) as [c|] eqn:Hc; [|done].
      destruct (Z.eqb_spec c (r_ClaimID u)) as [->|]; [|done].
      exfalso. assert (owned_sub t sid u = Some (k, s)); [|congruence]. by apply owned_sub_iff.
  - rewrite (proj2 (find_sub_None t' _ _)); [done|]. intros k s Hs [Hm Hsid].
    rewrite find_sub_None in Hf. destruct (Hsub k) as [Heq|(q & Hq & _ & Heq)].
    + rewrite Heq in Hs. by apply (Hf k s).
    + rewrite Heq in Hs. injection Hs as <-. by apply (Hf k q Hq).
Qed.

(** Acking one by one rewrites the claimed rows and reports the owners. *)
Lemma ack_sub_each_spec now sid rs t m :
  topic_keys t -> NoDup (receiptMatchKey <$> rs) ->
  (forall k, m !! k = (fun s => if claimed_sub (receiptMatchKey <$> rs) sid s then ack_sub now s else s) <$>
     tt_subs t !! k) ->
  ack_sub_each now sid rs t =
    (mkBatchResult (filter (fun u => is_Some (owned_sub t sid u)) rs)
       ((fun u => mkFailedReceipt u (sub_miss t sid u)) <$> filter (fun u => ~ is_Some (owned_sub t sid u)) rs),
     set_tt_subs m t).
Proof.
  revert t m. induction rs as [|rc rs IH]; intros t m Hk Hnd Hlk.
  { cbn. f_equal. destruct t as [msgs subs dlq]. unfold set_tt_subs. cbn in *. f_equal.
    apply map_eq. intros i. rewrite Hlk. unfold claimed_sub. destruct (subs !! i); [|done]. cbn.
    by rewrite andb_false_r. }
  rewrite fmap_cons, NoDup_cons in Hnd. destruct Hnd as [Hrc Hnd]. cbn [ack_sub_each].
  assert (forall u, u ∈ rs -> receiptMatchKey u <> receiptMatchKey rc) as Hne.
  { intros u Hu Heq. apply Hrc. rewrite <-Heq. by apply list_elem_of_fmap_2. }
  assert (forall s, claimed_sub (receiptMatchKey <$> rc :: rs) sid s =
    (bool_decide (s_subscriber_id s = sid) && sub_joins s (receiptMatchKey rc)) ||
    claimed_sub (receiptMatchKey <$> rs) sid s) as Hcons.
  { intros s. unfold claimed_sub. rewrite fmap_cons. cbn [existsb]. by destruct (bool_decide _). }
  destruct (owned_sub t sid rc) as [[k s]|] eqn:Ho.
  - rewrite filter_cons_True by (rewrite Ho; eauto).
    rewrite filter_cons_False by (rewrite Ho; intros Hn; apply Hn; eauto).
    pose proof Ho as (Hs & Hm & Hsid & Hc & Hst)%owned_sub_Some.
    assert (topic_keys (put_sub k (ack_sub now s) t)) as Hk' by (by apply put_sub_keys with s).
    rewrite (IH _ m Hk' Hnd).
    + cbn [Succeeded Failed]. f_equal. f_equal.
      * f_equal. apply filter_ext_in. intros u Hu. by apply (owned_sub_acked now t sid rc k s); auto.
      * match goal with |- _ <$> filter ?P rs = _ =>
          rewrite (filter_ext_in P (fun u => ~ is_Some (owned_sub t sid u)) rs) end.
        2: { intros u Hu. by rewrite (owned_sub_acked now t sid rc k s) by auto. }
        apply list_fmap_ext. intros j u Hu%list_elem_of_lookup_2. f_equal.
        apply list_elem_of_filter in Hu as [Hu%eq_None_not_Some _].
        apply sub_miss_acked with now; [done..|]. intros i. cbn.
        destruct (decide (i = k)) as [->|]; [right; exists s; by rewrite lookup_insert_eq|
          left; by rewrite lookup_insert_ne].
    + intros i. rewrite Hlk. cbn. destruct (decide (i = k)) as [->|Hni].
      * rewrite lookup_insert_eq, Hs. cbn. rewrite Hcons, Hsid, bool_decide_true by done.
        rewrite (proj2 (sub_joins_true s (receiptMatchKey rc))) by (cbn; done). cbn. f_equal.
        destruct (claimed_sub _ sid (ack_sub now s)) eqn:Hcl; [|done].
        apply claimed_sub_true in Hcl as (_ & c & _ & _ & ?). done.
      * rewrite lookup_insert_ne by done. destruct (tt_subs t !! i) as [q|] eqn:Hq; [|done]. cbn.
        rewrite Hcons. destruct (bool_decide (s_subscriber_id q = sid) && _) eqn:Hj; [|done]. exfalso.
        apply andb_true_iff in Hj as [Hqs%bool_decide_eq_true (Hqm & _)%sub_joins_true]. cbn in Hqm.
        apply Hni. eapply (proj2 Hk); [exact Hq|exact Hs|congruence..].
  - rewrite filter_cons_False by (rewrite Ho; intros [? ?]; done).
    rewrite filter_cons_True by (rewrite Ho; intros [? ?]; done).
    rewrite (IH _ m Hk Hnd); [done|]. intros i. rewrite Hlk.
    destruct (tt_subs t !! i) as [q|] eqn:Hq; [|done]. cbn. rewrite Hcons.
    destruct (bool_decide (s_subscriber_id q = sid) && _) eqn:Hj; [|done]. exfalso.
    apply andb_true_iff in Hj as [Hqs%bool_decide_eq_true (Hqm & Hqc & Hqst)%sub_joins_true]. cbn in *.
    assert (owned_sub t sid rc = Some (i, q)); [|congruence]. by apply owned_sub_iff.
Qed.

(** The reason of a miss does not depend on the rows the batch acked. *)
Lemma acked_batch_miss now sid rs t u m :
  topic_keys t -> owned_sub t sid u = None ->
  (forall k, m !! k = (fun s => if claimed_sub (receiptMatchKey <$> rs) sid s then ack_sub now s else s) <$>
     tt_subs t !! k) ->
  sub_miss (set_tt_subs m t) sid u = sub_miss t sid u.
Proof.
  intros Hk Hu Hlk.
  assert (forall k, m !! k = tt_subs t !! k \/
    exists s, tt_subs t !! k = Some s /\ s_status s = MessageStatusProcessing /\ m !! k = Some (ack_sub now s))
    as Hm.
  { intros k. rewrite Hlk. destruct (tt_subs t !! k) as [s|]; [|by left]. cbn.
    destruct (claimed_sub _ sid s) eqn:Hc; [|by left]. right. exists s.
    by apply claimed_sub_true in Hc as (_ & c & _ & _ & ?). }
  apply sub_miss_acked with now; [done| |done|done]. destruct Hk as [Hfk Huq].
  assert (forall k s, m !! k = Some s -> exists s0, tt_subs t !! k = Some s0 /\
    s_message_id s = s_message_id s0 /\ s_subscriber_id s = s_subscriber_id s0) as Hm0.
  { intros k s Hs. destruct (Hm k) as [Heq|(s0 & Hs0 & _ & Heq)]; rewrite Heq in Hs; [by exists s|].
    injection Hs as <-. by exists s0. }
  split; cbn.
  - intros k s (s0 & Hs0 & -> & _)%Hm0. by eapply Hfk.
  - intros k k' s s' (s0 & Hs0 & -> & ->)%Hm0 (s0' & Hs0' & -> & ->)%Hm0. by eapply Huq.
Qed.
End ack.

(** *** Negative acknowledgement *)

Section nack.
Context `{Server} (cfg : queueConfig) (e : env) (sid : string) (mr : Z) (override : Duration) (msg : bytes).
Implicit Types (t : topicTables) (s : subRow) (rs us : list Receipt).
(** A subscription with its key and its message. *)
Abbreviation joined_row := (Z * subRow * topicRow)%type.
Implicit Types (y : joined_row) (l : list joined_row).

Definition row_mid y : Z := s_message_id y.1.2.
Definition exhausted_sub_row y : Prop := mr < s_retry_count y.1.2 + 1.
#[local] Instance exhausted_sub_row_dec y : Decision (exhausted_sub_row y).
Proof. unfold exhausted_sub_row. apply _. Defined.
Definition dead_sub_of y : batchDLQMessage :=
  mkBatchDLQMessage (row_mid y) (t_payload y.2) (s_retry_count y.1.2 + 1) (t_metadata y.2).
(** What a retried subscription is given. *)
Definition retry_ok y (p : Z * Duration) : Prop :=
  p.1 = row_mid y /\ s_retry_count y.1.2 + 1 <= mr /\
  retry_delay_ok (backoffPolicy cfg) (s_retry_count y.1.2 + 1) override p.2.

Lemma sub_nacks_app us1 us2 t t1 t2 :
  sub_nacks cfg e sid mr override msg us1 t t1 -> sub_nacks cfg e sid mr override msg us2 t1 t2 ->
  sub_nacks cfg e sid mr override msg (us1 ++ us2) t t2.
Proof. induction 1; [done|]. intros Hn. cbn. econstructor; [done|auto]. Qed.

Lemma pend_sub_wf s avail msg' :
  sub_wf mr s -> s_retry_count s + 1 <= mr -> sub_wf mr (pend_sub (s_retry_count s + 1) avail msg' s).
Proof. intros (_ & ? & ?) Hle. split; [done|]. cbn. lia. Qed.

Lemma nack_sub1_ok rc t t' :
  topic_inv mr t -> text_ok (truncateErrorMsg msg) = true -> nack_sub1 cfg e sid mr override msg rc t t' ->
  topic_inv mr t' /\ topic_conserves t t'.
Proof.
  intros Hi Ht (k & s & (Hk & _)%owned_sub_Some & Hcase).
  pose proof (proj1 (proj2 Hi) k s Hk) as Hs. pose proof Hs as (_ & ? & _).
  destruct Hcase as [(Hl & n & i & m & Hj & Hm & ->)|(Hl & delay & Hd & ->)].
  - split; [apply dead_letter_sub_inv; [done|lia|done]|by apply dead_letter_sub_conserves].
  - split; [|by eapply put_sub_conserves]. eapply put_sub_inv; [done..|]. by apply pend_sub_wf.
Qed.

Lemma sub_nacks_ok rs t t' :
  sub_nacks cfg e sid mr override msg rs t t' -> topic_inv mr t -> text_ok (truncateErrorMsg msg) = true ->
  topic_inv mr t' /\ topic_conserves t t'.
Proof.
  induction 1 as [t|rc rs t t1 t2 Hn _ IH]; intros Hi Ht; [split; [done|apply topic_conserves_refl]|].
  destruct (nack_sub1_ok _ _ _ Hi Ht Hn) as [Hi1 Hc1]. destruct (IH Hi1 Ht) as [? ?].
  split; [done|]. by eapply topic_conserves_trans.
Qed.

Lemma sub_nacks_keys rs t t' :
  sub_nacks cfg e sid mr override msg rs t t' -> topic_keys t -> topic_keys t'.
Proof.
  induction 1 as [t|rc rs t t1 t2 (k & s & (Hs & _)%owned_sub_Some & Hcase) _ IH]; [done|].
  intros Hk. apply IH. destruct Hcase as [(_ & n & i & m & _ & _ & ->)|(_ & d & _ & ->)].
  - by apply dead_letter_sub_keys.
  - by apply put_sub_keys with s.
Qed.

(** The table after the retry UPDATE, and after the dead-letter INSERT and DELETE. *)
Definition retry_row (delay : Duration) s : subRow :=
  pend_sub (s_retry_count s + 1) (e_now e + make_interval delay) (Some (truncateErrorMsg msg)) s.
Definition retried_subs (ps : list (Z * Duration)) t : topicTables :=
  set_tt_subs (sql_update_from (fun _ s => s_message_id s) ps
    (fun delay s => if bool_decide (s_subscriber_id s = sid) then retry_row delay s else s) (tt_subs t)) t.
Definition buried_subs (mids : list Z) (es : list (Z * dlqEntry)) t : topicTables :=
  mkTopicTables (tt_msgs t)
    (filter (fun x => ~ (s_message_id x.2 ∈ mids /\ s_subscriber_id x.2 = sid)) (tt_subs t))
    (sql_insert_many es (tt_dlq t)).1.

(** The receipts [us] own the rows [l], joined with their messages. *)
Definition sub_owners t l us : Prop :=
  Forall2 (fun y u => owned_sub t sid u = Some y.1 /\ tt_msgs t !! row_mid y = Some y.2) l us.

Lemma sub_owners_mono t t' l us :
  tt_msgs t' = tt_msgs t ->
  (forall u, r_MessageID u ∈ row_mid <$> l -> owned_sub t' sid u = owned_sub t sid u) ->
  sub_owners t l us -> sub_owners t' l us.
Proof.
  intros Hmsg Hm Ho. induction Ho as [|[[k s] m] u l us [Hu Hy] Ho IH]; constructor.
  - rewrite Hmsg. split; [|done]. rewrite Hm; [done|]. apply owned_sub_Some in Hu as (_ & Hid & _).
    rewrite fmap_cons, <-Hid. left.
  - apply IH. intros u' Hu'. apply Hm. by right.
Qed.

Lemma retried_subs_nil t : retried_subs [] t = t.
Proof.
  destruct t as [msgs subs dlq]. unfold retried_subs, set_tt_subs, sql_update_from. cbn. f_equal.
  apply map_eq. intros i. rewrite map_lookup_imap. by destruct (subs !! i).
Qed.

Lemma retried_subs_cons k s d ps t :
  topic_keys t -> tt_subs t !! k = Some s -> s_subscriber_id s = sid -> s_message_id s ∉ ps.*1 ->
  retried_subs ((s_message_id s, d) :: ps) t = retried_subs ps (put_sub k (retry_row d s) t).
Proof.
  intros Hk Hs Hsid Hps. unfold retried_subs, put_sub, set_tt_subs. cbn [tt_msgs tt_subs tt_dlq]. f_equal.
  apply map_eq. intros j. unfold sql_update_from. rewrite !map_lookup_imap.
  destruct (decide (j = k)) as [->|Hj].
  - rewrite lookup_insert_eq, Hs. cbn. rewrite lookup_insert_eq, bool_decide_true by done.
    change (s_message_id (retry_row d s)) with (s_message_id s).
    by rewrite not_elem_of_list_to_map_1 by done.
  - rewrite lookup_insert_ne by done. destruct (tt_subs t !! j) as [q|] eqn:Hq; [|done]. cbn.
    destruct (decide (s_message_id q = s_message_id s)) as [Heq|Hne].
    + rewrite Heq, lookup_insert_eq, not_elem_of_list_to_map_1 by done.
      rewrite bool_decide_false; [done|]. intros Hqs. apply Hj.
      eapply (proj2 Hk); [exact Hq|exact Hs|congruence..].
    + by rewrite lookup_insert_ne.
Qed.

(** Retrying leaves the receipts of the other messages as they were. *)
Lemma owned_sub_retried ps t u :
  topic_keys t -> topic_keys (retried_subs ps t) -> r_MessageID u ∉ ps.*1 ->
  owned_sub (retried_subs ps t) sid u = owned_sub t sid u.
Proof.
  intros Hk Hk' Hu. unfold owned_sub.
  assert (find_sub (retried_subs ps t) (r_MessageID u) sid = find_sub t (r_MessageID u) sid) as ->; [|done].
  apply option_eq. intros [j q]. rewrite !find_sub_iff by done. unfold retried_subs, sql_update_from.
  cbn [tt_subs set_tt_subs]. rewrite map_lookup_imap. destruct (tt_subs t !! j) as [s|] eqn:Hs; cbn; [|done].
  destruct (decide (s_message_id s = r_MessageID u)) as [Hm|Hm].
  - rewrite Hm, not_elem_of_list_to_map_1 by done. done.
  - split; intros ([= <-] & Hq & _); exfalso; apply Hm; [|done]. revert Hq. case_match; [|done].
    by case_bool_decide.
Qed.

Lemma sub_nacks_retried l us ps t :
  topic_keys t -> sub_owners t l us -> NoDup (row_mid <$> l) -> Forall2 retry_ok l ps ->
  sub_nacks cfg e sid mr override msg us t (retried_subs ps t).
Proof.
  intros Hk Ho. revert ps t Hk Ho. induction l as [|[[k s] m] l IH] in us |- *; intros ps t Hk Ho Hnd Hps.
  - inversion_clear Hps. inversion_clear Ho. rewrite retried_subs_nil. constructor.
  - apply Forall2_cons_inv_l in Hps as ([i d] & ps' & (Hid & Hl & Hd) & Hps & ->).
    apply Forall2_cons_inv_l in Ho as (u & us' & [Hu Hm] & Ho & ->). cbn in Hid, Hl, Hd, Hu, Hm. subst i.
    rewrite fmap_cons in Hnd. apply NoDup_cons in Hnd as [Hi Hnd]. pose proof Hu as (Hs & Hmid & Hsid & _)%owned_sub_Some.
    change (row_mid (k, s, m)) with (s_message_id s) in *.
    assert (s_message_id s ∉ ps'.*1) as Hps1.
    { intros (p & Hp & Hin)%list_elem_of_fmap. apply Hi.
      destruct (Forall2_in_r _ _ _ _ Hps Hin) as (z & Hz & Hpz & _).
      rewrite Hp, Hpz. by apply list_elem_of_fmap_2. }
    rewrite (retried_subs_cons k s) by done. apply sub_nacks_cons with (put_sub k (retry_row d s) t).
    { exists k, s. split; [done|]. right. split; [done|]. by exists d. }
    apply IH; [by apply put_sub_keys with s| |done|done].
    apply (sub_owners_mono t); [done| |exact Ho]. intros u' Hu'.
    apply owned_sub_put_ne with s; [done..|]. intros Heq. apply Hi. by rewrite <-Heq.
Qed.

Lemma buried_subs_nil t : buried_subs [] [] t = t.
Proof.
  destruct t as [msgs subs dlq]. unfold buried_subs. cbn. f_equal. apply map_filter_id.
  intros k s _ [Hin _]. by apply elem_of_nil in Hin.
Qed.

Lemma buried_subs_cons k s j (y : dlqEntry) mids es t :
  topic_keys t -> tt_subs t !! k = Some s -> s_subscriber_id s = sid -> tt_dlq t !! j = None ->
  buried_subs (s_message_id s :: mids) ((j, y) :: es) t =
    buried_subs mids es (mkTopicTables (tt_msgs t) (delete k (tt_subs t)) (<[j := y]> (tt_dlq t))).
Proof.
  intros Hk Hs Hsid Hj. unfold buried_subs. cbn [tt_msgs tt_subs tt_dlq]. f_equal.
  - apply map_eq. intros i. apply option_eq. intros q. rewrite !map_lookup_filter_Some. cbn.
    rewrite lookup_delete_Some. split.
    + intros [Hq Hn]. split; [|intros [Hin Hqs]; apply Hn; split; [by right|done]].
      split; [|done]. intros <-. rewrite Hs in Hq. injection Hq as <-. apply Hn. split; [left|done].
    + intros [[Hik Hq] Hn]. split; [done|]. intros [[Heq|Hin]%elem_of_cons Hqs]; [|by apply Hn].
      apply Hik. symmetry. eapply (proj2 Hk); [exact Hq|exact Hs|congruence..].
  - cbn [sql_insert_many]. rewrite Hj. by destruct (sql_insert_many es _).
Qed.

Lemma sub_nacks_buried l us es t :
  topic_keys t -> sub_owners t l us -> NoDup (row_mid <$> l) -> NoDup es.*1 ->
  (forall j, j ∈ es.*1 -> tt_dlq t !! j = None /\ exists n i, j = e_gen e n i) ->
  Forall2 (fun y x => exhausted_sub_row y /\
    x.2 = mkDlqEntry (row_mid y) (Some sid) (t_payload y.2) (truncateErrorMsg msg)
            (s_retry_count y.1.2 + 1) (e_now e) (t_metadata y.2)) l es ->
  sub_nacks cfg e sid mr override msg us t (buried_subs (row_mid <$> l) es t).
Proof.
  intros Hk Ho. revert es t Hk Ho. induction l as [|[[k s] m] l IH] in us |- *; intros es t Hk Ho Hnd Hek Hfr Hes.
  - inversion_clear Hes. inversion_clear Ho. cbn [fmap list_fmap]. rewrite buried_subs_nil. constructor.
  - apply Forall2_cons_inv_l in Hes as ([j x] & es' & (Hl & Hx) & Hes & ->).
    apply Forall2_cons_inv_l in Ho as (u & us' & [Hu Hm] & Ho & ->). cbn [fst snd] in Hl, Hx, Hu, Hm.
    rewrite fmap_cons in Hnd. apply NoDup_cons in Hnd as [Hi Hnd], Hek as [Hj Hek].
    pose proof Hu as (Hs & Hmid & Hsid & _)%owned_sub_Some.
    destruct (Hfr j ltac:(left)) as (Hdj & n & g & ->).
    change (row_mid (k, s, m)) with (s_message_id s) in *. rewrite fmap_cons.
    change (row_mid (k, s, m)) with (s_message_id s). rewrite (buried_subs_cons k s) by done.
    set (t1 := dead_letter_sub (e_now e) (e_gen e n g) k s m msg (s_retry_count s + 1) t).
    assert (mkTopicTables (tt_msgs t) (delete k (tt_subs t)) (<[e_gen e n g := x]> (tt_dlq t)) = t1) as ->.
    { unfold t1, dead_letter_sub. by rewrite Hx, Hsid. }
    apply sub_nacks_cons with t1.
    { exists k, s. split; [done|]. left. split; [done|]. by exists n, g, m. }
    apply IH; [| |done|done| |done].
    + by apply dead_letter_sub_keys.
    + apply (sub_owners_mono t); [done| |exact Ho]. intros u' Hu'. apply owned_sub_dead_ne; [done..|].
      intros Heq. apply Hi. by rewrite <-Heq.
    + intros j' Hj'. destruct (Hfr j' ltac:(by right)) as [? ?]. split; [|done].
      cbn. rewrite lookup_insert_ne; [done|]. by intros Heq; subst.
Qed.
(** *** The transaction *)

Lemma select_subs_perm (P : Z -> subRow -> bool) key t :
  select_subs P key t ≡ₚ sql_select P (fun _ => 0) (tt_subs t).
Proof. unfold select_subs, sql_select. by rewrite !merge_sort_Permutation. Qed.

(** Without repeated receipts, each claimed subscription is fetched once, with its message. *)
Lemma fetched_subs rs t (x : list (Z * subRow)) :
  topic_keys t -> NoDup (receiptMatchKey <$> rs) ->
  (forall k s, (k, s) ∈ x -> tt_subs t !! k = Some s /\
     claimed_sub (receiptsToIDClaimLiterals rs) sid s = true) ->
  exists l, l.*1 = x /\ Forall (fun y => tt_msgs t !! row_mid y = Some y.2) l /\
    (x ≫= (fun x => match tt_msgs t !! s_message_id x.2 with
       | Some m => (fun _ => sub_state (x.2, m)) <$>
           filter (fun u => sub_joins x.2 u = true) (receiptsToIDClaimLiterals rs)
       | None => []
       end)) = (fun y => sub_state (y.1.2, y.2)) <$> l.
Proof.
  intros Hk Hnd. induction x as [|[k s] x IH]; intros Hx; [by exists []|].
  destruct (Hx k s) as [Hs Hc]; [left|]. destruct IH as (l & <- & Hl & Heq).
  { intros k' s' Hin. apply Hx. by right. }
  destruct (proj1 Hk k s Hs) as [m Hm]. exists ((k, s, m) :: l). split; [done|].
  split; [by constructor|]. rewrite bind_cons, Heq. cbn [snd]. rewrite Hm.
  apply claimed_sub_true in Hc as (_ & c & Hin & Hcl & Hst).
  rewrite (filter_unique _ _ (s_message_id s, c)); [done| |done|].
  - unfold receiptsToIDClaimLiterals. by rewrite merge_sort_Permutation.
  - intros [i c'] _. rewrite sub_joins_true. cbn.
    split; [intros (-> & Hc' & _)|intros [= -> ->]; done]. congruence.
Qed.

Lemma wp_split_nack_subs n st l
    (Q : list (Z * Duration) * list batchDLQMessage -> nat -> option topicTables -> Prop) E :
  Forall (fun y => sub_wf mr y.1.2) l ->
  (forall ps n', (n <= n')%nat -> Forall2 retry_ok (filter (fun y => ~ exhausted_sub_row y) l) ps ->
     Q (ps, dead_sub_of <$> filter exhausted_sub_row l) n' st) ->
  wp e n st (split_nack_subs cfg ((fun y => sub_state (y.1.2, y.2)) <$> l) mr override) Q E.
Proof.
  revert n Q. induction l as [|[[k s] m] l IH]; intros n Q Hwf HQ.
  { cbn. wp_step. apply HQ; [done|constructor]. }
  apply Forall_cons in Hwf as [Hs Hwf]. cbn [fst snd] in Hs. destruct Hs as (_ & Hrc & Hmr).
  cbn [fmap list_fmap split_nack_subs].
  cbn [sub_state bu_messageID bu_retryCount bu_payload bu_metadata fst snd].
  rewrite wrap64_succ by lia. destruct (Z.ltb_spec mr (s_retry_count s + 1)) as [Hl|Hl].
  - wp_step. apply IH; [done|]. intros ps n' Hn Hps. wp_step.
    rewrite filter_cons_False in HQ by (intros Hx; by apply Hx).
    rewrite filter_cons_True in HQ by done. by apply HQ.
  - wp_step. apply wp_computeRetryDelay. intros d n1 Hn1 Hd. wp_step. apply IH; [done|].
    intros ps n' Hn Hps. wp_step.
    assert (~ exhausted_sub_row (k, s, m)) as Hx by (unfold exhausted_sub_row; cbn; lia).
    rewrite filter_cons_True in HQ by done. rewrite filter_cons_False in HQ by done.
    apply HQ; [lia|]. by constructor.
Qed.

Lemma wp_batchRetrySubscriptions n t ps (Q : unit -> nat -> option topicTables -> Prop) E :
  (forall d, faulty e -> E (ErrDriver d)) ->
  text_ok (truncateErrorMsg msg) = true -> topic_inv mr t ->
  (forall n', (n <= n')%nat -> Q tt n' (Some (retried_subs ps t))) ->
  wp e n (Some t) (if (0 <? length ps)%nat then batchRetrySubscriptions ps sid (truncateErrorMsg msg)
                   else mret tt) Q E.
Proof.
  intros HF Ht Hi HQ. destruct ps as [|p ps]; cbn [length Nat.ltb Nat.leb].
  { wp_step. specialize (HQ n ltac:(done)). by rewrite retried_subs_nil in HQ. }
  unfold batchRetrySubscriptions. wp_step. rewrite Ht. cbn [negb].
  destruct (existsb _ (p :: ps)) eqn:Hex; [|apply HQ; lia].
  apply existsb_exists in Hex as (q & _ & Hq). destruct (find_sub t q.1 sid) as [[k s]|] eqn:Hf; [|done].
  apply find_sub_Some in Hf as (Hs & _). apply Z.ltb_lt in Hq.
  destruct (proj1 (proj2 Hi) k s Hs) as (_ & ? & ?). lia.
Qed.

Lemma wp_batchMoveSubToDLQ n t (l : list batchDLQMessage) (Q : unit -> nat -> option topicTables -> Prop) E :
  (forall d, faulty e -> E (ErrDriver d)) ->
  text_ok (truncateErrorMsg msg) = true -> Forall (fun d => 0 <= bd_retryCount d) l ->
  dlq_gen_fresh e n t ->
  (forall n', Q tt n' (Some (buried_subs (bd_id <$> l)
                 (dlq_rows e n (Some sid) (truncateErrorMsg msg) l) t))) ->
  wp e n (Some t) (if (0 <? length l)%nat then batchMoveSubToDLQ sid l (truncateErrorMsg msg)
                   else mret tt) Q E.
Proof.
  intros HF Ht Hl [Hfr Hinj] HQ. destruct l as [|d l]; cbn [length Nat.ltb Nat.leb].
  { wp_step. specialize (HQ n). cbn [fmap list_fmap] in HQ.
    change (dlq_rows e n (Some sid) (truncateErrorMsg msg) []) with (@nil (Z * dlqEntry)) in HQ.
    by rewrite buried_subs_nil in HQ. }
  unfold batchMoveSubToDLQ. rewrite truncateErrorMsg_idem. do 2 wp_step.
  rewrite insert_dlq_ok; [|done|done|..].
  - wp_step. apply HQ.
  - intros i i' Hii. by apply Hinj in Hii as [_ ?].
  - intros i. by apply Hfr.
Qed.

Lemma dlq_sub_rows n l :
  Forall exhausted_sub_row l ->
  Forall2 (fun y x => exhausted_sub_row y /\
    x.2 = mkDlqEntry (row_mid y) (Some sid) (t_payload y.2) (truncateErrorMsg msg)
            (s_retry_count y.1.2 + 1) (e_now e) (t_metadata y.2)) l
    (dlq_rows e n (Some sid) (truncateErrorMsg msg) (dead_sub_of <$> l)).
Proof.
  intros Hl. apply Forall2_same_length_lookup. unfold dlq_rows. rewrite length_imap, length_fmap.
  split; [done|]. intros i y x Hy Hx. rewrite list_lookup_imap, list_lookup_fmap, Hy in Hx.
  cbn in Hx. injection Hx as <-. cbn. split; [|done]. by eapply Forall_lookup in Hl.
Qed.
(** The fetched rows of a batch of [rs]. *)
Definition fetched rs t l : Prop :=
  l.*1 ≡ₚ hits sid rs t /\ Forall (fun y => tt_msgs t !! row_mid y = Some y.2) l.

Lemma fetched_in rs t l k s m :
  fetched rs t l -> (k, s, m) ∈ l ->
  tt_subs t !! k = Some s /\ claimed_sub (receiptsToIDClaimLiterals rs) sid s = true /\
  tt_msgs t !! s_message_id s = Some m.
Proof.
  intros [Hp Hm] Hin. assert ((k, s) ∈ hits sid rs t) as [Hs Hc]%elem_of_sql_select.
  { rewrite <-Hp. by apply (list_elem_of_fmap_2 fst) in Hin. }
  split; [done|]. split; [done|]. rewrite Forall_forall in Hm. apply (Hm _ Hin).
Qed.

Lemma fetched_NoDup rs t l : topic_keys t -> fetched rs t l -> NoDup (row_mid <$> l).
Proof.
  intros Hk Hf. assert (NoDup l.*1.*1) as Hnd by (rewrite (proj1 Hf); apply NoDup_sql_select).
  apply NoDup_alt. intros i j mid. rewrite !list_lookup_fmap.
  destruct (l !! i) as [[[k s] m]|] eqn:Hi; [|done]. destruct (l !! j) as [[[k' s'] m']|] eqn:Hj; [|done].
  unfold row_mid. cbn. intros [= Hmid] [= Hmid'].
  destruct (fetched_in rs t l k s m Hf) as (Hs & Hc & _); [by eapply list_elem_of_lookup_2|].
  destruct (fetched_in rs t l k' s' m' Hf) as (Hs' & Hc' & _); [by eapply list_elem_of_lookup_2|].
  apply claimed_sub_true in Hc as [Hsid _], Hc' as [Hsid' _].
  assert (k = k') as <- by (eapply (proj2 Hk); [exact Hs|exact Hs'|congruence..]).
  eapply (NoDup_lookup l.*1.*1 i j k Hnd); rewrite !list_lookup_fmap; [by rewrite Hi|by rewrite Hj].
Qed.

Lemma sub_owners_perm rs t l us :
  topic_keys t -> NoDup (receiptMatchKey <$> rs) -> fetched rs t l -> sub_owners t l us ->
  (forall u, u ∈ us -> u ∈ rs) -> us ≡ₚ filter (fun u => is_Some (owned_sub t sid u)) rs.
Proof.
  intros Hk Hnd Hf Ho Hin. apply NoDup_Permutation.
  - apply (NoDup_fmap_1 r_MessageID). replace (r_MessageID <$> us) with (row_mid <$> l);
      [by eapply fetched_NoDup|]. clear Hf Hin.
    induction Ho as [|[[k s] m] u l us [(_ & Hm & _)%owned_sub_Some _] _ IH]; [done|].
    rewrite !fmap_cons. by f_equal.
  - by apply NoDup_filter, (NoDup_fmap_1 receiptMatchKey).
  - intros u. rewrite list_elem_of_filter. split.
    + intros Hu. split; [|by apply Hin]. destruct (Forall2_in_r _ _ _ _ Ho Hu) as (y & _ & Hy & _).
      by exists y.1.
    + intros [[[k s] Hu] Hr]. pose proof Hu as (Hs & _)%owned_sub_Some.
      assert ((k, s) ∈ l.*1) as (y & Hy & Hl)%list_elem_of_fmap.
      { rewrite (proj1 Hf). apply elem_of_sql_select. split; [done|].
        apply (claimed_sub_owned rs sid t k s Hk Hs). by exists u. }
      destruct (Forall2_in_l _ _ _ _ Ho Hl) as (v & Hv & Hvo & _). rewrite <-Hy in Hvo.
      assert (receiptMatchKey u = receiptMatchKey v) as Hkey
        by (by rewrite <-(sub_key_owned _ _ _ _ _ Hu), <-(sub_key_owned _ _ _ _ _ Hvo)).
      pose proof (Hin v Hv) as Hvr. apply list_elem_of_lookup in Hr as [i Hi], Hvr as [j Hj].
      assert (i = j) as ->; [|congruence].
      eapply (NoDup_lookup (receiptMatchKey <$> rs)); [done|rewrite list_lookup_fmap, Hi; done|].
      rewrite list_lookup_fmap, Hj. cbn. congruence.
Qed.

(** The two statements of a batch nack are the nacks of its live receipts. *)
Lemma sub_nacks_batch n rs t l ps :
  topic_keys t -> dlq_gen_fresh e n t -> NoDup (receiptMatchKey <$> rs) -> fetched rs t l ->
  Forall2 retry_ok (filter (fun y => ~ exhausted_sub_row y) l) ps ->
  let dead := dead_sub_of <$> filter exhausted_sub_row l in
  exists us, us ≡ₚ filter (fun u => is_Some (owned_sub t sid u)) rs /\
    sub_nacks cfg e sid mr override msg us t
      (buried_subs (bd_id <$> dead) (dlq_rows e n (Some sid) (truncateErrorMsg msg) dead)
         (retried_subs ps t)).
Proof.
  intros Hk [Hfr Hinj] Hnd Hf Hps dead.
  set (l1 := filter (fun y => ~ exhausted_sub_row y) l) in *. set (l2 := filter exhausted_sub_row l) in *.
  assert (l1 ++ l2 ≡ₚ l) as Hperm.
  { unfold l1, l2. rewrite (Permutation_app_comm _ (filter exhausted_sub_row l)).
    apply filter_app_complement. }
  assert (fetched rs t (l1 ++ l2)) as Hf12 by (destruct Hf as [Hp Hm]; split; by rewrite Hperm).
  destruct (Forall2_choose (fun y u => u ∈ rs /\ owned_sub t sid u = Some y.1 /\
    tt_msgs t !! row_mid y = Some y.2) (l1 ++ l2)) as [us Hus].
  { intros [[k s] m] Hin. destruct (fetched_in rs t _ k s m Hf12 Hin) as (Hs & Hc & Hm).
    apply (claimed_sub_owned rs sid t k s Hk Hs) in Hc as (u & Hu & Hou). by exists u. }
  assert (sub_owners t (l1 ++ l2) us) as Ho.
  { eapply Forall2_impl; [exact Hus|]. by intros y u [_ ?]. }
  exists us. split.
  { apply (sub_owners_perm rs t (l1 ++ l2)); [done..|].
    intros u Hu. destruct (Forall2_in_r _ _ _ _ Hus Hu) as (y & _ & ? & _). done. }
  pose proof (fetched_NoDup rs t _ Hk Hf12) as Hnd12.
  apply Forall2_app_inv_l in Ho as (us1 & us2 & Hus1 & Hus2 & ->).
  rewrite fmap_app, NoDup_app in Hnd12. destruct Hnd12 as (Hnd1 & Hdis & Hnd2).
  pose proof (sub_nacks_retried l1 us1 ps t Hk Hus1 Hnd1 Hps) as Hn1.
  eapply sub_nacks_app; [exact Hn1|].
  pose proof (sub_nacks_keys _ _ _ Hn1 Hk) as Hk1.
  unfold dead. rewrite <-list_fmap_compose. change (bd_id ∘ dead_sub_of) with row_mid.
  apply sub_nacks_buried; [done| |done|..].
  - apply (sub_owners_mono t); [done| |exact Hus2]. intros u Hu. apply owned_sub_retried; [done..|].
    intros (p & Hp & Hin)%list_elem_of_fmap.
    destruct (Forall2_in_r _ _ _ _ Hps Hin) as (y & Hy & Hpy & _).
    apply (Hdis (r_MessageID u)); [|done]. rewrite Hp, Hpy. by apply list_elem_of_fmap_2.
  - apply dlq_rows_NoDup. intros i i' Hii. by apply Hinj in Hii as [_ ?].
  - intros j (i & ->)%dlq_rows_keys. split; [apply Hfr; lia|]. by exists n, i.
  - apply dlq_sub_rows, Forall_forall. by intros y [? _]%list_elem_of_filter.
Qed.

Lemma wp_nack_topic_batch_tx (n : nat) t rs (Q : BatchResult -> nat -> option topicTables -> Prop)
    (E : err -> Prop) :
  (forall d, faulty e -> E (ErrDriver d)) ->
  text_ok (truncateErrorMsg msg) = true -> topic_inv mr t -> dlq_gen_fresh e n t ->
  NoDup (receiptMatchKey <$> rs) ->
  (forall us t' n', us ≡ₚ filter (fun u => is_Some (owned_sub t sid u)) rs ->
     sub_nacks cfg e sid mr override msg us t t' ->
     Q (mkBatchResult (filter (fun u => is_Some (owned_sub t sid u)) rs)
         ((fun u => mkFailedReceipt u (sub_miss t' sid u)) <$>
            filter (fun u => ~ is_Some (owned_sub t sid u)) rs)) n' (Some t')) ->
  wp e n (Some t) (nack_topic_batch_tx cfg sid rs mr (truncateErrorMsg msg) override) Q E.
Proof.
  intros HF Ht Hi Hfr Hnd HQ. pose proof (proj1 Hi) as Hk. unfold nack_topic_batch_tx, fetchBatchSubStates.
  do 2 wp_step. set (x := select_subs _ _ t).
  assert (forall k s, (k, s) ∈ x <-> tt_subs t !! k = Some s /\
    claimed_sub (receiptsToIDClaimLiterals rs) sid s = true) as Hx by (intros; apply elem_of_select_subs).
  destruct (fetched_subs rs t x Hk Hnd) as (l & Hlx & Hlm & ->); [by intros k s ?%Hx|]. wp_step.
  assert (fetched rs t l) as Hf by (split; [rewrite Hlx; apply select_subs_perm|done]).
  assert (Forall (fun y => sub_wf mr y.1.2) l) as Hwf.
  { apply Forall_forall. intros [[k s] m] (Hs & _)%(fetched_in rs t l k s m Hf).
    by apply (proj1 (proj2 Hi) k). }
  unfold processNackTopicBatch. wp_step. apply wp_split_nack_subs; [done|]. intros ps n1 Hn1 Hps.
  wp_step. apply wp_batchRetrySubscriptions; [done..|]. intros n2 Hn2.
  assert (dlq_gen_fresh e n2 t) as Hfr2 by (apply dlq_gen_fresh_mono with n; [lia|done]).
  apply wp_batchMoveSubToDLQ; [done..| |done|].
  { apply Forall_fmap, Forall_forall. intros y [_ Hy]%list_elem_of_filter. cbn.
    rewrite Forall_forall in Hwf. destruct (Hwf y Hy) as (_ & ? & _). lia. }
  intros n3. destruct (sub_nacks_batch n2 rs t l ps Hk Hfr2 Hnd Hf Hps) as (us & Hus & Hnacks).
  eapply (wp_finishTopicBatch _ _ _ _ rs _ (fun u => is_Some (owned_sub t sid u))); [done| |].
  - intros u Hu. rewrite <-list_fmap_compose.
    rewrite <-(matched_sub_owned sid rs t u l.*1 Hk Hu); [|by rewrite Hlx]. by rewrite <-list_fmap_compose.
  - intros n4. by apply HQ with us.
Qed.
End nack.

(** A batch ack of distinct receipts is the acks of its receipts. *)
Lemma hits_lookup now sid rs t k :
  sql_update_ids (hits sid rs t).*1 (ack_sub now) (tt_subs t) !! k =
  (fun s => if claimed_sub (receiptMatchKey <$> rs) sid s then ack_sub now s else s) <$> tt_subs t !! k.
Proof.
  unfold hits. rewrite sql_update_selected. destruct (tt_subs t !! k); [|done].
  cbn. by rewrite claimed_sub_literals.
Qed.

Lemma wp_ack_topic_batch_tx (e : env) (n : nat) t sid rs
    (Q : BatchResult -> nat -> option topicTables -> Prop) (E : err -> Prop) :
  (forall d, faulty e -> E (ErrDriver d)) -> topic_keys t -> NoDup (receiptMatchKey <$> rs) ->
  (forall n', Q (ack_sub_each (e_now e) sid rs t).1 n' (Some (ack_sub_each (e_now e) sid rs t).2)) ->
  wp e n (Some t) (ack_topic_batch_tx sid rs) Q E.
Proof.
  intros HF Hk Hnd HQ. unfold ack_topic_batch_tx. do 2 wp_step.
  eapply (wp_finishTopicBatch _ _ _ _ rs _ (fun u => is_Some (owned_sub t sid u))); [done|..].
  - intros u Hu. apply (matched_sub_owned sid rs t u (hits sid rs t) Hk Hu). intros k s.
    unfold hits. by rewrite elem_of_sql_select.
  - intros n'. specialize (HQ n').
    rewrite (ack_sub_each_spec _ _ _ _ _ Hk Hnd (hits_lookup (e_now e) sid rs t)) in HQ.
    cbn [fst snd] in HQ. eassert (_ = _) as Heq; [|rewrite Heq; exact HQ]. do 2 f_equal.
    apply list_fmap_ext. intros j u Hu%list_elem_of_lookup_2. f_equal.
    apply list_elem_of_filter in Hu as [Hu%eq_None_not_Some _].
    apply (acked_batch_miss (e_now e) sid rs t u); [done..|]. apply hits_lookup.
Qed.

(** *** The methods *)

Lemma put_topic_id meta t d : db_topics d !! q_TableName meta = Some t -> put_topic meta t d = d.
Proof. intros Ht. unfold put_topic. destruct d. cbn in *. by rewrite insert_id. Qed.

(** The frame of a topic batch: the checks, the metadata, the transaction. *)
Lemma iwp_topic_batch o w name sid meta t rs
    (body : queueMetadata -> list Receipt -> tx topicTables BatchResult) (Q : BatchResult -> world -> Prop) :
  reliable o -> topic_at (w_db w) name meta t -> validateSubscriberID sid = Ok tt ->
  Z.of_nat (length rs) <= MaxBatchSize -> (rs = [] -> Q empty_batch w) ->
  (forall i, rs <> [] -> wp (o i) 0 (Some t) (body meta rs)
     (fun b _ s => exists t', s = Some t' /\
        forall w', w_db w' = put_topic meta t' (w_db w) -> ran w w' i -> Q b w') (fun _ => False)) ->
  iwp o w
    (from_result (validateSubscriberID sid) ;;
     batch ← from_result (check_batch rs);
     match batch with
     | None => mret empty_batch
     | Some receipts =>
         queueMeta ← map_err (not_found_as ErrTopicNotFound) (getQueueMetadata QueueTypePubSub name);
         withTx (on_topic (q_TableName queueMeta) (body queueMeta receipts))
     end) Q (fun _ _ => False).
Proof.
  intros Hrel Hat Hsid Hlen H0 Hb.
  assert (forall x, ~ io_fault o x) as Hnf by (intros x; by apply reliable_no_fault).
  do 2 iwp_step. rewrite Hsid. do 2 iwp_step. unfold check_batch, validateBatchSize.
  destruct rs as [|rc rs]; cbn [length Nat.eqb]; [iwp_step; by apply H0|].
  rewrite (proj2 (Z.ltb_ge _ _)) by done. cbn [mbind result_bind].
  iwp_step. eapply iwp_topic_meta; [done..|]. intros w1 Hf1.
  eapply iwp_withTx_topic; [done..|by intros x w' Hx%Hnf|].
  eapply wp_mono; [by apply Hb| |done]. by intros b n' s (t' & -> & HQ).
Qed.

(** ** Properties *)

(** a batch ack of one subscriber's distinct receipts does in one statement what
    acking them one by one does: the same table, the receipts that owned their
    subscription reported as succeeded and the others as failed, in input order, each
    with the error its own ack would give; no other subscriber's copy changes. *)
Theorem ackTopicBatch_is_acks (o : oracle) (w : world) (name sid : string) (meta : queueMetadata)
    (t : topicTables) (rs : list Receipt) :
  reliable o -> topic_at (w_db w) name meta t -> topic_keys t -> validateSubscriberID sid = Ok tt ->
  Z.of_nat (length rs) <= MaxBatchSize -> NoDup (receiptMatchKey <$> rs) ->
  exists i w', let '(b, t') := ack_sub_each (e_now (o i)) sid rs t in
    ackTopicBatch name sid rs o w = (Ok b, w') /\ (rs <> [] -> ran w w' i) /\
    w_db w' = put_topic meta t' (w_db w) /\
    forall k s, tt_subs t !! k = Some s -> s_subscriber_id s <> sid -> tt_subs t' !! k = Some s.
Proof.
  intros Hrel Hat Hk Hsid Hlen Hnd.
  assert (iwp o w (ackTopicBatch name sid rs)
    (fun b w' => exists i, (rs <> [] -> ran w w' i) /\ b = (ack_sub_each (e_now (o i)) sid rs t).1 /\
       w_db w' = put_topic meta (ack_sub_each (e_now (o i)) sid rs t).2 (w_db w))
    (fun _ _ => False)) as Hi.
  { apply (iwp_topic_batch o w name sid meta t rs (fun _ => ack_topic_batch_tx sid)); [done..| |].
    - intros ->. exists 0%nat. split; [done|]. split; [done|]. cbn. by rewrite put_topic_id by (by destruct Hat).
    - intros i _. apply wp_ack_topic_batch_tx; [intros d Hf; by apply (Hrel i)|done|done|].
      intros n'. eexists. split; [done|]. intros w' Hw Hi. by exists i. }
  unfold iwp in Hi. destruct (ackTopicBatch name sid rs o w) as [[b|x] w'] eqn:Heq; [|done].
  destruct Hi as (i & Hi & -> & Hw). exists i, w'.
  rewrite (ack_sub_each_spec _ _ _ _ _ Hk Hnd (hits_lookup (e_now (o i)) sid rs t)) in Hw |- *.
  do 3 (split; [done|]). intros k s Hs Hne. cbn. rewrite hits_lookup, Hs. cbn. unfold claimed_sub. by rewrite bool_decide_false.
Qed.

(** Alice acks her live copy with a stale receipt beside it. *)
Lemma ackTopicBatch_is_acks_witness :
  let rs := [mkReceipt 5 78 "news" QueueTypePubSub "alice"; alice_receipt] in
  exists w', ackTopicBatch "news" "alice" rs calm_oracle sample_topic_world =
    (Ok (mkBatchResult [alice_receipt]
           [mkFailedReceipt (mkReceipt 5 78 "news" QueueTypePubSub "alice") ErrClaimExpired]), w').
Proof.
  intros rs. destruct (ackTopicBatch_is_acks calm_oracle sample_topic_world "news" "alice" sample_topic_meta
    sample_topic_tables rs calm_oracle_reliable sample_topic_at (proj1 sample_topic_inv) eq_refl)
    as (i & w' & Hres).
  - vm_compute. discriminate.
  - apply NoDup_cons. split; [|apply NoDup_singleton]. cbn. rewrite list_elem_of_singleton. discriminate.
  - destruct (ack_sub_each (e_now (calm_oracle i)) "alice" rs sample_topic_tables) as [b t'] eqn:Hb.
    destruct Hres as [Heq _]. exists w'. rewrite Heq. f_equal. f_equal.
    vm_compute in Hb. injection Hb as <- _. reflexivity.
Defined.

(** C21: a batch nack of one subscriber's distinct receipts is the sequence of the
    single nacks of the receipts that own their subscription, in some order: each
    exhausted copy is dead-lettered exactly once for its subscriber, each other one
    put back behind its own delay.  Those receipts are reported as succeeded, the
    others as failed with the reason the resulting table gives; the topic stays well
    formed and no message or copy is lost. *)
Theorem nackTopicBatch_is_nacks `{Server} (cfg : queueConfig) (o : oracle) (w : world)
    (name sid : string) (meta : queueMetadata) (t : topicTables) (rs : list Receipt) (msg : bytes)
    (opts : list NackOption) :
  let mr := resolveMaxRetries cfg meta in
  reliable o -> topic_at (w_db w) name meta t -> topic_inv mr t -> validateSubscriberID sid = Ok tt ->
  (forall i, dlq_gen_fresh (o i) 0 t) -> forallb (fun b => negb (byte_val b =? 0)) msg = true ->
  Z.of_nat (length rs) <= MaxBatchSize -> NoDup (receiptMatchKey <$> rs) ->
  exists b w' i us t', nackTopicBatch cfg name sid rs msg opts o w = (Ok b, w') /\
    (rs <> [] -> ran w w' i) /\ w_db w' = put_topic meta t' (w_db w) /\
    Succeeded b = filter (fun u => is_Some (owned_sub t sid u)) rs /\
    Failed b = (fun u => mkFailedReceipt u (sub_miss t' sid u)) <$>
                 filter (fun u => ~ is_Some (owned_sub t sid u)) rs /\
    us ≡ₚ Succeeded b /\ sub_nacks cfg (o i) sid mr (resolveNackRetryDelay opts) msg us t t' /\
    topic_inv mr t' /\ topic_conserves t t'.
Proof.
  intros mr Hrel Hat Hinv Hsid Hfr Hmsg Hlen Hnd.
  pose proof (truncateErrorMsg_text_ok msg Hmsg) as Htext.
  assert (iwp o w (nackTopicBatch cfg name sid rs msg opts)
    (fun b w' => exists i us t', (rs <> [] -> ran w w' i) /\ w_db w' = put_topic meta t' (w_db w) /\
       b = mkBatchResult (filter (fun u => is_Some (owned_sub t sid u)) rs)
         ((fun u => mkFailedReceipt u (sub_miss t' sid u)) <$>
            filter (fun u => ~ is_Some (owned_sub t sid u)) rs) /\
       us ≡ₚ Succeeded b /\ sub_nacks cfg (o i) sid mr (resolveNackRetryDelay opts) msg us t t')
    (fun _ _ => False)) as Hi.
  { unfold nackTopicBatch. apply (iwp_topic_batch o w name sid meta t rs (fun meta rs => nack_topic_batch_tx cfg sid rs
      (resolveMaxRetries cfg meta) (truncateErrorMsg msg) (resolveNackRetryDelay opts))); [done..| |].
    - intros ->. exists 0%nat, [], t. split; [done|]. split; [by rewrite put_topic_id by (by destruct Hat)|].
      split; [done|]. split; [done|constructor].
    - intros i _. apply wp_nack_topic_batch_tx; [|done|done|apply Hfr|done|].
      { intros d Hf. by apply (Hrel i). }
      intros us t' n' Hus Hn. exists t'. split; [done|]. intros w' Hw Hi. by exists i, us, t'. }
  unfold iwp in Hi. destruct (nackTopicBatch cfg name sid rs msg opts o w) as [[b|x] w'] eqn:Heq; [|done].
  destruct Hi as (i & us & t' & Hi & Hw & -> & Hus & Hn).
  destruct (sub_nacks_ok cfg _ _ _ _ _ _ _ _ Hn Hinv Htext) as [? ?]. by eexists _, w', i, us, t'.
Qed.

Lemma nackTopicBatch_is_nacks_witness :
  exists b w' t', nackTopicBatch (H := truncating_server) sample_cfg "news" "alice" [alice_receipt]
      [Byte.x62] [] calm_oracle sample_topic_world = (Ok b, w') /\
    Succeeded b = filter (fun u => is_Some (owned_sub sample_topic_tables "alice" u)) [alice_receipt] /\
    topic_conserves sample_topic_tables t' /\ w_db w' = put_topic sample_topic_meta t' (w_db sample_topic_world).
Proof.
  destruct (nackTopicBatch_is_nacks (H := truncating_server) sample_cfg calm_oracle sample_topic_world
    "news" "alice" sample_topic_meta sample_topic_tables [alice_receipt] [Byte.x62] []
    calm_oracle_reliable sample_topic_at sample_topic_inv eq_refl
    ltac:(intros i; by apply calm_dlq_fresh) eq_refl) as (b & w' & i & us & t' & Heq & _ & Hw & Hs & _ & _ & _ & _ & Hc).
  - vm_compute. discriminate.
  - apply NoDup_singleton.
  - exists b, w', t'. split; [exact Heq|]. split; [exact Hs|]. split; [exact Hc|exact Hw].
Defined.
