(* ===== verification/Contract.v ===== *)
(** * The delivery contract

    What a queue promises, whatever implements it: the tables of a channel
    ([Lifecycle]), of a topic ([TopicLifecycle]) or the maps of the test double
    ([FakeLifecycle]).  A history is a log of the rows that were put on the queue and of
    the deliveries and acknowledgements that went through; [honoured] says which
    histories are allowed.  [contract_step] is the machine that produces them, on rows
    seen through a [view]; an implementation shows that its own steps are steps of this
    machine ([Implements]), and its histories are then honoured.  The rows are keyed by
    [K]: the message for a channel, message and subscriber for a topic. *)

From S2P Require Import Prelude Types Tx World GcChannel.
From Stdlib Require Import ZArith Lia.
Local Open Scope Z_scope.

(** ** Committed transactions *)

(** [body] commits in a transaction of its own with result [a], and [t] becomes [t']. *)
Definition commits_in {T A} (e : env) (body : tx T A) (t : T) (a : A) (t' : T) : Prop :=
  exists n, body e 0%nat (Some t) = TOk a n (Some t').

Lemma commits_wp {T A} e (body : tx T A) t a t' (Q : A -> T -> Prop) :
  commits_in e body t a t' ->
  wp e 0 (Some t) body (fun a _ x => match x with Some t => Q a t | None => False end)
    (fun _ => True) ->
  Q a t'.
Proof. intros [n Hc] Hw. by apply (wp_run _ _ _ _ _ _ _ Hw Hc). Qed.

(** ** Histories, newest event first *)

(** [Opened i n]: row [i] was published, or put back by a replay, with [n] retries. *)
Inductive event (K : Type) :=
| Opened (i : K) (limit : Z)
| Delivered (i : K) (claim : uuid)
| Acked (i : K) (claim : uuid).
Arguments Opened {K} i limit.
Arguments Delivered {K} i claim.
Arguments Acked {K} i claim.

Section contract.
Context {K : Type} `{EqDecision K}.
Implicit Types (i : K) (l : list (event K)).

(** The retry limit row [i] was last put on the queue with. *)
Fixpoint opened (i : K) (l : list (event K)) : option Z :=
  match l with
  | [] => None
  | Opened j n :: l => if decide (j = i) then Some n else opened i l
  | _ :: l => opened i l
  end.

(** How often row [i] was handed out since. *)
Fixpoint deliveries (i : K) (l : list (event K)) : Z :=
  match l with
  | [] => 0
  | Opened j _ :: l => if decide (j = i) then 0 else deliveries i l
  | Delivered j _ :: l => (if decide (j = i) then 1 else 0) + deliveries i l
  | Acked _ _ :: l => deliveries i l
  end.

(** The claim of the latest of these deliveries. *)
Fixpoint last_claim (i : K) (l : list (event K)) : option uuid :=
  match l with
  | [] => None
  | Opened j _ :: l => if decide (j = i) then None else last_claim i l
  | Delivered j c :: l => if decide (j = i) then Some c else last_claim i l
  | Acked _ _ :: l => last_claim i l
  end.

(** Whether the row was acknowledged since. *)
Fixpoint acked (i : K) (l : list (event K)) : bool :=
  match l with
  | [] => false
  | Opened j _ :: l => if decide (j = i) then false else acked i l
  | Delivered _ _ :: l => acked i l
  | Acked j _ :: l => if decide (j = i) then true else acked i l
  end.

(** All claims ever handed out. *)
Fixpoint claims (l : list (event K)) : list uuid :=
  match l with
  | [] => []
  | Delivered _ c :: l => c :: claims l
  | _ :: l => claims l
  end.

(** A row is delivered only while it is on the queue and not acknowledged, at most
    once more than its retry limit, and each time under a claim of its own; it is
    acknowledged at most once, under the claim of its latest delivery. *)
Fixpoint honoured (l : list (event K)) : Prop :=
  match l with
  | [] => True
  | Opened _ _ :: l => honoured l
  | Delivered i c :: l =>
      (exists n, opened i l = Some n /\ deliveries i l <= n) /\ acked i l = false /\
      c ∉ claims l /\ honoured l
  | Acked i c :: l => last_claim i l = Some c /\ acked i l = false /\ honoured l
  end.

(** Rows put on the queue, and acknowledged, in one transaction; [row] is the row a
    receipt names. *)
Definition opens (os : list (K * Z)) : list (event K) := (fun x => Opened x.1 x.2) <$> os.
Definition log_acks (row : Receipt -> K) (rs : list Receipt) (l : list (event K)) : list (event K) :=
  foldl (fun l r => Acked (row r) (r_ClaimID r) :: l) l rs.

(** An honoured history counts at most limit + 1 deliveries. *)
Lemma honoured_bounded l i n :
  honoured l -> opened i l = Some n -> 0 <= n -> deliveries i l <= n + 1.
Proof.
  induction l as [|[j m|j c|j c] l IH]; cbn; [done|..].
  - case_decide; [intros _ [= ->]; lia|auto].
  - intros ((m & Hm & Hd) & _ & _ & Hl) Ho Hn. case_decide; [subst j|by apply IH].
    rewrite Ho in Hm. injection Hm as <-. lia.
  - intros (_ & _ & Hl). by apply IH.
Qed.

Lemma opens_claims os l : claims (opens os ++ l) = claims l.
Proof. induction os; cbn; auto. Qed.
Lemma opens_honoured os l : honoured l -> honoured (opens os ++ l).
Proof. induction os; cbn; auto. Qed.
Lemma log_acks_claims row rs l : claims (log_acks row rs l) = claims l.
Proof. unfold log_acks. revert l. induction rs as [|r rs IH]; intros l; cbn; [done|]. by rewrite IH. Qed.

(** What a row put on the queue starts from, and what the others keep. *)
Lemma opens_in os l i :
  i ∈ os.*1 -> (exists n, (i, n) ∈ os /\ opened i (opens os ++ l) = Some n) /\
    deliveries i (opens os ++ l) = 0 /\ acked i (opens os ++ l) = false.
Proof.
  induction os as [|[j n] os IH]; cbn; [by intros ?%elem_of_nil|]. intros Hi.
  case_decide as Hj; [subst j; split_and!; [exists n; split; [left|]; done|done..]|].
  apply elem_of_cons in Hi as [->|Hi]; [done|]. destruct (IH Hi) as ((m & Hm & Ho) & Hd & Ha).
  split_and!; [exists m; split; [by right|done]|done..].
Qed.
Lemma opens_out os l i :
  i ∉ os.*1 -> opened i (opens os ++ l) = opened i l /\ deliveries i (opens os ++ l) = deliveries i l /\
    last_claim i (opens os ++ l) = last_claim i l /\ acked i (opens os ++ l) = acked i l.
Proof.
  induction os as [|[j n] os IH]; cbn; [done|]. intros [Hj Hi]%not_elem_of_cons.
  rewrite !(decide_False (P := j = i)) by done. by apply IH.
Qed.

(** ** Rows *)

Inductive phase := Waiting | InFlight | Settled.
#[global] Instance phase_eq_dec : EqDecision phase.
Proof. solve_decision. Defined.

Definition phase_of (s : MessageStatus) : phase :=
  match s with
  | MessageStatusPending => Waiting
  | MessageStatusProcessing => InFlight
  | MessageStatusCompleted | MessageStatusAcked => Settled
  end.

Record view := mkView {
  v_phase : phase;
  v_retry : Z;
  v_claim : option uuid;
  v_limit : Z
}.
Implicit Types (V : K -> option view) (v : view).

(** Handing out the row is attempt [rc]: the one a waiting row counts, or the next
    when the delivery in flight is given up. *)
Definition attempt v (rc : Z) : Prop :=
  (v_phase v = Waiting /\ rc = v_retry v) \/ (v_phase v = InFlight /\ rc = v_retry v + 1).

(** Rows stay as they are, or go from in flight back to waiting with one more attempt
    counted, or go away (dead-lettered, or past their retention). *)
Definition settled1 v v' : Prop :=
  v_limit v' = v_limit v /\
  ((v_phase v' = v_phase v /\ v_retry v' = v_retry v /\ v_claim v' = v_claim v) \/
   (v_phase v = InFlight /\ v_phase v' = Waiting /\ v_retry v' = v_retry v + 1)).
Definition settles V V' : Prop :=
  forall i v', V' i = Some v' -> exists v, V i = Some v /\ settled1 v v'.

(** ** The machine *)

Inductive contract_step : (K -> option view) * list (event K) -> (K -> option view) * list (event K) -> Prop :=
| contract_open V V' l os :               (* publish and replay; never a row in flight *)
    (forall i n n', (i, n) ∈ os -> (i, n') ∈ os -> n = n') ->
    (forall i v, i ∈ os.*1 -> V i = Some v -> v_phase v <> InFlight) ->
    (forall i v, V' i = Some v -> (exists n, (i, n) ∈ os /\ v = mkView Waiting 0 None n) \/
       (i ∉ os.*1 /\ V i = Some v)) ->
    contract_step (V, l) (V', opens os ++ l)
| contract_deliver V V' l i v rc c :
    V i = Some v -> attempt v rc -> rc <= v_limit v -> c ∉ claims l ->
    (forall j v', V' j = Some v' -> (j = i /\ v' = mkView InFlight rc (Some c) (v_limit v)) \/
       (j <> i /\ V j = Some v')) ->
    contract_step (V, l) (V', Delivered i c :: l)
| contract_ack V V' l i v c :
    V i = Some v -> v_phase v = InFlight -> v_claim v = Some c ->
    (forall j v', V' j = Some v' ->
       (j = i /\ v_phase v' = Settled /\ v_retry v' = v_retry v /\ v_limit v' = v_limit v) \/
       (j <> i /\ V j = Some v')) ->
    contract_step (V, l) (V', Acked i c :: l)
| contract_settle V V' l :
    settles V V' -> contract_step (V, l) (V', l).

(** What the history says of a row that is still there. *)
Definition row_log l i v : Prop :=
  opened i l = Some (v_limit v) /\
  deliveries i l <= v_retry v + (if decide (v_phase v = Waiting) then 0 else 1) /\
  (v_phase v = InFlight -> v_claim v = last_claim i l) /\
  (v_phase v <> Settled -> acked i l = false).

Definition contract_inv (x : (K -> option view) * list (event K)) : Prop :=
  (forall i v, x.1 i = Some v -> row_log x.2 i v) /\ honoured x.2.

Lemma settled1_refl v : settled1 v v.
Proof. split; [done|by left]. Qed.

Lemma settles_refl V : settles V V.
Proof. intros i v Hi. exists v. split; [done|apply settled1_refl]. Qed.

Lemma settles_trans V1 V2 V3 : settles V1 V2 -> settles V2 V3 -> settles V1 V3.
Proof.
  intros H1 H2 i v3 Hi. destruct (H2 i v3 Hi) as (v2 & Hi2 & Hm2 & Hc2).
  destruct (H1 i v2 Hi2) as (v1 & Hi1 & Hm1 & Hc1). exists v1. split; [done|]. split; [congruence|].
  destruct Hc2 as [(Ha & Hb & Hc)|(Ha & Hb & Hc)], Hc1 as [(Hd & He & Hf)|(Hd & He & Hf)];
    try congruence; [left|right|right]; split_and!; congruence.
Qed.

(** An event of another row does not change what is known of a row. *)
Lemma row_log_deliver_other j c l i v : j <> i -> row_log l i v -> row_log (Delivered j c :: l) i v.
Proof. intros Hne Hr. unfold row_log. cbn. by rewrite !(decide_False (P := j = i)) by done. Qed.
Lemma row_log_ack_other j c l i v : j <> i -> row_log l i v -> row_log (Acked j c :: l) i v.
Proof. intros Hne Hr. unfold row_log. cbn. by rewrite !(decide_False (P := j = i)) by done. Qed.

Lemma attempt_bound v rc d :
  d <= v_retry v + (if decide (v_phase v = Waiting) then 0 else 1) -> attempt v rc -> d <= rc.
Proof.
  intros Hd [[Hp ->]|[Hp ->]]; [rewrite decide_True in Hd by done|
    rewrite decide_False in Hd by congruence]; lia.
Qed.

Lemma attempt_unsettled v rc : attempt v rc -> v_phase v <> Settled.
Proof. intros [[-> _]|[-> _]]; done. Qed.

Lemma contract_step_inv x x' : contract_step x x' -> contract_inv x -> contract_inv x'.
Proof.
  intros Hs [Hr Hh]. destruct Hs as [V V' l os Hfun Hfl HV|V V' l i v rc c Hi Ha Hl Hc HV|
    V V' l i v c Hi Hp Hc HV|V V' l HV]; cbn [fst snd] in *; (split; cbn [fst snd]).
  - intros i v [(n & Hin & ->)|[Hout Hi]]%HV.
    + destruct (opens_in os l i) as ((m & Hm & Ho) & Hd & Ha); [apply list_elem_of_fmap; by exists (i, n)|].
      rewrite (Hfun i m n Hm Hin) in Ho. split_and!; cbn; [done|rewrite decide_True by done; lia|done..].
    + destruct (opens_out os l i Hout) as (H1 & H2 & H3 & H4). unfold row_log. rewrite H1, H2, H3, H4. by apply Hr.
  - by apply opens_honoured.
  - destruct (Hr i v Hi) as (Ho & Hd & _ & Hk).
    intros j v' [[-> ->]|[Hne Hj]]%HV; [|apply row_log_deliver_other; [done|by apply Hr]].
    split_and!; cbn; rewrite ?(decide_True (P := i = i)) by done; [done| |done|].
    + rewrite decide_False by done. pose proof (attempt_bound v rc _ Hd Ha). lia.
    + intros _. by eapply Hk, attempt_unsettled.
  - destruct (Hr i v Hi) as (Ho & Hd & _ & Hk). cbn. split_and!; [|by eapply Hk, attempt_unsettled|done|done].
    exists (v_limit v). split; [done|]. pose proof (attempt_bound v rc _ Hd Ha). lia.
  - destruct (Hr i v Hi) as (Ho & Hd & _ & _). rewrite decide_False in Hd by congruence.
    intros j v' [(-> & Hp' & Hrc & Hl')|[Hne Hj]]%HV; [|apply row_log_ack_other; [done|by apply Hr]].
    unfold row_log. rewrite Hl', Hrc, Hp'. cbn. by rewrite decide_False.
  - destruct (Hr i v Hi) as (_ & _ & Hlast & Hk). cbn. split_and!; [|apply Hk; congruence|done].
    by rewrite <-Hlast.
  - intros i v' Hi. destruct (HV i v' Hi) as (v & Hir & Hl & Hcase).
    destruct (Hr i v Hir) as (H1 & H2 & H3 & H4).
    unfold row_log. rewrite Hl. destruct Hcase as [(Hp & Hrc & Hcl)|(Hp & Hp' & Hrc)]; [by rewrite Hp, Hrc, Hcl|].
    rewrite decide_False in H2 by congruence. rewrite Hrc, Hp', decide_True by done.
    split; [done|]. split; [lia|]. split; [done|]. intros _. apply H4. congruence.
  - done.
Qed.

Lemma contract_run_inv x x' : rtc contract_step x x' -> contract_inv x -> contract_inv x'.
Proof. induction 1 as [x|x y z Hx _ IH]; [done|]. intros Hc. by eapply IH, contract_step_inv. Qed.

(** ** Implementations *)

(** A transition system with an invariant of its own whose steps are runs of the
    contract, seen through [rows] and [log]. *)
Class Implements {T : Type} (init : T) (step : T -> T -> Prop) (I : T -> Prop)
    (rows : T -> K -> option view) (log : T -> list (event K)) : Prop := {
  impl_init : I init /\ (forall i, rows init i = None) /\ log init = [];
  impl_step s s' : I s -> step s s' ->
    I s' /\ rtc contract_step (rows s, log s) (rows s', log s')
}.

Section implementation.
Context {T : Type} (init : T) (step : T -> T -> Prop) (I : T -> Prop)
  (rows : T -> K -> option view) (log : T -> list (event K)) `{Himp : !Implements init step I rows log}.

(** Every run is a run of the contract from an empty queue and an empty history. *)
Lemma implements_runs s :
  rtc step init s -> I s /\ rtc contract_step (rows init, []) (rows s, log s).
Proof.
  destruct Himp as [(Hi & _ & Hl) Hstep]. intros Hs. rewrite <-Hl. clear Himp Hl. revert Hi.
  induction Hs as [s0|s1 s2 s3 Hs Hrest IH]; [done|]. intros Hi.
  destruct (Hstep s1 s2 Hi Hs) as [Hi2 Hr]. destruct (IH Hi2) as [Hi3 Hr3].
  split; [done|]. by etrans.
Qed.

Lemma implements_contract s : rtc step init s -> I s /\ contract_inv (rows s, log s).
Proof.
  intros [Hi Hr]%implements_runs. split; [done|]. eapply contract_run_inv; [exact Hr|].
  destruct Himp as [(_ & Hn & _) _]. split; [|done]. intros i v. cbn. by rewrite Hn.
Qed.

End implementation.

End contract.

(** ** Claims generated by the server *)

(** Every claim of the history was generated before transaction [m]. *)
Definition claims_before {K} (o : oracle) (m : nat) (l : list (event K)) : Prop :=
  forall c, c ∈ claims l -> exists m' n, (m' < m)%nat /\ c = e_gen (o m') n 0%nat.

Section claims.
Context {K : Type} (o : oracle).
Implicit Types (l : list (event K)).

Lemma claims_before_next m l : claims_before o m l -> claims_before o (S m) l.
Proof. intros Hl c (m' & n & ? & ->)%Hl. exists m', n. split; [lia|done]. Qed.

Lemma claims_before_deliver m n i l :
  claims_before o m l -> claims_before o (S m) (Delivered i (e_gen (o m) n 0%nat) :: l).
Proof.
  intros Hl c. cbn. rewrite elem_of_cons. intros [->|Hc]; [exists m, n; split; [lia|done]|].
  by apply (claims_before_next _ _ Hl).
Qed.

Lemma claims_fresh m n l : gen_distinct o -> claims_before o m l -> e_gen (o m) n 0%nat ∉ claims l.
Proof. intros Hg Hl (m' & n' & ? & He)%Hl. apply Hg in He. lia. Qed.

End claims.
