(* ===== verification/Lifecycle.v ===== *)
(** * The life of a channel's messages

    The transactions of publishers, consumers, operators that replay messages and the
    garbage collector on one channel, interleaved in any order: a step relation over
    the channel's tables with the history of what was committed.  Every step runs a
    transaction body of the program; one that fails leaves the tables as they were.
    The steps implement the delivery contract of [Contract]. *)

From S2P Require Import Prelude Types Tx Backoff Utf8 World Config Queries Channel Publish PubSub Gc GcChannel Replay ReplayDlq Batch Contract.
From Stdlib Require Import ZArith Lia.
Local Open Scope Z_scope.

(** ** The steps *)

Section lifecycle.
Context `{Server} (cfg : queueConfig) (o : oracle).

Record chan := mkChan {
  ch_tick : nat;                (* transactions so far; the next one runs in [o ch_tick] *)
  ch_tables : channelTables;
  ch_log : list (event uuid)
}.

(** [body] commits in the next transaction with result [a]. *)
Definition commits {A} (body : tx channelTables A) (s : chan) (a : A) (t' : channelTables) : Prop :=
  commits_in (o (ch_tick s)) body (ch_tables s) a t'.

(** The page statements of a collection pass. *)
Inductive gc_body : tx channelTables nat -> Prop :=
| gc_purge_completed ttl : 0 < ttl -> gc_body (purge_completed_page ttl)
| gc_purge_pending age : 0 < age -> gc_body (purge_pending_page age)
| gc_purge_dlq ret : 0 < ret -> gc_body (stmt (fun e _ t =>
    let '(m, k) := delete_page (dead_before e ret) (fun _ => 0) (ct_dlq t) in
    (Ok k, set_ct_dlq m t)))
| gc_promote : gc_body (promoteExhaustedChannelPage (defaultMaxRetries cfg))
| gc_reset : gc_body (reset_messages_page (defaultMaxRetries cfg)).

(** What a publish does to the channel's table. *)
Definition publish_rows (rows : list (uuid * (bytes * option jval))) (mr : Z) : tx channelTables unit :=
  rowsAffected ← insert_channel_rows rows mr;
  if (rowsAffected <? length rows)%nat then throw ErrDuplicateMessageID else mret tt.

(** The rows an UPDATE of [applyReplayFrom] puts back, each with its limit. *)
Definition replayed_rows (ids : list uuid) (t : channelTables) : list (uuid * Z) :=
  (fun x => (x.1, limit cfg x.2)) <$>
    sql_select (fun i r => bool_decide (i ∈ ids) && settled (c_status r)) (fun _ => 0) (ct_msgs t).

Inductive chan_step (s : chan) : chan -> Prop :=
| step_fail :                                       (* a transaction that rolls back *)
    chan_step s (mkChan (S (ch_tick s)) (ch_tables s) (ch_log s))
| step_publish rows mr t' :                         (* publishToChannel, publishBatchToChannel *)
    0 <= mr < int64_max -> commits (publish_rows rows mr) s tt t' ->
    chan_step s (mkChan (S (ch_tick s)) t' (opens ((fun x => (x.1, mr)) <$> rows) ++ ch_log s))
| step_consume vt ttl msg deadline t' :             (* consumeFromChannel, with a message *)
    commits (fetchPendingChannelMessage cfg vt ttl) s (Some (msg, deadline)) t' ->
    chan_step s (mkChan (S (ch_tick s)) t' (Delivered (m_ID msg) (m_ClaimID msg) :: ch_log s))
| step_consume_empty vt ttl t' :                    (* consumeFromChannel, empty *)
    commits (fetchPendingChannelMessage cfg vt ttl) s None t' ->
    chan_step s (mkChan (S (ch_tick s)) t' (ch_log s))
| step_ack rc t' :                                  (* ackChannel *)
    commits (ack_tx rc) s tt t' ->
    chan_step s (mkChan (S (ch_tick s)) t' (Acked (r_MessageID rc) (r_ClaimID rc) :: ch_log s))
| step_extend rc d t' :                             (* extendChannelVisibility *)
    commits (extend_tx rc d) s tt t' ->
    chan_step s (mkChan (S (ch_tick s)) t' (ch_log s))
| step_nack rc msg override t' :                    (* nackChannelImpl *)
    commits (nack_tx cfg rc (truncateErrorMsg msg) override) s tt t' ->
    chan_step s (mkChan (S (ch_tick s)) t' (ch_log s))
| step_ack_batch rs b t' :                          (* ackChannelBatch *)
    NoDup (receiptMatchKey <$> rs) -> commits (ack_batch_tx rs) s b t' ->
    chan_step s (mkChan (S (ch_tick s)) t' (log_acks r_MessageID (Succeeded b) (ch_log s)))
| step_nack_batch rs msg override b t' :            (* nackChannelBatch *)
    NoDup (receiptMatchKey <$> rs) -> text_ok (truncateErrorMsg msg) = true ->
    commits (nack_batch_tx cfg rs (truncateErrorMsg msg) override) s b t' ->
    chan_step s (mkChan (S (ch_tick s)) t' (ch_log s))
| step_replay_from ids k t' :                       (* replayFromPage *)
    commits (replay_rows ids) s k t' ->
    chan_step s (mkChan (S (ch_tick s)) t' (opens (replayed_rows ids (ch_tables s)) ++ ch_log s))
| step_replay_message id r t' :                     (* executeReplayMessage *)
    ct_msgs (ch_tables s) !! id = Some r -> commits (replay_message_row id) s 1%nat t' ->
    chan_step s (mkChan (S (ch_tick s)) t' (opens [(id, limit cfg r)] ++ ch_log s))
| step_replay_dlq mr l k t' :                       (* replayDLQPage *)
    0 <= mr < int64_max -> commits (reinsertDLQChannel mr (scan_dlq <$> l)) s k t' ->
    chan_step s (mkChan (S (ch_tick s)) t'
      (opens ((fun x => (orig x, mr)) <$> first_free (dom (ct_msgs (ch_tables s))) l) ++ ch_log s))
| step_gc body t' :                                 (* one page of a collection pass *)
    gc_body body -> (exists k, commits body s k t') ->
    chan_step s (mkChan (S (ch_tick s)) t' (ch_log s)).

(** Reached from the channel as it is created. *)
Definition chan_init : chan := mkChan 0 (mkChannelTables ∅ ∅) [].
Definition reachable : chan -> Prop := rtc chan_step chan_init.

(** ** The contract *)

(** The rows of the channel, by message. *)
Definition channel_view (r : channelRow) : view :=
  mkView (phase_of (c_status r)) (c_retry_count r) (c_claim_id r) (limit cfg r).
Definition views (t : channelTables) (i : uuid) : option view := channel_view <$> ct_msgs t !! i.

Definition chan_inv (s : chan) : Prop :=
  gc_inv cfg o (ch_tick s) (ch_tables s) /\ claims_before o (ch_tick s) (ch_log s).
Definition simulated (s s' : chan) : Prop :=
  chan_inv s' /\ rtc contract_step (views (ch_tables s), ch_log s) (views (ch_tables s'), ch_log s').

Lemma views_Some t i v : views t i = Some v <-> exists r, ct_msgs t !! i = Some r /\ v = channel_view r.
Proof. unfold views. rewrite fmap_Some. done. Qed.

Lemma phase_waiting s : phase_of s = Waiting <-> s = MessageStatusPending.
Proof. by destruct s. Qed.
Lemma phase_in_flight s : phase_of s = InFlight <-> s = MessageStatusProcessing.
Proof. by destruct s. Qed.

(** Rows that go away, or change in a way that settles them. *)
Lemma settles_rows t t' :
  (forall i r', ct_msgs t' !! i = Some r' -> exists r, ct_msgs t !! i = Some r /\
     settled1 (channel_view r) (channel_view r')) ->
  settles (views t) (views t').
Proof.
  intros Hr i v (r' & Hi & ->)%views_Some. destruct (Hr i r' Hi) as (r & Hir & Hs).
  exists (channel_view r). split; [|done]. apply views_Some. by exists r.
Qed.

Lemma settles_delete id t t' :
  ct_msgs t' = delete id (ct_msgs t) -> settles (views t) (views t').
Proof.
  intros Hm. apply settles_rows. intros i r. rewrite Hm, lookup_delete_Some. intros [_ Hi]. exists r.
  split; [done|apply settled1_refl].
Qed.

Lemma settles_put id r r' t :
  ct_msgs t !! id = Some r -> settled1 (channel_view r) (channel_view r') ->
  settles (views t) (views (put_row id r' t)).
Proof.
  intros Hid Hs. apply settles_rows. intros i q. cbn. rewrite lookup_insert_Some.
  intros [[<- <-]|[_ Hi]]; [by exists r|]. exists q. split; [done|apply settled1_refl].
Qed.

(** A delivery in progress goes back to pending. *)
Lemma settled1_pend a x r :
  c_status r = MessageStatusProcessing ->
  settled1 (channel_view r) (channel_view (pend_row (c_retry_count r + 1) a x r)).
Proof. intros Hst. split; [done|]. right. cbn. by rewrite Hst. Qed.

Lemma skip1_settles e ttl t t' : skip1 cfg e ttl t t' -> settles (views t) (views t').
Proof.
  intros (id & r & _ & [Hid Hrec%reclaimable_processing]%next_timed_out_Some & Hcase).
  destruct Hcase as [(_ & k & _ & ->)|(_ & _ & delay & _ & ->)].
  - by eapply settles_delete.
  - eapply settles_put; [done|]. by apply settled1_pend.
Qed.

Lemma skips_settles e ttl k t t' : skips cfg e ttl k t t' -> settles (views t) (views t').
Proof.
  induction 1 as [t|k t t1 t2 Hs _ IH]; [apply settles_refl|].
  eapply settles_trans; [by eapply skip1_settles|done].
Qed.

Lemma reclaimed_settles a b t t' : reclaimed o (a, t) (b, t') -> settles (views t) (views t').
Proof.
  intros (_ & _ & H2 & H3). apply settles_rows. intros i r' Hi. cbn [fst snd] in *.
  destruct (ct_msgs t !! i) as [r|] eqn:Hr; [|by rewrite (H3 i Hr) in Hi].
  exists r. split; [done|]. destruct (H2 i r Hr) as [Hs|((m & _ & Hm & _) & [Hn|Hs])]; [|congruence|];
    rewrite Hs in Hi; injection Hi as <-; [apply settled1_refl|]. split; [done|]. right. cbn. by rewrite Hm.
Qed.

Lemma retained_settles p a b t t' : retained o p (a, t) (b, t') -> settles (views t) (views t').
Proof.
  intros (_ & Hm & _). apply settles_rows. intros i r Hi. exists r. split; [by eapply lookup_weaken|].
  apply settled1_refl.
Qed.

(** *** The steps keep the invariant *)

Hypothesis Hrel : reliable o.
Hypothesis Hgen : gen_distinct o.

Lemma gc_inv_fresh m t : gc_inv cfg o m t -> gen_fresh (o m) 0 t.
Proof.
  intros [_ Hf]. split; [intros; by apply Hf|]. intros ? ? ? ? He. apply Hgen in He. tauto.
Qed.

Lemma gc_inv_next m t : gc_inv cfg o m t -> gc_inv cfg o (S m) t.
Proof. intros [Hi Hf]. split; [done|]. eapply fresh_from_sub; [|done..]. lia. Qed.

Lemma fresh_dead_letter m j g now id reason p rc md t :
  fresh_from o (S m) (ct_dlq t) ->
  fresh_from o (S m) (ct_dlq (dead_letter now (e_gen (o m) j g) id reason p rc md t)).
Proof.
  intros Hf m' n i Hm. cbn. rewrite lookup_insert_ne; [by apply Hf|]. intros He%Hgen. lia.
Qed.

Lemma skips_fresh m ttl k t t' :
  skips cfg (o m) ttl k t t' -> fresh_from o (S m) (ct_dlq t) -> fresh_from o (S m) (ct_dlq t').
Proof.
  remember (o m) as e eqn:He. induction 1 as [t|k t t1 t2 Hs _ IH]; intros Hf; [done|]. apply IH.
  destruct Hs as (id & r & _ & _ & [(_ & j & _ & ->)|(_ & _ & delay & _ & ->)]); [|done].
  rewrite He. by apply fresh_dead_letter.
Qed.

(** A step that only settles rows. *)
Lemma settle_keeps s t' :
  gc_inv cfg o (S (ch_tick s)) t' -> settles (views (ch_tables s)) (views t') -> chan_inv s ->
  simulated s (mkChan (S (ch_tick s)) t' (ch_log s)).
Proof.
  intros HI Hs [_ HL]. split; [split; [done|]|].
  - by apply claims_before_next.
  - apply rtc_once. by apply contract_settle.
Qed.

(** A step that puts rows on the queue. *)
Lemma open_keeps s os t' :
  gc_inv cfg o (S (ch_tick s)) t' -> chan_inv s ->
  (forall i n n', (i, n) ∈ os -> (i, n') ∈ os -> n = n') ->
  (forall i r, i ∈ os.*1 -> ct_msgs (ch_tables s) !! i = Some r -> c_status r <> MessageStatusProcessing) ->
  (forall i r, ct_msgs t' !! i = Some r ->
     (exists n, (i, n) ∈ os /\ channel_view r = mkView Waiting 0 None n) \/
     (i ∉ os.*1 /\ ct_msgs (ch_tables s) !! i = Some r)) ->
  simulated s (mkChan (S (ch_tick s)) t' (opens os ++ ch_log s)).
Proof.
  intros HI [_ HL] Hfun Hfl Hnew. split; [split; [done|]|]; cbn [ch_tick ch_tables ch_log].
  - unfold claims_before. rewrite opens_claims. by apply claims_before_next.
  - apply rtc_once, contract_open; [done|..].
    + intros i v Hi (r & Hr & ->)%views_Some. cbn. rewrite phase_in_flight. by eapply Hfl.
    + intros i v (r & [(n & Hin & ->)|[Hout Hr]]%Hnew & ->)%views_Some; [left; by exists n|right].
      split; [done|]. apply views_Some. by exists r.
Qed.

Lemma publish_keeps s rows mr t' :
  chan_inv s -> 0 <= mr < int64_max -> commits (publish_rows rows mr) s tt t' ->
  simulated s (mkChan (S (ch_tick s)) t' (opens ((fun x => (x.1, mr)) <$> rows) ++ ch_log s)).
Proof.
  intros Hinv Hmr Hc. pose proof Hinv as [HI _]. set (now := e_now (o (ch_tick s))).
  assert (ids_new (ct_msgs (ch_tables s)) rows.*1 /\
    t' = channel_published now rows mr (ch_tables s)) as [[_ Hfresh] ->].
  { eapply (commits_wp _ _ _ _ _ (fun _ x => ids_new (ct_msgs (ch_tables s)) rows.*1 /\ x = _) Hc).
    unfold publish_rows. wp_step. apply wp_insert_channel_rows; [done|lia|done|]. intros k _ Hk Hnew.
    destruct (Nat.ltb_spec k (length rows)); wp_step; [done|]. split; [apply Hnew; lia|done]. }
  assert (((fun x => (x.1, mr)) <$> rows).*1 = rows.*1) as Hids by by rewrite <-list_fmap_compose.
  assert (forall i r, ct_msgs (channel_published now rows mr (ch_tables s)) !! i = Some r ->
    ct_msgs (ch_tables s) !! i = Some r \/ (i ∈ rows.*1 /\ exists p md,
      r = new_channel_row now p md mr)) as Hnew.
  { intros i r. cbn. rewrite lookup_union_Some_raw. intros [?|[_ Hl]]; [by left|right].
    apply elem_of_list_to_map_2, list_elem_of_fmap in Hl as ([j [p md]] & [= -> ->] & Hin).
    split; [|by eexists _, _]. apply list_elem_of_fmap. by exists (j, (p, md)). }
  apply open_keeps; [|done|..].
  - apply gc_inv_next in HI. split; [split|]; [|apply HI..].
    intros i r [Hi|(_ & p & md & ->)]%Hnew; [by eapply HI|]. split; [done|]. cbn. lia.
  - intros i n n' (x & [= _ ->] & _)%list_elem_of_fmap (y & [= _ ->] & _)%list_elem_of_fmap. done.
  - rewrite Hids. intros i r Hi Hr. by rewrite (Hfresh i Hi) in Hr.
  - rewrite Hids. intros i r [Hi|(Hin & p & md & ->)]%Hnew.
    + right. split; [|done]. intros Hin. by rewrite (Hfresh i Hin) in Hi.
    + left. exists mr. split; [|done]. apply list_elem_of_fmap in Hin as (x & -> & Hx).
      apply list_elem_of_fmap. by exists x.
Qed.

Lemma consume_keeps s vt ttl msg deadline t' :
  chan_inv s -> commits (fetchPendingChannelMessage cfg vt ttl) s (Some (msg, deadline)) t' ->
  simulated s (mkChan (S (ch_tick s)) t' (Delivered (m_ID msg) (m_ClaimID msg) :: ch_log s)).
Proof.
  intros [HI HL] Hc. set (m := ch_tick s) in *. set (t := ch_tables s) in *.
  assert (exists k t1 id r rc n dl, skips cfg (o m) ttl k t t1 /\
    delivers cfg (o m) ttl t1 id r rc /\ ct_msgs t1 !! id = Some r /\
    msg = delivered cfg id r rc (e_gen (o m) n 0%nat) /\
    t' = put_row id (claim_row rc (e_gen (o m) n 0%nat) dl r) t1)
    as (k & t1 & id & r & rc & n & dl & Hsk & Hdel & Hid & -> & ->).
  { eapply (commits_wp _ _ _ _ _ (fun a x => match a with
      | Some (msg, _) => exists k t1 id r rc n dl, skips cfg (o m) ttl k t t1 /\
          delivers cfg (o m) ttl t1 id r rc /\ ct_msgs t1 !! id = Some r /\
          msg = delivered cfg id r rc (e_gen (o m) n 0%nat) /\
          x = put_row id (claim_row rc (e_gen (o m) n 0%nat) dl r) t1
      | None => True end) Hc).
    apply wp_fetchChannelLoop; [done|apply HI|by apply gc_inv_fresh|done|].
    intros k n t1 id r rc _ Hsk _ Hdel Hid dl. by exists k, t1, id, r, rc, n, dl. }
  pose proof (skips_inv cfg _ _ _ _ _ Hsk (proj1 HI)) as [Hi1 _].
  pose proof (proj1 Hi1 id r Hid) as Hw.
  assert (attempt (channel_view r) rc /\ 0 <= rc <= limit cfg r) as [Hatt Hlim].
  { unfold attempt. cbn. rewrite phase_waiting, phase_in_flight.
    destruct Hw as (_ & ? & _). destruct Hdel as [[[_ Hp%pending_pending]%next_pending_Some ->]|
      (_ & [_ Hp%reclaimable_processing]%next_timed_out_Some & -> & ? & _)]; (split; [auto|lia]). }
  split; [split; [split|]|]; cbn [ch_tick ch_tables ch_log].
  - apply put_row_inv; [done|]. apply claim_row_wf; [done|lia].
  - cbn [put_row set_ct_msgs ct_dlq]. eapply skips_fresh; [done|]. by apply gc_inv_next.
  - by apply claims_before_deliver.
  - eapply rtc_l; [apply contract_settle; by eapply skips_settles|]. apply rtc_once.
    eapply (contract_deliver (views t1) _ _ id (channel_view r) rc); [apply views_Some; by exists r|done|apply Hlim|
      by apply (claims_fresh o)|].
    intros j v' (q & Hj & ->)%views_Some. cbn [put_row set_ct_msgs ct_msgs] in Hj.
    apply lookup_insert_Some in Hj as [[<- <-]|[Hne Hj]]; [by left|right]. split; [done|].
    apply views_Some. by exists q.
Qed.

Lemma consume_empty_keeps s vt ttl t' :
  chan_inv s -> commits (fetchPendingChannelMessage cfg vt ttl) s None t' ->
  simulated s (mkChan (S (ch_tick s)) t' (ch_log s)).
Proof.
  intros Hinv Hc. pose proof Hinv as [HI _].
  assert (exists k, skips cfg (o (ch_tick s)) ttl k (ch_tables s) t') as [k Hsk].
  { eapply (commits_wp _ _ _ _ _ (fun a x => match a with
      | None => exists k, skips cfg (o (ch_tick s)) ttl k (ch_tables s) x | _ => True end) Hc).
    apply wp_fetchChannelLoop; [done|apply HI|by apply gc_inv_fresh| |done].
    intros k n t1 _ Hsk _. by exists k. }
  apply settle_keeps; [|by eapply skips_settles|done]. split.
  - apply (skips_inv cfg _ _ _ _ _ Hsk (proj1 HI)).
  - eapply skips_fresh; [done|]. by apply gc_inv_next.
Qed.

(** A fenced update that commits, commits on the row the receipt owns. *)
Lemma update_claimed_commits s rc f t' :
  commits (update_claimed rc f) s tt t' ->
  exists r, owned (ch_tables s) rc = Some r /\
    t' = put_row (r_MessageID rc) (f (o (ch_tick s)) r) (ch_tables s).
Proof.
  intros Hc. eapply (commits_wp _ _ _ _ _ (fun _ x => exists r, owned (ch_tables s) rc = Some r /\
    x = put_row (r_MessageID rc) (f (o (ch_tick s)) r) (ch_tables s)) Hc).
  apply wp_update_claimed; [done|]. destruct (owned (ch_tables s) rc) as [r|]; [by exists r|done].
Qed.

(** One acknowledgement of a receipt that owns its message. *)
Lemma complete_keeps m now t l rc r :
  gc_inv cfg o m t -> owned t rc = Some r ->
  gc_inv cfg o m (put_row (r_MessageID rc) (complete_row now r) t) /\
  contract_step (views t, l) (views (put_row (r_MessageID rc) (complete_row now r) t),
    Acked (r_MessageID rc) (r_ClaimID rc) :: l).
Proof.
  intros HI (Hid & Hcl & Hst)%owned_Some. split; [split|].
  - apply put_row_inv; [apply HI|]. eapply complete_row_wf; [|done]. by eapply HI.
  - apply HI.
  - eapply (contract_ack _ _ _ _ (channel_view r)); [apply views_Some; by exists r|by apply phase_in_flight|done|].
    intros j v' (q & Hj & ->)%views_Some. cbn [put_row set_ct_msgs ct_msgs] in Hj.
    apply lookup_insert_Some in Hj as [[<- <-]|[Hne Hj]]; [by left|right]. split; [done|].
    apply views_Some. by exists q.
Qed.

Lemma ack_keeps s rc t' :
  chan_inv s -> commits (ack_tx rc) s tt t' ->
  simulated s (mkChan (S (ch_tick s)) t' (Acked (r_MessageID rc) (r_ClaimID rc) :: ch_log s)).
Proof.
  intros [HI HL] (r & Ho & ->)%update_claimed_commits.
  destruct (complete_keeps _ (e_now (o (ch_tick s))) _ (ch_log s) _ _ HI Ho) as [HI' Hs].
  split; [split; [by apply gc_inv_next|by apply claims_before_next]|by apply rtc_once].
Qed.

Lemma ack_each_keeps m now rs t l :
  gc_inv cfg o m t ->
  gc_inv cfg o m (ack_each now rs t).2 /\
  rtc contract_step (views t, l)
    (views (ack_each now rs t).2, log_acks r_MessageID (Succeeded (ack_each now rs t).1) l).
Proof.
  revert t l. induction rs as [|rc rs IH]; intros t l HI; [done|]. cbn [ack_each].
  destruct (owned t rc) as [r|] eqn:Ho.
  - destruct (complete_keeps _ now _ l _ _ HI Ho) as [HI' Hs].
    specialize (IH _ (Acked (r_MessageID rc) (r_ClaimID rc) :: l) HI').
    destruct (ack_each now rs _) as [b t']. destruct IH as [? ?]. split; [done|]. by eapply rtc_l.
  - specialize (IH _ l HI). by destruct (ack_each now rs t).
Qed.

Lemma ack_batch_keeps s rs b t' :
  chan_inv s -> NoDup (receiptMatchKey <$> rs) -> commits (ack_batch_tx rs) s b t' ->
  simulated s (mkChan (S (ch_tick s)) t' (log_acks r_MessageID (Succeeded b) (ch_log s))).
Proof.
  intros [HI HL] Hnd Hc.
  eapply (commits_wp _ _ _ _ _ (fun b x =>
    simulated s (mkChan (S (ch_tick s)) x (log_acks r_MessageID (Succeeded b) (ch_log s)))) Hc).
  apply wp_ack_batch_tx; [done..|]. intros _.
  destruct (ack_each_keeps (S (ch_tick s)) (e_now (o (ch_tick s))) rs _ (ch_log s) (gc_inv_next _ _ HI)).
  split; [split; [done|]|done]. unfold claims_before. cbn. rewrite log_acks_claims.
  by apply claims_before_next.
Qed.

Lemma extend_keeps s rc d t' :
  chan_inv s -> commits (extend_tx rc d) s tt t' -> simulated s (mkChan (S (ch_tick s)) t' (ch_log s)).
Proof.
  intros Hinv (r & Ho & ->)%update_claimed_commits. pose proof Hinv as [HI _].
  apply owned_Some in Ho as (Hid & Hcl & Hst). apply settle_keeps; [| |done].
  - split; [|exact (proj2 (gc_inv_next _ _ HI))]. apply put_row_inv; [apply HI|]. apply extend_row_wf; [|done].
    by eapply HI.
  - eapply settles_put; [done|apply settled1_refl].
Qed.

(** One nack of a receipt that owns its message. *)
Lemma nack1_settles m override msg rc t t' :
  text_ok (truncateErrorMsg msg) = true -> nack1 cfg (o m) override msg rc t t' ->
  gc_inv cfg o (S m) t -> gc_inv cfg o (S m) t' /\ settles (views t) (views t').
Proof.
  intros Ht Hn HI. split.
  - split; [by apply (nack1_ok cfg (o m) override msg rc t t' (proj1 HI) Ht)|].
    destruct Hn as (r & _ & [(_ & n & i & _ & ->)|(_ & delay & _ & ->)]); [|apply HI].
    apply fresh_dead_letter, HI.
  - destruct Hn as (r & (Hid & _ & Hst)%owned_Some & [(_ & n & i & _ & ->)|(_ & delay & _ & ->)]).
    + by eapply settles_delete.
    + eapply settles_put; [done|]. by apply settled1_pend.
Qed.

Lemma nacks_settles m override msg us t t' :
  text_ok (truncateErrorMsg msg) = true -> nacks cfg (o m) override msg us t t' ->
  gc_inv cfg o (S m) t -> gc_inv cfg o (S m) t' /\ settles (views t) (views t').
Proof.
  intros Ht. induction 1 as [t|rc us t t1 t2 Hn _ IH]; intros HI; [split; [done|apply settles_refl]|].
  destruct (nack1_settles _ _ _ _ _ _ Ht Hn HI) as [HI1 Hs1]. destruct (IH HI1) as [HI2 Hs2].
  split; [done|]. by eapply settles_trans.
Qed.

Lemma nack_keeps s rc msg override t' :
  chan_inv s -> commits (nack_tx cfg rc (truncateErrorMsg msg) override) s tt t' ->
  simulated s (mkChan (S (ch_tick s)) t' (ch_log s)).
Proof.
  intros Hinv Hc. pose proof Hinv as [HI _]. set (m := ch_tick s) in *. set (t := ch_tables s) in *.
  assert (text_ok (truncateErrorMsg msg) = true /\ nack1 cfg (o m) override msg rc t t') as [Ht Hn].
  { eapply (commits_wp _ _ _ _ _ (fun _ y => text_ok (truncateErrorMsg msg) = true /\
      nack1 cfg (o m) override msg rc t y) Hc). fold m t.
    apply wp_nack_tx; [done|done|apply HI|by apply gc_inv_fresh|].
    destruct (owned t rc) as [r|] eqn:Ho; [|done]. intros Ht.
    destruct (Z.ltb_spec (limit cfg r) (c_retry_count r + 1)).
    - split; [done|]. exists r. split; [done|]. left. split; [lia|]. eexists _, _. split; [|done].
      by apply HI.
    - intros delay n' Hd. split; [done|]. exists r. split; [done|]. right. split; [lia|]. by exists delay. }
  destruct (nack1_settles _ _ _ _ _ _ Ht Hn (gc_inv_next _ _ HI)). by apply settle_keeps.
Qed.

Lemma nack_batch_keeps s rs msg override b t' :
  chan_inv s -> NoDup (receiptMatchKey <$> rs) -> text_ok (truncateErrorMsg msg) = true ->
  commits (nack_batch_tx cfg rs (truncateErrorMsg msg) override) s b t' ->
  simulated s (mkChan (S (ch_tick s)) t' (ch_log s)).
Proof.
  intros Hinv Hnd Ht Hc. pose proof Hinv as [HI _].
  assert (exists us, nacks cfg (o (ch_tick s)) override msg us (ch_tables s) t') as [us Hn].
  { eapply (commits_wp _ _ _ _ _ (fun _ y => exists us, nacks cfg (o (ch_tick s)) override msg us
      (ch_tables s) y) Hc).
    apply wp_nack_batch_tx; [done|done|apply HI|by apply gc_inv_fresh|done|].
    intros us y n' _ Hn. by exists us. }
  destruct (nacks_settles _ _ _ _ _ _ Ht Hn (gc_inv_next _ _ HI)). by apply settle_keeps.
Qed.

Lemma gc_keeps s body k t' :
  chan_inv s -> gc_body body -> commits body s k t' ->
  simulated s (mkChan (S (ch_tick s)) t' (ch_log s)).
Proof.
  intros Hinv Hb Hc. pose proof Hinv as [HI _].
  assert (forall size Rel Dn mu, page_ok o size body (gc_inv cfg o) Rel Dn mu ->
    gc_inv cfg o (S (ch_tick s)) t' /\ Rel (ch_tick s, ch_tables s) (S (ch_tick s), t')) as Hpage.
  { intros size Rel Dn mu Hok.
    eapply (commits_wp _ _ _ _ _ (fun _ x => gc_inv cfg o (S (ch_tick s)) x /\
      Rel (ch_tick s, ch_tables s) (S (ch_tick s), x)) Hc).
    eapply wp_mono; [apply (Hok _ _ HI)| |done]. intros n _ x (x' & -> & ? & ? & _). done. }
  destruct Hb as [ttl Ht|age Ha|ret Hr| |].
  - destruct (Hpage _ _ _ _ (purge_completed_ok cfg o Hrel (mkRetentionPolicy ttl 0 0) Ht)).
    apply settle_keeps; [done|by eapply retained_settles|done].
  - destruct (Hpage _ _ _ _ (purge_pending_ok cfg o Hrel (mkRetentionPolicy 0 age 0) Ha)).
    apply settle_keeps; [done|by eapply retained_settles|done].
  - destruct (Hpage _ _ _ _ (purge_dlq_ok cfg o Hrel (mkRetentionPolicy 0 0 ret) Hr)).
    apply settle_keeps; [done|by eapply retained_settles|done].
  - destruct (Hpage _ _ _ _ (promote_messages_ok cfg o Hrel Hgen)).
    apply settle_keeps; [done|by eapply reclaimed_settles|done].
  - destruct (Hpage _ _ _ _ (reset_messages_ok cfg o Hrel)).
    apply settle_keeps; [done|by eapply reclaimed_settles|done].
Qed.

(** *** Replay *)

Lemma replay_from_keeps s ids k t' :
  chan_inv s -> commits (replay_rows ids) s k t' ->
  simulated s (mkChan (S (ch_tick s)) t' (opens (replayed_rows ids (ch_tables s)) ++ ch_log s)).
Proof.
  intros Hinv Hc. pose proof Hinv as [HI _]. set (t := ch_tables s) in *.
  set (P := fun (i : Z) (r : channelRow) => bool_decide (i ∈ ids) && settled (c_status r)).
  assert (t' = set_ct_msgs (sql_update_ids (sql_select P (fun _ => 0) (ct_msgs t)).*1 replay_row (ct_msgs t)) t)
    as ->.
  { eapply (commits_wp _ _ _ _ _ (fun _ x => x = _) Hc). unfold replay_rows. by wp_step. }
  assert (forall i r, P i r = true -> c_status r <> MessageStatusPending /\ c_status r <> MessageStatusProcessing)
    as HP.
  { intros i r [_ Hs]%andb_true_iff. unfold settled in Hs. by destruct (c_status r). }
  assert (forall i n, (i, n) ∈ replayed_rows ids t <-> exists r, ct_msgs t !! i = Some r /\ P i r = true /\
    n = limit cfg r) as Hin.
  { intros i n. unfold replayed_rows. rewrite list_elem_of_fmap. split.
    - intros ([j r] & [= -> ->] & [Hj HPj]%elem_of_sql_select). by exists r.
    - intros (r & Hi & HPi & ->). exists (i, r). split; [done|]. by apply elem_of_sql_select. }
  assert (forall i, i ∈ (replayed_rows ids t).*1 <-> exists r, ct_msgs t !! i = Some r /\ P i r = true) as Hin1.
  { intros i. rewrite list_elem_of_fmap. split.
    - intros ([j n] & -> & (r & ? & ? & _)%Hin). by exists r.
    - intros (r & ? & ?). exists (i, limit cfg r). split; [done|]. apply Hin. by exists r. }
  assert (forall i r', ct_msgs (set_ct_msgs (sql_update_ids (sql_select P (fun _ => 0) (ct_msgs t)).*1
    replay_row (ct_msgs t)) t) !! i = Some r' -> exists r, ct_msgs t !! i = Some r /\
      ((P i r = true /\ r' = replay_row r) \/ (P i r = false /\ r' = r))) as Hlk.
  { intros i r'. cbn. rewrite sql_update_selected. intros (r & Hr & ->)%fmap_Some. exists r.
    split; [done|]. destruct (P i r); auto. }
  apply open_keeps; [|done|..]; fold t.
  - apply gc_inv_next in HI. split; [split|]; [|apply HI..].
    intros i r' (r & Hr & [[_ ->]|[_ ->]])%Hlk; [|by eapply HI].
    destruct (proj1 (proj1 HI) i r Hr) as (_ & ? & ?). split; [done|]. cbn. unfold limit in *. cbn. lia.
  - intros i n n' (r & Hr & _ & ->)%Hin (r' & Hr' & _ & ->)%Hin. congruence.
  - intros i r (r' & Hr' & HPr%HP)%Hin1 Hr. naive_solver congruence.
  - intros i r' (r & Hr & [[HPr ->]|[HPr ->]])%Hlk.
    + left. exists (limit cfg r). split; [|done]. apply Hin. by exists r.
    + right. split; [|done]. intros (r0 & Hr0 & HP0)%Hin1. congruence.
Qed.

Lemma replay_message_keeps s id r t' :
  chan_inv s -> ct_msgs (ch_tables s) !! id = Some r -> commits (replay_message_row id) s 1%nat t' ->
  simulated s (mkChan (S (ch_tick s)) t' (opens [(id, limit cfg r)] ++ ch_log s)).
Proof.
  intros Hinv Hid Hc. pose proof Hinv as [HI _]. set (now := e_now (o (ch_tick s))).
  assert (c_status r <> MessageStatusProcessing /\ t' = put_row id (replay_row_now now r) (ch_tables s))
    as [Hst ->].
  { eapply (commits_wp _ _ _ _ _ (fun n x => n = 1%nat -> c_status r <> MessageStatusProcessing /\ x = _) Hc);
      [|done]. unfold replay_message_row, sql_update_id. wp_step. rewrite Hid.
    case_bool_decide; cbn; [done|]. intros _. done. }
  apply open_keeps; [|done|..].
  - apply gc_inv_next in HI. split; [|apply HI]. apply put_row_inv; [apply HI|].
    destruct (proj1 (proj1 HI) id r Hid) as (_ & ? & ?). split; [done|]. cbn. unfold limit in *. cbn. lia.
  - intros i n n' [= -> ->]%list_elem_of_singleton [= ->]%list_elem_of_singleton. done.
  - intros i q ->%list_elem_of_singleton Hq. cbn in Hq. congruence.
  - intros i q. cbn. rewrite lookup_insert_Some. intros [[<- <-]|[Hne Hq]].
    + left. exists (limit cfg r). split; [left|done].
    + right. split; [|done]. by intros ->%list_elem_of_singleton.
Qed.

Lemma replay_dlq_keeps s mr l k t' :
  chan_inv s -> 0 <= mr < int64_max -> commits (reinsertDLQChannel mr (scan_dlq <$> l)) s k t' ->
  simulated s (mkChan (S (ch_tick s)) t'
    (opens ((fun x => (orig x, mr)) <$> first_free (dom (ct_msgs (ch_tables s))) l) ++ ch_log s)).
Proof.
  intros Hinv Hmr Hc. pose proof Hinv as [HI _]. set (t := ch_tables s) in *.
  set (now := e_now (o (ch_tick s))). set (l' := first_free (dom (ct_msgs t)) l).
  assert (t' = revive (fun _ => now) mr l' t) as ->.
  { eapply (commits_wp _ _ _ _ _ (fun _ x => x = _) Hc). apply wp_reinsertDLQChannel; [done|left; lia|done]. }
  assert (forall i r, ct_msgs (revive (fun _ => now) mr l' t) !! i = Some r -> ct_msgs t !! i = Some r \/
    (exists x, x ∈ l' /\ i = orig x /\ r = new_channel_row now (d_payload x.2) (d_metadata x.2) mr)) as Hnew.
  { intros i r. cbn. rewrite lookup_union_Some_raw. intros [?|[_ Hl]]; [by left|right].
    apply elem_of_list_to_map_2, list_elem_of_fmap in Hl as (x & [= -> ->] & Hx). by exists x. }
  assert (forall i, i ∈ ((fun x => (orig x, mr)) <$> l').*1 -> ct_msgs t !! i = None) as Hfree.
  { intros i (y & -> & (x & -> & Hx)%list_elem_of_fmap)%list_elem_of_fmap. cbn.
    apply not_elem_of_dom. by apply elem_of_first_free in Hx as [_ ?]. }
  apply open_keeps; [|done|..]; fold t.
  - apply gc_inv_next in HI. split; [split|].
    + intros i r [Hi|(x & _ & _ & ->)]%Hnew; [by eapply HI|]. split; [done|]. cbn. lia.
    + intros j d. cbn. rewrite lookup_sql_delete_ids. case_decide; [done|]. apply HI.
    + intros m' n i Hm. cbn. rewrite lookup_sql_delete_ids. case_decide; [done|]. by apply HI.
  - intros i n n' (x & [= _ ->] & _)%list_elem_of_fmap (y & [= _ ->] & _)%list_elem_of_fmap. done.
  - intros i r Hi Hr. by rewrite (Hfree i Hi) in Hr.
  - intros i r [Hi|(x & Hx & -> & ->)]%Hnew.
    + right. split; [|done]. intros Hin. by rewrite (Hfree i Hin) in Hi.
    + left. exists mr. split; [|done]. apply list_elem_of_fmap. by exists x.
Qed.

(** The channel implements the contract. *)
#[local] Instance channel_implements :
  Implements chan_init chan_step chan_inv (fun s => views (ch_tables s)) ch_log.
Proof.
  split.
  - split; [|split; [|done]].
    + split; [split; [split|]|]; cbn; try (intros i r Hi; by rewrite lookup_empty in Hi).
      * apply gc_fresh_empty.
      * by intros c Hc%elem_of_nil.
    + intros i. unfold views. cbn. by rewrite lookup_empty.
  - intros s s' HI Hs. destruct Hs.
    + apply settle_keeps; [by apply gc_inv_next, HI|apply settles_refl|done].
    + by apply publish_keeps.
    + by eapply consume_keeps.
    + by eapply consume_empty_keeps.
    + by apply ack_keeps.
    + by eapply extend_keeps.
    + by eapply nack_keeps.
    + by eapply ack_batch_keeps.
    + by eapply nack_batch_keeps.
    + by eapply replay_from_keeps.
    + by apply replay_message_keeps.
    + by eapply replay_dlq_keeps.
    + match goal with Hx : exists k, commits _ _ _ _ |- _ => destruct Hx as [k Hk] end.
      by eapply gc_keeps.
Qed.

Lemma reachable_runs s : reachable s -> chan_inv s /\
  rtc contract_step (views (ch_tables chan_init), []) (views (ch_tables s), ch_log s).
Proof. apply (implements_runs chan_init chan_step chan_inv (fun s => views (ch_tables s)) ch_log). Qed.

Lemma reachable_inv s : reachable s -> chan_inv s /\ contract_inv (views (ch_tables s), ch_log s).
Proof. apply (implements_contract chan_init chan_step chan_inv (fun s => views (ch_tables s)) ch_log). Qed.

End lifecycle.

(** ** Properties *)

(** C1: however publishers, consumers, acknowledgements, nacks (single and in batches
    of distinct receipts), extensions, replays and the garbage collector interleave on
    a channel, the table invariant holds and no message is delivered more than
    maxRetries + 1 times after it was published, or last replayed, with that limit. *)
Theorem channel_deliveries_bounded `{Server} (cfg : queueConfig) (o : oracle) (s : chan) :
  reliable o -> gen_distinct o -> reachable cfg o s ->
  channel_inv cfg (ch_tables s) /\
  forall i n, opened i (ch_log s) = Some n -> 0 <= n -> deliveries i (ch_log s) <= n + 1.
Proof.
  intros Hrel Hgen Hr. destruct (reachable_inv cfg o Hrel Hgen s Hr) as [[[Hi _] _] [_ Hh]].
  split; [done|]. intros i n. by apply honoured_bounded.
Qed.

(** Message 1 is published with no retries, delivered, dead-lettered by the next
    consume call after its deadline, replayed from the dead-letter table with one
    retry and delivered again. *)
Lemma channel_deliveries_bounded_witness :
  exists s, reachable (H := truncating_server) sample_cfg distinct_oracle s /\
    opened 1 (ch_log s) = Some 1 /\ deliveries 1 (ch_log s) = 1 /\
    length (claims (ch_log s)) = 2%nat /\ deliveries 1 (ch_log s) <= 1 + 1.
Proof.
  assert (exists s, reachable (H := truncating_server) sample_cfg distinct_oracle s /\
    opened 1 (ch_log s) = Some 1 /\ deliveries 1 (ch_log s) = 1 /\
    length (claims (ch_log s)) = 2%nat) as (s & Hr & Ho & Hd & Hc).
  { eexists. split.
    - eapply rtc_l; [|eapply rtc_l; [|eapply rtc_l; [|eapply rtc_l; [|eapply rtc_l; [|apply rtc_refl]]]]].
      + eapply (step_publish _ _ _ [(1, ([Byte.x61], None))] 0); [split; [lia|reflexivity]|].
        eexists. vm_compute. reflexivity.
      + eapply (step_consume _ _ _ millisecond 0). eexists. vm_compute. reflexivity.
      + eapply (step_consume_empty _ _ _ millisecond 0). eexists. vm_compute. reflexivity.
      + match goal with |- chan_step _ _ ?s _ =>
          eapply (step_replay_dlq _ _ s 1 (map_to_list (ct_dlq (ch_tables s)))) end;
          [split; [lia|reflexivity]|].
        eexists. vm_compute. reflexivity.
      + eapply (step_consume _ _ _ (30 * second) 0). eexists. vm_compute. reflexivity.
    - vm_compute. split_and!; reflexivity. }
  exists s. split; [exact Hr|]. split; [exact Ho|]. split; [exact Hd|]. split; [exact Hc|].
  apply (proj2 (channel_deliveries_bounded (H := truncating_server) sample_cfg distinct_oracle s
    distinct_oracle_reliable distinct_oracle_distinct Hr) 1 1 Ho). lia.
Defined.

(** C2: however the transactions on a channel interleave, the run is one of the delivery
    contract on the rows of the tables, and its history is [honoured]:
    a message is delivered only while it is on the queue and not acknowledged, each
    time under a claim of its own; an acknowledgement that commits was made under the
    claim of the latest delivery, and from then on the message is neither delivered
    nor acknowledged again, unless it is replayed. *)
Theorem channel_acks_fenced `{Server} (cfg : queueConfig) (o : oracle) (s : chan) :
  reliable o -> gen_distinct o -> reachable cfg o s ->
  rtc contract_step (views cfg (ch_tables chan_init), []) (views cfg (ch_tables s), ch_log s) /\
  honoured (ch_log s).
Proof.
  intros Hrel Hgen Hr. split; [|apply (reachable_inv cfg o Hrel Hgen s Hr)].
  by eapply (reachable_runs cfg o Hrel Hgen s Hr).
Qed.

(** Published, delivered and acknowledged. *)
Lemma channel_acks_fenced_witness :
  exists s c, reachable (H := truncating_server) sample_cfg distinct_oracle s /\
    ch_log s = [Acked 1 c; Delivered 1 c; Opened 1 3] /\ honoured (ch_log s).
Proof.
  assert (exists s c, reachable (H := truncating_server) sample_cfg distinct_oracle s /\
    ch_log s = [Acked 1 c; Delivered 1 c; Opened 1 3]) as (s & c & Hr & Hl).
  { eexists _, (e_gen (distinct_oracle 1%nat) 1%nat 0%nat). split.
    - eapply rtc_l; [|eapply rtc_l; [|eapply rtc_l; [|apply rtc_refl]]].
      + eapply (step_publish _ _ _ [(1, ([Byte.x61], None))] 3); [split; [lia|reflexivity]|].
        eexists. vm_compute. reflexivity.
      + eapply (step_consume _ _ _ (30 * second) 0). eexists. vm_compute. reflexivity.
      + eapply (step_ack _ _ _
          (mkReceipt 1 (e_gen (distinct_oracle 1%nat) 1%nat 0%nat) "jobs" QueueTypeChannel "")).
        eexists. vm_compute. reflexivity.
    - vm_compute. reflexivity. }
  exists s, c. split; [exact Hr|]. split; [exact Hl|].
  apply (channel_acks_fenced (H := truncating_server) sample_cfg distinct_oracle s
    distinct_oracle_reliable distinct_oracle_distinct Hr).
Defined.
