(* ===== verification/TopicLifecycle.v ===== *)
(** * The life of a topic's messages

    The transactions of publishers, subscribers, operators that replay messages and the
    garbage collector on one topic, interleaved in any order, as [Lifecycle] has them
    for a channel: a step relation over the topic's tables with the history of what
    was committed, per message and subscriber.  The subscribers a publisher or a replay
    finds active and the ones the collector finds gone are those of the step.  The
    steps implement the delivery contract of [Contract]. *)

From S2P Require Import Prelude Types Tx Backoff Utf8 World Config Queries Channel Publish PubSub Gc GcChannel GcTopic Replay Batch BatchTopic Contract.
From Stdlib Require Import ZArith Lia.
Local Open Scope Z_scope.

(** ** A fan-out that commits *)

(** Whatever keys the server generates: what the fan-out inserts did, when they went
    through. *)
Lemma insert_sub_Ok e n i rec t t' :
  insert_sub e n i rec t = Ok t' -> topic_keys t ->
  subscribed (e_now e) [rec] t t' /\ topic_keys t'.
Proof.
  intros Hins Hk. assert (is_Some (tt_msgs t !! sr_messageID rec)) as Hm.
  { unfold insert_sub in Hins. by destruct (tt_msgs t !! sr_messageID rec). }
  destruct (tt_subs t !! e_gen e n i) as [s0|] eqn:Hg.
  - unfold insert_sub in Hins. destruct Hm as [m Hm]. rewrite Hm, Hg in Hins.
    destruct (find_sub t _ _) as [[k s]|] eqn:Hf; [|done]. injection Hins as <-.
    apply find_sub_Some in Hf as (Hks & ? & ?). split; [|done]. split_and!; [done..| |by left].
    intros rec' ->%list_elem_of_singleton. by exists k, s.
  - destruct (insert_sub_spec e n i rec t Hk Hm Hg) as (t1 & Heq & ? & ? & _).
    rewrite Heq in Hins. by injection Hins as <-.
Qed.

Lemma insert_subs_Ok e n i recs t t' :
  insert_subs e n i recs t = Ok t' -> topic_keys t ->
  subscribed (e_now e) recs t t' /\ topic_keys t'.
Proof.
  revert i t. induction recs as [|rec recs IH]; intros i t Hins Hk.
  { injection Hins as <-. split; [apply subscribed_refl|done]. }
  cbn [insert_subs] in Hins. unfold mbind, result_bind in Hins.
  destruct (insert_sub e n i rec t) as [t1|] eqn:H1; [|done].
  destruct (insert_sub_Ok _ _ _ _ _ _ H1 Hk) as [Hs1 Hk1]. destruct (IH _ _ Hins Hk1) as [Hs2 Hk2].
  split; [|done]. by apply (subscribed_trans _ [rec] recs t t1 t').
Qed.

Lemma wp_chunks_Ok e n cs t (Q : unit -> nat -> option topicTables -> Prop) :
  topic_keys t ->
  (forall t' n', subscribed (e_now e) (mjoin cs) t t' -> topic_keys t' -> Q tt n' (Some t')) ->
  wp e n (Some t) (for_each insert_sub_chunk cs) Q (fun _ => True).
Proof.
  revert n t Q. induction cs as [|c cs IH]; intros n t Q Hk HQ.
  { cbn [for_each]. wp_step. apply HQ; [apply subscribed_refl|done]. }
  cbn [for_each mjoin list_join] in *. wp_step. unfold insert_sub_chunk. wp_step.
  destruct (insert_subs e n 0 c t) as [t1|] eqn:H1; [|done].
  destruct (insert_subs_Ok _ _ _ _ _ _ H1 Hk) as [Hs1 Hk1]. apply IH; [done|].
  intros t2 n2 Hs2 Hk2. apply HQ; [|done]. by eapply subscribed_trans.
Qed.

Lemma wp_records_Ok e n recs t (Q : unit -> nat -> option topicTables -> Prop) :
  topic_keys t ->
  (forall t' n', subscribed (e_now e) recs t t' -> topic_keys t' -> Q tt n' (Some t')) ->
  wp e n (Some t) (insertSubscriptionRecords recs) Q (fun _ => True).
Proof.
  intros Hk HQ. apply wp_chunks_Ok; [done|].
  rewrite chunks_concat; [done|unfold subFanoutChunkRows; lia|done].
Qed.

Lemma wp_fanout_Ok e n recs buf t (Q : unit -> nat -> option topicTables -> Prop) :
  topic_keys t ->
  (forall t' n', subscribed (e_now e) (buf ++ recs) t t' -> topic_keys t' -> Q tt n' (Some t')) ->
  wp e n (Some t) (fanout recs buf) Q (fun _ => True).
Proof.
  revert n buf t Q. induction recs as [|rec recs IH]; intros n buf t Q Hk HQ.
  { cbn [fanout]. rewrite (right_id_L [] (++)) in *. destruct buf as [|b buf].
    - wp_step. apply HQ; [apply subscribed_refl|done].
    - by apply wp_records_Ok. }
  cbn [fanout]. change (rec :: recs) with ([rec] ++ recs) in *. rewrite (assoc_L (++)) in *.
  destruct (length (buf ++ [rec]) =? subFanoutChunkRows)%nat; [|by apply IH].
  wp_step. apply wp_records_Ok; [done|]. intros t1 n1 Hs1 Hk1. apply IH; [done|].
  intros t2 n2 Hs2 Hk2. apply HQ; [|done]. by eapply subscribed_trans.
Qed.

(** ** The steps *)

Section topic_lifecycle.
Context `{Server} (cfg : queueConfig) (o : oracle) (mr : Z).

Record topic := mkTopic {
  tp_tick : nat;                        (* transactions so far; the next one runs in [o tp_tick] *)
  tp_tables : topicTables;
  tp_log : list (event (uuid * string))
}.

Definition topic_commits {A} (body : tx topicTables A) (s : topic) (a : A) (t' : topicTables) : Prop :=
  commits_in (o (tp_tick s)) body (tp_tables s) a t'.

(** What a publish does to the topic's tables, for one message and for a batch, with
    the active subscribers; the copies it makes. *)
Inductive publish_body : list uuid -> list subRecord -> tx topicTables unit -> Prop :=
| publish_one id payload metadata subs :            (* publishToPubSub *)
    publish_body [id] (map (fun s => mkSubRecord id (sb_SubscriberID s)) subs) (
      rowsAffected ← insert_topic_rows [(id, (payload, metadata))];
      if (rowsAffected =? 0)%nat then throw ErrDuplicateMessageID
      else match subs with
           | [] => mret tt
           | _ => insertSubscriptionRecords (map (fun s => mkSubRecord id (sb_SubscriberID s)) subs)
           end)
| publish_many rows subs :                          (* publishBatchToPubSub *)
    publish_body rows.*1 (cross rows.*1 subs) (
      rowsAffected ← insert_topic_rows rows;
      if (rowsAffected <? length rows)%nat then throw ErrDuplicateMessageID
      else match subs with
           | [] => mret tt
           | _ => batchCreateSubscriptionRecords rows.*1 subs
           end).

(** What a page of a dead-letter replay does to them, once it has resolved the copies
    to make and the dead letters to remove. *)
Definition revive_copies (records : list subRecord) (replayedIDs : list uuid) : tx topicTables unit :=
  insertSubscriptionRecords records ;; delete_dead_letters replayedIDs.

(** The copies of [records], those of them that are missing, and the ones an UPDATE of
    [applyReplayFrom] puts back. *)
Definition record_key (rec : subRecord) : uuid * string := (sr_messageID rec, sr_subscriberID rec).
Definition copy_key (s : subRow) : uuid * string := (s_message_id s, s_subscriber_id s).
Definition open_copies (ks : list (uuid * string)) : list (event (uuid * string)) :=
  opens ((fun k => (k, mr)) <$> ks).
Definition missing (t : topicTables) (records : list subRecord) : list subRecord :=
  filter (fun rec => find_sub t (sr_messageID rec) (sr_subscriberID rec) = None) records.
Definition replayed_copies (ids : list uuid) (t : topicTables) : list (uuid * string) :=
  (fun x => copy_key x.2) <$>
    sql_select (fun k s => bool_decide (k ∈ ids) && settled (s_status s)) (fun _ => 0) (tt_subs t).

(** The page statements of a collection pass. *)
Inductive gc_topic_body : tx topicTables nat -> Prop :=
| gc_purge_finished ttl : 0 < ttl -> gc_topic_body (purge_finished_page ttl)
| gc_purge_pending_subs age : 0 < age -> gc_topic_body (purge_pending_subs_page age)
| gc_purge_topic_dlq ret : 0 < ret -> gc_topic_body (stmt (fun e _ t =>
    let '(m, k) := delete_page (dead_before e ret) (fun _ => 0) (tt_dlq t) in
    (Ok k, set_tt_dlq m t)))
| gc_inactive inactive : gc_topic_body (inactive_page inactive)
| gc_orphan : gc_topic_body orphan_page
| gc_promote_subs : gc_topic_body (promoteExhaustedTopicPage mr)
| gc_reset_subs : gc_topic_body (reset_subs_page mr).

Inductive topic_step (s : topic) : topic -> Prop :=
| topic_fail :                                      (* a transaction that rolls back *)
    topic_step s (mkTopic (S (tp_tick s)) (tp_tables s) (tp_log s))
| topic_publish ids recs body t' :
    publish_body ids recs body -> topic_commits body s tt t' ->
    topic_step s (mkTopic (S (tp_tick s)) t' (open_copies (record_key <$> recs) ++ tp_log s))
| topic_consume sid vt ttl msg deadline t' :        (* consumeFromTopic, with a message *)
    topic_commits (fetchPendingTopicMessage cfg sid vt ttl mr) s (Some (msg, deadline)) t' ->
    topic_step s (mkTopic (S (tp_tick s)) t' (Delivered (m_ID msg, sid) (m_ClaimID msg) :: tp_log s))
| topic_consume_empty sid vt ttl t' :               (* consumeFromTopic, empty *)
    topic_commits (fetchPendingTopicMessage cfg sid vt ttl mr) s None t' ->
    topic_step s (mkTopic (S (tp_tick s)) t' (tp_log s))
| topic_ack sid rc t' :                             (* ackTopic *)
    topic_commits (update_claimed_sub sid rc (fun e => ack_sub (e_now e))) s tt t' ->
    topic_step s (mkTopic (S (tp_tick s)) t' (Acked (r_MessageID rc, sid) (r_ClaimID rc) :: tp_log s))
| topic_extend sid rc d t' :                        (* extendTopicVisibility *)
    topic_commits (update_claimed_sub sid rc (fun e => extend_sub (e_now e + make_interval d))) s tt t' ->
    topic_step s (mkTopic (S (tp_tick s)) t' (tp_log s))
| topic_nack sid rc msg override t' :               (* nackTopicImpl *)
    topic_commits (nack_sub_tx cfg sid rc (truncateErrorMsg msg) override mr) s tt t' ->
    topic_step s (mkTopic (S (tp_tick s)) t' (tp_log s))
| topic_ack_batch sid rs b t' :                     (* ackTopicBatch *)
    NoDup (receiptMatchKey <$> rs) -> topic_commits (ack_topic_batch_tx sid rs) s b t' ->
    topic_step s (mkTopic (S (tp_tick s)) t'
      (log_acks (fun r => (r_MessageID r, sid)) (Succeeded b) (tp_log s)))
| topic_nack_batch sid rs msg override b t' :       (* nackTopicBatch *)
    NoDup (receiptMatchKey <$> rs) -> text_ok (truncateErrorMsg msg) = true ->
    topic_commits (nack_topic_batch_tx cfg sid rs mr (truncateErrorMsg msg) override) s b t' ->
    topic_step s (mkTopic (S (tp_tick s)) t' (tp_log s))
| topic_replay_from ids k t' :                      (* replayFromPage *)
    topic_commits (replay_subs ids) s k t' ->
    topic_step s (mkTopic (S (tp_tick s)) t'
      (open_copies (replayed_copies ids (tp_tables s)) ++ tp_log s))
| topic_replay_dlq records ids t' :                 (* replayDLQPage *)
    topic_commits (revive_copies records ids) s tt t' ->
    topic_step s (mkTopic (S (tp_tick s)) t'
      (open_copies (record_key <$> missing (tp_tables s) records) ++ tp_log s))
| topic_gc body k t' :                              (* one page of a collection pass *)
    gc_topic_body body -> topic_commits body s k t' ->
    topic_step s (mkTopic (S (tp_tick s)) t' (tp_log s)).

(** Reached from the topic as it is created. *)
Definition topic_init : topic := mkTopic 0 (mkTopicTables ∅ ∅ ∅) [].
Definition topic_reachable : topic -> Prop := rtc topic_step topic_init.

(** ** The contract *)

(** The copies of the topic, by message and subscriber. *)
Definition sub_view (s : subRow) : view :=
  mkView (phase_of (s_status s)) (s_retry_count s) (s_claim_id s) mr.
Definition sub_views (t : topicTables) (i : uuid * string) : option view :=
  sub_view ∘ snd <$> find_sub t i.1 i.2.

Definition topic_life_inv (s : topic) : Prop :=
  gc_topic_inv o mr (tp_tick s) (tp_tables s) /\ claims_before o (tp_tick s) (tp_log s).
Definition topic_simulated (s s' : topic) : Prop :=
  topic_life_inv s' /\
  rtc contract_step (sub_views (tp_tables s), tp_log s) (sub_views (tp_tables s'), tp_log s').

Lemma sub_views_Some t i v :
  topic_keys t ->
  sub_views t i = Some v <-> exists k s, tt_subs t !! k = Some s /\ copy_key s = i /\ v = sub_view s.
Proof.
  intros Hk. unfold sub_views. rewrite fmap_Some. split.
  - intros ([k s] & (Hks & H1 & H2)%find_sub_Some & ->). exists k, s. split; [done|]. split; [|done].
    unfold copy_key. rewrite H1, H2. by destruct i.
  - intros (k & s & Hks & <- & ->). exists (k, s). split; [|done]. by apply find_sub_intro.
Qed.

(** Copies that go away, or change in a way that settles them. *)
Lemma settles_subs t t' :
  topic_keys t -> topic_keys t' ->
  (forall k s', tt_subs t' !! k = Some s' -> exists s, tt_subs t !! k = Some s /\
     copy_key s' = copy_key s /\ settled1 (sub_view s) (sub_view s')) ->
  settles (sub_views t) (sub_views t').
Proof.
  intros Hk Hk' Hs i v (k & s' & Hks & <- & ->)%sub_views_Some; [|done].
  destruct (Hs k s' Hks) as (s & Hs1 & Hkey & Hst). exists (sub_view s). split; [|done].
  apply sub_views_Some; [done|]. by exists k, s.
Qed.

Lemma settles_put_sub k s s' t :
  topic_keys t -> tt_subs t !! k = Some s -> copy_key s' = copy_key s ->
  settled1 (sub_view s) (sub_view s') -> settles (sub_views t) (sub_views (put_sub k s' t)).
Proof.
  intros Hk Hks Hkey Hs. pose proof Hkey as [=]. apply settles_subs; [done|by eapply put_sub_keys|].
  intros j q. cbn. rewrite lookup_insert_Some. intros [[<- <-]|[_ Hj]]; [by exists s|].
  exists q. do 2 (split; [done|]). apply settled1_refl.
Qed.

Lemma settles_dead_letter_sub now j k s m reason rc t :
  topic_inv mr t -> 0 <= rc -> text_ok (truncateErrorMsg reason) = true ->
  settles (sub_views t) (sub_views (dead_letter_sub now j k s m reason rc t)).
Proof.
  intros Hi Hrc Ht. apply settles_subs; [apply Hi|by apply (dead_letter_sub_inv mr)|].
  intros i q. cbn. rewrite lookup_delete_Some. intros [_ Hq]. exists q. do 2 (split; [done|]).
  apply settled1_refl.
Qed.

Lemma settled1_pend_sub a x s :
  s_status s = MessageStatusProcessing ->
  settled1 (sub_view s) (sub_view (pend_sub (s_retry_count s + 1) a x s)).
Proof. intros Hst. split; [done|]. right. cbn. by rewrite Hst. Qed.

(** *** The steps keep the invariant *)

Hypothesis Hrel : reliable o.
Hypothesis Hgen : gen_distinct o.

Lemma gc_topic_next m t : gc_topic_inv o mr m t -> gc_topic_inv o mr (S m) t.
Proof.
  intros (Hi & Hf & Hp). split; [done|]. split; [|done]. eapply fresh_from_sub; [|done..]. lia.
Qed.

Lemma gc_topic_fresh m t : gc_topic_inv o mr m t -> dlq_gen_fresh (o m) 0 t.
Proof.
  intros (_ & Hf & _). split; [intros; by apply Hf|]. intros ? ? ? ? He. apply Hgen in He. tauto.
Qed.

Lemma gc_topic_dead_letter m now j g k s x reason rc t :
  gc_topic_inv o mr (S m) t -> tt_msgs t !! s_message_id s = Some x -> 0 <= rc ->
  text_ok (truncateErrorMsg reason) = true ->
  gc_topic_inv o mr (S m) (dead_letter_sub now (e_gen (o m) j g) k s x reason rc t).
Proof.
  intros (Hi & Hf & Hp) Hx Hrc Ht. split; [by apply dead_letter_sub_inv|]. split.
  - intros m' n i Hm. cbn. rewrite lookup_insert_ne; [by apply Hf|]. intros He%Hgen. lia.
  - intros i d. cbn. rewrite lookup_insert_Some. intros [[_ <-]|[_ Hd]]; [by exists x|by eapply Hp].
Qed.

Lemma gc_topic_put_sub m k s s' t :
  gc_topic_inv o mr m t -> tt_subs t !! k = Some s -> copy_key s' = copy_key s -> sub_wf mr s' ->
  gc_topic_inv o mr m (put_sub k s' t).
Proof. intros (Hi & Hf) Hk [= H1 H2] Hw. split; [by eapply put_sub_inv|done]. Qed.

(** Skipping timed-out copies settles them. *)
Lemma sub_skips_settles m sid ttl k t t' :
  sub_skips cfg (o m) sid ttl mr k t t' -> gc_topic_inv o mr (S m) t ->
  gc_topic_inv o mr (S m) t' /\ settles (sub_views t) (sub_views t').
Proof.
  induction 1 as [t|n t t1 t2 Hs _ IH]; intros HI; [split; [done|apply settles_refl]|].
  destruct Hs as (j & s & x & _ & (Hj & Hx & [Hst _]%reclaimable_sub)%join_message_head & Hcase).
  pose proof (proj1 (proj2 (proj1 HI)) j s Hj) as (_ & ? & ?).
  assert (gc_topic_inv o mr (S m) t1 /\ settles (sub_views t) (sub_views t1)) as [HI1 Hs1].
  { destruct Hcase as [(_ & i & _ & ->)|(Hl & _ & delay & _ & ->)].
    - split.
      + by apply gc_topic_dead_letter; [..|lia|apply errReasonVisibilityTimeout_ok].
      + apply settles_dead_letter_sub; [apply HI|lia|apply errReasonVisibilityTimeout_ok].
    - split.
      + eapply gc_topic_put_sub; [done..|]. split; [by split|]. cbn. lia.
      + eapply settles_put_sub; [apply HI|done|done|by apply settled1_pend_sub]. }
  destruct (IH HI1) as [HI2 Hs2]. split; [done|]. by eapply settles_trans.
Qed.

(** A step that only settles copies. *)
Lemma topic_settle_keeps s t' :
  gc_topic_inv o mr (S (tp_tick s)) t' -> settles (sub_views (tp_tables s)) (sub_views t') ->
  topic_life_inv s -> topic_simulated s (mkTopic (S (tp_tick s)) t' (tp_log s)).
Proof.
  intros HI Hs [_ HL]. split; [split; [done|by apply claims_before_next]|].
  apply rtc_once. by apply contract_settle.
Qed.

(** A step that puts copies on the queue. *)
Lemma topic_open_keeps s ks t' :
  gc_topic_inv o mr (S (tp_tick s)) t' -> topic_life_inv s ->
  (forall k q, tt_subs (tp_tables s) !! k = Some q -> copy_key q ∈ ks -> s_status q <> MessageStatusProcessing) ->
  (forall k q, tt_subs t' !! k = Some q ->
     (copy_key q ∈ ks /\ sub_view q = mkView Waiting 0 None mr) \/
     (copy_key q ∉ ks /\ tt_subs (tp_tables s) !! k = Some q)) ->
  topic_simulated s (mkTopic (S (tp_tick s)) t' (open_copies ks ++ tp_log s)).
Proof.
  intros HI [HI0 HL] Hfl Hnew. assert (((fun k => (k, mr)) <$> ks).*1 = ks) as Hks
    by (rewrite <-list_fmap_compose; apply list_fmap_id).
  split; [split; [done|]|]; cbn [tp_tick tp_tables tp_log].
  - unfold claims_before, open_copies. rewrite opens_claims. by apply claims_before_next.
  - apply rtc_once, contract_open; rewrite ?Hks.
    + intros i n n' (x & [= _ ->] & _)%list_elem_of_fmap (y & [= _ ->] & _)%list_elem_of_fmap. done.
    + intros i v Hi (k & q & Hq & <- & ->)%sub_views_Some; [|apply HI0]. cbn. specialize (Hfl k q Hq Hi).
      by destruct (s_status q).
    + intros i v (k & q & Hq & <- & ->)%sub_views_Some; [|apply HI].
      destruct (Hnew k q Hq) as [[Hin ->]|[Hout Hq']].
      * left. exists mr. split; [|done]. apply list_elem_of_fmap. by exists (copy_key q).
      * right. split; [done|]. apply sub_views_Some; [apply HI0|]. by exists k, q.
Qed.

(** A publish adds new messages, and copies of these messages only. *)
Lemma publish_body_ok m ids recs body t t' :
  publish_body ids recs body -> commits_in (o m) body t tt t' -> topic_keys t ->
  (forall rec, rec ∈ recs -> sr_messageID rec ∈ ids) /\ ids_new (tt_msgs t) ids /\
  topic_keys t' /\ tt_msgs t ⊆ tt_msgs t' /\ tt_dlq t' = tt_dlq t /\
  forall k s, tt_subs t' !! k = Some s -> tt_subs t !! k = Some s \/
    exists rec, rec ∈ recs /\ s = new_sub_row (e_now (o m)) rec.
Proof.
  intros Hb Hc Hk. set (now := e_now (o m)).
  assert (forall rec, rec ∈ recs -> sr_messageID rec ∈ ids) as Hrecs.
  { destruct Hb as [id p md subs|rows subs]; [|by intros rec [Hrec _]%elem_of_cross].
    intros rec (y & -> & _)%list_elem_of_fmap. left. }
  split; [exact Hrecs|].
  assert (forall rows t1, ids = rows.*1 -> ids_new (tt_msgs t) ids ->
    subscribed now recs (topic_published now rows t) t1 -> topic_keys t1 ->
    ids_new (tt_msgs t) ids /\ topic_keys t1 /\ tt_msgs t ⊆ tt_msgs t1 /\ tt_dlq t1 = tt_dlq t /\
    forall k s, tt_subs t1 !! k = Some s -> tt_subs t !! k = Some s \/
      exists rec, rec ∈ recs /\ s = new_sub_row now rec) as Hfan.
  { intros rows t1 -> Hnew (Hm & Hd & _ & _ & Hn) Hk1. do 2 (split; [done|]). rewrite Hm, Hd.
    split; [apply map_union_subseteq_l|]. split; [done|]. apply Hn. }
  assert (forall rows, topic_keys (topic_published now rows t)) as Hkp
    by (intros rows; by apply topic_published_keys).
  eapply (commits_wp _ _ _ _ _ (fun _ x => ids_new (tt_msgs t) ids /\ topic_keys x /\
    tt_msgs t ⊆ tt_msgs x /\ tt_dlq x = tt_dlq t /\
    forall k s, tt_subs x !! k = Some s -> tt_subs t !! k = Some s \/
      exists rec, rec ∈ recs /\ s = new_sub_row now rec) Hc).
  destruct Hb as [id p md subs|rows subs]; wp_step; (apply wp_insert_topic_rows; [done|done|]); intros k _ Hle Hnew.
  - destruct (Nat.eqb_spec k 0); [by wp_step|]. cbn in Hle. specialize (Hfan [(id, (p, md))]).
    destruct subs as [|x subs]; [wp_step|apply wp_records_Ok; [done|intros t1 _ Hs Hk1]];
      apply Hfan; [done|apply Hnew; cbn; lia|apply subscribed_refl|done|done|apply Hnew; cbn; lia|done|done].
  - destruct (Nat.ltb_spec k (length rows)); [by wp_step|]. specialize (Hfan rows).
    assert (cross rows.*1 [] = []) as Hnil.
    { apply elem_of_nil_inv. intros rec [_ (y & Hy & _)]%elem_of_cross. by apply elem_of_nil in Hy. }
    destruct subs as [|x subs]; [wp_step|apply wp_fanout_Ok; [done|intros t1 _ Hs Hk1]];
      apply Hfan; [done|apply Hnew; lia|rewrite Hnil; apply subscribed_refl|done|done|apply Hnew; lia|done|done].
Qed.

(** Copies that were inserted are pending, of this instant. *)
Lemma gc_topic_inserted m (recs : list subRecord) t t' :
  0 <= mr < int64_max -> gc_topic_inv o mr m t -> topic_keys t' -> tt_msgs t ⊆ tt_msgs t' ->
  tt_dlq t' ⊆ tt_dlq t ->
  (forall k s, tt_subs t' !! k = Some s -> tt_subs t !! k = Some s \/
     exists rec, rec ∈ recs /\ s = new_sub_row (e_now (o m)) rec) ->
  gc_topic_inv o mr (S m) t'.
Proof.
  intros Hmr ((_ & Hw & Hd) & Hf & Hp) Hk' Hm Hdl Hs. split; [split; [done|split]|split].
  - intros k q [Hq|(rec & _ & ->)]%Hs; [by apply (Hw k)|]. split; [done|]. cbn. lia.
  - intros k d Hkd. eapply Hd. by eapply lookup_weaken.
  - eapply fresh_from_sub; [|done..]. lia.
  - intros k d Hkd. destruct (Hp k d) as [x Hx]; [by eapply lookup_weaken|]. exists x.
    by eapply lookup_weaken.
Qed.

Lemma topic_publish_keeps s ids recs body t' :
  0 <= mr < int64_max -> topic_life_inv s -> publish_body ids recs body ->
  topic_commits body s tt t' ->
  topic_simulated s (mkTopic (S (tp_tick s)) t' (open_copies (record_key <$> recs) ++ tp_log s)).
Proof.
  intros Hmr Hinv Hb Hc. pose proof Hinv as [HI _]. pose proof (proj1 (proj1 HI)) as Hk.
  destruct (publish_body_ok _ _ _ _ _ _ Hb Hc Hk) as (Hids & [_ Hnew] & Hk' & Hm & Hd & Hs).
  assert (forall k q, tt_subs (tp_tables s) !! k = Some q -> copy_key q ∉ record_key <$> recs) as Hout.
  { intros k q Hq ([mid sid] & Heq & Hrec%Hids)%list_elem_of_fmap. injection Heq as Hmid _.
    cbn in Hrec. destruct (proj1 Hk k q Hq) as [x Hx]. rewrite Hmid in Hx. by rewrite (Hnew _ Hrec) in Hx. }
  apply topic_open_keeps; [|done|..].
  - eapply gc_topic_inserted; [done..| |exact Hs]. by rewrite Hd.
  - intros k q Hq Hin. by destruct (Hout k q Hq).
  - intros k q Hq. destruct (Hs k q Hq) as [Hq'|(rec & Hrec & ->)]; [right; by eauto|left].
    split; [|done]. apply list_elem_of_fmap. by exists rec.
Qed.

Lemma topic_consume_keeps s sid vt ttl msg deadline t' :
  topic_life_inv s -> topic_commits (fetchPendingTopicMessage cfg sid vt ttl mr) s (Some (msg, deadline)) t' ->
  topic_simulated s (mkTopic (S (tp_tick s)) t' (Delivered (m_ID msg, sid) (m_ClaimID msg) :: tp_log s)).
Proof.
  intros [HI HL] Hc. set (m := tp_tick s) in *. set (t := tp_tables s) in *.
  assert (exists k t1 j q x rc n dl, sub_skips cfg (o m) sid ttl mr k t t1 /\
    sub_delivers cfg (o m) sid ttl mr t1 j q x rc /\ tt_subs t1 !! j = Some q /\
    msg = sub_delivered mr q x rc (e_gen (o m) n 0%nat) /\
    t' = put_sub j (claim_sub rc (e_gen (o m) n 0%nat) dl q) t1)
    as (k & t1 & j & q & x & rc & n & dl & Hsk & Hdel & Hj & -> & ->).
  { eapply (commits_wp _ _ _ _ _ (fun a y => match a with
      | Some (msg, _) => exists k t1 j q x rc n dl, sub_skips cfg (o m) sid ttl mr k t t1 /\
          sub_delivers cfg (o m) sid ttl mr t1 j q x rc /\ tt_subs t1 !! j = Some q /\
          msg = sub_delivered mr q x rc (e_gen (o m) n 0%nat) /\
          y = put_sub j (claim_sub rc (e_gen (o m) n 0%nat) dl q) t1
      | None => True end) Hc).
    apply wp_fetchTopicLoop; [done|apply HI|by apply gc_topic_fresh|done|].
    intros k n t1 j q x rc _ Hsk _ Hdel Hj dl. by exists k, t1, j, q, x, rc, n, dl. }
  destruct (sub_skips_settles _ _ _ _ _ _ Hsk (gc_topic_next _ _ HI)) as [HI1 Hs1].
  pose proof (proj1 (proj1 HI1)) as Hk1. pose proof (proj1 (proj2 (proj1 HI1)) j q Hj) as (_ & Hrc0 & Hmr).
  assert (attempt (sub_view q) rc /\ s_subscriber_id q = sid /\ 0 <= rc <= mr) as (Hatt & <- & Hlim).
  { unfold attempt. cbn. destruct Hdel as [[(_ & _ & Hp%pending_sub)%join_message_head ->]|
      (_ & (_ & _ & Hp%reclaimable_sub)%join_message_head & -> & ? & _)]; destruct Hp as [Hp Hsid];
      rewrite Hp; cbn; (split; [auto|split; [done|lia]]). }
  split; [split|]; cbn [tp_tick tp_tables tp_log].
  - eapply gc_topic_put_sub; [done..|]. split; [by split; eexists|]. cbn. lia.
  - by apply claims_before_deliver.
  - eapply rtc_l; [apply contract_settle; exact Hs1|]. apply rtc_once.
    eapply (contract_deliver (sub_views t1) _ _ (copy_key q) (sub_view q) rc);
      [apply sub_views_Some; [done|]; by exists j, q|done|apply Hlim|by apply (claims_fresh o)|].
    intros i v (k' & q' & Hq' & <- & ->)%sub_views_Some; [|by eapply put_sub_keys].
    cbn in Hq'. apply lookup_insert_Some in Hq' as [[<- <-]|[Hne Hq']]; [by left|right]. split.
    + intros [= E1 E2]. apply Hne. symmetry. by apply (proj2 Hk1 k' j q' q).
    + apply sub_views_Some; [done|]. by exists k', q'.
Qed.

Lemma topic_consume_empty_keeps s sid vt ttl t' :
  topic_life_inv s -> topic_commits (fetchPendingTopicMessage cfg sid vt ttl mr) s None t' ->
  topic_simulated s (mkTopic (S (tp_tick s)) t' (tp_log s)).
Proof.
  intros Hinv Hc. pose proof Hinv as [HI _].
  assert (exists k, sub_skips cfg (o (tp_tick s)) sid ttl mr k (tp_tables s) t') as [k Hsk].
  { eapply (commits_wp _ _ _ _ _ (fun a x => match a with
      | None => exists k, sub_skips cfg (o (tp_tick s)) sid ttl mr k (tp_tables s) x | _ => True end) Hc).
    apply wp_fetchTopicLoop; [done|apply HI|by apply gc_topic_fresh| |done].
    intros k n t1 _ Hsk _. by exists k. }
  destruct (sub_skips_settles _ _ _ _ _ _ Hsk (gc_topic_next _ _ HI)). by apply topic_settle_keeps.
Qed.

(** A fenced update that commits, commits on the copy the receipt owns. *)
Lemma update_claimed_sub_commits s sid rc f t' :
  topic_commits (update_claimed_sub sid rc f) s tt t' ->
  exists k q, owned_sub (tp_tables s) sid rc = Some (k, q) /\
    t' = put_sub k (f (o (tp_tick s)) q) (tp_tables s).
Proof.
  intros Hc. eapply (commits_wp _ _ _ _ _ (fun _ x => exists k q,
    owned_sub (tp_tables s) sid rc = Some (k, q) /\
    x = put_sub k (f (o (tp_tick s)) q) (tp_tables s)) Hc).
  apply wp_update_claimed_sub; [done|].
  destruct (owned_sub (tp_tables s) sid rc) as [[k q]|]; [by exists k, q|done].
Qed.

(** One acknowledgement of a receipt that owns its copy. *)
Lemma ack_sub_keeps m now t l sid rc k q :
  gc_topic_inv o mr m t -> owned_sub t sid rc = Some (k, q) ->
  gc_topic_inv o mr m (put_sub k (ack_sub now q) t) /\
  contract_step (sub_views t, l) (sub_views (put_sub k (ack_sub now q) t),
    Acked (r_MessageID rc, sid) (r_ClaimID rc) :: l).
Proof.
  intros HI (Hk & <- & <- & Hcl & Hst)%owned_sub_Some.
  pose proof (proj1 (proj1 HI)) as Hkeys. pose proof (proj1 (proj2 (proj1 HI)) k q Hk) as (_ & Hrc).
  split.
  - eapply gc_topic_put_sub; [done|done|done|]. split; [|done]. split; by eexists.
  - eapply (contract_ack _ _ _ (copy_key q) (sub_view q));
      [apply sub_views_Some; [done|]; by exists k, q|cbn; by rewrite Hst|done|].
    intros i v (k' & q' & Hq' & <- & ->)%sub_views_Some; [|by eapply put_sub_keys].
    cbn in Hq'. apply lookup_insert_Some in Hq' as [[<- <-]|[Hne Hq']]; [by left|right]. split.
    + intros [= E1 E2]. apply Hne. symmetry. by apply (proj2 Hkeys k' k q' q).
    + apply sub_views_Some; [done|]. by exists k', q'.
Qed.

Lemma topic_ack_keeps s sid rc t' :
  topic_life_inv s -> topic_commits (update_claimed_sub sid rc (fun e => ack_sub (e_now e))) s tt t' ->
  topic_simulated s (mkTopic (S (tp_tick s)) t' (Acked (r_MessageID rc, sid) (r_ClaimID rc) :: tp_log s)).
Proof.
  intros [HI HL] (k & q & Ho & ->)%update_claimed_sub_commits.
  destruct (ack_sub_keeps _ (e_now (o (tp_tick s))) _ (tp_log s) _ _ _ _ HI Ho) as [HI' Hs].
  split; [split; [by apply gc_topic_next|by apply claims_before_next]|by apply rtc_once].
Qed.

Lemma ack_sub_each_keeps m now sid rs t l :
  gc_topic_inv o mr m t ->
  gc_topic_inv o mr m (ack_sub_each now sid rs t).2 /\
  rtc contract_step (sub_views t, l) (sub_views (ack_sub_each now sid rs t).2,
    log_acks (fun r => (r_MessageID r, sid)) (Succeeded (ack_sub_each now sid rs t).1) l).
Proof.
  revert t l. induction rs as [|rc rs IH]; intros t l HI; [done|]. cbn [ack_sub_each].
  destruct (owned_sub t sid rc) as [[k q]|] eqn:Ho.
  - destruct (ack_sub_keeps _ now _ l _ _ _ _ HI Ho) as [HI' Hs].
    specialize (IH _ (Acked (r_MessageID rc, sid) (r_ClaimID rc) :: l) HI').
    destruct (ack_sub_each now sid rs _) as [b t']. destruct IH as [? ?]. split; [done|]. by eapply rtc_l.
  - specialize (IH _ l HI). by destruct (ack_sub_each now sid rs t).
Qed.

Lemma topic_ack_batch_keeps s sid rs b t' :
  topic_life_inv s -> NoDup (receiptMatchKey <$> rs) -> topic_commits (ack_topic_batch_tx sid rs) s b t' ->
  topic_simulated s (mkTopic (S (tp_tick s)) t'
    (log_acks (fun r => (r_MessageID r, sid)) (Succeeded b) (tp_log s))).
Proof.
  intros [HI HL] Hnd Hc.
  eapply (commits_wp _ _ _ _ _ (fun b x => topic_simulated s (mkTopic (S (tp_tick s)) x
    (log_acks (fun r => (r_MessageID r, sid)) (Succeeded b) (tp_log s)))) Hc).
  apply wp_ack_topic_batch_tx; [done|apply HI|done|]. intros _.
  destruct (ack_sub_each_keeps (S (tp_tick s)) (e_now (o (tp_tick s))) sid rs _ (tp_log s)
    (gc_topic_next _ _ HI)). split; [split; [done|]|done].
  unfold claims_before. cbn. rewrite log_acks_claims. by apply claims_before_next.
Qed.

Lemma topic_extend_keeps s sid rc d t' :
  topic_life_inv s ->
  topic_commits (update_claimed_sub sid rc (fun e => extend_sub (e_now e + make_interval d))) s tt t' ->
  topic_simulated s (mkTopic (S (tp_tick s)) t' (tp_log s)).
Proof.
  intros Hinv (k & q & Ho & ->)%update_claimed_sub_commits. pose proof Hinv as [HI _].
  apply owned_sub_Some in Ho as (Hk & _ & _ & Hcl & Hst).
  pose proof (proj1 (proj2 (proj1 HI)) k q Hk) as (_ & Hrc). apply topic_settle_keeps; [| |done].
  - eapply gc_topic_put_sub; [by apply gc_topic_next|done|done|]. split; [|done].
    unfold sub_status_wf. cbn. rewrite Hst. split; by eexists.
  - eapply settles_put_sub; [apply HI|done|done|apply settled1_refl].
Qed.

(** One nack of a receipt that owns its copy. *)
Lemma nack_sub1_settles m sid override msg rc t t' :
  text_ok (truncateErrorMsg msg) = true -> nack_sub1 cfg (o m) sid mr override msg rc t t' ->
  gc_topic_inv o mr (S m) t -> gc_topic_inv o mr (S m) t' /\ settles (sub_views t) (sub_views t').
Proof.
  intros Ht (k & q & (Hk & _ & _ & _ & Hst)%owned_sub_Some & Hcase) HI.
  pose proof (proj1 (proj2 (proj1 HI)) k q Hk) as (_ & Hrc & Hmr).
  destruct Hcase as [(_ & n & i & x & _ & Hx & ->)|(Hl & delay & _ & ->)]; split.
  - apply gc_topic_dead_letter; [done|done|lia|done].
  - apply settles_dead_letter_sub; [apply HI|lia|done].
  - eapply gc_topic_put_sub; [done..|]. split; [by split|]. cbn. lia.
  - eapply settles_put_sub; [apply HI|done|done|by apply settled1_pend_sub].
Qed.

Lemma sub_nacks_settles m sid override msg us t t' :
  text_ok (truncateErrorMsg msg) = true -> sub_nacks cfg (o m) sid mr override msg us t t' ->
  gc_topic_inv o mr (S m) t -> gc_topic_inv o mr (S m) t' /\ settles (sub_views t) (sub_views t').
Proof.
  intros Ht. induction 1 as [t|rc us t t1 t2 Hn _ IH]; intros HI; [split; [done|apply settles_refl]|].
  destruct (nack_sub1_settles _ _ _ _ _ _ _ Ht Hn HI) as [HI1 Hs1]. destruct (IH HI1) as [HI2 Hs2].
  split; [done|]. by eapply settles_trans.
Qed.

Lemma topic_nack_keeps s sid rc msg override t' :
  topic_life_inv s -> topic_commits (nack_sub_tx cfg sid rc (truncateErrorMsg msg) override mr) s tt t' ->
  topic_simulated s (mkTopic (S (tp_tick s)) t' (tp_log s)).
Proof.
  intros Hinv Hc. pose proof Hinv as [HI _]. set (m := tp_tick s) in *. set (t := tp_tables s) in *.
  assert (text_ok (truncateErrorMsg msg) = true /\ nack_sub1 cfg (o m) sid mr override msg rc t t')
    as [Ht Hn].
  { eapply (commits_wp _ _ _ _ _ (fun _ y => text_ok (truncateErrorMsg msg) = true /\
      nack_sub1 cfg (o m) sid mr override msg rc t y) Hc). fold m t.
    apply wp_nack_sub_tx; [done|done|apply HI|by apply gc_topic_fresh|].
    destruct (owned_sub t sid rc) as [[k q]|] eqn:Ho; [|done]. intros Ht.
    destruct (Z.ltb_spec mr (s_retry_count q + 1)).
    - intros x Hx. split; [done|]. exists k, q. split; [done|]. left. split; [lia|].
      eexists _, _, x. split; [|done]. by apply (gc_topic_fresh _ _ HI); lia.
    - intros delay n' Hd. split; [done|]. exists k, q. split; [done|]. right. split; [lia|]. by exists delay. }
  destruct (nack_sub1_settles _ _ _ _ _ _ _ Ht Hn (gc_topic_next _ _ HI)). by apply topic_settle_keeps.
Qed.

Lemma topic_nack_batch_keeps s sid rs msg override b t' :
  topic_life_inv s -> NoDup (receiptMatchKey <$> rs) -> text_ok (truncateErrorMsg msg) = true ->
  topic_commits (nack_topic_batch_tx cfg sid rs mr (truncateErrorMsg msg) override) s b t' ->
  topic_simulated s (mkTopic (S (tp_tick s)) t' (tp_log s)).
Proof.
  intros Hinv Hnd Ht Hc. pose proof Hinv as [HI _].
  assert (exists us, sub_nacks cfg (o (tp_tick s)) sid mr override msg us (tp_tables s) t') as [us Hn].
  { eapply (commits_wp _ _ _ _ _ (fun _ y => exists us,
      sub_nacks cfg (o (tp_tick s)) sid mr override msg us (tp_tables s) y) Hc).
    apply wp_nack_topic_batch_tx; [done|done|apply HI|by apply gc_topic_fresh|done|].
    intros us y n' _ Hn. by exists us. }
  destruct (sub_nacks_settles _ _ _ _ _ _ _ Ht Hn (gc_topic_next _ _ HI)). by apply topic_settle_keeps.
Qed.

Lemma pruned_settles inactive p a b t t' :
  topic_keys t -> topic_keys t' -> pruned o inactive p (a, t) (b, t') ->
  settles (sub_views t) (sub_views t').
Proof.
  intros Hk Hk' (_ & _ & Hs & _). apply settles_subs; [done..|]. intros k s Hks. exists s.
  split; [by eapply lookup_weaken|]. split; [done|apply settled1_refl].
Qed.

Lemma subs_reclaimed_settles a b t t' :
  topic_keys t -> topic_keys t' -> subs_reclaimed o (a, t) (b, t') -> settles (sub_views t) (sub_views t').
Proof.
  intros Hk Hk' (_ & _ & H2 & H3). apply settles_subs; [done..|]. intros k s' Hk1. cbn [fst snd] in *.
  destruct (tt_subs t !! k) as [s|] eqn:Hs; [|by rewrite (H3 k Hs) in Hk1].
  exists s. split; [done|].
  destruct (H2 k s Hs) as [Hs'|((m & _ & Hm & _) & [Hn|Hs'])]; [|congruence|];
    rewrite Hs' in Hk1; injection Hk1 as <-; (split; [done|]); [apply settled1_refl|].
  by apply settled1_pend_sub.
Qed.

Lemma topic_gc_keeps s body k t' :
  topic_life_inv s -> gc_topic_body body -> topic_commits body s k t' ->
  topic_simulated s (mkTopic (S (tp_tick s)) t' (tp_log s)).
Proof.
  intros Hinv Hb Hc. pose proof Hinv as [HI _]. pose proof (proj1 (proj1 HI)) as Hk.
  assert (forall size Rel Dn mu, page_ok o size body (gc_topic_inv o mr) Rel Dn mu ->
    gc_topic_inv o mr (S (tp_tick s)) t' /\
    Rel (tp_tick s, tp_tables s) (S (tp_tick s), t')) as Hpage.
  { intros size Rel Dn mu Hok.
    eapply (commits_wp _ _ _ _ _ (fun _ x => gc_topic_inv o mr (S (tp_tick s)) x /\
      Rel (tp_tick s, tp_tables s) (S (tp_tick s), x)) Hc).
    eapply wp_mono; [apply (Hok _ _ HI)| |done]. intros n _ x (x' & -> & ? & ? & _). done. }
  assert (forall size inactive p Dn mu, page_ok o size body (gc_topic_inv o mr) (pruned o inactive p) Dn mu ->
    topic_simulated s (mkTopic (S (tp_tick s)) t' (tp_log s))) as Hprune.
  { intros size inactive p Dn mu [HI' Hp]%Hpage. apply topic_settle_keeps; [done| |done].
    eapply pruned_settles; [done|apply HI'|done]. }
  assert (forall size Dn mu, page_ok o size body (gc_topic_inv o mr) (subs_reclaimed o) Dn mu ->
    topic_simulated s (mkTopic (S (tp_tick s)) t' (tp_log s))) as Hrecl.
  { intros size Dn mu [HI' Hp]%Hpage. apply topic_settle_keeps; [done| |done].
    eapply subs_reclaimed_settles; [done|apply HI'|done]. }
  destruct Hb as [ttl Ht|age Ha|ret Hr|inactive| | |].
  - eapply Hprune, (purge_finished_ok o mr (fun _ => false) (mkRetentionPolicy ttl 0 0) Hrel Ht).
  - eapply Hprune, (purge_pending_subs_ok o mr (fun _ => false) (mkRetentionPolicy 0 age 0) Hrel Ha).
  - eapply Hprune, (purge_topic_dlq_ok o mr (fun _ => false) (mkRetentionPolicy 0 0 ret) Hrel Hr).
  - eapply Hprune, (inactive_ok o mr inactive (mkRetentionPolicy 0 0 0) Hrel).
  - eapply Hprune, (orphan_ok o mr (fun _ => false) (mkRetentionPolicy 0 0 0) Hrel).
  - eapply Hrecl, (promote_subs_ok o mr Hrel Hgen).
  - eapply Hrecl, (reset_subs_ok o mr Hrel).
Qed.

(** *** Replay *)

Lemma topic_replay_from_keeps s ids k t' :
  topic_life_inv s -> topic_commits (replay_subs ids) s k t' ->
  topic_simulated s (mkTopic (S (tp_tick s)) t'
    (open_copies (replayed_copies ids (tp_tables s)) ++ tp_log s)).
Proof.
  intros Hinv Hc. pose proof Hinv as [HI _]. set (t := tp_tables s) in *.
  pose proof HI as (((Hfk & Huq) & Hw & Hd) & Hf & Hp).
  set (P := fun (i : Z) (q : subRow) => bool_decide (i ∈ ids) && settled (s_status q)).
  assert (t' = set_tt_subs (sql_update_ids (sql_select P (fun _ => 0) (tt_subs t)).*1 replay_sub (tt_subs t)) t)
    as ->.
  { eapply (commits_wp _ _ _ _ _ (fun _ x => x = _) Hc). unfold replay_subs. by wp_step. }
  assert (forall c, c ∈ replayed_copies ids t <-> exists j q, tt_subs t !! j = Some q /\ P j q = true /\
    c = copy_key q) as Hin.
  { intros c. unfold replayed_copies. rewrite list_elem_of_fmap. split.
    - intros ([j q] & -> & [Hj HPj]%elem_of_sql_select). by exists j, q.
    - intros (j & q & Hj & HPj & ->). exists (j, q). split; [done|]. by apply elem_of_sql_select. }
  set (m' := sql_update_ids _ _ _).
  assert (forall j q', m' !! j = Some q' -> exists q, tt_subs t !! j = Some q /\ copy_key q' = copy_key q /\
      ((P j q = true /\ q' = replay_sub q) \/ (P j q = false /\ q' = q))) as Hlk.
  { intros j q'. unfold m'. rewrite sql_update_selected. intros (q & Hq & ->)%fmap_Some. exists q.
    split; [done|]. destruct (P j q); auto. }
  assert (gc_topic_inv o mr (S (tp_tick s)) (set_tt_subs m' t)) as HI'.
  { split; [split; [split|split]|split]; cbn.
    - intros j q' (q & Hq & [= -> _] & _)%Hlk. by eapply Hfk.
    - intros j j' q q' (x & Hx & [= -> ->] & _)%Hlk (x' & Hx' & [= -> ->] & _)%Hlk. by apply (Huq j j').
    - intros j q' (q & Hq & _ & [[_ ->]|[_ ->]])%Hlk; [|by eapply Hw].
      destruct (Hw j q Hq) as (_ & ? & ?). split; [done|]. cbn. lia.
    - done.
    - eapply fresh_from_sub; [|done..]. lia.
    - done. }
  apply topic_open_keeps; [done|done|..]; fold t; cbn [set_tt_subs tt_subs].
  - intros j q Hj (j' & q' & Hj' & [_ HPs]%andb_true_iff & [= E1 E2])%Hin.
    assert (j = j') as <- by (by apply (Huq j j' q q')). assert (q = q') as <- by congruence.
    unfold settled in HPs. by destruct (s_status q).
  - intros j q' (q & Hq & Hkey & [[HPq ->]|[HPq ->]])%Hlk.
    + left. split; [|done]. apply Hin. by exists j, q.
    + right. split; [|done]. intros (j' & q2 & Hj' & HP2 & [= E1 E2])%Hin.
      assert (j = j') as <- by (by apply (Huq j j' q q2)). congruence.
Qed.

Lemma topic_replay_dlq_keeps s records ids t' :
  0 <= mr < int64_max -> topic_life_inv s -> topic_commits (revive_copies records ids) s tt t' ->
  topic_simulated s (mkTopic (S (tp_tick s)) t'
    (open_copies (record_key <$> missing (tp_tables s) records) ++ tp_log s)).
Proof.
  intros Hmr Hinv Hc. pose proof Hinv as [HI _]. set (t := tp_tables s) in *.
  pose proof (proj1 (proj1 HI)) as Hk. set (now := e_now (o (tp_tick s))).
  assert (exists t1, subscribed now records t t1 /\ topic_keys t1 /\
    t' = set_tt_dlq (sql_delete_ids ids (tt_dlq t1)) t1) as (t1 & (Hm & Hd & Hsub & _ & Hn) & Hk1 & ->).
  { eapply (commits_wp _ _ _ _ _ (fun _ x => exists t1, subscribed now records t t1 /\ topic_keys t1 /\
      x = set_tt_dlq (sql_delete_ids ids (tt_dlq t1)) t1) Hc).
    unfold revive_copies. wp_step. apply wp_records_Ok; [done|]. intros t1 n1 Hs Hk1.
    unfold delete_dead_letters. wp_step. by exists t1. }
  assert (forall c, c ∈ record_key <$> missing t records <-> exists rec, rec ∈ records /\ c = record_key rec /\
    find_sub t (sr_messageID rec) (sr_subscriberID rec) = None) as Hin.
  { intros c. unfold missing. rewrite list_elem_of_fmap. setoid_rewrite list_elem_of_filter. naive_solver. }
  assert (forall k q, tt_subs t !! k = Some q -> copy_key q ∉ record_key <$> missing t records) as Hout.
  { intros k q Hq (rec & _ & [= E1 E2] & Hnone)%Hin. rewrite <-E1, <-E2 in Hnone.
    by rewrite (find_sub_intro t k q Hk Hq) in Hnone. }
  apply topic_open_keeps; [|done|..]; fold t.
  - eapply (gc_topic_inserted _ records t); [done..| | |]; cbn.
    + by rewrite Hm.
    + rewrite Hd. apply map_subseteq_spec. intros j d. rewrite lookup_sql_delete_ids. by case_decide.
    + exact Hn.
  - intros k q Hq Hx. by destruct (Hout k q Hq).
  - cbn. intros k q Hq. destruct (tt_subs t !! k) as [q'|] eqn:Hq'.
    { pose proof (lookup_weaken _ _ _ _ Hq' Hsub) as Hq1. rewrite Hq in Hq1. injection Hq1 as <-.
      right. split; [by eapply Hout|done]. }
    left. destruct (Hn k q Hq) as [?|(rec & Hrec & ->)]; [congruence|]. split; [|done]. apply Hin.
    exists rec. split; [done|]. split; [done|].
    destruct (find_sub t _ _) as [[k0 q0]|] eqn:Hf; [|done]. exfalso.
    apply find_sub_Some in Hf as (Hq0 & E1 & E2). pose proof (lookup_weaken _ _ _ _ Hq0 Hsub) as Hq1.
    assert (k = k0) as <- by (by eapply (proj2 Hk1); [exact Hq|exact Hq1|..]). congruence.
Qed.

(** The topic implements the contract. *)
#[local] Instance topic_implements (Hmr : 0 <= mr < int64_max) :
  Implements topic_init topic_step topic_life_inv (fun s => sub_views (tp_tables s)) tp_log.
Proof.
  assert (topic_keys (mkTopicTables ∅ ∅ ∅)) as Hk
    by (split; cbn; intros ? ?; [|intros ? ?]; by rewrite lookup_empty).
  split.
  - split; [|split; [|done]].
    + split; [split; [split; [done|]|split]|]; cbn.
      * split; intros ? ?; by rewrite lookup_empty.
      * apply gc_fresh_empty.
      * intros ? ?. cbn. by rewrite lookup_empty.
      * by intros c Hc%elem_of_nil.
    + intros i. destruct (sub_views _ i) as [v|] eqn:Hv; [|done].
      apply sub_views_Some in Hv as (k & q & Hq & _); [|done]. cbn in Hq. by rewrite lookup_empty in Hq.
  - intros s s' HI Hs. destruct Hs.
    + apply topic_settle_keeps; [by apply gc_topic_next, HI|apply settles_refl|done].
    + by eapply topic_publish_keeps.
    + by eapply topic_consume_keeps.
    + by eapply topic_consume_empty_keeps.
    + by apply topic_ack_keeps.
    + by eapply topic_extend_keeps.
    + by eapply topic_nack_keeps.
    + by eapply topic_ack_batch_keeps.
    + by eapply topic_nack_batch_keeps.
    + by eapply topic_replay_from_keeps.
    + by eapply topic_replay_dlq_keeps.
    + by eapply topic_gc_keeps.
Qed.

Lemma topic_reachable_inv s :
  0 <= mr < int64_max -> topic_reachable s ->
  topic_life_inv s /\ contract_inv (sub_views (tp_tables s), tp_log s).
Proof.
  intros Hmr. pose proof (topic_implements Hmr) as Himp.
  apply (implements_contract topic_init topic_step topic_life_inv (fun s => sub_views (tp_tables s)) tp_log).
Qed.

End topic_lifecycle.

(** ** Properties *)

(** C3: however publishers, subscribers, acknowledgements, nacks (single and in batches
    of distinct receipts), extensions, replays and the garbage collector interleave on
    a topic with retry limit [mr]: the tables are well formed and the message of every
    dead letter is still there; after a message was published, or last replayed, to a
    subscriber, the subscriber is handed it at most mr + 1 times; and the history is
    [honoured] per subscriber: an acknowledgement that commits was made under the claim
    of that subscriber's latest delivery, after which the subscriber is neither handed
    the message nor acknowledges it again, unless it is replayed. *)
Theorem topic_interleavings_safe `{Server} (cfg : queueConfig) (o : oracle) (mr : Z) (s : topic) :
  reliable o -> gen_distinct o -> 0 <= mr < int64_max -> topic_reachable cfg o mr s ->
  topic_inv mr (tp_tables s) /\ dlq_parents (tp_tables s) /\
  (forall i sid, opened (i, sid) (tp_log s) = Some mr -> deliveries (i, sid) (tp_log s) <= mr + 1) /\
  honoured (tp_log s).
Proof.
  intros Hrel Hgen Hmr Hr.
  destruct (topic_reachable_inv cfg o mr Hrel Hgen s Hmr Hr) as [[(Hi & _ & Hp) _] [_ Hh]].
  split; [done|]. split; [done|]. split; [|done]. intros i sid Ho.
  apply honoured_bounded; [done|done|lia].
Qed.

Definition two_subscribers : list subscriber :=
  [mkSubscriber "news" "alice" 0 true; mkSubscriber "news" "bob" 0 true].

(** Message 1 goes to Alice and Bob; Bob is handed his copy, has no retries, lets it time
    out and has it dead-lettered; it is then replayed from the dead-letter table. *)
Lemma topic_interleavings_safe_witness :
  exists s, topic_reachable (H := truncating_server) sample_cfg distinct_oracle 0 s /\
    opened (1, "bob"%string) (tp_log s) = Some 0 /\ size (tt_subs (tp_tables s)) = 2%nat /\
    honoured (tp_log s) /\ deliveries (1, "bob"%string) (tp_log s) <= 0 + 1.
Proof.
  assert (exists s, topic_reachable (H := truncating_server) sample_cfg distinct_oracle 0 s /\
    opened (1, "bob"%string) (tp_log s) = Some 0 /\ size (tt_subs (tp_tables s)) = 2%nat)
    as (s & Hr & Ho & Hz).
  { eexists. split.
    - eapply rtc_l; [|eapply rtc_l; [|eapply rtc_l; [|eapply rtc_l; [|apply rtc_refl]]]].
      + eapply topic_publish; [apply (publish_one 1 [Byte.x61] None two_subscribers)|].
        eexists. vm_compute. reflexivity.
      + eapply (topic_consume _ _ _ _ "bob" millisecond 0). eexists. vm_compute. reflexivity.
      + eapply (topic_consume_empty _ _ _ _ "bob" millisecond 0). eexists. vm_compute. reflexivity.
      + match goal with |- topic_step _ _ _ ?s _ =>
          let ids := eval vm_compute in (map_to_list (tt_dlq (tp_tables s))).*1 in
          eapply (topic_replay_dlq _ _ _ s [mkSubRecord 1 "bob"] ids) end.
        eexists. vm_compute. reflexivity.
    - vm_compute. split; reflexivity. }
  exists s. split; [exact Hr|]. split; [exact Ho|]. split; [exact Hz|].
  destruct (topic_interleavings_safe (H := truncating_server) sample_cfg distinct_oracle 0 s
    distinct_oracle_reliable distinct_oracle_distinct ltac:(split; [lia|reflexivity]) Hr)
    as (_ & _ & Hd & Hf).
  split; [exact Hf|]. exact (Hd 1 "bob"%string Ho).
Defined.
