(* ===== verification/FakeLifecycle.v ===== *)
(** * The double keeps the contract

    [fake.Queue] stands in for the real queue in the tests of its users, so it has to
    keep the same promises.  Its channels and subscriber queues are rows of [Contract],
    and every method of [Fake] is a run of the contract's machine, as the transactions
    on the tables are in [Lifecycle] and [TopicLifecycle]. *)

From S2P Require Import Prelude Types Tx Uuid Config Fake Contract.
From Stdlib Require Import ZArith Lia.
Local Open Scope Z_scope.

(** ** Places *)

(** A channel, or the queue of a topic's subscriber. *)
Definition place : Type := string + string * string.

Definition channel_of (q : Queue) (p : place) : option channel :=
  match p with
  | inl name => channels q !! name
  | inr (name, sid) => topics q !! name ≫= (fun t => subs t !! sid)
  end.
Definition store_at (p : place) : channel -> Queue -> Queue :=
  match p with
  | inl name => store_channel name
  | inr (name, sid) => store_sub name sid
  end.

(** The place a receipt names. *)
Definition receipt_place (r : Receipt) : place :=
  match r_QueueType r with
  | QueueTypePubSub => inr (r_QueueName r, r_SubscriberID r)
  | _ => inl (r_QueueName r)
  end.

(** Where a message published under [name] goes. *)
Definition publish_places (q : Queue) (name : string) : list place :=
  match topics q !! name with
  | Some t => (fun x => inr (name, x.1)) <$> map_to_list (subs t)
  | None => [inl name]
  end.

(** ** The steps *)

Record double := mkDouble {
  dbl_state : fstate;
  dbl_log : list (event (place * uuid))
}.

(** Operations whose success is no event of the history. *)
Definition quiet (x : op) : bool :=
  match x with
  | OPublish _ _ _ | OReceiveChannel _ | OReceiveTopic _ _ | OAck _ => false
  | _ => true
  end.

Section double.
Context (B : Z) (o : nat -> draw) (max : Z).

Inductive double_move (s : double) : double -> Prop :=
| double_fail x er s' :                    (* a call that returns an error *)
    run x o (dbl_state s) = (Err er, s') -> double_move s (mkDouble s' (dbl_log s))
| double_quiet x s' :
    quiet x = true -> run x o (dbl_state s) = (Ok tt, s') -> double_move s (mkDouble s' (dbl_log s))
| double_publish name p opts i s' :
    Publish name p opts o (dbl_state s) = (Ok i, s') ->
    double_move s (mkDouble s'
      (opens ((fun p => (p, i, max)) <$> publish_places (f_queue (dbl_state s)) name) ++ dbl_log s))
| double_receive_channel name msg s' :
    ReceiveChannel name o (dbl_state s) = (Ok msg, s') ->
    double_move s (mkDouble s' (Delivered (inl name, m_ID msg) (m_ClaimID msg) :: dbl_log s))
| double_receive_topic name sid msg s' :
    ReceiveTopic name sid o (dbl_state s) = (Ok msg, s') ->
    double_move s (mkDouble s' (Delivered (inr (name, sid), m_ID msg) (m_ClaimID msg) :: dbl_log s))
| double_ack r s' :
    Ack r o (dbl_state s) = (Ok tt, s') ->
    double_move s (mkDouble s' (Acked (receipt_place r, r_MessageID r) (r_ClaimID r) :: dbl_log s)).

(** The generator's timestamps fit their 48 bits. *)
Definition double_step (s s' : double) : Prop :=
  double_move s s' /\ B + Z.of_nat (f_tick (dbl_state s')) < 2 ^ 48.

(** ** The rows *)

Definition channel_rows (c : channel) (i : uuid) : option view :=
  match claimed c !! i with
  | Some e => Some (mkView InFlight (retryCount e) (Some (claimID e)) max)
  | None => (fun e => mkView Waiting (retryCount e) None max) <$>
              head (filter (fun e => id e = i) (pending c))
  end.
Definition queue_rows (q : Queue) (k : place * uuid) : option view :=
  channel_of q k.1 ≫= (fun c => channel_rows c k.2).

Definition double_ok (s : fstate) : Prop :=
  state_ok (gen_bounded B) (fun _ => channel_wf max) max s.
Definition double_inv (s : double) : Prop :=
  double_ok (dbl_state s) /\ B + Z.of_nat (f_tick (dbl_state s)) < 2 ^ 48 /\
  forall c, c ∈ claims (dbl_log s) -> c < frontier (f_gen (dbl_state s)).

(** A row is a pending entry or a claimed one. *)
Lemma channel_rows_Some c i v :
  channel_wf max c ->
  channel_rows c i = Some v <->
  (exists e, e ∈ pending c /\ id e = i /\ v = mkView Waiting (retryCount e) None max) \/
  (exists e, claimed c !! i = Some e /\ v = mkView InFlight (retryCount e) (Some (claimID e)) max).
Proof.
  intros [Hids _ _ _]. unfold ids in Hids. apply NoDup_app in Hids as (Hp & Hdis & _).
  assert (forall e, e ∈ pending c -> claimed c !! id e = None) as Hnone.
  { intros e He. destruct (claimed c !! id e) as [x|] eqn:Hx; [|done]. exfalso.
    apply (Hdis (id e)); [by apply list_elem_of_fmap_2|]. apply elem_of_app. left. by eapply claimed_in. }
  unfold channel_rows. destruct (claimed c !! i) as [x|] eqn:Hx.
  - split; [intros [= <-]; right; by exists x|].
    intros [(e & He & <- & _)|(e & He & ->)]; [by rewrite (Hnone e He) in Hx|]. congruence.
  - rewrite fmap_Some. split.
    + intros (e & [Hi He]%head_Some_elem_of%list_elem_of_filter & ->). left. by exists e.
    + intros [(e & He & <- & ->)|(e & He & _)]; [|done]. exists e. split; [|done].
      clear -Hp He. induction (pending c) as [|x l IH]; [by apply elem_of_nil in He|].
      rewrite fmap_cons, NoDup_cons in Hp. destruct Hp as [Hx Hp].
      apply elem_of_cons in He as [<-|He]; [by rewrite filter_cons_True|].
      rewrite filter_cons_False; [by apply IH|]. intros Hid. apply Hx. rewrite Hid.
      by apply list_elem_of_fmap_2.
Qed.

Lemma channel_of_wf s p c : double_ok s -> channel_of (f_queue s) p = Some c -> channel_wf max c.
Proof.
  intros (_ & _ & Hc & Ht). destruct p as [n|[n sid]]; cbn; [apply Hc|].
  intros (t & Hn & Hs)%bind_Some. by eapply Ht.
Qed.

(** Storing a channel changes it and no other. *)
Lemma channel_of_store q p c c' p' :
  channel_of q p = Some c ->
  channel_of (store_at p c' q) p' = if decide (p' = p) then Some c' else channel_of q p'.
Proof.
  destruct p as [n|[n sid]]; cbn.
  - intros _. destruct p' as [n'|[n' sid']]; cbn.
    + destruct (decide (n' = n)) as [->|Hn].
      * by rewrite lookup_insert_eq, decide_True.
      * rewrite lookup_insert_ne, decide_False by congruence. done.
    + by rewrite decide_False.
  - intros (t & Ht & Hs)%bind_Some. unfold store_sub. rewrite Ht. destruct p' as [n'|[n' sid']]; cbn.
    + by rewrite decide_False.
    + destruct (decide (n' = n)) as [->|Hn].
      * rewrite lookup_insert_eq. cbn. destruct (decide (sid' = sid)) as [->|Hsid].
        -- by rewrite lookup_insert_eq, decide_True.
        -- rewrite lookup_insert_ne, decide_False by congruence. by rewrite Ht.
      * rewrite lookup_insert_ne, decide_False by congruence. done.
Qed.

Lemma rows_store q p c c' k v :
  channel_of q p = Some c -> queue_rows (store_at p c' q) k = Some v ->
  (k.1 = p /\ channel_rows c' k.2 = Some v) \/ (k.1 <> p /\ queue_rows q k = Some v).
Proof.
  intros Hc. unfold queue_rows. rewrite (channel_of_store _ _ _ _ _ Hc). case_decide; [left|right]; done.
Qed.

(** A change in one place settles its rows when it settles the channel's. *)
Lemma settles_store q p c c' :
  channel_of q p = Some c -> settles (channel_rows c) (channel_rows c') ->
  settles (queue_rows q) (queue_rows (store_at p c' q)).
Proof.
  intros Hc Hs [p' i] v Hv. destruct (rows_store _ _ _ _ _ _ Hc Hv) as [[Hp Hi]|[_ Hi]]; cbn in *.
  - subst p'. destruct (Hs i v Hi) as (v0 & Hv0 & ?). exists v0. split; [|done].
    unfold queue_rows. cbn. by rewrite Hc.
  - exists v. split; [done|apply settled1_refl].
Qed.

(** ** The methods are runs of the contract *)

Hypothesis Hdraw : forall n, good_draw B (o n).
Hypothesis Hmax : 0 <= max < int64_max.

(** Every operation keeps the state well formed, and the generator moves forward. *)
Lemma run_ok F x s :
  double_ok s -> (B + Z.of_nat (f_tick s) < 2 ^ 48 -> F <= frontier (f_gen s)) ->
  let s' := (run x o s).2 in
  double_ok s' /\ (B + Z.of_nat (f_tick s') < 2 ^ 48 -> F <= frontier (f_gen s')).
Proof.
  intros (Hm & Hg & Ha) HF.
  assert (fwp (run x) o s (fun _ s' => state_ok
    (fun n g => gen_bounded B n g /\ (B + Z.of_nat n < 2 ^ 48 -> F <= frontier g))
    (fun _ => channel_wf max) max s')) as Hr.
  { apply (run_keeps _ _ max (good_draw B) true); try done.
    - intros _. apply newChannel_wf.
    - intros _ c b [? ? ? ?]. by split.
    - intros d n g r g' Hd [Hgb HFg] Hr. split; [|done]. split.
      + by apply (ordered_mint B max d n g r g').
      + intros Hb. specialize (HFg ltac:(lia)).
        destruct (frontier_mint (B + Z.of_nat n) d g r g') as [Hle _]; [lia| |apply Hgb; lia|done|lia].
        destruct Hd as [? Hc]. split; [done|]. eapply clock_ok_mono; [|done]. lia.
    - intros. apply enqueue_wf; [lia|done..].
    - intros. apply enqueue_wf; [lia|done..].
    - intros. by apply claim_wf.
    - intros. by eapply ack_wf.
    - intros. by eapply nack_wf.
    - destruct x; cbn; auto. }
  unfold fwp in Hr. destruct (run x o s) as [r s']. destruct Hr as (Hm' & [Hg' HF'] & Ha'). done.
Qed.

(** A step that keeps the history and settles rows. *)
Lemma double_settles s x r s' :
  double_inv s -> run x o (dbl_state s) = (r, s') -> B + Z.of_nat (f_tick s') < 2 ^ 48 ->
  settles (queue_rows (f_queue (dbl_state s))) (queue_rows (f_queue s')) ->
  double_inv (mkDouble s' (dbl_log s)) /\
  rtc contract_step (queue_rows (f_queue (dbl_state s)), dbl_log s) (queue_rows (f_queue s'), dbl_log s).
Proof.
  intros (Hok & Hb & Hcl) Hrun Hb' Hs. split; [|apply rtc_once; by apply contract_settle].
  destruct (run_ok (frontier (f_gen (dbl_state s))) x _ Hok ltac:(lia)) as [Hok' HF].
  rewrite Hrun in Hok', HF. split; [done|]. split; [done|]. cbn in *.
  intros c Hc. specialize (Hcl c Hc). specialize (HF Hb'). lia.
Qed.

Lemma fwp_resolve_place r s (Q : result (channel * (channel -> Queue -> Queue)) -> fstate -> Prop) :
  (forall ch, channel_of (f_queue s) (receipt_place r) = Some ch -> Q (Ok (ch, store_at (receipt_place r))) s) ->
  (forall x, Q (Err x) s) -> fwp (resolve r) o s Q.
Proof.
  intros HQ HE. unfold resolve, receipt_place in *. do 2 fstep. destruct (r_QueueType r); cbn in *.
  - destruct (topics _ !! _) as [t|]; [|by fstep]. cbn in HQ.
    destruct (subs t !! _) as [c|]; fstep; [by apply HQ|done].
  - destruct (channels _ !! _) as [c|]; fstep; [by apply HQ|done].
  - by fstep.
Qed.

(** A call that fails leaves the queues as they were. *)
Definition unchanged {A} (s : fstate) (r : result A) (s' : fstate) : Prop :=
  match r with Ok _ => True | Err _ => f_queue s' = f_queue s end.

Lemma claim_unchanged ch base store s : fwp (claim ch base store) o s (unchanged s).
Proof.
  unfold claim. destruct (pending ch) as [|e rest]; [by fstep|]. do 2 fstep. destruct r; [|done].
  by do 5 fstep.
Qed.

Lemma ignore_unchanged {A} (m : fake A) s : fwp m o s (unchanged s) -> fwp (ignore m) o s (unchanged s).
Proof. intros Hm. unfold ignore. fstep. eapply fwp_mono; [exact Hm|]. by intros [a|x] s' Hs. Qed.

Lemma held_unchanged r s (f : channel -> entry -> Queue -> channel) :
  fwp ('(ch, store) ← resolve r;
       match held ch r with
       | None => ffail ErrClaimExpired
       | Some e => q ← get; put (store (f ch e q) q)
       end) o s (unchanged s).
Proof.
  fstep. apply fwp_resolve_place; [|done]. intros ch _. destruct (held ch r); [by do 3 fstep|by fstep].
Qed.

Lemma publish_entry_unchanged name e s s1 :
  f_queue s1 = f_queue s -> fwp (publish_entry name e) o s1 (unchanged s).
Proof.
  intros H1. unfold publish_entry. do 2 fstep. destruct (topics _ !! name) as [t|].
  - destruct (existsb _ _); [by fstep|by do 3 fstep].
  - destruct (channels _ !! name) as [ch|]; [|by fstep].
    destruct (hasMessage ch (id e)); [by fstep|by do 3 fstep].
Qed.

Lemma run_unchanged x s : fwp (run x) o s (unchanged s).
Proof.
  destruct x as [n|n|n sid|n p opts|n|n sid|r|r|r d|n b|n b]; cbn [run].
  - unfold CreateChannel. do 2 fstep. by destruct (channels _ !! n); fstep.
  - unfold CreateTopic. do 2 fstep. by destruct (topics _ !! n); fstep.
  - unfold Subscribe. by do 3 fstep.
  - apply ignore_unchanged. unfold Publish. destruct p as [p|]; [|by fstep]. fstep.
    destruct (_ =? 0); fstep; [destruct r as [i|x]; [|done]|]; by apply publish_entry_unchanged.
  - apply ignore_unchanged. unfold ReceiveChannel. do 2 fstep. destruct (channels _ !! n) as [ch|]; [|by fstep].
    destruct (paused ch); [by fstep|]. apply claim_unchanged.
  - apply ignore_unchanged. unfold ReceiveTopic. do 2 fstep. destruct (topics _ !! n) as [t|]; [|by fstep].
    destruct (t_paused t); [by fstep|]. destruct (subs t !! sid); [|by fstep]. apply claim_unchanged.
  - apply (held_unchanged r s (fun ch _ _ => ack_channel (r_MessageID r) ch)).
  - apply (held_unchanged r s (fun ch e q => nack_channel (maxRetries q) e ch)).
  - unfold ExtendVisibility. destruct (_ || _); [by fstep|]. fstep. apply fwp_resolve_place; [|done].
    intros ch _. by destruct (held ch r); fstep.
  - unfold setChannelPaused. do 2 fstep. by destruct (channels _ !! n); fstep.
  - unfold setTopicPaused. do 2 fstep. by destruct (topics _ !! n); fstep.
Qed.

(** A queue whose channels are new, or hold what they held. *)
Lemma settles_queues q q' :
  (forall p c', channel_of q' p = Some c' -> (forall i, channel_rows c' i = None) \/
     (exists c, channel_of q p = Some c /\ forall i, channel_rows c' i = channel_rows c i)) ->
  settles (queue_rows q) (queue_rows q').
Proof.
  intros Hq [p i] v (c' & Hc' & Hi)%bind_Some. destruct (Hq p c' Hc') as [Hn|(c & Hc & Heq)].
  - cbn in Hi. by rewrite Hn in Hi.
  - exists v. split; [|apply settled1_refl]. apply bind_Some. exists c. split; [done|]. by rewrite <-Heq.
Qed.

Lemma channel_rows_new i : channel_rows newChannel i = None.
Proof. unfold channel_rows. cbn. by rewrite lookup_empty. Qed.

(** A nacked entry is dead, or waits with one more attempt. *)
Lemma nack_settles c e i :
  channel_wf max c -> claimed c !! i = Some e ->
  settles (channel_rows c) (channel_rows (nack_channel max e c)).
Proof.
  intros Hwf He j v Hv. pose proof (nack_wf max c i e Hmax Hwf He) as Hwf'.
  destruct (wf_claimed _ _ Hwf i e He) as (Hid & _ & Hr).
  assert (channel_rows c j = Some v \/ j = i /\ v = mkView Waiting (retryCount e + 1) None max) as Hcase.
  { apply channel_rows_Some in Hv; [|done]. rewrite channel_rows_Some by done.
    unfold nack_channel in Hv. rewrite wrap64_succ in Hv by lia.
    destruct (max <? retryCount e + 1); cbn in Hv.
    - left. destruct Hv as [?|(x & [_ Hx]%lookup_delete_Some & ->)]; [by left|right]. by exists x.
    - destruct Hv as [(x & Hx & Hj & ->)|(x & [_ Hx]%lookup_delete_Some & ->)];
        [|left; right; by exists x].
      rewrite insertSorted_perm in Hx. apply elem_of_cons in Hx as [->|Hx]; [right|left; left; by exists x].
      cbn in *. split; [congruence|done]. }
  destruct Hcase as [Hold|(-> & ->)].
  - exists v. split; [done|apply settled1_refl].
  - exists (mkView InFlight (retryCount e) (Some (claimID e)) max). split.
    + apply channel_rows_Some; [done|]. right. by exists e.
    + split; [done|]. right. done.
Qed.

Lemma quiet_settles x s :
  quiet x = true -> double_ok s ->
  fwp (run x) o s (fun _ s' => settles (queue_rows (f_queue s)) (queue_rows (f_queue s'))).
Proof.
  intros Hq Hok. pose proof Hok as (Hm & _ & Hc & Ht).
  destruct x as [n|n|n sid|n p opts|n|n sid|r|r|r d|n b|n b]; try discriminate Hq; cbn [run].
  - unfold CreateChannel. do 2 fstep. destruct (channels _ !! n) eqn:E; fstep; [apply settles_refl|].
    apply settles_queues. intros [n'|[n' sid']] c; cbn; [|right; by exists c].
    intros [[<- <-]|[_ ?]]%lookup_insert_Some; [left; apply channel_rows_new|right; by exists c].
  - unfold CreateTopic. do 2 fstep. destruct (topics _ !! n) eqn:E; fstep; [apply settles_refl|].
    apply settles_queues. intros [n'|[n' sid']] c; cbn; [right; by exists c|].
    intros (t & [[<- <-]|[_ Ht']]%lookup_insert_Some & Hs)%bind_Some; [cbn in Hs; by rewrite lookup_empty in Hs|].
    right. exists c. split; [|done]. apply bind_Some. by exists t.
  - unfold Subscribe. do 3 fstep. apply settles_queues. intros [n'|[n' sid']] c; cbn; [right; by exists c|].
    intros (t & [[<- <-]|[_ Ht']]%lookup_insert_Some & Hs)%bind_Some.
    2: { right. exists c. split; [|done]. apply bind_Some. by exists t. }
    assert (subs (default newTopic (topics (f_queue s) !! n)) !! sid' = Some c ->
      exists c0, topics (f_queue s) !! n ≫= (fun t => subs t !! sid') = Some c0 /\
        forall i, channel_rows c i = channel_rows c0 i) as Hold.
    { destruct (topics (f_queue s) !! n) as [t|]; cbn; [by exists c|]. by rewrite lookup_empty. }
    destruct (subs _ !! sid) eqn:E; [right; by apply Hold|]. cbn in Hs.
    apply lookup_insert_Some in Hs as [[<- <-]|[_ Hs]]; [left; apply channel_rows_new|right; by apply Hold].
  - unfold Nack. fstep. apply fwp_resolve_place; [|intros; apply settles_refl]. intros ch Hch.
    destruct (held ch r) as [e|] eqn:He; [|fstep; apply settles_refl]. do 3 fstep. cbn. rewrite Hm.
    eapply settles_store; [done|]. eapply nack_settles; [by eapply channel_of_wf|by apply held_claimed].
  - unfold ExtendVisibility. destruct (_ || _); [fstep; apply settles_refl|]. fstep.
    apply fwp_resolve_place; [|intros; apply settles_refl]. intros ch _.
    destruct (held ch r); fstep; apply settles_refl.
  - unfold setChannelPaused. do 2 fstep. destruct (channels _ !! n) as [ch|] eqn:E; fstep; [|apply settles_refl].
    apply (settles_store _ (inl n) ch); [done|]. apply settles_refl.
  - unfold setTopicPaused. do 2 fstep. destruct (topics _ !! n) as [t|] eqn:E; fstep; [|apply settles_refl].
    apply settles_queues. intros [n'|[n' sid']] c; cbn; [right; by exists c|].
    intros (t' & [[<- <-]|[_ Ht']]%lookup_insert_Some & Hs)%bind_Some; right; exists c; (split; [|done]);
      apply bind_Some; [by exists t|by exists t'].
Qed.

(** *** Receiving *)

(** What a receive that succeeds did. *)
Lemma claim_Ok p ch base s msg s' :
  claim ch base (store_at p) o s = (Ok msg, s') ->
  exists e rest c g, pending ch = e :: rest /\
    newUUIDv7At (dr_entropy (o (f_tick s))) (dr_clock (o (f_tick s))) (f_gen s) = (Ok c, g) /\
    m_ID msg = id e /\ m_ClaimID msg = c /\
    s' = mkFstate (store_at p (mkChannel (paused ch) rest (<[id e := claim_entry c e]> (claimed ch)) (dlq ch))
           (f_queue s)) g (S (f_tick s)).
Proof.
  unfold claim. destruct (pending ch) as [|e rest]; [done|]. unfold mbind, fake_bind, newID.
  destruct (newUUIDv7At _ _ _) as [[c|x] g] eqn:Hm; [|done]. cbn. intros [= <- <-]. by exists e, rest, c, g.
Qed.

Lemma double_receives s x p ch base msg s' :
  double_inv s -> B + Z.of_nat (f_tick s') < 2 ^ 48 ->
  run x o (dbl_state s) = (Ok tt, s') ->
  channel_of (f_queue (dbl_state s)) p = Some ch ->
  claim ch base (store_at p) o (dbl_state s) = (Ok msg, s') ->
  double_inv (mkDouble s' (Delivered (p, m_ID msg) (m_ClaimID msg) :: dbl_log s)) /\
  rtc contract_step (queue_rows (f_queue (dbl_state s)), dbl_log s)
    (queue_rows (f_queue s'), Delivered (p, m_ID msg) (m_ClaimID msg) :: dbl_log s).
Proof.
  intros (Hok & Hb & Hcl) Hb' Hrun Hch Hclaim. pose proof (channel_of_wf _ _ _ Hok Hch) as Hwf.
  destruct (run_ok (frontier (f_gen (dbl_state s))) x _ Hok ltac:(lia)) as [Hok' HF].
  rewrite Hrun in Hok', HF. specialize (HF Hb'). cbn in HF.
  destruct (claim_Ok _ _ _ _ _ _ Hclaim) as (e & rest & c & g & Hp & Hm & -> & -> & ->). cbn in Hb'.
  assert (frontier (f_gen (dbl_state s)) <= c < frontier g) as Hc.
  { pose proof Hok as (_ & Hg & _). set (n := f_tick (dbl_state s)) in *.
    eapply (frontier_mint (B + Z.of_nat n)); [|split|apply Hg| |done]; [lia|apply (Hdraw n)| |lia|exact Hm].
    eapply clock_ok_mono; [|apply (Hdraw n)]. lia. }
  assert (e ∈ pending ch) as He by (rewrite Hp; left).
  destruct (wf_pending _ _ Hwf e He) as (_ & _ & Hr).
  pose proof (claim_wf max ch e rest c Hwf Hp) as Hwf'. split.
  - split; [done|]. split; [done|]. cbn. intros d [->|Hd]%elem_of_cons; [lia|].
    specialize (Hcl d Hd). lia.
  - apply rtc_once. cbn [f_queue].
    apply (contract_deliver _ _ _ (p, id e) (mkView Waiting (retryCount e) None max) (retryCount e)).
    + unfold queue_rows. cbn. rewrite Hch. cbn. apply channel_rows_Some; [done|]. left. by exists e.
    + by left.
    + cbn. lia.
    + intros Hin%Hcl. lia.
    + intros [p' j] v Hv. destruct (rows_store _ _ _ _ _ _ Hch Hv) as [[Hp' Hj]|[Hp' Hj]]; cbn in Hp', Hj.
      2: { right. split; [congruence|done]. }
      subst p'. apply channel_rows_Some in Hj; [|done]. cbn in Hj.
      destruct Hj as [(y & Hy & <- & ->)|(y & [[<- <-]|[Hne Hy]]%lookup_insert_Some & ->)]; [right| |right]; [|by left|].
      * split.
        -- intros [= Heq]. pose proof (wf_ids _ _ Hwf) as Hnd. unfold ids in Hnd. rewrite Hp in Hnd.
           cbn in Hnd. apply NoDup_cons in Hnd as [Hn _]. apply Hn, elem_of_app. left. rewrite <-Heq.
           by apply list_elem_of_fmap_2.
        -- unfold queue_rows. cbn. rewrite Hch. cbn. apply channel_rows_Some; [done|]. left. exists y.
           split; [rewrite Hp; by right|done].
      * split; [congruence|]. unfold queue_rows. cbn. rewrite Hch. cbn.
        apply channel_rows_Some; [done|]. right. by exists y.
Qed.

(** *** Acknowledging *)

Lemma ack_Ok r s s' :
  Ack r o s = (Ok tt, s') ->
  exists ch e, channel_of (f_queue s) (receipt_place r) = Some ch /\ claimed ch !! r_MessageID r = Some e /\
    claimID e = r_ClaimID r /\
    s' = mkFstate (store_at (receipt_place r) (ack_channel (r_MessageID r) ch) (f_queue s)) (f_gen s) (f_tick s).
Proof.
  assert (fwp (Ack r) o s (fun res s' => res = Ok tt -> exists ch e,
    channel_of (f_queue s) (receipt_place r) = Some ch /\ claimed ch !! r_MessageID r = Some e /\
    claimID e = r_ClaimID r /\ s' = mkFstate (store_at (receipt_place r) (ack_channel (r_MessageID r) ch)
      (f_queue s)) (f_gen s) (f_tick s))) as Hw.
  { unfold Ack. fstep. apply fwp_resolve_place; [|done]. intros ch Hch. unfold held.
    destruct (claimed ch !! r_MessageID r) as [e|] eqn:He; [|by fstep].
    destruct (Z.eqb_spec (claimID e) (r_ClaimID r)); [|by fstep]. do 3 fstep. intros _. by exists ch, e. }
  intros Hrun. unfold fwp in Hw. rewrite Hrun in Hw. by apply Hw.
Qed.

Lemma double_acks s r s' :
  double_inv s -> B + Z.of_nat (f_tick s') < 2 ^ 48 -> Ack r o (dbl_state s) = (Ok tt, s') ->
  double_inv (mkDouble s' (Acked (receipt_place r, r_MessageID r) (r_ClaimID r) :: dbl_log s)) /\
  rtc contract_step (queue_rows (f_queue (dbl_state s)), dbl_log s)
    (queue_rows (f_queue s'), Acked (receipt_place r, r_MessageID r) (r_ClaimID r) :: dbl_log s).
Proof.
  intros (Hok & Hb & Hcl) Hb' Hrun.
  destruct (run_ok (frontier (f_gen (dbl_state s))) (OAck r) _ Hok ltac:(lia)) as [Hok' _].
  change (run (OAck r)) with (Ack r) in Hok'. rewrite Hrun in Hok'. cbn [snd] in Hok'.
  destruct (ack_Ok _ _ _ Hrun) as (ch & e & Hch & He & Hcid & ->).
  pose proof (channel_of_wf _ _ _ Hok Hch) as Hwf. pose proof (ack_wf max _ _ _ Hwf He) as Hwf'.
  split; [by split|]. apply rtc_once. cbn [f_queue].
  apply (contract_ack _ _ _ _ (mkView InFlight (retryCount e) (Some (claimID e)) max)).
  - unfold queue_rows. cbn. rewrite Hch. cbn. apply channel_rows_Some; [done|]. right. by exists e.
  - done.
  - cbn. by rewrite Hcid.
  - intros [p' j] v Hv. right. destruct (rows_store _ _ _ _ _ _ Hch Hv) as [[Hp' Hj]|[Hp' Hj]]; cbn in Hp', Hj.
    2: { split; [congruence|done]. }
    subst p'. apply channel_rows_Some in Hj; [|done]. unfold queue_rows. cbn. rewrite Hch. cbn.
    rewrite channel_rows_Some by done. cbn in Hj.
    destruct Hj as [(y & Hy & <- & ->)|(y & [Hne Hy]%lookup_delete_Some & ->)].
    + split; [|left; by exists y]. intros [= Heq]. pose proof (wf_ids _ _ Hwf) as Hnd.
      unfold ids in Hnd. apply NoDup_app in Hnd as (_ & Hdis & _). apply (Hdis (id y)).
      * by apply list_elem_of_fmap_2.
      * apply elem_of_app. left. rewrite Heq. by eapply claimed_in.
    + split; [congruence|]. right. by exists y.
Qed.

(** *** Publishing *)

(** The places of a published message get its entry, the others stay. *)
Lemma publish_entry_Ok name e s i s' :
  publish_entry name e o s = (Ok i, s') ->
  i = id e /\
  (forall p c, p ∈ publish_places (f_queue s) name -> channel_of (f_queue s) p = Some c ->
     hasMessage c (id e) = false) /\
  forall p c', channel_of (f_queue s') p = Some c' ->
    (p ∈ publish_places (f_queue s) name /\
       exists c, channel_of (f_queue s) p = Some c /\ c' = enqueue e c) \/
    (p ∉ publish_places (f_queue s) name /\ channel_of (f_queue s) p = Some c').
Proof.
  unfold publish_entry, publish_places, mbind, fake_bind, get, put, mret, fake_ret, ffail. cbn.
  destruct (topics (f_queue s) !! name) as [t|] eqn:Ht.
  - destruct (existsb _ _) eqn:Hex; [done|]. intros [= <- <-]. split; [done|]. split.
    { intros p c ([sid c0] & -> & Hin)%list_elem_of_fmap. cbn. rewrite Ht. cbn.
      apply elem_of_map_to_list in Hin as Hc0. rewrite Hc0. intros [= ->].
      apply not_true_iff_false. intros Hh. apply not_true_iff_false in Hex. apply Hex.
      apply existsb_exists. exists (sid, c). split; [by apply list_elem_of_In|done]. }
    intros [n|[n sid]] c'; cbn; [right; split; [|done]; by intros (x & [=] & _)%list_elem_of_fmap|].
    intros (t' & [[<- <-]|[Hne Ht']]%lookup_insert_Some & Hs)%bind_Some.
    + left. cbn in Hs. rewrite lookup_fmap in Hs. apply fmap_Some in Hs as (c & Hc & ->).
      split; [apply list_elem_of_fmap; exists (sid, c); split; [done|by apply elem_of_map_to_list]|].
      exists c. by rewrite Ht.
    + right. split; [intros (x & [= Hn _] & _)%list_elem_of_fmap; congruence|]. apply bind_Some. by exists t'.
  - destruct (channels (f_queue s) !! name) as [ch|] eqn:Hch; [|done].
    destruct (hasMessage ch (id e)) eqn:Hh; [done|]. intros [= <- <-]. split; [done|]. split.
    { intros p c ->%list_elem_of_singleton. cbn. congruence. }
    intros [n|[n sid]] c'; cbn; [|right; split; [|done]; by intros [=]%list_elem_of_singleton].
    intros [[<- <-]|[Hne Hc']]%lookup_insert_Some; [left|right].
    + split; [left|]. by exists ch.
    + split; [|done]. intros [= ->]%list_elem_of_singleton. done.
Qed.

(** A channel without a message has no row for it. *)
Lemma hasMessage_rows c i : channel_wf max c -> hasMessage c i = false -> channel_rows c i = None.
Proof.
  intros Hwf Hni%hasMessage_fresh. unfold ids in Hni. rewrite !elem_of_app in Hni.
  destruct (channel_rows c i) as [v|] eqn:Hv; [|done]. exfalso.
  apply channel_rows_Some in Hv as [(e & He & <- & _)|(e & He & _)]; [..|done]; apply Hni.
  - left. by apply list_elem_of_fmap_2.
  - right. left. by eapply claimed_in.
Qed.

Lemma publish_rows_new c i p md j v :
  channel_wf max c -> hasMessage c i = false ->
  channel_rows (enqueue (new_entry i p md) c) j = Some v ->
  (j = i /\ v = mkView Waiting 0 None max) \/ (j <> i /\ channel_rows c j = Some v).
Proof.
  intros Hwf Hh Hv. pose proof (enqueue_wf max c i p md ltac:(lia) Hwf Hh) as Hwf'.
  pose proof (hasMessage_rows c i Hwf Hh) as Hnone.
  apply channel_rows_Some in Hv; [|done]. cbn in Hv.
  destruct Hv as [(e & [He|He%list_elem_of_singleton]%elem_of_app & <- & ->)|(e & He & ->)].
  - assert (channel_rows c (id e) = Some (mkView Waiting (retryCount e) None max)) as Hr
      by (apply channel_rows_Some; [done|]; left; by exists e).
    right. split; [|done]. intros <-. congruence.
  - left. by subst e.
  - assert (channel_rows c j = Some (mkView InFlight (retryCount e) (Some (claimID e)) max)) as Hr
      by (apply channel_rows_Some; [done|]; right; by exists e).
    right. split; [|done]. intros ->. congruence.
Qed.

Lemma double_publishes s name p opts i s' :
  double_inv s -> B + Z.of_nat (f_tick s') < 2 ^ 48 ->
  Publish name p opts o (dbl_state s) = (Ok i, s') ->
  let os := (fun p => (p, i, max)) <$> publish_places (f_queue (dbl_state s)) name in
  double_inv (mkDouble s' (opens os ++ dbl_log s)) /\
  rtc contract_step (queue_rows (f_queue (dbl_state s)), dbl_log s)
    (queue_rows (f_queue s'), opens os ++ dbl_log s).
Proof.
  intros (Hok & Hb & Hcl) Hb' Hrun os.
  destruct (run_ok (frontier (f_gen (dbl_state s))) (OPublish name p opts) _ Hok ltac:(lia)) as [Hok' HF].
  assert (run (OPublish name p opts) o (dbl_state s) = (Ok tt, s')) as Hrun'.
  { cbn. unfold ignore, mbind, fake_bind. by rewrite Hrun. }
  rewrite Hrun' in Hok', HF. specialize (HF Hb'). cbn [snd] in Hok', HF.
  assert (exists pl md s1, publish_entry name (new_entry i pl md) o s1 = (Ok i, s') /\
    f_queue s1 = f_queue (dbl_state s)) as (pl & md & s1 & Hpub & Hq1).
  { unfold Publish in Hrun. destruct p as [pl|]; [|done]. destruct (_ =? 0).
    - revert Hrun. unfold mbind at 1, fake_bind, newID. destruct (newUUIDv7At _ _ _) as [[i'|] g]; [|done].
      intros Hpub. pose proof (publish_entry_Ok _ _ _ _ _ Hpub) as [Hi _]. cbn in Hi. subst i'.
      by eexists _, _, _.
    - change (publish_entry name (new_entry (po_messageID (applyPublishOptions opts)) pl
        (po_metadata (applyPublishOptions opts))) o (dbl_state s) = (Ok i, s')) in Hrun.
      pose proof (publish_entry_Ok _ _ _ _ _ Hrun) as [Hi _]. cbn in Hi. rewrite <-Hi in Hrun.
      by eexists _, _, _. }
  destruct (publish_entry_Ok _ _ _ _ _ Hpub) as (_ & Hfree & Hch).
  rewrite Hq1 in Hfree, Hch. cbn [id new_entry] in Hfree, Hch.
  assert (forall p' j, (p', j) ∈ os.*1 <-> p' ∈ publish_places (f_queue (dbl_state s)) name /\ j = i) as Hos.
  { intros p' j. unfold os. rewrite <-list_fmap_compose, list_elem_of_fmap. cbn. naive_solver. }
  split.
  - split; [done|]. split; [done|]. cbn. intros c. rewrite opens_claims. intros Hc%Hcl. lia.
  - apply rtc_once, contract_open.
    + unfold os. intros k n n' (x & [= _ ->] & _)%list_elem_of_fmap (y & [= _ ->] & _)%list_elem_of_fmap. done.
    + intros [p' j] v [Hp' ->]%Hos (c & Hc & Hr)%bind_Some. cbn in Hc, Hr. exfalso.
      rewrite (hasMessage_rows c i (channel_of_wf _ _ _ Hok Hc) (Hfree p' c Hp' Hc)) in Hr. done.
    + intros [p' j] v (c' & Hc' & Hr)%bind_Some. cbn in Hc', Hr.
      destruct (Hch p' c' Hc') as [(Hp' & c & Hc & ->)|(Hp' & Hc)].
      * destruct (publish_rows_new _ _ _ _ _ _ (channel_of_wf _ _ _ Hok Hc) (Hfree p' c Hp' Hc) Hr) as [[-> ->]|[Hne Hr']].
        -- left. exists max. split; [|done]. apply list_elem_of_fmap. by exists p'.
        -- right. split; [rewrite Hos; tauto|]. apply bind_Some. by exists c.
      * right. split; [rewrite Hos; tauto|]. apply bind_Some. by exists c'.
Qed.

(** The double implements the contract. *)
Definition double_init (q : Queue) : double := mkDouble (mkFstate q uuidV7State_init 0) [].

#[local] Instance double_implements q :
  0 < B < 2 ^ 48 -> maxRetries q = max -> channels q = ∅ -> topics q = ∅ ->
  Implements (double_init q) double_step double_inv (fun s => queue_rows (f_queue (dbl_state s))) dbl_log.
Proof.
  intros HB Hm Hc Ht. split.
  - split; [|split; [|done]].
    + split; [|split; [cbn; lia|by intros c Hin%elem_of_nil]]. split; [done|]. split.
      * intros _. unfold uuidV7State_wf, uuidV7CounterMask. cbn. lia.
      * split; cbn; [intros n c; by rewrite Hc, lookup_empty|intros n t sid c; by rewrite Ht, lookup_empty].
    + intros [[n|[n sid]] i]; unfold queue_rows; cbn; by rewrite ?Hc, ?Ht, lookup_empty.
  - intros s s' HI [Hs Hb]. destruct Hs as [x er s' Hrun|x s' Hq Hrun|name p opts i s' Hrun|
      name msg s' Hrun|name sid msg s' Hrun|r s' Hrun]; cbn [dbl_state dbl_log] in Hb |- *.
    + eapply double_settles; [done|exact Hrun|done|]. pose proof (run_unchanged x (dbl_state s)) as Hu.
      unfold fwp in Hu. rewrite Hrun in Hu. cbn in Hu. rewrite Hu. apply settles_refl.
    + eapply double_settles; [done|exact Hrun|done|].
      pose proof (quiet_settles x (dbl_state s) Hq (proj1 HI)) as Hu. unfold fwp in Hu. by rewrite Hrun in Hu.
    + by eapply double_publishes.
    + assert (run (OReceiveChannel name) o (dbl_state s) = (Ok tt, s')) as Hx
        by (cbn; unfold ignore, mbind, fake_bind; by rewrite Hrun).
      revert Hrun. unfold ReceiveChannel, mbind, fake_bind, get.
      destruct (channels (f_queue (dbl_state s)) !! name) as [ch|] eqn:Hch; [|done].
      destruct (paused ch); [done|]. intros Hrun. eapply double_receives; [done|done|exact Hx|done|exact Hrun].
    + assert (run (OReceiveTopic name sid) o (dbl_state s) = (Ok tt, s')) as Hx
        by (cbn; unfold ignore, mbind, fake_bind; by rewrite Hrun).
      revert Hrun. unfold ReceiveTopic, mbind at 1, fake_bind, get.
      destruct (topics (f_queue (dbl_state s)) !! name) as [t|] eqn:Ht'; [|done].
      destruct (t_paused t); [done|]. destruct (subs t !! sid) as [ch|] eqn:Hch; [|done].
      intros Hrun. eapply double_receives; [done|done|exact Hx| |exact Hrun]. cbn. by rewrite Ht'.
    + by apply double_acks.
Qed.

End double.

(** ** Properties *)

(** C4: the test double keeps the delivery contract of the real queue: in whatever
    order its methods are called (the consume loops are sequences of Receive, Ack and
    Nack) and with whatever receipts, the run is one of
    the contract on the entries of its channels and subscriber queues, and the history
    is [honoured]: a message is handed out only
    while it is there and not acknowledged, at most maxRetries + 1 times, each time
    under a new claim, and is acknowledged at most once, with the receipt of its latest
    delivery; as long as the clock and the number of draws stay below 2^48
    milliseconds. *)
Theorem fake_keeps_contract (B : Z) (ns : list Z) (o : nat -> draw) (s : double) :
  let q := New (WithMaxRetries <$> ns) in
  0 < B < 2 ^ 48 -> Forall (fun n => n < int64_max) ns -> (forall n, good_draw B (o n)) ->
  rtc (double_step B o (maxRetries q)) (double_init q) s ->
  rtc contract_step (queue_rows (maxRetries q) q, [])
    (queue_rows (maxRetries q) (f_queue (dbl_state s)), dbl_log s) /\
  honoured (dbl_log s) /\
  forall k, opened k (dbl_log s) = Some (maxRetries q) -> deliveries k (dbl_log s) <= maxRetries q + 1.
Proof.
  intros q HB Hns Ho Hs. destruct (New_ok ns Hns) as (Hmax & Hc & Ht). fold q in Hmax, Hc, Ht.
  pose proof (double_implements B o (maxRetries q) Ho Hmax q HB eq_refl Hc Ht) as Himp.
  destruct (implements_contract (double_init q) (double_step B o (maxRetries q)) _ _ dbl_log s Hs)
    as [_ [_ Hh]].
  destruct (implements_runs (double_init q) (double_step B o (maxRetries q)) _ _ dbl_log s Hs) as [_ Hruns].
  split; [exact Hruns|]. split; [done|]. intros k Hk. apply honoured_bounded; [done|done|lia].
Qed.


Definition double_max : Z := maxRetries (New (WithMaxRetries <$> [1])).

(** A message is published to a channel, received, nacked, received again under a new
    claim and acknowledged with it. *)
Lemma fake_keeps_contract_witness :
  exists s, rtc (double_step (2 ^ 47) sample_draw double_max) (double_init (New (WithMaxRetries <$> [1]))) s /\
    length (dbl_log s) = 4%nat /\ honoured (dbl_log s).
Proof.
  assert (exists s, rtc (double_step (2 ^ 47) sample_draw double_max)
    (double_init (New (WithMaxRetries <$> [1]))) s /\ length (dbl_log s) = 4%nat) as (s & Hs & Hl).
  { eexists. split.
    - eapply rtc_l; [split; [eapply (double_quiet _ _ _ (OCreateChannel "jobs"))|];
        [reflexivity|vm_compute; reflexivity|vm_compute; reflexivity]|].
      eapply rtc_l; [split; [eapply (double_publish _ _ _ "jobs" (Some [Byte.x61]) [WithMessageID 7])|];
        [vm_compute; reflexivity|vm_compute; reflexivity]|].
      eapply rtc_l; [split; [eapply (double_receive_channel _ _ _ "jobs")|];
        [vm_compute; reflexivity|vm_compute; reflexivity]|].
      match goal with |- rtc _ ?s _ =>
        let c := eval vm_compute in (default 0 (last_claim (inl "jobs"%string, 7) (dbl_log s))) in
        eapply rtc_l; [split; [eapply (double_quiet _ _ _ (ONack (mkReceipt 7 c "jobs" QueueTypeChannel "")))|];
          [reflexivity|vm_compute; reflexivity|vm_compute; reflexivity]|] end.
      eapply rtc_l; [split; [eapply (double_receive_channel _ _ _ "jobs")|];
        [vm_compute; reflexivity|vm_compute; reflexivity]|].
      match goal with |- rtc _ ?s _ =>
        let c := eval vm_compute in (default 0 (last_claim (inl "jobs"%string, 7) (dbl_log s))) in
        eapply rtc_l; [split; [eapply (double_ack _ _ _ (mkReceipt 7 c "jobs" QueueTypeChannel ""))|];
          [vm_compute; reflexivity|vm_compute; reflexivity]|] end.
      apply rtc_refl.
    - vm_compute. reflexivity. }
  exists s. split; [exact Hs|]. split; [exact Hl|].
  apply (fake_keeps_contract (2 ^ 47) [1] sample_draw s).
  - split; reflexivity.
  - repeat constructor.
  - intros n. split; [split; [reflexivity|repeat constructor; lia]|]. intros i.
    cbn [sample_draw dr_clock]. lia.
  - exact Hs.
Defined.
