(* ===== verification/Admin.v ===== *)
(** * Creating, deleting, listing and pausing queues ([pgqueue.go])

    A queue is a row of pgqueue_metadata and its physical tables.  The record of a
    queue's tables comes and goes with its message table; the statements that only
    take a lock, or create an index or a further table of the same queue, can fail
    but have no effect of their own in the model. *)

From S2P Require Import Prelude Types Tx MetadataCache World Config Queries Channel Publish PubSub.
From Stdlib Require Import ZArith Lia.
Local Open Scope Z_scope.

(** A statement that can only fail. *)
Definition ddl : tx DB unit := stmt (fun _ _ d => (Ok tt, d)).

(** ** Creation *)

Definition checkQueueNotExists (queueType : QueueType) (name : string) : io unit :=
  existing ← try_io (getQueueMetadata queueType name);
  match existing with
  | Ok _ => fail ErrQueueAlreadyExists
  | Err x => if errors_Is x ErrQueueNotFound then mret tt else fail x
  end.

Definition enforceMaxQueues (cfg : queueConfig) : tx DB unit :=
  if maxQueues cfg <=? 0 then mret tt
  else
    ddl ;;                                   (* pg_advisory_xact_lock *)
    count ← countQueues;
    if maxQueues cfg <=? count then throw ErrMaxQueuesReached else mret tt.

(** CREATE TABLE IF NOT EXISTS pgqueue_dlq_<t>, and its two indexes *)
Definition createDLQTable (tableName : string) : tx DB unit :=
  for_each (fun _ => ddl) ["table"; "moved_at"; "orig_msg"]%string.

Definition createPubSubMessageTable (tableName : string) : tx DB unit :=
  stmt (fun _ _ d =>
    (Ok tt, match db_topics d !! tableName with
            | Some _ => d
            | None => set_topics (<[tableName := mkTopicTables ∅ ∅ ∅]> (db_topics d)) d
            end)) ;;
  ddl.                                       (* idx_..._created_at *)

Definition createPubSubIndexes (tableName : string) : tx DB unit :=
  for_each (fun _ => ddl)
    ["msg_id"; "subscriber"; "status"; "consumable_null"; "consumable_timeout"]%string.

Definition createPubSubDLQSubscriberIndex (tableName : string) : tx DB unit := ddl.

Definition createPubSubTables (tableName : string) : tx DB unit :=
  createPubSubMessageTable tableName ;;
  ddl ;;                                     (* the subscription table *)
  createPubSubIndexes tableName ;;
  createDLQTable tableName ;;
  createPubSubDLQSubscriberIndex tableName.

Definition createChannelIndexes (tableName : string) : tx DB unit :=
  for_each (fun _ => ddl)
    ["status_created"; "consumable_null"; "consumable_timeout"; "completed"]%string.

Definition createChannelTables (tableName : string) : tx DB unit :=
  stmt (fun _ _ d =>
    (Ok tt, match db_channels d !! tableName with
            | Some _ => d
            | None => set_channels (<[tableName := mkChannelTables ∅ ∅]> (db_channels d)) d
            end)) ;;
  createChannelIndexes tableName ;;
  createDLQTable tableName.

Definition createQueueTables (queueType : QueueType) (tableName : string) : tx DB unit :=
  if bool_decide (queueType = QueueTypePubSub) then createPubSubTables tableName
  else createChannelTables tableName.

Definition createQueueInTx (cfg : queueConfig) (queueType : QueueType) (name tableName : string)
    (config : configJSON) : tx DB unit :=
  ddl ;;                                     (* pg_advisory_xact_lock_shared *)
  enforceMaxQueues cfg ;;
  createQueueMetadata queueType name tableName config ;;
  createQueueTables queueType tableName.

Definition createQueue (cfg : queueConfig) (queueType : QueueType) (name : string)
    (opts : channelOptions) : io unit :=
  from_result (validateQueueName name) ;;
  checkQueueNotExists queueType name ;;
  let tableName := sanitizeTableName name in
  checkTableNameNotExists tableName ;;
  withTx (createQueueInTx cfg queueType name tableName (ConfigObject opts)).

Definition create_checked (cfg : queueConfig) (queueType : QueueType) (name : string)
    (opts : list QueueOption) : io unit :=
  checkClosed ;;
  let o := applyQueueOptions opts in
  from_result (validateMaxMessageSize (o_MaxMessageSize o)) ;;
  from_result (validateMaxMetadataSize (o_MaxMetadataSize o)) ;;
  from_result (validateMaxRetries (o_MaxRetries o)) ;;
  createQueue cfg queueType name o.

Definition CreateChannel (cfg : queueConfig) (name : string) (opts : list QueueOption) : io unit :=
  create_checked cfg QueueTypeChannel name opts.
Definition CreateTopic (cfg : queueConfig) (name : string) (opts : list QueueOption) : io unit :=
  create_checked cfg QueueTypePubSub name opts.

(** ** Deletion *)

Definition executeDelete (queueType : QueueType) (name tableName : string) : tx DB unit :=
  ddl ;;                                     (* pg_advisory_xact_lock_shared *)
  (if bool_decide (queueType = QueueTypePubSub) then ddl else mret tt) ;;   (* DROP the subscriptions *)
  ddl ;;                                     (* DROP the DLQ *)
  stmt (fun _ _ d => (Ok tt,
    if bool_decide (queueType = QueueTypePubSub)
    then set_topics (delete tableName (db_topics d)) d
    else set_channels (delete tableName (db_channels d)) d)) ;;
  deleteQueueMetadata queueType name.

(** The metadata cache entry; the LISTEN waker is not part of the model. *)
Definition invalidateQueueCaches (queueType : QueueType) (name : string) : io unit :=
  w ← get_world;
  put_cache (cache_invalidate (queue_type_string queueType) name (w_cache w)).

(** [withTx] with a body that also touches the process' cache just before COMMIT. *)
Definition withTx_then {A} (fn : tx DB A) (k : io unit) : io A := fun o w =>
  let e := o (w_tick w) in
  let w' := w_next w in
  match e_begin e with
  | Some d => (Err (ErrDriver d), w')
  | None =>
      match fn e 0%nat (Some (w_db w)) with
      | TErr x => (Err x, w')
      | TOk a _ s =>
          let w'' := (k o w').2 in
          match s, e_commit e with
          | None, _ => (Err (ErrDriver failed_tx), w'')
          | Some d, Some (de, applied) =>
              (Err (ErrDriver de), if (applied : bool) then set_w_db d w'' else w'')
          | Some d, None => (Ok a, set_w_db d w'')
          end
      end
  end.

Definition deleteQueue (queueType : QueueType) (name : string) : io unit :=
  from_result (validateQueueName name) ;;
  metadata ← getQueueMetadata queueType name;
  withTx_then (executeDelete queueType name (q_TableName metadata))
    (invalidateQueueCaches queueType name) ;;
  invalidateQueueCaches queueType name.

Definition DeleteTopic (name : string) : io unit := deleteQueue QueueTypePubSub name.
Definition DeleteChannel (name : string) : io unit := deleteQueue QueueTypeChannel name.

(** ** Listing, pausing, closing *)

Definition listQueues (queueType : QueueType) : io (list queueMetadata) :=
  rows ← listQueuesRaw queueType; mret rows.*2.

Definition ListTopics : io (list string) :=
  checkClosed ;; rows ← listQueues QueueTypePubSub; mret (map q_QueueName rows).
Definition ListChannels : io (list string) :=
  checkClosed ;; rows ← listQueues QueueTypeChannel; mret (map q_QueueName rows).

Definition set_paused (now : timestamp) (paused : bool) (m : queueMetadata) : queueMetadata :=
  mkQueueMetadata (q_ID m) (q_QueueType m) (q_QueueName m) (q_TableName m) (q_Config m) paused
    (q_CreatedAt m) now.

Definition setQueuePaused (queueName : string) (queueType : QueueType) (paused : bool) : io unit :=
  rows ← autocommit (stmt (fun e _ d =>
    let ids := (sql_select (fun _ => is_queue queueType queueName) (fun _ => 0) (db_metadata d)).*1 in
    (Ok (length ids),
     set_metadata (sql_update_ids ids (set_paused (e_now e) paused) (db_metadata d)) d)));
  if (rows =? 0)%nat then fail ErrQueueNotFound else mret tt.

Definition PauseChannel (name : string) : io unit :=
  checkClosed ;; setQueuePaused name QueueTypeChannel true.
Definition ResumeChannel (name : string) : io unit :=
  checkClosed ;; setQueuePaused name QueueTypeChannel false.
Definition PauseTopic (name : string) : io unit :=
  checkClosed ;; setQueuePaused name QueueTypePubSub true.
Definition ResumeTopic (name : string) : io unit :=
  checkClosed ;; setQueuePaused name QueueTypePubSub false.

Definition IsQueuePaused (queueName : string) (queueType : QueueType) : io bool :=
  checkClosed ;; meta ← getQueueMetadata queueType queueName; mret (q_Paused meta).

(** ** The consistency of the database *)

Definition tables_of (d : DB) (m : queueMetadata) : Prop :=
  match q_QueueType m with
  | QueueTypeChannel => is_Some (db_channels d !! q_TableName m)
  | QueueTypePubSub => is_Some (db_topics d !! q_TableName m)
  | QueueTypeOther _ => False
  end.

(** Metadata rows and physical tables correspond one to one, every table is named
    after its queue, and every subscriber is of a topic that exists. *)
Record db_ok (d : DB) : Prop := mkDbOk {
  ok_rows : forall i m, db_metadata d !! i = Some m ->
    validateQueueName (q_QueueName m) = Ok tt /\
    q_TableName m = sanitizeTableName (q_QueueName m) /\ tables_of d m;
  ok_unique : forall i j m m', db_metadata d !! i = Some m -> db_metadata d !! j = Some m' ->
    q_TableName m = q_TableName m' -> i = j;
  ok_channels : forall t, is_Some (db_channels d !! t) -> exists i m,
    db_metadata d !! i = Some m /\ q_QueueType m = QueueTypeChannel /\ q_TableName m = t;
  ok_topics : forall t, is_Some (db_topics d !! t) -> exists i m,
    db_metadata d !! i = Some m /\ q_QueueType m = QueueTypePubSub /\ q_TableName m = t;
  ok_subscribers : forall k s, db_subscribers d !! k = Some s -> exists i m,
    db_metadata d !! i = Some m /\ q_QueueType m = QueueTypePubSub /\ q_QueueName m = sb_TopicName s
}.

(** ** Lemmas *)

(** No queue's tables carry the name [t]. *)
Definition name_free (t : string) (d : DB) : Prop :=
  forall i m, db_metadata d !! i = Some m -> q_TableName m <> t.

(** The database with a queue added: its metadata row, under key [k], and its
    empty tables. *)
Definition with_queue (k : uuid) (m : queueMetadata) (d : DB) : DB :=
  let d' := set_metadata (<[k := m]> (db_metadata d)) d in
  if bool_decide (q_QueueType m = QueueTypePubSub)
  then set_topics (<[q_TableName m := mkTopicTables ∅ ∅ ∅]> (db_topics d)) d'
  else set_channels (<[q_TableName m := mkChannelTables ∅ ∅]> (db_channels d)) d'.

(** The database without a queue: its metadata, tables, subscribers and audit log. *)
Definition without_queue (m : queueMetadata) (d : DB) : DB :=
  mkDB (filter (fun x => is_queue (q_QueueType m) (q_QueueName m) x.2 = false) (db_metadata d))
    (if bool_decide (q_QueueType m = QueueTypePubSub)
     then filter (fun x => sb_TopicName x.2 <> q_QueueName m) (db_subscribers d)
     else db_subscribers d)
    (filter (fun x => is_log_of (q_QueueType m) (q_QueueName m) x.2 = false) (db_replay_log d))
    (if bool_decide (q_QueueType m = QueueTypePubSub) then db_channels d
     else delete (q_TableName m) (db_channels d))
    (if bool_decide (q_QueueType m = QueueTypePubSub) then delete (q_TableName m) (db_topics d)
     else db_topics d) (db_notifications d).

Lemma wp_ddl e n d (Q : unit -> nat -> option DB -> Prop) E :
  (forall x, faulty e -> E (ErrDriver x)) -> Q tt (S n) (Some d) -> wp e n (Some d) ddl Q E.
Proof. intros HF HQ. by apply wp_stmt. Qed.

Lemma wp_ddls {A} (l : list A) e n d (Q : unit -> nat -> option DB -> Prop) E :
  (forall x, faulty e -> E (ErrDriver x)) -> (forall n', Q tt n' (Some d)) ->
  wp e n (Some d) (for_each (fun _ => ddl) l) Q E.
Proof.
  intros HF HQ. revert n. induction l as [|a l IH]; intros n; cbn [for_each].
  - by wp_step.
  - wp_step. by apply wp_ddl.
Qed.

Lemma is_queue_true qt name m :
  is_queue qt name m = true <-> q_QueueType m = qt /\ q_QueueName m = name.
Proof. unfold is_queue. by rewrite andb_true_iff, !bool_decide_eq_true. Qed.

Lemma same_queue d i j m m' :
  db_ok d -> db_metadata d !! i = Some m -> db_metadata d !! j = Some m' ->
  q_QueueName m = q_QueueName m' -> i = j /\ m = m'.
Proof.
  intros Hd Hi Hj Hn. destruct (ok_rows d Hd i m Hi) as (_ & Ht & _).
  destruct (ok_rows d Hd j m' Hj) as (_ & Ht' & _).
  assert (i = j) as <- by (eapply (ok_unique d Hd); [done..|congruence]). split; congruence.
Qed.

(** The lookup finds a queue's row. *)
Lemma lookup_queue_intro d i m :
  db_ok d -> db_metadata d !! i = Some m ->
  lookup_queue (q_QueueType m) (q_QueueName m) d = Some m.
Proof.
  intros Hd Hi. unfold lookup_queue.
  destruct (sql_select _ _ (db_metadata d)) as [|[j m'] l] eqn:Hs.
  - exfalso. assert (is_queue (q_QueueType m) (q_QueueName m) m = false) as Hf.
    { eapply (proj1 (sql_select_nil (fun _ => is_queue (q_QueueType m) (q_QueueName m)) (fun _ => 0)
        (db_metadata d))); done. }
    by rewrite (proj2 (is_queue_true _ _ m)) in Hf.
  - cbn. f_equal.
    assert ((j, m') ∈ sql_select (fun _ => is_queue (q_QueueType m) (q_QueueName m)) (fun _ => 0)
      (db_metadata d)) as [Hj [_ Hn]%is_queue_true]%elem_of_sql_select by (rewrite Hs; left).
    by apply (same_queue d j i).
Qed.

Lemma lookup_queue_absent d qt name :
  db_ok d -> lookup_queue qt name d = None -> forall i m, db_metadata d !! i = Some m ->
  is_queue qt name m = false.
Proof.
  intros Hd Hl i m Hi. destruct (is_queue qt name m) eqn:Hq; [|done].
  apply is_queue_true in Hq as [<- <-]. by rewrite (lookup_queue_intro d i m) in Hl.
Qed.

(** *** Creation *)

Lemma with_queue_ok k m d :
  db_ok d -> db_metadata d !! k = None -> name_free (q_TableName m) d ->
  validateQueueName (q_QueueName m) = Ok tt -> q_TableName m = sanitizeTableName (q_QueueName m) ->
  q_QueueType m = QueueTypeChannel \/ q_QueueType m = QueueTypePubSub ->
  db_ok (with_queue k m d).
Proof.
  intros Hd Hk Hfree Hv Ht Hqt.
  assert (db_metadata (with_queue k m d) = <[k := m]> (db_metadata d)) as Hm
    by (unfold with_queue; by case_bool_decide).
  assert (db_subscribers (with_queue k m d) = db_subscribers d) as Hs
    by (unfold with_queue; by case_bool_decide).
  assert (forall m', tables_of d m' -> tables_of (with_queue k m d) m') as Htab.
  { intros m'. unfold tables_of, with_queue. case_bool_decide; destruct (q_QueueType m');
      cbn; rewrite ?lookup_insert_is_Some; try tauto;
      destruct (decide (q_TableName m = q_TableName m')); auto. }
  split; rewrite ?Hm, ?Hs.
  - intros i m'. rewrite lookup_insert_Some. intros [[<- <-]|[_ Hi]].
    + split_and!; [done..|]. unfold tables_of, with_queue.
      destruct Hqt as [Hq|Hq]; rewrite Hq;
        [rewrite (bool_decide_eq_false_2 (QueueTypeChannel = QueueTypePubSub)) by done
        |rewrite (bool_decide_eq_true_2 (QueueTypePubSub = QueueTypePubSub)) by done];
        cbn; rewrite lookup_insert_eq; by eexists.
    + destruct (ok_rows d Hd i m' Hi) as (? & ? & ?). auto.
  - intros i j a b. rewrite !lookup_insert_Some.
    intros [[<- <-]|[Hne Hi]] [[<- <-]|[Hne' Hj]] He; [done| | |by eapply (ok_unique d Hd)].
    + exfalso. by apply (Hfree j b Hj).
    + exfalso. by apply (Hfree i a Hi).
  - intros t Hst. assert (is_Some (db_channels d !! t) \/
      (q_QueueType m = QueueTypeChannel /\ q_TableName m = t)) as [Hold|[Hq <-]].
    { revert Hst. unfold with_queue. case_bool_decide as Hb; cbn; [by left|].
      rewrite lookup_insert_is_Some. intros [->|[_ ?]]; [right|by left]. split; [|done].
      by destruct Hqt. }
    + destruct (ok_channels d Hd t Hold) as (i & m' & Hi & ?). exists i, m'. split; [|done].
      rewrite lookup_insert_ne; [done|]. congruence.
    + exists k, m. by rewrite lookup_insert_eq.
  - intros t Hst. assert (is_Some (db_topics d !! t) \/
      (q_QueueType m = QueueTypePubSub /\ q_TableName m = t)) as [Hold|[Hq <-]].
    { revert Hst. unfold with_queue. case_bool_decide as Hb; cbn; [|by left].
      rewrite lookup_insert_is_Some. intros [->|[_ ?]]; [by right|by left]. }
    + destruct (ok_topics d Hd t Hold) as (i & m' & Hi & ?). exists i, m'. split; [|done].
      rewrite lookup_insert_ne; [done|]. congruence.
    + exists k, m. by rewrite lookup_insert_eq.
  - intros j s Hj. destruct (ok_subscribers d Hd j s Hj) as (i & m' & Hi & ?). exists i, m'.
    split; [|done]. rewrite lookup_insert_ne; [done|]. congruence.
Qed.

Lemma name_free_tables d t :
  db_ok d -> name_free t d -> db_channels d !! t = None /\ db_topics d !! t = None.
Proof.
  intros Hd Hf. split; apply eq_None_not_Some; intros Hs.
  - destruct (ok_channels d Hd t Hs) as (i & m & Hi & _ & Ht). by apply (Hf i m Hi).
  - destruct (ok_topics d Hd t Hs) as (i & m & Hi & _ & Ht). by apply (Hf i m Hi).
Qed.

Lemma wp_createQueueTables e n d k m (Q : unit -> nat -> option DB -> Prop) E :
  (forall x, faulty e -> E (ErrDriver x)) ->
  db_channels d !! q_TableName m = None -> db_topics d !! q_TableName m = None ->
  (forall n', Q tt n' (Some (with_queue k m d))) ->
  wp e n (Some (set_metadata (<[k := m]> (db_metadata d)) d))
    (createQueueTables (q_QueueType m) (q_TableName m)) Q E.
Proof.
  intros HF Hc Ht HQ. unfold createQueueTables, with_queue in *. case_bool_decide.
  - unfold createPubSubTables, createPubSubMessageTable. do 3 wp_step. cbn [db_topics set_metadata]. rewrite Ht.
    apply wp_ddl; [done|]. wp_step. apply wp_ddl; [done|]. wp_step. apply wp_ddls; [done|]. intros n1.
    wp_step. apply wp_ddls; [done|]. intros n2. by apply wp_ddl.
  - unfold createChannelTables. do 2 wp_step. cbn [db_channels set_metadata]. rewrite Hc.
    wp_step. apply wp_ddls; [done|]. intros n1. by apply wp_ddls.
Qed.

Lemma wp_createQueueMetadata e n d qt name config (Q : queueMetadata -> nat -> option DB -> Prop) E :
  (forall x, faulty e -> E (if isUniqueViolation (ErrDriver x) then ErrQueueAlreadyExists
                            else ErrDriver x)) ->
  db_metadata d !! e_gen e n 0%nat = None -> validateQueueName name = Ok tt ->
  let t := sanitizeTableName name in
  let m := mkQueueMetadata (e_gen e n 0%nat) qt name t config false (e_now e) (e_now e) in
  name_free t d -> (forall i m', db_metadata d !! i = Some m' -> is_queue qt name m' = false) ->
  Q m (S n) (Some (set_metadata (<[e_gen e n 0%nat := m]> (db_metadata d)) d)) ->
  wp e n (Some d) (createQueueMetadata qt name t config) Q E.
Proof.
  intros HF Hk Hv t m Hfree Hnq HQ. unfold createQueueMetadata. wp_step. wp_step.
  pose proof Hv as [Hlen _]%validateQueueName_ok.
  assert (forallb is_table_char (String.list_ascii_of_string t) = true) as ->.
  { apply forallb_forall, List.Forall_forall. by apply sanitize_charset. }
  assert ((String.length t =? 0)%nat = false) as ->.
  { apply Nat.eqb_neq. unfold t. rewrite sanitize_length. lia. }
  cbn [negb orb]. rewrite Hk.
  assert (sql_select (fun _ m0 => is_queue qt name m0 || bool_decide (q_TableName m0 = t))
    (fun _ => 0) (db_metadata d) = []) as ->; [|done].
  apply sql_select_nil. intros i m' Hi. rewrite (Hnq i m' Hi). cbn.
  apply bool_decide_eq_false_2. by eapply Hfree.
Qed.

Lemma iwp_checkQueueNotExists o w qt name (Q : unit -> world -> Prop) E :
  reliable o ->
  (forall meta w', lookup_queue qt name (w_db w) = Some meta -> frame w w' ->
     E ErrQueueAlreadyExists w') ->
  (forall w', lookup_queue qt name (w_db w) = None -> frame w w' -> Q tt w') ->
  iwp o w (checkQueueNotExists qt name) Q E.
Proof.
  intros Hrel HE HQ. unfold checkQueueNotExists. do 2 iwp_step. apply iwp_getQueueMetadata.
  - intros meta w' Hl Hf. iwp_step. by eapply HE.
  - intros w' Hl Hf. apply iwp_ret. by apply HQ.
  - intros x w' Hx. by apply reliable_no_fault in Hx.
Qed.

Lemma iwp_checkTableNameNotExists o w t (Q : unit -> world -> Prop) E :
  reliable o ->
  (forall i m w', db_metadata (w_db w) !! i = Some m -> q_TableName m = t -> frame w w' ->
     E ErrQueueAlreadyExists w') ->
  (forall w', name_free t (w_db w) -> frame w w' -> Q tt w') ->
  iwp o w (checkTableNameNotExists t) Q E.
Proof.
  intros Hrel HE HQ. unfold checkTableNameNotExists. iwp_step. apply iwp_query; [done|].
  set (P := fun (_ : Z) m => bool_decide (q_TableName m = t)).
  destruct (sql_select P (fun _ => 0) (db_metadata (w_db w))) as [|[i m] l] eqn:Hs; cbn [head].
  - apply HQ; [|done]. intros i m Hi Ht.
    pose proof (proj1 (sql_select_nil P (fun _ => 0) _) Hs i m Hi) as Hf. unfold P in Hf.
    by rewrite bool_decide_eq_true_2 in Hf.
  - assert ((i, m) ∈ sql_select P (fun _ => 0) (db_metadata (w_db w)))
      as [Hi Hb%bool_decide_eq_true_1]%elem_of_sql_select by (rewrite Hs; left).
    by eapply HE.
Qed.

Lemma wp_enforceMaxQueues cfg e n d (Q : unit -> nat -> option DB -> Prop) E :
  (forall x, faulty e -> E (ErrDriver x)) ->
  (0 < maxQueues cfg <= Z.of_nat (size (db_metadata d)) -> E ErrMaxQueuesReached) ->
  (forall n', ~ 0 < maxQueues cfg <= Z.of_nat (size (db_metadata d)) -> Q tt n' (Some d)) ->
  wp e n (Some d) (enforceMaxQueues cfg) Q E.
Proof.
  intros HF HE HQ. unfold enforceMaxQueues.
  destruct (Z.leb_spec (maxQueues cfg) 0); [wp_step; apply HQ; lia|].
  wp_step. apply wp_ddl; [done|]. wp_step. apply wp_query; [done|].
  destruct (Z.leb_spec (maxQueues cfg) (Z.of_nat (size (db_metadata d)))); wp_step;
    [apply HE; lia|apply HQ; lia].
Qed.

Lemma iwp_createQueue cfg o w qt name opts (Q : unit -> world -> Prop) E :
  reliable o -> db_ok (w_db w) ->
  (forall m n i, db_metadata (w_db w) !! e_gen (o m) n i = None) ->
  (forall w', validateQueueName name = Err ErrInvalidQueueName -> w_db w' = w_db w ->
     E ErrInvalidQueueName w') ->
  (forall w', validateQueueName name = Ok tt -> ~ name_free (sanitizeTableName name) (w_db w) ->
     w_db w' = w_db w -> E ErrQueueAlreadyExists w') ->
  (forall w', validateQueueName name = Ok tt -> name_free (sanitizeTableName name) (w_db w) ->
     0 < maxQueues cfg <= Z.of_nat (size (db_metadata (w_db w))) -> w_db w' = w_db w ->
     E ErrMaxQueuesReached w') ->
  (forall k now w', validateQueueName name = Ok tt -> name_free (sanitizeTableName name) (w_db w) ->
     db_metadata (w_db w) !! k = None ->
     ~ 0 < maxQueues cfg <= Z.of_nat (size (db_metadata (w_db w))) ->
     w_db w' = with_queue k (mkQueueMetadata k qt name (sanitizeTableName name) (ConfigObject opts)
       false now now) (w_db w) -> Q tt w') ->
  iwp o w (createQueue cfg qt name opts) Q E.
Proof.
  intros Hrel Hok Hgen HEn HEd HEm HQ. unfold createQueue. iwp_step. iwp_step.
  destruct (validateQueueName name) as [[]|x] eqn:Hv.
  2: { assert (x = ErrInvalidQueueName) as ->; [|by apply HEn].
       unfold validateQueueName in Hv. repeat case_match; congruence. }
  iwp_step. apply iwp_checkQueueNotExists; [done|..].
  { intros meta w1 Hl (Hdb & _). apply HEd; [done| |done]. intros Hfree.
    apply lookup_queue_Some in Hl as (i & Hi & _ & <-). apply (Hfree i meta Hi).
    by apply (ok_rows _ Hok i). }
  intros w1 Hl (Hdb & _). iwp_step. apply iwp_checkTableNameNotExists; [done|..]; rewrite Hdb.
  { intros i m w2 Hi Ht (Hdb2 & _). apply HEd; [done| |congruence]. intros Hfree. by apply (Hfree i m). }
  intros w2 Hfree (Hdb2 & _). apply iwp_withTx; [intros d Hf; exfalso; by apply (Hrel (w_tick w2))|].
  rewrite Hdb2, Hdb. set (d := w_db w) in *.
  assert (forall x : driver_err, faulty (o (w_tick w2)) -> E (ErrDriver x) (w_next w2)) as HF
    by (intros x Hf; exfalso; by apply (Hrel (w_tick w2))).
  unfold createQueueInTx. wp_step. apply wp_ddl; [done|]. wp_step. apply wp_enforceMaxQueues; [done|..].
  { intros Hmax. apply HEm; [done..|]. cbn. congruence. }
  intros n1 Hmax. wp_step. apply wp_createQueueMetadata; [|apply Hgen|done|done|..].
  { intros x Hf. exfalso. by apply (Hrel (w_tick w2)). }
  { by eapply lookup_queue_absent. }
  set (k := e_gen _ _ _). set (m := mkQueueMetadata _ _ _ _ _ _ _ _).
  destruct (name_free_tables d _ Hok Hfree) as [Hc Ht].
  apply (wp_createQueueTables _ _ d k m); [done|done|done|].
  intros n2. eapply HQ; [done|done|apply Hgen|done|reflexivity].
Qed.

(** *** Deletion *)

Lemma without_queue_ok i m d :
  db_ok d -> db_metadata d !! i = Some m -> db_ok (without_queue m d).
Proof.
  intros Hd Hi.
  assert (forall j m', db_metadata (without_queue m d) !! j = Some m' ->
    db_metadata d !! j = Some m' /\ q_TableName m' <> q_TableName m) as Hrow.
  { intros j m' [Hj Hq]%map_lookup_filter_Some. split; [done|]. cbn in Hq. intros Ht.
    assert (j = i) as -> by by eapply (ok_unique d Hd). assert (m' = m) as -> by congruence.
    by rewrite (proj2 (is_queue_true _ _ m)) in Hq. }
  assert (forall j m', db_metadata d !! j = Some m' -> q_TableName m' <> q_TableName m ->
    db_metadata (without_queue m d) !! j = Some m') as Hkeep.
  { intros j m' Hj Ht. apply map_lookup_filter_Some. split; [done|]. cbn.
    apply not_true_iff_false. intros [_ Hn]%is_queue_true.
    destruct (same_queue d j i m' m Hd Hj Hi Hn) as [_ ->]. done. }
  assert (forall t, is_Some (db_channels (without_queue m d) !! t) ->
    is_Some (db_channels d !! t) /\ (q_QueueType m = QueueTypePubSub \/ t <> q_TableName m)) as Hch.
  { intros t. cbn. case_bool_decide; [tauto|]. rewrite lookup_delete_is_Some. intros [? ?].
    split; [done|]. right. congruence. }
  assert (forall t, is_Some (db_topics (without_queue m d) !! t) ->
    is_Some (db_topics d !! t) /\ (q_QueueType m = QueueTypePubSub -> t <> q_TableName m)) as Hto.
  { intros t. cbn. case_bool_decide; [|tauto]. rewrite lookup_delete_is_Some. intros [? ?].
    split; [done|]. congruence. }
  destruct (ok_rows d Hd i m Hi) as (_ & _ & Htab). split.
  - intros j m' [Hj Ht]%Hrow. destruct (ok_rows d Hd j m' Hj) as (? & ? & Htab').
    split_and!; [done..|]. unfold tables_of in *. cbn.
    destruct (q_QueueType m'); [| |done]; case_bool_decide; try done;
      apply lookup_delete_is_Some; split; congruence.
  - intros j j' a b [Hj _]%Hrow [Hj' _]%Hrow. by apply (ok_unique d Hd).
  - intros t [Hs Hne]%Hch. destruct (ok_channels d Hd t Hs) as (j & m' & Hj & Hq & <-).
    exists j, m'. split; [|done]. apply Hkeep; [done|]. destruct Hne as [Hp|]; [|done].
    intros Ht. assert (j = i) as -> by by eapply (ok_unique d Hd). congruence.
  - intros t [Hs Hne]%Hto. destruct (ok_topics d Hd t Hs) as (j & m' & Hj & Hq & <-).
    exists j, m'. split; [|done]. apply Hkeep; [done|]. intros Ht.
    assert (j = i) as -> by by eapply (ok_unique d Hd). assert (m' = m) as -> by congruence.
    by apply Hne.
  - intros k s Hk. assert (db_subscribers d !! k = Some s /\
      (q_QueueType m = QueueTypePubSub -> sb_TopicName s <> q_QueueName m)) as [Hs Hne].
    { revert Hk. cbn. case_bool_decide; [|done]. by intros [? ?]%map_lookup_filter_Some. }
    destruct (ok_subscribers d Hd k s Hs) as (j & m' & Hj & Hq & Hn). exists j, m'. split; [|done].
    apply Hkeep; [done|]. intros Ht. assert (j = i) as -> by by eapply (ok_unique d Hd).
    assert (m' = m) as -> by congruence. apply Hne; congruence.
Qed.

Lemma wp_executeDelete e n d m (Q : unit -> nat -> option DB -> Prop) E :
  (forall x, faulty e -> E (ErrDriver x)) ->
  (forall n', Q tt n' (Some (without_queue m d))) ->
  wp e n (Some d) (executeDelete (q_QueueType m) (q_QueueName m) (q_TableName m)) Q E.
Proof.
  intros HF HQ. unfold executeDelete, deleteQueueMetadata. wp_step. apply wp_ddl; [done|]. wp_step.
  unfold without_queue in HQ. destruct (bool_decide (q_QueueType m = QueueTypePubSub)).
  - apply wp_ddl; [done|]. wp_step. apply wp_ddl; [done|]. do 7 wp_step. apply HQ.
  - do 2 wp_step. apply wp_ddl; [done|]. do 7 wp_step. apply HQ.
Qed.

(** Looking a queue up keeps the cache coherent. *)
(** A delete by this process, and what it leaves in its cache. *)
Lemma iwp_deleteQueue o w qt name :
  reliable o -> db_ok (w_db w) -> qt = QueueTypeChannel \/ qt = QueueTypePubSub ->
  cache_coherent w ->
  iwp o w (deleteQueue qt name)
    (fun _ w' => exists meta, cache_coherent w' /\ lookup_queue qt name (w_db w) = Some meta /\
       w_db w' = without_queue meta (w_db w))
    (fun x w' => cache_coherent w' /\ w_db w' = w_db w /\
       ((x = ErrInvalidQueueName /\ validateQueueName name = Err ErrInvalidQueueName) \/
        (x = ErrQueueNotFound /\ lookup_queue qt name (w_db w) = None))).
Proof.
  intros Hrel Hok Hqt Hc.
  unfold deleteQueue. iwp_step. iwp_step. destruct (validateQueueName name) as [[]|x] eqn:Hv.
  2: { assert (x = ErrInvalidQueueName) as ->; [|by auto 10].
       unfold validateQueueName in Hv. repeat case_match; congruence. }
  iwp_step. apply iwp_getQueueMetadata_coherent; [done|done|done|..].
  2: { intros w1 Hl (Hdb & _) Hc1. split_and!; auto. }
  intros meta w1 Hl (Hdb & _) Hc1. iwp_step. apply lookup_queue_Some in Hl as Hm.
  destruct Hm as (i & Hmi & Hq & Hn).
  assert (wp (o (w_tick w1)) 0 (Some (w_db w1)) (executeDelete qt name (q_TableName meta))
    (fun _ _ s => s = Some (without_queue meta (w_db w))) (fun _ => False)) as Hwp.
  { rewrite Hdb, <-Hq, <-Hn. apply wp_executeDelete; [|done]. intros x Hf. by apply (Hrel (w_tick w1)). }
  unfold iwp at 1, withTx_then. unfold wp in Hwp.
  destruct (e_begin (o (w_tick w1))) as [de|] eqn:Eb; [exfalso; apply (Hrel (w_tick w1)); left; eauto|].
  destruct (executeDelete qt name (q_TableName meta) _ _ _) as [a n s|x]; [|done]. subst s.
  destruct (e_commit (o (w_tick w1))) as [[de b]|] eqn:Ec.
  { exfalso. apply (Hrel (w_tick w1)). right. left. eauto. }
  unfold invalidateQueueCaches. do 3 iwp_step. exists meta.
  refine (conj _ (conj Hl _)); [|reflexivity]. cbn. intros qt' name' item Hqt' Hit. cbn in Hit.
  unfold cache_invalidate in Hit. apply lookup_delete_Some in Hit as [Hne Hit].
  unfold mbind, io_bind, get_world, put_cache in Hit. cbn in Hit.
  apply lookup_delete_Some in Hit as [_ Hit]. destruct (Hc1 qt' name' item Hqt' Hit) as (m' & Hl' & Ht').
  exists m'. split; [|done]. cbn. rewrite Hdb in Hl'.
  apply lookup_queue_Some in Hl' as Hm'. destruct Hm' as (j & Hj & <- & <-).
  pose proof (without_queue_ok i meta (w_db w) Hok Hmi) as Hok'.
  apply (lookup_queue_intro _ j m' Hok'). apply map_lookup_filter_Some. split; [done|]. cbn.
  apply not_true_iff_false. intros [Hq' Hn']%is_queue_true. apply Hne. congruence.
Qed.

(** ** Properties *)

(** C33: on a working server with a consistent database, creating a queue fails and
    changes nothing exactly when the name is invalid, its table name is taken (by a
    queue of either type, also one whose name only sanitises to the same), or the
    queue cap is reached; otherwise it adds one metadata row and empty tables, the
    queue can be looked up, and the database stays consistent. *)
Theorem createQueue_exact (cfg : queueConfig) (o : oracle) (w : world) (qt : QueueType)
    (name : string) (opts : channelOptions) :
  reliable o -> db_ok (w_db w) -> qt = QueueTypeChannel \/ qt = QueueTypePubSub ->
  (forall m n i, db_metadata (w_db w) !! e_gen (o m) n i = None) ->
  let free := name_free (sanitizeTableName name) (w_db w) in
  let full := 0 < maxQueues cfg <= Z.of_nat (size (db_metadata (w_db w))) in
  exists res w', createQueue cfg qt name opts o w = (res, w') /\
    match res with
    | Ok _ => validateQueueName name = Ok tt /\ free /\ ~ full /\ db_ok (w_db w') /\
        exists k meta, w_db w' = with_queue k meta (w_db w) /\
          lookup_queue qt name (w_db w') = Some meta /\ q_Config meta = ConfigObject opts /\
          q_Paused meta = false /\ q_TableName meta = sanitizeTableName name
    | Err x => w_db w' = w_db w /\
        ((x = ErrInvalidQueueName /\ validateQueueName name = Err ErrInvalidQueueName) \/
         (x = ErrQueueAlreadyExists /\ validateQueueName name = Ok tt /\ ~ free) \/
         (x = ErrMaxQueuesReached /\ validateQueueName name = Ok tt /\ free /\ full))
    end.
Proof.
  intros Hrel Hok Hqt Hgen free full.
  pose proof (iwp_createQueue cfg o w qt name opts
    (fun _ w' => validateQueueName name = Ok tt /\ free /\ ~ full /\ exists k now,
       db_metadata (w_db w) !! k = None /\ w_db w' = with_queue k (mkQueueMetadata k qt name
         (sanitizeTableName name) (ConfigObject opts) false now now) (w_db w))
    (fun x w' => w_db w' = w_db w /\
        ((x = ErrInvalidQueueName /\ validateQueueName name = Err ErrInvalidQueueName) \/
         (x = ErrQueueAlreadyExists /\ validateQueueName name = Ok tt /\ ~ free) \/
         (x = ErrMaxQueuesReached /\ validateQueueName name = Ok tt /\ free /\ full)))
    Hrel Hok Hgen) as Hi.
  unfold iwp in Hi. destruct (createQueue cfg qt name opts o w) as [[[]|x] w'].
  2: { eexists _, w'. split; [reflexivity|]. apply Hi; intros; split_and!; auto 10. naive_solver. }
  destruct Hi as (Hv & Hf & Hm & k & now & Hk & Hw); [intros; split_and!; auto 10..|naive_solver|].
  eexists _, w'. split; [reflexivity|]. set (meta := mkQueueMetadata _ _ _ _ _ _ _ _) in Hw.
  assert (db_ok (with_queue k meta (w_db w))) as Hok' by by apply with_queue_ok.
  refine (conj Hv (conj Hf (conj Hm _))). rewrite Hw. split; [done|]. exists k, meta.
  split; [done|]. split; [|done].
  apply (lookup_queue_intro (with_queue k meta (w_db w)) k meta Hok').
  unfold with_queue. case_bool_decide; cbn; by rewrite lookup_insert_eq.
Qed.

(** A channel "a-b" exists; its tables are named a_b. *)
Definition admin_meta : queueMetadata :=
  mkQueueMetadata 1 QueueTypeChannel "a-b" "a_b" ConfigEmpty false 0 0.
Definition admin_db : DB :=
  set_channels {["a_b"%string := mkChannelTables ∅ ∅]} (set_metadata {[1 := admin_meta]} empty_DB).

Lemma admin_db_ok : db_ok admin_db.
Proof.
  split; cbn.
  - intros i m [<- <-]%lookup_singleton_Some. split; [reflexivity|]. split; [reflexivity|]. by eexists.
  - by intros i j m m' [<- <-]%lookup_singleton_Some [<- <-]%lookup_singleton_Some.
  - intros t [x [<- _]%lookup_singleton_Some]. exists 1, admin_meta. done.
  - intros t [x Hx]. by rewrite lookup_empty in Hx.
  - intros k s Hk. by rewrite lookup_empty in Hk.
Qed.

Lemma admin_gen m n i : db_metadata admin_db !! e_gen (calm_oracle m) n i = None.
Proof.
  cbn [calm_oracle calm_env e_gen admin_db db_metadata set_channels set_metadata].
  apply lookup_singleton_ne. intros Heq.
  assert (0 <= 2 ^ 40 * Z.of_nat m) by lia. assert (1 < 2 ^ 120) by (vm_compute; reflexivity). lia.
Qed.

(** A topic "a_b" collides with the tables of channel "a-b"; "c" does not. *)
Lemma createQueue_exact_witness :
  (exists w', createQueue sample_cfg QueueTypePubSub "a_b" (applyQueueOptions []) calm_oracle
    (new_world admin_db) = (Err ErrQueueAlreadyExists, w') /\ w_db w' = admin_db) /\
  exists w', createQueue sample_cfg QueueTypePubSub "c" (applyQueueOptions []) calm_oracle
    (new_world admin_db) = (Ok tt, w') /\ db_ok (w_db w').
Proof.
  split.
  - destruct (createQueue_exact sample_cfg calm_oracle (new_world admin_db) QueueTypePubSub "a_b"
      (applyQueueOptions []) calm_oracle_reliable admin_db_ok ltac:(by right) admin_gen)
      as (res & w' & Heq & Hres).
    assert (fst (createQueue sample_cfg QueueTypePubSub "a_b" (applyQueueOptions []) calm_oracle
      (new_world admin_db)) = Err ErrQueueAlreadyExists) as Hr by (vm_compute; reflexivity).
    rewrite Heq in Hr. cbn [fst] in Hr. subst res. destruct Hres as [Hw _]. exists w'.
    split; [exact Heq|exact Hw].
  - destruct (createQueue_exact sample_cfg calm_oracle (new_world admin_db) QueueTypePubSub "c"
      (applyQueueOptions []) calm_oracle_reliable admin_db_ok ltac:(by right) admin_gen)
      as (res & w' & Heq & Hres).
    assert (fst (createQueue sample_cfg QueueTypePubSub "c" (applyQueueOptions []) calm_oracle
      (new_world admin_db)) = Ok tt) as Hr by (vm_compute; reflexivity).
    rewrite Heq in Hr. cbn [fst] in Hr. subst res. destruct Hres as (_ & _ & _ & Hok & _). exists w'.
    split; [exact Heq|exact Hok].
Defined.

(** On a working server with a consistent database, deleting a queue removes
    its tables, metadata row, subscribers and audit log and nothing else, keeps the
    database consistent, and leaves no stale table name in this process' cache; a
    queue that does not exist, or an invalid name, is an error that changes
    nothing. *)
Theorem deleteQueue_exact (o : oracle) (w : world) (qt : QueueType) (name : string) :
  reliable o -> db_ok (w_db w) -> qt = QueueTypeChannel \/ qt = QueueTypePubSub ->
  cache_coherent w ->
  exists res w', deleteQueue qt name o w = (res, w') /\ cache_coherent w' /\ db_ok (w_db w') /\
    match res with
    | Ok _ => exists meta, lookup_queue qt name (w_db w) = Some meta /\
        w_db w' = without_queue meta (w_db w) /\ lookup_queue qt name (w_db w') = None
    | Err x => w_db w' = w_db w /\
        ((x = ErrInvalidQueueName /\ validateQueueName name = Err ErrInvalidQueueName) \/
         (x = ErrQueueNotFound /\ lookup_queue qt name (w_db w) = None))
    end.
Proof.
  intros Hrel Hok Hqt Hc.
  pose proof (iwp_deleteQueue o w qt name Hrel Hok Hqt Hc) as Hi.
  unfold iwp in Hi. destruct (deleteQueue qt name o w) as [[[]|x] w'].
  2: { destruct Hi as (Hc' & Hw & Hx). eexists _, w'. split; [done|]. rewrite Hw. done. }
  destruct Hi as (meta & Hc' & Hl & Hw). eexists _, w'. split; [done|].
  pose proof Hl as (i & Hmi & Hq & Hn)%lookup_queue_Some.
  refine (conj Hc' (conj _ _)); [rewrite Hw; by eapply without_queue_ok|].
  exists meta. split; [done|]. split; [done|]. rewrite Hw.
  destruct (lookup_queue qt name (without_queue meta (w_db w))) as [m'|] eqn:Hl'; [|done].
  apply lookup_queue_Some in Hl' as (j & [_ Hj]%map_lookup_filter_Some & Hq' & Hn'). cbn in Hj.
  exfalso. revert Hj. rewrite (proj2 (is_queue_true _ _ m')); [done|]. split; congruence.
Qed.

Lemma deleteQueue_exact_witness :
  exists w', deleteQueue QueueTypeChannel "a-b" calm_oracle (new_world admin_db) = (Ok tt, w') /\
    db_ok (w_db w') /\ db_channels (w_db w') = ∅.
Proof.
  destruct (deleteQueue_exact calm_oracle (new_world admin_db) QueueTypeChannel "a-b"
    calm_oracle_reliable admin_db_ok ltac:(by left)
    ltac:(intros qt name item _ Hi; cbn in Hi; by rewrite lookup_empty in Hi))
    as (res & w' & Heq & _ & Hok & Hres).
  assert (fst (deleteQueue QueueTypeChannel "a-b" calm_oracle (new_world admin_db)) = Ok tt) as Hr
    by (vm_compute; reflexivity).
  rewrite Heq in Hr. cbn [fst] in Hr. subst res. destruct Hres as (meta & Hl & Hw & _). exists w'.
  split; [exact Heq|]. split; [exact Hok|].
  assert (bool_decide (db_channels (w_db (snd (deleteQueue QueueTypeChannel "a-b" calm_oracle
    (new_world admin_db)))) = ∅) = true) as Hc by (vm_compute; reflexivity).
  rewrite Heq in Hc. exact (bool_decide_eq_true_1 _ Hc).
Defined.

Lemma setQueuePaused_lookup qt name now b d meta :
  db_ok d -> lookup_queue qt name d = Some meta ->
  let ids := (sql_select (fun _ => is_queue qt name) (fun _ => 0) (db_metadata d)).*1 in
  let d' := set_metadata (sql_update_ids ids (set_paused now b) (db_metadata d)) d in
  length ids <> 0%nat /\ lookup_queue qt name d' = Some (set_paused now b meta) /\
  (forall i m, db_metadata d !! i = Some m -> is_queue qt name m = false ->
     db_metadata d' !! i = Some m).
Proof.
  intros Hok Hl ids d'. pose proof Hl as (i & Hi & Hq & Hn)%lookup_queue_Some.
  assert (forall j m, db_metadata d !! j = Some m -> j ∈ ids <-> is_queue qt name m = true) as Hids.
  { intros j m Hj. unfold ids. rewrite list_elem_of_fmap. split.
    - intros ([j' m'] & -> & [Hj' Hm']%elem_of_sql_select). cbn in *. congruence.
    - intros Hm. exists (j, m). split; [done|]. by apply elem_of_sql_select. }
  assert (i ∈ ids) as Hin by (apply (Hids i meta Hi), is_queue_true; done). split_and!.
  - intros Hz%length_zero_iff_nil. rewrite Hz in Hin. by apply elem_of_nil in Hin.
  - unfold lookup_queue. set (P := fun (_ : Z) => is_queue qt name).
    assert (db_metadata d' !! i = Some (set_paused now b meta)) as Hi'.
    { cbn. rewrite lookup_sql_update_ids, Hi. cbn. by rewrite decide_True. }
    destruct (sql_select P (fun _ => 0) (db_metadata d')) as [|[j m] l] eqn:Hs.
    + pose proof (proj1 (sql_select_nil _ _ _) Hs i _ Hi') as Hf. unfold P in Hf.
      rewrite (proj2 (is_queue_true _ _ _)) in Hf; [done|]. by split.
    + cbn. f_equal. assert ((j, m) ∈ sql_select P (fun _ => 0) (db_metadata d'))
        as [Hj Hm]%elem_of_sql_select by (rewrite Hs; left). unfold P in Hm.
      cbn in Hj. rewrite lookup_sql_update_ids in Hj.
      destruct (db_metadata d !! j) as [mj|] eqn:Hdj; [|done]. cbn in Hj. injection Hj as <-.
      apply is_queue_true in Hm as [_ Hmn].
      assert (q_QueueName mj = q_QueueName meta) as Hnn
        by (revert Hmn; case_decide; cbn; congruence).
      destruct (same_queue d j i mj meta Hok Hdj Hi Hnn) as [-> ->]. by rewrite decide_True.
  - intros j m Hj Hf. cbn. rewrite lookup_sql_update_ids, Hj. cbn. rewrite decide_False; [done|].
    rewrite (Hids j m Hj). congruence.
Qed.

(** Pausing or resuming a channel flips its flag and nothing of any other
    queue; a paused channel hands out no message and is left untouched by consume
    calls, which return [ErrQueuePaused]; pausing a channel that does not exist is
    an error that changes nothing. *)
Theorem PauseChannel_stops_consumption `{Server} (cfg : queueConfig) (o : oracle) (w : world)
    (name : string) (vt : Duration) :
  reliable o -> db_ok (w_db w) -> w_closed w = false -> validateVisibilityTimeout vt = Ok tt ->
  exists res w', PauseChannel name o w = (res, w') /\
    match res with
    | Ok _ =>
        (exists meta now, lookup_queue QueueTypeChannel name (w_db w) = Some meta /\
           lookup_queue QueueTypeChannel name (w_db w') = Some (set_paused now true meta)) /\
        db_channels (w_db w') = db_channels (w_db w) /\
        (forall i m, db_metadata (w_db w) !! i = Some m -> is_queue QueueTypeChannel name m = false ->
           db_metadata (w_db w') !! i = Some m) /\
        exists w'', consumeFromChannel cfg name vt o w' = (Err ErrQueuePaused, w'') /\
          w_db w'' = w_db w'
    | Err x => x = ErrQueueNotFound /\ lookup_queue QueueTypeChannel name (w_db w) = None /\
        w_db w' = w_db w
    end.
Proof.
  intros Hrel Hok Hcl Hvt.
  assert (iwp o w (PauseChannel name)
    (fun _ w' => w_closed w' = false /\ exists meta now,
       lookup_queue QueueTypeChannel name (w_db w) = Some meta /\
       lookup_queue QueueTypeChannel name (w_db w') = Some (set_paused now true meta) /\
       db_channels (w_db w') = db_channels (w_db w) /\
       forall i m, db_metadata (w_db w) !! i = Some m -> is_queue QueueTypeChannel name m = false ->
           db_metadata (w_db w') !! i = Some m)
    (fun x w' => x = ErrQueueNotFound /\ lookup_queue QueueTypeChannel name (w_db w) = None /\
       w_db w' = w_db w)) as Hi.
  { unfold PauseChannel, setQueuePaused. iwp_step. iwp_step; [congruence|intros _]. iwp_step.
    apply iwp_withTx; [intros d Hf; exfalso; by apply (Hrel (w_tick w))|].
    apply wp_stmt; [intros d Hf; exfalso; by apply (Hrel (w_tick w))|].
    destruct (lookup_queue QueueTypeChannel name (w_db w)) as [meta|] eqn:Hl.
    - destruct (setQueuePaused_lookup QueueTypeChannel name (e_now (o (w_tick w))) true (w_db w) meta
        Hok Hl) as (Hlen & Hl' & Hoth).
      set (ids := (sql_select _ _ _).*1) in *.
      rewrite (proj2 (Nat.eqb_neq _ _) Hlen). iwp_step. split; [done|].
      exists meta, (e_now (o (w_tick w))). done.
    - assert (sql_select (fun _ => is_queue QueueTypeChannel name) (fun _ => 0) (db_metadata (w_db w))
        = []) as ->.
      { unfold lookup_queue in Hl. by destruct (sql_select _ _ _) as [|x l]. }
      cbn [fmap list_fmap length Nat.eqb]. iwp_step. split_and!; [done..|]. cbn.
      destruct (w_db w) as [md sb rl ch tp nt]. unfold set_metadata. cbn. f_equal. apply map_eq.
      intros i. rewrite lookup_sql_update_ids. by destruct (md !! i). }
  unfold iwp in Hi. destruct (PauseChannel name o w) as [[[]|x] w']; [|eauto].
  destruct Hi as (Hcl' & meta & now & Hl & Hl' & Hch & Hoth). eexists _, w'. split; [done|].
  split; [by eexists _, _|]. do 2 (split; [done|]).
  assert (iwp o w' (consumeFromChannel cfg name vt) (fun _ _ => False)
    (fun x w'' => x = ErrQueuePaused /\ w_db w'' = w_db w')) as Hcons.
  { unfold consumeFromChannel. iwp_step. iwp_step; [congruence|intros _]. iwp_step. iwp_step.
    rewrite Hvt. do 2 iwp_step. apply iwp_getQueueMetadata.
    - intros m w2 Hl2 (Hdb2 & _). assert (m = set_paused now true meta) as -> by congruence. cbn.
      iwp_step. done.
    - congruence.
    - intros x w2 Hx. by apply reliable_no_fault in Hx. }
  unfold iwp in Hcons. destruct (consumeFromChannel cfg name vt o w') as [[r|x] w2]; [done|].
  destruct Hcons as [-> ?]. by exists w2.
Qed.

Lemma PauseChannel_stops_consumption_witness :
  exists w', PauseChannel "a-b" calm_oracle (new_world admin_db) = (Ok tt, w') /\
    exists w'', consumeFromChannel (H := truncating_server) sample_cfg "a-b" second calm_oracle w' =
      (Err ErrQueuePaused, w'').
Proof.
  destruct (PauseChannel_stops_consumption (H := truncating_server) sample_cfg calm_oracle
    (new_world admin_db) "a-b" second calm_oracle_reliable admin_db_ok eq_refl eq_refl)
    as (res & w' & Heq & Hres).
  assert (fst (PauseChannel "a-b" calm_oracle (new_world admin_db)) = Ok tt) as Hr
    by (vm_compute; reflexivity).
  rewrite Heq in Hr. cbn [fst] in Hr. subst res. destruct Hres as (_ & _ & _ & w'' & Hc & _).
  exists w'. split; [exact Heq|]. exists w''. exact Hc.
Defined.
