(* ===== verification/GcPool.v ===== *)
(** * One pass of the collector over all queues ([Collect], [dispatchCollect] of [gc.go])

    [Gc] has what the collector does to one queue.  A pass fans the queues out to a
    bounded pool of workers, gathers their errors up to a cap, and stops handing out
    queues when the context ends or a worker finds the connection pool dead.  Here
    the pass is a transition system over the dispatching loop and its workers; what
    [collectQueue] returns for a queue is the environment's choice. *)

From S2P Require Import Prelude Types Tx World Config Queries Gc Admin.
From Stdlib Require Import ZArith Lia.
Local Open Scope nat_scope.

(** ** Errors *)

(** [sql.ErrConnDone] and [driver.ErrBadConn], which carry no SQLSTATE. *)
Definition isPoolDead (x : err) : bool :=
  match x with
  | ErrDriver d =>
      bool_decide (d = DriverErr None "sql: connection is already closed") ||
      bool_decide (d = DriverErr None "driver: bad connection")
  | _ => false
  end.

(** ** The workers *)

Inductive vpos :=
| VCollect              (* in [collectQueue] *)
| VFailed (x : err)     (* it returned an error, not recorded yet *)
| VCheck (x : err)      (* before [isPoolDead] *)
| VPanic                (* recovered a panic, not recorded yet *)
| VRelease              (* before the slot of the semaphore is released *)
| VFinish               (* before [wg.Done()] *)
| VEnd.

(** [v_out] remembers what [collectQueue] came back with: success or an error. *)
Record visit := mkVisit {
  v_queue : queueMetadata;
  v_pos : vpos;
  v_out : option (option err)
}.

Definition holds_slot (v : visit) : bool :=
  match v_pos v with VFinish | VEnd => false | _ => true end.
Definition ended (v : visit) : bool := match v_pos v with VEnd => true | _ => false end.

(** ** The dispatching loop *)

Inductive dpos :=
| DLoop
| DStop                                        (* [wg.Wait()] after [dispatchCtx.Done()] *)
| DWait                                        (* [wg.Wait()] after the loop *)
| DReturned (errs : list collectErr) (note : bool).
                                               (* [note]: with the cancellation error appended *)

Record dispatch := mkDispatch {
  d_todo : list queueMetadata;
  d_visits : list visit;                       (* in the order they were started *)
  d_errs : list collectErr;
  d_ctx : bool;                                (* the pass's context is done *)
  d_cancel : bool;                             (* [cancelDispatch] was called *)
  d_pos : dpos
}.

Definition dispatchCollect_start (ctx : bool) (queues : list queueMetadata) : dispatch :=
  mkDispatch queues [] [] ctx false DLoop.

Definition slots_held (d : dispatch) : nat := length (filter (fun v => holds_slot v = true) (d_visits d)).

Definition set_visit (i : nat) (v : visit) (d : dispatch) : dispatch :=
  mkDispatch (d_todo d) (<[i := v]> (d_visits d)) (d_errs d) (d_ctx d) (d_cancel d) (d_pos d).
Definition recordErr (queueName : string) (qerr : err) (d : dispatch) : dispatch :=
  mkDispatch (d_todo d) (d_visits d) (appendCappedErr (d_errs d) queueName qerr) (d_ctx d)
    (d_cancel d) (d_pos d).
Definition cancelDispatch (d : dispatch) : dispatch :=
  mkDispatch (d_todo d) (d_visits d) (d_errs d) (d_ctx d) true (d_pos d).
Definition goto (p : dpos) (d : dispatch) : dispatch :=
  mkDispatch (d_todo d) (d_visits d) (d_errs d) (d_ctx d) (d_cancel d) p.

(** How [collectQueue] ends. *)
Inductive outcome :=
| Collected
| Failed (x : err)
| Panicked.

Inductive event :=
| DSpawn                                       (* [sem <- struct{}{}] *)
| DCancelled                                   (* [<-dispatchCtx.Done()] *)
| DLoopEnd
| DJoined                                      (* [wg.Wait()] returned *)
| DCollected (i : nat) (r : outcome)
| DWorker (i : nat)                            (* [collectQueueWorker] goes on *)
| DCtxDone.

(** A worker's step after [collectQueue]. *)
Definition worker_step (i : nat) (d : dispatch) : option dispatch :=
  v ← d_visits d !! i;
  let name := q_QueueName (v_queue v) in
  let at_ p := mkVisit (v_queue v) p (v_out v) in
  match v_pos v with
  | VCollect | VEnd => None
  | VFailed x => Some (recordErr name x (set_visit i (at_ (VCheck x)) d))
  | VCheck x =>
      let d := set_visit i (at_ VRelease) d in
      Some (if isPoolDead x then cancelDispatch d else d)
  | VPanic => Some (recordErr name errGCPanic (set_visit i (at_ VRelease) d))
  | VRelease => Some (set_visit i (at_ VFinish) d)
  | VFinish => Some (set_visit i (at_ VEnd) d)
  end.

Definition collected_step (i : nat) (r : outcome) (d : dispatch) : option dispatch :=
  v ← d_visits d !! i;
  match v_pos v with
  | VCollect =>
      Some (set_visit i
        match r with
        | Collected => mkVisit (v_queue v) VRelease (Some None)
        | Failed x => mkVisit (v_queue v) (VFailed x) (Some (Some x))
        | Panicked => mkVisit (v_queue v) VPanic (Some (Some errGCPanic))
        end d)
  | _ => None
  end.

Section pass.
Context (MaxWorkers : nat).

Definition step (e : event) (d : dispatch) : option dispatch :=
  match e with
  | DSpawn =>
      match d_pos d, d_todo d with
      | DLoop, q :: qs =>
          if slots_held d <? MaxWorkers then
            Some (mkDispatch qs (d_visits d ++ [mkVisit q VCollect None]) (d_errs d) (d_ctx d)
                    (d_cancel d) DLoop)
          else None
      | _, _ => None
      end
  | DCancelled =>
      match d_pos d, d_todo d with
      | DLoop, _ :: _ => if d_ctx d || d_cancel d then Some (goto DStop d) else None
      | _, _ => None
      end
  | DLoopEnd =>
      match d_pos d, d_todo d with
      | DLoop, [] => Some (goto DWait d)
      | _, _ => None
      end
  | DJoined =>
      match d_pos d with
      | DStop | DWait =>
          if forallb ended (d_visits d) then Some (goto (DReturned (d_errs d) (d_ctx d)) d) else None
      | _ => None
      end
  | DCollected i r => collected_step i r d
  | DWorker i => worker_step i d
  | DCtxDone =>
      Some (mkDispatch (d_todo d) (d_visits d) (d_errs d) true (d_cancel d) (d_pos d))
  end.

Fixpoint steps (es : list event) (d : dispatch) : option dispatch :=
  match es with
  | [] => Some d
  | e :: es => step e d ≫= steps es
  end.

End pass.

(** ** A pass *)

Section collect.
Context `{Server} (cfg : queueConfig).

(** The queues [Collect] hands to [dispatchCollect]: topics, then channels. *)
Definition Collect_queues : io (list queueMetadata) :=
  topics ← listQueues QueueTypePubSub;
  channels ← listQueues QueueTypeChannel;
  mret (topics ++ channels).

End collect.

(** ** The accumulated errors *)

(** What recording the failures [fs], in this order, leaves. *)
Definition capped (fs : list (string * err)) : list collectErr :=
  if length fs <=? maxAccumulatedCollectErrs then (fun f => QueueErr f.1 f.2) <$> fs
  else ((fun f => QueueErr f.1 f.2) <$> take maxAccumulatedCollectErrs fs) ++ [errCollectErrsTruncated].

Lemma length_capped fs : length (capped fs) = min (length fs) (S maxAccumulatedCollectErrs).
Proof.
  unfold capped. destruct (Nat.leb_spec (length fs) maxAccumulatedCollectErrs).
  - rewrite length_fmap. lia.
  - rewrite length_app, length_fmap, length_take. cbn [length]. lia.
Qed.

Lemma capped_snoc fs name x : capped (fs ++ [(name, x)]) = appendCappedErr (capped fs) name x.
Proof.
  unfold appendCappedErr. rewrite length_capped. unfold capped at 1. rewrite length_app. cbn [length].
  destruct (Nat.leb_spec (length fs + 1) maxAccumulatedCollectErrs) as [H|H].
  - rewrite (proj2 (Nat.ltb_lt _ _)) by lia. unfold capped.
    rewrite (proj2 (Nat.leb_le _ _)) by lia. by rewrite fmap_app.
  - rewrite (proj2 (Nat.ltb_ge _ _)) by lia. rewrite take_app_le by lia.
    destruct (decide (length fs = maxAccumulatedCollectErrs)) as [He|Hn].
    + rewrite He, Nat.min_l, Nat.eqb_refl by lia. unfold capped.
      rewrite (proj2 (Nat.leb_le _ _)) by lia. by rewrite <-He, take_ge by lia.
    + rewrite (proj2 (Nat.eqb_neq _ _)) by lia. unfold capped.
      by rewrite (proj2 (Nat.leb_gt _ _)) by lia.
Qed.

(** The failures of a visit that have been recorded. *)
Definition recorded (v : visit) : list (string * err) :=
  match v_pos v, v_out v with
  | (VCheck _ | VRelease | VFinish | VEnd), Some (Some x) => [(q_QueueName (v_queue v), x)]
  | _, _ => []
  end.

(** ** Invariants *)

Definition visit_ok (v : visit) : Prop :=
  match v_pos v with
  | VCollect => v_out v = None
  | VFailed x | VCheck x => v_out v = Some (Some x)
  | VPanic => v_out v = Some (Some errGCPanic)
  | VRelease | VFinish | VEnd => is_Some (v_out v)
  end.

(** A queue whose collection found the pool dead. *)
Definition pool_died (d : dispatch) : Prop :=
  exists v x, v ∈ d_visits d /\ v_out v = Some (Some x) /\ isPoolDead x = true.

Record ok (MaxWorkers : nat) (queues : list queueMetadata) (d : dispatch) : Prop := {
  ok_split : queues = (v_queue <$> d_visits d) ++ d_todo d;
  ok_held : slots_held d <= MaxWorkers;
  ok_visits : Forall visit_ok (d_visits d);
  ok_errs : exists fs, d_errs d = capped fs /\ fs ≡ₚ concat (recorded <$> d_visits d);
  ok_cancel : d_cancel d = true -> pool_died d;
  ok_pos : match d_pos d with
           | DLoop => True
           | DStop => d_ctx d = true \/ d_cancel d = true
           | DWait => d_todo d = []
           | DReturned errs note =>
               errs = d_errs d /\ Forall (fun v => ended v = true) (d_visits d) /\
               (d_todo d <> [] -> note = true \/ d_cancel d = true)
           end
}.

Section invariant.
Context (MaxWorkers : nat) (queues : list queueMetadata).

Lemma pass_ok_start ctx : ok MaxWorkers queues (dispatchCollect_start ctx queues).
Proof. split; cbn; try done; [unfold slots_held; cbn; lia|]. exists []. by split. Qed.

Lemma concat_insert (vs : list visit) i v v' :
  vs !! i = Some v ->
  exists rest, concat (recorded <$> vs) ≡ₚ recorded v ++ rest /\
    concat (recorded <$> <[i := v']> vs) ≡ₚ recorded v' ++ rest.
Proof.
  revert i. induction vs as [|u vs IH]; intros [|i] H; try done; cbn in H |- *.
  - simplify_eq. by exists (concat (recorded <$> vs)).
  - destruct (IH i H) as (rest & H1 & H2). exists (recorded u ++ rest).
    rewrite H1. split; [by rewrite Permutation_app_swap_app|].
    by rewrite H2, Permutation_app_swap_app.
Qed.

Lemma held_insert d i v v' :
  d_visits d !! i = Some v -> holds_slot v = true \/ holds_slot v' = false ->
  slots_held (set_visit i v' d) <= slots_held d.
Proof.
  unfold slots_held. cbn [set_visit d_visits]. generalize (d_visits d). intros vs. revert i.
  induction vs as [|u vs IH]; intros [|i] H Hh; try done; cbn in H.
  - simplify_eq. change (<[0 := v']> (v :: vs)) with (v' :: vs). rewrite !filter_cons. destruct Hh as [Hh|Hh].
    + rewrite (decide_True _ _ Hh). case_decide; cbn [length]; lia.
    + rewrite (decide_False (P := holds_slot v' = true)) by congruence. case_decide; cbn [length]; lia.
  - change (<[S i := v']> (u :: vs)) with (u :: <[i := v']> vs). rewrite !filter_cons.
    specialize (IH i H Hh). case_decide; cbn [length]; lia.
Qed.

(** A worker moves on: what its new state must respect. *)
Lemma ok_visit d i v v' new :
  ok MaxWorkers queues d -> d_visits d !! i = Some v ->
  v_queue v' = v_queue v -> visit_ok v' -> (v_out v' = v_out v \/ v_out v = None) ->
  holds_slot v = true \/ holds_slot v' = false -> ended v = false ->
  recorded v' = recorded v ++ new -> length new <= 1 ->
  ok MaxWorkers queues
    (fold_right (fun f d => recordErr f.1 f.2 d) (set_visit i v' d) new).
Proof.
  intros [H1 H2 H3 H4 H5 H6] Hv Hq Hok Hout Hh He Hr Hl.
  assert (Hret : match d_pos d with DReturned _ _ => False | _ => True end).
  { destruct (d_pos d); try done. destruct H6 as (_ & H6 & _). rewrite Forall_lookup in H6.
    specialize (H6 _ _ Hv). congruence. }
  assert (Hmap : v_queue <$> <[i := v']> (d_visits d) = v_queue <$> d_visits d).
  { rewrite list_fmap_insert, Hq. apply list_insert_id. by rewrite list_lookup_fmap, Hv. }
  assert (Hdied : pool_died d -> pool_died (set_visit i v' d)).
  { intros (u & x & Hu & Hx & Hd). apply list_elem_of_lookup in Hu as [j Hj].
    destruct (decide (j = i)) as [->|Hn].
    - simplify_eq. exists v', x. split_and!; [|destruct Hout; congruence|done].
      apply list_elem_of_insert. by eapply lookup_lt_Some.
    - exists u, x. split_and!; [|done..]. apply list_elem_of_lookup. exists j. cbn.
      by rewrite list_lookup_insert_ne. }
  assert (Hbase : slots_held (set_visit i v' d) <= MaxWorkers) by (pose proof (held_insert d i v v' Hv Hh); lia).
  destruct H4 as (fs & Hfs & Hp).
  destruct (concat_insert _ i v v' Hv) as (rest & Hc1 & Hc2).
  destruct new as [|[n x] [|]]; cbn in Hl; [| |lia]; split; cbn; rewrite ?Hmap; try done;
    try (by apply Forall_insert); try (by intros; apply Hdied, H5); try by destruct (d_pos d).
  - exists fs. split; [done|]. rewrite Hp, Hc1, Hc2, Hr. by rewrite app_nil_r.
  - exists (fs ++ [(n, x)]). rewrite capped_snoc, Hfs. split; [done|].
    rewrite Hp, Hc1, Hc2, Hr. rewrite <-!app_assoc. apply Permutation_app_head.
    by rewrite Permutation_app_comm.
Qed.

Lemma ok_cancelDispatch d : ok MaxWorkers queues d -> pool_died d -> ok MaxWorkers queues (cancelDispatch d).
Proof.
  intros [H1 H2 H3 H4 H5 H6] Hd. split; try done. cbn.
  destruct (d_pos d); try done; [by right|]. destruct H6 as (? & ? & ?). split_and!; try done. by right.
Qed.

Lemma ok_worker_step i d d' :
  worker_step i d = Some d' -> ok MaxWorkers queues d -> ok MaxWorkers queues d'.
Proof.
  unfold worker_step. intros H Hd. destruct (d_visits d !! i) as [[q p out]|] eqn:Ev; [|done].
  cbn in H. assert (visit_ok (mkVisit q p out)) as Hv.
  { pose proof (ok_visits _ _ _ Hd) as Hw. rewrite Forall_lookup in Hw. by eapply Hw. }
  destruct p; simplify_eq; cbn in Hv.
  - refine (ok_visit d i _ (mkVisit q (VCheck x) out) [(q_QueueName q, x)] Hd Ev _ _ _ _ _ _ _);
      try done; cbn; subst; auto.
  - assert (ok MaxWorkers queues (set_visit i (mkVisit q VRelease out) d)) as Hok.
    { refine (ok_visit d i _ (mkVisit q VRelease out) [] Hd Ev _ _ _ _ _ _ _);
        try done; cbn; subst; auto. }
    destruct (isPoolDead x) eqn:Ex; [|done]. apply ok_cancelDispatch; [done|].
    exists (mkVisit q VRelease out), x. split_and!; [|done..].
    apply list_elem_of_insert. by eapply lookup_lt_Some.
  - refine (ok_visit d i _ (mkVisit q VRelease out) [(q_QueueName q, errGCPanic)] Hd Ev _ _ _ _ _ _ _);
      try done; cbn; subst; auto.
  - refine (ok_visit d i _ (mkVisit q VFinish out) [] Hd Ev _ _ _ _ _ _ _);
      try done; cbn; rewrite ?app_nil_r; auto.
  - refine (ok_visit d i _ (mkVisit q VEnd out) [] Hd Ev _ _ _ _ _ _ _);
      try done; cbn; rewrite ?app_nil_r; auto.
Qed.

Lemma ok_collected_step i r d d' :
  collected_step i r d = Some d' -> ok MaxWorkers queues d -> ok MaxWorkers queues d'.
Proof.
  unfold collected_step. intros H Hd. destruct (d_visits d !! i) as [[q p out]|] eqn:Ev; [|done].
  cbn in H. assert (visit_ok (mkVisit q p out)) as Hv.
  { pose proof (ok_visits _ _ _ Hd) as Hw. rewrite Forall_lookup in Hw. by eapply Hw. }
  destruct p; try done. cbn in Hv. subst. simplify_eq.
  refine (ok_visit d i _ _ [] Hd Ev _ _ _ _ _ _ _); destruct r; cbn; auto; by eexists.
Qed.

Lemma forallb_ended vs : forallb ended vs = true -> Forall (fun v => ended v = true) vs.
Proof. rewrite forallb_forall, Forall_forall. intros H v Hv. apply H. by apply list_elem_of_In. Qed.

Lemma pass_ok_step e d d' :
  step MaxWorkers e d = Some d' -> ok MaxWorkers queues d -> ok MaxWorkers queues d'.
Proof.
  intros H Hd. destruct e as [| | | |i r|i|]; unfold step in H; pose proof Hd as [H1 H2 H3 H4 H5 H6].
  - destruct (d_pos d); [|done..]. destruct (d_todo d) as [|q qs]; [done|].
    destruct (Nat.ltb_spec (slots_held d) MaxWorkers); [|done]. simplify_eq. split; cbn; try done.
    + by rewrite fmap_app, <-app_assoc.
    + unfold slots_held in *. cbn [d_visits]. rewrite filter_app, length_app.
      change (filter _ [mkVisit q VCollect None]) with [mkVisit q VCollect None]. cbn [length]. lia.
    + apply Forall_app; split; [done|]. by repeat constructor.
    + destruct H4 as (fs & ? & Hp). exists fs. split; [done|].
      by rewrite fmap_app, concat_app, Hp, app_nil_r.
    + intros Hc. destruct (H5 Hc) as (v & x & ? & ? & ?). exists v, x. cbn. set_solver.
  - destruct (d_pos d); [|done..]. destruct (d_todo d) as [|q qs] eqn:Et; [done|].
    destruct (d_ctx d) eqn:Ec; cbn in H; [|destruct (d_cancel d) eqn:Ed; [|done]]; simplify_eq;
      split; cbn; rewrite ?Et, ?Ec, ?Ed; auto.
  - destruct (d_pos d); [|done..]. destruct (d_todo d) as [|q qs] eqn:Et; [|done].
    simplify_eq. split; cbn; rewrite ?Et; auto.
  - destruct (d_pos d) eqn:Ep; try done; (destruct (forallb ended _) eqn:Ee; [|done]); simplify_eq;
      (split; cbn; try done; split_and!; [done|by apply forallb_ended|]); [done|].
    by rewrite H6.
  - by eapply ok_collected_step.
  - by eapply ok_worker_step.
  - simplify_eq. split; cbn; try done. destruct (d_pos d); try done. by left.
Qed.

Lemma pass_ok_steps es d d' :
  steps MaxWorkers es d = Some d' -> ok MaxWorkers queues d -> ok MaxWorkers queues d'.
Proof.
  revert d. induction es as [|e es IH]; intros d H Hd; cbn in H; [by simplify_eq|].
  destruct (step MaxWorkers e d) as [d1|] eqn:E; [|done]. cbn in H. eapply IH; [done|]. by eapply pass_ok_step.
Qed.

End invariant.

(** ** The pass returns *)

Definition visit_rank (v : visit) : nat :=
  match v_pos v with
  | VCollect => 5
  | VFailed _ => 4
  | VCheck _ | VPanic => 3
  | VRelease => 2
  | VFinish => 1
  | VEnd => 0
  end.
Definition remaining (d : dispatch) : nat :=
  6 * length (d_todo d) + sum_list_with visit_rank (d_visits d) +
  match d_pos d with DLoop => 2 | DStop | DWait => 1 | DReturned _ _ => 0 end.

Lemma visit_step_rank i d d' : worker_step i d = Some d' -> remaining d' < remaining d.
Proof.
  unfold worker_step. intros H. destruct (d_visits d !! i) as [[q p out]|] eqn:Ev; [|done]. cbn in H.
  assert (Hs : forall p', visit_rank (mkVisit q p' out) < visit_rank (mkVisit q p out) ->
     6 * length (d_todo d) + sum_list_with visit_rank (<[i := mkVisit q p' out]> (d_visits d)) <
     6 * length (d_todo d) + sum_list_with visit_rank (d_visits d)).
  { intros p' Hp. pose proof (sum_insert visit_rank _ i (mkVisit q p' out) _ Ev). lia. }
  unfold remaining. destruct p; try done; [| |..]; simplify_eq;
    try (destruct (isPoolDead x)); cbn [d_todo d_visits d_pos recordErr set_visit cancelDispatch];
    apply Nat.add_lt_mono_r, Hs; cbn; lia.
Qed.

Lemma collected_step_rank i r d d' : collected_step i r d = Some d' -> remaining d' < remaining d.
Proof.
  unfold collected_step. intros H. destruct (d_visits d !! i) as [[q p out]|] eqn:Ev; [|done].
  cbn in H. destruct p; try done. simplify_eq. unfold remaining. cbn [d_todo d_visits d_pos set_visit].
  match goal with |- context [<[i := ?v']> _] =>
    pose proof (sum_insert visit_rank _ i v' _ Ev) as Hs;
    assert (visit_rank v' <= 4) by (destruct r; cbn; lia) end.
  assert (visit_rank (mkVisit q VCollect out) = 5) by done. lia.
Qed.

Lemma step_rank m e d d' :
  step m e d = Some d' -> e <> DCtxDone -> remaining d' < remaining d.
Proof.
  intros H He. destruct e as [| | | |i r|i|]; unfold step in H; try done.
  - destruct (d_pos d) eqn:Ep; [|done..]. destruct (d_todo d) as [|q qs] eqn:Et; [done|].
    destruct (_ <? _); [|done]. simplify_eq. unfold remaining. rewrite Et, Ep.
    cbn [d_todo d_visits d_pos length]. rewrite sum_list_with_app. cbn. lia.
  - destruct (d_pos d) eqn:Ep; [|done..]. destruct (d_todo d) eqn:Et; [done|].
    destruct (_ || _); [|done]. simplify_eq. unfold remaining. rewrite Ep. cbn. lia.
  - destruct (d_pos d) eqn:Ep; [|done..]. destruct (d_todo d) eqn:Et; [|done].
    simplify_eq. unfold remaining. rewrite Ep. cbn. lia.
  - destruct (d_pos d) eqn:Ep; try done; (destruct (forallb _ _); [|done]); simplify_eq;
      unfold remaining; rewrite Ep; cbn; lia.
  - by eapply collected_step_rank.
  - by eapply visit_step_rank.
Qed.

Lemma visit_moves m d i v :
  d_visits d !! i = Some v -> ended v = false -> exists e d', e <> DCtxDone /\ step m e d = Some d'.
Proof.
  intros Hv He. destruct v as [q p out]. destruct p; try done.
  1: exists (DCollected i Collected); eexists; split; [done|]; cbn; unfold collected_step;
     by rewrite Hv.
  all: exists (DWorker i); eexists; split; [done|]; cbn; unfold worker_step; by rewrite Hv.
Qed.

Lemma not_ended vs : forallb ended vs = false -> exists i v, vs !! i = Some v /\ ended v = false.
Proof.
  induction vs as [|v vs IH]; [done|]. cbn. destruct (ended v) eqn:E; intros H.
  - destruct (IH H) as (i & u & ? & ?). by exists (S i), u.
  - by exists 0, v.
Qed.

Lemma slot_holder d : 0 < slots_held d -> exists i v, d_visits d !! i = Some v /\ ended v = false.
Proof.
  unfold slots_held. intros H. destruct (filter _ (d_visits d)) as [|v vs] eqn:E; [cbn in H; lia|].
  assert (v ∈ filter (fun v => holds_slot v = true) (d_visits d)) as Hv by (rewrite E; by left).
  apply list_elem_of_filter in Hv as [Hh Hv]. apply list_elem_of_lookup in Hv as [i Hi].
  exists i, v. split; [done|]. by destruct v as [q [] out].
Qed.

Lemma pass_moves m d :
  0 < m -> (forall errs note, d_pos d <> DReturned errs note) ->
  exists e d', e <> DCtxDone /\ step m e d = Some d'.
Proof.
  intros Hm Hp. destruct (d_pos d) as [| | |errs note] eqn:Ep; [| | |by destruct (Hp errs note)].
  - destruct (d_todo d) as [|q qs] eqn:Et.
    + exists DLoopEnd. eexists. split; [done|]. cbn. by rewrite Ep, Et.
    + destruct (Nat.ltb_spec (slots_held d) m) as [Hh|Hh].
      * exists DSpawn. unfold step. rewrite Ep, Et, (proj2 (Nat.ltb_lt _ _) Hh). by eexists.
      * destruct (slot_holder d) as (i & v & Hi & He); [lia|]. by eapply visit_moves.
  - destruct (forallb ended (d_visits d)) eqn:Ee.
    + exists DJoined. cbn. rewrite Ep, Ee. by eexists.
    + destruct (not_ended _ Ee) as (i & v & ? & ?). by eapply visit_moves.
  - destruct (forallb ended (d_visits d)) eqn:Ee.
    + exists DJoined. cbn. rewrite Ep, Ee. by eexists.
    + destruct (not_ended _ Ee) as (i & v & ? & ?). by eapply visit_moves.
Qed.

Lemma steps_rank m es d d' :
  steps m es d = Some d' -> Forall (fun e => e <> DCtxDone) es ->
  remaining d' + length es <= remaining d.
Proof.
  revert d. induction es as [|e es IH]; intros d H He; cbn [steps] in H; [simplify_eq; cbn; lia|].
  inversion He as [|? ? He1 Hes]; subst. destruct (step m e d) as [d1|] eqn:E; [|done]. cbn in H.
  specialize (IH _ H Hes). apply step_rank in E; [|done]. cbn [length]. lia.
Qed.

(** ** Properties *)

(** The failure of a visit, if it failed. *)
Definition failure (v : visit) : list (string * err) :=
  match v_out v with Some (Some x) => [(q_QueueName (v_queue v), x)] | _ => [] end.

Lemma recorded_ended vs :
  Forall (fun v => ended v = true) vs -> recorded <$> vs = failure <$> vs.
Proof.
  intros H. apply list_fmap_ext. intros i v Hv. rewrite Forall_lookup in H. specialize (H _ _ Hv).
  by destruct v as [q [] [[]|]].
Qed.

(** the bookkeeping of one pass over the queues, for every schedule of its workers.
    At no time do more workers run than the configured number, and at most 101 errors
    are kept.  When the pass returns, every queue it handed out has been collected
    to the end, in the order of the list and once; the errors it returns are those of the
    queues that failed (the first hundred recorded, then the truncation mark); and
    queues are left out only if the context was canceled, which is reported, or a
    worker found the connection pool dead. *)
Theorem gc_pass_accounts m ctx queues es d :
  steps m es (dispatchCollect_start ctx queues) = Some d ->
  slots_held d <= m /\ length (d_errs d) <= S maxAccumulatedCollectErrs /\
  forall errs note, d_pos d = DReturned errs note ->
    queues = (v_queue <$> d_visits d) ++ d_todo d /\
    Forall (fun v => ended v = true /\ is_Some (v_out v)) (d_visits d) /\
    (exists failures, errs = capped failures /\
       failures ≡ₚ concat (failure <$> d_visits d)) /\
    (d_todo d <> [] -> note = true \/ pool_died d).
Proof.
  intros H. apply (pass_ok_steps m queues) in H; [|apply pass_ok_start].
  destruct H as [H1 H2 H3 (fs & Hfs & Hp) H5 H6]. split; [done|]. split.
  { rewrite Hfs, length_capped. lia. }
  intros errs note Hr. rewrite Hr in H6. destruct H6 as (He & Hend & Hs). split; [done|].
  split; [|split].
  - apply Forall_lookup. intros i v Hv. rewrite Forall_lookup in Hend, H3.
    specialize (Hend _ _ Hv). specialize (H3 _ _ Hv). split; [done|].
    by destruct v as [q [] out].
  - exists fs. split; [congruence|]. by rewrite Hp, recorded_ended.
  - intros Ht. destruct (Hs Ht) as [?|Hc]; [by left|right; auto].
Qed.

(** A pass returns.  With at least one worker allowed, the dispatching loop and its
    workers take at most [remaining] steps in any schedule (six per queue and two
    more), and as long as the pass has not returned one of them can go on: a worker
    that fails or panics never keeps its slot. *)
Theorem gc_pass_terminates m ctx queues es d :
  0 < m -> steps m es (dispatchCollect_start ctx queues) = Some d ->
  Forall (fun e => e <> DCtxDone) es ->
  length es <= 6 * length queues + 2 /\
  ((exists errs note, d_pos d = DReturned errs note) \/
   exists e d', e <> DCtxDone /\ step m e d = Some d').
Proof.
  intros Hm H He. pose proof (steps_rank _ _ _ _ H He) as Hr.
  unfold remaining at 2 in Hr. cbn in Hr. split; [lia|].
  destruct (d_pos d) as [| | |errs note] eqn:Ep; [right..|left; eauto];
    apply pass_moves; try done; intros; by rewrite Ep.
Qed.

Section collect_all.
Context `{Server}.

(** C28: a collection pass reaches every queue.  On a server that answers, [Collect]
    lists every topic and channel of the database, and if its pass returns without
    having been canceled and without finding the connection pool dead, each of them
    has been collected by a worker that finished. *)
Theorem Collect_reaches_every_queue o w :
  reliable o ->
  exists queues w', Collect_queues o w = (Ok queues, w') /\
    forall m ctx es d errs,
      steps m es (dispatchCollect_start ctx queues) = Some d ->
      d_pos d = DReturned errs false -> ~ pool_died d ->
      forall i meta, db_metadata (w_db w) !! i = Some meta ->
        (q_QueueType meta = QueueTypePubSub \/ q_QueueType meta = QueueTypeChannel) ->
        exists v, v ∈ d_visits d /\ v_queue v = meta /\ ended v = true.
Proof.
  intros Ho.
  destruct (listQueuesRaw_complete o w QueueTypePubSub Ho) as (r1 & w1 & E1 & F1 & _ & _ & M1).
  destruct (listQueuesRaw_complete o w1 QueueTypeChannel Ho) as (r2 & w2 & E2 & F2 & _ & _ & M2).
  exists (r1.*2 ++ r2.*2), w2. split.
  { unfold Collect_queues, listQueues, mbind, io_bind, mret, io_ret. by rewrite E1, E2. }
  intros m ctx es d errs Hs Hp Hdead i meta Hm Ht.
  apply (pass_ok_steps m (r1.*2 ++ r2.*2)) in Hs; [|apply pass_ok_start].
  destruct Hs as [Hq _ _ _ Hc Hpos]. rewrite Hp in Hpos. destruct Hpos as (_ & Hend & Htodo).
  assert (d_todo d = []) as Hnil.
  { destruct (d_todo d) as [|q qs]; [done|]. exfalso. apply Hdead, Hc.
    by destruct (Htodo ltac:(discriminate)). }
  rewrite Hnil, app_nil_r in Hq.
  assert (meta ∈ v_queue <$> d_visits d) as Hin.
  { rewrite <-Hq. apply elem_of_app. assert (db_metadata (w_db w1) = db_metadata (w_db w)) as Hdb
      by (destruct F1; congruence).
    destruct Ht as [Ht|Ht]; [left|right]; apply list_elem_of_fmap; exists (i, meta);
      (split; [done|]); [apply M1|apply M2; rewrite Hdb]; done. }
  apply list_elem_of_fmap in Hin as (v & -> & Hv). exists v. split; [done|]. split; [done|].
  rewrite Forall_forall in Hend. by apply Hend.
Qed.

End collect_all.

(** Three queues, two workers: the second queue fails, the third panics. *)
Definition three_queues : list queueMetadata :=
  (fun n => mkQueueMetadata 1 QueueTypeChannel n n ConfigEmpty false 0 0) <$> ["a"; "b"; "c"]%string.
Definition pass_run : list event :=
  [DSpawn; DSpawn; DCollected 1 (Failed ErrQueueNotFound); DCollected 0 Collected;
   DWorker 1; DWorker 1; DWorker 1; DSpawn; DCollected 2 Panicked;
   DWorker 2; DWorker 0; DWorker 0; DWorker 1; DWorker 2; DWorker 2; DLoopEnd; DJoined].

Lemma gc_pass_accounts_witness :
  exists d, steps 2 pass_run (dispatchCollect_start false three_queues) = Some d /\
    d_pos d = DReturned [QueueErr "b" ErrQueueNotFound; QueueErr "c" errGCPanic] false /\
    v_queue <$> d_visits d = three_queues /\ slots_held d <= 2.
Proof.
  destruct (steps 2 pass_run (dispatchCollect_start false three_queues)) as [d|] eqn:E;
    [|by vm_compute in E].
  destruct (gc_pass_accounts 2 false three_queues pass_run d E) as (Hh & _ & Hret).
  exists d. split; [done|].
  assert (d_pos d = DReturned [QueueErr "b" ErrQueueNotFound; QueueErr "c" errGCPanic] false) as Hp
    by (vm_compute in E; by simplify_eq).
  split; [done|]. destruct (Hret _ _ Hp) as (Hq & _). split; [|done].
  assert (d_todo d = []) as Ht by (vm_compute in E; by simplify_eq).
  by rewrite Ht, app_nil_r in Hq.
Defined.

Lemma gc_pass_terminates_witness :
  exists d, steps 2 pass_run (dispatchCollect_start false three_queues) = Some d /\
    length pass_run <= 20 /\ (exists errs note, d_pos d = DReturned errs note).
Proof.
  destruct (steps 2 pass_run (dispatchCollect_start false three_queues)) as [d|] eqn:E;
    [|by vm_compute in E].
  destruct (gc_pass_terminates 2 false three_queues pass_run d) as [Hl _]; [lia|done| |].
  { repeat constructor; discriminate. }
  exists d. split; [done|]. split; [done|]. vm_compute in E. simplify_eq. eauto.
Defined.

Lemma Collect_reaches_every_queue_witness :
  exists queues w', Collect_queues calm_oracle (new_world witness_queues) = (Ok queues, w') /\
    (forall m ctx es d errs, steps m es (dispatchCollect_start ctx queues) = Some d ->
      d_pos d = DReturned errs false -> ~ pool_died d ->
      exists v, v ∈ d_visits d /\ q_QueueName (v_queue v) = "t"%string) /\
    q_QueueName <$> queues = ["t"; "a"; "b"]%string.
Proof.
  destruct (Collect_reaches_every_queue calm_oracle (new_world witness_queues) calm_oracle_reliable)
    as (qs & w' & E & H). exists qs, w'. split; [exact E|]. split.
  - intros m ctx es d errs Hs Hp Hd.
    destruct (H m ctx es d errs Hs Hp Hd 2%Z (mkQueueMetadata 2 QueueTypePubSub "t" "t" ConfigEmpty
      false 0 0)) as (v & Hv & Hq & _); [reflexivity|by left|]. exists v. by rewrite Hq.
  - vm_compute in E. by simplify_eq.
Defined.
