(* ===== verification/PgParam.v ===== *)
(** * Driver-portable query parameters ([pgparam.go])

    Arrays are sent as the text of a PostgreSQL array literal and parsed by the server.
    The rest of the development works with the lists themselves; this file shows that the
    server reads back exactly those lists.  The text form of a UUID (google/uuid) and the
    server's input functions are parameters with their documented behaviour. *)

From S2P Require Import Prelude Types Tx Queries Batch.
From Stdlib Require Import ZArith Lia Ascii.
Local Open Scope Z_scope.

(** ** The server and the UUID package *)

(** A character that means something to the parser of array literals: braces, the
    delimiter, quotes, the backslash, white space. *)
Definition special (c : ascii) : bool :=
  bool_decide (c ∈ ["{"; "}"; ","; "034"; "092"]%char) ||
  bool_decide (c ∈ ([" "; "009"; "010"; "011"; "012"; "013"]%char)).

Definition is_null_word (cs : list ascii) : bool :=
  match cs with
  | [n; u; l1; l2] =>
      bool_decide (n ∈ ["N"; "n"]%char) && bool_decide (u ∈ ["U"; "u"]%char) &&
      bool_decide (l1 ∈ ["L"; "l"]%char) && bool_decide (l2 ∈ ["L"; "l"]%char)
  | _ => false
  end.

(** An element that needs no quoting. *)
Definition plain (s : string) : Prop :=
  s <> ""%string /\ Forall (fun c => special c = false) (String.list_ascii_of_string s) /\
  is_null_word (String.list_ascii_of_string s) = false.

(** [strings.Join(parts, ",")] *)
Fixpoint Join (parts : list string) : string :=
  match parts with
  | [] => ""
  | [p] => p
  | p :: parts => p +:+ "," +:+ Join parts
  end.

(** The text of an array of elements, and the input functions of text[] and uuid. *)
Class PgText := {
  array_in : string -> option (list string);
  uuid_String : uuid -> string;
  uuid_in : string -> option uuid
}.

(** Documented: unquoted elements between braces, separated by commas, are the elements
    of the array; [uuid.String] is the form xxxxxxxx-xxxx-xxxx-xxxx-xxxxxxxxxxxx of hex
    digits, which the server reads as that UUID. *)
Definition uuid_char (c : ascii) : Prop := c ∈ String.list_ascii_of_string "0123456789abcdef-".
Class PgTextLaws `{PgText} : Prop := {
  array_in_empty : array_in "{}" = Some [];
  array_in_plain parts : parts <> [] -> Forall plain parts ->
    array_in ("{" +:+ Join parts +:+ "}") = Some parts;
  uuid_String_form u : 0 <= u < 2 ^ 128 ->
    String.length (uuid_String u) = 36%nat /\
    Forall uuid_char (String.list_ascii_of_string (uuid_String u));
  uuid_in_String u : 0 <= u < 2 ^ 128 -> uuid_in (uuid_String u) = Some u
}.

(** ** The parameters *)

Section params.
Context `{PgText}.

Definition uuidArrayLiteral (ids : list uuid) : string :=
  match ids with
  | [] => "{}"
  | _ => "{" +:+ Join (uuid_String <$> ids) +:+ "}"
  end.

(** [FormatFloat v] is [strconv.FormatFloat(v, 'g', -1, 64)]. *)
Definition float64ArrayLiteral {F} (FormatFloat : F -> string) (vals : list F) : string :=
  match vals with
  | [] => "{}"
  | _ => "{" +:+ Join (FormatFloat <$> vals) +:+ "}"
  end.

(** The two index-aligned literals, from the sorted copy. *)
Definition id_claim_literals (receipts : list Receipt) : string * string :=
  let sorted := receiptsToIDClaimLiterals receipts in
  ("{" +:+ Join ((fun x => uuid_String x.1) <$> sorted) +:+ "}",
   "{" +:+ Join ((fun x => uuid_String x.2) <$> sorted) +:+ "}").

(** [$n::text::uuid[]] *)
Definition uuid_array_in (s : string) : option (list uuid) := array_in s ≫= mapM uuid_in.
End params.

(** ** Lemmas *)

Lemma uuid_char_not_special c : uuid_char c -> special c = false.
Proof.
  unfold uuid_char. cbn [String.list_ascii_of_string]. rewrite !elem_of_cons, elem_of_nil.
  intros Hc. repeat destruct Hc as [->|Hc]; try reflexivity. done.
Qed.

Section lemmas.
Context `{PgTextLaws}.

Lemma uuid_String_plain u : 0 <= u < 2 ^ 128 -> plain (uuid_String u).
Proof.
  intros Hu. destruct (uuid_String_form u Hu) as [Hl Hc]. split; [intros E; by rewrite E in Hl|]. split.
  - eapply Forall_impl; [exact Hc|]. apply uuid_char_not_special.
  - destruct (String.list_ascii_of_string (uuid_String u)) as [|a [|b [|c [|d [|]]]]] eqn:E; try done.
    assert (String.length (uuid_String u) = 4%nat) as Hx; [|rewrite Hx in Hl; lia].
    rewrite <-(String.string_of_list_ascii_of_string (uuid_String u)), E. done.
Qed.

Lemma array_of_plain {A} (f : A -> string) l :
  l <> [] -> Forall (fun x => plain (f x)) l -> array_in ("{" +:+ Join (f <$> l) +:+ "}") = Some (f <$> l).
Proof. intros Hne Hl. apply array_in_plain; [by destruct l|by apply Forall_fmap]. Qed.

Lemma mapM_uuid_in {A} (f : A -> uuid) l :
  Forall (fun x => 0 <= f x < 2 ^ 128) l -> mapM uuid_in ((fun x => uuid_String (f x)) <$> l) = Some (f <$> l).
Proof.
  induction 1 as [|x l Hx Hl IH]; [done|]. cbn [fmap list_fmap mapM]. rewrite uuid_in_String by done. cbn.
  rewrite IH. done.
Qed.

Lemma uuid_array_of {A} (f : A -> uuid) l :
  l <> [] -> Forall (fun x => 0 <= f x < 2 ^ 128) l ->
  uuid_array_in ("{" +:+ Join ((fun x => uuid_String (f x)) <$> l) +:+ "}") = Some (f <$> l).
Proof.
  intros Hne Hl. unfold uuid_array_in. rewrite array_of_plain; [|done|].
  - by apply mapM_uuid_in.
  - eapply Forall_impl; [exact Hl|]. intros x. apply uuid_String_plain.
Qed.
End lemmas.

(** ** A server and a text form that keep the laws *)

(** The parser of the unquoted form: [cur] is the element being read. *)
Fixpoint scan (cur : list ascii) (cs : list ascii) : option (list string) :=
  match cs with
  | [] => None
  | c :: cs =>
      if bool_decide (c = "}"%char) then
        match cur, cs with
        | _ :: _, [] => Some [String.string_of_list_ascii cur]
        | _, _ => None
        end
      else if bool_decide (c = ","%char) then
        match cur with
        | [] => None
        | _ => rest ← scan [] cs; Some (String.string_of_list_ascii cur :: rest)
        end
      else if special c then None
      else scan (cur ++ [c]) cs
  end.
Definition scan_array (s : string) : option (list string) :=
  match String.list_ascii_of_string s with
  | [] => None
  | c :: cs =>
      if bool_decide (c = "{"%char) then
        match cs with
        | [d] => if bool_decide (d = "}"%char) then Some [] else None
        | _ => scan [] cs
        end
      else None
  end.

Definition hex_char (d : Z) : ascii := ascii_of_nat (Z.to_nat (if d <? 10 then 48 + d else 87 + d)).
Definition hex_value (c : ascii) : Z :=
  let n := Z.of_nat (nat_of_ascii c) in if n <? 58 then n - 48 else n - 87.
Fixpoint hexes (k : nat) (u : Z) : list ascii :=
  match k with O => [] | S k => hexes k (u / 16) ++ [hex_char (u mod 16)] end.
Definition dashed (l : list ascii) : list ascii :=
  take 8 l ++ "-"%char :: take 4 (drop 8 l) ++ "-"%char :: take 4 (drop 12 l) ++ "-"%char ::
  take 4 (drop 16 l) ++ "-"%char :: drop 20 l.
Definition hex_String (u : uuid) : string := String.string_of_list_ascii (dashed (hexes 32 u)).
Definition hex_in (s : string) : option uuid :=
  Some (fold_left (fun acc c => 16 * acc + hex_value c)
    (List.filter (fun c => negb (bool_decide (c = "-"%char))) (String.list_ascii_of_string s)) 0).

#[export] Instance plain_text : PgText :=
  {| array_in := scan_array; uuid_String := hex_String; uuid_in := hex_in |}.

Lemma list_ascii_app s t :
  String.list_ascii_of_string (s +:+ t) = String.list_ascii_of_string s ++ String.list_ascii_of_string t.
Proof. induction s as [|c s IH]; [done|]. change (c :: String.list_ascii_of_string (s +:+ t) =
  (c :: String.list_ascii_of_string s) ++ String.list_ascii_of_string t). by rewrite IH. Qed.

Lemma scan_plain cs : forall cur rest,
  Forall (fun c => special c = false) cs -> scan cur (cs ++ rest) = scan (cur ++ cs) rest.
Proof.
  induction cs as [|c cs IH]; intros cur rest Hc; [by rewrite app_nil_r|].
  apply Forall_cons_iff in Hc as [Hc Hcs]. cbn [app scan].
  assert (c <> "}"%char /\ c <> ","%char) as [H1 H2] by (split; intros ->; discriminate Hc).
  rewrite !bool_decide_false, Hc by done. rewrite IH by done. by rewrite <-app_assoc.
Qed.

Lemma scan_parts parts : parts <> [] -> Forall plain parts ->
  scan [] (String.list_ascii_of_string (Join parts) ++ ["}"%char]) = Some parts.
Proof.
  intros Hne Hp. induction Hp as [|p parts (Hn & Hc & _) Hp IH]; [done|].
  assert (exists c cs, String.list_ascii_of_string p = c :: cs) as (c & cs & E).
  { destruct p as [|c p]; [done|]. by eexists _, _. }
  assert (String.string_of_list_ascii (c :: cs) = p) as Hs
    by (rewrite <-E; apply String.string_of_list_ascii_of_string).
  destruct parts as [|q parts].
  - cbn [Join]. rewrite scan_plain by done. rewrite E. cbn [app scan]. rewrite bool_decide_true by done.
    by rewrite Hs.
  - change (Join (p :: q :: parts)) with (p +:+ "," +:+ Join (q :: parts)). rewrite !list_ascii_app.
    rewrite <-!app_assoc. rewrite scan_plain by done. rewrite E. cbn [app scan String.list_ascii_of_string].
    rewrite bool_decide_false by done. rewrite bool_decide_true by done. rewrite IH by done. cbn [mbind option_bind]. by rewrite Hs.
Qed.

Lemma hex_values d : 0 <= d < 16 ->
  hex_value (hex_char d) = d /\ uuid_char (hex_char d) /\ hex_char d <> "-"%char.
Proof.
  intros Hd. assert (Z.to_nat d < 16)%nat as Hn by lia. rewrite <-(Z2Nat.id d) by lia.
  remember (Z.to_nat d) as n eqn:En. clear En Hd d.
  do 16 (destruct n as [|n]; [split; [reflexivity|split; [|discriminate]]; unfold uuid_char; cbn; set_solver|]). lia.
Qed.

Lemma hexes_spec k : forall u, length (hexes k u) = k /\
  Forall (fun c => uuid_char c /\ c <> "-"%char) (hexes k u) /\
  fold_left (fun acc c => 16 * acc + hex_value c) (hexes k u) 0 = u mod 16 ^ Z.of_nat k.
Proof.
  induction k as [|k IH]; intros u; [split; [done|split; [done|]]; cbn; by rewrite Z.mod_1_r|].
  destruct (IH (u / 16)) as (Hl & Hc & Hf). destruct (hex_values (u mod 16)) as (Hv & Hu & Hd).
  { apply Z.mod_pos_bound. lia. }
  cbn [hexes]. rewrite length_app, Hl, fold_left_app, Hf. cbn [fold_left length]. split; [lia|]. split.
  - apply Forall_app. by split; [|constructor].
  - rewrite Hv, Nat2Z.inj_succ, Z.pow_succ_r by lia. rewrite Z.rem_mul_r by lia. lia.
Qed.

Lemma filter_dash l :
  Forall (fun c => uuid_char c /\ c <> "-"%char) l ->
  List.filter (fun c => negb (bool_decide (c = "-"%char))) l = l.
Proof.
  induction 1 as [|c l [_ Hc] Hl IH]; [done|]. cbn. by rewrite bool_decide_false, IH.
Qed.

Lemma dashed_parts (l : list ascii) :
  take 8 l ++ take 4 (drop 8 l) ++ take 4 (drop 12 l) ++ take 4 (drop 16 l) ++ drop 20 l = l.
Proof.
  assert (forall n, take 4 (drop n l) ++ drop (n + 4) l = drop n l) as Hd.
  { intros n. rewrite <-(take_drop 4 (drop n l)) at 2. by rewrite drop_drop. }
  pose proof (Hd 16%nat) as H1. pose proof (Hd 12%nat) as H2. pose proof (Hd 8%nat) as H3.
  cbn [Nat.add] in H1, H2, H3. rewrite H1, H2, H3. apply take_drop.
Qed.

Lemma filter_dashed l :
  Forall (fun c => uuid_char c /\ c <> "-"%char) l ->
  List.filter (fun c => negb (bool_decide (c = "-"%char))) (dashed l) = l.
Proof.
  intros Hl. unfold dashed.
  repeat (rewrite List.filter_app || (cbn [List.filter]; rewrite (bool_decide_true ("-"%char = "-"%char)) by done; cbn [negb])).
  rewrite !filter_dash by auto using Forall_take, Forall_drop. apply dashed_parts.
Qed.

Lemma ascii_list_length l : String.length (String.string_of_list_ascii l) = length l.
Proof. induction l as [|c l IH]; [done|]. cbn. by rewrite IH. Qed.

Lemma Join_cons parts : parts <> [] -> Forall plain parts ->
  exists c cs, String.list_ascii_of_string (Join parts) = c :: cs.
Proof.
  intros Hne Hp. destruct Hp as [|[|c p] parts [Hn _] _]; [done|done|].
  destruct parts; by eexists _, _.
Qed.

#[export] Instance plain_text_laws : PgTextLaws.
Proof.
  split.
  - done.
  - intros parts Hne Hp. cbn [array_in plain_text]. unfold scan_array. rewrite !list_ascii_app.
    cbn [String.list_ascii_of_string app]. rewrite bool_decide_true by done.
    rewrite <-(scan_parts parts Hne Hp). destruct (Join_cons parts Hne Hp) as (c & cs & ->). by destruct cs.
  - intros u Hu. cbn [uuid_String plain_text]. unfold hex_String. destruct (hexes_spec 32 u) as (Hl & Hc & _).
    rewrite String.list_ascii_of_string_of_list_ascii, ascii_list_length. split.
    + unfold dashed. rewrite !length_app. cbn [length]. rewrite !length_app. cbn [length].
      rewrite !length_app. cbn [length]. rewrite !length_app. cbn [length].
      rewrite !length_take, !length_drop, Hl. reflexivity.
    + assert (Forall uuid_char (hexes 32 u)) as Hu' by (eapply Forall_impl; [exact Hc|]; by intros c []).
      assert (uuid_char "-"%char) as Hd by (unfold uuid_char; cbn; set_solver).
      unfold dashed. repeat (apply Forall_app; split; [by auto using Forall_take, Forall_drop|]; constructor; [done|]).
      by apply Forall_drop.
  - intros u Hu. cbn [uuid_String uuid_in plain_text]. unfold hex_in, hex_String.
    destruct (hexes_spec 32 u) as (_ & Hc & Hf). rewrite String.list_ascii_of_string_of_list_ascii.
    rewrite filter_dashed by done. rewrite Hf. f_equal. apply Z.mod_small. change (16 ^ Z.of_nat 32) with (2 ^ 128). lia.
Qed.

(** ** Properties *)

(** C37: what the server reads is what the program meant, without escaping.  An array of UUIDs
    reads back as that array, the empty one included; the two literals of a batch of
    receipts read back as index-aligned arrays whose pairs are the receipts' (message,
    claim) pairs, no more and no fewer, in ascending order; an array of numbers reads
    back as their texts, as long as those hold no delimiter. *)
Theorem array_literals_roundtrip `{PgTextLaws} {F} (FormatFloat : F -> string) (ids : list uuid)
    (receipts : list Receipt) (vals : list F) :
  Forall (fun u => 0 <= u < 2 ^ 128) ids ->
  Forall (fun r => 0 <= r_MessageID r < 2 ^ 128 /\ 0 <= r_ClaimID r < 2 ^ 128) receipts -> receipts <> [] ->
  Forall (fun v => plain (FormatFloat v)) vals ->
  uuid_array_in (uuidArrayLiteral ids) = Some ids /\
  (exists us, uuid_array_in (id_claim_literals receipts).1 = Some us.*1 /\
     uuid_array_in (id_claim_literals receipts).2 = Some us.*2 /\
     us ≡ₚ receiptMatchKey <$> receipts /\ Sorted key_le us) /\
  array_in (float64ArrayLiteral FormatFloat vals) = Some (FormatFloat <$> vals).
Proof.
  intros Hids Hrs Hne Hv. split; [|split].
  - destruct ids as [|u ids]; [unfold uuid_array_in; cbn; by rewrite array_in_empty|].
    rewrite <-(list_fmap_id (u :: ids)) at 2. by apply (uuid_array_of (fun x => x)).
  - assert (receiptsToIDClaimLiterals receipts ≡ₚ receiptMatchKey <$> receipts) as Hp
      by apply merge_sort_Permutation.
    exists (receiptsToIDClaimLiterals receipts).
    assert (receiptsToIDClaimLiterals receipts <> []) as Hn.
    { intros E. rewrite E in Hp. by apply Permutation_nil, fmap_nil_inv in Hp. }
    assert (Forall (fun x => 0 <= x.1 < 2 ^ 128 /\ 0 <= x.2 < 2 ^ 128) (receiptsToIDClaimLiterals receipts)) as Hx.
    { rewrite Hp. by apply Forall_fmap. }
    split; [|split; [|split; [done|]]].
    + apply uuid_array_of; [done|]. eapply Forall_impl; [exact Hx|]. by intros x [].
    + apply uuid_array_of; [done|]. eapply Forall_impl; [exact Hx|]. by intros x [].
    + apply Sorted_merge_sort. intros x y. unfold key_le. lia.
  - destruct vals as [|v vals]; [apply array_in_empty|]. by apply array_of_plain.
Qed.

Lemma array_literals_roundtrip_witness :
  uuid_array_in (uuidArrayLiteral [2 ^ 127; 0]) = Some [2 ^ 127; 0] /\
  uuid_array_in (id_claim_literals [mkReceipt 5 1 "jobs" QueueTypeChannel ""; mkReceipt 3 9 "jobs" QueueTypeChannel ""]).2 =
    Some [9; 1] /\
  array_in (float64ArrayLiteral (fun b : bool => if b then "1.5" else "2e+06")%string [true; false]) =
    Some ["1.5"; "2e+06"]%string.
Proof.
  destruct (array_literals_roundtrip (fun b : bool => if b then "1.5" else "2e+06")%string [2 ^ 127; 0]
    [mkReceipt 5 1 "jobs" QueueTypeChannel ""; mkReceipt 3 9 "jobs" QueueTypeChannel ""] [true; false])
    as (Hu & _ & Hf).
  - repeat constructor; lia.
  - repeat constructor; cbn; lia.
  - discriminate.
  - repeat constructor; discriminate.
  - split; [exact Hu|]. split; [vm_compute; reflexivity|exact Hf].
Defined.
