(* ===== verification/Consume.v ===== *)
(** * The queue-agnostic consumer API ([consume.go], [handler_retry.go])

    Receiving, acknowledging by receipt, batches over several queues, and the body
    of the handler-driven consume loop: fetching with bounded retries, calling the
    handler, and the automatic ack or nack. *)

From S2P Require Import Prelude Types Tx Backoff Utf8 MetadataCache World Config Queries.
From S2P Require Import Channel Publish PubSub Admin Batch.
From Stdlib Require Import Ascii ZArith Lia.
Local Open Scope Z_scope.

(** ** Options and waits *)

Definition defaultPollInterval : Duration := 1 * second.
Definition maxConsumeTransientRetries : Z := 5.
Definition transientBackoffStep : Duration := 200 * millisecond.
Definition transientBackoffCap : Duration := 5 * second.
Definition maxConcurrency : Z := 1024.

Definition validateConsumeOptions (o : consumeOpts) : result unit :=
  if co_concurrency o <? 0 then Err ErrInvalidConfig
  else if co_pollInterval o <? 0 then Err ErrInvalidConfig
  else Ok tt.

Definition transientBackoff (attempt : Z) : Duration :=
  let d := wrap64 (attempt * transientBackoffStep) in
  if transientBackoffCap <? d then transientBackoffCap else d.

Definition effectivePoll (cfg : queueConfig) (o : consumeOpts) : Duration :=
  if 0 <? co_pollInterval o then co_pollInterval o
  else if 0 <? safetyNetPoll cfg then safetyNetPoll cfg
  else defaultPollInterval.

(** The number of workers [runHandlerLoop] starts. *)
Definition worker_count (o : consumeOpts) : Z :=
  let workers := if co_concurrency o <=? 0 then 1 else co_concurrency o in
  if maxConcurrency <? workers then maxConcurrency else workers.

(** ** Handler errors *)

(** An error a handler returns: its own, one that wraps another with [%w], or
    [RetryAfter(delay, cause)]. *)
Inductive herror :=
| HError (text : bytes)
| HWrap (prefix : bytes) (inner : herror)
| retryAfterError (delay : Duration) (cause : option herror).

Definition RetryAfter (delay : Duration) (cause : option herror) : herror :=
  retryAfterError delay cause.

(** [strconv.Itoa] on a non-negative number, [fuel] digits at most. *)
Fixpoint decimal (fuel : nat) (n : Z) (acc : bytes) : bytes :=
  match fuel with
  | O => acc
  | Datatypes.S fuel =>
      let digit := match Byte.of_N (Z.to_N (48 + n mod 10)) with Some b => b | None => Byte.x30 end in
      if n <? 10 then digit :: acc else decimal fuel (n / 10) (digit :: acc)
  end.

(** The fraction of [v] over [10^prec], without trailing zeros and with its point,
    and the integral part: [fmtFrac] of package time. *)
Fixpoint fmt_frac (prec : nat) (v : Z) (print : bool) (acc : bytes) : bytes * Z :=
  match prec with
  | O => (if print then Byte.x2e :: acc else acc, v)
  | Datatypes.S prec =>
      let print := print || negb (v mod 10 =? 0) in
      let digit := match Byte.of_N (Z.to_N (48 + v mod 10)) with Some b => b | None => Byte.x30 end in
      fmt_frac prec (v / 10) print (if print then digit :: acc else acc)
  end.

Definition fixed (unit : string) (prec : nat) (v : Z) : bytes :=
  let '(frac, whole) := fmt_frac prec v false (String.list_byte_of_string unit) in
  decimal 20 whole frac.

(** [time.Duration.String] *)
Definition Duration_String (d : Duration) : bytes :=
  let u := Z.abs d in
  let sign := if d <? 0 then [Byte.x2d] else [] in
  if u =? 0 then String.list_byte_of_string "0s"
  else if u <? microsecond then sign ++ fixed "ns" 0 u
  else if u <? millisecond then sign ++ fixed "µs" 3 u
  else if u <? second then sign ++ fixed "ms" 6 u
  else
    let '(frac, secs) := fmt_frac 9 u false [Byte.x73] in
    let seconds := decimal 20 (secs mod 60) frac in
    let mins := secs / 60 in
    if mins =? 0 then sign ++ seconds
    else
      let minutes := decimal 20 (mins mod 60) (Byte.x6d :: seconds) in
      let hours := mins / 60 in
      if hours =? 0 then sign ++ minutes
      else sign ++ decimal 20 hours (Byte.x68 :: minutes).

(** [err.Error()] *)
Fixpoint Error (x : herror) : bytes :=
  match x with
  | HError text => text
  | HWrap prefix inner => prefix ++ Error inner
  | retryAfterError delay None =>
      String.list_byte_of_string "retry after " ++ Duration_String delay
  | retryAfterError delay (Some cause) =>
      String.list_byte_of_string "retry after " ++ Duration_String delay ++
      String.list_byte_of_string ": " ++ Error cause
  end.

(** [errors.As(herr, &rae)]: the first RetryAfter of the chain. *)
Fixpoint as_retryAfter (x : herror) : option Duration :=
  match x with
  | HError _ => None
  | HWrap _ inner => as_retryAfter inner
  | retryAfterError delay _ => Some delay
  end.

Definition nackOptionsForHandlerError (herr : herror) : list NackOption :=
  match as_retryAfter herr with
  | Some delay => [WithRetryDelay delay]
  | None => []
  end.

(** What calling a handler ends in: a return, a panic with an error, or a panic
    with another value, of which [%v] prints [text]. *)
Inductive handlerOutcome :=
| HReturn (herr : option herror)
| HPanicError (x : herror)
| HPanicValue (text : bytes).

(** User code, which may itself use the queue. *)
Definition Handler : Type := Message -> oracle -> world -> handlerOutcome * world.

(** The deferred [recover]: a panic becomes an error. *)
Definition recovered (out : handlerOutcome) : option herror :=
  match out with
  | HReturn herr => herr
  | HPanicError x => Some (HWrap (String.list_byte_of_string "handler panic: ") x)
  | HPanicValue text => Some (HError (String.list_byte_of_string "handler panic: " ++ text))
  end.

Definition callHandler (h : Handler) (msg : Message) : io (option herror) := fun o w =>
  let '(out, w') := h msg o w in (Ok (recovered out), w').

Section consume.
Context `{Server} (cfg : queueConfig).

(** ** Receiving *)

Definition ReceiveChannel (name : string) (opts : list ConsumeOption) : io Message :=
  checkClosed ;;
  let o := applyConsumeOptions opts in
  msg ← consumeFromChannel cfg name (co_visibilityTimeout o);
  match msg with
  | None => fail ErrQueueEmpty
  | Some msg =>
      mret (SetReceipt msg (mkReceipt (m_ID msg) (m_ClaimID msg) name QueueTypeChannel ""))
  end.

Definition ReceiveTopic (name subscriberID : string) (opts : list ConsumeOption) : io Message :=
  checkClosed ;;
  let o := applyConsumeOptions opts in
  msg ← consumeFromTopic cfg name subscriberID (co_visibilityTimeout o);
  match msg with
  | None => fail ErrQueueEmpty
  | Some msg =>
      mret (SetReceipt msg (mkReceipt (m_ID msg) (m_ClaimID msg) name QueueTypePubSub subscriberID))
  end.

(** ** Acknowledging by receipt *)

Definition ackReceipt (r : Receipt) : io unit :=
  match r_QueueType r with
  | QueueTypeChannel => ackChannel (r_QueueName r) r
  | QueueTypePubSub => ackTopic (r_QueueName r) (r_SubscriberID r) r
  | QueueTypeOther _ => fail ErrReceiptMissingQueueType
  end.

Definition Ack (r : Receipt) : io unit := checkClosed ;; ackReceipt r.

Definition nackReceipt (r : Receipt) (reason : bytes) (opts : list NackOption) : io unit :=
  match r_QueueType r with
  | QueueTypeChannel => nackChannelWithOpts cfg (r_QueueName r) r reason opts
  | QueueTypePubSub => nackTopicWithOpts cfg (r_QueueName r) (r_SubscriberID r) r reason opts
  | QueueTypeOther _ => fail ErrReceiptMissingQueueType
  end.

Definition Nack (r : Receipt) (reason : bytes) (opts : list NackOption) : io unit :=
  checkClosed ;; nackReceipt r reason opts.

Definition ExtendVisibility (r : Receipt) (d : Duration) : io unit :=
  checkClosed ;;
  from_result (validateVisibilityTimeout d) ;;
  match r_QueueType r with
  | QueueTypeChannel => extendChannelVisibility (r_QueueName r) r d
  | QueueTypePubSub => extendTopicVisibility (r_QueueName r) (r_SubscriberID r) r d
  | QueueTypeOther _ => fail ErrReceiptMissingQueueType
  end.

(** ** Batches over several queues *)

Record receiptGroupKey := mkReceiptGroupKey {
  g_qt : QueueType;
  g_queueName : string;
  g_subscriberID : string
}.
#[export] Instance receiptGroupKey_eq_dec : EqDecision receiptGroupKey.
Proof. solve_decision. Defined.

Definition group_key (r : Receipt) : receiptGroupKey :=
  mkReceiptGroupKey (r_QueueType r) (r_QueueName r) (r_SubscriberID r).

(** [groups[k] = append(groups[k], r)] *)
Fixpoint add_to_group (r : Receipt) (groups : list (receiptGroupKey * list Receipt)) :
    list (receiptGroupKey * list Receipt) :=
  match groups with
  | [] => [(group_key r, [r])]
  | (k, l) :: groups =>
      if bool_decide (k = group_key r) then (k, l ++ [r]) :: groups
      else (k, l) :: add_to_group r groups
  end.

Definition bound (r : Receipt) : bool :=
  match r_QueueType r with QueueTypeOther _ => false | _ => true end.

(** The loop of [groupReceiptsByQueue]; the map is a list in order of first use. *)
Fixpoint group_loop (rs seen : list Receipt) (groups : list (receiptGroupKey * list Receipt)) :
    result (list (receiptGroupKey * list Receipt)) :=
  match rs with
  | [] => Ok groups
  | r :: rs =>
      if negb (bound r) then Err ErrReceiptMissingQueueType
      else if bool_decide (r ∈ seen) then group_loop rs seen groups
      else group_loop rs (r :: seen) (add_to_group r groups)
  end.

Definition groupReceiptsByQueue (rs : list Receipt) :
    result (list (receiptGroupKey * list Receipt)) := group_loop rs [] [].

(** The loop over the groups: each runs in its own transaction, the results of the
    committed ones are concatenated and the errors collected. *)
Fixpoint batch_groups (run : receiptGroupKey -> list Receipt -> io BatchResult)
    (groups : list (receiptGroupKey * list Receipt)) : io (BatchResult * list err) :=
  match groups with
  | [] => mret (empty_batch, [])
  | (k, receipts) :: groups =>
      res ← try_io (run k receipts);
      '(combined, errs) ← batch_groups run groups;
      mret (match res with
            | Ok b => (mkBatchResult (Succeeded b ++ Succeeded combined)
                         (Failed b ++ Failed combined), errs)
            | Err x => (combined, x :: errs)
            end)
  end.

(** [AckBatch] and [NackBatch] return a result together with the joined errors.
    [order] is the iteration order of the map of groups, [done] says when the
    context ends. *)
Definition over_groups (order : list (receiptGroupKey * list Receipt) ->
      list (receiptGroupKey * list Receipt))
    (run : receiptGroupKey -> list Receipt -> io BatchResult) (rs : list Receipt) :
    io (BatchResult * list err) :=
  checkClosed ;;
  if (length rs =? 0)%nat then mret (empty_batch, [])
  else
    groups ← from_result (groupReceiptsByQueue rs);
    batch_groups run (order groups).

Definition ack_group (done : nat -> bool) (k : receiptGroupKey) (receipts : list Receipt) :
    io BatchResult :=
  match g_qt k with
  | QueueTypeChannel => withBatchRetry done (ackChannelBatch (g_queueName k) receipts)
  | QueueTypePubSub =>
      withBatchRetry done (ackTopicBatch (g_queueName k) (g_subscriberID k) receipts)
  | QueueTypeOther _ => mret empty_batch
  end.

Definition AckBatch order (done : nat -> bool) (rs : list Receipt) : io (BatchResult * list err) :=
  over_groups order (ack_group done) rs.

Definition nack_group (done : nat -> bool) (reason : bytes) (opts : list NackOption)
    (k : receiptGroupKey) (receipts : list Receipt) : io BatchResult :=
  match g_qt k with
  | QueueTypeChannel =>
      withBatchRetry done (nackChannelBatch cfg (g_queueName k) receipts reason opts)
  | QueueTypePubSub =>
      withBatchRetry done (nackTopicBatch cfg (g_queueName k) (g_subscriberID k) receipts reason opts)
  | QueueTypeOther _ => mret empty_batch
  end.

Definition NackBatch order (done : nat -> bool) (rs : list Receipt) (reason : bytes)
    (opts : list NackOption) : io (BatchResult * list err) :=
  over_groups order (nack_group done reason opts) rs.

(** ** The consume loop *)

Definition isEmptySignal (x : err) : bool := errors_Is x ErrQueueEmpty || errors_Is x ErrQueuePaused.

(** [ctx.Err() != nil], or the context's own error reported by the driver. *)
Definition isStopSignal (done : bool) (x : err) : bool :=
  done ||
  match x with
  | ErrDriver d => bool_decide (de_text d = "context canceled"%string) ||
                   bool_decide (de_text d = "context deadline exceeded"%string)
  | _ => false
  end.

(** [Waiting] is a loop that has used its fuel without an outcome. *)
Inductive fetchOutcome :=
| Deliver (msg : Message)
| Fatal (x : err)
| Stopped
| Waiting.

(** Returns the new failure count and, when the loop must stop, its outcome. *)
Definition retryTransient (done : bool) (x : err) (fails : Z) : Z * option fetchOutcome :=
  let fails := fails + 1 in
  if maxConsumeTransientRetries <? fails then (fails, Some (Fatal x))
  else if done then (fails, Some Stopped)
  else (fails, None).

(** [fetchNext], for [fuel] rounds.  [ctx i] is whether the context is done at the
    [i]-th time the code looks: before a receive, after it, and at the end of a
    wait.  A wait also ends by its timer or by a wake-up, to the same effect. *)
Fixpoint fetchNext (fuel i : nat) (ctx : nat -> bool) (receive : io Message) (fails : Z) :
    io (fetchOutcome * Z) :=
  match fuel with
  | O => mret (Waiting, fails)
  | Datatypes.S fuel =>
      if ctx i then mret (Stopped, fails)
      else
        r ← try_io receive;
        match r with
        | Ok msg => mret (Deliver msg, 0)
        | Err x =>
            if isEmptySignal x then
              if ctx (i + 2)%nat then mret (Stopped, 0)
              else fetchNext fuel (i + 3) ctx receive 0
            else if isStopSignal (ctx (i + 1)%nat) x then mret (Stopped, fails)
            else if isTransientError x then
              match retryTransient (ctx (i + 2)%nat) x fails with
              | (fails, Some out) => mret (out, fails)
              | (fails, None) => fetchNext fuel (i + 3) ctx receive fails
              end
            else mret (Fatal x, fails)
        end
  end.

(** A failed automatic ack or nack is only logged. *)
Definition dispatchToHandler (h : Handler) (msg : Message) : io unit :=
  let receipt := Message_Receipt msg in
  herr ← callHandler h msg;
  match herr with
  | Some x =>
      _ ← try_io (nackReceipt receipt (Error x) (nackOptionsForHandlerError x));
      mret tt
  | None => _ ← try_io (ackReceipt receipt); mret tt
  end.

(** One worker of the pool, for [rounds] messages; each fetch has its own view of
    the context.  The result is the fatal error it reports, if any. *)
Fixpoint handlerWorker (rounds fuel : nat) (ctx : nat -> nat -> bool) (h : Handler)
    (receive : io Message) (fails : Z) : io (option err) :=
  match rounds with
  | O => mret None
  | Datatypes.S rounds =>
      '(out, fails) ← fetchNext fuel 0 (ctx rounds) receive fails;
      match out with
      | Deliver msg =>
          dispatchToHandler h msg ;; handlerWorker rounds fuel ctx h receive fails
      | Fatal x => mret (Some x)
      | Stopped | Waiting => mret None
      end
  end.

End consume.

(** ** Lemmas *)

(** *** What a program can return, on any server *)

(** Every value [m] returns satisfies [P]. *)
Definition tx_returns {T A} (m : tx T A) (P : A -> Prop) : Prop :=
  forall e n s, match m e n s with TOk a _ _ => P a | TErr _ => True end.
Definition io_returns {A} (m : io A) (P : A -> Prop) : Prop :=
  forall o w, match m o w with (Ok a, _) => P a | (Err _, _) => True end.

Lemma tx_returns_bind {T A B} (m : tx T A) (f : A -> tx T B) (P : B -> Prop) :
  (forall a, tx_returns (f a) P) -> tx_returns (m ≫= f) P.
Proof. intros Hf e n s. unfold mbind, tx_bind. destruct (m e n s); [apply Hf|done]. Qed.

Lemma tx_returns_bind_val {T A B} (m : tx T A) (f : A -> tx T B) (R : A -> Prop) (P : B -> Prop) :
  tx_returns m R -> (forall a, R a -> tx_returns (f a) P) -> tx_returns (m ≫= f) P.
Proof.
  intros Hm Hf e n s. unfold mbind, tx_bind. specialize (Hm e n s).
  destruct (m e n s); [by apply Hf|done].
Qed.

Lemma io_returns_bind {A B} (m : io A) (f : A -> io B) (P : B -> Prop) :
  (forall a, io_returns (f a) P) -> io_returns (m ≫= f) P.
Proof. intros Hf o w. unfold mbind, io_bind. destruct (m o w) as [[a|x] w']; [apply Hf|done]. Qed.

Lemma io_returns_withTx {A} (m : tx DB A) P : tx_returns m P -> io_returns (withTx m) P.
Proof.
  intros Hm o w. unfold withTx. destruct (e_begin _); [done|].
  specialize (Hm (o (w_tick w)) 0%nat (Some (w_db w))).
  destruct (m _ _ _) as [a n' [d|]|x]; [|done..]. by destruct (e_commit _) as [[? ?]|].
Qed.

Lemma zoom_returns {S' T A} (get : S' -> option T) put (m : tx T A) P :
  tx_returns m P -> tx_returns (zoom get put m) P.
Proof.
  intros Hm e n [x|]; unfold zoom.
  - destruct (get x) as [t|]; [|by destruct (e_fault e n)]. specialize (Hm e n (Some t)).
    by destruct (m e n (Some t)) as [a n' [t'|]|].
  - specialize (Hm e n None). by destruct (m e n None).
Qed.

(** *** Batch results account for their receipts *)

(** The receipts a batch result reports on. *)
Definition reported (b : BatchResult) : list Receipt := Succeeded b ++ (f_Receipt <$> Failed b).

Lemma classifyBatchMisses_receipts states misses :
  f_Receipt <$> classifyBatchMisses states misses = misses.
Proof.
  unfold classifyBatchMisses. induction misses as [|r l IH]; [done|]. cbn. f_equal. exact IH.
Qed.

Lemma finishBatch_returns {T : Type} (rs : list Receipt) (matched : gset (Z * Z))
    (classify : list Receipt -> tx T (list FailedReceipt)) :
  (forall l, tx_returns (classify l) (fun f => f_Receipt <$> f = l)) ->
  tx_returns (finishBatch rs matched classify) (fun b => reported b ≡ₚ rs).
Proof.
  intros Hc. unfold finishBatch.
  set (misses := filter (fun r => receiptMatchKey r ∉ matched) rs).
  apply tx_returns_bind_val with (fun f => f_Receipt <$> f = misses).
  - destruct (Nat.ltb_spec 0 (length misses)) as [|Hl]; [apply Hc|].
    intros e n s. cbn. destruct misses; [done|cbn in Hl; lia].
  - intros f Hf e n s. cbn. unfold reported. cbn. rewrite Hf. apply filter_app_complement.
Qed.

Lemma channelMisses_returns l :
  tx_returns (classifyChannelBatchMisses l) (fun f => f_Receipt <$> f = l).
Proof.
  destruct l as [|r l]; [done|]. intros e n [t|]; [|done]. unfold classifyChannelBatchMisses, query, stmt.
  destruct (e_fault e n); [done|]. apply classifyBatchMisses_receipts.
Qed.

Lemma topicMisses_returns sid l :
  tx_returns (classifyTopicBatchMisses sid l) (fun f => f_Receipt <$> f = l).
Proof.
  destruct l as [|r l]; [done|]. intros e n [t|]; [|done]. unfold classifyTopicBatchMisses, query, stmt.
  destruct (e_fault e n); [done|]. apply classifyBatchMisses_receipts.
Qed.

(** The frame of a batch operation keeps the property of its transaction. *)
Lemma check_batch_returns rs (run : list Receipt -> io BatchResult) :
  io_returns (run rs) (fun b => reported b ≡ₚ rs) ->
  io_returns (batch ← from_result (check_batch rs);
              match batch with None => mret empty_batch | Some l => run l end)
    (fun b => reported b ≡ₚ rs).
Proof.
  intros Hr o w. unfold mbind, io_bind, from_result, check_batch.
  destruct rs as [|r rs]; cbn [length Nat.eqb]; [apply perm_nil|].
  destruct (validateBatchSize _); cbn; [apply Hr|done].
Qed.

Lemma ackChannelBatch_returns name rs :
  io_returns (ackChannelBatch name rs) (fun b => reported b ≡ₚ rs).
Proof.
  apply check_batch_returns, io_returns_bind. intros meta.
  apply io_returns_withTx, zoom_returns, tx_returns_bind. intros matched.
  apply finishBatch_returns, channelMisses_returns.
Qed.

Lemma ackTopicBatch_returns name sid rs :
  io_returns (ackTopicBatch name sid rs) (fun b => reported b ≡ₚ rs).
Proof.
  apply io_returns_bind. intros []. apply check_batch_returns, io_returns_bind. intros meta.
  apply io_returns_withTx, zoom_returns, tx_returns_bind. intros matched.
  apply finishBatch_returns, topicMisses_returns.
Qed.

Lemma nackChannelBatch_returns `{Server} cfg name rs msg opts :
  io_returns (nackChannelBatch cfg name rs msg opts) (fun b => reported b ≡ₚ rs).
Proof.
  apply check_batch_returns, io_returns_bind. intros meta.
  apply io_returns_withTx, zoom_returns, tx_returns_bind. intros states.
  apply tx_returns_bind. intros []. apply finishBatch_returns, channelMisses_returns.
Qed.

Lemma nackTopicBatch_returns `{Server} cfg name sid rs msg opts :
  io_returns (nackTopicBatch cfg name sid rs msg opts) (fun b => reported b ≡ₚ rs).
Proof.
  apply io_returns_bind. intros []. apply check_batch_returns, io_returns_bind. intros meta.
  apply io_returns_withTx, zoom_returns, tx_returns_bind. intros states.
  apply tx_returns_bind. intros []. apply finishBatch_returns, topicMisses_returns.
Qed.

Lemma withBatchRetry_returns done attempt P :
  io_returns attempt P -> io_returns (withBatchRetry done attempt) P.
Proof.
  intros Ha. unfold withBatchRetry. generalize maxBatchTransientRetries, 0%nat.
  intros left. induction left as [|left IH]; intros i o w; cbn [batch_attempts];
    unfold mbind, io_bind, try_io; specialize (Ha o w);
    destruct (attempt o w) as [[b|x] w']; [done| |done|];
    destruct (negb (isTransientError x) || done i); [done..|apply IH].
Qed.

(** *** Grouping receipts *)

(** The groups are not empty and hold receipts of their own queue only. *)
Definition well_grouped (groups : list (receiptGroupKey * list Receipt)) : Prop :=
  NoDup groups.*1 /\
  forall k l, (k, l) ∈ groups -> l <> [] /\ forall r, r ∈ l -> group_key r = k.

Lemma add_to_group_perm r groups :
  concat (add_to_group r groups).*2 ≡ₚ r :: concat groups.*2.
Proof.
  induction groups as [|[k l] groups IH]; cbn [add_to_group]; [done|].
  case_bool_decide; cbn [fmap list_fmap concat snd].
  - rewrite <-(assoc_L (++)). cbn. symmetry. apply Permutation_middle.
  - rewrite IH. symmetry. apply Permutation_middle.
Qed.

Lemma add_to_group_keys r groups k :
  k ∈ (add_to_group r groups).*1 <-> k = group_key r \/ k ∈ groups.*1.
Proof.
  induction groups as [|[k' l] groups IH]; cbn [add_to_group].
  { cbn. rewrite elem_of_cons, elem_of_nil. tauto. }
  case_bool_decide as Hk; cbn [fmap list_fmap fst]; rewrite !elem_of_cons; [|rewrite IH; tauto].
  subst k'. tauto.
Qed.

Lemma add_to_group_wf r groups : well_grouped groups -> well_grouped (add_to_group r groups).
Proof.
  intros [Hnd Hk]. induction groups as [|[k l] groups IH]; cbn [add_to_group].
  { split; [apply NoDup_singleton|]. intros k l [= -> ->]%list_elem_of_singleton.
    split; [done|]. by intros q ->%list_elem_of_singleton. }
  rewrite fmap_cons, NoDup_cons in Hnd. destruct Hnd as [Hn Hnd].
  case_bool_decide as Hkr.
  - split; [by rewrite fmap_cons, NoDup_cons|]. intros k' l'. rewrite elem_of_cons.
    intros [[= -> ->]|Hin]; [|apply Hk; by right]. split; [by destruct l|].
    intros q. rewrite elem_of_app, list_elem_of_singleton. intros [Hq| ->]; [|done].
    eapply Hk; [left|done].
  - destruct IH as [IHn IHk]; [done|intros k' l' Hin; apply Hk; by right|]. split.
    + rewrite fmap_cons, NoDup_cons. split; [|done]. cbn.
      rewrite add_to_group_keys. intros [->|?]; done.
    + intros k' l'. rewrite elem_of_cons. intros [[= -> ->]|Hin]; [|by apply IHk].
      apply Hk. left.
Qed.

Lemma group_loop_spec rs seen groups :
  Forall (fun r => bound r = true) rs -> NoDup seen -> concat groups.*2 ≡ₚ seen ->
  well_grouped groups ->
  exists groups', group_loop rs seen groups = Ok groups' /\ well_grouped groups' /\
    NoDup (concat groups'.*2) /\ (forall r, r ∈ concat groups'.*2 <-> r ∈ seen \/ r ∈ rs).
Proof.
  revert seen groups. induction rs as [|r rs IH]; intros seen groups Hb Hnd Hp Hw.
  { exists groups. split_and!; [done..|by rewrite Hp|]. intros q. rewrite Hp, elem_of_nil. tauto. }
  apply Forall_cons in Hb as [Hr Hb]. cbn [group_loop]. rewrite Hr. cbn [negb].
  case_bool_decide as Hs.
  - destruct (IH seen groups Hb Hnd Hp Hw) as (g & ? & ? & ? & Hin). exists g.
    split_and!; [done..|]. intros q. rewrite Hin, elem_of_cons. split; [tauto|].
    intros [?|[->|?]]; tauto.
  - destruct (IH (r :: seen) (add_to_group r groups)) as (g & ? & ? & ? & Hin);
      [done|by constructor|by rewrite add_to_group_perm, Hp|by apply add_to_group_wf|].
    exists g. split_and!; [done..|]. intros q. rewrite Hin, !elem_of_cons. tauto.
Qed.

(** Running the groups one by one: the committed ones are reported in full. *)
Lemma batch_groups_spec run groups o w :
  (forall k l, (k, l) ∈ groups -> io_returns (run k l) (fun b => reported b ≡ₚ l)) ->
  exists b errs w' committed failed, batch_groups run groups o w = (Ok (b, errs), w') /\
    groups ≡ₚ committed ++ failed /\ reported b ≡ₚ concat committed.*2 /\
    length errs = length failed.
Proof.
  revert w. induction groups as [|[k l] groups IH]; intros w Hr.
  { by exists empty_batch, [], w, [], []. }
  cbn [batch_groups]. unfold mbind, io_bind, try_io.
  pose proof (Hr k l ltac:(left) o w) as Hk. destruct (run k l o w) as [[b0|x] w0];
    (destruct (IH w0) as (b & errs & w' & cs & fs & Heq & Hp & Hb & Hl);
     [intros k' l' Hin; apply Hr; by right|]); rewrite Heq.
  - eexists _, errs, w', ((k, l) :: cs), fs. split; [done|]. split_and!; [by rewrite Hp| |done].
    unfold reported in *. cbn [Succeeded Failed fmap list_fmap concat snd]. rewrite <-Hk, <-Hb, fmap_app.
    solve_Permutation.
  - eexists _, _, w', cs, ((k, l) :: fs). split; [done|].
    split_and!; [rewrite Hp; apply Permutation_middle|done|by cbn; rewrite Hl].
Qed.

Lemma in_groups (groups : list (receiptGroupKey * list Receipt)) r :
  (forall k l q, (k, l) ∈ groups -> q ∈ l -> group_key q = k) ->
  r ∈ concat groups.*2 <-> exists l, (group_key r, l) ∈ groups /\ r ∈ l.
Proof.
  intros Hk. rewrite list_elem_of_In, in_concat. setoid_rewrite <-list_elem_of_In. split.
  - intros (l & ([k l'] & -> & Hkl)%list_elem_of_fmap & Hr). exists l'. by rewrite (Hk _ _ r Hkl Hr).
  - intros (l & Hl & Hr). exists l. split; [|done]. apply list_elem_of_fmap.
    by exists (group_key r, l).
Qed.

(** A batch over several queues, given a per-group operation that accounts for its
    receipts. *)
Lemma over_groups_spec order run rs o w :
  (forall l, order l ≡ₚ l) -> w_closed w = false -> Forall (fun r => bound r = true) rs ->
  (forall k l, g_qt k = QueueTypeChannel \/ g_qt k = QueueTypePubSub ->
     io_returns (run k l) (fun b => reported b ≡ₚ l)) ->
  exists b errs w', over_groups order run rs o w = (Ok (b, errs), w') /\
    NoDup (reported b) /\ (forall r, r ∈ reported b -> r ∈ rs) /\
    (forall r r', r ∈ rs -> r' ∈ rs -> group_key r = group_key r' ->
       r ∈ reported b -> r' ∈ reported b) /\
    (errs = [] -> forall r, r ∈ rs -> r ∈ reported b).
Proof.
  intros Ho Hcl Hb Hr. unfold over_groups, checkClosed, mbind, io_bind. rewrite Hcl.
  destruct rs as [|r0 rs]; cbn [length Nat.eqb].
  { exists empty_batch, [], w. split; [done|]. split_and!; [constructor|done..]. }
  set (l0 := r0 :: rs) in *. unfold from_result, groupReceiptsByQueue.
  destruct (group_loop_spec l0 [] [] Hb) as (groups & -> & [Hnd Hk] & Hndc & Hin);
    [constructor|done|split; [constructor|by intros ? ? ?%elem_of_nil]|].
  assert (forall r, r ∈ concat groups.*2 <-> r ∈ l0) as Hin'.
  { intros r. rewrite Hin, elem_of_nil. tauto. }
  assert (forall r, r ∈ l0 <-> exists l, (group_key r, l) ∈ groups /\ r ∈ l) as Hgr.
  { intros r. rewrite <-Hin'. apply in_groups. intros k l q Hkl. by apply (Hk k l Hkl). }
  destruct (batch_groups_spec run (order groups) o w) as (b & errs & w' & cs & fs & Heq & Hp & Hrep & Hlen).
  { intros k l Hkl. rewrite Ho in Hkl. apply Hr. destruct (Hk k l Hkl) as [Hne Hkey].
    destruct l as [|r l]; [done|]. pose proof (Hkey r ltac:(left)) as <-.
    assert (r ∈ l0) as Hr0 by (apply Hgr; exists (r :: l); split; [done|left]).
    rewrite Forall_forall in Hb. specialize (Hb r Hr0). unfold bound in Hb. cbn.
    destruct (r_QueueType r); auto; done. }
  rewrite Ho in Hp.
  assert (forall r, r ∈ reported b <-> exists l, (group_key r, l) ∈ cs /\ r ∈ l) as Hrb.
  { intros r. rewrite Hrep. apply in_groups. intros k l q Hkl. apply (Hk k l).
    rewrite Hp, elem_of_app. by left. }
  exists b, errs, w'. split; [exact Heq|]. split_and!.
  - rewrite Hrep. rewrite Hp, fmap_app, concat_app in Hndc. by apply NoDup_app in Hndc as [? _].
  - intros r (l & Hl & Hr')%Hrb. apply Hgr. exists l. split; [|done]. rewrite Hp, elem_of_app. by left.
  - intros r r' Hr1 Hr2 Hkk (l & Hl & Hrl)%Hrb. apply Hrb. apply Hgr in Hr2 as (l' & Hl' & Hrl').
    exists l'. rewrite <-Hkk in *. assert (l' = l) as ->; [|done].
    assert ((group_key r, l) ∈ groups) as Hlg by (rewrite Hp, elem_of_app; by left).
    apply list_elem_of_lookup in Hlg as [i Hi], Hl' as [j Hj].
    assert (i = j) as ->; [|congruence].
    eapply (NoDup_lookup groups.*1); [done|by rewrite list_lookup_fmap, Hi|by rewrite list_lookup_fmap, Hj].
  - intros -> r (l & Hl & Hrl)%Hgr. apply Hrb. exists l. split; [|done].
    destruct fs; [|done]. by rewrite Hp, app_nil_r in Hl.
Qed.

Lemma ack_group_returns done k l :
  g_qt k = QueueTypeChannel \/ g_qt k = QueueTypePubSub ->
  io_returns (ack_group done k l) (fun b => reported b ≡ₚ l).
Proof.
  unfold ack_group. intros [-> | ->]; apply withBatchRetry_returns;
    [apply ackChannelBatch_returns|apply ackTopicBatch_returns].
Qed.

Lemma nack_group_returns `{Server} cfg done reason opts k l :
  g_qt k = QueueTypeChannel \/ g_qt k = QueueTypePubSub ->
  io_returns (nack_group cfg done reason opts k l) (fun b => reported b ≡ₚ l).
Proof.
  unfold nack_group. intros [-> | ->]; apply withBatchRetry_returns;
    [apply nackChannelBatch_returns|apply nackTopicBatch_returns].
Qed.

(** *** Receiving keeps the metadata cache coherent *)

Lemma iwp_and {A} o w (m : io A) Q1 Q2 E1 E2 :
  iwp o w m Q1 E1 -> iwp o w m Q2 E2 ->
  iwp o w m (fun a w' => Q1 a w' /\ Q2 a w') (fun x w' => E1 x w' /\ E2 x w').
Proof. unfold iwp. destruct (m o w) as [[a|x] w']; done. Qed.

Lemma cache_coherent_set_db w d :
  db_metadata d = db_metadata (w_db w) -> cache_coherent w -> cache_coherent (set_w_db d (w_next w)).
Proof. intros Hd Hc qt name item Hqt Hi. unfold lookup_queue. cbn. rewrite Hd. by eapply Hc. Qed.

Lemma on_channel_metadata {A} e n d t (m : tx channelTables A) :
  wp e n (Some d) (on_channel t m)
    (fun _ _ s => forall d', s = Some d' -> db_metadata d' = db_metadata d) (fun _ => True).
Proof.
  unfold wp, on_channel, zoom. destruct (db_channels d !! t) as [ct|]; [|by destruct (e_fault e n)].
  destruct (m e n (Some ct)) as [a n' [ct'|]|x]; [|done..]. by intros d' [= <-].
Qed.

Lemma iwp_consume_coherent `{Server} cfg o w name vt :
  reliable o -> cache_coherent w ->
  iwp o w (consumeFromChannel cfg name vt) (fun _ w' => cache_coherent w' /\ w_closed w' = w_closed w)
    (fun _ _ => True).
Proof.
  intros Hrel Hc. unfold consumeFromChannel. iwp_step. iwp_step; [done|intros Hcl]. do 2 iwp_step.
  destruct (validateVisibilityTimeout vt) as [[]|x]; [|done]. do 2 iwp_step.
  apply iwp_getQueueMetadata_coherent; [by left|done..| |done].
  intros meta w1 Hl (Hdb & Hcl1 & _) Hc1. destruct (q_Paused meta); [done|]. iwp_step.
  apply iwp_withTx; [done|]. eapply wp_mono; [apply on_channel_metadata| |done].
  intros a n' [d|] Hd; [|done]. iwp_step. split; [|by rewrite <-Hcl1].
  apply cache_coherent_set_db; [by apply Hd|done].
Qed.

(** What [ReceiveChannel] hands out: a message of the channel, claimed under the
    claim its receipt carries. *)
Lemma iwp_ReceiveChannel `{Server} cfg o w name opts meta ct :
  reliable o -> cache_coherent w -> w_closed w = false ->
  validateVisibilityTimeout (co_visibilityTimeout (applyConsumeOptions opts)) = Ok tt ->
  channel_at (w_db w) name meta ct -> q_Paused meta = false ->
  channel_inv cfg ct -> (forall m, gen_fresh (o m) 0 ct) ->
  iwp o w (ReceiveChannel cfg name opts)
    (fun msg w1 => cache_coherent w1 /\ w_closed w1 = false /\
       exists ct1 r, w_db w1 = put_channel meta ct1 (w_db w) /\ ct_msgs ct1 !! m_ID msg = Some r /\
       c_payload r = m_Payload msg /\ c_status r = MessageStatusProcessing /\
       c_claim_id r = Some (m_ClaimID msg) /\
       Message_Receipt msg = mkReceipt (m_ID msg) (m_ClaimID msg) name QueueTypeChannel "")
    (fun x _ => x = ErrQueueEmpty).
Proof.
  intros Hrel Hc Hcl Hvt Hat Hpa Hinv Hfr. set (vt := co_visibilityTimeout _) in *.
  unfold ReceiveChannel. iwp_step. iwp_step; [congruence|intros _]. fold vt. iwp_step.
  eapply iwp_mono; [apply iwp_and; [apply (iwp_consume_coherent cfg o w name vt Hrel Hc)|
    apply (iwp_consumeFromChannel cfg o w name vt meta ct (fun res w1 => match res with
      | None => True
      | Some msg => exists ct1 r, w_db w1 = put_channel meta ct1 (w_db w) /\
          ct_msgs ct1 !! m_ID msg = Some r /\ c_payload r = m_Payload msg /\
          c_status r = MessageStatusProcessing /\ c_claim_id r = Some (m_ClaimID msg) end));
      [done..|]]| |by intros x w' [_ ?]].
  - intros m n k t1 id r rc w' Hk ttl claim deadline Hs Hd Hw _. eexists _, _. split; [exact Hw|].
    cbn. rewrite lookup_insert_eq. done.
  - intros [msg|] w1 [[Hc1 Hcl1] Hm]; [|by iwp_step]. iwp_step. rewrite Hcl1. split_and!; [done..|].
    destruct Hm as (ct1 & r & ? & ? & ? & ? & ?). by exists ct1, r.
Qed.

(** ** Properties *)

(** Whatever the server does, [AckBatch] and [NackBatch] of bound receipts
    return a result that reports no receipt twice and none that was not passed;
    the receipts of one queue and subscriber are reported together or not at all
    (its transaction committed or failed), and when no group failed every
    distinct receipt is reported, as succeeded or as failed with a reason.  The
    iteration order of the groups does not matter. *)
Theorem batch_accounts `{Server} (cfg : queueConfig)
    (order : list (receiptGroupKey * list Receipt) -> list (receiptGroupKey * list Receipt))
    (done : nat -> bool) (rs : list Receipt) (reason : bytes) (opts : list NackOption)
    (o : oracle) (w : world) (m : io (BatchResult * list err)) :
  (forall l, order l ≡ₚ l) -> w_closed w = false -> Forall (fun r => bound r = true) rs ->
  m = AckBatch order done rs \/ m = NackBatch cfg order done rs reason opts ->
  exists b errs w', m o w = (Ok (b, errs), w') /\
    NoDup (reported b) /\ (forall r, r ∈ reported b -> r ∈ rs) /\
    (forall r r', r ∈ rs -> r' ∈ rs -> group_key r = group_key r' ->
       r ∈ reported b -> r' ∈ reported b) /\
    (errs = [] -> forall r, r ∈ rs -> r ∈ reported b).
Proof.
  intros Ho Hcl Hb [->| ->]; apply over_groups_spec; try done.
  - apply ack_group_returns.
  - apply nack_group_returns.
Qed.

(** A repeated receipt and one of a queue that does not exist. *)
Lemma batch_accounts_witness :
  let rs := [sample_receipt; sample_receipt; mkReceipt 1 1 "none" QueueTypeChannel ""] in
  exists b errs w', AckBatch (fun l => l) (fun _ => false) rs calm_oracle sample_world =
      (Ok (b, errs), w') /\ NoDup (reported b) /\ reported b = [sample_receipt] /\
    errs = [ErrChannelNotFound].
Proof.
  intros rs.
  destruct (batch_accounts (H := truncating_server) sample_cfg (fun l => l) (fun _ => false) rs [] []
    calm_oracle sample_world (AckBatch (fun l => l) (fun _ => false) rs))
    as (b & errs & w' & Heq & Hnd & _).
  - reflexivity.
  - reflexivity.
  - repeat constructor.
  - left. reflexivity.
  - exists b, errs, w'. split; [exact Heq|]. split; [exact Hnd|].
    assert ((AckBatch (fun l => l) (fun _ => false) rs calm_oracle sample_world).1 =
      Ok (mkBatchResult [sample_receipt] [], [ErrChannelNotFound])) as Hc by (vm_compute; reflexivity).
    rewrite Heq in Hc. injection Hc as -> ->. split; reflexivity.
Defined.

(** C36: a message handed out by [ReceiveChannel] carries a receipt that [Ack]
    accepts: on a working server the call either reports an empty queue or returns
    a message of the channel, with the row's payload, whose immediate [Ack]
    succeeds and completes exactly that row. *)
Theorem receive_ack_roundtrip `{Server} (cfg : queueConfig) (o : oracle) (w : world) (name : string)
    (opts : list ConsumeOption) (meta : queueMetadata) (ct : channelTables) :
  reliable o -> cache_coherent w -> w_closed w = false ->
  validateVisibilityTimeout (co_visibilityTimeout (applyConsumeOptions opts)) = Ok tt ->
  channel_at (w_db w) name meta ct -> q_Paused meta = false ->
  channel_inv cfg ct -> (forall m, gen_fresh (o m) 0 ct) ->
  exists res w1, ReceiveChannel cfg name opts o w = (res, w1) /\
    match res with
    | Err x => x = ErrQueueEmpty
    | Ok msg => exists ct1 r w2 i,
        w_db w1 = put_channel meta ct1 (w_db w) /\
        ct_msgs ct1 !! m_ID msg = Some r /\ c_payload r = m_Payload msg /\
        c_status r = MessageStatusProcessing /\
        Ack (Message_Receipt msg) o w1 = (Ok tt, w2) /\ ran w1 w2 i /\
        w_db w2 = put_channel meta (put_row (m_ID msg) (complete_row (e_now (o i)) r) ct1) (w_db w)
    end.
Proof.
  intros Hrel Hc Hcl Hvt Hat Hpa Hinv Hfr.
  pose proof (iwp_ReceiveChannel cfg o w name opts meta ct Hrel Hc Hcl Hvt Hat Hpa Hinv Hfr) as Hi.
  unfold iwp in Hi. destruct (ReceiveChannel cfg name opts o w) as [[msg|x] w1]; [|by eauto].
  destruct Hi as (Hc1 & Hcl1 & ct1 & r & Hw1 & Hr & Hpl & Hst & Hcm & Hrec).
  eexists _, w1. split; [done|].
  assert (channel_at (w_db w1) name meta ct1) as Hat1 by (rewrite Hw1; by eapply channel_at_put).
  pose proof (iwp_fenced o w1 name meta ct1 (Message_Receipt msg) (fun e => complete_row (e_now e))
    Hrel Hc1 Hat1) as Hf. unfold iwp in Hf.
  assert (owned ct1 (Message_Receipt msg) = Some r) as Ho by (rewrite Hrec; by apply owned_Some).
  assert (Ack (Message_Receipt msg) o w1 =
    (t ← map_err (not_found_as ErrChannelNotFound) (cachedTableName QueueTypeChannel name);
     withTx (on_channel t (update_claimed (Message_Receipt msg) (fun e => complete_row (e_now e)))))
    o w1) as Hack.
  { unfold Ack, ackReceipt, mbind, io_bind, checkClosed. rewrite Hcl1, Hrec. done. }
  rewrite <-Hack in Hf. destruct (Ack (Message_Receipt msg) o w1) as [[[]|x] w2] eqn:Hak.
  - destruct Hf as (i & r' & Hi & Ho' & Hw2). rewrite Ho in Ho'. injection Ho' as <-.
    exists ct1, r, w2, i. split_and!; [done..|]. rewrite Hw2, Hw1, put_channel_put, Hrec. done.
  - destruct Hf as (Hn & _). congruence.
Qed.

Lemma receive_ack_roundtrip_witness :
  exists msg w1 w2, ReceiveChannel (H := truncating_server) sample_cfg "jobs" [] calm_oracle
      sample_world = (Ok msg, w1) /\ Ack (Message_Receipt msg) calm_oracle w1 = (Ok tt, w2) /\
    m_ID msg = 1.
Proof.
  destruct (receive_ack_roundtrip (H := truncating_server) sample_cfg calm_oracle sample_world "jobs" []
    sample_meta sample_tables calm_oracle_reliable sample_coherent eq_refl eq_refl sample_at eq_refl
    sample_inv ltac:(intros m; by apply calm_gen_fresh)) as (res & w1 & Heq & Hres).
  assert (match (ReceiveChannel (H := truncating_server) sample_cfg "jobs" [] calm_oracle
      sample_world).1 with Ok m => m_ID m | _ => 0 end = 1) as Hc by (vm_compute; reflexivity).
  rewrite Heq in Hc. destruct res as [msg|x]; [|discriminate Hc].
  destruct Hres as (ct1 & r & w2 & i & _ & _ & _ & _ & Hack & _).
  exists msg, w1, w2. split; [exact Heq|]. split; [exact Hack|exact Hc].
Defined.

(** [fetchNext] always ends in one of four ways.  It delivers the very message
    its last receive returned, with the failure count reset; it fails with the
    error of its last receive, never an empty or paused queue, and a transient
    error only as the sixth in a row; it stops only when the context is done; and
    it is still waiting only if the context was not done at the start of any
    round, so a cancelled loop returns. *)
Theorem fetchNext_outcome (fuel i : nat) (ctx : nat -> bool) (receive : io Message) (fails : Z)
    (o : oracle) (w : world) :
  0 <= fails <= maxConsumeTransientRetries ->
  exists out fails' w', fetchNext fuel i ctx receive fails o w = (Ok (out, fails'), w') /\
    match out with
    | Deliver msg => fails' = 0 /\ exists w1, receive o w1 = (Ok msg, w')
    | Fatal x => (exists w1, receive o w1 = (Err x, w')) /\ isEmptySignal x = false /\
        (isTransientError x = true -> fails' = maxConsumeTransientRetries + 1)
    | Stopped => (exists j, (i <= j)%nat /\ ctx j = true) \/
        exists w1 x, receive o w1 = (Err x, w') /\ isStopSignal false x = true
    | Waiting => forall k, (k < fuel)%nat -> ctx (i + 3 * k)%nat = false
    end.
Proof.
  revert i fails w. induction fuel as [|fuel IH]; intros i fails w Hf; cbn [fetchNext].
  { exists Waiting, fails, w. split; [done|]. lia. }
  destruct (ctx i) eqn:Hi.
  { exists Stopped, fails, w. split; [done|]. left. by exists i. }
  assert (forall fails1 w1, 0 <= fails1 <= maxConsumeTransientRetries ->
    exists out fails' w', fetchNext fuel (i + 3) ctx receive fails1 o w1 = (Ok (out, fails'), w') /\
    match out with
    | Deliver msg => fails' = 0 /\ exists w1, receive o w1 = (Ok msg, w')
    | Fatal x => (exists w1, receive o w1 = (Err x, w')) /\ isEmptySignal x = false /\
        (isTransientError x = true -> fails' = maxConsumeTransientRetries + 1)
    | Stopped => (exists j, (i <= j)%nat /\ ctx j = true) \/
        exists w1 x, receive o w1 = (Err x, w') /\ isStopSignal false x = true
    | Waiting => forall k, (k < S fuel)%nat -> ctx (i + 3 * k)%nat = false
    end) as IH'.
  { intros fails1 w1 Hf1. destruct (IH (i + 3)%nat fails1 w1 Hf1) as (out & f' & w' & Heq & Ho).
    exists out, f', w'. split; [exact Heq|]. destruct out; [done..| |].
    - destruct Ho as [(j & Hj & Hc)|Ho]; [left; exists j; split; [lia|done]|by right].
    - intros k Hk. destruct k as [|k]; [by rewrite Nat.mul_0_r, Nat.add_0_r|].
      rewrite <-(Ho k) by lia. f_equal. lia. }
  clear IH. unfold mbind, io_bind, try_io. destruct (receive o w) as [[msg|x] w1] eqn:Hr.
  { exists (Deliver msg), 0, w1. split; [done|]. split; [done|]. by exists w. }
  destruct (isEmptySignal x) eqn:Hx.
  { destruct (ctx (i + 2)%nat) eqn:H2; [|apply IH'; unfold maxConsumeTransientRetries; lia].
    exists Stopped, 0, w1. split; [done|]. left. exists (i + 2)%nat. split; [lia|done]. }
  destruct (isStopSignal (ctx (i + 1)%nat) x) eqn:Hs.
  { exists Stopped, fails, w1. split; [done|]. destruct (ctx (i + 1)%nat) eqn:H1.
    - left. exists (i + 1)%nat. split; [lia|done].
    - right. by exists w, x. }
  destruct (isTransientError x) eqn:Ht.
  2: { exists (Fatal x), fails, w1. split; [done|]. split_and!; [by exists w|done|congruence]. }
  unfold retryTransient. destruct (Z.ltb_spec maxConsumeTransientRetries (fails + 1)) as [Hl|Hl].
  { exists (Fatal x), (fails + 1), w1. split; [done|]. split_and!; [by exists w|done|lia]. }
  destruct (ctx (i + 2)%nat) eqn:H2; [|apply IH'; lia].
  exists Stopped, (fails + 1), w1. split; [done|]. left. exists (i + 2)%nat. split; [lia|done].
Qed.

(** A server that deadlocks on every receive: the loop gives up at the sixth. *)
Lemma fetchNext_outcome_witness :
  exists x w', fetchNext 10 0 (fun _ => false)
      (fail (ErrDriver (DriverErr (Some "40P01") "deadlock detected"))) 0 calm_oracle sample_world =
    (Ok (Fatal x, 6), w') /\ isEmptySignal x = false.
Proof.
  destruct (fetchNext_outcome 10 0 (fun _ => false)
    (fail (ErrDriver (DriverErr (Some "40P01") "deadlock detected"))) 0 calm_oracle sample_world)
    as (out & fails' & w' & Heq & Hout); [unfold maxConsumeTransientRetries; lia|].
  assert ((fetchNext 10 0 (fun _ => false)
    (fail (ErrDriver (DriverErr (Some "40P01") "deadlock detected"))) 0 calm_oracle sample_world).1 =
    Ok (Fatal (ErrDriver (DriverErr (Some "40P01") "deadlock detected")), 6)) as Hc
    by (vm_compute; reflexivity).
  rewrite Heq in Hc. injection Hc as -> ->. eexists _, w'. split; [exact Heq|].
  exact (proj1 (proj2 Hout)).
Defined.

(** C22: after a handler call on a channel message the receipt of which still owns
    its row, the message is settled, also when the queue was closed meanwhile: a
    nil return completes it; an error or a panic nacks it with the error's text,
    dead-lettering an exhausted message and otherwise deferring it, by the delay
    a [RetryAfter] anywhere in the error's chain asks for (capped at 24 h, ignored
    when not positive) or by the backoff policy. *)
Theorem dispatch_settles `{Server} (cfg : queueConfig) (h : Handler) (msg : Message) (o : oracle)
    (w w1 : world) (out : handlerOutcome) (meta : queueMetadata) (ct : channelTables)
    (r : channelRow) :
  let rc := Message_Receipt msg in
  reliable o -> h msg o w = (out, w1) -> cache_coherent w1 -> r_QueueType rc = QueueTypeChannel ->
  channel_at (w_db w1) (r_QueueName rc) meta ct -> channel_inv cfg ct ->
  (forall m, gen_fresh (o m) 0 ct) -> owned ct rc = Some r ->
  (forall x, recovered out = Some x -> forallb (fun b => negb (byte_val b =? 0)) (Error x) = true) ->
  exists w' i ct', dispatchToHandler cfg h msg o w = (Ok tt, w') /\ ran w1 w' i /\
    w_db w' = put_channel meta ct' (w_db w1) /\
    match recovered out with
    | None => ct' = put_row (r_MessageID rc) (complete_row (e_now (o i)) r) ct
    | Some x =>
        if limit cfg r <? c_retry_count r + 1 then
          exists k, ct' = dead_letter (e_now (o i)) k (r_MessageID rc) (Error x) (c_payload r)
            (c_retry_count r + 1) (c_metadata r) ct
        else
          exists delay, retry_delay_ok (backoffPolicy cfg) (c_retry_count r + 1)
              (default 0 (as_retryAfter x)) delay /\
            ct' = put_row (r_MessageID rc) (pend_row (c_retry_count r + 1)
              (e_now (o i) + make_interval delay) (Some (truncateErrorMsg (Error x))) r) ct
    end.
Proof.
  intros rc Hrel Hh Hc Hqt Hat Hinv Hfr Ho Htext.
  unfold dispatchToHandler, mbind, io_bind, callHandler. rewrite Hh. fold rc.
  destruct (recovered out) as [x|] eqn:Hx; unfold try_io.
  - pose proof (truncateErrorMsg_text_ok _ (Htext x eq_refl)) as Ht.
    unfold nackReceipt, nackChannelWithOpts. rewrite Hqt.
    replace (resolveNackRetryDelay (nackOptionsForHandlerError x)) with (default 0 (as_retryAfter x))
      by (unfold nackOptionsForHandlerError; by destruct (as_retryAfter x)).
    pose proof (iwp_nackChannelImpl cfg o w1 (r_QueueName rc) meta ct rc (Error x)
      (default 0 (as_retryAfter x)) Hrel Hat Hinv Hfr Ht) as Hi. unfold iwp in Hi.
    destruct (nackChannelImpl _ _ _ _ _ o w1) as [[[]|y] w2]; [|destruct Hi as [? _]; congruence].
    destruct Hi as (r' & i & ct' & Hi & Ho' & Hw & Hcase). rewrite Ho in Ho'. injection Ho' as <-.
    exists w2, i, ct'. split_and!; [done..|].
    destruct (limit cfg r <? c_retry_count r + 1); [|done].
    destruct Hcase as (k & _ & ->). by exists k.
  - unfold ackReceipt. rewrite Hqt.
    pose proof (iwp_fenced o w1 (r_QueueName rc) meta ct rc (fun e => complete_row (e_now e))
      Hrel Hc Hat) as Hi. unfold iwp in Hi. fold (ack_tx rc) in Hi.
    fold (ackChannel (r_QueueName rc) rc) in Hi.
    destruct (ackChannel _ _ o w1) as [[[]|y] w2]; [|destruct Hi as [? _]; congruence].
    destruct Hi as (i & r' & Hi & Ho' & Hw). rewrite Ho in Ho'. injection Ho' as <-.
    by eexists w2, i, _.
Qed.

(** A handler that panics with a RetryAfter, on a closed queue. *)
Definition panicking : Handler := fun _ _ w =>
  (HPanicError (RetryAfter (5 * minute) (Some (HError [Byte.x62]))), set_w_closed true w).
Definition sample_message : Message :=
  mkMessage 3 78 [Byte.x63] 0 MessageStatusProcessing 0 3 None None None None (Some sample_receipt).

Lemma dispatch_settles_witness :
  exists w' i ct' delay,
    dispatchToHandler (H := truncating_server) sample_cfg panicking sample_message calm_oracle
      sample_world = (Ok tt, w') /\ w_db w' = put_channel sample_meta ct' sample_db /\
    delay = 5 * minute /\
    c_available_at <$> ct_msgs ct' !! 3 = Some (e_now (calm_oracle i) + delay / microsecond).
Proof.
  destruct (dispatch_settles (H := truncating_server) sample_cfg panicking sample_message calm_oracle
    sample_world (set_w_closed true sample_world)
    (HPanicError (RetryAfter (5 * minute) (Some (HError [Byte.x62])))) sample_meta sample_tables
    (mkChannelRow [Byte.x63] 0 MessageStatusProcessing 0 (Some 3) (Some (10 ^ 15)) 0 (Some 78)
           None None None)) as (w' & i & ct' & Heq & _ & Hw & Hres).
  - apply calm_oracle_reliable.
  - reflexivity.
  - exact sample_coherent.
  - reflexivity.
  - exact sample_at.
  - exact sample_inv.
  - intros m. by apply calm_gen_fresh.
  - reflexivity.
  - intros x [= <-]. vm_compute. reflexivity.
  - cbn [recovered] in Hres.
    match type of Hres with (if ?c then _ else _) => change c with false in Hres end.
    destruct Hres as (delay & Hd & ->).
    exists w', i. eexists _, delay. split; [exact Heq|]. split; [exact Hw|].
    assert (delay = 5 * minute) as ->.
    { destruct Hd as [[_ Hd]|[[Hd _]|[Hd _]]]; [rewrite Hd; reflexivity|vm_compute in Hd; congruence..]. }
    split; [reflexivity|]. cbn. by rewrite lookup_insert_eq.
Defined.
