(* ===== verification/Iterate.v ===== *)
(** * The message iterators ([ChannelMessages], [TopicMessages] of [consume.go])

    A range-over-func iterator that fetches with [fetchNext] and hands each message
    to the loop body; the caller acknowledges. *)

From S2P Require Import Prelude Types Tx World Config Queries Publish Consume.
From Stdlib Require Import ZArith Lia.
Local Open Scope Z_scope.

Section iterate.
Context `{Server} (cfg : queueConfig).

(** The empty name when there is no listener or the table is not known. *)
Definition resolveNotifyChannel (qt : QueueType) (name : string) : io string :=
  if listener cfg then
    r ← try_io (cachedTableName qt name);
    match r with
    | Ok tableName => mret (notifyChannelName tableName)
    | Err _ => mret ""%string
    end
  else mret ""%string.

(** What the loop body is called with. *)
Inductive item :=
| YMessage (msg : Message)
| YError (x : err).

(** The iterator's function, for [rounds] messages at most and [fuel] attempts for each.
    [more k] is whether the body of the [k]-th round wants another one (it breaks
    out of its loop otherwise). *)
Fixpoint messagesIter (rounds k fuel : nat) (ctx : nat -> nat -> bool) (more : nat -> bool)
    (receive : io Message) (fails : Z) : io (list item) :=
  match rounds with
  | O => mret []
  | S rounds =>
      '(out, fails) ← fetchNext fuel 0 (ctx k) receive fails;
      match out with
      | Deliver msg =>
          if more k then
            rest ← messagesIter rounds (S k) fuel ctx more receive fails;
            mret (YMessage msg :: rest)
          else mret [YMessage msg]
      | Fatal x => mret [YError x]
      | Stopped | Waiting => mret []
      end
  end.

Definition ChannelMessages (rounds fuel : nat) ctx more (name : string) (opts : list ConsumeOption) :
    io (list item) :=
  _ ← resolveNotifyChannel QueueTypeChannel name;
  messagesIter rounds 0 fuel ctx more (ReceiveChannel cfg name opts) 0.
Definition TopicMessages (rounds fuel : nat) ctx more (name subscriberID : string)
    (opts : list ConsumeOption) : io (list item) :=
  _ ← resolveNotifyChannel QueueTypePubSub name;
  messagesIter rounds 0 fuel ctx more (ReceiveTopic cfg name subscriberID opts) 0.

End iterate.

(** ** The calls of [receive] behind an iteration *)

Section received.
Context (receive : io Message) (o : oracle).

(** [rs] are the results of the successive calls from [w] to [w']. *)
Inductive received : world -> list (result Message) -> world -> Prop :=
| received_nil w : received w [] w
| received_cons w r w1 rs w2 :
    receive o w = (r, w1) -> received w1 rs w2 -> received w (r :: rs) w2.

Definition delivered (rs : list (result Message)) : list Message :=
  omap (fun r => match r with Ok m => Some m | Err _ => None end) rs.
Definition yielded (items : list item) : list Message :=
  omap (fun i => match i with YMessage m => Some m | YError _ => None end) items.

Lemma received_app w rs w1 rs' w2 : received w rs w1 -> received w1 rs' w2 -> received w (rs ++ rs') w2.
Proof. induction 1; intros; cbn; [done|]. econstructor; eauto. Qed.

(** [fetchNext] ends, and only its last call of [receive] can have returned a
    message, the one it delivers. *)
Lemma fetchNext_received fuel i ctx fails w :
  exists out fails' w' rs, fetchNext fuel i ctx receive fails o w = (Ok (out, fails'), w') /\
    received w rs w' /\
    delivered rs = (match out with Deliver m => [m] | _ => [] end) /\
    (forall x, out = Fatal x -> last rs = Some (Err x)).
Proof.
  revert i fails w. induction fuel as [|fuel IH]; intros i fails w; cbn [fetchNext].
  { exists Waiting, fails, w, []. split_and!; try done. constructor. }
  destruct (ctx i).
  { exists Stopped, fails, w, []. split_and!; try done. constructor. }
  unfold mbind, io_bind at 1, try_io at 1. destruct (receive o w) as [[m|x] w1] eqn:E.
  { exists (Deliver m), 0, w1, [Ok m]. split_and!; try done. econstructor; [done|constructor]. }
  assert (Hone : received w [Err x] w1) by (econstructor; [done|constructor]).
  assert (Hend : forall out (fails' : Z), (forall m, out <> Deliver m) -> (forall y, out = Fatal y -> y = x) ->
    exists out' (fails'' : Z) w' rs, (Ok (out, fails'), w1) = (Ok (out', fails''), w') /\ received w rs w' /\
      delivered rs = (match out' with Deliver m => [m] | _ => [] end) /\
      (forall y, out' = Fatal y -> last rs = Some (Err y))).
  { intros out fails' Hm Hx. exists out, fails', w1, [Err x]. split_and!; try done.
    - destruct out; try done. by destruct (Hm msg).
    - intros y Hy. by rewrite (Hx y Hy). }
  assert (Hrec : forall j fails', exists out' fails'' w' rs,
    fetchNext fuel j ctx receive fails' o w1 = (Ok (out', fails''), w') /\ received w rs w' /\
      delivered rs = (match out' with Deliver m => [m] | _ => [] end) /\
      (forall y, out' = Fatal y -> last rs = Some (Err y))).
  { intros j fails'. destruct (IH j fails' w1) as (out & f & w' & rs & H1 & H2 & H3 & H4).
    exists out, f, w', (Err x :: rs). split_and!; [done|by econstructor|done|].
    intros y Hy. specialize (H4 y Hy). destruct rs; [done|]. by rewrite last_cons_cons. }
  destruct (isEmptySignal x); [destruct (ctx _); [by apply Hend|apply Hrec]|].
  destruct (isStopSignal _ x); [by apply Hend|].
  destruct (isTransientError x); [|apply Hend; [done|congruence]].
  unfold retryTransient. cbn zeta. destruct (_ <? _); [apply Hend; [done|congruence]|].
  destruct (ctx _); [by apply Hend|apply Hrec].
Qed.

(** The iterator hands out exactly the messages it received.  It always ends; the
    messages its loop body sees are those the calls of [receive] returned, in
    order, with none claimed and dropped, also when the body breaks out of its loop;
    and an error is yielded at most once, as the last item, the error of the last
    call. *)
Theorem messagesIter_yields_received rounds k fuel ctx more fails w :
  exists items w' rs, messagesIter rounds k fuel ctx more receive fails o w = (Ok items, w') /\
    received w rs w' /\ yielded items = delivered rs /\
    (items = YMessage <$> yielded items \/
     exists x, items = (YMessage <$> yielded items) ++ [YError x] /\ last rs = Some (Err x)).
Proof.
  revert k fails w. induction rounds as [|rounds IH]; intros k fails w; cbn [messagesIter].
  { exists [], w, []. split_and!; try done; [constructor|by left]. }
  destruct (fetchNext_received fuel 0 (ctx k) fails w) as (out & f & w1 & rs & E & Hr & Hd & Hl).
  unfold mbind at 1, io_bind at 1. rewrite E. destruct out as [m|x| |].
  - destruct (more k).
    + destruct (IH (S k) f w1) as (items & w2 & rs2 & E2 & Hr2 & Hd2 & Hi).
      exists (YMessage m :: items), w2, (rs ++ rs2). unfold mbind, io_bind. rewrite E2.
      split_and!; [done|by eapply received_app|unfold delivered in *; by rewrite omap_app, Hd, <-Hd2|].
      destruct Hi as [Hi|(x & Hi & Hx)]; [left|right; exists x].
      { change (YMessage m :: items = YMessage m :: (YMessage <$> yielded items)). by rewrite <-Hi. }
      split; [change (YMessage m :: items = YMessage m :: ((YMessage <$> yielded items) ++ [YError x]));
        by rewrite <-Hi|]. rewrite last_app, Hx. done.
    + exists [YMessage m], w1, rs. split_and!; [done..|by left].
  - exists [YError x], w1, rs. split_and!; [done..|]. right. exists x. split; [done|]. by apply Hl.
  - exists [], w1, rs. split_and!; [done..|by left].
  - exists [], w1, rs. split_and!; [done..|by left].
Qed.

End received.
