(* ===== verification/HandlerLoop.v ===== *)
(** * The pool of a handler-driven consume loop ([runHandlerLoop] of [consume.go])

    One call of [ConsumeChannel] or [ConsumeTopic] runs a pool of workers under a
    context of its own.  [Consume] has one worker as a sequential program over the
    database; here a worker is a state machine whose steps are the places where
    [handlerWorker] and [fetchNext] look at the context, at the closed flag or at
    what the database returned, so that the workers, the watcher of the queue's
    background context and the caller can be interleaved in any way. *)

From S2P Require Import Prelude Types Tx World Config Queries Consume.
From Stdlib Require Import ZArith Lia.
Local Open Scope Z_scope.

(** ** One worker *)

Inductive wpos :=
| WTop                  (* the loop head of [fetchNext] *)
| WReceive              (* calling [receive], before its [checkClosed] *)
| WQuery                (* [receive] is at the database *)
| WWait                 (* [waitForWork] on the poll interval and the wake-up channel *)
| WBackoff              (* [waitForWork] of [retryTransient] *)
| WHandle               (* the handler runs *)
| WSettle               (* the automatic ack or nack is at the database *)
| WFatal (x : err)      (* about to call [setFatal] *)
| WExit.

Record worker := mkWorker {
  wk_pos : wpos;
  wk_fails : Z          (* [transientFails] *)
}.

(** What a worker meets at its step: nothing in particular (the call returned, the
    timer fired, the waker was closed), the result of [receive], or the [ctx.Done()]
    case of a wait. *)
Inductive wanswer :=
| WGo
| WReceived (r : result Message)
| WCtxDone.

(** The branches of [fetchNext] on an error of [receive]. *)
Definition on_error (done : bool) (x : err) (fails : Z) : worker :=
  if isEmptySignal x then mkWorker WWait 0
  else if isStopSignal done x then mkWorker WExit fails
  else if isTransientError x then
    let fails := fails + 1 in
    if maxConsumeTransientRetries <? fails then mkWorker (WFatal x) fails
    else mkWorker WBackoff fails
  else mkWorker (WFatal x) fails.

(** [closed] is the queue's flag, [done] whether [loopCtx] is done.  [None]: the worker
    cannot meet that there. *)
Definition worker_step (closed done : bool) (a : wanswer) (w : worker) : option worker :=
  let fails := wk_fails w in
  match wk_pos w, a with
  | WTop, WGo => Some (mkWorker (if done then WExit else WReceive) fails)
  | WReceive, WGo =>
      if closed then Some (on_error done ErrQueueClosed fails) else Some (mkWorker WQuery fails)
  | WQuery, WReceived (Ok _) => Some (mkWorker WHandle 0)
  | WQuery, WReceived (Err x) => Some (on_error done x fails)
  | (WWait | WBackoff), WGo => Some (mkWorker WTop fails)
  | (WWait | WBackoff), WCtxDone => if done then Some (mkWorker WExit fails) else None
  | WHandle, WGo => Some (mkWorker WSettle fails)
  | WSettle, WGo => Some (mkWorker WTop fails)
  | _, _ => None
  end.

(** ** The pool *)

Record pool := mkPool {
  p_ctx : bool;                 (* the caller's context is done *)
  p_cancel : bool;              (* [cancel()] was called on [loopCtx] *)
  p_workers : list worker;
  p_fatal : option err          (* [fatalErr] *)
}.

Definition loopCtx_done (p : pool) : bool := p_ctx p || p_cancel p.

Definition runHandlerLoop_start (ctx : bool) (o : consumeOpts) : pool :=
  mkPool ctx false (replicate (Z.to_nat (worker_count o)) (mkWorker WTop 0)) None.

(** The first error wins; either way the pool is told to stop. *)
Definition setFatal (x : err) (p : pool) : pool :=
  mkPool (p_ctx p) true (p_workers p) (match p_fatal p with None => Some x | f => f end).

Definition set_worker (i : nat) (w : worker) (p : pool) : pool :=
  mkPool (p_ctx p) (p_cancel p) (<[i := w]> (p_workers p)) (p_fatal p).

Inductive pevent :=
| PWorker (i : nat) (a : wanswer)
| PWatch                (* the watcher saw [bgCtx.Done()] and is the first to cancel *)
| PCtxDone.             (* the caller's context ends *)

Definition pool_step (closed bgDone : bool) (e : pevent) (p : pool) : option pool :=
  match e with
  | PWorker i a =>
      w ← p_workers p !! i;
      match wk_pos w with
      | WFatal x => Some (setFatal x (set_worker i (mkWorker WExit (wk_fails w)) p))
      | _ => w' ← worker_step closed (loopCtx_done p) a w; Some (set_worker i w' p)
      end
  | PWatch =>
      if bgDone && negb (p_cancel p) then Some (mkPool (p_ctx p) true (p_workers p) (p_fatal p))
      else None
  | PCtxDone => Some (mkPool true (p_cancel p) (p_workers p) (p_fatal p))
  end.

Definition exited (w : worker) : bool := match wk_pos w with WExit => true | _ => false end.

(** [wg.Wait()] has returned. *)
Definition drained (p : pool) : bool := forallb exited (p_workers p).

(** The worker is at the database. *)
Definition querying_worker (w : worker) : bool :=
  match wk_pos w with WQuery | WSettle => true | _ => false end.

(** ** Lemmas *)

(** The steps a worker still takes once its context is done. *)
Definition worker_rank (w : worker) : nat :=
  match wk_pos w with
  | WExit => 0
  | WTop | WFatal _ => 1
  | WWait | WBackoff | WSettle => 2
  | WHandle => 3
  | WQuery => 4
  | WReceive => 5
  end.

Lemma worker_rank_exited w : exited w = true <-> worker_rank w = 0%nat.
Proof. destruct w as [[] f]; cbn; naive_solver lia. Qed.

Lemma on_error_rank x fails : (worker_rank (on_error true x fails) <= 2)%nat.
Proof.
  unfold on_error. destruct (isEmptySignal x); [cbn; lia|].
  destruct (isStopSignal true x); [cbn; lia|].
  destruct (isTransientError x); [|cbn; lia]. by destruct (_ <? _); cbn; lia.
Qed.

Lemma worker_step_rank closed a w w' :
  worker_step closed true a w = Some w' -> (worker_rank w' < worker_rank w)%nat.
Proof.
  destruct w as [p f]. unfold worker_step. cbn [wk_pos wk_fails].
  destruct p, a; try done; intros H; simplify_eq; try (cbn; lia).
  - destruct closed; simplify_eq; [|cbn; lia].
    eapply Nat.le_lt_trans; [apply on_error_rank|cbn; lia].
  - destruct r as [m|x]; simplify_eq; [cbn; lia|].
    eapply Nat.le_lt_trans; [apply on_error_rank|cbn; lia].
Qed.

(** A worker that has not exited can go on, whatever the context and the flag say. *)
Lemma worker_moves closed done w :
  exited w = false -> (forall x, wk_pos w <> WFatal x) ->
  exists a w', worker_step closed done a w = Some w'.
Proof.
  destruct w as [p f]. intros He Hf. destruct p; cbn in He; try done;
    try (exists WGo; eexists; reflexivity).
  - exists WGo. cbn. destruct closed; eexists; reflexivity.
  - exists (WReceived (Err ErrQueueEmpty)). eexists; reflexivity.
  - by destruct (Hf x).
Qed.

(** The steps a pool still takes once its context is done, its return included. *)
Definition pool_rank (p : pool) : nat :=
  S (sum_list_with worker_rank (p_workers p) + if p_cancel p then 0 else 1).

Lemma pool_step_rank closed bg e p p' :
  pool_step closed bg e p = Some p' -> loopCtx_done p = true -> e <> PCtxDone ->
  (pool_rank p' < pool_rank p)%nat /\ loopCtx_done p' = true.
Proof.
  intros H Hd He. destruct e as [i a| |]; [| |done]; cbn in H.
  2: { destruct (p_cancel p) eqn:Ec; [by rewrite andb_false_r in H|].
       destruct bg; cbn in H; [|done]. simplify_eq. unfold pool_rank, loopCtx_done. cbn.
       rewrite Ec, orb_true_r. split; [lia|done]. }
  destruct (p_workers p !! i) as [w|] eqn:Ew; [|done]. cbn in H.
  assert (Hstep : forall w', worker_step closed (loopCtx_done p) a w = Some w' ->
    (pool_rank (set_worker i w' p) < pool_rank p)%nat /\ loopCtx_done (set_worker i w' p) = true).
  { intros w' Hw. rewrite Hd in Hw. apply worker_step_rank in Hw. split; [|done].
    pose proof (sum_insert worker_rank _ i w' w Ew). unfold pool_rank. cbn. lia. }
  destruct (wk_pos w) eqn:Ep; try (destruct (worker_step _ _ _ _) eqn:Es; [|done];
    cbn in H; simplify_eq; by apply Hstep).
  simplify_eq. pose proof (sum_insert worker_rank _ i (mkWorker WExit (wk_fails w)) w Ew) as Hs.
  unfold worker_rank at 2 4 in Hs. rewrite Ep in Hs. cbn in Hs.
  unfold pool_rank, loopCtx_done. cbn. rewrite orb_true_r. split; [|done].
  destruct (p_cancel p); lia.
Qed.

Lemma drained_rank p : drained p = true <-> sum_list_with worker_rank (p_workers p) = 0%nat.
Proof.
  unfold drained. rewrite sum_zero, forallb_forall, Forall_forall.
  split; intros H w Hw; apply worker_rank_exited, H; [by apply list_elem_of_In|].
  by apply list_elem_of_In in Hw.
Qed.

(** A pool whose workers have not all exited can go on. *)
Lemma pool_moves closed bg p :
  drained p = false -> exists i a p', pool_step closed bg (PWorker i a) p = Some p'.
Proof.
  unfold drained. intros Hd.
  assert (exists i w, p_workers p !! i = Some w /\ exited w = false) as (i & w & Hw & He).
  { induction (p_workers p) as [|w ws IH]; [done|]. cbn in Hd. destruct (exited w) eqn:E.
    - destruct (IH Hd) as (i & v & ? & ?). by exists (S i), v.
    - by exists 0%nat, w. }
  exists i. destruct (wk_pos w) as [| | | | | | |x|] eqn:Ex.
  8: { exists WGo. eexists. cbn. rewrite Hw. cbn. by rewrite Ex. }
  all: destruct (worker_moves closed (loopCtx_done p) w He) as (a & w' & Hs); [congruence|];
    exists a; eexists; cbn; rewrite Hw; cbn; rewrite Hs, Ex; reflexivity.
Qed.

(** ** What the pool reports *)

(** A step of the pool with the flags of the queue at that time. *)
Fixpoint pool_steps (es : list (bool * bool * pevent)) (p : pool) : option pool :=
  match es with
  | [] => Some p
  | (closed, bg, e) :: es => pool_step closed bg e p ≫= pool_steps es
  end.

(** The errors handed to [setFatal], in order. *)
Definition reported_by (e : pevent) (p : pool) : list err :=
  match e with
  | PWorker i _ =>
      match wk_pos <$> p_workers p !! i with Some (WFatal x) => [x] | _ => [] end
  | _ => []
  end.
Fixpoint reports (es : list (bool * bool * pevent)) (p : pool) : list err :=
  match es with
  | [] => []
  | (closed, bg, e) :: es =>
      reported_by e p ++ match pool_step closed bg e p with Some p' => reports es p' | None => [] end
  end.

(** An error the loop cannot go on after. *)
Definition unrecoverable (x : err) : Prop := isEmptySignal x = false /\ isStopSignal false x = false.

(** The retry budget of a worker, by position. *)
Definition worker_ok (w : worker) : Prop :=
  match wk_pos w with
  | WFatal x =>
      unrecoverable x /\ (isTransientError x = true -> wk_fails w = maxConsumeTransientRetries + 1)
  | WExit => True
  | WBackoff => 1 <= wk_fails w <= maxConsumeTransientRetries
  | _ => 0 <= wk_fails w <= maxConsumeTransientRetries
  end.

Lemma isStopSignal_mono done x : isStopSignal done x = false -> isStopSignal false x = false.
Proof. unfold isStopSignal. by intros [_ ?]%orb_false_iff. Qed.

Lemma on_error_ok done x fails :
  0 <= fails <= maxConsumeTransientRetries -> worker_ok (on_error done x fails).
Proof.
  intros Hf. unfold on_error. destruct (isEmptySignal x) eqn:Ee; [cbn; lia|].
  destruct (isStopSignal done x) eqn:Es; [done|]. apply isStopSignal_mono in Es.
  destruct (isTransientError x) eqn:Et; [|split; [done|cbn; congruence]]. cbn zeta.
  destruct (Z.ltb_spec maxConsumeTransientRetries (fails + 1)).
  - split; [done|]. cbn. lia.
  - cbn. lia.
Qed.

Lemma worker_step_ok closed done a w w' :
  worker_step closed done a w = Some w' -> worker_ok w -> worker_ok w'.
Proof.
  destruct w as [p f]. unfold worker_step. cbn [wk_pos wk_fails].
  intros H Hw. destruct p, a; try done; cbn in Hw; simplify_eq.
  - by destruct done.
  - destruct closed; simplify_eq; [by apply on_error_ok|done].
  - destruct r as [m|x]; simplify_eq; [cbn; lia|by apply on_error_ok].
  - done.
  - by destruct done; simplify_eq.
  - cbn. lia.
  - by destruct done; simplify_eq.
  - done.
  - done.
Qed.

Lemma pool_step_ok closed bg e p p' :
  pool_step closed bg e p = Some p' -> Forall worker_ok (p_workers p) ->
  Forall worker_ok (p_workers p') /\ length (p_workers p') = length (p_workers p) /\
  Forall unrecoverable (reported_by e p) /\
  p_fatal p' = (match p_fatal p with None => head (reported_by e p) | f => f end) /\
  (loopCtx_done p = true -> loopCtx_done p' = true) /\
  (reported_by e p <> [] -> loopCtx_done p' = true).
Proof.
  intros H Hw. destruct e as [i a| |]; cbn in H.
  2: { destruct (bg && _); [|done]. simplify_eq. unfold loopCtx_done. cbn. rewrite orb_true_r.
       split_and!; try done. by destruct (p_fatal p). }
  2: { simplify_eq. unfold loopCtx_done. cbn. split_and!; try done. by destruct (p_fatal p). }
  destruct (p_workers p !! i) as [w|] eqn:Ew; [|done]. cbn in H.
  assert (worker_ok w) as Hwi by (rewrite Forall_lookup in Hw; by eapply Hw).
  destruct (wk_pos w) eqn:Ep.
  8: { simplify_eq. cbn. rewrite Ew. cbn. rewrite Ep. unfold loopCtx_done. cbn.
       rewrite length_insert, orb_true_r. destruct w as [p0 f]. cbn in Ep. subst.
       split_and!; try done; [by apply Forall_insert|constructor; [apply Hwi|constructor]]. }
  all: destruct (worker_step _ _ _ _) as [w'|] eqn:Es; [|done]; cbn in H; simplify_eq;
    apply worker_step_ok in Es; [|done]; cbn; rewrite Ew; cbn; rewrite Ep, length_insert;
    split_and!; try done; [by apply Forall_insert|by destruct (p_fatal p)].
Qed.

Lemma pool_steps_ok es p p' :
  pool_steps es p = Some p' -> Forall worker_ok (p_workers p) ->
  Forall worker_ok (p_workers p') /\ length (p_workers p') = length (p_workers p) /\
  Forall unrecoverable (reports es p) /\
  p_fatal p' = (match p_fatal p with None => head (reports es p) | f => f end) /\
  (loopCtx_done p = true -> loopCtx_done p' = true) /\
  (reports es p <> [] -> loopCtx_done p' = true).
Proof.
  revert p. induction es as [|[[c b] e] es IH]; intros p H Hw; cbn in H.
  { simplify_eq. cbn. split_and!; try done. by destruct (p_fatal p'). }
  destruct (pool_step c b e p) as [p1|] eqn:E; [|done]. cbn in H.
  destruct (pool_step_ok _ _ _ _ _ E Hw) as (Hw1 & Hl1 & Hu1 & Hf1 & Hd1 & Hr1).
  destruct (IH _ H Hw1) as (Hw2 & Hl2 & Hu2 & Hf2 & Hd2 & Hr2). cbn. rewrite E.
  refine (conj Hw2 (conj _ (conj _ (conj _ (conj _ _))))).
  - congruence.
  - by apply Forall_app.
  - rewrite Hf2, Hf1. destruct (p_fatal p); [done|]. by destruct (reported_by e p).
  - auto.
  - destruct (reported_by e p); [done|]. intros _. apply Hd2. by apply Hr1.
Qed.

Lemma worker_count_clamps o : worker_count o = Z.max 1 (Z.min (co_concurrency o) maxConcurrency).
Proof.
  unfold worker_count, maxConcurrency. destruct (Z.leb_spec (co_concurrency o) 0); cbn zeta.
  - cbn. lia.
  - destruct (Z.ltb_spec 1024 (co_concurrency o)); lia.
Qed.

(** The last [WithConcurrency] counts. *)
Lemma concurrency_last opts n : co_concurrency (applyConsumeOptions (opts ++ [WithConcurrency n])) = n.
Proof. unfold applyConsumeOptions. by rewrite foldl_app. Qed.

(** C27: the pool of a consume loop, however its workers are scheduled.  It has as
    many workers as the last WithConcurrency asks for, one if that is less than one and
    1024 if it is more, however it ends; what the loop returns is the first error a
    worker reported, which was neither an empty queue nor a canceled context; once
    one is reported the other workers are told to stop; and no worker retries a
    transient error more than five times in a row before it reports it. *)
Theorem handler_pool_sound ctx o es p :
  pool_steps es (runHandlerLoop_start ctx o) = Some p ->
  Z.of_nat (length (p_workers p)) = Z.max 1 (Z.min (co_concurrency o) 1024) /\
  (forall opts n, o = applyConsumeOptions (opts ++ [WithConcurrency n]) ->
     Z.of_nat (length (p_workers p)) = Z.max 1 (Z.min n 1024)) /\
  p_fatal p = head (reports es (runHandlerLoop_start ctx o)) /\
  Forall unrecoverable (reports es (runHandlerLoop_start ctx o)) /\
  (p_fatal p <> None -> loopCtx_done p = true) /\
  Forall worker_ok (p_workers p).
Proof.
  intros H. destruct (pool_steps_ok _ _ _ H) as (Hw & Hl & Hu & Hf & Hd & Hr).
  { apply Forall_replicate. cbn. unfold maxConsumeTransientRetries. lia. }
  rewrite Hl. cbn in Hf |- *. rewrite length_replicate, worker_count_clamps. unfold maxConcurrency.
  refine (conj _ (conj _ (conj Hf (conj Hu (conj _ Hw))))); [lia| |].
  { intros opts n ->. rewrite concurrency_last. lia. }
  rewrite Hf. intros Hn. apply Hr. by destruct (reports _ _).
Qed.

(** Two workers: one meets an error it cannot go on after, the other is then stopped. *)
Definition failing_run : list (bool * bool * pevent) :=
  (fun e => (false, false, e)) <$>
  [PWorker 0 WGo; PWorker 1 WGo; PWorker 0 WGo; PWorker 1 WGo;
   PWorker 1 (WReceived (Err ErrQueueEmpty)); PWorker 0 (WReceived (Err ErrTopicNotFound));
   PWorker 0 WGo; PWorker 1 WCtxDone].

Lemma handler_pool_sound_witness :
  exists p, pool_steps failing_run (runHandlerLoop_start false (applyConsumeOptions [WithConcurrency 2]))
      = Some p /\
    length (p_workers p) = 2%nat /\
    p_fatal p = Some ErrTopicNotFound /\ drained p = true /\ loopCtx_done p = true.
Proof.
  destruct (pool_steps failing_run
    (runHandlerLoop_start false (applyConsumeOptions [WithConcurrency 2]))) as [p|] eqn:E;
    [|by vm_compute in E].
  destruct (handler_pool_sound false _ failing_run p E) as (_ & Hn & Hf & _ & Hd & _).
  specialize (Hn [] 2 eq_refl).
  exists p. split; [done|]. split; [lia|]. split; [by rewrite Hf|]. split; [by vm_compute in E; simplify_eq|].
  apply Hd. by rewrite Hf.
Defined.
