(* ===== verification/Shutdown.v ===== *)
(** * Background goroutines and [Close] ([pgqueue.go], [gc.go], [consume.go])

    A [Queue] owns two kinds of goroutines that use the database: the loops of its
    garbage collectors and the handler-driven consume loops.  [Close] joins them
    before it returns, so that the caller can close the database handle next.

    The model is a transition system whose steps are the critical sections and the
    atomic loads of the code, in any interleaving: [Close] (by any number of
    callers), [NewGarbageCollector], [Start], [Stop], the collector's [run] goroutine
    with its helper [cancelOnStop], and the consume loops of [HandlerLoop]. *)

From S2P Require Import Prelude Types Tx World Config Queries Consume HandlerLoop.
From Stdlib Require Import ZArith Lia.
Local Open Scope nat_scope.

(** ** Garbage collectors *)

Inductive runpos :=
| RunNone               (* never started *)
| RunHead               (* before the first [stopRequested] *)
| RunCollect            (* in [collectOnce] *)
| RunSweep              (* in [sweepMetadataCache] *)
| RunSelect             (* the [select] of the loop *)
| RunDone.              (* [wg.Done()] *)

Record GarbageCollector := mkGC {
  g_stopChan : bool;    (* closed *)
  g_started : bool;
  g_starting : bool;    (* a [Start] holds [mu] and has seen the queue open *)
  g_ctx : bool;         (* the context given to [Start] is done *)
  g_cancel : bool;      (* [cancelOnStop] has canceled [runCtx] *)
  g_tick : bool;        (* [ticker.C] holds a tick *)
  g_run : runpos
}.

Definition new_gc : GarbageCollector := mkGC false false false false false false RunNone.

Definition running (g : GarbageCollector) : bool :=
  match g_run g with RunNone | RunDone => false | _ => true end.

(** [Start] up to the load of the queue's flag.  The mutex must be free. *)
Definition Start_load (closed : bool) (g : GarbageCollector) : option GarbageCollector :=
  if g_starting g then None
  else if closed then Some g
  else Some (mkGC (g_stopChan g) (g_started g) true (g_ctx g) (g_cancel g) (g_tick g) (g_run g)).

(** The rest of [Start]: the compare-and-swap, [wg.Add] and [go run]. *)
Definition Start_go (g : GarbageCollector) : option GarbageCollector :=
  if g_starting g then
    Some (mkGC (g_stopChan g) true false (g_ctx g) (g_cancel g) (g_tick g)
            (if g_started g then g_run g else RunHead))
  else None.

(** The critical section of [Stop]. *)
Definition Stop_signal (g : GarbageCollector) : option GarbageCollector :=
  if g_starting g then None
  else Some (mkGC true (g_started g) false (g_ctx g) (g_cancel g) (g_tick g) (g_run g)).

Definition set_run (p : runpos) (g : GarbageCollector) : GarbageCollector :=
  mkGC (g_stopChan g) (g_started g) (g_starting g) (g_ctx g) (g_cancel g) (g_tick g) p.

Definition runCtx_done (g : GarbageCollector) : bool := g_ctx g || g_cancel g.
Definition stopRequested (g : GarbageCollector) : bool := runCtx_done g || g_stopChan g.

(** The cases of the loop's [select]. *)
Inductive choice :=
| CDone
| CTick.

Inductive gevent :=
| GRun                  (* [run] goes on *)
| GSelect (c : choice)  (* its [select] takes a case *)
| GPanic                (* a panic in a pass, recovered in [run] *)
| GCancelOnStop
| GTick                 (* the ticker fires *)
| GCtxDone.             (* the caller's context ends *)

Definition cancelOnStop (g : GarbageCollector) : option GarbageCollector :=
  if running g && g_stopChan g && negb (g_cancel g) then
    Some (mkGC (g_stopChan g) (g_started g) (g_starting g) (g_ctx g) true (g_tick g) (g_run g))
  else None.

(** [run], with the events around it. *)
Definition gc_step (e : gevent) (g : GarbageCollector) : option GarbageCollector :=
  match e with
  | GRun =>
      match g_run g with
      | RunHead => Some (set_run (if stopRequested g then RunDone else RunCollect) g)
      | RunCollect => Some (set_run RunSweep g)
      | RunSweep => Some (set_run RunSelect g)
      | _ => None
      end
  | GSelect c =>
      match g_run g, c with
      | RunSelect, CDone => if stopRequested g then Some (set_run RunDone g) else None
      | RunSelect, CTick =>
          if g_tick g then
            Some (mkGC (g_stopChan g) (g_started g) (g_starting g) (g_ctx g) (g_cancel g) false
                    RunCollect)
          else None
      | _, _ => None
      end
  | GPanic =>
      match g_run g with
      | RunCollect | RunSweep => Some (set_run RunDone g)
      | _ => None
      end
  | GCancelOnStop => cancelOnStop g
  | GTick =>
      if running g then
        Some (mkGC (g_stopChan g) (g_started g) (g_starting g) (g_ctx g) (g_cancel g) true (g_run g))
      else None
  | GCtxDone =>
      Some (mkGC (g_stopChan g) (g_started g) (g_starting g) true (g_cancel g) (g_tick g) (g_run g))
  end.

(** ** Consume loops *)

Inductive consumer :=
| LChecked (ctx : bool) (o : consumeOpts)   (* [checkClosed] passed; before [trackWorker] *)
| LRunning (p : pool)
| LReturned (r : option err).

Definition live (c : consumer) : bool := match c with LRunning _ => true | _ => false end.

(** [ConsumeChannel] or [ConsumeTopic] up to [runHandlerLoop]. *)
Definition Consume_check (closed ctx : bool) (o : consumeOpts) : consumer :=
  if closed then LReturned (Some ErrQueueClosed)
  else match validateConsumeOptions o with
       | Ok _ => LChecked ctx o
       | Err x => LReturned (Some x)
       end.

(** [trackWorker] and the start of the pool. *)
Definition trackWorker (closed ctx : bool) (o : consumeOpts) : consumer :=
  if closed then LReturned (Some ErrQueueClosed) else LRunning (runHandlerLoop_start ctx o).

(** ** The queue *)

(** The [Close] call that found the queue open: what it has left to do. *)
Inductive closer :=
| CIdle
| CCancel (gs : list nat)          (* [bgCancel()] *)
| CStop (gs : list nat)            (* the next [gc.Stop()] *)
| CWait (i : nat) (gs : list nat)  (* [wg.Wait()] of that [Stop] *)
| CJoin                            (* [workerWG.Wait()] *)
| CNotifier                        (* [notifier.close()] *)
| CReturned.

Record Queue := mkQueue {
  closed : bool;
  bgDone : bool;                   (* [bgCtx] is canceled *)
  gcs : list nat;
  collectors : list GarbageCollector;
  consumers : list consumer;
  at_close : closer;
  late_closes : nat                (* [Close] calls that returned because another had begun *)
}.

Definition New : Queue := mkQueue false false [] [] [] CIdle 0.

Definition set_gc (i : nat) (g : GarbageCollector) (q : Queue) : Queue :=
  mkQueue (closed q) (bgDone q) (gcs q) (<[i := g]> (collectors q)) (consumers q) (at_close q)
    (late_closes q).
Definition set_consumer (i : nat) (c : consumer) (q : Queue) : Queue :=
  mkQueue (closed q) (bgDone q) (gcs q) (collectors q) (<[i := c]> (consumers q)) (at_close q)
    (late_closes q).
Definition set_close (p : closer) (q : Queue) : Queue :=
  mkQueue (closed q) (bgDone q) (gcs q) (collectors q) (consumers q) p (late_closes q).

(** The list of collectors [Close] knows, under [gcMu]. *)
Definition registerGC (i : nat) (q : Queue) : list nat := if closed q then gcs q else gcs q ++ [i].

Definition NewGarbageCollector (q : Queue) : Queue :=
  mkQueue (closed q) (bgDone q) (registerGC (length (collectors q)) q) (collectors q ++ [new_gc])
    (consumers q) (at_close q) (late_closes q).

(** The first critical section of [Close]. *)
Definition Close_begin (q : Queue) : Queue :=
  if closed q then
    mkQueue (closed q) (bgDone q) (gcs q) (collectors q) (consumers q) (at_close q)
      (S (late_closes q))
  else
    mkQueue true (bgDone q) (gcs q) (collectors q) (consumers q) (CCancel (gcs q)) (late_closes q).

(** The rest of [Close]. *)
Definition Close_step (q : Queue) : option Queue :=
  match at_close q with
  | CCancel gs =>
      Some (mkQueue (closed q) true (gcs q) (collectors q) (consumers q) (CStop gs) (late_closes q))
  | CStop [] => Some (set_close CJoin q)
  | CStop (i :: gs) =>
      g ← collectors q !! i; g' ← Stop_signal g; Some (set_close (CWait i gs) (set_gc i g' q))
  | CWait i gs =>
      g ← collectors q !! i; if running g then None else Some (set_close (CStop gs) q)
  | CJoin => if existsb live (consumers q) then None else Some (set_close CNotifier q)
  | CNotifier => Some (set_close CReturned q)
  | CIdle | CReturned => None
  end.

Inductive event :=
| ENewGC
| EStartLoad (i : nat)
| EStartGo (i : nat)
| EStop (i : nat)                                (* the caller's own [Stop] *)
| EGC (i : nat) (e : gevent)
| EConsume (ctx : bool) (o : consumeOpts)
| ETrack (i : nat)
| EPool (i : nat) (e : pevent)
| EReturn (i : nat)                              (* [runHandlerLoop] returns *)
| EClose
| ECloseStep.

Definition on_gc (i : nat) (f : GarbageCollector -> option GarbageCollector) (q : Queue) :
    option Queue :=
  g ← collectors q !! i; g' ← f g; Some (set_gc i g' q).
Definition on_consumer (i : nat) (f : consumer -> option consumer) (q : Queue) : option Queue :=
  c ← consumers q !! i; c' ← f c; Some (set_consumer i c' q).

Definition step (e : event) (q : Queue) : option Queue :=
  match e with
  | ENewGC => Some (NewGarbageCollector q)
  | EStartLoad i => on_gc i (Start_load (closed q)) q
  | EStartGo i => on_gc i Start_go q
  | EStop i => on_gc i Stop_signal q
  | EGC i e => on_gc i (gc_step e) q
  | EConsume ctx o =>
      Some (mkQueue (closed q) (bgDone q) (gcs q) (collectors q)
              (consumers q ++ [Consume_check (closed q) ctx o]) (at_close q) (late_closes q))
  | ETrack i =>
      on_consumer i (fun c => match c with
                              | LChecked ctx o => Some (trackWorker (closed q) ctx o)
                              | _ => None
                              end) q
  | EPool i e =>
      on_consumer i (fun c => match c with
                              | LRunning p => LRunning <$> pool_step (closed q) (bgDone q) e p
                              | _ => None
                              end) q
  | EReturn i =>
      on_consumer i (fun c => match c with
                              | LRunning p => if drained p then Some (LReturned (p_fatal p)) else None
                              | _ => None
                              end) q
  | EClose => Some (Close_begin q)
  | ECloseStep => Close_step q
  end.

Fixpoint steps (es : list event) (q : Queue) : option Queue :=
  match es with
  | [] => Some q
  | e :: es => step e q ≫= steps es
  end.

Definition reachable (q : Queue) : Prop := exists es, steps es New = Some q.

(** ** Invariants *)

(** No goroutine of this collector runs, and none is about to be started. *)
Definition idle_gc (g : GarbageCollector) : Prop := g_starting g = false /\ running g = false.

(** The collectors [Close] has not joined yet. *)
Definition unjoined (p : closer) : list nat :=
  match p with
  | CCancel gs | CStop gs => gs
  | CWait i gs => i :: gs
  | _ => []
  end.

Record ok (q : Queue) : Prop := {
  ok_closed : closed q = false <-> at_close q = CIdle;
  ok_bg : bgDone q = true <-> match at_close q with CIdle | CCancel _ => False | _ => True end;
  ok_gcs : Forall (fun i => i < length (collectors q)) (gcs q ++ unjoined (at_close q));
  ok_registered i : closed q = false -> i < length (collectors q) -> i ∈ gcs q;
  ok_idle i g : closed q = true -> collectors q !! i = Some g ->
    i ∈ unjoined (at_close q) \/ idle_gc g;
  ok_waiting i gs g : at_close q = CWait i gs -> collectors q !! i = Some g ->
    g_stopChan g = true /\ g_starting g = false;
  ok_joined : (at_close q = CNotifier \/ at_close q = CReturned) ->
    Forall (fun c => live c = false) (consumers q)
}.

Lemma ok_New : ok New.
Proof. split; cbn; try done; intros; lia. Qed.

(** *** Collectors *)

(** What a change to one collector must respect. *)
Record gc_respects (closed : bool) (g g' : GarbageCollector) : Prop := {
  gr_idle : closed = true -> idle_gc g -> idle_gc g';
  gr_stop : closed = true -> g_stopChan g = true /\ g_starting g = false ->
    g_stopChan g' = true /\ g_starting g' = false
}.

Lemma ok_set_gc i g g' q :
  collectors q !! i = Some g -> gc_respects (closed q) g g' -> ok q -> ok (set_gc i g' q).
Proof.
  intros Hg [Hi Hs] [H1 H2 H3 H4 H5 H6 H7].
  assert (Hlk : forall j h, <[i := g']> (collectors q) !! j = Some h ->
     (j = i /\ h = g') \/ collectors q !! j = Some h).
  { intros j h. destruct (decide (j = i)) as [->|Hn].
    - rewrite list_lookup_insert_eq by (by eapply lookup_lt_Some). naive_solver.
    - rewrite list_lookup_insert_ne by done. naive_solver. }
  split; unfold set_gc; cbn; rewrite ?length_insert; try done.
  - intros j h Hc Hh. destruct (Hlk j h Hh) as [[-> ->]|Hh']; [|by eapply H5].
    destruct (H5 i g Hc Hg) as [?|?]; [by left|right; auto].
  - intros j gs h Hp Hh. destruct (Hlk j h Hh) as [[-> ->]|Hh']; [|by eapply H6].
    apply Hs; [|by eapply H6]. apply not_false_is_true. rewrite H1, Hp. done.
Qed.

Lemma Start_load_respects closed g g' : Start_load closed g = Some g' -> gc_respects closed g g'.
Proof.
  unfold Start_load. intros H. destruct (g_starting g) eqn:Es; [done|].
  destruct closed; simplify_eq; by split.
Qed.

Lemma Start_go_respects closed g g' : Start_go g = Some g' -> gc_respects closed g g'.
Proof.
  unfold Start_go. intros H. destruct (g_starting g) eqn:Es; [|done]. simplify_eq.
  split; intros _; [intros [? ?]|intros [? ?]]; congruence.
Qed.

Lemma Stop_signal_respects closed g g' : Stop_signal g = Some g' -> gc_respects closed g g'.
Proof.
  unfold Stop_signal. intros H. destruct (g_starting g) eqn:Es; [done|]. simplify_eq.
  split; [by intros _ [? ?]|done].
Qed.

Lemma gc_step_respects closed e g g' : gc_step e g = Some g' -> gc_respects closed g g'.
Proof.
  unfold gc_step, cancelOnStop. intros H. split; intros _.
  - intros [Hs Hr]. destruct e as [|[]| | | |]; cbn in H; rewrite ?Hr in H; unfold running in Hr;
      destruct (g_run g) eqn:Er; simplify_eq/=; split; cbn; try done; unfold running; cbn;
      by rewrite Er.
  - intros [Hc Hs]. destruct e as [|[]| | | |]; cbn in H; repeat case_match; simplify_eq/=; done.
Qed.

(** *** Consumers *)

Lemma ok_set_consumer i c c' q :
  consumers q !! i = Some c -> (closed q = true -> live c' = true -> live c = true) ->
  ok q -> ok (set_consumer i c' q).
Proof.
  intros Hc Hl [H1 H2 H3 H4 H5 H6 H7]. split; try done. cbn. intros Hp. specialize (H7 Hp).
  apply Forall_insert; [done|]. apply not_true_is_false. intros Hc'.
  assert (closed q = true) as Hq by (apply not_false_is_true; rewrite H1; destruct Hp; congruence).
  specialize (Hl Hq Hc'). rewrite Forall_lookup in H7. specialize (H7 _ _ Hc). congruence.
Qed.

Lemma on_consumer_ok i f q q' :
  on_consumer i f q = Some q' ->
  (forall c c', f c = Some c' -> closed q = true -> live c' = true -> live c = true) ->
  ok q -> ok q'.
Proof.
  unfold on_consumer. intros H Hf. destruct (consumers q !! i) as [c|] eqn:Ec; [|done].
  cbn in H. destruct (f c) as [c'|] eqn:Ef; [|done]. cbn in H. simplify_eq.
  apply (ok_set_consumer i c); [done|]. by apply Hf.
Qed.

Lemma on_gc_ok i f q q' :
  on_gc i f q = Some q' -> (forall g g', f g = Some g' -> gc_respects (closed q) g g') ->
  ok q -> ok q'.
Proof.
  unfold on_gc. intros H Hf. destruct (collectors q !! i) as [g|] eqn:Eg; [|done].
  cbn in H. destruct (f g) as [g'|] eqn:Ef; [|done]. cbn in H. simplify_eq.
  apply (ok_set_gc i g); [done|]. by apply Hf.
Qed.

(** *** [Close] *)

Lemma ok_Close_begin q : ok q -> ok (Close_begin q).
Proof.
  intros Hq. pose proof Hq as [H1 H2 H3 H4 H5 H6 H7]. unfold Close_begin.
  destruct (closed q) eqn:Ec; [by split; cbn; rewrite ?Ec|].
  assert (at_close q = CIdle) as Ep by (by apply H1).
  rewrite Ep in *. cbn in *. rewrite app_nil_r in H3.
  split; cbn; try done; [by apply Forall_app|intros i g _ Hg|intros []; done].
  left. apply H4; [done|]. by eapply lookup_lt_Some.
Qed.

Lemma ok_NewGC q : ok q -> ok (NewGarbageCollector q).
Proof.
  intros [H1 H2 H3 H4 H5 H6 H7].
  assert (Hmono : forall l, Forall (fun i => i < length (collectors q)) l ->
     Forall (fun i => i < length (collectors q ++ [new_gc])) l).
  { intros l Hl. eapply Forall_impl; [exact Hl|]. intros i. cbn. rewrite length_app. lia. }
  assert (Hlk : forall i g, (collectors q ++ [new_gc]) !! i = Some g ->
     collectors q !! i = Some g \/ (i = length (collectors q) /\ g = new_gc)).
  { intros i g Hg. apply lookup_app_Some in Hg as [?|[? Hg]]; [by left|right].
    apply list_lookup_singleton_Some in Hg as [? <-]. split; [lia|done]. }
  split; unfold NewGarbageCollector, registerGC; cbn; try done.
  - apply Forall_app in H3 as [Ha Hb]. apply Forall_app; split; [|by apply Hmono].
    destruct (closed q); [by apply Hmono|]. apply Forall_app; split; [by apply Hmono|].
    constructor; [|constructor]. rewrite length_app. cbn. lia.
  - intros i Hc Hi. rewrite Hc. rewrite length_app in Hi. cbn in Hi. rewrite elem_of_app.
    destruct (decide (i < length (collectors q))) as [Hl|]; [left; by apply H4|].
    right. apply list_elem_of_singleton. lia.
  - intros i g Hc Hg. destruct (Hlk i g Hg) as [?|[-> ->]]; [by eapply H5|by right].
  - intros i gs g Hp Hg. destruct (Hlk i g Hg) as [?|[-> ->]]; [by eapply H6|].
    rewrite Hp in H3. apply Forall_app in H3 as [_ H3]. cbn in H3. inversion H3. lia.
Qed.

(** [Close] goes on to [p] without touching the collectors or the consumers. *)
Lemma ok_advance p q :
  (forall x, x ∈ unjoined p -> x ∈ unjoined (at_close q)) ->
  (forall i g, collectors q !! i = Some g -> i ∈ unjoined (at_close q) -> i ∉ unjoined p -> idle_gc g) ->
  closed q = true -> p <> CIdle -> (forall gs, p <> CCancel gs) -> (forall i gs, p <> CWait i gs) ->
  ((p = CNotifier \/ p = CReturned) -> Forall (fun c => live c = false) (consumers q)) ->
  ok q ->
  ok (mkQueue (closed q) true (gcs q) (collectors q) (consumers q) p (late_closes q)).
Proof.
  intros Hsub Hidle Hc Hp1 Hp2 Hp3 Hj [H1 H2 H3 H4 H5 H6 H7]. split; cbn; try done.
  - rewrite Hc. done.
  - split; [|done]. intros _. destruct p; try done; by eapply Hp2.
  - apply Forall_app in H3 as [Ha Hb]. apply Forall_app; split; [done|].
    rewrite Forall_forall in Hb |- *. auto.
  - intros i g _ Hg. destruct (decide (i ∈ unjoined p)) as [|Hn]; [by left|right].
    destruct (H5 i g Hc Hg) as [Hi|]; [|done]. by eapply Hidle.
  - intros i gs g Hp. by destruct (Hp3 i gs).
Qed.

Lemma existsb_live_false l : existsb live l = false -> Forall (fun c => live c = false) l.
Proof.
  intros H. apply Forall_forall. intros c Hc. apply not_true_is_false. intros Hl.
  apply not_true_iff_false in H. apply H. apply existsb_exists. exists c. split; [|done].
  by apply list_elem_of_In.
Qed.

Lemma ok_set_close p q :
  (forall x, x ∈ unjoined p -> x ∈ unjoined (at_close q)) ->
  (forall i g, collectors q !! i = Some g -> i ∈ unjoined (at_close q) -> i ∉ unjoined p -> idle_gc g) ->
  bgDone q = true -> p <> CIdle -> (forall gs, p <> CCancel gs) -> (forall i gs, p <> CWait i gs) ->
  ((p = CNotifier \/ p = CReturned) -> Forall (fun c => live c = false) (consumers q)) ->
  ok q -> ok (set_close p q).
Proof.
  intros Hsub Hidle Hb Hp1 Hp2 Hp3 Hj Hq. unfold set_close. rewrite Hb.
  apply ok_advance; try done. apply not_false_is_true. rewrite (ok_closed _ Hq). intros Hi.
  apply (ok_bg _ Hq) in Hb. by rewrite Hi in Hb.
Qed.

(** [Stop] has closed the channel of the next collector. *)
Lemma ok_signalled i gs g g' q :
  at_close q = CStop (i :: gs) -> collectors q !! i = Some g -> Stop_signal g = Some g' -> ok q ->
  ok (set_close (CWait i gs) (set_gc i g' q)).
Proof.
  intros Ep Hg Hs Hq.
  pose proof (ok_set_gc i g g' q Hg (Stop_signal_respects _ _ _ Hs) Hq) as [H1 H2 H3 H4 H5 H6 H7].
  cbn in *. rewrite Ep in *. split; cbn; try done.
  - rewrite H1. naive_solver.
  - intros j gs' h [= -> <-] Hh. rewrite list_lookup_insert_eq in Hh by (by eapply lookup_lt_Some).
    unfold Stop_signal in Hs. destruct (g_starting g) eqn:Es; [done|]. by simplify_eq/=.
  - intros []; done.
Qed.

Lemma ok_Close_step q q' : Close_step q = Some q' -> ok q -> ok q'.
Proof.
  unfold Close_step. intros H Hq.
  assert (at_close q <> CIdle -> closed q = true) as Hc.
  { intros ?. apply not_false_is_true. by rewrite (ok_closed _ Hq). }
  pose proof (ok_bg _ Hq) as Hb.
  destruct (at_close q) as [|gs|[|i gs]|i gs| | |] eqn:Ep; try done; simplify_option_eq.
  - apply ok_advance; rewrite ?Ep; cbn; try done; [by apply Hc|by intros []].
  - apply ok_set_close; rewrite ?Ep; cbn; try done; [by apply Hb|by intros []].
  - by eapply ok_signalled.
  - destruct (running _) eqn:Er; [done|]. simplify_eq.
    apply ok_set_close; rewrite ?Ep; cbn; try done; [set_solver| |by apply Hb|by intros []].
    intros j h Hh Hj Hn. apply elem_of_cons in Hj as [->|]; [|done]. simplify_eq.
    split; [|done]. by eapply (ok_waiting _ Hq).
  - destruct (existsb _ _) eqn:El; [done|]. simplify_eq.
    apply ok_set_close; rewrite ?Ep; cbn; try done; [by apply Hb|].
    intros _. by apply existsb_live_false.
  - apply ok_set_close; rewrite ?Ep; cbn; try done; [by apply Hb|].
    intros _. apply (ok_joined _ Hq). by left.
Qed.

Lemma shutdown_ok_step e q q' : step e q = Some q' -> ok q -> ok q'.
Proof.
  intros H Hq. destruct e; cbn in H.
  - simplify_eq. by apply ok_NewGC.
  - eapply on_gc_ok; [done| |done]. intros. by eapply Start_load_respects.
  - eapply on_gc_ok; [done| |done]. intros. by eapply Start_go_respects.
  - eapply on_gc_ok; [done| |done]. intros. by eapply Stop_signal_respects.
  - eapply on_gc_ok; [done| |done]. intros. by eapply gc_step_respects.
  - simplify_eq. pose proof Hq as [H1 H2 H3 H4 H5 H6 H7]. split; cbn; try done.
    intros Hp. apply Forall_app; split; [by apply H7|]. constructor; [|constructor].
    assert (closed q = true) as -> by (apply not_false_is_true; rewrite H1; destruct Hp; congruence).
    done.
  - eapply on_consumer_ok; [done| |done]. intros c c' Hf Hc. rewrite Hc in Hf.
    destruct c; by simplify_eq/=.
  - eapply on_consumer_ok; [done| |done]. intros c c' Hf Hc. destruct c; by simplify_eq/=.
  - eapply on_consumer_ok; [done| |done]. intros c c' Hf Hc. destruct c; simplify_option_eq; done.
  - simplify_eq. by apply ok_Close_begin.
  - by eapply ok_Close_step.
Qed.

Lemma shutdown_ok_steps es q q' : steps es q = Some q' -> ok q -> ok q'.
Proof.
  revert q. induction es as [|e es IH]; intros q H Hq; cbn in H; [by simplify_eq|].
  destruct (step e q) as [q1|] eqn:E; [|done]. cbn in H. eapply IH; [done|]. by eapply shutdown_ok_step.
Qed.

Lemma shutdown_reachable_ok q : reachable q -> ok q.
Proof. intros [es H]. eapply shutdown_ok_steps; [done|]. apply ok_New. Qed.

(** ** After [Close] *)

Lemma on_gc_close i f q q' :
  on_gc i f q = Some q' -> closed q' = closed q /\ at_close q' = at_close q.
Proof. unfold on_gc. intros. by simplify_option_eq. Qed.
Lemma on_consumer_close i f q q' :
  on_consumer i f q = Some q' -> closed q' = closed q /\ at_close q' = at_close q.
Proof. unfold on_consumer. intros. by simplify_option_eq. Qed.

(** Only [Close] itself moves on. *)
Lemma step_close e q q' :
  step e q = Some q' -> closed q = true -> e <> ECloseStep ->
  closed q' = true /\ at_close q' = at_close q.
Proof.
  intros H Hc He. destruct e; cbn in H; try done;
    try (rewrite <-Hc; by eapply on_gc_close); try (rewrite <-Hc; by eapply on_consumer_close);
    simplify_eq; try done.
  unfold Close_begin. by rewrite Hc.
Qed.

Lemma returned_stays es q q' :
  steps es q = Some q' -> ok q -> at_close q = CReturned -> at_close q' = CReturned.
Proof.
  revert q. induction es as [|e es IH]; intros q H Hq Hp; cbn in H; [by simplify_eq|].
  destruct (step e q) as [q1|] eqn:E; [|done]. cbn in H.
  assert (closed q = true) as Hc by (apply not_false_is_true; rewrite (ok_closed _ Hq); congruence).
  eapply IH; [done|by eapply shutdown_ok_step|].
  destruct e; try (rewrite <-Hp; by eapply step_close); cbn in E; unfold Close_step in E.
  by rewrite Hp in E.
Qed.

(** A collector or a consume loop is at the database. *)
Definition collecting (g : GarbageCollector) : bool :=
  match g_run g with RunCollect => true | _ => false end.
Definition consuming (c : consumer) : bool :=
  match c with LRunning p => existsb querying_worker (p_workers p) | _ => false end.
Definition querying (q : Queue) : bool :=
  existsb collecting (collectors q) || existsb consuming (consumers q).

Lemma quiet_not_querying q :
  Forall (fun g => running g = false) (collectors q) ->
  Forall (fun c => live c = false) (consumers q) -> querying q = false.
Proof.
  intros Hg Hc. unfold querying. apply orb_false_iff. split; apply not_true_is_false;
    intros (x & Hx & H)%existsb_exists; apply list_elem_of_In in Hx.
  - rewrite Forall_forall in Hg. specialize (Hg x Hx). unfold running, collecting in *.
    by destruct (g_run x).
  - rewrite Forall_forall in Hc. specialize (Hc x Hx). by destruct x.
Qed.

(** C16: once the [Close] call that closed the queue has returned, no goroutine the
    queue owns is left and none is ever started again, whatever anybody does with
    the queue afterwards: no collector loop runs, no handler-driven consume loop
    runs, and so none of them is at the database. *)
Theorem closed_queue_is_quiet q es q' :
  reachable q -> at_close q = CReturned -> steps es q = Some q' ->
  Forall (fun g => running g = false) (collectors q') /\
  Forall (fun c => live c = false) (consumers q') /\
  querying q' = false.
Proof.
  intros Hr Hp Hs. apply shutdown_reachable_ok in Hr.
  assert (Hp' : at_close q' = CReturned) by (by eapply returned_stays).
  apply (shutdown_ok_steps _ _ _ Hs) in Hr.
  assert (Hg : Forall (fun g => running g = false) (collectors q')).
  { apply Forall_lookup. intros i g Hg. destruct (ok_idle _ Hr i g) as [Hi|[_ ?]]; try done.
    - apply not_false_is_true. rewrite (ok_closed _ Hr). congruence.
    - rewrite Hp' in Hi. by apply not_elem_of_nil in Hi. }
  assert (Hc : Forall (fun c => live c = false) (consumers q')) by (apply (ok_joined _ Hr); by right).
  split; [done|]. split; [done|]. by apply quiet_not_querying.
Qed.

(** ** [Close] terminates *)

(** The steps of the goroutines [Close] waits for, and its own.  The ticker and the
    callers are left out. *)
Definition owned (e : event) : bool :=
  match e with
  | EStartGo _ | EReturn _ | ECloseStep => true
  | EGC _ (GRun | GSelect _ | GPanic | GCancelOnStop) => true
  | EPool _ (PWorker _ _ | PWatch) => true
  | _ => false
  end.

Definition gc_rank (g : GarbageCollector) : nat :=
  (if g_starting g then 10 else 0) +
  match g_run g with
  | RunNone | RunDone => 0
  | RunHead => 5
  | RunCollect => 3
  | RunSweep => 2
  | RunSelect => 1
  end +
  if running g then (if g_tick g then 3 else 0) + (if g_cancel g then 0 else 1) else 0.

Definition consumer_rank (c : consumer) : nat :=
  match c with LRunning p => pool_rank p | _ => 0 end.

Definition close_rank (p : closer) : nat :=
  match p with
  | CCancel gs => 2 * length gs + 4
  | CStop gs => 2 * length gs + 3
  | CWait _ gs => 2 * length gs + 4
  | CJoin => 2
  | CNotifier => 1
  | CIdle | CReturned => 0
  end.

Definition remaining (q : Queue) : nat :=
  close_rank (at_close q) + sum_list_with gc_rank (collectors q) +
  sum_list_with consumer_rank (consumers q).

(** Every running consume loop has been told to stop. *)
Definition told_to_stop (c : consumer) : Prop :=
  match c with LRunning p => loopCtx_done p = true | _ => True end.
Definition all_told (q : Queue) : Prop := Forall told_to_stop (consumers q).

Lemma gc_step_rank e g g' :
  gc_step e g = Some g' -> e <> GTick -> e <> GCtxDone -> gc_rank g' < gc_rank g.
Proof.
  unfold gc_step, cancelOnStop. intros H H1 H2. destruct e as [|[]| | | |]; try done;
    destruct g as [st sd [] cx [] [] []]; cbn in *; repeat case_match; simplify_eq; cbn; lia.
Qed.

Lemma Start_go_rank g g' : Start_go g = Some g' -> gc_rank g' < gc_rank g.
Proof.
  unfold Start_go. destruct g as [st sd [] cx ca tk rn]; cbn; [|done]. intros [= <-].
  destruct sd, ca, tk, rn; cbn; lia.
Qed.

Lemma Stop_signal_rank g g' : Stop_signal g = Some g' -> gc_rank g' = gc_rank g.
Proof. unfold Stop_signal. destruct g as [st sd [] cx ca tk rn]; [done|]. by intros [= <-]. Qed.

Lemma on_gc_rank i f q q' :
  on_gc i f q = Some q' -> (forall g g', f g = Some g' -> gc_rank g' < gc_rank g) ->
  remaining q' < remaining q /\ consumers q' = consumers q.
Proof.
  unfold on_gc. intros H Hf. destruct (collectors q !! i) as [g|] eqn:Eg; [|done]. cbn in H.
  destruct (f g) as [g'|] eqn:Ef; [|done]. cbn in H. simplify_eq. split; [|done].
  apply Hf in Ef. pose proof (sum_insert gc_rank _ i g' g Eg). unfold remaining. cbn. lia.
Qed.

Lemma on_consumer_rank i f q q' :
  on_consumer i f q = Some q' -> all_told q ->
  (forall c c', f c = Some c' -> told_to_stop c ->
    consumer_rank c' < consumer_rank c /\ told_to_stop c') ->
  remaining q' < remaining q /\ all_told q'.
Proof.
  unfold on_consumer, all_told. intros H Hs Hf.
  destruct (consumers q !! i) as [c|] eqn:Ec; [|done]. cbn in H.
  destruct (f c) as [c'|] eqn:Ef; [|done]. cbn in H. simplify_eq. cbn.
  assert (told_to_stop c) as Hc by (rewrite Forall_lookup in Hs; by eapply Hs).
  destruct (Hf c c' Ef Hc) as [Hr Ht]. split; [|by apply Forall_insert].
  pose proof (sum_insert consumer_rank _ i c' c Ec). unfold remaining. cbn. lia.
Qed.

Lemma Close_step_rank q q' :
  Close_step q = Some q' -> remaining q' < remaining q /\ consumers q' = consumers q.
Proof.
  unfold Close_step, remaining. intros H.
  destruct (at_close q) as [|gs|[|i gs]|i gs| | |] eqn:Ep; try done.
  - simplify_eq; cbn; split; [lia|done].
  - simplify_eq; cbn; split; [lia|done].
  - destruct (collectors q !! i) as [g|] eqn:Eg; [|done]. cbn in H.
    destruct (Stop_signal g) as [g'|] eqn:Es; [|done]. cbn in H. simplify_eq. cbn.
    pose proof (sum_insert gc_rank _ i g' g Eg). apply Stop_signal_rank in Es. split; [lia|done].
  - destruct (collectors q !! i) as [g|]; [|done]. cbn in H. destruct (running g); simplify_eq.
    cbn. split; [lia|done].
  - destruct (existsb _ _); simplify_eq. cbn. split; [lia|done].
  - simplify_eq. cbn. split; [lia|done].
Qed.

Lemma owned_step_rank e q q' :
  owned e = true -> step e q = Some q' -> all_told q -> remaining q' < remaining q /\ all_told q'.
Proof.
  intros Ho H Hs. destruct e as [|i|i|i|i e|ctx o|i|i e|i| |]; cbn in Ho; try done; cbn in H.
  - destruct (on_gc_rank _ _ _ _ H Start_go_rank) as [? He]. unfold all_told. by rewrite He.
  - destruct (on_gc_rank _ _ _ _ H) as [? He]; [|unfold all_told; by rewrite He].
    intros g g' Hg. eapply gc_step_rank; [done|by destruct e..].
  - eapply on_consumer_rank; [done..|]. intros [] c' Hf Hc; try done.
    destruct (pool_step _ _ _ _) as [p'|] eqn:E; [|done]. cbn in Hf. simplify_eq.
    eapply pool_step_rank; [done..|]. by destruct e.
  - eapply on_consumer_rank; [done..|]. intros [] c' Hf Hc; try done.
    destruct (drained p); [|done]. simplify_eq. split; [|done]. cbn. unfold pool_rank. lia.
  - destruct (Close_step_rank _ _ H) as [? He]. unfold all_told. by rewrite He.
Qed.

(** A collector that was told to stop can go on until it is done. *)
Lemma stopped_gc_moves g :
  running g = true -> g_stopChan g = true ->
  exists e g', owned (EGC 0 e) = true /\ gc_step e g = Some g'.
Proof.
  unfold running. intros Hr Hs. destruct (g_run g) eqn:E; try done;
    try (exists GRun; eexists; cbn; rewrite E; split; [done|reflexivity]).
  exists (GSelect CDone). cbn. rewrite E. unfold stopRequested. rewrite Hs, orb_true_r. by eexists.
Qed.

Lemma live_consumer_moves q i p :
  consumers q !! i = Some (LRunning p) -> exists e q', owned e = true /\ step e q = Some q'.
Proof.
  intros Hi. destruct (drained p) eqn:Ed.
  - exists (EReturn i). eexists. split; [done|]. cbn. unfold on_consumer. rewrite Hi. cbn.
    by rewrite Ed.
  - destruct (pool_moves (closed q) (bgDone q) p Ed) as (k & a & p' & Hp).
    exists (EPool i (PWorker k a)). eexists. split; [done|]. cbn [step]. unfold on_consumer.
    rewrite Hi. cbn [mbind option_bind]. rewrite Hp. reflexivity.
Qed.

Lemma close_moves q :
  ok q -> closed q = true -> at_close q <> CReturned ->
  exists e q', owned e = true /\ step e q = Some q'.
Proof.
  intros Hq Hc Hp. destruct (at_close q) as [|gs|[|i gs]|i gs| | |] eqn:Ep; try done.
  - apply (ok_closed _ Hq) in Ep. congruence.
  - exists ECloseStep. eexists. split; [done|]. cbn. unfold Close_step. by rewrite Ep.
  - exists ECloseStep. eexists. split; [done|]. cbn. unfold Close_step. by rewrite Ep.
  - pose proof (ok_gcs _ Hq) as Hg. rewrite Ep in Hg. apply Forall_app in Hg as [_ Hg].
    inversion Hg as [|? ? Hi _]; subst. apply lookup_lt_is_Some in Hi as [g Hi].
    destruct (g_starting g) eqn:Es.
    + exists (EStartGo i). cbn. unfold on_gc, Start_go. rewrite Hi. cbn. rewrite Es. by eexists.
    + exists ECloseStep. cbn. unfold Close_step, Stop_signal. rewrite Ep, Hi. cbn. rewrite Es.
      by eexists.
  - pose proof (ok_gcs _ Hq) as Hg. rewrite Ep in Hg. apply Forall_app in Hg as [_ Hg].
    inversion Hg as [|? ? Hi _]; subst. apply lookup_lt_is_Some in Hi as [g Hi].
    destruct (running g) eqn:Er.
    + destruct (ok_waiting _ Hq i gs g Ep Hi) as [Hs _].
      destruct (stopped_gc_moves g Er Hs) as (e & g' & Ho & He).
      exists (EGC i e). cbn [step]. unfold on_gc. rewrite Hi. cbn [mbind option_bind].
      rewrite He. by eexists.
    + exists ECloseStep. cbn. unfold Close_step. rewrite Ep, Hi. cbn. rewrite Er. by eexists.
  - destruct (existsb live (consumers q)) eqn:El.
    + apply existsb_exists in El as (c & Hin & Hl). apply list_elem_of_In in Hin.
      apply list_elem_of_lookup in Hin as [i Hi]. destruct c as [|p|]; try done.
      by eapply live_consumer_moves.
    + exists ECloseStep. cbn. unfold Close_step. rewrite Ep, El. by eexists.
  - exists ECloseStep. eexists. split; [done|]. cbn. unfold Close_step. by rewrite Ep.
Qed.

Lemma owned_steps_rank es q q' :
  Forall (fun e => owned e = true) es -> steps es q = Some q' -> all_told q ->
  remaining q' + length es <= remaining q /\ all_told q'.
Proof.
  revert q. induction es as [|e es IH]; intros q Ho H Hs; cbn in H; [simplify_eq; cbn; split; [lia|done]|].
  inversion Ho as [|? ? He Hes]; subst. destruct (step e q) as [q1|] eqn:E; [|done]. cbn in H.
  destruct (owned_step_rank _ _ _ He E Hs) as [Hr Hs1]. destruct (IH _ Hes H Hs1) as [? ?].
  cbn. split; [lia|done].
Qed.

Lemma owned_step_closed e q q' :
  step e q = Some q' -> owned e = true -> closed q = true -> closed q' = true.
Proof.
  intros H Ho Hc. destruct e; try (by eapply step_close); try done.
  cbn in H. unfold Close_step in H. repeat case_match; simplify_option_eq; try done.
  by destruct (running _); simplify_eq.
Qed.

(** C17: [Close] returns.  Take any reachable state of a closed queue whose consume
    loops have all been told to stop.  However the goroutines it joins and [Close]
    itself are scheduled from there, they take at most [remaining] steps, and as
    long as [Close] has not returned one of them can take a step: there is no
    deadlock, also when a [Start] is under way, a tick is pending or a worker
    fails.  (A handler that never returns is a step that is never taken.) *)
Theorem close_returns q es q' :
  reachable q -> closed q = true -> all_told q ->
  Forall (fun e => owned e = true) es -> steps es q = Some q' ->
  length es <= remaining q /\
  (at_close q' = CReturned \/ exists e q'', owned e = true /\ step e q' = Some q'').
Proof.
  intros Hr Hc Hs Ho H. apply shutdown_reachable_ok in Hr.
  destruct (owned_steps_rank _ _ _ Ho H Hs) as [Hl _]. split; [lia|].
  assert (closed q' = true) as Hc'.
  { clear Hl Hs Hr. revert q H Hc. induction Ho as [|e es He _ IH]; intros q H Hc; cbn in H;
      [by simplify_eq|]. destruct (step e q) as [q1|] eqn:E; [|done]. cbn in H.
    eapply IH; [done|]. by eapply owned_step_closed. }
  assert (ok q') as Hq' by (by eapply shutdown_ok_steps).
  destruct (at_close q') eqn:Ep; try (right; apply close_moves; congruence). by left.
Qed.

(** ** Examples *)

Definition one_worker : consumeOpts := applyConsumeOptions [].

(** A collector and a consume loop run when [Close] is called. *)
Definition busy : list event :=
  [ENewGC; EStartLoad 0; EStartGo 0; EGC 0 GRun;
   EConsume false one_worker; ETrack 0; EPool 0 (PWorker 0 WGo); EPool 0 (PWorker 0 WGo);
   EClose; ECloseStep; EPool 0 PWatch].
(** ... and everything winds down. *)
Definition wind_down : list event :=
  [EPool 0 (PWorker 0 (WReceived (Err ErrQueueEmpty))); EPool 0 (PWorker 0 WCtxDone);
   ECloseStep; EGC 0 GRun; EGC 0 GRun; EGC 0 (GSelect CDone); EReturn 0;
   ECloseStep; ECloseStep; ECloseStep; ECloseStep].

Lemma closed_queue_is_quiet_witness :
  exists q q', steps (busy ++ wind_down) New = Some q /\
    steps [ENewGC; EStartLoad 1; EConsume false one_worker; EStartLoad 0; EClose] q = Some q' /\
    length (collectors q') = 2 /\ length (consumers q') = 2 /\ querying q' = false.
Proof.
  destruct (steps (busy ++ wind_down) New) as [q|] eqn:E; [|by vm_compute in E].
  destruct (steps [ENewGC; EStartLoad 1; EConsume false one_worker; EStartLoad 0; EClose] q)
    as [q'|] eqn:E'; [|by vm_compute in E; simplify_eq; vm_compute in E'].
  exists q, q'. split; [done|]. split; [done|].
  assert (at_close q = CReturned) as Hp by (by vm_compute in E; simplify_eq).
  destruct (closed_queue_is_quiet q _ q' (ex_intro _ _ E) Hp E') as (_ & _ & Hq).
  split; [by vm_compute in E; simplify_eq; vm_compute in E'; simplify_eq|].
  split; [by vm_compute in E; simplify_eq; vm_compute in E'; simplify_eq|done].
Defined.

Lemma close_returns_witness :
  exists q q', steps busy New = Some q /\ querying q = true /\
    steps wind_down q = Some q' /\ at_close q' = CReturned /\ length wind_down <= remaining q.
Proof.
  destruct (steps busy New) as [q|] eqn:E; [|by vm_compute in E].
  destruct (steps wind_down q) as [q'|] eqn:E';
    [|by vm_compute in E; simplify_eq; vm_compute in E'].
  exists q, q'. split; [done|]. split; [by vm_compute in E; simplify_eq|]. split; [done|].
  assert (closed q = true) as Hc by (by vm_compute in E; simplify_eq).
  assert (all_told q) as Hs.
  { vm_compute in E. simplify_eq. repeat constructor. }
  destruct (close_returns q wind_down q' (ex_intro _ _ E) Hc Hs) as [Hl _].
  - by repeat constructor.
  - done.
  - split; [by vm_compute in E; simplify_eq; vm_compute in E'; simplify_eq|done].
Defined.

(** a [Close] call that finds the queue already closed returns at once, also
    while the first call is still joining: it can return nil with a collector of the
    queue in the middle of its queries, so a caller that closes the database handle
    next closes it under them. *)
Theorem late_close_returns_early :
  exists q, reachable q /\ late_closes q = 1 /\ querying q = true /\ at_close q <> CReturned.
Proof.
  destruct (steps (busy ++ [EClose]) New) as [q|] eqn:E; [|by vm_compute in E].
  exists q. split; [by eexists|]. vm_compute in E. by simplify_eq.
Qed.

(** A run in which no [receive] fails and no caller's context ends. *)
Definition untroubled (e : event) : bool :=
  match e with
  | EPool _ (PWorker _ (WReceived (Err _))) | EPool _ PCtxDone => false
  | _ => true
  end.

(** An orderly [Close] can make a running consume loop return [ErrQueueClosed] as
    if it had failed: [Close] sets the closed flag before it cancels the loops'
    context, and a worker that starts its next [receive] in between takes the
    [ErrQueueClosed] of [checkClosed] for an unrecoverable fetch error. *)
Theorem close_reported_as_failure :
  exists es1 q1 p es2 q2,
    steps es1 New = Some q1 /\ closed q1 = false /\ consumers q1 !! 0 = Some (LRunning p) /\
    steps es2 q1 = Some q2 /\ forallb untroubled (es1 ++ es2) = true /\
    consumers q2 !! 0 = Some (LReturned (Some ErrQueueClosed)).
Proof.
  exists [EConsume false one_worker; ETrack 0; EPool 0 (PWorker 0 WGo)]. eexists _, _.
  exists [EClose; EPool 0 (PWorker 0 WGo); EPool 0 (PWorker 0 WGo); EReturn 0]. eexists.
  split; [vm_compute; reflexivity|]. split; [reflexivity|]. split; [reflexivity|].
  split; [vm_compute; reflexivity|]. split; reflexivity.
Qed.
