(* ===== verification/Observability.v ===== *)
(** * Observability hooks ([observability.go])

    The [Tracer], [Span] and [MetricsRecorder] interfaces, the functions that call
    them behind a [recover], and the public operations with their spans and metrics.
    The other files model the operations without them and without the contexts their
    calls are made under; here the context that [StartSpan] returns is the one the rest
    of the operation runs under, as in the source.  The theorems say when nothing is
    lost by leaving both out, and which metrics each operation reports. *)

From S2P Require Import Prelude Types Tx World Config Queries Channel Publish PubSub Gc GcChannel Replay Stats Batch Consume.
From Stdlib Require Import ZArith Lia.
Local Open Scope Z_scope.

(** ** Attributes *)

(** A Go value of type [any], by its dynamic type.  [AError] and [AStringer] carry
    what the method returns, [AOther] the type's name and what [%v] prints. *)
Inductive attrValue :=
| AString (s : string) | ABool (b : bool)
| AInt (z : Z) | AInt8 (z : Z) | AInt16 (z : Z) | AInt32 (z : Z) | AInt64 (z : Z)
| AUint (z : Z) | AUint8 (z : Z) | AUint16 (z : Z) | AUint32 (z : Z) | AUint64 (z : Z)
| AFloat32 (f : spec_float) | AFloat64 (f : spec_float)
| ADuration (d : Duration)
| ATime (unix_ns offset_min : Z)
| AError (text : string) | AStringer (text : string)
| AOther (go_type text : string).

Record Attr := mkAttr { a_Key : string; a_Value : attrValue }.

Definition StringAttr (key value : string) : Attr := mkAttr key (AString value).
Definition Int64Attr (key : string) (value : Z) : Attr := mkAttr key (AInt64 value).

(** ** Code that can panic *)

Inductive outcome (A : Type) :=
| Returns (a : A)
| Panics (v : string).
#[global] Arguments Returns {A} a.
#[global] Arguments Panics {A} v.

(** A method of a third-party object with state [S]. *)
Definition method (S A : Type) : Type := S -> outcome A * S.

(** What [span.SetError] is given. *)
Inductive spanError :=
| OpError (x : err)
| HandlerError (x : herror).

(** ** The hook interfaces *)

Record Span (T : Type) := mkSpan {
  sp_End : method T unit;
  sp_SetError : spanError -> method T unit;
  sp_SetAttr : list Attr -> method T unit
}.
#[global] Arguments mkSpan {T}.
#[global] Arguments sp_End {T}.
#[global] Arguments sp_SetError {T}.
#[global] Arguments sp_SetAttr {T}.

(** [StartSpan] may return a nil span; [Ctx] is the type of contexts that are not nil. *)
Record Tracer (Ctx T : Type) := mkTracer {
  tr_StartSpan : Ctx -> string -> list Attr -> method T (Ctx * option (Span T))
}.
#[global] Arguments mkTracer {Ctx T}.
#[global] Arguments tr_StartSpan {Ctx T}.

Record MetricsRecorder (Ctx M : Type) := mkMetricsRecorder {
  RecordPublish : Ctx -> string -> Z -> method M unit;
  RecordHandle : Ctx -> string -> Duration -> method M unit;
  RecordDeliveryLatency : Ctx -> string -> Duration -> method M unit;
  RecordAck : Ctx -> string -> bool -> method M unit;
  RecordAckAfterExpired : Ctx -> string -> Z -> method M unit;
  ObserveQueueDepth : Ctx -> string -> Z -> method M unit;
  ObserveDLQSize : Ctx -> string -> Z -> method M unit;
  RecordMetadataParseError : Ctx -> string -> method M unit;
  RecordGCRun : Ctx -> string -> Duration -> Z -> Z -> option err -> method M unit;
  RecordMissedNotification : Ctx -> string -> method M unit
}.
#[global] Arguments mkMetricsRecorder {Ctx M}.
#[global] Arguments RecordPublish {Ctx M}.
#[global] Arguments RecordHandle {Ctx M}.
#[global] Arguments RecordDeliveryLatency {Ctx M}.
#[global] Arguments RecordAck {Ctx M}.
#[global] Arguments RecordAckAfterExpired {Ctx M}.
#[global] Arguments ObserveQueueDepth {Ctx M}.
#[global] Arguments ObserveDLQSize {Ctx M}.
#[global] Arguments RecordMetadataParseError {Ctx M}.
#[global] Arguments RecordGCRun {Ctx M}.
#[global] Arguments RecordMissedNotification {Ctx M}.

(** ** The observed process *)

Inductive logArg :=
| LText (s : bytes) | LString (s : string) | LUuid (u : uuid) | LInt (z : Z) | LErr (x : err).
Inductive logLevel := LevelInfo | LevelWarn | LevelError.
Record logLine := mkLogLine {
  l_level : logLevel;
  l_msg : string;
  l_args : list (string * logArg)
}.

(** The process, the states of the tracer and of the metrics recorder, the log lines
    written, and how often the clock was read. *)
Record proc (T M : Type) := mkProc {
  p_world : world;
  p_tracer : T;
  p_metrics : M;
  p_log : list logLine;
  p_reads : nat
}.
#[global] Arguments mkProc {T M}.
#[global] Arguments p_world {T M}.
#[global] Arguments p_tracer {T M}.
#[global] Arguments p_metrics {T M}.
#[global] Arguments p_log {T M}.
#[global] Arguments p_reads {T M}.

(** A program of the process that can panic. *)
Definition act (T M A : Type) : Type := oracle -> proc T M -> outcome A * proc T M.

#[export] Instance act_ret {T M} : MRet (act T M) := fun A a _ p => (Returns a, p).
#[export] Instance act_bind {T M} : MBind (act T M) := fun A B f m o p =>
  match m o p with
  | (Returns a, p') => f a o p'
  | (Panics v, p') => (Panics v, p')
  end.

(** What is registered with a queue: [WithTracer], [WithMetrics], [WithLogger]. *)
Record hooks (Ctx T M : Type) := mkHooks {
  h_tracer : option (Tracer Ctx T);
  h_metrics : option (MetricsRecorder Ctx M);
  h_logger : bool
}.
#[global] Arguments mkHooks {Ctx T M}.
#[global] Arguments h_tracer {Ctx T M}.
#[global] Arguments h_metrics {Ctx T M}.
#[global] Arguments h_logger {Ctx T M}.

(** The readings of the clock, in nanoseconds: wall time and monotonic time. *)
Record clock := mkClock { wall : nat -> Z; mono : nat -> Z }.

(** [time.Time{}], and [t.Sub(u)] for a [t] in nanoseconds and a [u] read from the
    database, saturated at the limits of [time.Duration]. *)
Definition zero_time : timestamp := -62135596800 * 1000000.
Definition IsZero (t : timestamp) : bool := t =? zero_time.
Definition time_Sub (t : Z) (u : timestamp) : Duration :=
  Z.max int64_min (Z.min int64_max (t - u * 1000)).

Section observability.
Context {Ctx T M : Type} (hk : hooks Ctx T M) (clk : clock).
(** [under ctx o]: how the server and its driver answer calls made under [ctx], which may
    be cancelled or past its deadline, where they would answer [o] without it. *)
Context (under : Ctx -> oracle -> oracle).
Abbreviation act A := (act T M A) (only parsing).

(** ** Primitives *)

(** A call into the database under a context; its error is a value. *)
Definition lift_io {A} (ctx : Ctx) (m : io A) : act (result A) := fun o p =>
  let '(r, w) := m (under ctx o) (p_world p) in
  (Returns r, mkProc w (p_tracer p) (p_metrics p) (p_log p) (p_reads p)).

(** [if err != nil { return err }] *)
Definition if_ok {A B} (m : act (result A)) (f : A -> act (result B)) : act (result B) :=
  r ← m; match r with Ok a => f a | Err x => mret (Err x) end.

Definition call_tracer {A} (f : method T A) : act A := fun _ p =>
  let '(r, t) := f (p_tracer p) in
  (r, mkProc (p_world p) t (p_metrics p) (p_log p) (p_reads p)).
Definition call_metrics {A} (f : method M A) : act A := fun _ p =>
  let '(r, m) := f (p_metrics p) in
  (r, mkProc (p_world p) (p_tracer p) m (p_log p) (p_reads p)).

(** [time.Now()], as the index of the reading, and [time.Since(start)]. *)
Definition clock_Now : act nat := fun _ p =>
  (Returns (p_reads p),
   mkProc (p_world p) (p_tracer p) (p_metrics p) (p_log p) (Datatypes.S (p_reads p))).
Definition clock_Since (start : nat) : act Duration :=
  now ← clock_Now; mret (mono clk now - mono clk start).

Definition write_log (l : logLine) : act unit := fun _ p =>
  (Returns tt, mkProc (p_world p) (p_tracer p) (p_metrics p) (p_log p ++ [l]) (p_reads p)).
Definition logWarn (msg : string) (args : list (string * logArg)) : act unit :=
  if h_logger hk then write_log (mkLogLine LevelWarn msg args) else mret tt.
Definition logError (msg : string) (args : list (string * logArg)) : act unit :=
  if h_logger hk then write_log (mkLogLine LevelError msg args) else mret tt.

(** [defer d(); body] *)
Definition deferred {A} (d : act unit) (body : act A) : act A := fun o p =>
  let '(r, p1) := body o p in
  match d o p1 with
  | (Panics v, p2) => (Panics v, p2)
  | (Returns _, p2) => (r, p2)
  end.

(** ** Calling the hooks *)

(** [fn] behind a [recover]; [init] is what the variables it assigns hold when it
    does not complete. *)
Definition safeHook {A} (name : string) (init : A) (fn : act A) : act A := fun o p =>
  match fn o p with
  | (Returns a, p') => (Returns a, p')
  | (Panics v, p') =>
      (logError "recovered panic in observability hook"
         [("hook", LString name); ("panic", LString v)] ;; mret init) o p'
  end.

Definition safeStartSpan (tr : Tracer Ctx T) (ctx : Ctx) (name : string) (attrs : list Attr) :
    act (Ctx * option (Span T)) :=
  safeHook "Tracer.StartSpan" (ctx, None) (call_tracer (tr_StartSpan tr ctx name attrs)).

Definition noopSpan : Span T :=
  mkSpan (fun t => (Returns tt, t)) (fun _ t => (Returns tt, t)) (fun _ t => (Returns tt, t)).

Definition startSpan (ctx : Ctx) (name : string) (attrs : list Attr) : act (Ctx * Span T) :=
  match h_tracer hk with
  | None => mret (ctx, noopSpan)
  | Some tr =>
      '(spanCtx, span) ← safeStartSpan tr ctx name attrs;
      match span with
      | None => mret (ctx, noopSpan)
      | Some span => mret (spanCtx, span)
      end
  end.

(** [span] is [None] for a nil span, [er] for a nil error. *)
Definition endSpan (span : option (Span T)) (er : option spanError) : act unit :=
  match span with
  | None => mret tt
  | Some span =>
      safeHook "Span.End" tt
        (match er with
         | Some x => call_tracer (sp_SetError span x)
         | None => mret tt
         end ;;
         call_tracer (sp_End span))
  end.

(** [if pq.cfg.metrics != nil { pq.safeHook(name, ...) }] *)
Definition with_metrics (name : string) (f : MetricsRecorder Ctx M -> method M unit) : act unit :=
  match h_metrics hk with
  | None => mret tt
  | Some rec => safeHook name tt (call_metrics (f rec))
  end.

Definition recordPublish (ctx : Ctx) (queue : string) (count : Z) : act unit :=
  with_metrics "MetricsRecorder.RecordPublish" (fun rec => RecordPublish rec ctx queue count).

Definition recordHandle (ctx : Ctx) (queue : string) (latency : Duration) : act unit :=
  with_metrics "MetricsRecorder.RecordHandle" (fun rec => RecordHandle rec ctx queue latency).

(** [handlerStart] is the index of a clock reading. *)
Definition recordDeliveryLatency (ctx : Ctx) (queue : string) (createdAt : timestamp)
    (handlerStart : nat) : act unit :=
  if IsZero createdAt then mret tt
  else
    let latency := Z.max (time_Sub (wall clk handlerStart) createdAt) 0 in
    with_metrics "MetricsRecorder.RecordDeliveryLatency"
      (fun rec => RecordDeliveryLatency rec ctx queue latency).

Definition recordAck (ctx : Ctx) (queue : string) (ok : bool) : act unit :=
  with_metrics "MetricsRecorder.RecordAck" (fun rec => RecordAck rec ctx queue ok).

Definition recordAckAfterExpired (ctx : Ctx) (queue : string) (n : Z) : act unit :=
  if n <=? 0 then mret tt
  else
    with_metrics "MetricsRecorder.RecordAckAfterExpired"
      (fun rec => RecordAckAfterExpired rec ctx queue n).

Definition observeQueueDepth (ctx : Ctx) (queue : string) (depth : Z) : act unit :=
  with_metrics "MetricsRecorder.ObserveQueueDepth"
    (fun rec => ObserveQueueDepth rec ctx queue depth).

Definition observeDLQSize (ctx : Ctx) (queue : string) (size : Z) : act unit :=
  with_metrics "MetricsRecorder.ObserveDLQSize" (fun rec => ObserveDLQSize rec ctx queue size).

Definition recordMetadataParseError (ctx : Ctx) (queue : string) : act unit :=
  with_metrics "MetricsRecorder.RecordMetadataParseError"
    (fun rec => RecordMetadataParseError rec ctx queue).

Definition recordGCRun (ctx : Ctx) (queue : string) (duration : Duration) (reclaimed purged : Z)
    (er : option err) : act unit :=
  with_metrics "MetricsRecorder.RecordGCRun"
    (fun rec => RecordGCRun rec ctx queue duration reclaimed purged er).

Definition recordMissedNotification (ctx : Ctx) (queue : string) : act unit :=
  with_metrics "MetricsRecorder.RecordMissedNotification"
    (fun rec => RecordMissedNotification rec ctx queue).

(** ** The operations, observed *)

Section operations.
Context `{Server} `{Decoder} (cfg : queueConfig).
(** [u.String()] of the UUID package, and the context an automatic ack runs under. *)
Context (uuid_String : uuid -> string) (detach : Ctx -> Ctx).

Definition error_of {A} (r : result A) : option spanError :=
  match r with Ok _ => None | Err x => Some (OpError x) end.
Definition when_ok {A} (r : result A) (m : act unit) : act unit :=
  match r with Ok _ => m | Err _ => mret tt end.

Definition Publish_observed (ctx : Ctx) (queueName : string) (payload : option bytes)
    (opts : list PublishOption) : act (result uuid) :=
  if_ok (lift_io ctx checkClosed) (fun _ =>
  match payload with
  | None => mret (Err ErrNilPayload)
  | Some p =>
      let o := applyPublishOptions opts in
      '(ctx, span) ← startSpan ctx "pgqueue.publish" [StringAttr "queue" queueName];
      r ← lift_io ctx (publishResolved cfg queueName p (po_messageID o) (po_metadata o));
      endSpan (Some span) (error_of r) ;;
      when_ok r (recordPublish ctx queueName 1) ;;
      mret r
  end).

Definition PublishBatch_observed (ctx : Ctx) (queueName : string) (messages : list PublishMessage) :
    act (result (list uuid)) :=
  if_ok (lift_io ctx checkClosed) (fun _ =>
  match messages with
  | [] => mret (Ok [])
  | _ =>
      if_ok (mret (validateBatchSize (Z.of_nat (length messages)))) (fun _ =>
      if_ok (lift_io ctx (resolveQueueMetadata queueName)) (fun queueMeta =>
      '(ctx, span) ← startSpan ctx "pgqueue.publish_batch" [StringAttr "queue" queueName];
      r ← lift_io ctx (publishBatchResolved cfg queueMeta messages);
      endSpan (Some span) (error_of r) ;;
      when_ok r (recordPublish ctx queueName (Z.of_nat (length messages))) ;;
      mret r))
  end).

(** The span of an operation on a receipt. *)
Definition receipt_span (ctx : Ctx) (name : string) (r : Receipt) : act (Ctx * Span T) :=
  startSpan ctx name
    [StringAttr "queue" (r_QueueName r); StringAttr "message_id" (uuid_String (r_MessageID r))].

Definition ackReceipt_observed (ctx : Ctx) (r : Receipt) : act (result unit) :=
  '(ctx, span) ← receipt_span ctx "pgqueue.ack" r;
  res ← lift_io ctx (ackReceipt r);
  endSpan (Some span) (error_of res) ;;
  when_ok res (recordAck ctx (r_QueueName r) true) ;;
  mret res.

Definition Ack_observed (ctx : Ctx) (r : Receipt) : act (result unit) :=
  if_ok (lift_io ctx checkClosed) (fun _ => ackReceipt_observed ctx r).

Definition nackReceipt_observed (ctx : Ctx) (r : Receipt) (reason : bytes) (opts : list NackOption) :
    act (result unit) :=
  '(ctx, span) ← receipt_span ctx "pgqueue.nack" r;
  res ← lift_io ctx (nackReceipt cfg r reason opts);
  endSpan (Some span) (error_of res) ;;
  when_ok res (recordAck ctx (r_QueueName r) false) ;;
  mret res.

Definition Nack_observed (ctx : Ctx) (r : Receipt) (reason : bytes) (opts : list NackOption) :
    act (result unit) :=
  if_ok (lift_io ctx checkClosed) (fun _ => nackReceipt_observed ctx r reason opts).

(** The switch of [ExtendVisibility]. *)
Definition extend_by_type (r : Receipt) (d : Duration) : io unit :=
  match r_QueueType r with
  | QueueTypeChannel => extendChannelVisibility (r_QueueName r) r d
  | QueueTypePubSub => extendTopicVisibility (r_QueueName r) (r_SubscriberID r) r d
  | QueueTypeOther _ => fail ErrReceiptMissingQueueType
  end.

Definition ExtendVisibility_observed (ctx : Ctx) (r : Receipt) (d : Duration) : act (result unit) :=
  if_ok (lift_io ctx checkClosed) (fun _ =>
  if_ok (mret (validateVisibilityTimeout d)) (fun _ =>
  '(ctx, span) ← receipt_span ctx "pgqueue.extend" r;
  res ← lift_io ctx (extend_by_type r d);
  endSpan (Some span) (error_of res) ;;
  mret res)).

Definition Stats_observed (ctx : Ctx) (queueName : string) (queueType : QueueType) :
    act (result QueueStats) :=
  if_ok (lift_io ctx (Stats cfg queueName queueType)) (fun '(stats, depth) =>
  observeQueueDepth ctx queueName depth ;;
  observeDLQSize ctx queueName (DLQCount stats) ;;
  mret (Ok stats)).

(** *** Batches

    The end of [finishBatch], after its commit; a batch that fails does not get there,
    and an empty one has nothing to report. *)
Definition expired_count (b : BatchResult) : Z :=
  Z.of_nat (length (filter (fun f => errors_Is (f_Reason f) ErrClaimExpired = true) (Failed b))).
Definition finishing (ctx : Ctx) (queueName : string) (batch : io BatchResult) :
    act (result BatchResult) :=
  if_ok (lift_io ctx batch) (fun res =>
  recordAckAfterExpired ctx queueName (expired_count res) ;;
  mret (Ok res)).

Definition ackChannelBatch_observed (ctx : Ctx) (channelName : string) (receipts : list Receipt) :=
  finishing ctx channelName (ackChannelBatch channelName receipts).
Definition ackTopicBatch_observed (ctx : Ctx) (topicName subscriberID : string)
    (receipts : list Receipt) :=
  finishing ctx topicName (ackTopicBatch topicName subscriberID receipts).
Definition nackChannelBatch_observed (ctx : Ctx) (channelName : string) (receipts : list Receipt)
    (reason : bytes) (opts : list NackOption) :=
  finishing ctx channelName (nackChannelBatch cfg channelName receipts reason opts).
Definition nackTopicBatch_observed (ctx : Ctx) (topicName subscriberID : string)
    (receipts : list Receipt) (reason : bytes) (opts : list NackOption) :=
  finishing ctx topicName (nackTopicBatch cfg topicName subscriberID receipts reason opts).

Fixpoint batch_attempts_observed (left i : nat) (done : nat -> bool)
    (attempt : act (result BatchResult)) : act (result BatchResult) :=
  r ← attempt;
  match r with
  | Ok b => mret (Ok b)
  | Err x =>
      if negb (isTransientError x) || done i then mret (Err x)
      else
        match left with
        | O => mret (Err x)
        | Datatypes.S left' => batch_attempts_observed left' (Datatypes.S i) done attempt
        end
  end.
Definition withBatchRetry_observed (done : nat -> bool) (attempt : act (result BatchResult)) :
    act (result BatchResult) :=
  batch_attempts_observed maxBatchTransientRetries 0 done attempt.

Definition ack_group_observed (ctx : Ctx) (done : nat -> bool) (k : receiptGroupKey)
    (receipts : list Receipt) : act (result BatchResult) :=
  match g_qt k with
  | QueueTypeChannel =>
      withBatchRetry_observed done (ackChannelBatch_observed ctx (g_queueName k) receipts)
  | QueueTypePubSub =>
      withBatchRetry_observed done
        (ackTopicBatch_observed ctx (g_queueName k) (g_subscriberID k) receipts)
  | QueueTypeOther _ => mret (Ok empty_batch)
  end.
Definition nack_group_observed (ctx : Ctx) (done : nat -> bool) (reason : bytes)
    (opts : list NackOption) (k : receiptGroupKey) (receipts : list Receipt) :
    act (result BatchResult) :=
  match g_qt k with
  | QueueTypeChannel =>
      withBatchRetry_observed done
        (nackChannelBatch_observed ctx (g_queueName k) receipts reason opts)
  | QueueTypePubSub =>
      withBatchRetry_observed done
        (nackTopicBatch_observed ctx (g_queueName k) (g_subscriberID k) receipts reason opts)
  | QueueTypeOther _ => mret (Ok empty_batch)
  end.

(** The loop over the groups, and the checks before it. *)
Fixpoint batch_groups_observed (run : receiptGroupKey -> list Receipt -> act (result BatchResult))
    (groups : list (receiptGroupKey * list Receipt)) : act (result (BatchResult * list err)) :=
  match groups with
  | [] => mret (Ok (empty_batch, []))
  | (k, receipts) :: groups =>
      res ← run k receipts;
      if_ok (batch_groups_observed run groups) (fun '(combined, errs) =>
      mret (Ok match res with
               | Ok b => (mkBatchResult (Succeeded b ++ Succeeded combined)
                            (Failed b ++ Failed combined), errs)
               | Err x => (combined, x :: errs)
               end))
  end.
Definition over_groups_observed (ctx : Ctx)
    (order : list (receiptGroupKey * list Receipt) -> list (receiptGroupKey * list Receipt))
    (run : receiptGroupKey -> list Receipt -> act (result BatchResult)) (rs : list Receipt) :
    act (result (BatchResult * list err)) :=
  if_ok (lift_io ctx checkClosed) (fun _ =>
  if (length rs =? 0)%nat then mret (Ok (empty_batch, []))
  else
    if_ok (mret (groupReceiptsByQueue rs)) (fun groups =>
    batch_groups_observed run (order groups))).

Definition AckBatch_observed (ctx : Ctx) order (done : nat -> bool) (rs : list Receipt) :=
  over_groups_observed ctx order (ack_group_observed ctx done) rs.
Definition NackBatch_observed (ctx : Ctx) order (done : nat -> bool) (rs : list Receipt)
    (reason : bytes) (opts : list NackOption) :=
  over_groups_observed ctx order (nack_group_observed ctx done reason opts) rs.

(** The document is jsonb, hence valid: a value that is neither an object nor null
    is what [json.Unmarshal] rejects. *)
Definition parseMetadataJSON_observed (ctx : Ctx) (queue : string) (s : option jval) :
    act (option jmap) :=
  match s with
  | None | Some JNull => mret None
  | Some (JObject m) => mret (Some m)
  | Some _ =>
      logError "failed to parse message metadata; dropping it" [] ;;
      recordMetadataParseError ctx queue ;;
      mret None
  end.

(** [partial] is what [doCollectQueue] has counted, purged and reclaimed, when it fails. *)
Definition collectQueue_observed (ctx : Ctx) (gc : GarbageCollectorConfig) (queue : queueMetadata)
    (partial : Z * Z) : act (result unit) :=
  start ← clock_Now;
  r ← lift_io ctx (doCollectQueue cfg gc queue);
  elapsed ← clock_Since start;
  let '(purged, reclaimed) := match r with Ok c => c | Err _ => partial end in
  let er := match r with Ok _ => None | Err x => Some x end in
  recordGCRun ctx (q_QueueName queue) elapsed reclaimed purged er ;;
  mret (match r with Ok _ => Ok tt | Err x => Err x end).

(** *** Dispatching to a handler *)

Definition signalAckAfterExpired (ctx : Ctx) (receipt : Receipt) (msg : Message) (op : string) :
    act unit :=
  recordAckAfterExpired ctx (r_QueueName receipt) 1 ;;
  logWarn ("claim expired before auto-" +:+ op +:+ "; message will redeliver")
    [("queue", LString (r_QueueName receipt)); ("message_id", LUuid (m_ID msg));
     ("retry_count", LInt (m_RetryCount msg))].

(** What is logged of a recovered panic, besides the stack. *)
Definition panic_value (out : handlerOutcome) : option bytes :=
  match out with
  | HReturn _ => None
  | HPanicError x => Some (Error x)
  | HPanicValue text => Some text
  end.

Definition callHandler_observed (ctx : Ctx) (h : Handler) (msg : Message) : act (option herror) :=
  fun o p =>
  let '(out, w) := h msg (under ctx o) (p_world p) in
  let p := mkProc w (p_tracer p) (p_metrics p) (p_log p) (p_reads p) in
  (match panic_value out with
   | Some v =>
       logError "recovered panic in message handler"
         [("message_id", LUuid (m_ID msg)); ("panic", LText v)]
   | None => mret tt
   end ;;
   mret (recovered out)) o p.

(** The switch on the error of the automatic ack or nack. *)
Definition settle_outcome (ctx : Ctx) (receipt : Receipt) (msg : Message) (op text : string)
    (r : result unit) : act unit :=
  match r with
  | Ok _ => mret tt
  | Err x =>
      if errors_Is x ErrClaimExpired then signalAckAfterExpired ctx receipt msg op
      else
        logError text [("queue", LString (r_QueueName receipt)); ("message_id", LUuid (m_ID msg));
                       ("error", LErr x)]
  end.

Definition dispatchToHandler_observed (ctx : Ctx) (h : Handler) (msg : Message) : act unit :=
  let receipt := Message_Receipt msg in
  '(ctx, span) ← startSpan ctx "pgqueue.consume"
     [StringAttr "queue" (r_QueueName receipt); StringAttr "message_id" (uuid_String (m_ID msg))];
  start ← clock_Now;
  herr ← callHandler_observed ctx h msg;
  elapsed ← clock_Since start;
  recordHandle ctx (r_QueueName receipt) elapsed ;;
  recordDeliveryLatency ctx (r_QueueName receipt) (m_CreatedAt msg) start ;;
  endSpan (Some span) (HandlerError <$> herr) ;;
  let ackCtx := detach ctx in
  match herr with
  | Some x =>
      r ← nackReceipt_observed ackCtx receipt (Error x) (nackOptionsForHandlerError x);
      settle_outcome ackCtx receipt msg "nack" "failed to nack message after handler error" r
  | None =>
      r ← ackReceipt_observed ackCtx receipt;
      settle_outcome ackCtx receipt msg "ack" "failed to ack message after successful handler" r
  end.

(** *** Replay

    These call the span's methods directly, not through [safeHook]. *)

Definition replay_span (ctx : Ctx) (queueName replay_type : string) : act (Ctx * Span T) :=
  startSpan ctx "pgqueue.replay"
    [StringAttr "queue" queueName; StringAttr "replay_type" replay_type].

(** [if err != nil { span.SetError(err); return ..., err }] *)
Definition failing {A B} (span : Span T) (m : act (result A)) (f : A -> act (result B)) :
    act (result B) :=
  r ← m;
  match r with
  | Ok a => f a
  | Err x => call_tracer (sp_SetError span (OpError x)) ;; mret (Err x)
  end.

Definition ReplayFrom_observed (ctx : Ctx) (queueName : string) (queueType : QueueType)
    (since : timestamp) (opts : ReplayOptions) : act (result Z) :=
  if_ok (lift_io ctx checkClosed) (fun _ =>
  '(ctx, span) ← replay_span ctx queueName "timestamp";
  deferred (call_tracer (sp_End span))
   (failing span (mret (validateReplayOpts opts)) (fun _ =>
    failing span (lift_io ctx (getReplayQueueMetadata queueType queueName)) (fun metadata =>
    let tableName := q_TableName metadata in
    if DryRun opts then
      if_ok (lift_io ctx (countReplayableMessages tableName queueType since)) (fun count =>
      mret (Ok (if (0 <? Limit opts) && (Limit opts <? count) then Limit opts else count)))
    else
      failing span
        (lift_io ctx (w ← get_world;
                  executeReplayFrom (replay_fuel tableName w) queueName tableName queueType since
                    opts nil_uuid 0))
        (fun count => mret (Ok count)))))).

Definition ReplayMessage_observed (ctx : Ctx) (queueName : string) (queueType : QueueType)
    (messageID : uuid) (opts : ReplayOptions) : act (result unit) :=
  if_ok (lift_io ctx checkClosed) (fun _ =>
  '(ctx, span) ← replay_span ctx queueName "message_id";
  deferred (call_tracer (sp_End span))
   (failing span
      (mret (if bool_decide (queueType = QueueTypePubSub) then Err ErrReplayNotSupported else Ok tt))
    (fun _ =>
    failing span (mret (validateReplayOpts opts)) (fun _ =>
    failing span (lift_io ctx (getReplayQueueMetadata queueType queueName)) (fun metadata =>
    if DryRun opts then lift_io ctx (checkMessageExists (q_TableName metadata) messageID)
    else
      failing span
        (lift_io ctx (executeReplayMessage queueName (q_TableName metadata) queueType messageID opts))
        (fun _ => mret (Ok tt))))))).

(** The same for [ReplayDLQ], which returns its error beside a result. *)
Definition failing_dlq {A} (span : Span T) (m : act (result A))
    (f : A -> act (result (ReplayDLQResult * option err))) :
    act (result (ReplayDLQResult * option err)) :=
  r ← m;
  match r with
  | Ok a => f a
  | Err x =>
      call_tracer (sp_SetError span (OpError x)) ;; mret (Ok (mkReplayDLQResult 0 0, Some x))
  end.

Definition ReplayDLQ_observed (ctx : Ctx) (queueName : string) (queueType : QueueType)
    (opts : ReplayOptions) : act (result (ReplayDLQResult * option err)) :=
  let none := mkReplayDLQResult 0 0 in
  c ← lift_io ctx checkClosed;
  match c with
  | Err x => mret (Ok (none, Some x))
  | Ok _ =>
      '(ctx, span) ← replay_span ctx queueName "dlq";
      deferred (call_tracer (sp_End span))
       (failing_dlq span (mret (validateReplayOpts opts)) (fun _ =>
        failing_dlq span (lift_io ctx (getReplayQueueMetadata queueType queueName)) (fun metadata =>
        let tableName := q_TableName metadata in
        if_ok (lift_io ctx (w ← get_world;
                 executeReplayDLQ (replay_fuel tableName w) cfg queueName tableName queueType opts
                   (resolveMaxRetries cfg metadata) (DryRun opts) nil_uuid none))
        (fun '(result, er) =>
         match er with
         | Some x =>
             call_tracer (sp_SetError span (OpError x)) ;;
             mret (Ok (if DryRun opts then none else result, Some x))
         | None => mret (Ok (result, None))
         end))))
  end.

End operations.
End observability.

(** ** What the recorder is told *)

(** One call of a [MetricsRecorder] method. *)
Inductive event :=
| EvPublish (queue : string) (count : Z)
| EvHandle (queue : string) (latency : Duration)
| EvDeliveryLatency (queue : string) (latency : Duration)
| EvAck (queue : string) (ok : bool)
| EvAckAfterExpired (queue : string) (n : Z)
| EvQueueDepth (queue : string) (depth : Z)
| EvDLQSize (queue : string) (size : Z)
| EvMetadataParseError (queue : string)
| EvGCRun (queue : string) (duration : Duration) (reclaimed purged : Z) (er : option err)
| EvMissedNotification (queue : string).

Definition record_event {Ctx M} (rec : MetricsRecorder Ctx M) (ctx : Ctx) (e : event) :
    method M unit :=
  match e with
  | EvPublish q n => RecordPublish rec ctx q n
  | EvHandle q d => RecordHandle rec ctx q d
  | EvDeliveryLatency q d => RecordDeliveryLatency rec ctx q d
  | EvAck q ok => RecordAck rec ctx q ok
  | EvAckAfterExpired q n => RecordAckAfterExpired rec ctx q n
  | EvQueueDepth q n => ObserveQueueDepth rec ctx q n
  | EvDLQSize q n => ObserveDLQSize rec ctx q n
  | EvMetadataParseError q => RecordMetadataParseError rec ctx q
  | EvGCRun q d r p er => RecordGCRun rec ctx q d r p er
  | EvMissedNotification q => RecordMissedNotification rec ctx q
  end.

(** The recorder after the calls [l], each of which may have panicked. *)
Definition play {Ctx T M} (hk : hooks Ctx T M) (l : list (Ctx * event)) (m : M) : M :=
  match h_metrics hk with
  | None => m
  | Some rec => fold_left (fun m x => (record_event rec x.1 x.2 m).2) l m
  end.

(** ** Lemmas *)

Section lemmas.
Context {Ctx T M : Type} (hk : hooks Ctx T M) (clk : clock).
Context (under : Ctx -> oracle -> oracle) (detach : Ctx -> Ctx).
Implicit Types (p : proc T M) (evs : list event).

(** [p'] is reached from [p] with world [w], the calls [evs] of the recorder and [k]
    reads of the clock. *)
Definition after p (w : world) evs (k : nat) p' : Prop :=
  p_world p' = w /\ p_reads p' = (p_reads p + k)%nat /\
  exists l, l.*2 = evs /\ p_metrics p' = play hk l (p_metrics p).

(** [m] does not panic and ends in [Q]. *)
Definition wpa {A} (o : oracle) p (m : act T M A) (Q : A -> proc T M -> Prop) : Prop :=
  match m o p with
  | (Returns a, p') => Q a p'
  | (Panics _, _) => False
  end.

#[local] Arguments wpa : simpl never.

Lemma play_app l1 l2 m : play hk (l1 ++ l2) m = play hk l2 (play hk l1 m).
Proof. unfold play. case_match; [|done]. apply fold_left_app. Qed.

Lemma after_refl p : after p (p_world p) [] 0 p.
Proof.
  unfold after. rewrite Nat.add_0_r. do 2 (split; [done|]). exists []. split; [done|].
  unfold play. by case_match.
Qed.

Lemma after_trans p p1 p2 w1 w2 e1 e2 k1 k2 :
  after p w1 e1 k1 p1 -> after p1 w2 e2 k2 p2 -> after p w2 (e1 ++ e2) (k1 + k2) p2.
Proof.
  intros (H1 & H2 & l1 & H3 & H4) (H5 & H6 & l2 & H7 & H8). unfold after.
  split; [done|]. split; [lia|]. exists (l1 ++ l2). rewrite fmap_app, play_app, H3, H7, <-H4.
  done.
Qed.

(** [chain H1 H2] extends the run [H1] by the run [H2]. *)
Ltac chain H1 H2 :=
  try rewrite (proj1 H1) in H2;
  let H := fresh in
  pose proof (after_trans _ _ _ _ _ _ _ _ _ H1 H2) as H; clear H1 H2; rename H into H1;
  cbn [app Nat.add] in H1; rewrite ?app_nil_r in H1.

Lemma wpa_ret {A} o p (a : A) Q : Q a p -> wpa o p (mret a) Q.
Proof. done. Qed.

Lemma wpa_bind {A B} o p (m : act T M A) (f : A -> act T M B) Q :
  wpa o p m (fun a p' => wpa o p' (f a) Q) -> wpa o p (m ≫= f) Q.
Proof. unfold wpa, mbind, act_bind. by destruct (m o p) as [[a|v] p']. Qed.

Lemma wpa_mono {A} o p (m : act T M A) (Q Q' : A -> proc T M -> Prop) :
  wpa o p m Q -> (forall a p', Q a p' -> Q' a p') -> wpa o p m Q'.
Proof. unfold wpa. destruct (m o p) as [[a|v] p']; auto. Qed.

Lemma wpa_lift {A} o p ctx (m : io A) Q :
  (forall p', after p (m (under ctx o) (p_world p)).2 [] 0 p' -> Q (m (under ctx o) (p_world p)).1 p') ->
  wpa o p (lift_io under ctx m) Q.
Proof.
  unfold wpa, lift_io. destruct (m (under ctx o) (p_world p)) as [r w]. intros HQ. apply HQ.
  split; [done|]. cbn. rewrite Nat.add_0_r. split; [done|]. exists []. split; [done|].
  unfold play. by case_match.
Qed.

Lemma wpa_Now o p Q :
  (forall p', after p (p_world p) [] 1 p' -> Q (p_reads p) p') -> wpa o p clock_Now Q.
Proof.
  intros HQ. apply HQ. split; [done|]. cbn. split; [lia|]. exists []. split; [done|].
  unfold play. by case_match.
Qed.

Lemma wpa_Since o p start Q :
  (forall p', after p (p_world p) [] 1 p' -> Q (mono clk (p_reads p) - mono clk start) p') ->
  wpa o p (clock_Since clk start) Q.
Proof. intros HQ. apply wpa_bind, wpa_Now. intros p' Ha. apply wpa_ret. by apply HQ. Qed.

(** Steps that neither touch the database nor call the recorder. *)
Definition silent {A} (m : act T M A) : Prop :=
  forall o p, wpa o p m (fun _ p' => after p (p_world p) [] 0 p').

Lemma silent_bind {A B} (m : act T M A) (f : A -> act T M B) :
  silent m -> (forall a, silent (f a)) -> silent (m ≫= f).
Proof.
  intros Hm Hf o p. apply wpa_bind. eapply wpa_mono; [apply Hm|]. cbv beta. intros a p1 H1.
  eapply wpa_mono; [apply Hf|]. cbv beta. intros b p2 H2. chain H1 H2. exact H1.
Qed.

Lemma silent_ret {A} (a : A) : silent (mret a : act T M A).
Proof. intros o p. apply wpa_ret, after_refl. Qed.

Lemma after_same p w t lg : w = p_world p -> after p w [] 0 (mkProc w t (p_metrics p) lg (p_reads p)).
Proof.
  intros ->. split; [done|]. cbn. split; [lia|]. exists []. split; [done|].
  unfold play. by case_match.
Qed.

Lemma silent_logWarn msg args : silent (logWarn hk msg args).
Proof. intros o p. unfold logWarn. destruct (h_logger hk); [by apply after_same|apply after_refl]. Qed.
Lemma silent_logError msg args : silent (logError hk msg args).
Proof. intros o p. unfold logError. destruct (h_logger hk); [by apply after_same|apply after_refl]. Qed.

(** A recovered call of the tracer is silent whatever it does. *)
Lemma silent_safeHook {A} name (init : A) (fn : act T M A) :
  (forall o p, after p (p_world p) [] 0 (fn o p).2) -> silent (safeHook hk name init fn).
Proof.
  intros Hfn o p. unfold wpa, safeHook. specialize (Hfn o p).
  destruct (fn o p) as [[a|v] p1]; [done|]. cbn in Hfn.
  match goal with |- match ?m o p1 with _ => _ end =>
    change (wpa o p1 m (fun _ p' => after p (p_world p) [] 0 p')) end.
  eapply wpa_mono; [apply silent_bind; [apply silent_logError|intros _; apply silent_ret]|].
  cbn. intros _ p2 Hl. chain Hfn Hl. exact Hfn.
Qed.

Lemma tracer_after {A} (f : method T A) o p : after p (p_world p) [] 0 (call_tracer f o p).2.
Proof. unfold call_tracer. destruct (f _) as [r t]. by apply after_same. Qed.

Lemma silent_startSpan ctx name attrs : silent (startSpan hk ctx name attrs).
Proof.
  unfold startSpan. destruct (h_tracer hk) as [tr|]; [|apply silent_ret].
  apply silent_bind.
  - apply silent_safeHook. intros o p. apply tracer_after.
  - intros [c [sp|]]; apply silent_ret.
Qed.

(** [c] is [ctx] itself, or the context the tracer returned with a span under [ctx]. *)
Definition given (ctx c : Ctx) : Prop :=
  c = ctx \/ exists tr name attrs t span t', h_tracer hk = Some tr /\
    tr_StartSpan tr ctx name attrs t = (Returns (c, Some span), t').

(** Calls under the contexts the tracer returns are answered like calls under the ones it
    was given, also once both are detached from their cancellation: a context that only
    carries the span besides what it inherits. *)
Definition inherits : Prop := forall ctx c, given ctx c ->
  under c = under ctx /\ under (detach c) = under (detach ctx).

Lemma startSpan_given ctx name attrs o p c span p' :
  startSpan hk ctx name attrs o p = (Returns (c, span), p') -> given ctx c.
Proof.
  unfold startSpan. destruct (h_tracer hk) as [tr|] eqn:Et; [|intros [= <- _ _]; by left].
  unfold mbind, act_bind, safeStartSpan, safeHook, call_tracer.
  destruct (tr_StartSpan tr ctx name attrs (p_tracer p)) as [[[c0 [sp|]]|v] t'] eqn:E.
  - intros [= <- _ _]. right. eauto 10.
  - intros [= <- _ _]. by left.
  - unfold logError, write_log, mret, act_ret, mbind, act_bind. destruct (h_logger hk);
      intros [= <- _ _]; by left.
Qed.

(** A start of a span under [ctx]. *)
Definition starts (ctx : Ctx) (start : act T M (Ctx * Span T)) : Prop :=
  silent start /\ forall o p c span p', start o p = (Returns (c, span), p') -> given ctx c.

Lemma startSpan_starts ctx name attrs : starts ctx (startSpan hk ctx name attrs).
Proof. split; [apply silent_startSpan|apply startSpan_given]. Qed.

Lemma wpa_starts o p ctx start (Q : Ctx * Span T -> proc T M -> Prop) :
  starts ctx start ->
  (forall c span p', after p (p_world p) [] 0 p' -> given ctx c -> Q (c, span) p') -> wpa o p start Q.
Proof.
  intros [Hs Hg] HQ. specialize (Hs o p). unfold wpa in *. specialize (Hg o p).
  destruct (start o p) as [[[c span]|v] p1]; [|done]. apply HQ; [done|by eapply Hg].
Qed.

Lemma silent_endSpan sp er : silent (endSpan hk sp er).
Proof.
  unfold endSpan. destruct sp as [sp|]; [|apply silent_ret]. apply silent_safeHook. intros o p.
  destruct er as [x|]; [|apply tracer_after]. unfold mbind, act_bind.
  pose proof (tracer_after (sp_SetError sp x) o p) as H1.
  destruct (call_tracer (sp_SetError sp x) o p) as [[a|v] p1]; [|done]. cbn in H1.
  pose proof (tracer_after (sp_End sp) o p1) as H2. chain H1 H2. exact H1.
Qed.

(** A guarded call of the recorder is that call. *)
Lemma wpa_with_metrics o p name ctx e (f : MetricsRecorder Ctx M -> method M unit) Q :
  (forall rec m, f rec m = record_event rec ctx e m) ->
  (forall p', after p (p_world p) [e] 0 p' -> Q tt p') ->
  wpa o p (with_metrics hk name f) Q.
Proof.
  intros Hf HQ. unfold with_metrics. destruct (h_metrics hk) as [rec|] eqn:Em.
  - unfold wpa, safeHook, call_metrics. rewrite Hf.
    assert (forall lg, after p (p_world p) [e] 0
      (mkProc (p_world p) (p_tracer p) (record_event rec ctx e (p_metrics p)).2 lg (p_reads p)))
      as Ha.
    { intros lg. split; [done|]. cbn. split; [lia|]. exists [(ctx, e)]. split; [done|].
      unfold play. rewrite Em. done. }
    destruct (record_event rec ctx e (p_metrics p)) as [[[]|v] m]; cbn in Ha; [by apply HQ|].
    unfold logError, write_log, mret, act_ret, mbind, act_bind. destruct (h_logger hk); by apply HQ.
  - apply HQ. split; [done|]. split; [lia|]. exists [(ctx, e)]. split; [done|].
    unfold play. by rewrite Em.
Qed.

(** [m] never panics and reports [ev r] when its result is [r], whatever the tracer does;
    and when the tracer's contexts inherit, it behaves like [n] under [ctx]. *)
Definition mirrors {A} (ctx : Ctx) (m : act T M (result A)) (n : io A) (ev : result A -> list event) :
    Prop :=
  forall o p, wpa o p m (fun r p' => exists w, after p w (ev r) 0 p' /\
    (inherits -> n (under ctx o) (p_world p) = (r, w))).

Definition nothing {A} : result A -> list event := fun _ => [].
(** [e] on success. *)
Definition on_success {A} (e : A -> list event) : result A -> list event := fun r =>
  match r with Ok a => e a | Err _ => [] end.

Lemma on_success_nil {A} (r : result A) : on_success (fun _ => []) r = [].
Proof. by destruct r. Qed.

Lemma mirrors_lift {A} ctx (n : io A) : mirrors ctx (lift_io under ctx n) n nothing.
Proof.
  intros o p. apply wpa_lift. intros p' Ha. eexists. split; [exact Ha|]. intros _. by destruct (n _ _).
Qed.

Lemma mirrors_ret {A} ctx (r : result A) : mirrors ctx (mret r) (from_result r) nothing.
Proof. intros o p. exists (p_world p). split; [apply after_refl|done]. Qed.

Lemma mirrors_if_ok {A B} ctx (m : act T M (result A)) n (f : A -> act T M (result B)) (g : A -> io B) e :
  mirrors ctx m n nothing -> (forall a, mirrors ctx (f a) (g a) (on_success e)) ->
  mirrors ctx (if_ok m f) (n ≫= g) (on_success e).
Proof.
  intros Hm Hf o p. apply wpa_bind. eapply wpa_mono; [apply Hm|]. cbv beta. intros r p1 (w1 & H1 & E1).
  unfold mbind at 1, io_bind. destruct r as [a|x].
  - eapply wpa_mono; [apply Hf|]. cbv beta. intros r p2 (w2 & H2 & E2). exists w2.
    split; [apply (after_trans _ _ _ _ _ [] _ 0 0 H1 H2)|]. intros Hi. rewrite E1 by done.
    rewrite <-(proj1 H1). by apply E2.
  - exists w1. split; [exact H1|]. intros Hi. by rewrite E1.
Qed.

(** A span around [n]. *)
Lemma wpa_spanned {A B} o p ctx (start : act T M (Ctx * Span T)) (n : io A)
    (k : Ctx -> result A -> act T M B) Q :
  starts ctx start ->
  (forall c r w p', after p w [] 0 p' -> (inherits -> n (under ctx o) (p_world p) = (r, w)) ->
     wpa o p' (k c r) Q) ->
  wpa o p ('(c, span) ← start; r ← lift_io under c n; endSpan hk (Some span) (error_of r) ;; k c r) Q.
Proof.
  intros Hs Hk. apply wpa_bind. apply (wpa_starts _ _ ctx); [done|]. intros c span p1 H1 Hg.
  apply wpa_bind, wpa_lift. intros p2 H2. rewrite (proj1 H1) in *.
  apply wpa_bind. eapply wpa_mono; [apply silent_endSpan|]. cbv beta. intros _ p3 H3.
  rewrite (proj1 H2) in H3. eapply Hk.
  - apply (after_trans _ _ _ _ _ [] [] 0 0 H1 (after_trans _ _ _ _ _ [] [] 0 0 H2 H3)).
  - intros Hi. destruct (Hi _ _ Hg) as [-> _]. by destruct (n _ _).
Qed.

(** ... with a call of the recorder when it succeeds. *)
Lemma mirrors_spanned {A} ctx (start : act T M (Ctx * Span T)) (n : io A)
    (f : Ctx -> act T M unit) e :
  starts ctx start ->
  (forall ctx o p, wpa o p (f ctx) (fun _ p' => after p (p_world p) e 0 p')) ->
  mirrors ctx ('(c, span) ← start; r ← lift_io under c n; endSpan hk (Some span) (error_of r) ;;
           when_ok r (f c) ;; mret r) n (on_success (fun _ => e)).
Proof.
  intros Hs Hf o p. apply (wpa_spanned _ _ ctx); [done|]. intros c r w p1 H1 E. apply wpa_bind.
  destruct r as [a|x]; cbn; [|by exists w].
  eapply wpa_mono; [apply Hf|]. cbv beta. intros _ p2 H2. exists w.
  chain H1 H2. split; [exact H1|exact E].
Qed.

(** A call of the recorder. *)
Ltac recorded := intros; eapply wpa_with_metrics; [|intros; eassumption]; intros; reflexivity.

Section operations.
Context `{Server} `{Decoder} (cfg : queueConfig) (uuid_String : uuid -> string).

Lemma Publish_mirrors ctx name payload opts :
  mirrors ctx (Publish_observed hk under cfg ctx name payload opts) (Publish cfg name payload opts)
    (on_success (fun _ => [EvPublish name 1])).
Proof.
  apply mirrors_if_ok; [apply mirrors_lift|]. intros _. destruct payload as [pl|].
  - apply mirrors_spanned; [apply startSpan_starts|recorded].
  - intros o p. exists (p_world p). split; [apply after_refl|done].
Qed.

Lemma ackReceipt_mirrors ctx r :
  mirrors ctx (ackReceipt_observed hk under uuid_String ctx r) (ackReceipt r)
    (on_success (fun _ => [EvAck (r_QueueName r) true])).
Proof. apply mirrors_spanned; [apply startSpan_starts|recorded]. Qed.

Lemma nackReceipt_mirrors ctx r reason opts :
  mirrors ctx (nackReceipt_observed hk under cfg uuid_String ctx r reason opts)
    (nackReceipt cfg r reason opts) (on_success (fun _ => [EvAck (r_QueueName r) false])).
Proof. apply mirrors_spanned; [apply startSpan_starts|recorded]. Qed.

Lemma ExtendVisibility_mirrors ctx r d :
  mirrors ctx (ExtendVisibility_observed hk under uuid_String ctx r d) (ExtendVisibility r d)
    (on_success (fun _ => [])).
Proof.
  apply mirrors_if_ok; [apply mirrors_lift|]. intros _.
  apply mirrors_if_ok; [apply mirrors_ret|]. intros _ o p.
  apply (wpa_spanned _ _ ctx); [apply startSpan_starts|]. intros c res w p1 H1 E. apply wpa_ret.
  exists w. split; [|exact E]. rewrite on_success_nil. exact H1.
Qed.

Lemma PublishBatch_mirrors ctx name ms :
  mirrors ctx (PublishBatch_observed hk under cfg ctx name ms) (PublishBatch cfg name ms)
    (on_success (fun _ => if ms is [] then [] else [EvPublish name (Z.of_nat (length ms))])).
Proof.
  apply mirrors_if_ok; [apply mirrors_lift|]. intros _. destruct ms as [|m ms].
  - intros o p. exists (p_world p). split; [apply after_refl|done].
  - apply mirrors_if_ok; [apply mirrors_ret|]. intros _.
    apply mirrors_if_ok; [apply mirrors_lift|]. intros meta.
    apply mirrors_spanned; [apply startSpan_starts|recorded].
Qed.

Lemma Ack_mirrors ctx r :
  mirrors ctx (Ack_observed hk under uuid_String ctx r) (Ack r)
    (on_success (fun _ => [EvAck (r_QueueName r) true])).
Proof. apply mirrors_if_ok; [apply mirrors_lift|]. intros _. apply ackReceipt_mirrors. Qed.

Lemma Nack_mirrors ctx r reason opts :
  mirrors ctx (Nack_observed hk under cfg uuid_String ctx r reason opts) (Nack cfg r reason opts)
    (on_success (fun _ => [EvAck (r_QueueName r) false])).
Proof. apply mirrors_if_ok; [apply mirrors_lift|]. intros _. apply nackReceipt_mirrors. Qed.

(** *** Batches

    They start no span: everything runs under the caller's context. *)

(** [m] does what [n] does under [ctx] and reports [ev r] when the result is [r]. *)
Definition reports {A} (ctx : Ctx) (m : act T M (result A)) (n : io A) (ev : result A -> list event) :
    Prop :=
  forall o p, wpa o p m (fun r p' =>
    r = (n (under ctx o) (p_world p)).1 /\ after p (n (under ctx o) (p_world p)).2 (ev r) 0 p').

(** Negative counts are not reported. *)
Definition expired_event (queue : string) (n : Z) : list event :=
  if n <=? 0 then [] else [EvAckAfterExpired queue n].

Lemma wpa_recordAckAfterExpired o p ctx queue n Q :
  (forall p', after p (p_world p) (expired_event queue n) 0 p' -> Q tt p') ->
  wpa o p (recordAckAfterExpired hk ctx queue n) Q.
Proof.
  unfold recordAckAfterExpired, expired_event. destruct (n <=? 0); intros HQ.
  - apply HQ, after_refl.
  - eapply wpa_with_metrics; [|exact HQ]. intros. reflexivity.
Qed.

Definition expired_events (queue : string) : result BatchResult -> list event :=
  on_success (fun b => expired_event queue (expired_count b)).

Lemma finishing_reports ctx name batch :
  reports ctx (finishing hk under ctx name batch) batch (expired_events name).
Proof.
  intros o p. apply wpa_bind, wpa_lift. intros p1 H1.
  destruct (batch (under ctx o) (p_world p)) as [[b|x] w]; cbn in *; [|done].
  apply wpa_bind, wpa_recordAckAfterExpired. intros p2 H2. split; [done|].
  chain H1 H2. exact H1.
Qed.

(** Of several attempts only the last one reports. *)
Lemma withBatchRetry_reports ctx done m n queue :
  reports ctx m n (expired_events queue) ->
  reports ctx (withBatchRetry_observed done m) (withBatchRetry done n) (expired_events queue).
Proof.
  intros Hm. unfold withBatchRetry_observed, withBatchRetry. generalize maxBatchTransientRetries, 0%nat.
  intros left. induction left as [|left IH]; intros i o p; cbn [batch_attempts_observed batch_attempts];
    apply wpa_bind; (eapply wpa_mono; [apply Hm|]); cbv beta; intros r p1 [-> H1];
    unfold mbind, io_bind, try_io; destruct (n (under ctx o) (p_world p)) as [[b|x] w]; cbn in H1 |- *;
    try done; destruct (negb (isTransientError x) || done i); try done.
  eapply wpa_mono; [apply IH|]. cbv beta. intros r p2 [-> H2]. rewrite (proj1 H1) in *.
  split; [done|]. apply (after_trans _ _ _ _ _ [] _ 0 0 H1 H2).
Qed.

Lemma ack_group_reports ctx done k l :
  reports ctx (ack_group_observed hk under ctx done k l) (ack_group done k l) (expired_events (g_queueName k)).
Proof.
  unfold ack_group_observed, ack_group. destruct (g_qt k).
  1, 2: apply withBatchRetry_reports, finishing_reports.
  intros o p. split; [done|apply after_refl].
Qed.
Lemma nack_group_reports ctx done reason opts k l :
  reports ctx (nack_group_observed hk under cfg ctx done reason opts k l)
    (nack_group cfg done reason opts k l) (expired_events (g_queueName k)).
Proof.
  unfold nack_group_observed, nack_group. destruct (g_qt k).
  1, 2: apply withBatchRetry_reports, finishing_reports.
  intros o p. split; [done|apply after_refl].
Qed.

(** The expired receipts of a queue, in a result and as the recorder was told. *)
Definition expired_of (queue : string) (b : BatchResult) : Z :=
  Z.of_nat (length (filter (fun f => errors_Is (f_Reason f) ErrClaimExpired = true /\
                                     r_QueueName (f_Receipt f) = queue) (Failed b))).
Definition told_expired (queue : string) (evs : list event) : Z :=
  foldr (fun e acc => match e with
                      | EvAckAfterExpired q n => if bool_decide (q = queue) then n + acc else acc
                      | _ => acc
                      end) 0 evs.
Definition only_expired (evs : list event) : Prop :=
  Forall (fun e => exists q n, e = EvAckAfterExpired q n /\ 0 < n) evs.

(** [m] does what [n] does under [ctx], and the recorder is told of each queue's expired
    receipts, those the result lists as failed for that reason. *)
Definition counts_expired (ctx : Ctx) (m : act T M (result (BatchResult * list err)))
    (n : io (BatchResult * list err)) : Prop :=
  forall o p, wpa o p m (fun r p' => exists evs,
    r = (n (under ctx o) (p_world p)).1 /\ after p (n (under ctx o) (p_world p)).2 evs 0 p' /\
    only_expired evs /\
    forall queue, told_expired queue evs = match r with Ok (b, _) => expired_of queue b | Err _ => 0 end).

Lemma told_expired_app queue l1 l2 :
  told_expired queue (l1 ++ l2) = told_expired queue l1 + told_expired queue l2.
Proof. unfold told_expired. induction l1 as [|[] l1 IH]; cbn; try done. case_bool_decide; [|done]. rewrite IH. lia. Qed.

Lemma only_expired_event queue n : only_expired (expired_event queue n).
Proof.
  unfold expired_event. destruct (Z.leb_spec n 0); constructor; [|constructor]. by eexists _, _.
Qed.

Lemma told_expired_group queue name b :
  Forall (fun f => r_QueueName (f_Receipt f) = name) (Failed b) ->
  told_expired queue (expired_event name (expired_count b)) = expired_of queue b.
Proof.
  intros Hf. assert (told_expired queue (expired_event name (expired_count b)) =
    if bool_decide (name = queue) then expired_count b else 0) as ->.
  { unfold expired_event. destruct (Z.leb_spec (expired_count b) 0).
    - unfold expired_count in *. cbn. case_bool_decide; lia.
    - cbn. case_bool_decide; lia. }
  unfold expired_count, expired_of. case_bool_decide as Hq.
  - do 2 f_equal. rewrite Forall_forall in Hf. subst name.
    apply filter_iff_in. intros f Hin. split; [|tauto]. intros ?. split; [done|by apply Hf].
  - rewrite filter_drop; [done|]. intros f Hin [_ Hn]. rewrite Forall_forall in Hf. apply Hq.
    by rewrite <-(Hf f Hin).
Qed.

Lemma expired_of_app queue s1 f1 s2 f2 :
  expired_of queue (mkBatchResult (s1 ++ s2) (f1 ++ f2)) =
    expired_of queue (mkBatchResult s1 f1) + expired_of queue (mkBatchResult s2 f2).
Proof. unfold expired_of. cbn. rewrite filter_app, length_app. lia. Qed.

Lemma batch_groups_ok run groups o w : exists r w', batch_groups run groups o w = (Ok r, w').
Proof.
  revert w. induction groups as [|[k l] groups IH]; intros w; [by eexists _, _|].
  cbn [batch_groups]. unfold mbind, io_bind, try_io. destruct (run k l o w) as [res w1].
  destruct (IH w1) as ([b errs] & w' & ->). by eexists _, _.
Qed.

Lemma batch_groups_count ctx runo run groups :
  (forall k l, reports ctx (runo k l) (run k l) (expired_events (g_queueName k))) ->
  (forall k l, (k, l) ∈ groups -> io_returns (run k l)
     (fun b => Forall (fun f => r_QueueName (f_Receipt f) = g_queueName k) (Failed b))) ->
  counts_expired ctx (batch_groups_observed runo groups) (batch_groups run groups).
Proof.
  intros Hrun. induction groups as [|[k l] groups IH]; intros Hret o p; cbn [batch_groups_observed batch_groups].
  { exists []. split; [done|]. split; [apply after_refl|]. split; [constructor|done]. }
  apply wpa_bind. eapply wpa_mono; [apply Hrun|]. cbv beta. intros r p1 [-> H1].
  apply wpa_bind. eapply wpa_mono; [apply IH|].
  { intros k' l' Hin. apply Hret. by right. }
  cbv beta. intros r2 p2 (evs & Er2 & H2 & Ho & Ht). unfold mbind, io_bind, try_io.
  pose proof (Hret k l ltac:(left) (under ctx o) (p_world p)) as Hk.
  destruct (run k l (under ctx o) (p_world p)) as [res w1] eqn:E1. cbn [fst snd] in *.
  rewrite (proj1 H1) in *. destruct (batch_groups_ok run groups (under ctx o) w1) as ([b errs] & w2 & E2).
  rewrite E2 in *. cbn in Er2. subst r2. chain H1 H2. exists (expired_events (g_queueName k) res ++ evs).
  destruct res as [b1|x]; cbn in *.
  - split; [done|]. split; [exact H1|]. split; [apply Forall_app; split; [apply only_expired_event|done]|].
    intros queue. etransitivity; [apply told_expired_app|]. rewrite Ht, told_expired_group by done.
    rewrite expired_of_app. by destruct b1, b.
  - done.
Qed.

(** The groups hold receipts of their own queue. *)
Lemma group_loop_grouped rs seen groups groups' :
  well_grouped groups -> group_loop rs seen groups = Ok groups' -> well_grouped groups'.
Proof.
  revert seen groups. induction rs as [|r rs IH]; intros seen groups Hw; cbn; [by intros [= <-]|].
  destruct (negb (bound r)); [done|]. case_bool_decide; [by apply IH|]. by apply IH, add_to_group_wf.
Qed.

Lemma over_groups_count ctx order runo run rs :
  (forall l, order l ≡ₚ l) ->
  (forall k l, reports ctx (runo k l) (run k l) (expired_events (g_queueName k))) ->
  (forall k l, io_returns (run k l) (fun b => forall f, f ∈ Failed b -> f_Receipt f ∈ l)) ->
  counts_expired ctx (over_groups_observed under ctx order runo rs) (over_groups order run rs).
Proof.
  intros Ho Hrun Hret o p. unfold over_groups_observed, over_groups. apply wpa_bind, wpa_lift. intros p1 H1.
  unfold mbind, io_bind, checkClosed in *. destruct (w_closed (p_world p)); cbn in H1 |- *.
  { exists []. split; [done|]. split; [exact H1|]. split; [constructor|done]. }
  destruct (length rs =? 0)%nat.
  { exists []. split; [done|]. split; [exact H1|]. split; [constructor|done]. }
  unfold from_result, groupReceiptsByQueue. destruct (group_loop rs [] []) as [groups|x] eqn:Eg.
  2: { exists []. split; [done|]. split; [exact H1|]. split; [constructor|done]. }
  apply group_loop_grouped in Eg as [_ Hg]; [|split; [constructor|by intros ? ? ?%elem_of_nil]].
  change (wpa o p1 (batch_groups_observed runo (order groups)) (fun r p' => exists evs,
    r = (batch_groups run (order groups) (under ctx o) (p_world p)).1 /\
    after p (batch_groups run (order groups) (under ctx o) (p_world p)).2 evs 0 p' /\ only_expired evs /\
    forall queue, told_expired queue evs = match r with Ok (b, _) => expired_of queue b | Err _ => 0 end)).
  eapply wpa_mono; [apply (batch_groups_count ctx runo run (order groups) Hrun)|].
  - intros k l Hkl o' w'. rewrite Ho in Hkl. specialize (Hret k l o' w').
    destruct (run k l o' w') as [[b|x] w2]; [|done]. apply Forall_forall. intros f Hf.
    by rewrite <-(proj2 (Hg k l Hkl) _ (Hret f Hf)).
  - cbv beta. intros r p2 (evs & Er & H2 & Hrest). rewrite (proj1 H1) in *. exists evs.
    split; [done|]. split; [|done]. apply (after_trans _ _ _ _ _ [] _ 0 0 H1 H2).
Qed.

Lemma reported_failed (m : io BatchResult) l :
  io_returns m (fun b => reported b ≡ₚ l) ->
  io_returns m (fun b => forall f, f ∈ Failed b -> f_Receipt f ∈ l).
Proof.
  intros Hm o w. specialize (Hm o w). destruct (m o w) as [[b|x] w']; [|done]. intros f Hf.
  rewrite <-Hm. unfold reported. apply elem_of_app. right. by apply list_elem_of_fmap_2.
Qed.

Lemma AckBatch_counts ctx order done rs :
  (forall l, order l ≡ₚ l) ->
  counts_expired ctx (AckBatch_observed hk under ctx order done rs) (AckBatch order done rs).
Proof.
  intros Ho. apply over_groups_count; [done|intros; apply ack_group_reports|]. intros k l.
  destruct (g_qt k) eqn:Ek; [apply reported_failed, ack_group_returns; by rewrite Ek; auto..|].
  intros o w. unfold ack_group. rewrite Ek. cbn. by intros f ?%elem_of_nil.
Qed.
Lemma NackBatch_counts ctx order done rs reason opts :
  (forall l, order l ≡ₚ l) ->
  counts_expired ctx (NackBatch_observed hk under cfg ctx order done rs reason opts)
    (NackBatch cfg order done rs reason opts).
Proof.
  intros Ho. apply over_groups_count; [done|intros; apply nack_group_reports|]. intros k l.
  destruct (g_qt k) eqn:Ek; [apply reported_failed, nack_group_returns; by rewrite Ek; auto..|].
  intros o w. unfold nack_group. rewrite Ek. cbn. by intros f ?%elem_of_nil.
Qed.

Lemma wpa_Stats o p ctx name qt Q :
  (forall p', match Stats cfg name qt (under ctx o) (p_world p) with
    | (Ok (st, depth), w) =>
        after p w [EvQueueDepth name depth; EvDLQSize name (DLQCount st)] 0 p' -> Q (Ok st) p'
    | (Err x, w) => after p w [] 0 p' -> Q (Err x) p'
    end) ->
  wpa o p (Stats_observed hk under cfg ctx name qt) Q.
Proof.
  intros HQ. apply wpa_bind, wpa_lift. intros p1 H1.
  destruct (Stats cfg name qt (under ctx o) (p_world p)) as [[[st depth]|x] w]; cbn in H1 |- *; [|by apply HQ].
  apply wpa_bind. eapply wpa_with_metrics with (e := EvQueueDepth name depth); [by intros; reflexivity|].
  intros p2 H2. apply wpa_bind.
  eapply wpa_with_metrics with (e := EvDLQSize name (DLQCount st)); [by intros; reflexivity|].
  intros p3 H3. apply HQ. chain H1 H2. chain H1 H3. exact H1.
Qed.

Lemma wpa_parseMetadataJSON o p ctx queue s Q :
  (forall p', after p (p_world p)
     (match s with
      | None | Some JNull | Some (JObject _) => []
      | _ => [EvMetadataParseError queue]
      end) 0 p' -> Q (parseMetadataJSON s) p') ->
  wpa o p (parseMetadataJSON_observed hk ctx queue s) Q.
Proof.
  intros HQ. unfold parseMetadataJSON_observed.
  assert (forall q, wpa o p (logError hk "failed to parse message metadata; dropping it" [] ;;
      recordMetadataParseError hk ctx q ;; mret (@None jmap))
      (fun r p' => r = None /\ after p (p_world p) [EvMetadataParseError q] 0 p')) as Hbad.
  { intros q. apply wpa_bind. eapply wpa_mono; [apply silent_logError|]. cbv beta. intros _ p1 H1.
    apply wpa_bind. eapply wpa_with_metrics with (e := EvMetadataParseError q);
      [by intros; reflexivity|]. intros p2 H2. split; [done|]. chain H1 H2. exact H1. }
  destruct s as [[]|]; try (apply HQ, after_refl).
  all: eapply wpa_mono; [apply Hbad|]; cbv beta; intros r p' [-> Ha]; by apply HQ.
Qed.

(** *** Dispatch *)

Definition settle (receipt : Receipt) (herr : option herror) : io unit :=
  match herr with
  | Some x => nackReceipt cfg receipt (Error x) (nackOptionsForHandlerError x)
  | None => ackReceipt receipt
  end.

(** What one dispatch reports: [k] is the index of its first clock reading, [r] what
    settling the message returned. *)
Definition settle_events (queue : string) (herr : option herror) (r : result unit) : list event :=
  match r with
  | Ok _ => [EvAck queue (if herr is None then true else false)]
  | Err x => if errors_Is x ErrClaimExpired then [EvAckAfterExpired queue 1] else []
  end.
Definition dispatch_events (k : nat) (msg : Message) (herr : option herror) (r : result unit) :
    list event :=
  let queue := r_QueueName (Message_Receipt msg) in
  [EvHandle queue (mono clk (Datatypes.S k) - mono clk k)] ++
  (if IsZero (m_CreatedAt msg) then []
   else [EvDeliveryLatency queue (Z.max (time_Sub (wall clk k) (m_CreatedAt msg)) 0)]) ++
  settle_events queue herr r.

Lemma wpa_recordDeliveryLatency o p ctx queue created start Q :
  (forall p', after p (p_world p)
     (if IsZero created then []
      else [EvDeliveryLatency queue (Z.max (time_Sub (wall clk start) created) 0)]) 0 p' -> Q tt p') ->
  wpa o p (recordDeliveryLatency hk clk ctx queue created start) Q.
Proof.
  unfold recordDeliveryLatency. destruct (IsZero created); intros HQ.
  - apply HQ, after_refl.
  - eapply wpa_with_metrics; [|exact HQ]. intros. reflexivity.
Qed.

Lemma wpa_callHandler o p ctx h msg Q :
  (forall p', let '(out, w) := h msg (under ctx o) (p_world p) in
     after p w [] 0 p' -> Q (recovered out) p') ->
  wpa o p (callHandler_observed hk under ctx h msg) Q.
Proof.
  intros HQ. unfold wpa, callHandler_observed. destruct (h msg (under ctx o) (p_world p)) as [out w].
  set (p1 := mkProc w _ _ _ _).
  assert (after p w [] 0 p1) as H1.
  { split; [done|]. cbn. split; [lia|]. exists []. split; [done|]. unfold play. by case_match. }
  match goal with |- match ?m o p1 with _ => _ end => change (wpa o p1 m Q) end.
  apply wpa_bind. destruct (panic_value out); [|by apply HQ].
  eapply wpa_mono; [apply silent_logError|]. cbv beta. intros _ p2 H2. apply HQ.
  change (p_world p1) with w in H2. apply (after_trans _ _ _ _ _ [] [] 0 0 H1 H2).
Qed.

(** Settling a message, observed. *)
Lemma wpa_settle o p ctx receipt msg herr :
  wpa o p
    (match herr with
     | Some x =>
         r ← nackReceipt_observed hk under cfg uuid_String ctx receipt (Error x) (nackOptionsForHandlerError x);
         settle_outcome hk ctx receipt msg "nack" "failed to nack message after handler error" r
     | None =>
         r ← ackReceipt_observed hk under uuid_String ctx receipt;
         settle_outcome hk ctx receipt msg "ack" "failed to ack message after successful handler" r
     end)
    (fun _ p' => exists r w, after p w (settle_events (r_QueueName receipt) herr r) 0 p' /\
       (inherits -> settle receipt herr (under ctx o) (p_world p) = (r, w))).
Proof.
  assert (forall op text (m : act T M (result unit)) ok p,
    mirrors ctx m (settle receipt herr) (on_success (fun _ => [EvAck (r_QueueName receipt) ok])) ->
    ok = (if herr is None then true else false) ->
    wpa o p (r ← m; settle_outcome hk ctx receipt msg op text r)
      (fun _ p' => exists r w, after p w (settle_events (r_QueueName receipt) herr r) 0 p' /\
         (inherits -> settle receipt herr (under ctx o) (p_world p) = (r, w)))) as Hgen.
  { clear p. intros op text m ok p Hm ->. apply wpa_bind. eapply wpa_mono; [apply Hm|]. cbv beta.
    intros [u|x] p1 (w & H1 & E); [by exists (Ok u), w|].
    cbn [on_success] in H1. unfold settle_outcome. destruct (errors_Is x ErrClaimExpired) eqn:Ex.
    - apply wpa_bind, wpa_recordAckAfterExpired. intros p2 H2.
      eapply wpa_mono; [apply silent_logWarn|]. cbv beta. intros _ p3 H3.
      chain H1 H2. chain H1 H3. exists (Err x), w. cbn. by rewrite Ex.
    - eapply wpa_mono; [apply silent_logError|]. cbv beta. intros _ p3 H3. chain H1 H3.
      exists (Err x), w. cbn. by rewrite Ex. }
  destruct herr as [x|]; (eapply Hgen; [|reflexivity]).
  - apply nackReceipt_mirrors.
  - apply ackReceipt_mirrors.
Qed.

Lemma wpa_dispatch o p ctx h msg :
  wpa o p (dispatchToHandler_observed hk clk under cfg uuid_String detach ctx h msg)
    (fun _ p' => exists herr r w, after p w (dispatch_events (p_reads p) msg herr r) 2 p' /\
       (inherits -> let '(out, w1) := h msg (under ctx o) (p_world p) in
          herr = recovered out /\
          settle (Message_Receipt msg) herr (under (detach ctx) o) w1 = (r, w))).
Proof.
  unfold dispatchToHandler_observed. apply wpa_bind.
  apply (wpa_starts _ _ ctx); [apply startSpan_starts|]. intros c span p1 Ha Hg.
  assert (p_reads p1 = p_reads p) as Er1 by (destruct Ha as (_ & -> & _); lia).
  apply wpa_bind, wpa_Now. rewrite Er1. intros p2 H2. chain Ha H2.
  destruct (h msg (under c o) (p_world p)) as [out w1] eqn:Eh.
  apply wpa_bind, wpa_callHandler. intros p3. rewrite (proj1 Ha), Eh. intros H3. chain Ha H3.
  assert (p_reads p3 = Datatypes.S (p_reads p)) as Er by (destruct Ha as (_ & -> & _); lia).
  apply wpa_bind, wpa_Since. intros p4 H4. chain Ha H4. rewrite Er. apply wpa_bind.
  eapply wpa_with_metrics with (e := EvHandle (r_QueueName (Message_Receipt msg)) _);
    [by intros; reflexivity|]. intros p5 H5. chain Ha H5.
  apply wpa_bind, wpa_recordDeliveryLatency. intros p6 H6. chain Ha H6.
  apply wpa_bind. eapply wpa_mono; [apply silent_endSpan|]. cbv beta. intros _ p7 H7. chain Ha H7.
  eapply wpa_mono; [apply wpa_settle|]. cbv beta. intros _ p8 (r & w & H8 & E). rewrite (proj1 Ha) in E.
  chain Ha H8. exists (recovered out), r, w. split; [exact Ha|]. intros Hi.
  destruct (Hi _ _ Hg) as [<- <-]. rewrite Eh. split; [done|by apply E].
Qed.

(** *** The garbage collector *)

Lemma wpa_collectQueue o p ctx gc queue partial :
  let r := doCollectQueue cfg gc queue (under ctx o) (p_world p) in
  wpa o p (collectQueue_observed hk clk under cfg ctx gc queue partial) (fun res p' =>
    res = (match r.1 with Ok _ => Ok tt | Err x => Err x end) /\
    after p r.2
      [let '(purged, reclaimed) := match r.1 with Ok c => c | Err _ => partial end in
       EvGCRun (q_QueueName queue) (mono clk (Datatypes.S (p_reads p)) - mono clk (p_reads p))
         reclaimed purged (match r.1 with Ok _ => None | Err x => Some x end)] 2 p').
Proof.
  cbv zeta. unfold collectQueue_observed. apply wpa_bind, wpa_Now. intros p1 Ha.
  apply wpa_bind, wpa_lift. intros p2 H2. rewrite (proj1 Ha). chain Ha H2.
  assert (p_reads p2 = Datatypes.S (p_reads p)) as Er by (destruct Ha as (_ & -> & _); lia).
  apply wpa_bind, wpa_Since. rewrite Er. intros p3 H3. chain Ha H3.
  destruct (match (doCollectQueue cfg gc queue (under ctx o) (p_world p)).1 with Ok c => c | Err _ => partial end)
    as [purged reclaimed].
  apply wpa_bind. eapply wpa_with_metrics with (e := EvGCRun _ _ _ _ _); [by intros; reflexivity|].
  intros p4 H4. chain Ha H4. by split.
Qed.

(** *** Replay *)

(** [m] does the database work of [n] under [c] even when it panics, and returns nothing
    else than its result. *)
Definition tracks {A} (c : Ctx) (m : act T M (result A)) (n : io A) : Prop := forall o p,
  p_world (m o p).2 = (n (under c o) (p_world p)).2 /\
  forall r, (m o p).1 = Returns r -> r = (n (under c o) (p_world p)).1.
(** ... under [ctx] or under the context of a span started there. *)
Definition traced {A} (ctx : Ctx) (m : act T M (result A)) (n : io A) : Prop := forall o p,
  exists c, given ctx c /\ p_world (m o p).2 = (n (under c o) (p_world p)).2 /\
  forall r, (m o p).1 = Returns r -> r = (n (under c o) (p_world p)).1.

Lemma reports_lift {A} c (n : io A) : reports c (lift_io under c n) n nothing.
Proof. intros o p. apply wpa_lift. intros p' Ha. done. Qed.
Lemma reports_ret {A} c (r : result A) : reports c (mret r) (from_result r) nothing.
Proof. intros o p. split; [done|]. apply after_refl. Qed.
Lemma reports_tracks {A} c (m : act T M (result A)) n ev : reports c m n ev -> tracks c m n.
Proof.
  intros Hm o p. specialize (Hm o p). unfold wpa in Hm.
  destruct (m o p) as [[a|v] p']; [|done]. destruct Hm as [-> Ha].
  split; [apply Ha|]. by intros r [= <-].
Qed.

Lemma tracks_ext {A} c (m : act T M (result A)) n n' :
  (forall o w, n o w = n' o w) -> tracks c m n -> tracks c m n'.
Proof. intros Hn Hm o p. rewrite <-Hn. apply Hm. Qed.
Lemma traced_ext {A} ctx (m : act T M (result A)) n n' :
  (forall o w, n o w = n' o w) -> traced ctx m n -> traced ctx m n'.
Proof. intros Hn Hm o p. destruct (Hm o p) as (c & Hc). exists c. by rewrite <-Hn. Qed.

(** The general early return: [onerr x] is what the caller gets after an error. *)
Lemma tracks_early {A B} c (m : act T M (result A)) n (f : A -> act T M (result B))
    (fx : err -> act T M (result B)) (g : A -> io B) (gx : err -> io B) :
  reports c m n nothing -> (forall a, tracks c (f a) (g a)) -> (forall x, tracks c (fx x) (gx x)) ->
  tracks c (r ← m; match r with Ok a => f a | Err x => fx x end)
    (r ← try_io n; match r with Ok a => g a | Err x => gx x end).
Proof.
  intros Hm Hf Hx o p. specialize (Hm o p). unfold wpa in Hm. unfold mbind, act_bind, io_bind, try_io.
  destruct (m o p) as [[r|v] p1]; [|done]. destruct Hm as [-> [Hw _]].
  destruct (n (under c o) (p_world p)) as [[a|x] w]; cbn in Hw |- *; rewrite <-Hw; [apply Hf|apply Hx].
Qed.

Lemma tracks_error {A} c span (x : err) (r : result A) :
  tracks c (call_tracer (sp_SetError span (OpError x)) ;; mret r) (from_result r).
Proof.
  intros o p. unfold mbind, act_bind.
  pose proof (tracer_after (sp_SetError span (OpError x)) o p) as [Hw _].
  destruct (call_tracer _ o p) as [[a|v] p1]; cbn in *; (split; [done|]); [by intros r' [= <-]|done].
Qed.

Lemma tracks_failing {A B} c span (m : act T M (result A)) n (f : A -> act T M (result B)) g :
  reports c m n nothing -> (forall a, tracks c (f a) (g a)) -> tracks c (failing span m f) (n ≫= g).
Proof.
  intros Hm Hf. eapply tracks_ext; [|apply tracks_early; [apply Hm|apply Hf|]].
  2: { intros x. apply tracks_error. }
  intros o w. unfold mbind, io_bind, try_io. by destruct (n o w) as [[a|x] w'].
Qed.

Lemma tracks_if_ok {A B} c (m : act T M (result A)) n (f : A -> act T M (result B)) g :
  reports c m n nothing -> (forall a, tracks c (f a) (g a)) -> tracks c (if_ok m f) (n ≫= g).
Proof.
  intros Hm Hf. eapply tracks_ext; [|apply tracks_early; [apply Hm|apply Hf|]].
  2: { intros x. apply reports_tracks with (ev := nothing), reports_ret. }
  intros o w. unfold mbind, io_bind, try_io. by destruct (n o w) as [[a|x] w'].
Qed.

Lemma traced_span {A} ctx start (f : Ctx -> Span T -> act T M (result A)) (n : io A) :
  starts ctx start -> (forall c span, tracks c (f c span) n) ->
  traced ctx ('(c, span) ← start; deferred (call_tracer (sp_End span)) (f c span)) n.
Proof.
  intros [Hs Hg] Hf o p. specialize (Hs o p). specialize (Hg o p). unfold wpa in Hs. unfold mbind, act_bind.
  destruct (start o p) as [[[c span]|v] p1]; [|done]. exists c. split; [by eapply Hg|]. rewrite <-(proj1 Hs).
  destruct (Hf c span o p1) as [Hw Hr]. unfold deferred.
  destruct (f c span o p1) as [r p2]. cbn in Hw, Hr.
  pose proof (tracer_after (sp_End span) o p2) as [He _].
  destruct (call_tracer _ o p2) as [[a|v] p3]; cbn in *; rewrite He; done.
Qed.

(** The closed check makes no call under its context. *)
Lemma traced_check {A} ctx (m : act T M (result A)) n (fx : err -> result A) :
  traced ctx m n ->
  traced ctx (r ← lift_io under ctx checkClosed; match r with Ok _ => m | Err x => mret (fx x) end)
    (r ← try_io checkClosed; match r with Ok _ => n | Err x => from_result (fx x) end).
Proof.
  intros Hm o p. unfold mbind, act_bind, io_bind, try_io, lift_io, checkClosed.
  destruct (w_closed (p_world p)) eqn:Ec.
  - exists ctx. split; [by left|]. split; [done|]. by intros r [= <-].
  - set (p1 := mkProc _ _ _ _ _). destruct (Hm o p1) as (c & Hc & Hw). exists c. by split.
Qed.
Lemma traced_open {A} ctx (m : act T M (result A)) n :
  traced ctx m n -> traced ctx (if_ok (lift_io under ctx checkClosed) (fun _ => m)) (checkClosed ;; n).
Proof.
  intros Hm. eapply traced_ext; [|apply (traced_check ctx m n Err Hm)].
  intros o w. unfold mbind, io_bind, try_io, checkClosed. by destruct (w_closed w).
Qed.

Lemma io_bind_ok {A} (n : io A) o w : (n ≫= (fun a => from_result (Ok a))) o w = n o w.
Proof. unfold mbind, io_bind. by destruct (n o w) as [[a|x] w']. Qed.

Lemma ReplayFrom_traced ctx name qt since opts :
  traced ctx (ReplayFrom_observed hk under ctx name qt since opts) (ReplayFrom name qt since opts).
Proof.
  apply traced_open, traced_span; [apply startSpan_starts|]. intros c span.
  apply tracks_failing; [apply reports_ret|]. intros _.
  apply tracks_failing; [apply reports_lift|]. intros meta. destruct (DryRun opts).
  - apply tracks_if_ok; [apply reports_lift|]. intros n.
    apply reports_tracks with (ev := nothing), reports_ret.
  - eapply tracks_ext; [|apply tracks_failing; [apply reports_lift|]].
    2: { intros n. apply reports_tracks with (ev := nothing), reports_ret. }
    apply io_bind_ok.
Qed.

Lemma ReplayMessage_traced ctx name qt id opts :
  traced ctx (ReplayMessage_observed hk under ctx name qt id opts) (ReplayMessage name qt id opts).
Proof.
  apply traced_open, traced_span; [apply startSpan_starts|]. intros c span.
  eapply tracks_ext; [|apply tracks_failing; [apply reports_ret|]].
  2: { intros ?. apply tracks_failing; [apply reports_ret|]. intros ?.
       apply tracks_failing; [apply reports_lift|]. intros meta.
       instantiate (1 := fun meta => if DryRun opts then checkMessageExists (q_TableName meta) id
         else executeReplayMessage name (q_TableName meta) qt id opts).
       cbv beta. destruct (DryRun opts); [apply reports_tracks with (ev := nothing), reports_lift|].
       eapply tracks_ext; [apply io_bind_ok|]. apply tracks_failing; [apply reports_lift|].
       intros []. apply reports_tracks with (ev := nothing), reports_ret. }
  intros o w. case_bool_decide; done.
Qed.

Lemma ReplayDLQ_traced ctx name qt opts :
  traced ctx (ReplayDLQ_observed hk under cfg ctx name qt opts) (ReplayDLQ cfg name qt opts).
Proof.
  eapply traced_ext; [|apply traced_check with (fx := fun x => Ok (mkReplayDLQResult 0 0, Some x)),
    traced_span; [apply startSpan_starts|]].
  2: { intros c span.
       apply tracks_early; [apply reports_ret| |intros x; apply tracks_error]. intros ?.
       apply tracks_early; [apply reports_lift| |intros x; apply tracks_error]. intros meta.
       apply tracks_if_ok; [apply reports_lift|]. intros [result er].
       instantiate (1 := fun '(result, er) => match er with
         | Some x => mret (if DryRun opts then mkReplayDLQResult 0 0 else result, Some x)
         | None => mret (result, None)
         end). cbv beta iota.
       destruct er as [x|]; [apply tracks_error|]. apply reports_tracks with (ev := nothing), reports_ret. }
  intros o w. unfold ReplayDLQ, mbind, io_bind, try_io, from_result.
  destruct (checkClosed o w) as [[u|x] w1]; [|done]. destruct (validateReplayOpts opts); [|done].
  by destruct (getReplayQueueMetadata qt name o w1) as [[meta|x] w2].
Qed.

End operations.

(** *** Spans that panic, and spans that do not *)

Definition calm_span (span : Span T) : Prop :=
  (forall t, exists t', sp_End span t = (Returns tt, t')) /\
  (forall x t, exists t', sp_SetError span x t = (Returns tt, t')).
(** The tracer returns only calm spans; [StartSpan] itself may do anything. *)
Definition calm_spans : Prop := forall tr ctx name attrs t c span t',
  h_tracer hk = Some tr -> tr_StartSpan tr ctx name attrs t = (Returns (c, Some span), t') ->
  calm_span span.

Definition returns {A} (m : act T M A) : Prop := forall o p, exists a, (m o p).1 = Returns a.

Lemma returns_ret {A} (a : A) : returns (mret a).
Proof. intros o p. by exists a. Qed.
Lemma returns_lift {A} c (n : io A) : returns (lift_io under c n).
Proof. intros o p. unfold lift_io. destruct (n _ _) as [r w]. by exists r. Qed.
Lemma returns_bind {A B} (m : act T M A) (f : A -> act T M B) :
  returns m -> (forall a, returns (f a)) -> returns (m ≫= f).
Proof.
  intros Hm Hf o p. destruct (Hm o p) as [a Ha]. unfold mbind, act_bind.
  destruct (m o p) as [[a'|v] p1]; [apply Hf|done].
Qed.
Lemma returns_deferred {A} d (m : act T M A) : returns d -> returns m -> returns (deferred d m).
Proof.
  intros Hd Hm o p. destruct (Hm o p) as [a Ha]. unfold deferred. destruct (m o p) as [r p1].
  destruct (Hd o p1) as [[] Hu]. destruct (d o p1) as [[u|v] p2]; [by exists a|done].
Qed.
Lemma returns_call {A} (f : method T A) :
  (forall t, exists a t', f t = (Returns a, t')) -> returns (call_tracer f).
Proof. intros Hf o p. destruct (Hf (p_tracer p)) as (a & t' & E). unfold call_tracer. rewrite E. by exists a. Qed.
Lemma returns_SetError span x : calm_span span -> returns (call_tracer (sp_SetError span x)).
Proof. intros [_ Hs]. apply returns_call. intros t. destruct (Hs x t) as [t' ?]. by exists tt, t'. Qed.
Lemma returns_End span : calm_span span -> returns (call_tracer (sp_End span)).
Proof. intros [He _]. apply returns_call. intros t. destruct (He t) as [t' ?]. by exists tt, t'. Qed.

Lemma returns_startSpan {A} ctx name attrs (f : Ctx -> Span T -> act T M A) :
  calm_spans -> (forall c span, calm_span span -> returns (f c span)) ->
  returns ('(c, span) ← startSpan hk ctx name attrs; f c span).
Proof.
  intros Hc Hf o p. unfold startSpan. destruct (h_tracer hk) as [tr|] eqn:Et.
  2: { apply (Hf ctx noopSpan). split; [intros t|intros x t]; by exists t. }
  unfold mbind, act_bind, safeStartSpan, safeHook, call_tracer.
  destruct (tr_StartSpan tr ctx name attrs (p_tracer p)) as [[[c [span|]]|v] t] eqn:Es.
  - apply (Hf c span). by eapply Hc.
  - apply (Hf ctx noopSpan). split; [intros t0|intros x t0]; by exists t0.
  - unfold logError, write_log, mret, act_ret. destruct (h_logger hk);
      (apply (Hf ctx noopSpan); split; [intros t0|intros x t0]; by exists t0).
Qed.
End lemmas.

Create HintDb returns.
#[export] Hint Resolve returns_ret returns_lift returns_SetError returns_End : returns.

(** [returns] follows the program. *)
Ltac returns :=
  repeat first
    [ progress intros
    | solve [eauto with returns]
    | apply returns_startSpan; [assumption|]
    | apply returns_deferred
    | apply returns_bind
    | match goal with |- returns (match ?x with _ => _ end) => destruct x end ].

(** ** Theorems *)

Section theorems.
Context {Ctx T M : Type} (hk : hooks Ctx T M) (clk : clock).
Context (under : Ctx -> oracle -> oracle) (detach : Ctx -> Ctx).
Context `{Server} `{Decoder} (cfg : queueConfig) (uuid_String : uuid -> string).

Lemma replay_calm ctx name qt since id opts :
  calm_spans hk ->
  returns (ReplayFrom_observed hk under ctx name qt since opts) /\
  returns (ReplayMessage_observed hk under ctx name qt id opts) /\
  returns (ReplayDLQ_observed hk under cfg ctx name qt opts).
Proof.
  intros Hc.
  unfold ReplayFrom_observed, ReplayMessage_observed, ReplayDLQ_observed, replay_span, if_ok,
    failing, failing_dlq. split; [|split]; returns.
Qed.


(** One dispatch to a handler, with any hooks and a handler that may panic, reports, in
    this order: the time the handler took, the publish-to-delivery latency, never negative
    and skipped for a message without a creation time, and then either the
    acknowledgement that succeeded, or one expired claim, or nothing when settling
    failed otherwise.  When the tracer's contexts inherit, the outcome and the world are
    those of the handler run under the caller's context and of settling the message under
    its detached one, which is the plain dispatch where the two are answered alike. *)
Theorem dispatch_observed_exactly (ctx : Ctx) (h : Handler) (msg : Message) (o : oracle)
    (p : proc T M) :
  wpa o p (dispatchToHandler_observed hk clk under cfg uuid_String detach ctx h msg)
    (fun _ p' => exists herr r w,
       after hk p w (dispatch_events clk (p_reads p) msg herr r) 2 p' /\
       Forall (fun e => match e with EvDeliveryLatency _ d => 0 <= d <= int64_max | _ => True end)
         (dispatch_events clk (p_reads p) msg herr r) /\
       (inherits hk under detach -> let '(out, w1) := h msg (under ctx o) (p_world p) in
          herr = recovered out /\
          settle cfg (Message_Receipt msg) herr (under (detach ctx) o) w1 = (r, w) /\
          (under (detach ctx) o = under ctx o ->
           (dispatchToHandler cfg h msg (under ctx o) (p_world p)).2 = w))).
Proof.
  eapply wpa_mono; [apply wpa_dispatch|]. cbv beta. intros _ p' (herr & r & w & Ha & Hi).
  exists herr, r, w. split; [exact Ha|]. split.
  - apply Forall_app. split; [by constructor|]. apply Forall_app. split.
    + destruct (IsZero _); constructor; [|constructor]. unfold time_Sub, int64_min, int64_max. lia.
    + unfold settle_events. destruct r as [u|x]; [by repeat constructor|].
      destruct (errors_Is x _); by repeat constructor.
  - intros Hin. specialize (Hi Hin). destruct (h msg (under ctx o) (p_world p)) as [out w1] eqn:Eh.
    destruct Hi as [-> Hs]. split; [done|]. split; [done|]. intros Eo. rewrite Eo in Hs.
    unfold dispatchToHandler, callHandler, mbind, io_bind, try_io. rewrite Eh. unfold settle in Hs.
    destruct (recovered out); [destruct (nackReceipt _ _ _ _ _ w1)|destruct (ackReceipt _ _ w1)];
      by injection Hs as _ <-.
Qed.

(** A tracer whose spans panic when they are ended. *)
Definition panicking_End (tr : Tracer Ctx T) : Prop := forall ctx name attrs t,
  exists c span t', tr_StartSpan tr ctx name attrs t = (Returns (c, Some span), t') /\
    forall t, exists v t', sp_End span t = (Panics v, t').

Lemma startSpan_End_panics {A} tr ctx name attrs (f : Ctx -> Span T -> act T M A) o p :
  h_tracer hk = Some tr -> panicking_End tr ->
  exists v, (('(c, span) ← startSpan hk ctx name attrs;
              deferred (call_tracer (sp_End span)) (f c span)) o p).1 = Panics v.
Proof.
  intros Ht Hp. unfold startSpan. rewrite Ht. unfold mbind, act_bind, safeStartSpan, safeHook, call_tracer.
  destruct (Hp ctx name attrs (p_tracer p)) as (c & span & t' & -> & He). cbn. unfold deferred.
  destruct (f c span o _) as [r p2]. destruct (He (p_tracer p2)) as (v & t2 & ->). by exists v.
Qed.

(** C39: Replay does not guard its span.  With a tracer whose spans panic in [End],
    every ReplayFrom, ReplayMessage and ReplayDLQ on an open queue panics in its
    caller, although [Tracer] documents that the methods of a span run behind a
    [recover]; and it does so after the database work of the replay, done under the context
    it was called with or the one of its span, which stays. *)
Theorem replay_span_panic_escapes (tr : Tracer Ctx T) (ctx : Ctx) (name : string) (qt : QueueType)
    (since : timestamp) (id : uuid) (opts : ReplayOptions) (o : oracle) (p : proc T M) :
  h_tracer hk = Some tr -> panicking_End tr -> w_closed (p_world p) = false ->
  let from := ReplayFrom_observed hk under ctx name qt since opts o p in
  let one := ReplayMessage_observed hk under ctx name qt id opts o p in
  let dlq := ReplayDLQ_observed hk under cfg ctx name qt opts o p in
  let done_by {A} (q : proc T M) (n : io A) :=
    exists c, given hk ctx c /\ p_world q = (n (under c o) (p_world p)).2 in
  (exists v, from.1 = Panics v) /\ done_by from.2 (ReplayFrom name qt since opts) /\
  (exists v, one.1 = Panics v) /\ done_by one.2 (ReplayMessage name qt id opts) /\
  (exists v, dlq.1 = Panics v) /\ done_by dlq.2 (ReplayDLQ cfg name qt opts).
Proof.
  intros Ht Hp Hopen. cbv zeta.
  assert (forall A (k : act T M (result A)), (if_ok (lift_io under ctx checkClosed) (fun _ => k)) o p =
    k o (mkProc (p_world p) (p_tracer p) (p_metrics p) (p_log p) (p_reads p))) as Hg.
  { intros A k. unfold if_ok, mbind, act_bind, lift_io, checkClosed. by rewrite Hopen. }
  assert (forall A (m : act T M (result A)) n, traced hk under ctx m n ->
    exists c, given hk ctx c /\ p_world (m o p).2 = (n (under c o) (p_world p)).2) as Hd.
  { intros A m n Hm. destruct (Hm o p) as (c & Hc & Hw & _). by exists c. }
  split; [unfold ReplayFrom_observed; rewrite Hg; by eapply startSpan_End_panics|].
  split; [apply Hd, ReplayFrom_traced|].
  split; [unfold ReplayMessage_observed; rewrite Hg; by eapply startSpan_End_panics|].
  split; [apply Hd, ReplayMessage_traced|]. split; [|apply Hd, ReplayDLQ_traced].
  unfold ReplayDLQ_observed, mbind at 1, act_bind at 1, lift_io at 1, checkClosed. rewrite Hopen.
  by eapply startSpan_End_panics.
Qed.

End theorems.

(** ** Witnesses *)

Definition bad_span : Span unit :=
  mkSpan (fun t => (Panics "End", t)) (fun _ t => (Returns tt, t)) (fun _ t => (Returns tt, t)).
Definition bad_tracer : Tracer unit unit := mkTracer (fun ctx _ _ t => (Returns (ctx, Some bad_span), t)).
Definition bad_hooks : hooks unit unit unit := mkHooks (Some bad_tracer) None true.

Lemma replay_span_panic_escapes_witness :
  (exists v, (ReplayFrom_observed bad_hooks (fun _ o => o) tt "jobs" QueueTypeChannel 10 (replay_opts false)
     distinct_oracle (mkProc replay_world tt tt [] 0)).1 = Panics v) /\
  (ReplayFrom "jobs" QueueTypeChannel 10 (replay_opts false) distinct_oracle replay_world).1 = Ok 1.
Proof.
  split; [|vm_compute; reflexivity].
  apply (replay_span_panic_escapes bad_hooks (fun _ o => o) sample_cfg bad_tracer tt "jobs" QueueTypeChannel
    10 0 (replay_opts false) distinct_oracle (mkProc replay_world tt tt [] 0)).
  - reflexivity.
  - intros ctx name attrs t. exists ctx, bad_span, t. split; [reflexivity|]. intros t0.
    exists "End", t0. reflexivity.
  - reflexivity.
Defined.

(** Contexts that are cancelled or not and carry a number of spans; under a cancelled one
    no transaction begins.  The tracer adds a span, which panics when it is ended; the
    recorder counts publishes and panics. *)
Definition ctx_canceled : driver_err := DriverErr None "context canceled".
Definition refuse (e : env) : env :=
  mkEnv (e_now e) (e_locked e) (e_gen e) (e_fault e) (Some ctx_canceled) (e_commit e) (e_rand e)
    (e_conv e) (e_time e) (e_ms e) (e_entropy e).
Definition answered (c : bool * nat) (o : oracle) : oracle := if c.1 then fun n => refuse (o n) else o.
Definition counting_recorder : MetricsRecorder (bool * nat) Z :=
  let quiet := fun m => (Returns tt, m) in
  mkMetricsRecorder (fun _ _ n m => (Panics "RecordPublish", m + n)) (fun _ _ _ => quiet)
    (fun _ _ _ => quiet) (fun _ _ _ => quiet) (fun _ _ _ => quiet) (fun _ _ _ => quiet)
    (fun _ _ _ => quiet) (fun _ _ => quiet) (fun _ _ _ _ _ _ => quiet) (fun _ _ => quiet).
Definition spanning_tracer : Tracer (bool * nat) unit :=
  mkTracer (fun c _ _ t => (Returns ((c.1, Datatypes.S c.2), Some bad_span), t)).
Definition spanning_hooks : hooks (bool * nat) unit Z :=
  mkHooks (Some spanning_tracer) (Some counting_recorder) true.

