(* ===== verification/PromMetrics.v ===== *)
(** * The Prometheus adapter ([prompgqueue/prompgqueue.go])

    [NewMetrics] registers thirteen collectors with a [prometheus.Registerer]; the
    methods of [Metrics] implement the [MetricsRecorder] hook on them.  The registerer
    and the collectors are third-party code: two classes with the documented laws
    the adapter relies on, and a small implementation of both. *)

From S2P Require Import Prelude Types Tx Backoff Float64 Utf8 World Config Channel Publish Consume Observability.
From stdpp Require Import functions.
From Stdlib Require Import ZArith Lia.
Local Open Scope Z_scope.

(** ** Floats *)

Definition f64_div : spec_float -> spec_float -> spec_float := SFdiv 53 1024.
(** The literal [n / d], correctly rounded. *)
Definition literal (n d : Z) : spec_float := f64_div (float64_of_int n) (float64_of_int d).

(** [d.Seconds()] *)
Definition Duration_Seconds (d : Duration) : spec_float :=
  f64_add (float64_of_int (Z.quot d second))
    (f64_div (float64_of_int (Z.rem d second)) (float64_of_int 1000000000)).

(** ** The client library *)

(** The Go type of a collector. *)
Inductive goType := CounterVec | HistogramVec | GaugeVec | OtherCollector (name : string).
#[export] Instance goType_eq_dec : EqDecision goType.
Proof. solve_decision. Defined.

(** A collector object: [c_ref] is its identity. *)
Record collector := mkCollector {
  c_ref : nat;
  c_type : goType;
  c_name : string;
  c_help : string;
  c_labels : list string;
  c_buckets : list spec_float
}.

(** What identifies a metric to a registry. *)
Record descr := mkDescr { d_name : string; d_help : string; d_labels : list string }.
#[export] Instance descr_eq_dec : EqDecision descr.
Proof. solve_decision. Defined.
#[export] Instance descr_countable : Countable descr.
Proof.
  refine (inj_countable' (fun d => (d_name d, d_help d, d_labels d))
    (fun x => mkDescr x.1.1 x.1.2 x.2) _). by intros [].
Defined.

Definition Describe (c : collector) : descr := mkDescr (c_name c) (c_help c) (c_labels c).

Inductive regError :=
| AlreadyRegisteredError (existing : collector)
| RegisterError (text : string).

(** [prometheus.Registerer]; [registered] is what a scrape finds. *)
Class Registerer (R : Type) := {
  Register : collector -> R -> option regError * R;
  registered : R -> descr -> option collector
}.

Class RegistererLaws (R : Type) `{Registerer R} : Prop := {
  registered_describe r d c : registered r d = Some c -> Describe c = d;
  Register_ok c r r' : Register c r = (None, r') ->
    forall d, registered r' d = if decide (d = Describe c) then Some c else registered r d;
  Register_fresh c r r' : Register c r = (None, r') -> registered r (Describe c) = None;
  Register_dup c r c0 : registered r (Describe c) = Some c0 ->
    Register c r = (Some (AlreadyRegisteredError c0), r);
  Register_existing c r c0 r' : Register c r = (Some (AlreadyRegisteredError c0), r') ->
    registered r (Describe c) = Some c0;
  Register_err c r e r' : Register c r = (Some e, r') -> r' = r
}.

(** ** Options *)

Definition DefaultLatencyBuckets : list spec_float :=
  [literal 1 1000; literal 5 1000; literal 1 100; literal 25 1000; literal 5 100; literal 1 10;
   literal 25 100; literal 5 10; literal 1 1; literal 25 10; literal 5 1; literal 10 1;
   literal 30 1; literal 60 1].

Record options := mkOptions { latencyBuckets : list spec_float }.
Definition PromOption : Type := options -> options.

Definition WithLatencyBuckets (buckets : list spec_float) : PromOption := fun o =>
  if (0 <? length buckets)%nat then mkOptions buckets else o.

(** ** NewMetrics *)

Record PromMetrics := mkPromMetrics {
  publishes : collector;
  handleDur : collector;
  deliveryLatency : collector;
  acks : collector;
  ackAfterExpired : collector;
  queueDepth : collector;
  dlqSize : collector;
  metadataParseErrors : collector;
  gcRuns : collector;
  gcDuration : collector;
  gcReclaimed : collector;
  gcPurged : collector;
  missedNotifications : collector
}.

(** The errors of [registerCollector]. *)
Inductive promCause :=
| WrongCollectorType (existing ships : goType)
| RegisterFailed (text : string).
Record promError := mkPromError { pe_what : string; pe_cause : promCause }.

(** The registries, by reference, and the next object to be allocated. *)
Record promState (R : Type) := mkPromState {
  ps_regs : nat -> R;
  ps_next : nat
}.
#[global] Arguments mkPromState {R}.
#[global] Arguments ps_regs {R}.
#[global] Arguments ps_next {R}.

Definition pm (R A : Type) : Type := promState R -> (A + promError) * promState R.
#[export] Instance pm_ret {R} : MRet (pm R) := fun A a s => (inl a, s).
#[export] Instance pm_bind {R} : MBind (pm R) := fun A B f m s =>
  match m s with
  | (inl a, s') => f a s'
  | (inr e, s') => (inr e, s')
  end.

Definition queueLabel : string := "queue".
(** [prometheus.DefaultRegisterer] *)
Definition DefaultRegisterer : nat := 0.

Section new_metrics.
Context {R : Type} `{Registerer R}.

(** [registerCollector[T](reg, c)], where [T] is the Go type of [c]. *)
Definition registerCollector (reg : nat) (c : collector) (s : promState R) :
    (collector + promCause) * promState R :=
  let '(er, r) := Register c (ps_regs s reg) in
  let s := mkPromState (<[reg := r]> (ps_regs s)) (ps_next s) in
  match er with
  | None => (inl c, s)
  | Some (AlreadyRegisteredError existing) =>
      if decide (c_type existing = c_type c) then (inl existing, s)
      else (inr (WrongCollectorType (c_type existing) (c_type c)), s)
  | Some (RegisterError text) => (inr (RegisterFailed text), s)
  end.

(** [prometheus.NewXVec(...)], its registration, and the wrapping of the error. *)
Definition register (reg : nat) (t : goType) (name help : string) (labels : list string)
    (buckets : list spec_float) (what : string) : pm R collector := fun s =>
  let c := mkCollector (ps_next s) t name help labels buckets in
  match registerCollector reg c (mkPromState (ps_regs s) (S (ps_next s))) with
  | (inl c, s) => (inl c, s)
  | (inr e, s) => (inr (mkPromError what e), s)
  end.

Definition NewMetrics (reg : option nat) (opts : list PromOption) : pm R PromMetrics :=
  let reg := default DefaultRegisterer reg in
  let cfg := fold_left (fun c o => o c) opts (mkOptions DefaultLatencyBuckets) in
  publishes ← register reg CounterVec "pgqueue_publish_messages_total"
    "Messages published to pgqueue queues." [queueLabel] [] "register publish counter";
  handleDur ← register reg HistogramVec "pgqueue_handle_duration_seconds"
    "Handler-only execution latency in seconds (excludes queue wait, fetch, and ack); see DefaultLatencyBuckets for the bucket layout."
    [queueLabel] (latencyBuckets cfg) "register handle histogram";
  deliveryLatency ← register reg HistogramVec "pgqueue_delivery_latency_seconds"
    "Publish-to-delivery latency in seconds: time from message creation to handler start; see DefaultLatencyBuckets for the bucket layout."
    [queueLabel] (latencyBuckets cfg) "register delivery-latency histogram";
  acks ← register reg CounterVec "pgqueue_ack_total"
    "Acknowledgement outcomes by queue and result." [queueLabel; "result"] [] "register ack counter";
  ackAfterExpired ← register reg CounterVec "pgqueue_ack_after_expired_total"
    "Receipts ack'd/nack'd after their claim expired or no longer matched; messages will redeliver."
    [queueLabel] [] "register ack-after-expired counter";
  queueDepth ← register reg GaugeVec "pgqueue_queue_depth" "Pending message count." [queueLabel] []
    "register queue-depth gauge";
  dlqSize ← register reg GaugeVec "pgqueue_dlq_size" "Dead-letter queue size." [queueLabel] []
    "register dlq-size gauge";
  metadataParseErrors ← register reg CounterVec "pgqueue_metadata_parse_errors_total"
    "Messages whose JSON metadata column could not be parsed; metadata is dropped, delivery continues."
    [queueLabel] [] "register metadata-parse-error counter";
  gcRuns ← register reg CounterVec "pgqueue_gc_runs_total"
    "Garbage-collector passes by queue and outcome (ok/error)." [queueLabel; "result"] []
    "register gc-runs counter";
  gcDuration ← register reg HistogramVec "pgqueue_gc_duration_seconds"
    "Wall-clock duration of a per-queue garbage-collector pass." [queueLabel]
    [literal 1 1000; literal 5 1000; literal 1 100; literal 5 100; literal 1 10; literal 5 10;
     literal 1 1; literal 5 1; literal 10 1; literal 30 1]
    "register gc-duration histogram";
  gcReclaimed ← register reg CounterVec "pgqueue_gc_reclaimed_total"
    "Timed-out messages reset to pending (re-deliverable) by the garbage collector." [queueLabel] []
    "register gc-reclaimed counter";
  gcPurged ← register reg CounterVec "pgqueue_gc_purged_total"
    "Messages deleted by the retention policy during a garbage-collector pass." [queueLabel] []
    "register gc-purged counter";
  missedNotifications ← register reg CounterVec "pgqueue_missed_notifications_total"
    "LISTEN/NOTIFY confirmations that failed; notifications on this channel were dropped until re-confirmed."
    [queueLabel] [] "register missed-notifications counter";
  mret (mkPromMetrics publishes handleDur deliveryLatency acks ackAfterExpired queueDepth dlqSize
    metadataParseErrors gcRuns gcDuration gcReclaimed gcPurged missedNotifications).

End new_metrics.

(** ** Recording *)

(** [vec.WithLabelValues(lvs...)] followed by [Add], [Inc], [Observe] or [Set]. *)
Inductive vecCall :=
| VAdd (c : collector) (lvs : list string) (v : spec_float)
| VInc (c : collector) (lvs : list string)
| VObserve (c : collector) (lvs : list string) (v : spec_float)
| VSet (c : collector) (lvs : list string) (v : spec_float).

Section record.
Context (m : PromMetrics).

Definition PromRecordPublish (queue : string) (count : Z) : list vecCall :=
  [VAdd (publishes m) [queue] (float64_of_int count)].
Definition PromRecordHandle (queue : string) (latency : Duration) : list vecCall :=
  [VObserve (handleDur m) [queue] (Duration_Seconds latency)].
Definition PromRecordDeliveryLatency (queue : string) (latency : Duration) : list vecCall :=
  [VObserve (deliveryLatency m) [queue] (Duration_Seconds latency)].
Definition PromRecordAck (queue : string) (ok : bool) : list vecCall :=
  let result := if ok then "ack" else "nack" in
  [VInc (acks m) [queue; result]].
Definition PromRecordAckAfterExpired (queue : string) (n : Z) : list vecCall :=
  [VAdd (ackAfterExpired m) [queue] (float64_of_int n)].
Definition PromObserveQueueDepth (queue : string) (depth : Z) : list vecCall :=
  [VSet (queueDepth m) [queue] (float64_of_int depth)].
Definition PromObserveDLQSize (queue : string) (size : Z) : list vecCall :=
  [VSet (dlqSize m) [queue] (float64_of_int size)].
Definition PromRecordMetadataParseError (queue : string) : list vecCall :=
  [VInc (metadataParseErrors m) [queue]].
Definition PromRecordGCRun (queue : string) (duration : Duration) (reclaimed purged : Z)
    (er : option err) : list vecCall :=
  let result := if er is Some _ then "error" else "ok" in
  [VInc (gcRuns m) [queue; result]; VObserve (gcDuration m) [queue] (Duration_Seconds duration)] ++
  (if 0 <? reclaimed then [VAdd (gcReclaimed m) [queue] (float64_of_int reclaimed)] else []) ++
  (if 0 <? purged then [VAdd (gcPurged m) [queue] (float64_of_int purged)] else []).
Definition PromRecordMissedNotification (queue : string) : list vecCall :=
  [VInc (missedNotifications m) [queue]].

End record.

(** The statements of a method, up to the first that panics. *)
Fixpoint exec_calls {C S} (exec : C -> method S unit) (calls : list C) : method S unit := fun s =>
  match calls with
  | [] => (Returns tt, s)
  | c :: calls =>
      match exec c s with
      | (Returns _, s') => exec_calls exec calls s'
      | (Panics v, s') => (Panics v, s')
      end
  end.

(** The calls of one hook event. *)
Definition prom_calls (m : PromMetrics) (e : event) : list vecCall :=
  match e with
  | EvPublish q n => PromRecordPublish m q n
  | EvHandle q d => PromRecordHandle m q d
  | EvDeliveryLatency q d => PromRecordDeliveryLatency m q d
  | EvAck q ok => PromRecordAck m q ok
  | EvAckAfterExpired q n => PromRecordAckAfterExpired m q n
  | EvQueueDepth q n => PromObserveQueueDepth m q n
  | EvDLQSize q n => PromObserveDLQSize m q n
  | EvMetadataParseError q => PromRecordMetadataParseError m q
  | EvGCRun q d r p er => PromRecordGCRun m q d r p er
  | EvMissedNotification q => PromRecordMissedNotification m q
  end.

(** The collectors' own state; [counter] is the value of a counter's series. *)
Class PromClient (S : Type) := {
  vec_call : vecCall -> method S unit;
  counter : S -> collector -> list string -> Z
}.

(** [*Metrics] as a [pgqueue.MetricsRecorder]; the context is ignored. *)
Definition prom_recorder {Ctx S} `{PromClient S} (m : PromMetrics) : MetricsRecorder Ctx S :=
  let run calls := exec_calls vec_call calls in
  mkMetricsRecorder
    (fun _ q n => run (PromRecordPublish m q n))
    (fun _ q d => run (PromRecordHandle m q d))
    (fun _ q d => run (PromRecordDeliveryLatency m q d))
    (fun _ q ok => run (PromRecordAck m q ok))
    (fun _ q n => run (PromRecordAckAfterExpired m q n))
    (fun _ q n => run (PromObserveQueueDepth m q n))
    (fun _ q n => run (PromObserveDLQSize m q n))
    (fun _ q => run (PromRecordMetadataParseError m q))
    (fun _ q d r p er => run (PromRecordGCRun m q d r p er))
    (fun _ q => run (PromRecordMissedNotification m q)).

(** ** What the package documents

    The collectors of [NewMetrics], with the type, name and labels its package
    comment gives them. *)
Definition catalogue (m : PromMetrics) : list (collector * goType * string * list string) :=
  [(publishes m, CounterVec, "pgqueue_publish_messages_total", ["queue"]);
   (handleDur m, HistogramVec, "pgqueue_handle_duration_seconds", ["queue"]);
   (deliveryLatency m, HistogramVec, "pgqueue_delivery_latency_seconds", ["queue"]);
   (acks m, CounterVec, "pgqueue_ack_total", ["queue"; "result"]);
   (ackAfterExpired m, CounterVec, "pgqueue_ack_after_expired_total", ["queue"]);
   (queueDepth m, GaugeVec, "pgqueue_queue_depth", ["queue"]);
   (dlqSize m, GaugeVec, "pgqueue_dlq_size", ["queue"]);
   (metadataParseErrors m, CounterVec, "pgqueue_metadata_parse_errors_total", ["queue"]);
   (gcRuns m, CounterVec, "pgqueue_gc_runs_total", ["queue"; "result"]);
   (gcDuration m, HistogramVec, "pgqueue_gc_duration_seconds", ["queue"]);
   (gcReclaimed m, CounterVec, "pgqueue_gc_reclaimed_total", ["queue"]);
   (gcPurged m, CounterVec, "pgqueue_gc_purged_total", ["queue"]);
   (missedNotifications m, CounterVec, "pgqueue_missed_notifications_total", ["queue"])].

(** ** Registration lemmas *)

Section registration.
Context {R : Type} `{RegistererLaws R}.
Implicit Types (s : promState R).

(** Nothing registered in [s] is unregistered or replaced in [s']. *)
Definition extends s s' : Prop := forall i d c,
  registered (ps_regs s i) d = Some c -> registered (ps_regs s' i) d = Some c.

#[export] Instance extends_preorder : PreOrder extends.
Proof. split; [by intros s i d c|]. intros s1 s2 s3 H1 H2 i d c Hr. by apply H2, H1. Qed.

(** The collector of a catalogue entry is the one a scrape of [reg] finds. *)
Definition scraped (reg : nat) s (entry : collector * goType * string * list string) : Prop :=
  let '(c, t, name, labels) := entry in
  registered (ps_regs s reg) (Describe c) = Some c /\
  c_type c = t /\ c_name c = name /\ c_labels c = labels.

Lemma scraped_extends reg s s' entry : extends s s' -> scraped reg s entry -> scraped reg s' entry.
Proof. destruct entry as [[[c t] name] labels]. intros He [Hr Hx]. split; [by apply He|done]. Qed.

Lemma registerCollector_ok reg c s c' s' :
  registerCollector reg c s = (inl c', s') ->
  registered (ps_regs s' reg) (Describe c) = Some c' /\ c_type c' = c_type c /\ extends s s'.
Proof.
  unfold registerCollector. destruct (Register c (ps_regs s reg)) as [er r] eqn:Er.
  destruct er as [[c0|text]|].
  - pose proof (Register_err _ _ _ _ Er) as ->. apply Register_existing in Er.
    destruct (decide _) as [Ht|]; [|done]. intros [= <- <-]. cbn. rewrite fn_lookup_insert.
    split; [done|]. split; [done|]. intros i d c1. cbn.
    destruct (decide (reg = i)) as [<-|]; [by rewrite fn_lookup_insert|by rewrite fn_lookup_insert_ne].
  - done.
  - intros [= <- <-]. cbn. rewrite fn_lookup_insert, (Register_ok _ _ _ Er), decide_True by done.
    split; [done|]. split; [done|]. intros i d c1. cbn.
    destruct (decide (reg = i)) as [<-|]; [|by rewrite fn_lookup_insert_ne].
    rewrite fn_lookup_insert, (Register_ok _ _ _ Er). intros Hd.
    destruct (decide _) as [->|]; [|done]. apply Register_fresh in Er. congruence.
Qed.

Lemma register_ok reg t name help labels buckets what s c s' :
  register reg t name help labels buckets what s = (inl c, s') ->
  registered (ps_regs s' reg) (mkDescr name help labels) = Some c /\ c_type c = t /\ extends s s'.
Proof.
  unfold register. destruct (registerCollector reg _ _) as [[c0|e] s0] eqn:E; [|done].
  intros [= <- <-]. apply registerCollector_ok in E as (Hr & Ht & He). split; [exact Hr|].
  split; [exact Ht|]. exact He.
Qed.

(** A descriptor that is registered already is found again, and nothing changes. *)
Lemma register_again reg t name help labels buckets what s c :
  registered (ps_regs s reg) (mkDescr name help labels) = Some c -> c_type c = t ->
  exists s', register reg t name help labels buckets what s = (inl c, s') /\
    forall i, ps_regs s' i = ps_regs s i.
Proof.
  intros Hr Ht. unfold register, registerCollector. cbn [ps_regs ps_next].
  rewrite (Register_dup (mkCollector _ t name help labels buckets) _ c) by exact Hr.
  rewrite decide_True by done. eexists. split; [done|]. intros i. cbn.
  destruct (decide (reg = i)) as [<-|]; [by rewrite fn_lookup_insert|by rewrite fn_lookup_insert_ne].
Qed.

(** *** Success, step by step *)

Definition pwp {A} s (m : pm R A) (Q : A -> promState R -> Prop) : Prop :=
  match m s with (inl a, s') => Q a s' | (inr _, _) => True end.

(** The collectors so far, from the state [s0] on. *)
Definition so_far reg s0 s entries : Prop := extends s0 s /\ Forall (scraped reg s) entries.

Lemma pwp_register {A} reg t name help labels buckets what s0 s entries
    (f : collector -> pm R A) Q :
  so_far reg s0 s entries ->
  (forall c s', so_far reg s0 s' (entries ++ [(c, t, name, labels)]) -> pwp s' (f c) Q) ->
  pwp s (register reg t name help labels buckets what ≫= f) Q.
Proof.
  intros [He Hs] Hf. unfold pwp, mbind, pm_bind.
  destruct (register _ _ _ _ _ _ _ s) as [[c|e] s1] eqn:E; [|done].
  apply register_ok in E as (Hr & Ht & Hx). apply Hf. split; [by etrans|].
  apply Forall_app. split; [eapply Forall_impl; [|exact Hs]; intros ?; by apply scraped_extends|].
  constructor; [|constructor]. pose proof (registered_describe _ _ _ Hr) as Hd.
  split; [by rewrite Hd|]. split; [done|]. unfold Describe in Hd. injection Hd. auto.
Qed.

Lemma NewMetrics_ok reg opts s m s' :
  NewMetrics reg opts s = (inl m, s') ->
  so_far (default DefaultRegisterer reg) s s' (catalogue m).
Proof.
  intros HN. assert (pwp s (NewMetrics reg opts)
    (fun m s' => so_far (default DefaultRegisterer reg) s s' (catalogue m))) as Hw.
  { unfold NewMetrics. assert (so_far (default DefaultRegisterer reg) s s []) as Hs by (split; [done|constructor]).
    do 13 (eapply pwp_register; [exact Hs|]; clear Hs; intros ? ? Hs; cbn [app] in Hs). exact Hs. }
  unfold pwp in Hw. by rewrite HN in Hw.
Qed.

(** *** Doing it again *)

(** What [m1] returned, [m2] returns again later on, and registers nothing. *)
Definition redo {A} (m1 m2 : pm R A) : Prop := forall s a s',
  m1 s = (inl a, s') -> extends s s' /\
  forall s1, extends s' s1 ->
    exists s2, m2 s1 = (inl a, s2) /\ forall i, ps_regs s2 i = ps_regs s1 i.

Lemma redo_ret {A} (a : A) : redo (mret a) (mret a).
Proof. intros s ? ? [= <- <-]. split; [done|]. intros s1 _. by exists s1. Qed.

Lemma redo_bind {A B} (m1 m2 : pm R A) (f1 f2 : A -> pm R B) :
  redo m1 m2 -> (forall a, redo (f1 a) (f2 a)) -> redo (m1 ≫= f1) (m2 ≫= f2).
Proof.
  intros Hm Hf s b s'. unfold mbind, pm_bind. destruct (m1 s) as [[a|e] s1] eqn:E1; [|done].
  intros E2. destruct (Hm _ _ _ E1) as [Hx1 H1]. destruct (Hf _ _ _ _ E2) as [Hx2 H2].
  split; [by etrans|]. intros t Ht. destruct (H1 t) as (t1 & -> & Hr1); [by etrans|].
  destruct (H2 t1) as (t2 & -> & Hr2).
  { intros i d c Hd. rewrite Hr1. by apply Ht. }
  exists t2. split; [done|]. intros i. by rewrite Hr2, Hr1.
Qed.

Lemma redo_register reg t name help labels b1 b2 what :
  redo (register reg t name help labels b1 what) (register reg t name help labels b2 what).
Proof.
  intros s c s' E. apply register_ok in E as (Hr & Ht & Hx). split; [done|].
  intros s1 H1. apply register_again; [by apply H1|done].
Qed.

Lemma NewMetrics_redo reg opts1 opts2 : redo (NewMetrics reg opts1) (NewMetrics reg opts2).
Proof. unfold NewMetrics. do 13 (apply redo_bind; [apply redo_register|intros ?]). apply redo_ret. Qed.

End registration.

(** ** Counters *)

Definition valid_label (s : string) : Prop := ValidString (String.list_byte_of_string s) = true.
(** A float64 counts exactly up to here. *)
Definition counter_max : Z := 2 ^ 53.

(** One step of a counter: the series of [c] with the label values [lvs] grows by [k]. *)
Definition bump : Type := collector * list string * Z.
Definition bump_of (c : collector) (lvs : list string) (b : bump) : Z :=
  let '(c', lvs', k) := b in
  if decide (c_ref c' = c_ref c /\ lvs' = lvs) then k else 0.
(** A step the client library accepts. *)
Definition bump_ok (b : bump) : Prop :=
  let '(c, lvs, k) := b in
  c_type c = CounterVec /\ length lvs = length (c_labels c) /\ Forall valid_label lvs /\ 0 <= k.

Class PromClientLaws (S : Type) `{PromClient S} : Prop := {
  vec_add_ok s c lvs k : bump_ok (c, lvs, k) -> counter s c lvs + k <= counter_max ->
    exists s', vec_call (VAdd c lvs (float64_of_int k)) s = (Returns tt, s') /\
      forall c' l', counter s' c' l' = counter s c' l' + bump_of c' l' (c, lvs, k);
  vec_inc_ok s c lvs : bump_ok (c, lvs, 1) -> counter s c lvs + 1 <= counter_max ->
    exists s', vec_call (VInc c lvs) s = (Returns tt, s') /\
      forall c' l', counter s' c' l' = counter s c' l' + bump_of c' l' (c, lvs, 1);
  vec_observe_counter s c lvs v c' l' :
    counter (vec_call (VObserve c lvs v) s).2 c' l' = counter s c' l';
  vec_set_counter s c lvs v c' l' :
    counter (vec_call (VSet c lvs v) s).2 c' l' = counter s c' l'
}.

(** The counter steps of the events the API reports; the other events move no counter
    of these. *)
Definition event_bumps (m : PromMetrics) (e : event) : list bump :=
  match e with
  | EvPublish q n => [(publishes m, [q], n)]
  | EvAck q ok => [(acks m, [q; if ok then "ack" else "nack"], 1)]
  | _ => []
  end.
Definition api_event (e : event) : Prop :=
  match e with
  | EvPublish q n => valid_label q /\ 0 <= n
  | EvAck q _ => valid_label q
  | _ => False
  end.

Definition tally (c : collector) (lvs : list string) (bs : list bump) : Z :=
  foldr (fun b acc => bump_of c lvs b + acc) 0 bs.

Lemma tally_app c lvs b1 b2 : tally c lvs (b1 ++ b2) = tally c lvs b1 + tally c lvs b2.
Proof. unfold tally. induction b1 as [|b b1 IH]; [done|]. cbn [app foldr]. rewrite IH. lia. Qed.

Section counting.
Context {Ctx S : Type} `{PromClientLaws S} (m : PromMetrics).
(** The collectors have their documented types and labels. *)
Hypothesis Hm : Forall (fun '(c, t, name, labels) => c_type c = t /\ c_labels c = labels) (catalogue m).

Lemma event_bumps_ok e : api_event e -> Forall bump_ok (event_bumps m e).
Proof using Hm.
  pose proof Hm as Hm'. unfold catalogue in Hm'. rewrite !Forall_cons_iff in Hm'.
  destruct Hm' as ([Ht1 Hl1] & _ & _ & [Ht2 Hl2] & _).
  assert (valid_label "ack" /\ valid_label "nack") as [? ?] by (by split).
  destruct e; try done; cbn [event_bumps api_event].
  - intros [Hq Hn]. repeat constructor; try done. by rewrite Hl1.
  - intros Hq. constructor; [|constructor]. split; [done|]. rewrite Hl2. split; [done|]. split; [|lia].
    by destruct ok; repeat constructor.
Qed.

Lemma tally_nonneg c lvs bs : Forall bump_ok bs -> 0 <= tally c lvs bs.
Proof.
  induction 1 as [|[[c' l'] k] bs (_ & _ & _ & Hk) _ IH]; [done|]. cbn [tally foldr].
  fold (tally c lvs bs). unfold bump_of. case_decide; lia.
Qed.

(** A recorded event moves exactly its counters. *)
Lemma record_event_counter (ctx : Ctx) e s :
  api_event e ->
  (forall c lvs, counter s c lvs + tally c lvs (event_bumps m e) <= counter_max) ->
  exists s', record_event (prom_recorder m) ctx e s = (Returns tt, s') /\
    forall c lvs, counter s' c lvs = counter s c lvs + tally c lvs (event_bumps m e).
Proof using Hm H0.
  intros He Hb. pose proof (event_bumps_ok e He) as Hok.
  assert (forall b : bump, event_bumps m e = [b] -> bump_ok b /\
    counter s b.1.1 b.1.2 + b.2 <= counter_max) as Hone.
  { intros [[c lvs] k] Eb. rewrite Eb in *. split; [by inversion Hok|].
    specialize (Hb c lvs). cbn in Hb. rewrite decide_True in Hb by done. cbn. lia. }
  destruct e; try done.
  - destruct (Hone _ eq_refl) as [Hok1 Hb1]. destruct (vec_add_ok s _ _ _ Hok1 Hb1) as (s' & E & Hs').
    exists s'. split; [cbn; by rewrite E|]. intros c lvs. rewrite Hs'. cbn [event_bumps tally foldr]. lia.
  - destruct (Hone _ eq_refl) as [Hok1 Hb1]. destruct (vec_inc_ok s _ _ Hok1 Hb1) as (s' & E & Hs').
    exists s'. split; [cbn; by destruct ok; rewrite E|]. intros c lvs. rewrite Hs'.
    cbn [event_bumps tally foldr]. lia.
Qed.

Lemma play_counter {T} (hk : hooks Ctx T S) l s :
  h_metrics hk = Some (prom_recorder m) -> Forall api_event l.*2 ->
  (forall c lvs, counter s c lvs + tally c lvs (l.*2 ≫= event_bumps m) <= counter_max) ->
  forall c lvs, counter (play hk l s) c lvs = counter s c lvs + tally c lvs (l.*2 ≫= event_bumps m).
Proof using Hm H0.
  intros Hk. unfold play. rewrite Hk. revert s. induction l as [|[ctx e] l IH]; intros s Hl Hb c lvs.
  { cbn. lia. }
  rewrite fmap_cons in Hl. apply Forall_cons_iff in Hl as [He Hl].
  assert (forall c lvs, tally c lvs (((ctx, e) :: l).*2 ≫= event_bumps m) =
    tally c lvs (event_bumps m e) + tally c lvs (l.*2 ≫= event_bumps m)) as Hcons
    by (intros; apply tally_app).
  assert (Forall bump_ok (l.*2 ≫= event_bumps m)) as Hok.
  { clear -Hl Hm. induction Hl as [|e es He _ IH]; [constructor|].
    cbn. apply Forall_app. split; [by apply event_bumps_ok|done]. }
  destruct (record_event_counter ctx e s He) as (s' & E & Hs').
  { intros c' l'. specialize (Hb c' l'). rewrite Hcons in Hb. pose proof (tally_nonneg c' l' _ Hok). lia. }
  cbn [fold_left]. cbn [fst snd]. rewrite E. cbn [snd]. rewrite (IH s' Hl), Hs', Hcons; [lia|].
  intros c' l'. specialize (Hb c' l'). rewrite Hcons in Hb. rewrite Hs'. lia.
Qed.
End counting.

(** ** A run of the API *)

Inductive apiCall :=
| CallPublish (name : string) (payload : option bytes) (opts : list PublishOption)
| CallPublishBatch (name : string) (ms : list PublishMessage)
| CallAck (r : Receipt)
| CallNack (r : Receipt) (reason : bytes) (opts : list NackOption).

Definition call_queue (c : apiCall) : string :=
  match c with
  | CallPublish q _ _ | CallPublishBatch q _ => q
  | CallAck r | CallNack r _ _ => r_QueueName r
  end.

(** What a call that succeeded adds to the counters. *)
Definition published_by (q : string) (c : apiCall) : Z :=
  match c with
  | CallPublish q' _ _ => if decide (q' = q) then 1 else 0
  | CallPublishBatch q' ms => if decide (q' = q) then Z.of_nat (length ms) else 0
  | _ => 0
  end.
Definition acked_by (q : string) (ok : bool) (c : apiCall) : Z :=
  match c with
  | CallAck r => if decide (r_QueueName r = q /\ ok = true) then 1 else 0
  | CallNack r _ _ => if decide (r_QueueName r = q /\ ok = false) then 1 else 0
  | _ => 0
  end.
(** The messages a call is about. *)
Definition call_volume (c : apiCall) : Z :=
  match c with CallPublishBatch _ ms => Z.of_nat (length ms) | _ => 1 end.

Definition sum_calls (f : apiCall -> Z) (cs : list apiCall) : Z := foldr (fun c acc => f c + acc) 0 cs.
(** The sum over the calls that succeeded. *)
Definition sum_ok (f : apiCall -> Z) (cs : list apiCall) (oks : list bool) : Z :=
  foldr (fun x acc => (if x.2 : bool then f x.1 else 0) + acc) 0 (zip cs oks).

Section api.
Context {Ctx T M : Type} (hk : hooks Ctx T M) (under : Ctx -> oracle -> oracle).
Context `{Server} (cfg : queueConfig) (uuid_String : uuid -> string).

Definition succeeded {A} (m : act T M (result A)) : act T M bool :=
  r ← m; mret (match r with Ok _ => true | Err _ => false end).

Definition run_call (ctx : Ctx) (c : apiCall) : act T M bool :=
  match c with
  | CallPublish q payload opts => succeeded (Publish_observed hk under cfg ctx q payload opts)
  | CallPublishBatch q ms => succeeded (PublishBatch_observed hk under cfg ctx q ms)
  | CallAck r => succeeded (Ack_observed hk under uuid_String ctx r)
  | CallNack r reason opts => succeeded (Nack_observed hk under cfg uuid_String ctx r reason opts)
  end.

(** The calls one after the other; for each, whether it succeeded. *)
Fixpoint run_calls (ctx : Ctx) (cs : list apiCall) : act T M (list bool) :=
  match cs with
  | [] => mret []
  | c :: cs => ok ← run_call ctx c; oks ← run_calls ctx cs; mret (ok :: oks)
  end.

Definition call_events (c : apiCall) (ok : bool) : list event :=
  if ok then
    match c with
    | CallPublish q _ _ => [EvPublish q 1]
    | CallPublishBatch q ms => if ms is [] then [] else [EvPublish q (Z.of_nat (length ms))]
    | CallAck r => [EvAck (r_QueueName r) true]
    | CallNack r _ _ => [EvAck (r_QueueName r) false]
    end
  else [].

Lemma run_call_events o p ctx c :
  wpa o p (run_call ctx c) (fun ok p' => exists w, after hk p w (call_events c ok) 0 p').
Proof.
  assert (forall A (m : act T M (result A)) n e,
    mirrors hk under (fun c => c) ctx m n (on_success (fun _ => e)) ->
    wpa o p (succeeded m) (fun ok p' => exists w, after hk p w (if ok then e else []) 0 p')) as Hgen.
  { intros A m n e Hm. apply wpa_bind. eapply wpa_mono; [apply Hm|]. cbv beta.
    intros r p' (w & Ha & _). exists w. by destruct r. }
  destruct c; cbn [run_call].
  - apply (Hgen _ _ _ [EvPublish name 1] (Publish_mirrors hk under _ cfg ctx name payload opts)).
  - apply (Hgen _ _ _ (if ms is [] then [] else [EvPublish name (Z.of_nat (length ms))])
      (PublishBatch_mirrors hk under _ cfg ctx name ms)).
  - apply (Hgen _ _ _ [EvAck (r_QueueName r) true] (Ack_mirrors hk under _ uuid_String ctx r)).
  - apply (Hgen _ _ _ [EvAck (r_QueueName r) false] (Nack_mirrors hk under _ cfg uuid_String ctx r reason opts)).
Qed.

Lemma run_calls_events o p ctx cs :
  wpa o p (run_calls ctx cs) (fun oks p' => length oks = length cs /\
    exists w, after hk p w (zip cs oks ≫= (fun x => call_events x.1 x.2)) 0 p').
Proof.
  revert p. induction cs as [|c cs IH]; intros p; cbn [run_calls].
  { split; [done|]. exists (p_world p). apply after_refl. }
  apply wpa_bind. eapply wpa_mono; [apply run_call_events|]. cbv beta. intros ok p1 [w1 H1].
  apply wpa_bind. eapply wpa_mono; [apply IH|]. cbv beta. intros oks p2 (Hlen & w2 & H2).
  split; [cbn; lia|]. exists w2. apply (after_trans _ _ _ _ _ _ _ _ 0 0 H1 H2).
Qed.
End api.

(** *** The counters a run moves *)

Section run_tally.
Context (m : PromMetrics).

Definition run_bumps (cs : list apiCall) (oks : list bool) : list bump :=
  (zip cs oks ≫= (fun x => call_events x.1 x.2)) ≫= event_bumps m.

Lemma run_bumps_cons c cs ok oks :
  run_bumps (c :: cs) (ok :: oks) = (call_events c ok ≫= event_bumps m) ++ run_bumps cs oks.
Proof. unfold run_bumps. cbn [zip zip_with]. by rewrite bind_cons, bind_app. Qed.

(** A tally over a run is the sum of what the successful calls contribute. *)
Lemma tally_run c lvs (f : apiCall -> Z) cs oks :
  (forall c', tally c lvs (call_events c' true ≫= event_bumps m) = f c') ->
  length oks = length cs -> tally c lvs (run_bumps cs oks) = sum_ok f cs oks.
Proof.
  intros Hf. revert oks. induction cs as [|c' cs IH]; intros [|ok oks] Hlen; try done.
  rewrite run_bumps_cons, tally_app, IH by (cbn in Hlen; lia).
  unfold sum_ok. cbn [zip zip_with foldr fst snd]. f_equal. destruct ok; [apply Hf|done].
Qed.

Lemma tally_publishes q c :
  tally (publishes m) [q] (call_events c true ≫= event_bumps m) = published_by q c.
Proof.
  destruct c as [q' pl opts|q' ms|r|r reason opts]; cbn [call_events published_by].
  - cbn. destruct (decide (q' = q)) as [->|]; [rewrite decide_True by done; lia|].
    rewrite decide_False; [lia|]. intros [_ [=]]. done.
  - destruct ms as [|x ms]; [cbn; by case_decide|]. cbn.
    destruct (decide (q' = q)) as [->|]; [rewrite decide_True by done; lia|].
    rewrite decide_False; [lia|]. intros [_ [=]]. done.
  - cbn. rewrite decide_False; [done|]. by intros [_ [=]].
  - cbn. rewrite decide_False; [done|]. by intros [_ [=]].
Qed.

Lemma tally_acks q (ok : bool) c :
  tally (acks m) [q; if ok then "ack" else "nack"] (call_events c true ≫= event_bumps m) =
    acked_by q ok c.
Proof.
  destruct c as [q' pl opts|q' ms|r|r reason opts]; cbn [call_events acked_by].
  - cbn. rewrite decide_False; [done|]. by intros [_ [=]].
  - destruct ms as [|x ms]; [done|]. cbn. rewrite decide_False; [done|]. by intros [_ [=]].
  - cbn. destruct (decide (r_QueueName r = q /\ ok = true)) as [[-> ->]|Hn].
    + rewrite decide_True by done. lia.
    + rewrite decide_False; [lia|]. intros [_ Hl]. apply Hn. destruct ok; by injection Hl.
  - cbn. destruct (decide (r_QueueName r = q /\ ok = false)) as [[-> ->]|Hn].
    + rewrite decide_True by done. lia.
    + rewrite decide_False; [lia|]. intros [_ Hl]. apply Hn. destruct ok; by injection Hl.
Qed.

(** No series grows by more than the number of messages involved. *)
Lemma tally_bound c lvs cs oks :
  length oks = length cs -> tally c lvs (run_bumps cs oks) <= sum_calls call_volume cs.
Proof.
  revert oks. induction cs as [|c' cs IH]; intros [|ok oks] Hlen; try done.
  rewrite run_bumps_cons, tally_app. specialize (IH oks ltac:(cbn in Hlen; lia)).
  cbn [sum_calls foldr]. fold (sum_calls call_volume cs).
  assert (tally c lvs (call_events c' ok ≫= event_bumps m) <= call_volume c'); [|lia].
  destruct ok; [|destruct c'; cbn; lia].
  destruct c' as [q' pl opts|q' ms|r|r reason opts]; cbn [call_events call_volume];
    try (destruct ms as [|x ms]; [cbn; lia|]); cbn -[Z.of_nat]; case_decide; lia.
Qed.

Lemma run_api_events cs oks :
  Forall (fun c => valid_label (call_queue c)) cs ->
  Forall api_event (zip cs oks ≫= (fun x => call_events x.1 x.2)).
Proof.
  intros Hv. revert oks. induction Hv as [|c cs Hc _ IH]; intros oks; [constructor|].
  destruct oks as [|ok oks]; [constructor|]. cbn [zip zip_with]. rewrite bind_cons.
  apply Forall_app. split; [|apply IH]. destruct ok; [|constructor].
  destruct c as [q' pl opts|q' [|x ms]|r|r reason opts]; cbn in Hc |- *;
    [|apply Forall_nil_2|..]; apply Forall_singleton; cbn; [|..|exact Hc|exact Hc]; split; [done|lia|done|lia].
Qed.
End run_tally.

(** ** A registry and a client

    A registry that knows descriptors by name, and a client that checks its
    arguments like the library and keeps the counters. *)
Abbreviation map_registry := (gmap descr collector).
Definition find_descr (r : map_registry) (d : descr) : option collector :=
  c ← r !! d; if decide (Describe c = d) then Some c else None.
#[export] Instance map_registerer : Registerer map_registry := {
  Register c r :=
    match find_descr r (Describe c) with
    | Some c0 => (Some (AlreadyRegisteredError c0), r)
    | None =>
        if existsb (fun x => bool_decide (d_name x.1 = c_name c)) (map_to_list r)
        then (Some (RegisterError "a previously registered descriptor with the same name has different label names or a different help string"), r)
        else (None, <[Describe c := c]> r)
    end;
  registered := find_descr
}.

Abbreviation counters := (gmap (nat * list string) N).
Definition accepts (t : goType) (c : collector) (lvs : list string) : bool :=
  bool_decide (c_type c = t) && (length lvs =? length (c_labels c))%nat &&
  forallb (fun l => ValidString (String.list_byte_of_string l)) lvs.
Definition counter_of (s : counters) (c : collector) (lvs : list string) : Z :=
  Z.of_N (default 0%N (s !! (c_ref c, lvs))).
Definition add_counter (c : collector) (lvs : list string) (k : Z) (s : counters) :
    outcome unit * counters :=
  if negb (accepts CounterVec c lvs) then (Panics "inconsistent label cardinality", s)
  else if k <? 0 then (Panics "counter cannot decrease in value", s)
  else (Returns tt, <[(c_ref c, lvs) := Z.to_N (counter_of s c lvs + k)]> s).
#[export] Instance map_client : PromClient counters := {
  vec_call call s :=
    match call with
    | VAdd c lvs v => add_counter c lvs (int_of_float64 (fun _ => 0) v) s
    | VInc c lvs => add_counter c lvs 1 s
    | VObserve c lvs _ =>
        (if accepts HistogramVec c lvs then Returns tt else Panics "inconsistent label cardinality", s)
    | VSet c lvs _ =>
        (if accepts GaugeVec c lvs then Returns tt else Panics "inconsistent label cardinality", s)
    end;
  counter := counter_of
}.

#[export] Instance map_registerer_laws : RegistererLaws map_registry.
Proof.
  assert (forall (c : collector) (r r' : map_registry), Register c r = (None, r') ->
    find_descr r (Describe c) = None /\ r' = <[Describe c := c]> r) as Hok.
  { intros c r r'. cbn. destruct (find_descr r (Describe c)); [done|].
    destruct (existsb _ _); [done|]. by intros [= <-]. }
  split; cbn [registered map_registerer].
  - intros r d c. unfold find_descr. destruct (r !! d); [|done]. cbn. case_decide; [|done].
    by intros [= <-].
  - intros c r r' [_ ->]%Hok d. unfold find_descr. case_decide as Hd.
    + subst d. rewrite lookup_insert_eq. cbn. by rewrite decide_True.
    + by rewrite lookup_insert_ne.
  - by intros c r r' [? _]%Hok.
  - intros c r c0 Hc. cbn. by rewrite Hc.
  - intros c r c0 r'. cbn. destruct (find_descr r (Describe c)); [by intros [= -> _]|].
    by destruct (existsb _ _).
  - intros c r e r'. cbn. destruct (find_descr r (Describe c)); [by intros [= _ ->]|].
    destruct (existsb _ _); [by intros [= _ ->]|done].
Qed.

Lemma add_counter_ok s c lvs k :
  bump_ok (c, lvs, k) -> exists s', add_counter c lvs k s = (Returns tt, s') /\
    forall c' l', counter_of s' c' l' = counter_of s c' l' + bump_of c' l' (c, lvs, k).
Proof.
  intros (Ht & Hl & Hv & Hk). unfold add_counter.
  assert (accepts CounterVec c lvs = true) as ->.
  { unfold accepts. rewrite Ht, Hl, Nat.eqb_refl, bool_decide_true by done. cbn.
    apply forallb_forall. intros l Hin. rewrite List.Forall_forall in Hv. by apply Hv. }
  cbn [negb]. rewrite (proj2 (Z.ltb_ge k 0)) by done. eexists. split; [done|]. intros c' l'.
  unfold counter_of, bump_of. destruct (decide (c_ref c = c_ref c' /\ lvs = l')) as [[<- <-]|Hne].
  - rewrite lookup_insert_eq. cbn. lia.
  - rewrite lookup_insert_ne; [lia|]. intros [= ? ?]. by apply Hne.
Qed.

#[export] Instance map_client_laws : PromClientLaws counters.
Proof.
  split; cbn [vec_call counter map_client].
  - intros s c lvs k Hok Hmax. rewrite float64_of_int_exact; [by apply add_counter_ok|].
    destruct Hok as (_ & _ & _ & Hk). unfold counter_of, counter_max in Hmax. lia.
  - intros s c lvs Hok _. by apply add_counter_ok.
  - done.
  - done.
Qed.

(** ** Theorems *)

(** A NewMetrics that succeeds registers what the package documents: each of the
    thirteen collectors is the one a scrape of the registerer finds under its name,
    with its type and labels; a collector that was already registered under one of
    the descriptors is the one reused, so one of another type makes the call fail;
    and a further call on the same registerer, whatever its options, returns the same
    collectors and registers nothing. *)
Theorem NewMetrics_registers_once {R : Type} `{RegistererLaws R} (reg : option nat)
    (opts : list PromOption) (s s' : promState R) (m : PromMetrics) :
  NewMetrics reg opts s = (inl m, s') ->
  let i := default DefaultRegisterer reg in
  Forall (scraped i s') (catalogue m) /\
  (forall c t name labels c0, (c, t, name, labels) ∈ catalogue m ->
     registered (ps_regs s i) (Describe c) = Some c0 -> c0 = c /\ c_type c0 = t) /\
  (forall opts', exists s'', NewMetrics reg opts' s' = (inl m, s'') /\
     forall j, ps_regs s'' j = ps_regs s' j).
Proof.
  intros HN i. destruct (NewMetrics_ok _ _ _ _ _ HN) as [He Hs]. fold i in Hs. split; [done|]. split.
  - intros c t name labels c0 Hin Hc0. eapply list_elem_of_In, List.Forall_forall in Hin; [|exact Hs].
    destruct Hin as (Hc & Ht & _). apply He in Hc0. assert (c0 = c) as -> by congruence. done.
  - intros opts'. destruct (NewMetrics_redo reg opts opts' _ _ _ HN) as [_ Hr]. by apply Hr.
Qed.

Definition fresh_registries : promState map_registry := mkPromState (fun _ => ∅) 0.
Definition sample_metrics : PromMetrics :=
  match NewMetrics None [] fresh_registries with
  | (inl m, _) => m
  | (inr _, _) => let c := mkCollector 0 CounterVec "" "" [] [] in mkPromMetrics c c c c c c c c c c c c c
  end.

Lemma sample_metrics_new : exists s', NewMetrics None [] fresh_registries = (inl sample_metrics, s').
Proof.
  destruct (NewMetrics None [] fresh_registries) as [r s'] eqn:E. exists s'. f_equal.
  unfold sample_metrics. rewrite E. destruct r; [reflexivity|]. exfalso.
  assert ((if (NewMetrics None [] fresh_registries).1 is inl _ then true else false) = true) as Hs
    by (vm_compute; reflexivity).
  rewrite E in Hs. discriminate Hs.
Qed.

Lemma NewMetrics_registers_once_witness :
  exists s' s'', NewMetrics None [] fresh_registries = (inl sample_metrics, s') /\
    NewMetrics None [WithLatencyBuckets [literal 1 2]] s' = (inl sample_metrics, s'').
Proof.
  destruct sample_metrics_new as [s' E]. exists s'.
  destruct (NewMetrics_registers_once None [] fresh_registries s' sample_metrics E) as (_ & _ & Hr).
  destruct (Hr [WithLatencyBuckets [literal 1 2]]) as (s'' & Hn & _). exists s''. exact (conj E Hn).
Defined.

(** C24: The counters tell what happened.  Over any sequence of publishes,
    acknowledgements and negative acknowledgements, with any tracer, the Prometheus
    counter of messages published to a queue grows by the messages of exactly the
    publishes to it that succeeded, and the counters of its acks and nacks by the
    calls that succeeded, as long as no series exceeds what a float64 counts exactly. *)
Theorem counters_tell_the_truth {Ctx T S R : Type} `{RegistererLaws R} `{PromClientLaws S} `{Server}
    (cfg : queueConfig) (uuid_String : uuid -> string) (hk : hooks Ctx T S)
    (under : Ctx -> oracle -> oracle) (reg : option nat)
    (opts : list PromOption) (s s' : promState R) (m : PromMetrics) (ctx : Ctx) (cs : list apiCall)
    (o : oracle) (p : proc T S) :
  NewMetrics reg opts s = (inl m, s') -> h_metrics hk = Some (prom_recorder m) ->
  Forall (fun c => valid_label (call_queue c)) cs ->
  (forall c lvs, counter (p_metrics p) c lvs + sum_calls call_volume cs <= counter_max) ->
  wpa o p (run_calls hk under cfg uuid_String ctx cs) (fun oks p' =>
    length oks = length cs /\ forall q,
      counter (p_metrics p') (publishes m) [q] =
        counter (p_metrics p) (publishes m) [q] + sum_ok (published_by q) cs oks /\
      forall ok : bool, counter (p_metrics p') (acks m) [q; if ok then "ack" else "nack"] =
        counter (p_metrics p) (acks m) [q; if ok then "ack" else "nack"] + sum_ok (acked_by q ok) cs oks).
Proof.
  intros HN Hk Hv Hb. destruct (NewMetrics_ok _ _ _ _ _ HN) as [_ Hs].
  assert (Forall (fun '(c, t, name, labels) => c_type c = t /\ c_labels c = labels) (catalogue m)) as Hm.
  { eapply Forall_impl; [|exact Hs]. intros [[[c t] name] labels] (_ & Ht & _ & Hl). done. }
  eapply wpa_mono; [apply run_calls_events|]. cbv beta. intros oks p' (Hlen & w & _ & _ & l & El & Hp').
  split; [done|].
  assert (forall c lvs, counter (p_metrics p') c lvs =
    counter (p_metrics p) c lvs + tally c lvs (run_bumps m cs oks)) as Hc.
  { intros c lvs. rewrite Hp'. unfold run_bumps. rewrite <-El. apply play_counter; [done|done| |].
    - rewrite El. by apply run_api_events.
    - intros c' l'. rewrite El. pose proof (tally_bound m c' l' cs oks Hlen) as Hle.
      unfold run_bumps in Hle. specialize (Hb c' l'). lia. }
  intros q. split; [|intros ok]; rewrite Hc; f_equal; apply tally_run; try done.
  - apply tally_publishes.
  - apply tally_acks.
Qed.

Definition prom_hooks : hooks unit unit counters := mkHooks (Some bad_tracer) (Some (prom_recorder sample_metrics)) true.
Definition sample_calls : list apiCall :=
  [CallPublish "jobs" (Some []) []; CallPublish "jobs" None []; CallPublishBatch "jobs" []].

Lemma counters_tell_the_truth_witness :
  wpa calm_oracle (mkProc sample_world tt (∅ : counters) [] 0)
    (run_calls prom_hooks (fun _ o => o) (H := truncating_server) sample_cfg (fun _ => "") tt sample_calls)
    (fun oks p' => counter (p_metrics p') (publishes sample_metrics) ["jobs"] =
       0 + sum_ok (published_by "jobs") sample_calls oks).
Proof.
  destruct sample_metrics_new as [s' HN].
  eapply wpa_mono.
  - apply (counters_tell_the_truth (H3 := truncating_server) sample_cfg (fun _ => "") prom_hooks (fun _ o => o) None []
      fresh_registries s' sample_metrics tt sample_calls).
    + exact HN.
    + reflexivity.
    + repeat constructor.
    + intros c lvs. vm_compute. discriminate.
  - intros oks p' [_ Hq]. exact (proj1 (Hq "jobs")).
Defined.
