(* ===== verification/OtelMetrics.v ===== *)
(** * The OpenTelemetry adapter ([otelpgqueue/otelpgqueue.go])

    [Tracer] adapts an OpenTelemetry tracer to the tracing hook, with the conversion
    of attributes, and [Metrics] adapts OpenTelemetry instruments to the metrics hook.
    The providers, tracers, spans and meters are third-party objects: arguments of
    the definitions. *)

From S2P Require Import Prelude Types Tx Backoff World Config GcChannel Replay Channel Consume Observability PromMetrics.
From Stdlib Require Import ZArith Lia.
Local Open Scope Z_scope.

(** ** Formatting of times *)

Definition digit_byte (d : Z) : Byte.byte :=
  match Byte.of_N (Z.to_N (48 + d mod 10)) with Some b => b | None => Byte.x30 end.
(** The last [k] decimal digits of [n]. *)
Fixpoint padded (k : nat) (n : Z) (acc : bytes) : bytes :=
  match k with
  | O => acc
  | Datatypes.S k => padded k (n / 10) (digit_byte n :: acc)
  end.

(** Year, month and day of a day counted from 1970-01-01 in the proleptic Gregorian
    calendar; a year begins in March here, so that the leap day comes last. *)
Definition civil (days : Z) : Z * Z * Z :=
  let z := days + 719468 in
  let doe := z mod 146097 in
  let yoe := (doe - doe / 1460 + doe / 36524 - doe / 146096) / 365 in
  let doy := doe - (365 * yoe + yoe / 4 - yoe / 100) in
  let mp := (5 * doy + 2) / 153 in
  let month := if mp <? 10 then mp + 3 else mp - 9 in
  (yoe + z / 146097 * 400 + (if month <=? 2 then 1 else 0), month, doy - (153 * mp + 2) / 5 + 1).

(** [t.Format(time.RFC3339Nano)] of an instant at an offset from UTC in minutes. *)
Definition RFC3339Nano (unix_ns offset_min : Z) : string :=
  let local := unix_ns + offset_min * minute in
  let '(year, month, day) := civil (local / (24 * hour)) in
  let tod := local mod (24 * hour) in
  let zone :=
    if offset_min =? 0 then String.list_byte_of_string "Z"
    else (if offset_min <? 0 then Byte.x2d else Byte.x2b) ::
      padded 2 (Z.abs offset_min / 60) (Byte.x3a :: padded 2 (Z.abs offset_min mod 60) []) in
  let '(frac, secs) := fmt_frac 9 tod false zone in
  let clock := padded 2 (secs / 3600) (Byte.x3a ::
    padded 2 (secs / 60 mod 60) (Byte.x3a :: padded 2 (secs mod 60) frac)) in
  let date := padded 2 month (Byte.x2d :: padded 2 day (Byte.x54 :: clock)) in
  let y := if Z.abs year <? 10000 then padded 4 (Z.abs year) (Byte.x2d :: date)
           else decimal 20 (Z.abs year) (Byte.x2d :: date) in
  String.string_of_list_byte (if year <? 0 then Byte.x2d :: y else y).

(** ** Attributes *)

Inductive attribute_Value :=
| KString (s : string) | KBool (b : bool) | KInt64 (z : Z) | KFloat64 (f : spec_float).
Record KeyValue := mkKeyValue { kv_Key : string; kv_Value : attribute_Value }.

(** [float64(v)] of a float32. *)
Definition float64_of_float32 (f : spec_float) : spec_float :=
  match f with
  | S754_finite s m e => binary_normalize 53 1024 (if s then Z.neg m else Z.pos m) e s
  | _ => f
  end.

(** [strconv.FormatUint(v, 10)] *)
Definition FormatUint (v : Z) : string := String.string_of_list_byte (decimal 20 v []).

Definition unsupported_attr (key go_type : string) : logLine :=
  mkLogLine LevelWarn "otelpgqueue: unsupported attribute value type, coerced via fmt.Sprintf"
    [("key", LString key); ("type", LString go_type)].

(** The second component is what is logged. *)
Definition toKeyValue (logger : bool) (a : Attr) : KeyValue * list logLine :=
  let key := a_Key a in
  match a_Value a with
  | AString v => (mkKeyValue key (KString v), [])
  | ABool v => (mkKeyValue key (KBool v), [])
  | AInt v => (mkKeyValue key (KInt64 (wrap64 v)), [])
  | AInt8 v => (mkKeyValue key (KInt64 (wrap64 v)), [])
  | AInt16 v => (mkKeyValue key (KInt64 (wrap64 v)), [])
  | AInt32 v => (mkKeyValue key (KInt64 (wrap64 v)), [])
  | AInt64 v => (mkKeyValue key (KInt64 v), [])
  | AUint8 v => (mkKeyValue key (KInt64 (wrap64 v)), [])
  | AUint16 v => (mkKeyValue key (KInt64 (wrap64 v)), [])
  | AUint32 v => (mkKeyValue key (KInt64 (wrap64 v)), [])
  | AUint v =>
      if int64_max <? v then (mkKeyValue key (KString (FormatUint v)), [])
      else (mkKeyValue key (KInt64 (wrap64 v)), [])
  | AUint64 v =>
      if int64_max <? v then (mkKeyValue key (KString (FormatUint v)), [])
      else (mkKeyValue key (KInt64 (wrap64 v)), [])
  | AFloat32 v => (mkKeyValue key (KFloat64 (float64_of_float32 v)), [])
  | AFloat64 v => (mkKeyValue key (KFloat64 v), [])
  | ADuration v => (mkKeyValue key (KInt64 v), [])
  | ATime ns off => (mkKeyValue key (KString (RFC3339Nano ns off)), [])
  | AError text => (mkKeyValue key (KString text), [])
  | AStringer text => (mkKeyValue key (KString text), [])
  | AOther go_type text =>
      (mkKeyValue key (KString text), if logger then [unsupported_attr key go_type] else [])
  end.

Definition toKeyValues (attrs : list Attr) (logger : bool) : list KeyValue * list logLine :=
  (map (fun a => (toKeyValue logger a).1) attrs, attrs ≫= (fun a => (toKeyValue logger a).2)).

(** ** The tracer *)

Definition instrumentationName : string := "github.com/sgaunet/pgqueue".

(** A span of OpenTelemetry. *)
Record OSpan (T : Type) := mkOSpan {
  os_End : method T unit;
  os_RecordError : spanError -> method T unit;
  os_SetStatus : string -> string -> method T unit;
  os_SetAttributes : list KeyValue -> method T unit
}.
#[global] Arguments mkOSpan {T}.
#[global] Arguments os_End {T}.
#[global] Arguments os_RecordError {T}.
#[global] Arguments os_SetStatus {T}.
#[global] Arguments os_SetAttributes {T}.

Section tracer.
Context {Ctx T : Type}.
(** [err.Error()] of what a span is told. *)
Context (error_text : spanError -> string).

(** [trace.Tracer]'s Start, which may return a nil span, and [trace.TracerProvider]. *)
Definition OTracer : Type := Ctx -> string -> list KeyValue -> method T (Ctx * option (OSpan T)).
Definition TracerProvider : Type := string -> OTracer.

(** The no-op span, and the tracer that starts it. *)
Definition noop_ospan : OSpan T :=
  mkOSpan (fun t => (Returns tt, t)) (fun _ t => (Returns tt, t)) (fun _ _ t => (Returns tt, t))
    (fun _ t => (Returns tt, t)).
Definition noop_tracer : OTracer := fun ctx _ _ t => (Returns (ctx, Some noop_ospan), t).

Record OtelTracer := mkOtelTracer { t_tracer : OTracer; t_logger : bool }.
Definition TracerOption : Type := OtelTracer -> OtelTracer.

Definition WithTracerLogger (logger : bool) : TracerOption := fun t =>
  mkOtelTracer (t_tracer t) logger.

Definition NewTracer (tp : option TracerProvider) (opts : list TracerOption) : OtelTracer :=
  let tracer := match tp with None => noop_tracer | Some tp => tp instrumentationName end in
  fold_left (fun t o => o t) opts (mkOtelTracer tracer false).

(** The adapter's state: that of the provider, and what its logger has written. *)
Definition logged (lines : list logLine) {A} (f : method T A) : method (T * list logLine) A :=
  fun '(t, lg) => let '(r, t') := f t in (r, (t', lg ++ lines)).

Definition then_ {S A B} (f : method S A) (g : A -> method S B) : method S B := fun s =>
  match f s with
  | (Returns a, s') => g a s'
  | (Panics v, s') => (Panics v, s')
  end.

(** [otelSpan]; [er] is [None] for a nil error. *)
Definition otelSpan_SetError (span : OSpan T) (er : option spanError) : method T unit :=
  match er with
  | None => fun t => (Returns tt, t)
  | Some x => then_ (os_RecordError span x) (fun _ => os_SetStatus span "Error" (error_text x))
  end.
Definition otelSpan_SetAttr (logger : bool) (span : OSpan T) (attrs : list Attr) :
    method (T * list logLine) unit :=
  let '(kvs, warnings) := toKeyValues attrs logger in
  logged warnings (os_SetAttributes span kvs).
Definition otelSpan (logger : bool) (span : OSpan T) : Span (T * list logLine) :=
  mkSpan (logged [] (os_End span))
    (fun x => logged [] (otelSpan_SetError span (Some x)))
    (otelSpan_SetAttr logger span).

Definition OtelStartSpan (t : OtelTracer) (ctx : Ctx) (name : string) (attrs : list Attr) :
    method (T * list logLine) (Ctx * option (Span (T * list logLine))) :=
  let '(kvs, warnings) := toKeyValues attrs (t_logger t) in
  then_ (logged warnings (t_tracer t ctx name kvs)) (fun '(ctx, span) st =>
    let span := match span with None => noop_ospan | Some span => span end in
    (Returns (ctx, Some (otelSpan (t_logger t) span)), st)).

(** [*Tracer] as a [pgqueue.Tracer]. *)
Definition otel_tracer (t : OtelTracer) : Tracer Ctx (T * list logLine) := mkTracer (OtelStartSpan t).

End tracer.

Example epoch_formats : RFC3339Nano 0 0 = "1970-01-01T00:00:00Z".
Proof. vm_compute. reflexivity. Qed.
Example leap_day_formats : RFC3339Nano 1709209845123450000 0 = "2024-02-29T12:30:45.12345Z".
Proof. vm_compute. reflexivity. Qed.
Example offset_formats : RFC3339Nano (-1) (-90) = "1969-12-31T22:29:59.999999999-01:30".
Proof. vm_compute. reflexivity. Qed.

(** ** The instruments *)

Inductive instrKind := Int64Counter | Float64Histogram | Int64Gauge.
#[export] Instance instrKind_eq_dec : EqDecision instrKind.
Proof. solve_decision. Defined.

Record instrument := mkInstrument {
  i_ref : nat;
  i_kind : instrKind;
  i_name : string
}.

(** [metric.Meter]: kind, name, description and unit of an instrument to the
    instrument, which may be nil, and an error. *)
Definition Meter : Type :=
  instrKind -> string -> string -> string -> option instrument * option string.
Definition MeterProvider : Type := string -> Meter.

Record OtelMetrics := mkOtelMetrics {
  om_logger : bool;
  om_publishes : option instrument;
  om_handleDur : option instrument;
  om_deliveryLatency : option instrument;
  om_acks : option instrument;
  om_ackAfterExpired : option instrument;
  om_queueDepth : option instrument;
  om_dlqSize : option instrument;
  om_metadataParseErrors : option instrument;
  om_gcRuns : option instrument;
  om_gcDuration : option instrument;
  om_gcReclaimed : option instrument;
  om_gcPurged : option instrument;
  om_missedNotifications : option instrument
}.

Definition empty_metrics : OtelMetrics :=
  mkOtelMetrics false None None None None None None None None None None None None None.
Definition MetricsOption : Type := OtelMetrics -> OtelMetrics.
Definition WithLogger_otel (logger : bool) : MetricsOption := fun m =>
  mkOtelMetrics logger (om_publishes m) (om_handleDur m) (om_deliveryLatency m) (om_acks m)
    (om_ackAfterExpired m) (om_queueDepth m) (om_dlqSize m) (om_metadataParseErrors m) (om_gcRuns m)
    (om_gcDuration m) (om_gcReclaimed m) (om_gcPurged m) (om_missedNotifications m).

(** [if err != nil { errs = append(errs, err) }] *)
Definition err_list (er : option string) : list string :=
  match er with None => [] | Some x => [x] end.

Definition buildInstruments (meter : Meter) (m : OtelMetrics) : OtelMetrics * list string :=
  let '(publishes, e1) := meter Int64Counter "pgqueue.publish.messages"
    "Messages published to pgqueue queues" "" in
  let '(handleDur, e2) := meter Float64Histogram "pgqueue.handle.duration"
    "Handler-only execution latency (excludes queue wait, fetch, and ack)" "s" in
  let '(deliveryLatency, e3) := meter Float64Histogram "pgqueue.delivery.latency"
    "Publish-to-delivery latency: time from message creation to handler start" "s" in
  let '(acks, e4) := meter Int64Counter "pgqueue.ack.total" "Acknowledgement outcomes (ack and nack)" "" in
  let '(ackAfterExpired, e5) := meter Int64Counter "pgqueue.ack.after_expired"
    "Receipts ack'd/nack'd after their claim expired or no longer matched; messages will redeliver" "" in
  let '(queueDepth, e6) := meter Int64Gauge "pgqueue.queue.depth" "Pending message count" "" in
  let '(dlqSize, e7) := meter Int64Gauge "pgqueue.dlq.size" "Dead-letter queue size" "" in
  let '(metadataParseErrors, e8) := meter Int64Counter "pgqueue.metadata.parse_errors"
    "Messages whose JSON metadata column could not be parsed; metadata is dropped, delivery continues" "" in
  let '(gcRuns, e9) := meter Int64Counter "pgqueue.gc.runs"
    "Garbage-collector passes by queue and outcome" "" in
  let '(gcDuration, e10) := meter Float64Histogram "pgqueue.gc.duration"
    "Wall-clock duration of a per-queue garbage-collector pass" "s" in
  let '(gcReclaimed, e11) := meter Int64Counter "pgqueue.gc.reclaimed"
    "Timed-out messages reset to pending by the garbage collector" "" in
  let '(gcPurged, e12) := meter Int64Counter "pgqueue.gc.purged"
    "Messages deleted by the retention policy during a GC pass" "" in
  let '(missedNotifications, e13) := meter Int64Counter "pgqueue.missed_notifications"
    "LISTEN/NOTIFY confirmations that failed; notifications dropped until re-confirmed" "" in
  (mkOtelMetrics (om_logger m) publishes handleDur deliveryLatency acks ackAfterExpired queueDepth
     dlqSize metadataParseErrors gcRuns gcDuration gcReclaimed gcPurged missedNotifications,
   err_list e1 ++ err_list e2 ++ err_list e3 ++ err_list e4 ++ err_list e5 ++ err_list e6 ++
   err_list e7 ++ err_list e8 ++ err_list e9 ++ err_list e10 ++ err_list e11 ++ err_list e12 ++
   err_list e13).

(** [noop] is the no-op provider of the library; the second component is the error
    list that is logged, if anything is. *)
Definition NewOtelMetrics (noop : MeterProvider) (mp : option MeterProvider)
    (opts : list MetricsOption) : OtelMetrics * option (list string) :=
  let mp := match mp with None => noop | Some mp => mp end in
  let m := fold_left (fun m o => o m) opts empty_metrics in
  let '(m, errs) := buildInstruments (mp instrumentationName) m in
  (m, if (0 <? length errs)%nat && om_logger m then Some errs else None).

(** ** Recording *)

Inductive measurement (Ctx : Type) :=
| MAdd (i : instrument) (ctx : Ctx) (z : Z) (attrs : list KeyValue)
| MRecordInt (i : instrument) (ctx : Ctx) (z : Z) (attrs : list KeyValue)
| MRecordFloat (i : instrument) (ctx : Ctx) (v : spec_float) (attrs : list KeyValue).
#[global] Arguments MAdd {Ctx}.
#[global] Arguments MRecordInt {Ctx}.
#[global] Arguments MRecordFloat {Ctx}.

Definition queueAttr (queue : string) : list KeyValue := [mkKeyValue "queue" (KString queue)].

Section record.
Context {Ctx : Type} (m : OtelMetrics).

(** [if m.x != nil { ... }] *)
Definition with_instrument (x : option instrument) (f : instrument -> measurement Ctx) :
    list (measurement Ctx) :=
  match x with None => [] | Some i => [f i] end.

Definition OtelRecordPublish (ctx : Ctx) (queue : string) (count : Z) :=
  with_instrument (om_publishes m) (fun i => MAdd i ctx count (queueAttr queue)).
Definition OtelRecordHandle (ctx : Ctx) (queue : string) (latency : Duration) :=
  with_instrument (om_handleDur m)
    (fun i => MRecordFloat i ctx (Duration_Seconds latency) (queueAttr queue)).
Definition OtelRecordDeliveryLatency (ctx : Ctx) (queue : string) (latency : Duration) :=
  with_instrument (om_deliveryLatency m)
    (fun i => MRecordFloat i ctx (Duration_Seconds latency) (queueAttr queue)).
Definition OtelRecordAck (ctx : Ctx) (queue : string) (ok : bool) :=
  with_instrument (om_acks m)
    (fun i => MAdd i ctx 1 [mkKeyValue "queue" (KString queue); mkKeyValue "ack" (KBool ok)]).
Definition OtelRecordAckAfterExpired (ctx : Ctx) (queue : string) (n : Z) :=
  with_instrument (om_ackAfterExpired m) (fun i => MAdd i ctx n (queueAttr queue)).
Definition OtelObserveQueueDepth (ctx : Ctx) (queue : string) (depth : Z) :=
  with_instrument (om_queueDepth m) (fun i => MRecordInt i ctx depth (queueAttr queue)).
Definition OtelObserveDLQSize (ctx : Ctx) (queue : string) (size : Z) :=
  with_instrument (om_dlqSize m) (fun i => MRecordInt i ctx size (queueAttr queue)).
Definition OtelRecordMetadataParseError (ctx : Ctx) (queue : string) :=
  with_instrument (om_metadataParseErrors m) (fun i => MAdd i ctx 1 (queueAttr queue)).
Definition OtelRecordGCRun (ctx : Ctx) (queue : string) (duration : Duration) (reclaimed purged : Z)
    (er : option err) :=
  let result := if er is Some _ then "error" else "ok" in
  let attrs := [mkKeyValue "queue" (KString queue); mkKeyValue "result" (KString result)] in
  with_instrument (om_gcRuns m) (fun i => MAdd i ctx 1 attrs) ++
  with_instrument (om_gcDuration m)
    (fun i => MRecordFloat i ctx (Duration_Seconds duration) (queueAttr queue)) ++
  (if 0 <? reclaimed then
     with_instrument (om_gcReclaimed m) (fun i => MAdd i ctx reclaimed (queueAttr queue)) else []) ++
  (if 0 <? purged then
     with_instrument (om_gcPurged m) (fun i => MAdd i ctx purged (queueAttr queue)) else []).
Definition OtelRecordMissedNotification (ctx : Ctx) (queue : string) :=
  with_instrument (om_missedNotifications m) (fun i => MAdd i ctx 1 (queueAttr queue)).

Definition otel_calls (ctx : Ctx) (e : event) : list (measurement Ctx) :=
  match e with
  | EvPublish q n => OtelRecordPublish ctx q n
  | EvHandle q d => OtelRecordHandle ctx q d
  | EvDeliveryLatency q d => OtelRecordDeliveryLatency ctx q d
  | EvAck q ok => OtelRecordAck ctx q ok
  | EvAckAfterExpired q n => OtelRecordAckAfterExpired ctx q n
  | EvQueueDepth q n => OtelObserveQueueDepth ctx q n
  | EvDLQSize q n => OtelObserveDLQSize ctx q n
  | EvMetadataParseError q => OtelRecordMetadataParseError ctx q
  | EvGCRun q d r p er => OtelRecordGCRun ctx q d r p er
  | EvMissedNotification q => OtelRecordMissedNotification ctx q
  end.

(** [*Metrics] as a [pgqueue.MetricsRecorder], over instruments with state [S]. *)
Definition otel_recorder {S} (exec : measurement Ctx -> method S unit) : MetricsRecorder Ctx S :=
  let run calls := exec_calls exec calls in
  mkMetricsRecorder
    (fun ctx q n => run (OtelRecordPublish ctx q n))
    (fun ctx q d => run (OtelRecordHandle ctx q d))
    (fun ctx q d => run (OtelRecordDeliveryLatency ctx q d))
    (fun ctx q ok => run (OtelRecordAck ctx q ok))
    (fun ctx q n => run (OtelRecordAckAfterExpired ctx q n))
    (fun ctx q n => run (OtelObserveQueueDepth ctx q n))
    (fun ctx q n => run (OtelObserveDLQSize ctx q n))
    (fun ctx q => run (OtelRecordMetadataParseError ctx q))
    (fun ctx q d r p er => run (OtelRecordGCRun ctx q d r p er))
    (fun ctx q => run (OtelRecordMissedNotification ctx q)).

End record.

(** ** The two backends *)

(** The same metric under its Prometheus and its OpenTelemetry name. *)
Definition metric_names : list (string * string) :=
  [("pgqueue_publish_messages_total", "pgqueue.publish.messages");
   ("pgqueue_handle_duration_seconds", "pgqueue.handle.duration");
   ("pgqueue_delivery_latency_seconds", "pgqueue.delivery.latency");
   ("pgqueue_ack_total", "pgqueue.ack.total");
   ("pgqueue_ack_after_expired_total", "pgqueue.ack.after_expired");
   ("pgqueue_queue_depth", "pgqueue.queue.depth");
   ("pgqueue_dlq_size", "pgqueue.dlq.size");
   ("pgqueue_metadata_parse_errors_total", "pgqueue.metadata.parse_errors");
   ("pgqueue_gc_runs_total", "pgqueue.gc.runs");
   ("pgqueue_gc_duration_seconds", "pgqueue.gc.duration");
   ("pgqueue_gc_reclaimed_total", "pgqueue.gc.reclaimed");
   ("pgqueue_gc_purged_total", "pgqueue.gc.purged");
   ("pgqueue_missed_notifications_total", "pgqueue.missed_notifications")].

(** A label and an attribute that say the same; the outcome of an acknowledgement
    is the documented exception. *)
Definition label_agrees (metric : string) (l : string * string) (kv : KeyValue) : Prop :=
  (kv_Key kv = l.1 /\ kv_Value kv = KString l.2) \/
  (metric = "pgqueue_ack_total" /\ l.1 = "result" /\ kv_Key kv = "ack" /\
   exists ok : bool, kv_Value kv = KBool ok /\ l.2 = if ok then "ack" else "nack").
Definition series_agrees (c : collector) (lvs : list string) (i : instrument) (attrs : list KeyValue) :
    Prop :=
  (c_name c, i_name i) ∈ metric_names /\
  Forall2 (label_agrees (c_name c)) (zip (c_labels c) lvs) attrs.

(** The same observation in both backends: integers reach Prometheus as float64. *)
Definition observation_agrees {Ctx} (call : vecCall) (x : measurement Ctx) : Prop :=
  match call, x with
  | VAdd c lvs v, MAdd i _ z attrs => series_agrees c lvs i attrs /\ v = float64_of_int z
  | VInc c lvs, MAdd i _ z attrs => series_agrees c lvs i attrs /\ z = 1
  | VObserve c lvs v, MRecordFloat i _ v' attrs => series_agrees c lvs i attrs /\ v = v'
  | VSet c lvs v, MRecordInt i _ z attrs => series_agrees c lvs i attrs /\ v = float64_of_int z
  | _, _ => False
  end.

(** ** Lemmas *)

(** *** Decimal digits *)

Definition digit_value (b : Byte.byte) : Z := Z.of_N (Byte.to_N b) - 48.
Definition parse_decimal (s : bytes) : Z := fold_left (fun acc b => 10 * acc + digit_value b) s 0.

Lemma digit_value_byte d : digit_value (digit_byte d) = d mod 10.
Proof.
  unfold digit_value, digit_byte. pose proof (Z.mod_pos_bound d 10 ltac:(lia)) as Hd.
  destruct (Byte.of_N (Z.to_N (48 + d mod 10))) as [b|] eqn:E.
  - apply Byte.to_of_N_iff in E. rewrite E. lia.
  - apply Byte.of_N_None_iff in E. lia.
Qed.

Lemma parse_from acc s : fold_left (fun acc b => 10 * acc + digit_value b) s acc =
  acc * 10 ^ Z.of_nat (length s) + parse_decimal s.
Proof.
  unfold parse_decimal. revert acc. induction s as [|b s IH]; intros acc; [cbn; lia|].
  cbn [fold_left length]. rewrite IH, (IH (10 * 0 + digit_value b)).
  rewrite Nat2Z.inj_succ, Z.pow_succ_r by lia. lia.
Qed.

Lemma parse_decimal_correct fuel n acc :
  0 <= n < 10 ^ Z.of_nat fuel -> (0 < fuel)%nat ->
  parse_decimal (decimal fuel n acc) = n * 10 ^ Z.of_nat (length acc) + parse_decimal acc.
Proof.
  revert n acc. induction fuel as [|fuel IH]; intros n acc Hn Hf; [lia|]. cbn [decimal].
  change (match Byte.of_N (Z.to_N (48 + n mod 10)) with Some b => b | None => Byte.x30 end)
    with (digit_byte n).
  assert (parse_decimal (digit_byte n :: acc) =
    (n mod 10) * 10 ^ Z.of_nat (length acc) + parse_decimal acc) as Hcons.
  { unfold parse_decimal at 1. cbn [fold_left]. rewrite parse_from, digit_value_byte. lia. }
  destruct (Z.ltb_spec n 10).
  - rewrite Hcons, Z.mod_small by lia. done.
  - rewrite Nat2Z.inj_succ, Z.pow_succ_r in Hn by lia. destruct fuel as [|fuel]; [cbn in Hn; lia|].
    rewrite IH; [|split; [apply Z.div_pos; lia|apply Z.div_lt_upper_bound; lia]|lia].
    rewrite Hcons. cbn [length]. rewrite Nat2Z.inj_succ, Z.pow_succ_r by lia.
    pose proof (Z.div_mod n 10 ltac:(lia)). nia.
Qed.

(** *** Attributes of an integer type *)

(** The value of an integer attribute, when it is in the range of its Go type. *)
Definition integer_attr (v : attrValue) : option Z :=
  let range z lo hi := if (lo <=? z) && (z <=? hi) then Some z else None in
  match v with
  | AInt z | AInt64 z | ADuration z => range z int64_min int64_max
  | AInt8 z => range z (-128) 127
  | AInt16 z => range z (-32768) 32767
  | AInt32 z => range z (-2147483648) 2147483647
  | AUint z | AUint64 z => range z 0 (2 ^ 64 - 1)
  | AUint8 z => range z 0 255
  | AUint16 z => range z 0 65535
  | AUint32 z => range z 0 4294967295
  | _ => None
  end.
(** What a reader of the span finds. *)
Definition read_integer (v : attribute_Value) : option Z :=
  match v with
  | KInt64 z => Some z
  | KString s => Some (parse_decimal (String.list_byte_of_string s))
  | _ => None
  end.

Lemma FormatUint_parse v :
  0 <= v < 2 ^ 64 -> parse_decimal (String.list_byte_of_string (FormatUint v)) = v.
Proof.
  intros Hv. unfold FormatUint. rewrite String.list_byte_of_string_of_list_byte.
  rewrite parse_decimal_correct; [cbn [length Z.of_nat parse_decimal fold_left]; lia| |lia].
  change (10 ^ Z.of_nat 20) with 100000000000000000000. lia.
Qed.

(** *** Spans *)

(** The spans a tracer of OpenTelemetry returns do not panic. *)
Definition sound_ospan {T} (span : OSpan T) : Prop :=
  (forall t, exists t', os_End span t = (Returns tt, t')) /\
  (forall x t, exists t', os_RecordError span x t = (Returns tt, t')) /\
  (forall c d t, exists t', os_SetStatus span c d t = (Returns tt, t')).
Definition sound_tracer {Ctx T} (tr : @OTracer Ctx T) : Prop := forall ctx name kvs t c span t',
  tr ctx name kvs t = (Returns (c, Some span), t') -> sound_ospan span.

Lemma otelSpan_calm {T} error_text logger (span : OSpan T) :
  sound_ospan span -> calm_span (otelSpan error_text logger span).
Proof.
  intros (He & Hr & Hs). split.
  - intros [t lg]. destruct (He t) as [t' E]. exists (t', lg ++ []). cbn. by rewrite E.
  - intros x [t lg]. destruct (Hr x t) as [t1 E1]. destruct (Hs "Error" (error_text x) t1) as [t2 E2].
    exists (t2, lg ++ []). cbn. unfold then_. by rewrite E1, E2.
Qed.

Lemma noop_ospan_sound {T} : sound_ospan (@noop_ospan T).
Proof. split; [|split]; intros; by eexists. Qed.

(** Options of the tracer set its logger only. *)
Lemma NewTracer_tracer {Ctx T} (tp : option (@TracerProvider Ctx T)) loggers :
  t_tracer (NewTracer tp (WithTracerLogger <$> loggers)) =
    match tp with None => noop_tracer | Some tp => tp instrumentationName end.
Proof.
  unfold NewTracer. set (tr := match tp with None => _ | Some _ => _ end). generalize false.
  induction loggers as [|l loggers IH]; intros b; [done|]. cbn. apply IH.
Qed.

Lemma otel_calm_spans {Ctx T M} error_text (t : @OtelTracer Ctx T) (rec : option (MetricsRecorder Ctx M))
    logger :
  sound_tracer (t_tracer t) -> calm_spans (mkHooks (Some (otel_tracer error_text t)) rec logger).
Proof.
  intros Ht tr ctx name attrs [st lg] c span st' [= <-]. cbn [tr_StartSpan otel_tracer].
  unfold OtelStartSpan. destruct (toKeyValues attrs (t_logger t)) as [kvs ws]. unfold then_, logged.
  destruct (t_tracer t ctx name kvs st) as [[[c0 [sp|]]|v] st1] eqn:E; intros [= <- <- <-].
  - apply otelSpan_calm. by eapply Ht.
  - apply otelSpan_calm, noop_ospan_sound.
Qed.

(** The contexts it returns are answered like the ones it is given. *)
Definition keeps_context {Ctx T} (under : Ctx -> oracle -> oracle) (tr : @OTracer Ctx T) : Prop :=
  forall ctx name kvs t c span t', tr ctx name kvs t = (Returns (c, span), t') -> under c = under ctx.

Lemma otel_keeps_context {Ctx T M} under error_text (t : @OtelTracer Ctx T)
    (rec : option (MetricsRecorder Ctx M)) logger ctx c :
  keeps_context under (t_tracer t) ->
  given (mkHooks (Some (otel_tracer error_text t)) rec logger) ctx c -> under c = under ctx.
Proof.
  intros Ht [->|(tr & name & attrs & [st lg] & span & st' & [= <-] & E)]; [done|]. revert E.
  cbn [tr_StartSpan otel_tracer]. unfold OtelStartSpan. destruct (toKeyValues attrs (t_logger t)) as [kvs ws].
  unfold then_, logged. destruct (t_tracer t ctx name kvs st) as [[[c0 [sp|]]|v] st1] eqn:E;
    intros [= <- _ _]; by eapply Ht.
Qed.

(** A run that is known to return returns what it traces. *)
Lemma traced_returns {Ctx T M A} (hk : hooks Ctx T M) under ctx (m : act T M (result A)) n o p :
  traced hk under ctx m n -> returns m -> (forall c, given hk ctx c -> under c = under ctx) ->
  (m o p).1 = Returns (n (under ctx o) (p_world p)).1 /\
  p_world (m o p).2 = (n (under ctx o) (p_world p)).2.
Proof.
  intros Ht Hr Hu. destruct (Ht o p) as (c & Hc & Hw & Heq). destruct (Hr o p) as [a Ha].
  rewrite (Hu c Hc) in *. split; [|done]. rewrite Ha. by rewrite (Heq a Ha).
Qed.

(** *** Instruments *)

(** The meter creates what it is asked for. *)
Definition creates_all (meter : Meter) : Prop := forall kind name desc unit,
  exists i, meter kind name desc unit = (Some i, None) /\ i_kind i = kind /\ i_name i = name.

(** The instruments with the names the package documents. *)
Definition otel_catalogue (m : OtelMetrics) : list (option instrument * string) :=
  [(om_publishes m, "pgqueue.publish.messages"); (om_handleDur m, "pgqueue.handle.duration");
   (om_deliveryLatency m, "pgqueue.delivery.latency"); (om_acks m, "pgqueue.ack.total");
   (om_ackAfterExpired m, "pgqueue.ack.after_expired"); (om_queueDepth m, "pgqueue.queue.depth");
   (om_dlqSize m, "pgqueue.dlq.size"); (om_metadataParseErrors m, "pgqueue.metadata.parse_errors");
   (om_gcRuns m, "pgqueue.gc.runs"); (om_gcDuration m, "pgqueue.gc.duration");
   (om_gcReclaimed m, "pgqueue.gc.reclaimed"); (om_gcPurged m, "pgqueue.gc.purged");
   (om_missedNotifications m, "pgqueue.missed_notifications")].

Definition named (x : option instrument * string) : Prop := exists i, x.1 = Some i /\ i_name i = x.2.

Lemma buildInstruments_all meter m :
  creates_all meter -> Forall named (otel_catalogue (buildInstruments meter m).1) /\
  (buildInstruments meter m).2 = [].
Proof.
  intros Hc. unfold buildInstruments.
  repeat match goal with
  | |- context [meter ?k ?n ?d ?u] =>
      destruct (Hc k n d u) as (? & -> & _ & ?)
  end.
  split; [|reflexivity]. cbn [fst otel_catalogue om_publishes om_handleDur om_deliveryLatency om_acks
    om_ackAfterExpired om_queueDepth om_dlqSize om_metadataParseErrors om_gcRuns om_gcDuration
    om_gcReclaimed om_gcPurged om_missedNotifications].
  repeat (constructor; [by eexists|]). constructor.
Qed.

(** The series at one place of the catalogues agree. *)
Lemma series_at {R} `{RegistererLaws R} reg (s : promState R) pmet om k c t name labels x iname lvs attrs :
  Forall (scraped reg s) (catalogue pmet) -> Forall named (otel_catalogue om) ->
  catalogue pmet !! k = Some (c, t, name, labels) -> otel_catalogue om !! k = Some (x, iname) ->
  metric_names !! k = Some (name, iname) ->
  Forall2 (label_agrees name) (zip labels lvs) attrs ->
  exists i, x = Some i /\ series_agrees c lvs i attrs.
Proof.
  intros Hp Ho Hc Hx Hn Hl.
  destruct (Forall_lookup_1 _ _ _ _ Hp Hc) as (_ & _ & Hname & Hlabels).
  destruct (Forall_lookup_1 _ _ _ _ Ho Hx) as (i & Hi & Hin). cbn in Hi, Hin.
  exists i. split; [done|]. unfold series_agrees. rewrite Hname, Hlabels, Hin.
  split; [by eapply list_elem_of_lookup_2|done].
Qed.

Lemma queue_agrees name queue :
  Forall2 (label_agrees name) (zip ["queue"] [queue]) (queueAttr queue).
Proof. constructor; [by left|constructor]. Qed.

(** The observation of the metric at place [k] of the catalogues. *)
Ltac agree_at Hq k q :=
  destruct (Hq k _ _ _ _ _ q eq_refl eq_refl eq_refl) as (? & -> & ?);
  cbn [with_instrument]; constructor; [by split|].

(** *** Best effort *)

(** [m] is [m'] without the instruments that could not be created. *)
Definition partial_of (m m' : OtelMetrics) : Prop :=
  Forall2 (fun x y => x.1 = None \/ x.1 = y.1) (otel_catalogue m) (otel_catalogue m').

Lemma with_instrument_sublist {Ctx} x y (f : instrument -> measurement Ctx) :
  x = None \/ x = y -> with_instrument x f `sublist_of` with_instrument y f.
Proof. intros [->| ->]; [apply sublist_nil_l|done]. Qed.

(** ** Theorems *)

(** No integer attribute loses its value: for every integer type of Go, and every
    value of that type, what toKeyValue attaches to the span reads back as that value,
    as an int64 attribute where it fits and as decimal digits where it does not. *)
Theorem integer_attrs_lossless (logger : bool) (key : string) (v : attrValue) (z : Z) :
  integer_attr v = Some z ->
  let kv := (toKeyValue logger (mkAttr key v)).1 in
  kv_Key kv = key /\ read_integer (kv_Value kv) = Some z /\
  match kv_Value kv with
  | KInt64 n => int64_min <= n <= int64_max
  | _ => int64_max < z
  end.
Proof.
  assert (forall x lo hi, (if (lo <=? x) && (x <=? hi) then Some x else None) = Some z ->
    x = z /\ lo <= z <= hi) as Hrange.
  { intros x lo hi. destruct (Z.leb_spec lo x), (Z.leb_spec x hi); intros [= <-]. lia. }
  intros Hv. destruct v; try discriminate Hv; apply Hrange in Hv as [-> Hz];
    unfold int64_min, int64_max in *; cbn [toKeyValue a_Value a_Key];
    try (case_match eqn:E; apply Z.ltb_lt in E || apply Z.ltb_ge in E); cbn [fst kv_Key kv_Value read_integer];
    (split; [done|]);
    try (rewrite FormatUint_parse by lia; split; [done|]; unfold int64_max in *; lia);
    try rewrite wrap64_small by (unfold int64_min, int64_max in *; lia);
    (split; [done|]; unfold int64_max in *; lia).
Qed.

Lemma integer_attrs_lossless_witness :
  read_integer (kv_Value (toKeyValue true (mkAttr "n" (AUint64 18446744073709551615))).1) =
    Some 18446744073709551615.
Proof.
  assert (integer_attr (AUint64 18446744073709551615) = Some 18446744073709551615) as Hv
    by (vm_compute; reflexivity).
  destruct (integer_attrs_lossless true "n" _ _ Hv) as (_ & Hr & _). exact Hr.
Defined.

(** C25: The two metrics backends say the same.  With every collector registered and
    every instrument created, each hook call makes the same observations in the same
    order in Prometheus and in OpenTelemetry: the same metric under its documented
    names, the same labels but for the documented exception of the acknowledgement
    outcome, and the same value. *)
Theorem backends_agree {Ctx R : Type} `{RegistererLaws R} (reg : option nat) (opts : list PromOption)
    (s s' : promState R) (pmet : PromMetrics) (noop mp : MeterProvider) (oopts : list MetricsOption)
    (ctx : Ctx) (e : event) :
  NewMetrics reg opts s = (inl pmet, s') -> creates_all (mp instrumentationName) ->
  let om := (NewOtelMetrics noop (Some mp) oopts).1 in
  Forall2 observation_agrees (prom_calls pmet e) (otel_calls om ctx e).
Proof.
  intros HN Hc om. destruct (NewMetrics_ok _ _ _ _ _ HN) as [_ Hp].
  assert (Forall named (otel_catalogue om)) as Ho.
  { subst om. unfold NewOtelMetrics.
    destruct (buildInstruments_all (mp instrumentationName) (fold_left (fun m o => o m) oopts empty_metrics) Hc)
      as [Hn _]. by destruct (buildInstruments _ _) as [m errs]. }
  pose proof (fun k c t name x iname q Hk Hx Hn =>
    series_at _ s' pmet om k c t name ["queue"] x iname [q] (queueAttr q) Hp Ho Hk Hx Hn (queue_agrees name q))
    as Hq.
  destruct e as [q n|q d|q d|q ok|q n|q n|q n|q|q d r p er|q]; cbn [prom_calls otel_calls].
  - unfold OtelRecordPublish. agree_at Hq 0%nat q. constructor.
  - unfold OtelRecordHandle. agree_at Hq 1%nat q. constructor.
  - unfold OtelRecordDeliveryLatency. agree_at Hq 2%nat q. constructor.
  - destruct (series_at _ s' pmet om 3 _ _ _ _ _ _ [q; if ok then "ack" else "nack"]
      [mkKeyValue "queue" (KString q); mkKeyValue "ack" (KBool ok)] Hp Ho eq_refl eq_refl eq_refl)
      as (i & Ei & Hi).
    { constructor; [by left|]. constructor; [right|constructor]. do 3 (split; [done|]). by exists ok. }
    unfold OtelRecordAck. rewrite Ei. constructor; [by split|constructor].
  - unfold OtelRecordAckAfterExpired. agree_at Hq 4%nat q. constructor.
  - unfold OtelObserveQueueDepth. agree_at Hq 5%nat q. constructor.
  - unfold OtelObserveDLQSize. agree_at Hq 6%nat q. constructor.
  - unfold OtelRecordMetadataParseError. agree_at Hq 7%nat q. constructor.
  - set (result := if er is Some _ then "error" else "ok").
    destruct (series_at _ s' pmet om 8 _ _ _ _ _ _ [q; result]
      [mkKeyValue "queue" (KString q); mkKeyValue "result" (KString result)] Hp Ho eq_refl eq_refl eq_refl)
      as (i & Ei & Hi).
    { constructor; [by left|]. constructor; [by left|constructor]. }
    unfold OtelRecordGCRun, PromRecordGCRun. fold result. rewrite Ei. cbn [with_instrument app].
    constructor; [by split|]. agree_at Hq 9%nat q. cbn [app]. apply Forall2_app.
    + destruct (0 <? r); [|constructor]. agree_at Hq 10%nat q. constructor.
    + destruct (0 <? p); [|constructor]. agree_at Hq 11%nat q. constructor.
  - unfold OtelRecordMissedNotification. agree_at Hq 12%nat q. constructor.
Qed.

Definition plain_meter : MeterProvider := fun _ kind name _ _ => (Some (mkInstrument 0 kind name), None).

Lemma backends_agree_witness :
  Forall2 observation_agrees (prom_calls sample_metrics (EvAck "jobs" false))
    (otel_calls (NewOtelMetrics plain_meter (Some plain_meter) []).1 tt (EvAck "jobs" false)).
Proof.
  destruct sample_metrics_new as [s' HN].
  apply (backends_agree None [] fresh_registries s' sample_metrics plain_meter plain_meter [] tt
    (EvAck "jobs" false) HN).
  intros kind name desc unit. eexists. split; [reflexivity|]. split; reflexivity.
Defined.

(** An instrument that cannot be created costs its own observations and no others,
    and with a logger its error is reported. *)
Theorem otel_best_effort {Ctx : Type} (m m' : OtelMetrics) (ctx : Ctx) (e : event) :
  partial_of m m' -> otel_calls m ctx e `sublist_of` otel_calls m' ctx e.
Proof.
  unfold partial_of, otel_catalogue. rewrite !Forall2_cons. cbn [fst]. intros Hm. destruct_and! Hm.
  destruct e; cbn [otel_calls];
    unfold OtelRecordPublish, OtelRecordHandle, OtelRecordDeliveryLatency, OtelRecordAck,
      OtelRecordAckAfterExpired, OtelObserveQueueDepth, OtelObserveDLQSize,
      OtelRecordMetadataParseError, OtelRecordMissedNotification, OtelRecordGCRun;
    try by apply with_instrument_sublist.
  repeat apply sublist_app; try case_match; try by apply with_instrument_sublist. all: done.
Qed.

(** Replay is safe with the OpenTelemetry tracer.  For any provider, even one
    whose tracer panics when it starts a span or returns a nil span, as long as the
    methods of the spans it does return do not panic and calls under the contexts it
    returns are answered like those under the ones it was given, ReplayFrom,
    ReplayMessage and ReplayDLQ traced through NewTracer return what they return untraced
    and leave the same world. *)
Theorem otel_replay_transparent {Ctx T M : Type} (under : Ctx -> oracle -> oracle) (error_text : spanError -> string)
    (tp : option (@TracerProvider Ctx T)) (loggers : list bool) (rec : option (MetricsRecorder Ctx M))
    (logger : bool) (cfg : queueConfig) (ctx : Ctx) (name : string) (qt : QueueType)
    (since : timestamp) (id : uuid) (opts : ReplayOptions) (o : oracle)
    (p : proc (T * list logLine) M) :
  (forall tr, tp = Some tr ->
     sound_tracer (tr instrumentationName) /\ keeps_context under (tr instrumentationName)) ->
  let t := NewTracer tp (WithTracerLogger <$> loggers) in
  let hk := mkHooks (Some (otel_tracer error_text t)) rec logger in
  let w := p_world p in
  let from := ReplayFrom_observed hk under ctx name qt since opts o p in
  let one := ReplayMessage_observed hk under ctx name qt id opts o p in
  let dlq := ReplayDLQ_observed hk under cfg ctx name qt opts o p in
  (from.1 = Returns (ReplayFrom name qt since opts (under ctx o) w).1 /\
   p_world from.2 = (ReplayFrom name qt since opts (under ctx o) w).2) /\
  (one.1 = Returns (ReplayMessage name qt id opts (under ctx o) w).1 /\
   p_world one.2 = (ReplayMessage name qt id opts (under ctx o) w).2) /\
  (dlq.1 = Returns (ReplayDLQ cfg name qt opts (under ctx o) w).1 /\
   p_world dlq.2 = (ReplayDLQ cfg name qt opts (under ctx o) w).2).
Proof.
  intros Hs t hk. assert (calm_spans hk) as Hc.
  { apply otel_calm_spans. unfold t. rewrite NewTracer_tracer. destruct tp as [tr|]; [by apply Hs|].
    intros c n kvs s c' span s' [= <- <- <-]. apply noop_ospan_sound. }
  assert (forall c, given hk ctx c -> under c = under ctx) as Hu.
  { intros c. apply otel_keeps_context. unfold t. rewrite NewTracer_tracer. destruct tp as [tr|]; [by apply Hs|].
    by intros c' n kvs s c'' span s' [= <- _ _]. }
  destruct (replay_calm hk under cfg ctx name qt since id opts Hc) as (H1 & H2 & H3). cbv zeta.
  split; [|split]; (eapply traced_returns; [|done|done]).
  - apply ReplayFrom_traced.
  - apply ReplayMessage_traced.
  - apply ReplayDLQ_traced.
Qed.

Lemma otel_replay_transparent_witness :
  (ReplayFrom_observed
     (mkHooks (Some (otel_tracer (fun _ => "") (NewTracer (Some (fun _ _ _ _ t => (Panics "Start", t))) [])))
        None true : hooks unit (unit * list logLine) unit)
     (fun _ o => o) tt "jobs" QueueTypeChannel 10 (replay_opts false) distinct_oracle
     (mkProc replay_world (tt, []) tt [] 0)).1 =
  Returns (Ok 1).
Proof.
  assert (forall tr : @TracerProvider unit unit, Some (fun _ _ _ _ t => (Panics "Start", t)) = Some tr ->
    sound_tracer (tr instrumentationName) /\ keeps_context (fun _ o => o) (tr instrumentationName)) as Hs.
  { intros tr [= <-]. split; intros c n kvs s c' span s'; discriminate. }
  destruct (otel_replay_transparent (fun _ o => o) (fun _ => "") (Some (fun _ _ _ _ t => (Panics "Start", t))) [] None
    true sample_cfg tt "jobs" QueueTypeChannel 10 0 (replay_opts false) distinct_oracle
    (mkProc replay_world (tt, []) tt [] 0) Hs) as [[Hr _] _].
  transitivity (@Returns (result Z) (ReplayFrom "jobs" QueueTypeChannel 10 (replay_opts false)
    distinct_oracle replay_world).1); [exact Hr|]. vm_compute. reflexivity.
Defined.
