(* ===== verification/WakeUp.v ===== *)
(** * Push delivery end to end ([consume.go], [notify.go], [publish.go])

    The consume loops, the notifier and the database in one transition system: a
    worker of [ConsumeChannel] or [ConsumeTopic] arms a wake-up channel, looks for a
    message and sleeps; a publish that commits hands its notification to the
    connection that listens; the pump wakes the sleepers.  The workers are those of
    [HandlerLoop], the notifier is that of [Notify], and what a worker receives or a
    caller publishes is computed by the programs of [Consume] and [Publish] on the
    database.  A call's database work is one step; everything else interleaves. *)

From S2P Require Import Prelude Types Tx MetadataCache World Config Queries Channel Publish Notify Consume Iterate HandlerLoop.
From Stdlib Require Import ZArith Lia.
Local Open Scope nat_scope.

(** ** State *)

(** One worker: its notification channel, its [receive], its context, where it is in
    [handlerWorker] and [fetchNext], and the wake-up channel of the current round. *)
Record loop := mkLoop {
  lp_channel : string;
  lp_receive : io Message;
  lp_done : bool;
  lp_worker : worker;
  lp_wake : option nat
}.

(** [y_stream]: the notifications sent to the listener and not yet read by the pump. *)
Record system := mkSystem {
  y_world : world;
  y_notifier : option notifier;
  y_stream : list string;
  y_loops : list loop
}.

Definition set_notifier (n : option notifier) (y : system) : system :=
  mkSystem (y_world y) n (y_stream y) (y_loops y).
Definition set_stream (l : list string) (y : system) : system :=
  mkSystem (y_world y) (y_notifier y) l (y_loops y).
Definition set_loops (ls : list loop) (y : system) : system :=
  mkSystem (y_world y) (y_notifier y) (y_stream y) ls.
Definition set_loop (i : nat) (lp : loop) (y : system) : system := set_loops (<[i := lp]> (y_loops y)) y.
Definition moved (w : worker) (lp : loop) : loop :=
  mkLoop (lp_channel lp) (lp_receive lp) (lp_done lp) w (lp_wake lp).

(** ** Waiting *)

(** Without a listener, or without a channel name, there is nothing to wait on. *)
Definition armWake (n : option notifier) (notifyChannel : string) : option nat * option notifier :=
  match n with
  | None => (None, None)
  | Some n =>
      if bool_decide (notifyChannel = ""%string) then (None, Some n)
      else let '(c, n) := wakeChan notifyChannel n in (c, Some n)
  end.

(** The cases of the select of [waitForWork]. *)
Inductive wait_case := CaseDone | CaseTimer | CaseWake.

(** A closed Go channel is always ready. *)
Definition ready (n : option notifier) (wake : option nat) : bool :=
  match n, wake with
  | Some n, Some c => bool_decide (c ∈ closed_chans n)
  | _, _ => false
  end.

(** What [waitForWork] returns when it takes the given case, if it can. *)
Definition waitForWork (n : option notifier) (done : bool) (wake : option nat) (c : wait_case) :
    option bool :=
  match c with
  | CaseDone => if done then Some false else None
  | CaseTimer => Some true
  | CaseWake => if ready n wake then Some true else None
  end.

(** ** The loops *)

Section system.
Context `{Server} (cfg : queueConfig).

(** The pool [runHandlerLoop] starts; [trackWorker] looks at the closed flag. *)
Definition runHandlerLoop (opts : list ConsumeOption) (notifyChannel : string) (receive : io Message) :
    io (list loop) :=
  checkClosed ;;
  mret (replicate (Z.to_nat (worker_count (applyConsumeOptions opts)))
    (mkLoop notifyChannel receive false (mkWorker WTop 0) None)).

Definition ConsumeChannel (name : string) (opts : list ConsumeOption) : io (list loop) :=
  checkClosed ;;
  from_result (validateConsumeOptions (applyConsumeOptions opts)) ;;
  notifyCh ← resolveNotifyChannel cfg QueueTypeChannel name;
  runHandlerLoop opts notifyCh (ReceiveChannel cfg name opts).

Definition ConsumeTopic (name subscriberID : string) (opts : list ConsumeOption) : io (list loop) :=
  checkClosed ;;
  from_result (validateConsumeOptions (applyConsumeOptions opts)) ;;
  notifyCh ← resolveNotifyChannel cfg QueueTypePubSub name;
  runHandlerLoop opts notifyCh (ReceiveTopic cfg name subscriberID opts).

(** The notifications a program added to the log. *)
Definition committed (w w' : world) : list string :=
  drop (length (db_notifications (w_db w))) (db_notifications (w_db w')).
Definition subscribed (n : option notifier) (ch : string) : bool :=
  match n with Some n => bool_decide (ch ∈ subscriptions n) | None => false end.

(** A program runs; the server sends what it notified on the channels listened to. *)
Definition run_io {A} (m : io A) (o : oracle) (y : system) : result A * system :=
  let '(r, w) := m o (y_world y) in
  (r, mkSystem w (y_notifier y)
        (y_stream y ++ List.filter (subscribed (y_notifier y)) (committed (y_world y) w)) (y_loops y)).

(** The loop head of [fetchNext]: the context, then the waker, before [receive]. *)
Definition fetch_top (i : nat) (lp : loop) (y : system) : system :=
  if lp_done lp then set_loop i (moved (mkWorker WExit (wk_fails (lp_worker lp))) lp) y
  else
    let '(wake, n) := armWake (y_notifier y) (lp_channel lp) in
    set_loop i (mkLoop (lp_channel lp) (lp_receive lp) (lp_done lp)
                  (mkWorker WReceive (wk_fails (lp_worker lp))) wake) (set_notifier n y).

Definition loop_step (i : nat) (a : wanswer) (lp : loop) (y : system) : option system :=
  w ← worker_step (w_closed (y_world y)) (lp_done lp) a (lp_worker lp);
  Some (set_loop i (moved w lp) y).

Inductive yevent :=
| YCall (m : io unit) (o : oracle)                   (* any other call *)
| YPublish (name : string) (payload : option bytes) (opts : list PublishOption) (o : oracle)
| YPublishBatch (name : string) (messages : list PublishMessage) (o : oracle)
| YConsumeChannel (name : string) (opts : list ConsumeOption) (o : oracle)
| YConsumeTopic (name subscriberID : string) (opts : list ConsumeOption) (o : oracle)
| YWorker (i : nat)                                  (* a step without an answer *)
| YReceive (i : nat) (o : oracle)
| YWaited (i : nat) (c : wait_case)
| YCancel (i : nat)                                  (* its context ends *)
| YDeliver                                           (* the pump reads a notification *)
| YDisconnect                                        (* the listening session dies *)
| YNotifier (e : Notify.event).                      (* its other goroutines and callers *)

Definition start_loops (r : result (list loop) * system) : system :=
  match r with
  | (Ok ls, y) => set_loops (y_loops y ++ ls) y
  | (Err _, y) => y
  end.

Definition ystep (e : yevent) (y : system) : option system :=
  match e with
  | YCall m o => Some (run_io m o y).2
  | YPublish name payload opts o => Some (run_io (Publish cfg name payload opts) o y).2
  | YPublishBatch name messages o => Some (run_io (PublishBatch cfg name messages) o y).2
  | YConsumeChannel name opts o => Some (start_loops (run_io (ConsumeChannel name opts) o y))
  | YConsumeTopic name sid opts o => Some (start_loops (run_io (ConsumeTopic name sid opts) o y))
  | YWorker i =>
      lp ← y_loops y !! i;
      match wk_pos (lp_worker lp) with
      | WTop => Some (fetch_top i lp y)
      | WReceive | WHandle | WSettle => loop_step i WGo lp y
      | _ => None
      end
  | YReceive i o =>
      lp ← y_loops y !! i;
      match wk_pos (lp_worker lp) with
      | WQuery => let '(r, y) := run_io (lp_receive lp) o y in loop_step i (WReceived r) lp y
      | _ => None
      end
  | YWaited i c =>
      lp ← y_loops y !! i;
      more ← match wk_pos (lp_worker lp) with
             | WWait => waitForWork (y_notifier y) (lp_done lp) (lp_wake lp) c
             | WBackoff => waitForWork (y_notifier y) (lp_done lp) None c
             | _ => None
             end;
      loop_step i (if more : bool then WGo else WCtxDone) lp y
  | YCancel i =>
      lp ← y_loops y !! i;
      Some (set_loop i (mkLoop (lp_channel lp) (lp_receive lp) true (lp_worker lp) (lp_wake lp)) y)
  | YDeliver =>
      match y_stream y with
      | [] => None
      | ch :: rest =>
          n ← y_notifier y; n' ← Notify.step (ENotify ch) n;
          Some (set_stream rest (set_notifier (Some n') y))
      end
  | YDisconnect =>
      Some (set_stream [] (set_notifier (set_subscriptions ∅ <$> y_notifier y) y))
  | YNotifier e =>
      match e with
      | EWake _ | ENotify _ => None
      | _ => n ← y_notifier y; n' ← Notify.step e n; Some (set_notifier (Some n') y)
      end
  end.

Fixpoint ysteps (es : list yevent) (y : system) : option system :=
  match es with
  | [] => Some y
  | e :: es => ystep e y ≫= ysteps es
  end.

Definition system_start (w : world) : system := mkSystem w (newNotifier (listener cfg)) [] [].

End system.

(** ** What a publish notifies *)

(** A transaction body that commits adds exactly [l] to the log, and nothing brings an
    aborted transaction back. *)
Definition logs {A} (m : tx DB A) (l : list string) : Prop := forall e n s,
  match m e n s with
  | TOk _ _ (Some d') => exists d, s = Some d /\ db_notifications d' = db_notifications d ++ l
  | _ => True
  end.

Lemma logs_bind {A B} (m : tx DB A) (f : A -> tx DB B) l1 l2 :
  logs m l1 -> (forall a, logs (f a) l2) -> logs (m ≫= f) (l1 ++ l2).
Proof.
  intros Hm Hf e n s. unfold mbind, tx_bind. specialize (Hm e n s). destruct (m e n s) as [a n' s'|]; [|done].
  specialize (Hf a e n' s'). destruct (f a e n' s') as [b n2 [d2|]|]; [|done..].
  destruct Hf as (d1 & -> & H2). destruct Hm as (d & -> & H1). exists d. split; [done|].
  by rewrite H2, H1, <-app_assoc.
Qed.
Lemma logs_ret {A} (a : A) : logs (mret a) [].
Proof. intros e n [d|]; cbn; [|done]. exists d. by rewrite app_nil_r. Qed.
Lemma logs_throw {A} x : logs (throw x : tx DB A) [].
Proof. done. Qed.
Lemma logs_throw' {A} x l : logs (throw x : tx DB A) l.
Proof. done. Qed.
Lemma logs_query {A} (f : env -> DB -> result A) : logs (query f) [].
Proof.
  intros e n [d|]; [|done]. unfold query, stmt. destruct (e_fault e n); [done|]. destruct (f e d); [|done].
  exists d. by rewrite app_nil_r.
Qed.
Lemma logs_on_channel {A} t (m : tx channelTables A) : logs (on_channel t m) [].
Proof.
  intros e n [d|]; unfold on_channel, zoom; [|by destruct (m e n None)].
  destruct (db_channels d !! t) as [x|]; [|by destruct (e_fault e n)].
  destruct (m e n (Some x)) as [a n' [x'|]|]; [|done..]. exists d. by rewrite app_nil_r.
Qed.
Lemma logs_on_topic {A} t (m : tx topicTables A) : logs (on_topic t m) [].
Proof.
  intros e n [d|]; unfold on_topic, zoom; [|by destruct (m e n None)].
  destruct (db_topics d !! t) as [x|]; [|by destruct (e_fault e n)].
  destruct (m e n (Some x)) as [a n' [x'|]|]; [|done..]. exists d. by rewrite app_nil_r.
Qed.
Lemma logs_emitNotify t : logs (emitNotify t) [notifyChannelName t].
Proof.
  intros e n [d|]; [|done]. unfold emitNotify, stmt_logged, stmt. destruct (e_fault e n); [done|]. by exists d.
Qed.
Create HintDb notify.
#[export] Hint Resolve logs_ret logs_throw logs_throw' logs_query logs_on_channel logs_on_topic
  logs_emitNotify : notify.

Lemma logs_then {A B} (m : tx DB A) (f : A -> tx DB B) l :
  logs m [] -> (forall a, logs (f a) l) -> logs (m ≫= f) l.
Proof. apply (logs_bind m f []). Qed.

(** [notifies] follows a transaction body to its notification. *)
Ltac notifies :=
  repeat first
    [ progress intros
    | solve [eauto with notify]
    | apply logs_then
    | match goal with |- logs (match ?x with _ => _ end) _ => destruct x end ].

Lemma getActiveSubscribers_logs cfg topic : logs (getActiveSubscribers cfg topic) [].
Proof. unfold getActiveSubscribers. notifies. Qed.
#[export] Hint Resolve getActiveSubscribers_logs : notify.

Lemma withTx_logs {A} (fn : tx DB A) l o w a w' :
  logs fn l -> withTx fn o w = (Ok a, w') ->
  db_notifications (w_db w') = db_notifications (w_db w) ++ l.
Proof.
  intros Hl. unfold withTx. destruct (e_begin _); [done|]. specialize (Hl (o (w_tick w)) 0 (Some (w_db w))).
  destruct (fn _ _ _) as [b n [d|]|]; [|done..]. destruct (e_commit _) as [[? ?]|]; [done|]. intros [= <- <-].
  destruct Hl as (d0 & [= <-] & Hd). exact Hd.
Qed.

Lemma publishToChannel_notifies t id p md mr o w w' :
  publishToChannel t id p md mr o w = (Ok tt, w') ->
  db_notifications (w_db w') = db_notifications (w_db w) ++ [notifyChannelName t].
Proof. apply withTx_logs. notifies. Qed.
Lemma publishToPubSub_notifies cfg topic t id p md o w w' :
  publishToPubSub cfg topic t id p md o w = (Ok tt, w') ->
  db_notifications (w_db w') = db_notifications (w_db w) ++ [notifyChannelName t].
Proof. apply withTx_logs. unfold createSubscriptionRecords. notifies. Qed.
Lemma publishBatchToChannel_notifies t rows mr o w w' :
  publishBatchToChannel t rows mr o w = (Ok tt, w') ->
  db_notifications (w_db w') = db_notifications (w_db w) ++ [notifyChannelName t].
Proof. apply withTx_logs. notifies. Qed.
Lemma publishBatchToPubSub_notifies cfg topic t rows o w w' :
  publishBatchToPubSub cfg topic t rows o w = (Ok tt, w') ->
  db_notifications (w_db w') = db_notifications (w_db w) ++ [notifyChannelName t].
Proof. apply withTx_logs. unfold insertBatchPubSubMessages. notifies. Qed.

Lemma bind_ok {A B} (m : io A) (f : A -> io B) o w b w' :
  (m ≫= f) o w = (Ok b, w') -> exists a w1, m o w = (Ok a, w1) /\ f a o w1 = (Ok b, w').
Proof. unfold mbind, io_bind. destruct (m o w) as [[a|x] w1]; [|done]. intros Hf. by exists a, w1. Qed.

(** A step that reads is passed by. *)
Lemma bind_ok_pure {A B} (m : io A) (f : A -> io B) o w b w' :
  db_pure m -> (m ≫= f) o w = (Ok b, w') ->
  exists a w1, m o w = (Ok a, w1) /\ w_db w1 = w_db w /\ f a o w1 = (Ok b, w').
Proof.
  intros Hp (a & w1 & Hm & Hf)%bind_ok. exists a, w1. split; [done|]. split; [by eapply Hp|done].
Qed.

Lemma resolveQueueMetadata_ok name o w meta w' :
  resolveQueueMetadata name o w = (Ok meta, w') -> lookup_any_queue name (w_db w) = Some meta.
Proof.
  unfold resolveQueueMetadata. intros (row & w1 & Hr & Hm)%bind_ok.
  assert (row = lookup_any_queue name (w_db w)) as ->.
  { unfold autocommit, withTx, query, stmt in Hr. repeat case_match; simplify_eq. done. }
  destruct (lookup_any_queue name (w_db w)) as [m|]; [|done]. injection Hm as <- <-. done.
Qed.

Lemma publishResolved_notifies cfg name p id md o w id' w' :
  publishResolved cfg name p id md o w = (Ok id', w') ->
  exists meta, lookup_any_queue name (w_db w) = Some meta /\
    db_notifications (w_db w') = db_notifications (w_db w) ++ [notifyChannelName (q_TableName meta)].
Proof.
  unfold publishResolved.
  intros (meta & w1 & Hr & E1 & H1)%bind_ok_pure; [|rollback]. exists meta.
  split; [by eapply resolveQueueMetadata_ok|].
  apply bind_ok_pure in H1 as (u & w2 & _ & E2 & H2); [|rollback].
  apply bind_ok_pure in H2 as (id2 & w3 & _ & E3 & H3); [|destruct (_ =? _)%Z; rollback].
  apply bind_ok_pure in H3 as (mj & w4 & _ & E4 & H4); [|rollback].
  apply bind_ok in H4 as ([] & w5 & H5 & [= _ <-]). rewrite <-E1, <-E2, <-E3, <-E4.
  case_bool_decide; [by eapply publishToPubSub_notifies|by eapply publishToChannel_notifies].
Qed.

Lemma Publish_notifies cfg name payload opts o w id w' :
  Publish cfg name payload opts o w = (Ok id, w') ->
  exists meta, lookup_any_queue name (w_db w) = Some meta /\
    db_notifications (w_db w') = db_notifications (w_db w) ++ [notifyChannelName (q_TableName meta)].
Proof.
  unfold Publish. intros (u & w1 & _ & E1 & H1)%bind_ok_pure; [|rollback]. rewrite <-E1.
  destruct payload as [p|]; [|done]. by eapply publishResolved_notifies.
Qed.

Lemma PublishBatch_notifies cfg name messages o w ids w' :
  messages <> [] -> PublishBatch cfg name messages o w = (Ok ids, w') ->
  exists meta, lookup_any_queue name (w_db w) = Some meta /\
    db_notifications (w_db w') = db_notifications (w_db w) ++ [notifyChannelName (q_TableName meta)].
Proof.
  intros Hne. unfold PublishBatch. intros (u & w1 & _ & E1 & H1)%bind_ok_pure; [|rollback].
  destruct messages as [|m ms]; [done|].
  apply bind_ok_pure in H1 as (u2 & w2 & _ & E2 & H2); [|rollback].
  apply bind_ok_pure in H2 as (meta & w3 & Hr & E3 & H3); [|rollback]. exists meta.
  apply resolveQueueMetadata_ok in Hr. rewrite E2, E1 in Hr. split; [done|].
  unfold publishBatchResolved in H3. apply bind_ok_pure in H3 as (tot & w4 & _ & E4 & H4); [|rollback].
  destruct (_ && _); [done|]. apply bind_ok_pure in H4 as (prep & w5 & _ & E5 & H5); [|rollback].
  apply bind_ok in H5 as ([] & w6 & H6 & [= _ <-]). rewrite <-E1, <-E2, <-E3, <-E4, <-E5.
  case_bool_decide; [by eapply publishBatchToPubSub_notifies|by eapply publishBatchToChannel_notifies].
Qed.

(** ** Sleepers can be woken *)

(** The worker holds the wake-up channel of this round. *)
Definition arming (p : wpos) : bool :=
  match p with WReceive | WQuery | WWait => true | _ => false end.

(** The worker's wake-up channel is the one the pump closes, or is closed. *)
Definition wakeable (ch : string) (n : notifier) (lp : loop) : Prop :=
  lp_channel lp = ch -> arming (wk_pos (lp_worker lp)) = true ->
  exists c w, lp_wake lp = Some c /\ wakers n !! ch = Some w /\ armed c w n /\ pumpStarted n = true.

Definition attentive (ch : string) (y : system) : Prop :=
  exists n, y_notifier y = Some n /\ ok n /\ n_closed n = false /\ Forall (wakeable ch n) (y_loops y).

(** The queue is not deleted and the notifier not closed. *)
Definition undisturbed (ch : string) (e : yevent) : bool :=
  match e with
  | YNotifier e => negb (forgets ch e) && match e with EClose => false | _ => true end
  | _ => true
  end.

Lemma flags_step e n n' :
  Notify.step e n = Some n' -> e <> EClose ->
  n_closed n' = n_closed n /\ (pumpStarted n = true -> pumpStarted n' = true).
Proof.
  intros Hs He. destruct e as [ch|t r|t|ch|i|ch|i| |]; cbn [step] in Hs; [..|done|by injection Hs as <-].
  - injection Hs as <-. unfold wakeChan. destruct (n_closed n) eqn:E; [done|].
    assert (n_closed (get_waker ch n).2 = n_closed n) as H1 by (unfold get_waker; by destruct (wakers n !! ch)).
    destruct (get_waker ch n) as [w1 n1]. cbn [fst snd] in *. by destruct (negb _ && negb _); cbn; rewrite H1, E.
  - destruct (confirms n !! t) as [[ch w1 [r'|]]|]; try done. injection Hs as <-. by destruct (safeListenerCall r).
  - destruct (confirms n !! t) as [[ch w1 [r'|]]|]; try done. injection Hs as <-. unfold confirmListen.
    destruct (negb _); [done|]. by destruct r'.
  - injection Hs as <-. unfold forget. by case_match.
  - destruct (unlistens n !! i); [|done]. by injection Hs as <-.
  - destruct (pumpStarted n) eqn:E; [|done]. injection Hs as <-. unfold pump. by destruct (wakers n !! ch).
  - destruct (signals n !! i) as [w'|]; [|done]. injection Hs as <-. unfold signal. cbn.
    by destruct (generation n !! w').
Qed.

Lemma wakeable_step ch e n n' lp :
  ok n -> forgets ch e = false -> e <> EClose -> Notify.step e n = Some n' ->
  wakeable ch n lp -> wakeable ch n' lp.
Proof.
  intros Hok Hf He Hs Hw Hch Hp. destruct (Hw Hch Hp) as (c & w & Hc & Hwk & Ha & Hpump). exists c, w.
  split; [done|]. split; [by eapply waker_step|]. split; [by eapply armed_step|].
  by eapply (flags_step e n n').
Qed.

Lemma attentive_notifier ch e n n' y :
  attentive ch y -> y_notifier y = Some n -> Notify.step e n = Some n' -> forgets ch e = false ->
  e <> EClose -> attentive ch (set_notifier (Some n') y).
Proof.
  intros (m & Hn & Hok & Hc & Hl) Hy Hs Hf He. rewrite Hy in Hn. injection Hn as <-. exists n'.
  split; [done|]. split; [by eapply ok_step|]. split; [by rewrite (proj1 (flags_step _ _ _ Hs He))|].
  eapply Forall_impl; [exact Hl|]. intros lp. by apply (wakeable_step ch e n n').
Qed.

Lemma attentive_frame ch y y' :
  attentive ch y -> y_notifier y' = y_notifier y -> y_loops y' = y_loops y -> attentive ch y'.
Proof. intros (n & Hn & Hr) H1 H2. exists n. by rewrite H1, H2. Qed.

Lemma attentive_loop ch i lp y n :
  attentive ch y -> y_notifier y = Some n -> wakeable ch n lp -> attentive ch (set_loop i lp y).
Proof.
  intros (m & Hn & Hok & Hc & Hl) Hy Hw. rewrite Hy in Hn. injection Hn as <-. exists n.
  split; [done|]. split; [done|]. split; [done|]. by apply Forall_insert.
Qed.

(** A step of a worker keeps its channel, and it only comes to wait from an armed
    position. *)
Lemma worker_step_arming closed done a w w' :
  worker_step closed done a w = Some w' -> wk_pos w <> WTop -> arming (wk_pos w') = true ->
  arming (wk_pos w) = true.
Proof.
  destruct w as [p f]. unfold worker_step. cbn [wk_pos wk_fails].
  destruct p, a; try done; intros Hs Ht; simplify_eq; try done; by case_match; simplify_eq.
Qed.

Lemma attentive_loop_step ch i a lp y y' :
  attentive ch y -> y_loops y !! i = Some lp -> wk_pos (lp_worker lp) <> WTop ->
  loop_step i a lp y = Some y' -> attentive ch y'.
Proof.
  intros Ha Hi Ht. unfold loop_step. destruct (worker_step _ _ _ _) as [w|] eqn:E; [|done]. intros [= <-].
  destruct Ha as (n & Hn & Hok & Hc & Hl). pose proof Hl as Hl'. rewrite Forall_lookup in Hl'.
  eapply attentive_loop; [by exists n|done|]. intros Hch Hp. apply (Hl' i lp Hi); [done|].
  by eapply worker_step_arming.
Qed.

Lemma attentive_top ch i lp y :
  ch <> ""%string -> attentive ch y -> y_loops y !! i = Some lp -> attentive ch (fetch_top i lp y).
Proof.
  intros Hne Ha Hi. pose proof Ha as (n & Hn & Hok & Hc & Hl). unfold fetch_top.
  destruct (lp_done lp); [eapply attentive_loop; done|]. rewrite Hn. unfold armWake.
  case_bool_decide as Hch; [eapply attentive_loop; [|done|]|].
  { eapply attentive_frame; [exact Ha|done|done]. }
  { intros Hx _. cbn in Hx. congruence. }
  destruct (wakeChan (lp_channel lp) n) as [c n'] eqn:Ew.
  assert (Notify.step (EWake (lp_channel lp)) n = Some n') as Hs by (cbn; by rewrite Ew).
  apply attentive_loop with n'; [by eapply attentive_notifier|done|]. intros Hx _. cbn in Hx. cbn [lp_wake].
  rewrite Hx in Ew. destruct c as [c|].
  - destruct (wakeChan_armed ch c n n' Hok Ew) as (w & Hw & Hg). exists c, w.
    split; [done|]. split; [done|]. split; [by right|]. unfold wakeChan in Ew. rewrite Hc in Ew.
    destruct (get_waker ch n). by destruct (negb _ && negb _); simplify_eq.
  - exfalso. pose proof (ok_get_waker ch n Hok) as [[Hh _] Hw]. unfold wakeChan in Ew. rewrite Hc in Ew.
    destruct (get_waker ch n) as [w n0]. cbn [fst snd] in *.
    destruct (hp_wakers _ Hh ch w Hw) as [c Hg].
    unfold wait in Ew. destruct (negb _ && negb _); injection Ew as Hx0 _; cbn in Hx0; congruence.
Qed.

Section steps.
Context `{Server} (cfg : queueConfig).
Implicit Types (y : system) (ch : string).

Definition at_top (lp : loop) : Prop := wk_pos (lp_worker lp) = WTop.

Lemma runHandlerLoop_at_top opts ch receive o w ls w' :
  runHandlerLoop opts ch receive o w = (Ok ls, w') -> Forall at_top ls.
Proof.
  unfold runHandlerLoop. intros (u & w1 & _ & [= <- _])%bind_ok. by apply Forall_replicate.
Qed.
Lemma ConsumeChannel_at_top name opts o w ls w' :
  ConsumeChannel cfg name opts o w = (Ok ls, w') -> Forall at_top ls.
Proof.
  unfold ConsumeChannel. intros (? & ? & _ & (? & ? & _ & (? & ? & _ & Hr)%bind_ok)%bind_ok)%bind_ok.
  by eapply runHandlerLoop_at_top.
Qed.
Lemma ConsumeTopic_at_top name sid opts o w ls w' :
  ConsumeTopic cfg name sid opts o w = (Ok ls, w') -> Forall at_top ls.
Proof.
  unfold ConsumeTopic. intros (? & ? & _ & (? & ? & _ & (? & ? & _ & Hr)%bind_ok)%bind_ok)%bind_ok.
  by eapply runHandlerLoop_at_top.
Qed.

Lemma attentive_start ch (m : io (list loop)) o y :
  (forall w ls w', m o w = (Ok ls, w') -> Forall at_top ls) ->
  attentive ch y -> attentive ch (start_loops (run_io m o y)).
Proof.
  intros Hm Ha. unfold run_io. destruct (m o (y_world y)) as [[ls|x] w'] eqn:E; cbn.
  - destruct Ha as (n & Hn & Hok & Hc & Hl). exists n. split; [done|]. split; [done|]. split; [done|]. cbn.
    apply Forall_app. split; [done|]. eapply Forall_impl; [by eapply Hm|]. intros lp Ht _ Hp.
    unfold at_top in Ht. by rewrite Ht in Hp.
  - by eapply attentive_frame.
Qed.

Lemma attentive_run {A} ch (m : io A) o y : attentive ch y -> attentive ch (run_io m o y).2.
Proof. intros Ha. unfold run_io. destruct (m o _). by eapply attentive_frame. Qed.

Lemma attentive_step ch e y y' :
  ch <> ""%string -> attentive ch y -> undisturbed ch e = true -> ystep cfg e y = Some y' ->
  attentive ch y'.
Proof.
  intros Hne Ha Hu Hs. pose proof Ha as (n & Hn & Hok & Hc & Hl).
  destruct e as [m o|name p opts o|name ms o|name opts o|name sid opts o|i|i o|i c|i| | |e]; cbn [ystep] in Hs.
  1-3: injection Hs as <-; by apply attentive_run.
  1: injection Hs as <-; apply attentive_start; [intros ???; apply ConsumeChannel_at_top|done].
  1: injection Hs as <-; apply attentive_start; [intros ???; apply ConsumeTopic_at_top|done].
  - destruct (y_loops y !! i) as [lp|] eqn:Ei; [|done]. cbn in Hs. destruct (wk_pos (lp_worker lp)) eqn:Ep;
      try done; [injection Hs as <-; by apply attentive_top|..];
      (eapply attentive_loop_step; [exact Ha|exact Ei|congruence|exact Hs]).
  - destruct (y_loops y !! i) as [lp|] eqn:Ei; [|done]. cbn in Hs. destruct (wk_pos (lp_worker lp)) eqn:Ep; try done.
    pose proof (attentive_run ch (lp_receive lp) o y Ha) as Ha1. destruct (run_io (lp_receive lp) o y) as [r y1] eqn:Er.
    assert (y_loops y1 = y_loops y) as El by (unfold run_io in Er; case_match; by simplify_eq).
    eapply (attentive_loop_step ch i (WReceived r) lp y1); [done|by rewrite El|congruence|done].
  - destruct (y_loops y !! i) as [lp|] eqn:Ei; [|done]. cbn in Hs. destruct (wk_pos (lp_worker lp)) eqn:Ep; try done;
      (destruct (waitForWork _ _ _ _) as [b|]; [|done]); cbn in Hs;
      (eapply attentive_loop_step; [exact Ha|exact Ei|congruence|exact Hs]).
  - destruct (y_loops y !! i) as [lp|] eqn:Ei; [|done]. injection Hs as <-. eapply attentive_loop; [done..|].
    rewrite Forall_lookup in Hl. exact (Hl i lp Ei).
  - destruct (y_stream y) as [|x rest]; [done|]. rewrite Hn in Hs. cbn [mbind option_bind] in Hs.
    destruct (Notify.step (ENotify x) n) as [n'|] eqn:E; [|done]. injection Hs as <-.
    eapply attentive_frame; [by apply (attentive_notifier ch (ENotify x) n n' y)|done|done].
  - injection Hs as <-. rewrite Hn. exists (set_subscriptions ∅ n). split; [done|]. split; [by apply ok_subscriptions|].
    done.
  - assert (exists n', Notify.step e n = Some n' /\ y' = set_notifier (Some n') y) as (n' & E & ->).
    { rewrite Hn in Hs. cbn [mbind option_bind] in Hs. destruct e; try done;
        (destruct (Notify.step _ n) as [n'|]; [|done]); injection Hs as <-; by exists n'. }
    cbn in Hu. apply andb_true_iff in Hu as [Hf%negb_true_iff Hcl]. eapply attentive_notifier; try done.
    by intros ->.
Qed.

Lemma attentive_steps ch es : forall y y',
  ch <> ""%string -> attentive ch y -> Forall (fun e => undisturbed ch e = true) es ->
  ysteps cfg es y = Some y' -> attentive ch y'.
Proof.
  induction es as [|e es IH]; intros y y' Hne Ha Hu Hs; cbn in Hs; [by injection Hs as <-|].
  apply Forall_cons_iff in Hu as [He Hu]. destruct (ystep cfg e y) as [y1|] eqn:E; [|done].
  apply (IH y1); [done|by eapply attentive_step|done|done].
Qed.

Lemma attentive_init ch w : listener cfg = true -> attentive ch (system_start cfg w).
Proof.
  intros Hl. unfold system_start. rewrite Hl. eexists. split; [reflexivity|].
  split; [|by split; [|constructor]]. apply reachable_ok. by eexists _, [].
Qed.

End steps.

(** ** A notification on its way *)

Section owed.
Context `{Server} (cfg : queueConfig).
Implicit Types (y : system) (ch : string).

(** Channel [c] of waker [w] is closed, or will be by a signal or a notification that is
    already under way. *)
Definition owed ch (c w : nat) y : Prop :=
  exists n, y_notifier y = Some n /\ ok n /\ armed c w n /\ wakers n !! ch = Some w /\ pumpStarted n = true /\
    (c ∈ closed_chans n \/ w ∈ signals n \/ ch ∈ y_stream y).

(** What an event does to the notifier and to the stream. *)
Lemma ystep_notifier ch e y y' n :
  ystep cfg e y = Some y' -> e <> YDisconnect -> undisturbed ch e = true -> y_notifier y = Some n ->
  exists n', y_notifier y' = Some n' /\
    ((n' = n /\ exists l, y_stream y' = y_stream y ++ l) \/
     exists e', Notify.step e' n = Some n' /\ forgets ch e' = false /\ e' <> EClose /\
       (y_stream y' = y_stream y \/ exists x, e' = ENotify x /\ y_stream y = x :: y_stream y')).
Proof.
  intros Hs Hd Hu Hn.
  assert (forall A (m : io A) o, exists l, y_stream (run_io m o y).2 = y_stream y ++ l) as Hrun.
  { intros A m o. unfold run_io. destruct (m o _). by eexists. }
  assert (forall A (m : io A) o, y_notifier (run_io m o y).2 = Some n) as Hrn.
  { intros A m o. unfold run_io. by destruct (m o _). }
  assert (forall m o, y_notifier (start_loops (run_io m o y)) = Some n /\
    exists l, y_stream (start_loops (run_io m o y)) = y_stream y ++ l) as Hstart.
  { intros m o. unfold run_io. destruct (m o _) as [[ls|x] w']; cbn; (split; [done|by eexists]). }
  assert (forall i a lp y1 y2, loop_step i a lp y1 = Some y2 ->
    y_notifier y2 = y_notifier y1 /\ y_stream y2 = y_stream y1) as Hloop.
  { intros i a lp y1 y2. unfold loop_step. destruct (worker_step _ _ _ _); [|done]. by intros [= <-]. }
  destruct e as [m o|name p opts o|name ms o|name opts o|name sid opts o|i|i o|i c|i| | |e]; cbn [ystep] in Hs; [..|done|].
  1-3: injection Hs as <-; exists n; split; [apply Hrn|left; split; [done|apply Hrun]].
  1-2: injection Hs as <-; exists n; split; [apply Hstart|left; split; [done|apply Hstart]].
  - destruct (y_loops y !! i) as [lp|]; [|done]. cbn in Hs.
    destruct (wk_pos (lp_worker lp)); try done.
    2-4: apply Hloop in Hs as [H1 H2]; exists n; split; [congruence|left; split; [done|]];
      exists []; by rewrite app_nil_r.
    injection Hs as <-. unfold fetch_top. destruct (lp_done lp).
    { exists n. split; [done|]. left. split; [done|]. exists []. by rewrite app_nil_r. }
    rewrite Hn. unfold armWake. case_bool_decide.
    { exists n. split; [done|]. left. split; [done|]. exists []. by rewrite app_nil_r. }
    destruct (wakeChan (lp_channel lp) n) as [c n'] eqn:Ew. exists n'. split; [done|]. right.
    exists (EWake (lp_channel lp)). cbn. rewrite Ew. split; [done|]. split; [done|]. split; [done|by left].
  - destruct (y_loops y !! i) as [lp|]; [|done]. cbn in Hs. destruct (wk_pos (lp_worker lp)); try done.
    destruct (run_io (lp_receive lp) o y) as [r y1] eqn:Er. apply Hloop in Hs as [H1 H2].
    pose proof (Hrn _ (lp_receive lp) o) as H3. pose proof (Hrun _ (lp_receive lp) o) as [l H4].
    rewrite Er in H3, H4. exists n. split; [by rewrite H1|]. left. split; [done|]. exists l. by rewrite H2.
  - destruct (y_loops y !! i) as [lp|]; [|done]. cbn in Hs. destruct (wk_pos (lp_worker lp)); try done;
      (destruct (waitForWork _ _ _ _) as [b|]; [|done]); cbn in Hs; apply Hloop in Hs as [H1 H2];
      (exists n; split; [congruence|left; split; [done|]]; exists []; by rewrite app_nil_r).
  - destruct (y_loops y !! i) as [lp|]; [|done]. injection Hs as <-. exists n. split; [done|]. left. split; [done|].
    exists []. by rewrite app_nil_r.
  - destruct (y_stream y) as [|x rest] eqn:El; [done|]. rewrite Hn in Hs. cbn [mbind option_bind] in Hs.
    destruct (Notify.step (ENotify x) n) as [n'|] eqn:E; [|done]. injection Hs as <-. exists n'. split; [done|]. right.
    exists (ENotify x). split; [done|]. split; [done|]. split; [done|]. right. by exists x.
  - rewrite Hn in Hs. cbn [mbind option_bind] in Hs. cbn in Hu. apply andb_true_iff in Hu as [Hf%negb_true_iff Hcl].
    destruct e; try done; (destruct (Notify.step _ n) as [n'|] eqn:E; [|done]); injection Hs as <-;
      (exists n'; split; [done|]; right; eexists; split; [exact E|]; split; [exact Hf|]; split; [done|by left]).
Qed.

Lemma owed_step ch c w e y y' :
  owed ch c w y -> undisturbed ch e = true -> e <> YDisconnect -> ystep cfg e y = Some y' -> owed ch c w y'.
Proof.
  intros (n & Hn & Hok & Ha & Hw & Hp & Ho) Hu Hd Hs.
  destruct (ystep_notifier ch e y y' n Hs Hd Hu Hn) as (n' & Hn' & [[-> [l Hl]]|(e' & He & Hf & Hc & Hl)]).
  { exists n. rewrite Hl. do 5 (split; [done|]). set_solver. }
  exists n'. split; [done|]. split; [by eapply ok_step|]. split; [by eapply armed_step|].
  split; [by eapply waker_step|]. split; [by eapply (flags_step e' n)|].
  destruct (closed_step e' n n' He) as [Hcl Hsig]. destruct Ho as [Ho|[Ho|Ho]]; [left; by apply Hcl|..].
  - destruct (Hsig w Ho) as [|(m & Hm & ->)]; [by right; left|]. left. by apply signal_closes, Hm.
  - destruct Hl as [->|(x & -> & Hl)]; [by right; right|]. rewrite Hl in Ho.
    apply elem_of_cons in Ho as [<-|Ho]; [|by right; right]. right. left.
    cbn in He. rewrite Hp in He. injection He as <-. unfold pump. rewrite Hw. cbn. set_solver.
Qed.

Lemma owed_ysteps ch c w es : forall y y',
  owed ch c w y -> Forall (fun e => undisturbed ch e = true /\ e <> YDisconnect) es ->
  ysteps cfg es y = Some y' -> owed ch c w y'.
Proof.
  induction es as [|e es IH]; intros y y' Ho Hu Hs; cbn in Hs; [by injection Hs as <-|].
  apply Forall_cons_iff in Hu as [[He Hd] Hu]. destruct (ystep cfg e y) as [y1|] eqn:E; [|done].
  apply (IH y1); [by eapply owed_step|done|done].
Qed.

(** The pump reads what has arrived and delivers its signals. *)
Definition pumping (e : yevent) : bool :=
  match e with YDeliver | YNotifier (ESignal _) => true | _ => false end.
Definition pending_signals y : nat := match y_notifier y with Some n => length (signals n) | None => 0 end.

Lemma owed_drains ch c w : forall k y, 2 * length (y_stream y) + pending_signals y <= k -> owed ch c w y ->
  exists es y', Forall (fun e => pumping e = true) es /\ length es <= k /\
    ysteps cfg es y = Some y' /\ y_loops y' = y_loops y /\ ready (y_notifier y') (Some c) = true.
Proof.
  induction k as [k IH] using lt_wf_ind. intros y Hk Hy.
  assert (forall e y1, ystep cfg e y = Some y1 -> pumping e = true -> y_loops y1 = y_loops y ->
    2 * length (y_stream y1) + pending_signals y1 < 2 * length (y_stream y) + pending_signals y ->
    exists es y', Forall (fun e => pumping e = true) es /\ length es <= k /\
      ysteps cfg es y = Some y' /\ y_loops y' = y_loops y /\ ready (y_notifier y') (Some c) = true) as Hgo.
  { intros e y1 Hs He Hl Hlt. destruct (IH (k - 1)) with y1 as (es & y' & Hes & Hlen & Hrun & Hl' & Hr); [lia|lia| |].
    - eapply owed_step; [exact Hy| | |exact Hs]; by destruct e as [| | | | | | | | | | |[]].
    - exists (e :: es), y'. split; [by constructor|]. split; [cbn; lia|]. cbn. rewrite Hs. cbn.
      split; [done|]. split; [by rewrite Hl'|done]. }
  destruct Hy as (n & Hn & Hok & Ha & Hw & Hp & Ho). unfold pending_signals in *. rewrite Hn in *.
  destruct (signals n) as [|s ss] eqn:Es; [destruct (y_stream y) as [|x rest] eqn:El|].
  - exists [], y. split; [done|]. split; [cbn; lia|]. split; [done|]. split; [done|]. rewrite Hn. cbn.
    apply bool_decide_eq_true. set_solver.
  - assert (Notify.step (ENotify x) n = Some (pump x n)) as Hs by (cbn; by rewrite Hp).
    apply (Hgo YDeliver (set_stream rest (set_notifier (Some (pump x n)) y))); [|done..|].
    + cbn [ystep]. rewrite El, Hn. cbn [mbind option_bind]. by rewrite Hs.
    + cbn. unfold pump. destruct (wakers n !! x); cbn; rewrite Es; cbn; lia.
  - apply (Hgo (YNotifier (ESignal 0))
      (set_notifier (Some (signal s (set_threads (confirms n) ss (unlistens n) n))) y)); [|done..|].
    + cbn [ystep]. rewrite Hn. cbn. by rewrite Es.
    + cbn. unfold signal. cbn. destruct (generation n !! s); cbn; rewrite ?Es; cbn; lia.
Qed.

End owed.

(** ** Properties *)

(** The event is a publish to the named queue that succeeds. *)
Definition publishes_to `{Server} (cfg : queueConfig) (name : string) (e : yevent) (y : system) : Prop :=
  match e with
  | YPublish name' payload opts o =>
      name' = name /\ exists id, (Publish cfg name payload opts o (y_world y)).1 = Ok id
  | YPublishBatch name' messages o =>
      name' = name /\ messages <> [] /\ exists ids, (PublishBatch cfg name messages o (y_world y)).1 = Ok ids
  | _ => False
  end.

(** A successful publish hands its notification to a listener that is subscribed. *)
Lemma publish_streams `{Server} cfg name e y y' meta :
  publishes_to cfg name e y -> lookup_any_queue name (w_db (y_world y)) = Some meta ->
  let ch := notifyChannelName (q_TableName meta) in
  subscribed (y_notifier y) ch = true -> ystep cfg e y = Some y' ->
  y_notifier y' = y_notifier y /\ y_loops y' = y_loops y /\ ch ∈ y_stream y'.
Proof.
  intros Hp Hm ch Hsub Hs.
  assert (forall A (m : io A) o a, (m o (y_world y)).1 = Ok a ->
    db_notifications (w_db (m o (y_world y)).2) = db_notifications (w_db (y_world y)) ++ [ch] ->
    y_notifier (run_io m o y).2 = y_notifier y /\ y_loops (run_io m o y).2 = y_loops y /\
    ch ∈ y_stream (run_io m o y).2) as Hrun.
  { intros A m o a _ Hd. unfold run_io. destruct (m o (y_world y)) as [r w']. cbn [snd] in *.
    split; [done|]. split; [done|]. cbn. unfold committed. rewrite Hd, drop_app_length. cbn [List.filter].
    rewrite Hsub. set_solver. }
  destruct e as [|name' payload opts o|name' ms o| | | | | | | | |]; try done; cbn [ystep] in Hs; injection Hs as <-.
  - destruct Hp as (-> & id & Hid). eapply Hrun; [exact Hid|].
    destruct (Publish cfg name payload opts o (y_world y)) as [r w'] eqn:E. cbn in Hid. subst r.
    destruct (Publish_notifies _ _ _ _ _ _ _ _ E) as (meta' & Hm' & Hd). cbn. rewrite Hd. unfold ch. congruence.
  - destruct Hp as (-> & Hne & ids & Hid). eapply Hrun; [exact Hid|].
    destruct (PublishBatch cfg name ms o (y_world y)) as [r w'] eqn:E. cbn in Hid. subst r.
    destruct (PublishBatch_notifies _ _ _ _ _ _ _ Hne E) as (meta' & Hm' & Hd). cbn. rewrite Hd. unfold ch. congruence.
Qed.

(** C11: no worker sleeps through a message.  In any interleaving of publishers, consume
    loops, the notifier's goroutines and other calls on the database, when a publish
    succeeds while a worker of that queue has armed its wake-up channel (it may not have
    looked for a message yet, or have found none), and the LISTEN was confirmed, then a
    worker that is still asleep on that channel at any later time wakes without its poll
    timer, after no more steps of the pump than there are notifications and signals under
    way; as long as the queue is not deleted, the notifier not closed and the listening
    session not lost in between. *)
Theorem published_message_wakes `{Server} (cfg : queueConfig) (w : world) (es1 es2 : list yevent)
    (e : yevent) (ya y : system) (name : string) (meta : queueMetadata) (i : nat) (lpa lp : loop) :
  let ch := notifyChannelName (q_TableName meta) in
  listener cfg = true -> ysteps cfg es1 (system_start cfg w) = Some ya ->
  lookup_any_queue name (w_db (y_world ya)) = Some meta -> publishes_to cfg name e ya ->
  subscribed (y_notifier ya) ch = true ->
  y_loops ya !! i = Some lpa -> lp_channel lpa = ch -> arming (wk_pos (lp_worker lpa)) = true ->
  ysteps cfg (e :: es2) ya = Some y ->
  y_loops y !! i = Some lp -> wk_pos (lp_worker lp) = WWait -> lp_wake lp = lp_wake lpa ->
  Forall (fun e => undisturbed ch e = true) es1 ->
  Forall (fun e => undisturbed ch e = true /\ e <> YDisconnect) es2 ->
  exists es y' y'', Forall (fun e => pumping e = true) es /\
    length es <= 2 * length (y_stream y) + pending_signals y /\
    ysteps cfg es y = Some y' /\ ystep cfg (YWaited i CaseWake) y' = Some y''.
Proof.
  intros ch Hl Hs1 Hm Hp Hsub Hi Hch Harm Hs2 Hi2 Hpos Hwake Hu1 Hu2.
  assert (attentive ch ya) as (n & Hn & Hok & Hc & Hlp).
  { eapply attentive_steps; [done|by apply attentive_init|exact Hu1|exact Hs1]. }
  rewrite Forall_lookup in Hlp. destruct (Hlp i lpa Hi Hch Harm) as (c & wk & Hcw & Hwk & Ha & Hpump).
  cbn [ysteps] in Hs2. destruct (ystep cfg e ya) as [yb|] eqn:Eb; [|done].
  destruct (publish_streams cfg name e ya yb meta Hp Hm Hsub Eb) as (Hnb & _ & Hst).
  assert (owed ch c wk y) as Ho.
  { eapply owed_ysteps; [|exact Hu2|exact Hs2]. exists n. rewrite Hnb. do 5 (split; [done|]). by right; right. }
  destruct (owed_drains cfg ch c wk _ y (le_n _) Ho) as (es & y' & Hes & Hlen & Hrun & Hly & Hr).
  exists es, y'. eexists. split; [done|]. split; [done|]. split; [done|]. cbn [ystep].
  rewrite Hly, Hi2. cbn [mbind option_bind]. rewrite Hpos, Hwake, Hcw. unfold waitForWork. rewrite Hr.
  cbn [mbind option_bind]. unfold loop_step, worker_step. rewrite Hpos. reflexivity.
Qed.

(** An empty channel with one consumer that has found nothing, while its LISTEN was
    confirmed; then a message is published. *)
Definition wake_cfg : queueConfig := applyConfigOptions [WithListener true].
Definition wake_world : world :=
  new_world (set_channels {["jobs"%string := mkChannelTables ∅ ∅]} (set_metadata {[1%Z := sample_meta]} empty_DB)).
Definition wake_run : list yevent :=
  [YConsumeChannel "jobs" [] calm_oracle; YWorker 0; YNotifier (EListened 2 LNil); YNotifier (EConfirm 2);
   YWorker 0; YReceive 0 calm_oracle].
Definition wake_publish : yevent := YPublish "jobs" (Some []) [] calm_oracle.

(** The worker at [i] sleeps on [ch], and [LISTEN] is confirmed. *)
Definition sleeps (i : nat) (ch : string) (y : system) : bool :=
  match y_loops y !! i with
  | Some lp => bool_decide (lp_channel lp = ch) &&
      match wk_pos (lp_worker lp) with WWait => true | _ => false end
  | None => false
  end && subscribed (y_notifier y) ch.

Definition keeps_table (name t : string) (y : system) : bool :=
  match lookup_any_queue name (w_db (y_world y)) with
  | Some meta => bool_decide (q_TableName meta = t)
  | None => false
  end.

Lemma published_message_wakes_witness :
  exists ya y y' y'' es, ysteps (H := truncating_server) wake_cfg wake_run (system_start wake_cfg wake_world) = Some ya /\
    ystep (H := truncating_server) wake_cfg wake_publish ya = Some y /\
    ysteps (H := truncating_server) wake_cfg es y = Some y' /\
    ystep (H := truncating_server) wake_cfg (YWaited 0 CaseWake) y' = Some y''.
Proof.
  destruct (ysteps (H := truncating_server) wake_cfg wake_run (system_start wake_cfg wake_world)) as [ya|] eqn:E.
  2: { assert (match ysteps (H := truncating_server) wake_cfg wake_run (system_start wake_cfg wake_world) with
         Some _ => true | None => false end = true) as Hy by (vm_compute; reflexivity).
       rewrite E in Hy. discriminate Hy. }
  assert (forall f : system -> bool, match ysteps (H := truncating_server) wake_cfg wake_run
      (system_start wake_cfg wake_world) with Some y => f y | None => false end = true -> f ya = true) as Hf.
  { intros f. rewrite E. done. }
  pose proof (Hf (sleeps 0 jobs) ltac:(vm_compute; reflexivity)) as Hs. unfold sleeps in Hs.
  apply andb_true_iff in Hs as [Hs Hsub]. destruct (y_loops ya !! 0%nat) as [lp|] eqn:Ei; [|discriminate Hs].
  apply andb_true_iff in Hs as [Hch%bool_decide_eq_true Hp].
  destruct (wk_pos (lp_worker lp)) eqn:Ep; try discriminate Hp.
  assert (exists id, (Publish wake_cfg "jobs" (Some []) [] calm_oracle (y_world ya)).1 = Ok id) as Hpub.
  { pose proof (Hf (fun y => match (Publish wake_cfg "jobs" (Some []) [] calm_oracle (y_world y)).1 with
      Ok _ => true | Err _ => false end) ltac:(vm_compute; reflexivity)) as Hb. cbv beta in Hb.
    destruct ((Publish wake_cfg "jobs" (Some []) [] calm_oracle (y_world ya)).1) as [id|]; [|discriminate Hb].
    exists id. reflexivity. }
  assert (exists meta, lookup_any_queue "jobs" (w_db (y_world ya)) = Some meta /\ q_TableName meta = "jobs"%string)
    as (meta & Hm & Ht).
  { pose proof (Hf (keeps_table "jobs" "jobs") ltac:(vm_compute; reflexivity)) as Hb. unfold keeps_table in Hb.
    destruct (lookup_any_queue "jobs" (w_db (y_world ya))) as [m|]; [|discriminate Hb].
    exists m. apply bool_decide_eq_true in Hb. exact (conj eq_refl Hb). }
  exists ya, (run_io (Publish wake_cfg "jobs" (Some []) []) calm_oracle ya).2.
  destruct (published_message_wakes (H := truncating_server) wake_cfg wake_world wake_run [] wake_publish ya
    (run_io (Publish wake_cfg "jobs" (Some []) []) calm_oracle ya).2 "jobs" meta 0 lp lp)
    as (es & y' & y'' & _ & _ & Hr & Hw).
  - reflexivity.
  - exact E.
  - exact Hm.
  - exact (conj eq_refl Hpub).
  - rewrite Ht. exact Hsub.
  - exact Ei.
  - rewrite Ht. exact Hch.
  - rewrite Ep. reflexivity.
  - reflexivity.
  - unfold run_io. destruct (Publish _ _ _ _ _ _). exact Ei.
  - exact Ep.
  - reflexivity.
  - repeat constructor.
  - constructor.
  - exists y', y'', es. exact (conj eq_refl (conj eq_refl (conj Hr Hw))).
Defined.
