(* ===== verification/Startup.v ===== *)
(** * Starting up ([InitSchema] and [New] of [pgqueue.go], [AppliedSchemaVersion] of
    [migrations.go])

    A process first migrates the schema and then opens a [Queue]; other processes do the
    same at the same time.  The option checks are those of [Config], the migration is
    that of [Migrations], the notifier that of [Notify]; here they are put together with
    the probe of the server and the reading of the schema version.  Schema names are
    interpolated unquoted, so the server folds them to lower case. *)

From S2P Require Import Prelude Types Tx MetadataCache Config Notify Migrations.
From Stdlib Require Import ZArith Lia Ascii.
Local Open Scope Z_scope.

(** ** The probe of the server *)

(** [strconv.Atoi]: an optional sign and decimal digits, within an int. *)
Definition digit (c : Ascii.ascii) : option Z :=
  if is_digit c then Some (Z.of_nat (Ascii.nat_of_ascii c) - 48) else None.
Fixpoint digits (acc : Z) (cs : list Ascii.ascii) : option Z :=
  match cs with
  | [] => Some acc
  | c :: cs => d ← digit c; digits (10 * acc + d) cs
  end.
Definition unsigned (cs : list Ascii.ascii) : option Z :=
  match cs with [] => None | _ => digits 0 cs end.
Definition Atoi (s : string) : option Z :=
  v ← match String.list_ascii_of_string s with
      | "-"%char :: cs => Z.opp <$> unsigned cs
      | "+"%char :: cs => unsigned cs
      | cs => unsigned cs
      end;
  if (int64_min <=? v) && (v <=? int64_max) then Some v else None.

(** What the server answers to the four queries of a start-up. *)
Record answers := mkAnswers {
  a_ping : option driver_err;
  a_version : string + driver_err;      (* SHOW server_version_num *)
  a_regclass : option driver_err;       (* to_regclass: failure, or what is there *)
  a_read : option driver_err            (* SELECT MAX(version) *)
}.

(** An error of pgqueue or of the driver, or that of [Atoi]. *)
Inductive startError := SErr (x : err) | SNumError (s : string).

Definition checkDBReady (a : answers) : unit + startError :=
  match a_ping a with
  | Some x => inr (SErr (ErrDriver x))
  | None =>
      match a_version a with
      | inr x => inr (SErr (ErrDriver x))
      | inl versionStr =>
          match Atoi versionStr with
          | None => inr (SNumError versionStr)
          | Some versionNum =>
              match checkPGVersion versionNum with
              | Ok _ => inl tt
              | Err x => inr (SErr x)
              end
          end
      end
  end.

(** ** Opening a queue *)

(** What [New] builds besides its contexts. *)
Record handle := mkHandle {
  h_cfg : queueConfig;
  h_mdcache : gmap string cachedQueueMeta;
  h_notifier : option notifier
}.

(** [d] is the configured schema's side of the database. *)
Definition AppliedSchemaVersion (a : answers) (d : database) : result Z :=
  match a_regclass a with
  | Some x => Err (ErrDriver x)
  | None =>
      if version_table d then
        match a_read a with
        | Some x => Err (ErrDriver x)
        | None => Ok (Z.of_nat (schemaVersion d))
        end
      else Ok 0
  end.

(** [present]: the database handle is not nil; [db]: the schemas of the server, by the names
    it knows them under. The statements interpolate the configured name unquoted, and the
    default schema is the one unqualified names resolve to. *)
Definition New (present : bool) (opts : list Option) (a : answers) (db : string -> database) :
    handle + startError :=
  if negb present then inr (SErr ErrDBRequired)
  else
    match New_config opts with
    | Err x => inr (SErr x)
    | Ok cfg =>
        match checkDBReady a with
        | inr x => inr x
        | inl _ =>
            match schemaVer ← AppliedSchemaVersion a (db (fold_identifier (schemaName cfg)));
                  checkSchemaReady schemaVer with
            | Err x => inr (SErr x)
            | Ok _ => inl (mkHandle cfg ∅ (newNotifier (listener cfg)))
            end
        end
    end.

(** ** Migrating *)

(** [InitSchema] up to [runMigrations]: the schema to migrate. *)
Definition InitSchema_begin (present : bool) (opts : list Option) (a : answers) : string + startError :=
  if negb present then inr (SErr ErrDBRequired)
  else
    match InitSchema_config opts with
    | Err x => inr (SErr x)
    | Ok schema =>
        match checkDBReady a with
        | inr x => inr x
        | inl _ => inl schema
        end
    end.

(** The schemas of a server, by their folded names, and the names the calls of
    [InitSchema] for each were given, in the order of their runs. *)
Record server := mkServer {
  sv_db : string -> database;
  sv_given : string -> list string
}.

(** Calls of [InitSchema], and the statements and lost sessions of their migrations of a
    schema. *)
Inductive event :=
| ECall (present : bool) (opts : list Option) (a : answers)
| EMigrate (schema : string) (e : Migrations.event).

Definition is_custom (schema : string) : bool := negb (bool_decide (schemaTablePrefix schema = ""%string)).
Definition at_key {A} (k : string) (x : A) (f : string -> A) : string -> A :=
  fun s => if bool_decide (s = k) then x else f s.

(** A step of a migration of the schema [key]; whether its run sets a search path is a
    matter of the name [given] to its [InitSchema]. *)
Definition migrate (key given : string) (e : Migrations.event) (sv : server) : option server :=
  d ← Migrations.step (Z.to_nat SchemaVersion) migrations (is_custom given) e (sv_db sv key);
  Some (mkServer (at_key key d (sv_db sv)) (sv_given sv)).

Definition step (e : event) (sv : server) : option server :=
  match e with
  | ECall present opts a =>
      match InitSchema_begin present opts a with
      | inl schema =>
          let key := fold_identifier schema in
          migrate key schema EInitSchema
            (mkServer (sv_db sv) (at_key key (sv_given sv key ++ [schema]) (sv_given sv)))
      | inr _ => Some sv
      end
  | EMigrate key EInitSchema => None
  | EMigrate key (ERun i _ as e) | EMigrate key (ELost i as e) =>
      given ← sv_given sv key !! i; migrate key given e sv
  end.

Fixpoint steps (es : list event) (sv : server) : option server :=
  match es with
  | [] => Some sv
  | e :: es => step e sv ≫= steps es
  end.

(** ** Lemmas *)

(** The server is reachable, recent enough, and answers. *)
Definition serves (a : answers) : Prop :=
  a_ping a = None /\ (exists s v, a_version a = inl s /\ Atoi s = Some v /\ minPGVersionNum <= v) /\
  a_regclass a = None /\ a_read a = None.

Lemma checkDBReady_ok a : checkDBReady a = inl tt <->
  a_ping a = None /\ exists s v, a_version a = inl s /\ Atoi s = Some v /\ minPGVersionNum <= v.
Proof.
  unfold checkDBReady, checkPGVersion. destruct (a_ping a); [split; [done|by intros [? _]]|].
  destruct (a_version a) as [s|x]; [|split; [done|by intros (_ & s & v & ? & _)]].
  destruct (Atoi s) as [v|] eqn:E.
  2: { split; [done|]. intros (_ & s' & v' & [= <-] & ? & _). congruence. }
  destruct (Z.ltb_spec v minPGVersionNum).
  - split; [done|]. intros (_ & s' & v' & [= <-] & Hv & ?). assert (v = v') by congruence. lia.
  - split; [|done]. intros _. split; [done|]. by exists s, v.
Qed.

(** The version table is there once a run is past its creation, and when it has rows. *)
Definition past_table (p : mpos) : bool :=
  match p with
  | MReadVersion | MNext _ _ | MNonTx _ _ _ | MBegin _ _ _ | MApply _ _ _ | MRecord _ _ _ | MCommit _ _ _ => true
  | _ => false
  end.
Definition table_ok (d : database) : Prop :=
  version_table d = true \/
  (versions d = [] /\ forall i r, runs d !! i = Some r -> past_table (r_pos r) = false).

Lemma table_set_pos i p d :
  table_ok d -> (past_table p = true -> version_table d = true) -> table_ok (set_pos i p d).
Proof.
  intros [Ht|[Hv Hr]] Hp; [by left|]. destruct (version_table d) eqn:E; [by left|right].
  split; [done|]. intros j r [[-> (r0 & _ & ->)]|[_ Hj]]%lookup_set_pos; [|by eapply Hr].
  cbn. destruct (past_table p); [by discriminate Hp|done].
Qed.
Lemma table_lock l d : table_ok d -> table_ok (set_lock l d).
Proof. done. Qed.
Lemma table_past i r d :
  table_ok d -> runs d !! i = Some r -> past_table (r_pos r) = true -> version_table d = true.
Proof. intros [Ht|[_ Hr]] Hi Hp; [done|]. rewrite (Hr i r Hi) in Hp. done. Qed.

Lemma table_unwind custom i x d : table_ok d -> table_ok (unwind custom i x d).
Proof. intros Ht. unfold unwind. apply table_set_pos; [done|]. by destruct custom. Qed.

Lemma table_step latest ms custom e d d' :
  table_ok d -> Migrations.step latest ms custom e d = Some d' -> table_ok d'.
Proof.
  intros Ht Hs. destruct e as [|i a|i]; cbn [Migrations.step] in Hs.
  - injection Hs as <-. destruct Ht as [Ht|[Hv Hr]]; [by left|right]. split; [done|].
    intros j r [Hj|[_ Hj]]%lookup_app_Some; [by eapply Hr|].
    by apply list_lookup_singleton_Some in Hj as [_ <-].
  - unfold run_step in Hs. destruct (runs d !! i) as [r|] eqn:Ei; [|done]. cbn [mbind option_bind] in Hs.
    pose proof (table_past i r d Ht Ei) as Hp.
    destruct (r_pos r) eqn:Er; cbn [past_table] in Hp; try done;
      try (destruct (r_dead r && _); [done|]);
      unfold acquireMigrationLock, configureMigrationSchema, loadSchemaVersion, applyMigration, releaseLock,
        next_migration in Hs; cbv zeta in Hs; repeat (case_match; try done); simplify_eq;
      first [ by apply table_unwind | by apply table_set_pos | by left; apply Hp
            | apply table_set_pos; [done|]; intros _; by apply Hp
            | by left ].
  - unfold lose_session in Hs. destruct (runs d !! i) as [r|] eqn:Ei; [|done]. injection Hs as <-.
    destruct Ht as [Ht|[Hv Hr]]; [by left|right]. split; [done|]. cbn. intros j r'.
    rewrite list_lookup_insert_Some. intros [(-> & <- & _)|[_ Hj]]; [by apply (Hr j r)|by apply (Hr j)].
Qed.

(** What every step of a migration keeps of a schema holds of every schema throughout. *)
Lemma startup_invariant (I : string -> database -> Prop) :
  (forall key custom e d d', I key d ->
     Migrations.step (Z.to_nat SchemaVersion) migrations custom e d = Some d' -> I key d') ->
  forall es sv sv', (forall s, I s (sv_db sv s)) -> steps es sv = Some sv' -> forall s, I s (sv_db sv' s).
Proof.
  intros HI. assert (forall key given e sv sv', (forall s, I s (sv_db sv s)) ->
    migrate key given e sv = Some sv' -> forall s, I s (sv_db sv' s)) as Hm.
  { intros key given e sv sv' Hsv. unfold migrate. destruct (Migrations.step _ _ _ _ _) as [d|] eqn:E; [|done].
    intros [= <-] s. cbn. unfold at_key. case_bool_decide as Hs; [subst s; by eapply HI|done]. }
  induction es as [|e es IH]; intros sv sv' Hsv Hs; cbn in Hs; [by injection Hs as <-|].
  destruct (step e sv) as [sv1|] eqn:E; [|done]. eapply IH; [|exact Hs].
  destruct e as [present opts a|key [|i a|i]]; cbn [step] in E; [| |destruct (sv_given sv key !! i)..];
    try done; [|by eapply Hm..].
  destruct (InitSchema_begin present opts a) as [schema|]; [|by injection E as <-].
  eapply Hm; [|exact E]. exact Hsv.
Qed.

Lemma table_start k : table_ok (at_version k).
Proof. destruct k; [by right|by left]. Qed.

(** ** Properties *)

(** The schemas as earlier builds left them. *)
Definition left_at (k0 : string -> nat) : server :=
  mkServer (fun s => at_version (k0 s)) (fun _ => []).

(** C19: starting up in order works, whatever else starts at the same time.  Any number of
    processes call InitSchema for any schemas of a server whose schemas earlier builds left
    at versions [k0]; statements fail and sessions die anywhere.  Then a New with valid
    options, on a server that answers and is recent enough, opens the queue exactly when
    the migration of its schema has committed, in particular once some InitSchema for it
    returned nil, and reports ErrSchemaNotInitialized before; no InitSchema finds the schema
    too new; and a schema that a newer build migrated is left as it is and reported as
    ErrSchemaTooNew.  The schema is the one the server folds the configured name to: names
    that differ only in case are one schema. *)
Theorem startup_order (k0 : string -> nat) (es : list event) (sv : server)
    (opts : list Option) (cfg : queueConfig) (a : answers) :
  steps es (left_at k0) = Some sv -> New_config opts = Ok cfg -> serves a ->
  let key := fold_identifier (schemaName cfg) in
  let d := sv_db sv key in
  let k := k0 key in
  let opened := inl (mkHandle cfg ∅ (newNotifier (listener cfg))) in
  let returned r := exists i p, runs d !! i = Some p /\ r_pos p = MReturned r in
  (Z.of_nat k <= SchemaVersion ->
     New true opts a (sv_db sv) =
       (if bool_decide (committed (log d) = []) then inr (SErr ErrSchemaNotInitialized) else opened) /\
     (returned None -> New true opts a (sv_db sv) = opened) /\ ~ returned (Some ErrSchemaTooNew)) /\
  (SchemaVersion < Z.of_nat k ->
     versions d = seq 1 k /\ New true opts a (sv_db sv) = inr (SErr ErrSchemaTooNew)).
Proof.
  intros Hs Hc (Hping & Hver & Hreg & Hread) key d k opened returned.
  destruct (startup_invariant (fun s d => ok (Z.to_nat SchemaVersion) migrations (k0 s) d)
    (fun s c e d d' => mig_ok_step _ _ c init_does_not_panic (k0 s) e d d') es (left_at k0) sv
    (fun s => mig_ok_start _ _ _) Hs key) as [Hv Hl _ Hk _ Hr].
  assert (table_ok d) as Ht by exact (startup_invariant (fun _ => table_ok)
    (fun _ c e d d' => table_step _ _ c e d d') es (left_at k0) sv (fun s => table_start _) Hs key).
  assert (checkDBReady a = inl tt) as Hdb by (by apply checkDBReady_ok).
  fold d k in Hv, Hl, Hk, Hr. unfold New. rewrite Hc, Hdb. cbn [negb]. fold key. fold d.
  assert (AppliedSchemaVersion a d = Ok (Z.of_nat (length (versions d)))) as ->.
  { unfold AppliedSchemaVersion. rewrite Hreg, Hread. destruct Ht as [->|[Hn _]].
    - f_equal. f_equal. unfold schemaVersion. rewrite Hv, length_seq. destruct (length (versions d)); [done|].
      rewrite max_list_seq. lia.
    - rewrite Hn. by destruct (version_table d); [unfold schemaVersion; rewrite Hn|]. }
  cbn [mbind result_bind]. rewrite Hl. unfold checkSchemaReady. change SchemaVersion with 1 in *.
  assert (Z.to_nat 1 = 1%nat) as E1 by done. rewrite E1 in Hk, Hr. split; intros Hk0.
  - split; [|split].
    + case_bool_decide as Hn; [by rewrite Hn|].
      assert (length (versions d) = 1%nat) as -> by (destruct (versions d); [done|]; cbn in *; lia). done.
    + intros (i & p & Hi & Hp). specialize (Hr i p Hi). rewrite Hp in Hr. cbn in Hr.
      assert (length (versions d) = 1%nat) as -> by lia. done.
    + intros (i & p & Hi & Hp). specialize (Hr i p Hi). rewrite Hp in Hr. cbn in Hr. specialize (Hr eq_refl). lia.
  - assert (length (versions d) = k) as Hlen by lia. rewrite Hv, Hlen. split; [done|]. rewrite ?length_seq, ?Hlen.
    destruct (Z.eqb_spec (Z.of_nat k) 0); [lia|]. destruct (Z.ltb_spec (Z.of_nat k) 1); [lia|].
    destruct (Z.ltb_spec 1 (Z.of_nat k)); [done|lia].
Qed.

(** Two processes start on an empty schema, which they spell differently; the first loses
    its session before its migration commits, the second completes. *)
Definition good_answers : answers := mkAnswers None (inl "180001"%string) None None.
Definition two_starts : list event :=
  [ECall true [WithSchema "jobs"] good_answers; ECall true [WithSchema "Jobs"] good_answers] ++
  (EMigrate "jobs" <$> ((ERun 0 <$> replicate 8 AOk) ++ [ELost 0] ++ (ERun 1 <$> replicate 15 AOk))).

Definition completed (i : nat) (schema : string) (sv : server) : bool :=
  match runs (sv_db sv schema) !! i with Some (mkRun (MReturned None) _) => true | _ => false end.
Definition untouched (schema : string) (sv : server) : bool :=
  match committed (log (sv_db sv schema)) with [] => true | _ => false end.

Lemma startup_order_witness :
  exists sv, steps two_starts (left_at (fun _ => 0%nat)) = Some sv /\
    New true [WithSchema "JOBS"] good_answers (sv_db sv) =
      inl (mkHandle (applyConfigOptions [WithSchema "JOBS"]) ∅ None) /\
    New true [] good_answers (sv_db sv) = inr (SErr ErrSchemaNotInitialized).
Proof.
  assert (serves good_answers) as Ha.
  { split; [reflexivity|]. split; [|split; reflexivity]. exists "180001"%string, 180001.
    split; [reflexivity|]. split; [reflexivity|]. unfold minPGVersionNum. lia. }
  destruct (steps two_starts (left_at (fun _ => 0%nat))) as [sv|] eqn:E.
  2: { assert (match steps two_starts (left_at (fun _ => 0%nat)) with Some _ => true | None => false end = true)
         as Hx by (vm_compute; reflexivity). rewrite E in Hx. discriminate Hx. }
  assert (forall f : server -> bool, match steps two_starts (left_at (fun _ => 0%nat)) with
    Some y => f y | None => false end = true -> f sv = true) as Hf by (intros f; rewrite E; done).
  exists sv. split; [reflexivity|]. split.
  - destruct (startup_order (fun _ => 0%nat) two_starts sv [WithSchema "JOBS"]
      (applyConfigOptions [WithSchema "JOBS"]) good_answers E) as [H0 _].
    + vm_compute. reflexivity.
    + exact Ha.
    + apply H0; [cbn; unfold SchemaVersion; lia|]. exists 1%nat.
      pose proof (Hf (completed 1 "jobs") ltac:(vm_compute; reflexivity)) as Hb.
      unfold completed in Hb.
      change (fold_identifier (schemaName (applyConfigOptions [WithSchema "JOBS"]))) with "jobs"%string.
      destruct (runs (sv_db sv "jobs"%string) !! 1%nat) as [[p dead]|]; [|discriminate Hb].
      exists (mkRun p dead). split; [reflexivity|]. destruct p as [| | | | | | | | | | | | | | |[x|]]; try discriminate Hb.
      reflexivity.
  - destruct (startup_order (fun _ => 0%nat) two_starts sv [] (applyConfigOptions []) good_answers E) as [H0 _].
    + vm_compute. reflexivity.
    + exact Ha.
    + destruct H0 as [H0 _]; [cbn; unfold SchemaVersion; lia|]. rewrite H0.
      pose proof (Hf (untouched (fold_identifier (schemaName (applyConfigOptions [])))) ltac:(vm_compute; reflexivity))
        as Hb. unfold untouched in Hb.
      destruct (committed (log (sv_db sv (fold_identifier (schemaName (applyConfigOptions [])))))); [reflexivity|discriminate Hb].
Defined.
